(* ===== verification/_CoqProject ===== *)
-Q . S2P
Prelude.v
Float64.v
Json.v
JsonText.v
FloatText.v
Unicode.v
Schema.v
SchemaContract.v
SchemaNumber.v
SchemaValue.v
Retry.v
RetryJson.v
Accounting.v
Pricing.v
CacheKey.v
Runtime.v
Scripted.v
ProviderNormalize.v
ProviderProperties.v
ProviderPayload.v
PayloadProperties.v
Endpoint.v
EndpointProperties.v
ProviderRouter.v
RouterProperties.v
RecoveryPlan.v
RuntimeExecute.v
Client.v
ClientProperties.v
BatchController.v
BatchPool.v
PoolWorkflow.v
PoolInvariant.v
PoolProperties.v
Ledger.v
LedgerQueue.v
LedgerInvariant.v
LedgerProperties.v
QueueProperties.v
AttemptFlow.v
AttemptSystem.v
AttemptProperties.v
Admission.v
AdmissionOrigin.v
AdmissionSystem.v
RequestTracking.v
TrackingProperties.v
Dispatcher.v
DispatcherSystem.v
DispatcherProperties.v
Handoff.v
WakeHints.v
Workers.v
Base64.v
Credential.v
CredentialProperties.v
Profile.v
ProfileStore.v
StoreProperties.v
