(* ===== verification/Prelude.v ===== *)
(** * A verified model of the harden-llm execution core

    harden-llm runs calls to language-model providers reliably: it retries
    transient failures, repairs and reruns structured output that does not
    validate, accounts for tokens and cost, caches results under a canonical
    identity, and admits durable batch work to a provider's capacity.  This
    library models that core as executable Rocq functions, translated from the
    Go sources under [src/], and proves what makes it correct.

    ** The parts and where they are modelled

    - [Prelude] (this file): the notation for struct updates and fallible
      results, 64-bit integers, [time.Time] and [time.Duration], the functions of
      Go's [strings] package the sources call, and the shared automation.
    - [Float64]: Go's [float64] as IEEE 754 binary64 (the Standard Library's
      [SpecFloat]), with [math.Round], [math.Floor] and the integer conversions.
    - [Json] and [JsonText]: decoded JSON values, the encoder of [encoding/json]
      and its decoder, with the proof that each undoes the other.
    - [FloatText]: the shortest decimal text of a [float64], which the encoder and
      the payloads print.
    - [Unicode]: the runes of a string; the category tables are a class.
    - [Schema]: [src/internal/schema/schema.go].  Shorthand schemas and their
      expansion, the contract of a schema, the validation of a value and the
      redacted diagnostics; [SchemaContract], [SchemaNumber] and [SchemaValue] hold
      the theorems.
    - [Retry]: [src/internal/retry/retry.go].  The recovery policy and its
      validation, the classification of failures, the backoff with full jitter,
      and the scan of provider options for credentials.  [RetryJson] has the JSON
      form of a policy.
    - [Accounting]: [src/internal/accounting/accounting.go].  Usage and cost with
      checked addition, the provider accumulator, the cost of a priced usage.
    - [Pricing]: [src/internal/accounting/pricing.go].  Itemised usage with
      rates, its normalisation, summary, addition and cost.
    - [CacheKey]: [src/internal/cachekey].  The normal form of an operation, its
      canonical JSON and the cache identity hashed from it.
    - [Runtime]: the types of [src/internal/runtime] and the helpers both
      execution loops share (admission of results and of cache entries, accounting
      failures, targets, search metadata, progress snapshots).
    - [RecoveryPlan]: [executeRecoveryPlan] of
      [src/internal/runtime/recovery_execute.go], with the preparation of stages.
    - [RuntimeExecute]: [Execute] of [src/internal/runtime/execute.go], the entry
      point: validation, dispatch to the recovery plan, the single-stage loop.
    - [Client]: the public client, [src/client.go], connections.go, tools.go and
      client_cache.go: the catalog, the checks of a request, the call and the
      projection of its record, the cache adapter; [ClientProperties] has the
      theorems.
    - [ProviderNormalize]: [src/internal/providers/normalize.go] and
      search_result.go.  What the router makes of a provider's response: output,
      completion, usage, cost and search metadata; [ProviderProperties] has the
      theorems.
    - [ProviderPayload]: [src/internal/providers/payload.go] and search_options.go.
      The request a provider is sent, for each of the four protocols;
      [PayloadProperties] has the theorems.
    - [Endpoint]: [src/internal/providers/endpoint.go].  The guard every exchange
      leaves through: hosts, addresses, resolution and the pinned connections;
      [EndpointProperties] has the theorems.
    - [ProviderRouter]: [src/internal/providers/router.go] and the pure parts of
      web_search.go.  [Prepare] and [Execute] of the router, the collectors of
      event streams, and the errors of the transport; [RouterProperties] has the
      theorems.
    - [BatchController]: [src/stateful/batch/controller.go].  The pacer of a
      provider pool: burst, rate, admission window, cooldown and recovery probe.
    - [BatchPool]: [src/stateful/batch/pool_state.go], recovery_jitter.go, the
      waiting reasons of pool_progress.go, budget.go, and the ledger's records.
    - [PoolWorkflow]: [PoolWorkflow] of [src/stateful/batch/pool_workflow.go], one
      turn of its loop as a function of the signals and completed activities.
    - [PoolInvariant] and [PoolProperties]: the life of a pool, its invariant and
      the theorems about it.
    - [Ledger]: the execution ledger, [src/stateful/batch/ledger_store.go],
      ledger_claim.go, request_queue.go and the fences of handoff.go: its tables and
      its transactions on pools, reservations, claims, dispatches, settlements and
      waiting requests, with the items and jobs of store.go.
    - [LedgerQueue]: submissions and the status of a job (store.go, types.go), the
      page of ready items (queue.go) and publications (pool_progress.go).
    - [LedgerInvariant]: the invariant of the ledger and how its rows evolve, for
      every transaction; [LedgerProperties] and [QueueProperties] have the theorems.
    - [AttemptFlow]: the execution of an attempt, [src/stateful/batch/attempt_execution.go],
      attempt_workflow.go, attempt_starter.go, provider_observation.go, activities.go,
      the activities of the pool (pool_workflow.go) and the delivery of results
      (types.go).  [AttemptSystem] runs any number of invocations against the ledger;
      [AttemptProperties] has the theorems about reconciliation and the workflow.
    - [Admission]: the dispatch of an ordinary request through the pool,
      [src/stateful/cpa_admission.go] and [batch/request_signals.go]: the origin of an
      endpoint, the wait for a permit, claim, execution, clean-up and settlement.
      [AdmissionOrigin] and [AdmissionSystem] have the theorems.
    - [RequestTracking]: the status of a running request,
      [src/stateful/request_tracking*.go], dispatch_tracking.go and
      [src/internal/gateway/httpapi/request_tracking.go]: the record, the session, the
      table and what drives them; [TrackingProperties] has the theorems.
    - [Dispatcher]: the first generation of the batch service,
      [src/stateful/batch/workflows.go]: the workflow of a job and the dispatcher that
      admitted calls before there were pools.  [DispatcherSystem] runs it with any
      number of calls in flight; [DispatcherProperties] has the theorems.
    - [Handoff]: [src/stateful/batch/handoff.go], the upgrade from a dispatcher to a pool.
    - [WakeHints]: [src/stateful/batch/pool_wake.go], callers that share one signal.
    - [Workers]: [src/stateful/batch/workers.go], the pair of workers of a process.
    - [Base64], [Credential]: [src/stateful/credential.go], the vault that encrypts the
      credentials which callers enter; [CredentialProperties] has the theorem.
    - [Profile]: [src/stateful]: definition.go, profile.go, presets.go and resolve.go, the
      profiles of the reference service with every check of what a caller saves.
    - [ProfileStore]: profile_store.go, bundle.go, draft.go and cache.go over the tables of
      schema.sql; [StoreProperties] has the theorems.
    - [Scripted]: a concrete environment in which the runtime's theorems are
      applied to runs; it models no source.

    ** How the parts interact

    A caller's request enters at [Client.Call], which checks it, normalises its schema
    with [Schema], and gives the runtime an environment of its own (its cache adapter
    and progress channel) with the schema as the validator.
    [Execute] validates a [Retry.Policy], prepares an operation with the caller's
    executor, looks its [CacheKey.Hash] up in the cache, and loops: an attempt, the
    accounting of its ledger ([Accounting]), the admission of its output, the
    classification of its failure ([Retry.Classify]), and then a wait
    ([Retry.Delay]), the next stage of the plan, or the end.  The executor the
    program supplies is the router: [ProviderRouter.Prepare] checks the endpoint
    with [Endpoint], builds the request with [ProviderPayload], and
    [ProviderRouter.Execute] exchanges it and reads the response with
    [ProviderNormalize].  Batch work runs
    outside of this loop: [PoolWorkflow] grants permits from a [PoolState], whose
    [Controller] decides when a call may start, and settles them from what the
    ledger reports about the attempts.  The ledger is the shared state of the pool,
    of the workers that execute attempts and of the job service: each of them only
    sees it through its transactions.  The activities of [AttemptFlow] are those
    workers: a program is a tree of its interactions with the ledger, the clock, the
    provider, the object store and the workflow service, so that the interactions of
    others may come between any two of its own.  An ordinary request reaches the same
    pool through [Admission], an executor around the router's: it queues a waiter in
    the ledger, claims the permit the pool grants it, and enters the provider under it.
    What happens to a request is told to its session ([RequestTracking]), whose
    snapshots a collector writes to a table of their own.  A batch that was accepted
    before the pools runs under a [Dispatcher], which continues as the workflow of a pool
    when it has been asked to upgrade and nothing of its own is left in flight: the state
    it hands over is one that [PoolWorkflow] may start from.  Whoever commits a claim or a
    settlement wakes the pool through [WakeHints].  The reference service keeps the
    settings of its callers in tables of its own ([ProfileStore]): a profile resolves to a
    connection of [Client], with the key of a deployed connection or of a credential that
    [Credential] opens; the AEAD and the parsers it needs are the classes [VaultEnv] and
    [ProfileEnv], and [GcmLaws] states what an AEAD promises.

    ** How the code is modelled

    A struct is a primitive [Record] and [r <| f := v |>] updates a field.  A Go
    [(value, error)] is a [res].  An [int] or [int64] whose overflow matters is a
    [Z] with [wrap64]; the counters of a pool that only count events (sequence,
    episode, window, policy revision) are unbounded [Z]s, apart from the test of
    [Sequence] against [math.MaxInt64] that the code makes.  An instant is a
    number of nanoseconds since year 1, Go's zero time; the monotonic clock and
    locations are not represented.  Errors are the values of [Retry.goerror], with
    [errors.Is] and [errors.As] as walks over wrapped errors.

    What the program is given by its environment is the operations of two
    classes.  [Runtime.Env] has the clock, the random source, the wait, the
    context, the executor, the cache, the progress callback, the observer, SHA-256
    and the URL parser, all acting on a world of any type: a theorem about an
    execution holds for every such environment, so for every provider, cache,
    clock and cancellation.  [BatchPool.PoolEnv] has the UUID and hash functions;
    [PoolInvariant.PoolLaws] states the one idealisation used, that SHA-1 UUIDs of
    different identity strings differ and are not empty.  [Ledger.LedgerEnv] has the
    canonical form of an identifier, the JSON column type and SHA-256;
    [LedgerInvariant.LedgerLaws] says that canonical identifiers denote themselves
    and that the empty text is none.  [AttemptFlow.ArtifactEnv] has the decoder of
    stored artifacts.  The length of a pool's
    JSON text, which the snapshot limit is about, is a parameter, and so are the
    Unicode tables ([Unicode.UnicodeTables]), [strconv.Quote], the texts of JSON
    errors and the random identifiers of Gemini's tool calls.  [Endpoint.EndpointEnv]
    has the URL parser, the text form of addresses and the resolver; the router is
    also given the HTTP exchange (the pieces of a body in the order they arrive and
    how it ends), the printing of URLs, [http.ParseTime] and the parser of decimal
    numbers.  [Client.ClientEnv] has the cache store, the progress channel, the
    observer, the random source and the JSON codec of a cached result.

    The loops of the executors are bounded by fuel.  The fuel is never a
    hypothesis about the result: [MaxAttempts + 1] turns are proved to be enough
    ([executeRecoveryPlan_refines_plan]), and [Execute] supplies them itself
    ([Execute_total_bounded]).  The wait for a permit polls in rounds; one for every
    tenth of a second up to the deadline are enough ([admission_wait_ends]).  The workflow
    of a job and the wait for an upgrade run for as long as the engine lets them: their
    number of rounds is a variable of the theorems, which are about every number; the
    dispatcher is cut where its loops come round, each piece is finite, and an execution
    is any sequence of pieces.  The JSON
    decoder recurses on the
    length of the text, which is proved to be enough ([JsonText.parse_fuel]).

    ** What the theorems show

    - Execution ([RecoveryPlan], [RuntimeExecute]): every call returns within its
      attempt budget; the attempts of a recovery plan refine the abstract machine
      [plan_trace] of the plan's stages; stages only move forward and only a
      transport failure repeats one; no output is committed, from a provider or
      from the cache, unless it is non-empty, has a valid ledger and passed the
      caller's validator; and the record, its stop reason and the error agree.
    - Client ([ClientProperties]): every call returns, and a structured result is a
      value of the schema the caller gave; the catalog and the tools that are accepted
      are the well-formed ones; the cache returns what was stored; identifiers are
      version 4 UUIDs.
    - Batch admission ([PoolProperties], [BatchController]): over every
      interleaving of grants, reads, signals and rollovers the pool's capacity is
      bounded, permits are unique and settle once, a probe cannot deadlock the
      pool, a rollover is refused only for the size of its snapshot, the padded
      recovery deadline is bounded and immutable, and the published waiting reason
      is exact.  The pacer is a token bucket over an admission window and only the
      recovery probe reopens admission.
    - Ledger ([LedgerProperties], [QueueProperties]): over every interleaving of
      transactions, refused, rolled back, committed or committed without an answer,
      an item has one owner at most, a permit is dispatched once, outcomes are
      final, a new generation starts when nothing of the old one runs, an
      idempotency key has one job, and the page of ready items is fair.  The one
      restriction on a transaction is that the legacy dispatcher records an item
      that no permit owns ([LedgerInvariant.st_record]): its SQL does not ask.
    - Attempts ([AttemptSystem], [AttemptProperties]): over every interleaving of
      invocations, lost acknowledgements and crashes, a permit enters the provider
      once at most, and an invocation reports truthfully whether it did; an attempt
      whose time is over is settled by one reconciliation, also when it had staged
      an observation; the workflow of an attempt invokes once, and ends with a
      settlement or a cancelled sleep and not before.
    - Ordinary dispatches ([AdmissionSystem], [AdmissionOrigin]): a dispatch enters the
      provider at most once and only under a permit of its own, says the truth about
      it, settles what it claimed and cancels what it did not, and its wait ends; two
      endpoints with ASCII host names have one origin exactly when they are at the same
      scheme, host and port.
    - Dispatcher ([DispatcherProperties], [Handoff]): over every interleaving of signals,
      coroutines, lost results and rollovers an item has at most one call in flight and
      calls are admitted within the policy; a handoff happens when nothing is in flight,
      and the pool starts in a state its invariant holds of; the generation in the ledger
      changes only when nothing of the old one is active, and the old one is over from
      then on; every job that waits is served
      in its turn; the workflow of a job ends when the job is done and expires it in time.
    - Wakes ([WakeHints], [Workers]): a caller that is told of success joined its batch
      before the one signal of the batch was sent; the two workers of a process run
      together or not at all.
    - Credentials and settings ([CredentialProperties], [StoreProperties]): a sealed
      credential opens exactly for the access key, identifier and origin it was sealed for;
      over every sequence of operations the rows of an access key are changed by its own
      operations alone, every stored credential opens for the row it is in, and a profile
      resolves to a key that belongs to the origin it calls; a draft is replaced only by a
      save that has seen its revision.
    - Tracking ([TrackingProperties]): every snapshot of a session satisfies the
      constraints of its table; whatever becomes of its writes the table shows a whole
      snapshot, an acknowledged one or a later one, and a final one for good; an
      identifier is reserved once.
    - Responses ([ProviderProperties]): what the router hands over as a success
      passes the runtime's admission, up to values of structured calls and values the
      provider parsed, which are identified in the response; a failure never loses the ledger of the
      response, and the token counts add up to the totals that were reported.
    - Requests ([PayloadProperties]): a provider's hosted search is in a request
      exactly when the caller asked for it, the connection and the protocol support it
      and the call is no repair.
    - Egress ([EndpointProperties]): every dial goes to an address outside of the
      listed ranges, or one that the policy lists, and a request leaves without a host
      of its own and without the headers that are withheld.
    - Exchanges ([RouterProperties]): an execution always returns, a success is
      admissible and a failure hands over no output; the reader of a stream stops
      whatever the provider sends, and succeeds only with the response of a terminal
      event of the stream.
    - Schemas ([SchemaContract], [SchemaNumber], [SchemaValue]): the two validators
      accept exactly the contracts and the values of an inductive specification,
      expansion is idempotent, numbers are compared by their exact value, and a
      diagnostic quotes the end of the output with its letters and digits hidden (its
      message may name keys of the output).
    - Retrying ([Retry], [RetryJson]): the wait is bounded below by Retry-After and above by
      the exponential window for every random value; only transient failures the
      policy lists are retried; validation accepts exactly the well-formed
      policies, and the JSON of a valid policy reads back as that policy.
    - Accounting ([Accounting], [Pricing]): additions are exact or refused, do not
      depend on order, and never lose uncertainty; the accumulated ledger is
      always valid.
    - Cache identity ([CacheKey]): the hash does not depend on map iteration order.

    ** What is not modelled

    HTTP ([src/httpclient], [src/internal/gateway], [src/cmd]) and the PostgreSQL,
    Temporal and object store code of [src/stateful] are input and output around
    this core.  PostgreSQL is a value of [Ledger.DB]: a transaction locks the rows it
    reads, so it is atomic, and the one read that finds nothing to lock is told
    whether another transaction came in between; the migrations of the schema are
    not modelled, and a sequence value that a refused insert uses up is not counted.
    Revisions and counters of rows are unbounded integers.  The reader of a catalog's text,
    the namespace of a cache, the resolution of a run, history, runs and artifacts,
    the gateway's handlers, the listing of models, the capacity and telemetry tools, the test harnesses and the Elixir
    frontend have no definition here.  The reflective check of [cachekey.validateJSONSafe] accepts every
    decoded JSON value, which is what payloads are here, so it does not appear. *)
From Stdlib Require Export ZArith Lia Bool.
From Stdlib Require Import Ascii.
From stdpp Require Export base list strings option numbers sets.

#[export] Set Primitive Projections.
#[export] Set Default Goal Selector "!".

Global Open Scope Z_scope.

(** ** Field updates of Go structs *)

(** [upd proj f r] is the struct [r] with the field [proj] replaced by [f] of
    its old value.  Records are primitive, so that [cbn] turns a projection of
    an update into the projection of the original struct. *)
Class Setter {R T : Type} (proj : R → T) := upd : (T → T) → R → R.
Global Arguments upd {R T} proj {_} _ _.

Definition eta_of {R : Type} (r : R) : Type := { r' : R | r' = r }.

Ltac build_setter :=
  lazymatch goal with
  | |- @Setter ?R ?T ?p =>
      let f := fresh "f" in
      let r := fresh "r" in
      intros f r;
      let s := constr:(ltac:(unshelve eexists; [econstructor | reflexivity]) : eta_of r) in
      lazymatch s with
      | exist _ ?b _ =>
          let g := eval cbv beta in (p r) in
          match b with context C [g] => let b' := context C [f g] in exact b' end
      end
  end.
Global Hint Extern 1 (@Setter _ _ _) => build_setter : typeclass_instances.

Declare Scope go_scope.
Delimit Scope go_scope with go.
Notation "r <| p ::= f |>" := (upd p f r)
  (at level 1, left associativity, p at level 0, f at level 99) : go_scope.
Notation "r <| p := v |>" := (upd p (fun _ => v) r)
  (at level 1, left associativity, p at level 0, v at level 99) : go_scope.
Global Open Scope go_scope.

(** ** Results of fallible operations: Go's [(value, error)] returns *)

Inductive res (E A : Type) : Type :=
| Ok (a : A)
| Err (e : E).
Global Arguments Ok {E A} a.
Global Arguments Err {E A} e.

Definition res_bind {E A B : Type} (m : res E A) (k : A → res E B) : res E B :=
  match m with Ok a => k a | Err e => Err e end.
Notation "'let?' x ':=' m 'in' k" := (res_bind m (fun x => k))
  (at level 10, x name, m at level 100, k at level 200) : go_scope.

Definition is_ok {E A : Type} (m : res E A) : bool :=
  match m with Ok _ => true | Err _ => false end.

(** [fail_if c e] is the [if c then return e] of a validator. *)
Definition fail_if {E : Type} (c : bool) (e : E) : res E unit :=
  if c then Err e else Ok tt.

Lemma res_bind_ok {E A B : Type} (m : res E A) (k : A → res E B) (b : B) :
  res_bind m k = Ok b ↔ ∃ a, m = Ok a ∧ k a = Ok b.
Proof. destruct m; cbn; naive_solver. Qed.

Lemma res_bind_err {E A B : Type} (m : res E A) (k : A → res E B) (e : E) :
  res_bind m k = Err e ↔ m = Err e ∨ ∃ a, m = Ok a ∧ k a = Err e.
Proof. destruct m; cbn; naive_solver. Qed.

Lemma fail_if_ok {E : Type} (c : bool) (e : E) (u : unit) : fail_if c e = Ok u ↔ c = false.
Proof. destruct c, u; naive_solver. Qed.

(** A validator's chain of guards succeeds when each of them passes. *)
Lemma fail_if_then_ok {E A : Type} (c : bool) (e : E) (k : res E A) (a : A) :
  (let? _ := fail_if c e in k) = Ok a ↔ c = false ∧ k = Ok a.
Proof. destruct c; cbn; naive_solver. Qed.

Lemma check_then_ok {E A : Type} (m : res E unit) (k : res E A) (a : A) :
  (let? _ := m in k) = Ok a ↔ m = Ok tt ∧ k = Ok a.
Proof. destruct m as [[]|]; cbn; naive_solver. Qed.

(** ** Machine integers *)

Definition int64_max : Z := 9223372036854775807.
Definition int64_min : Z := -9223372036854775808.

(** Two's complement wrap-around to 64 bits, Go's [int64] and [int]. *)
Definition wrap64 (z : Z) : Z := (z + 9223372036854775808) mod 18446744073709551616 - 9223372036854775808.

(** Saturation to 64 bits, as [time.Time.Sub] does. *)
Definition sat64 (z : Z) : Z := Z.max int64_min (Z.min int64_max z).

Definition in_int64 (z : Z) : Prop := int64_min ≤ z ≤ int64_max.

Lemma wrap64_id z : in_int64 z → wrap64 z = z.
Proof.
  unfold in_int64, int64_min, int64_max, wrap64. intros H.
  rewrite Z.mod_small; lia.
Qed.

Lemma wrap64_range z : in_int64 (wrap64 z).
Proof.
  unfold in_int64, int64_min, int64_max, wrap64.
  pose proof (Z.mod_pos_bound (z + 9223372036854775808) 18446744073709551616). lia.
Qed.

Lemma sat64_range z : in_int64 (sat64 z).
Proof. unfold in_int64, sat64, int64_min, int64_max. lia. Qed.

(** The residue of a wrapped sum: what an overflowing sum is congruent to. *)
Lemma wrap64_mod z : ∃ k, wrap64 z = z + k * 18446744073709551616.
Proof.
  unfold wrap64.
  exists (- ((z + 9223372036854775808) / 18446744073709551616)).
  pose proof (Z.div_mod (z + 9223372036854775808) 18446744073709551616). lia.
Qed.

(** Wrapping commutes with the additions that follow it. *)
Lemma wrap64_add a b : wrap64 (wrap64 a + b) = wrap64 (a + b).
Proof.
  destruct (wrap64_mod a) as [k ->]. unfold wrap64. f_equal.
  rewrite <- (Z_mod_plus_full (a + b + 9223372036854775808) k 18446744073709551616). f_equal. lia.
Qed.

(** ** Time

    [Time] is an instant in nanoseconds since January 1 of year 1, Go's zero
    [time.Time]; [Duration] is an [int64] number of nanoseconds. *)

Definition Time : Type := Z.
Definition Duration : Type := Z.
Definition time_zero : Time := 0.

Definition Nanosecond : Duration := 1.
Definition Microsecond : Duration := 1000.
Definition Millisecond : Duration := 1000000.
Definition Second : Duration := 1000000000.
Definition Minute : Duration := 60000000000.
Definition Hour : Duration := 3600000000000.

Definition IsZero (t : Time) : bool := t =? time_zero.
Definition Before (t u : Time) : bool := t <? u.
Definition After (t u : Time) : bool := u <? t.
Definition time_Equal (t u : Time) : bool := t =? u.
Definition Add (t : Time) (d : Duration) : Time := t + d.
Definition Sub (t u : Time) : Duration := sat64 (t - u).
Definition Milliseconds (d : Duration) : Z := Z.quot d Millisecond.

Definition minTime (a b : Time) : Time := if Before a b then a else b.
Definition maxTime (a b : Time) : Time := if After a b then a else b.

Lemma minTime_min a b : minTime a b = Z.min a b.
Proof. unfold minTime, Before. destruct (Z.ltb_spec a b); lia. Qed.

Lemma maxTime_max a b : maxTime a b = Z.max a b.
Proof. unfold maxTime, After. destruct (Z.ltb_spec b a); lia. Qed.

(** ** Strings: the functions of Go's [strings] package the program calls *)

Definition byte_of (n : nat) : ascii := ascii_of_nat n.

Definition between (lo hi n : nat) : bool := (lo <=? n)%nat && (n <=? hi)%nat.

(** The encodings of [unicode.White_Space]: one byte, U+0085 and U+00A0 in two,
    U+1680, U+2000..U+200A, U+2028, U+2029, U+202F, U+205F and U+3000 in three. *)
Definition space1 (a : ascii) : bool :=
  let a := nat_of_ascii a in between 9 13 a || (a =? 32)%nat.
Definition space2 (a b : ascii) : bool :=
  let a := nat_of_ascii a in let b := nat_of_ascii b in
  (a =? 194)%nat && ((b =? 133)%nat || (b =? 160)%nat).
Definition space3 (a b c : ascii) : bool :=
  let a := nat_of_ascii a in let b := nat_of_ascii b in let c := nat_of_ascii c in
  ((a =? 225)%nat && (b =? 154)%nat && (c =? 128)%nat)
  || ((a =? 226)%nat && (b =? 128)%nat
        && (between 128 138 c || (c =? 168)%nat || (c =? 169)%nat || (c =? 175)%nat))
  || ((a =? 226)%nat && (b =? 129)%nat && (c =? 159)%nat)
  || ((a =? 227)%nat && (b =? 128)%nat && (c =? 128)%nat).

Fixpoint trim_with (s2 : ascii → ascii → bool) (s3 : ascii → ascii → ascii → bool) (s : string) : string :=
  match s with
  | EmptyString => EmptyString
  | String a r1 =>
      if space1 a then trim_with s2 s3 r1 else
      match r1 with
      | EmptyString => s
      | String b r2 =>
          if s2 a b then trim_with s2 s3 r2 else
          match r2 with
          | EmptyString => s
          | String c r3 => if s3 a b c then trim_with s2 s3 r3 else s
          end
      end
  end.

Fixpoint string_rev_onto (s acc : string) : string :=
  match s with
  | EmptyString => acc
  | String a r => string_rev_onto r (String a acc)
  end.
Definition go_string_rev (s : string) : string := string_rev_onto s EmptyString.

(** [strings.TrimSpace] *)
Definition TrimSpace (s : string) : string :=
  let left := trim_with space2 space3 s in
  go_string_rev (trim_with (fun b a => space2 a b) (fun c b a => space3 a b c) (go_string_rev left)).

(** [strings.ToLower], exact on the code points whose lower case is ASCII: the
    letters A to Z, U+0130 and U+212A.  Every other code point has a lower case
    outside ASCII and is kept, which no comparison with an ASCII constant sees. *)
Definition lower_ascii (a : ascii) : ascii :=
  let n := nat_of_ascii a in if between 65 90 n then byte_of (n + 32) else a.
Fixpoint ToLower (s : string) : string :=
  match s with
  | EmptyString => EmptyString
  | String a r1 =>
      match r1 with
      | String b r2 =>
          if (nat_of_ascii a =? 196)%nat && (nat_of_ascii b =? 176)%nat
          then String "i" (ToLower r2) else
          match r2 with
          | String c r3 =>
              if (nat_of_ascii a =? 226)%nat && (nat_of_ascii b =? 132)%nat && (nat_of_ascii c =? 170)%nat
              then String "k" (ToLower r3) else String (lower_ascii a) (ToLower r1)
          | EmptyString => String (lower_ascii a) (ToLower r1)
          end
      | EmptyString => String (lower_ascii a) EmptyString
      end
  end.

(** [strings.ToUpper], exact on the code points whose upper case is ASCII: the
    letters a to z, U+0131 and U+017F. *)
Definition upper_ascii (a : ascii) : ascii :=
  let n := nat_of_ascii a in if between 97 122 n then byte_of (n - 32) else a.
Fixpoint ToUpper (s : string) : string :=
  match s with
  | EmptyString => EmptyString
  | String a r1 =>
      match r1 with
      | String b r2 =>
          if (nat_of_ascii a =? 196)%nat && (nat_of_ascii b =? 177)%nat then String "I" (ToUpper r2)
          else if (nat_of_ascii a =? 197)%nat && (nat_of_ascii b =? 191)%nat then String "S" (ToUpper r2)
          else String (upper_ascii a) (ToUpper r1)
      | EmptyString => String (upper_ascii a) EmptyString
      end
  end.

(** Simple case folding to ASCII: letters, U+017F to s and U+212A to k. *)
Fixpoint fold_case (s : string) : string :=
  match s with
  | EmptyString => EmptyString
  | String a r1 =>
      match r1 with
      | String b r2 =>
          if (nat_of_ascii a =? 197)%nat && (nat_of_ascii b =? 191)%nat
          then String "s" (fold_case r2) else
          match r2 with
          | String c r3 =>
              if (nat_of_ascii a =? 226)%nat && (nat_of_ascii b =? 132)%nat && (nat_of_ascii c =? 170)%nat
              then String "k" (fold_case r3) else String (lower_ascii a) (fold_case r1)
          | EmptyString => String (lower_ascii a) (fold_case r1)
          end
      | EmptyString => String (lower_ascii a) EmptyString
      end
  end.

Fixpoint remove_byte (x : ascii) (s : string) : string :=
  match s with
  | EmptyString => EmptyString
  | String a r => if Ascii.eqb a x then remove_byte x r else String a (remove_byte x r)
  end.

(** The number a string of decimal digits denotes, after [acc]. *)
Fixpoint digits_value (acc : Z) (s : string) : option Z :=
  match s with
  | EmptyString => Some acc
  | String a r =>
      let n := nat_of_ascii a in
      if between 48 57 n then digits_value (acc * 10 + Z.of_nat (n - 48)) r else None
  end.

(** Concatenation, which [cbn] does not unfold. *)
Lemma string_app_cons a (s t : string) : String a s +:+ t = String a (s +:+ t).
Proof. reflexivity. Qed.

Lemma string_app_assoc (s t u : string) : (s +:+ t) +:+ u = s +:+ (t +:+ u).
Proof. induction s as [|a s IH]; [done|]. rewrite !string_app_cons. by rewrite IH. Qed.

Lemma string_app_nil (s : string) : s +:+ EmptyString = s.
Proof. induction s as [|a s IH]; [done|]. by rewrite string_app_cons, IH. Qed.

Lemma string_length_app (s t : string) : String.length (s +:+ t) = (String.length s + String.length t)%nat.
Proof. induction s as [|a s IH]; [done|]. rewrite string_app_cons. cbn. by rewrite IH. Qed.

Lemma substring_length_le n s : (String.length (String.substring 0 n s) ≤ n)%nat.
Proof. revert s. induction n as [|n IH]; intros [|a s]; cbn; try lia. specialize (IH s). lia. Qed.

(** [len(s)] of a string, as an [int]. *)
Definition slen (s : string) : Z := Z.of_nat (String.length s).

Definition str_in (s : string) (l : list string) : bool := existsb (String.eqb s) l.

Lemma str_in_spec s l : str_in s l = true ↔ s ∈ l.
Proof.
  unfold str_in. rewrite existsb_exists. split.
  - intros (x & Hx & ->%String.eqb_eq). by apply list_elem_of_In.
  - intros H. exists s. by rewrite String.eqb_refl, <- list_elem_of_In.
Qed.

(** ** Lists *)

Definition llen {A : Type} (l : list A) : Z := Z.of_nat (length l).

Lemma llen_app {A : Type} (l k : list A) : llen (l ++ k) = llen l + llen k.
Proof. unfold llen. rewrite length_app. lia. Qed.

Lemma llen_nonneg {A : Type} (l : list A) : 0 ≤ llen l.
Proof. unfold llen. lia. Qed.

Lemma Forall_elem {A : Type} (P : A → Prop) (l : list A) : Forall P l ↔ ∀ x, x ∈ l → P x.
Proof. rewrite List.Forall_forall. by setoid_rewrite list_elem_of_In. Qed.

Lemma forallb_elem {A : Type} (f : A → bool) (l : list A) : forallb f l = true ↔ Forall (fun x => f x = true) l.
Proof. rewrite forallb_forall, List.Forall_forall. done. Qed.

Lemma existsb_elem {A : Type} (f : A → bool) (l : list A) : existsb f l = true ↔ ∃ x, x ∈ l ∧ f x = true.
Proof. rewrite existsb_exists. by setoid_rewrite list_elem_of_In. Qed.

Lemma Forall_impl_in {A : Type} (P Q : A → Prop) (l : list A) :
  (∀ x, x ∈ l → P x → Q x) → Forall P l → Forall Q l.
Proof.
  intros H HP. induction HP as [|x l Hx HP IH]; constructor.
  - apply H; [left | done].
  - apply IH. intros y Hy. apply H. by right.
Qed.

(** Replace the last element, [s[len(s)-1] = f(s[len(s)-1])]. *)
Fixpoint map_last {A : Type} (f : A → A) (l : list A) : list A :=
  match l with
  | [] => []
  | [x] => [f x]
  | x :: r => x :: map_last f r
  end.

Lemma map_last_snoc {A : Type} (f : A → A) l x : map_last f (l ++ [x]) = l ++ [f x].
Proof.
  induction l as [|a l IH]; [done|]. cbn. destruct (l ++ [x]) eqn:E.
  - by destruct l.
  - by rewrite IH.
Qed.

Lemma length_map_last {A : Type} (f : A → A) l : length (map_last f l) = length l.
Proof.
  induction l as [|x l IH]; [done|]. destruct l; [done|]. cbn in *. by rewrite IH.
Qed.

(** ** Automation *)

Create HintDb harden.
Create Rewrite HintDb harden.
#[export] Hint Resolve wrap64_range sat64_range llen_nonneg : harden.
#[export] Hint Rewrite @res_bind_ok @fail_if_ok : harden.

(** Booleans of the code's conditions to the propositions they decide. *)
Ltac bool_to_prop :=
  repeat match goal with
  | H : _ && _ = true |- _ => apply andb_true_iff in H; destruct H
  | H : _ || _ = false |- _ => apply orb_false_iff in H; destruct H
  | H : negb _ = true |- _ => apply negb_true_iff in H
  | H : negb _ = false |- _ => apply negb_false_iff in H
  | H : (_ <? _)%Z = true |- _ => apply Z.ltb_lt in H
  | H : (_ <? _)%Z = false |- _ => apply Z.ltb_ge in H
  | H : (_ <=? _)%Z = true |- _ => apply Z.leb_le in H
  | H : (_ <=? _)%Z = false |- _ => apply Z.leb_gt in H
  | H : (_ =? _)%Z = true |- _ => apply Z.eqb_eq in H
  | H : (_ =? _)%Z = false |- _ => apply Z.eqb_neq in H
  | H : String.eqb _ _ = true |- _ => apply String.eqb_eq in H
  | H : String.eqb _ _ = false |- _ => apply String.eqb_neq in H
  end.

(** One case split of the code's control flow in the goal or a hypothesis. *)
Ltac split_if :=
  match goal with
  | |- context [if ?c then _ else _] => destruct c eqn:?
  | H : context [if ?c then _ else _] |- _ => destruct c eqn:?
  end.

Ltac split_match :=
  match goal with
  | |- context [match ?c with _ => _ end] => destruct c eqn:?
  | H : context [match ?c with _ => _ end] |- _ => destruct c eqn:?
  end.
