(* ===== verification/Float64.v ===== *)
(** * Float64: Go's [float64]

    IEEE 754 binary64 arithmetic as the Standard Library specifies it
    ([SpecFloat]: 53 bits of precision, round to nearest even), with the
    functions of Go's [math] package the program calls ([math.Round],
    [math.Floor], [math.IsNaN], [math.IsInf]) and the conversions between
    [int64] and [float64].  The lemmas are the ones the components need:
    addition commutes, and the product of an integer by a factor of at most one
    rounds to at most that integer. *)
From Stdlib Require Import ZArith.
From Corelib Require Import SpecFloat.
From S2P Require Import Prelude.

Definition float64 : Type := spec_float.
Definition f64_prec : Z := 53.
Definition f64_emax : Z := 1024.

Definition fzero : float64 := S754_zero false.
Definition fadd (x y : float64) : float64 := SFadd f64_prec f64_emax x y.
Definition fmul (x y : float64) : float64 := SFmul f64_prec f64_emax x y.
Definition fdiv (x y : float64) : float64 := SFdiv f64_prec f64_emax x y.
Definition feqb (x y : float64) : bool := SFeqb x y.
Definition fltb (x y : float64) : bool := SFltb x y.

(** [float64(z)] *)
Definition f64_of_Z (z : Z) : float64 := binary_normalize f64_prec f64_emax z 0 false.

(** [math.IsNaN] and [math.IsInf(x, 0)] *)
Definition IsNaN (x : float64) : bool := match x with S754_nan => true | _ => false end.
Definition IsInf (x : float64) : bool := match x with S754_infinity _ => true | _ => false end.

(** An integer [q] given the sign of the float it was rounded from. *)
Definition signed_integral (s : bool) (q : Z) : float64 :=
  if q =? 0 then S754_zero s
  else binary_normalize f64_prec f64_emax (if s then - q else q) 0 s.

(** [math.Round]: half away from zero. *)
Definition fround (x : float64) : float64 :=
  match x with
  | S754_finite s m e =>
      if 0 <=? e then x
      else signed_integral s ((Zpos m + 2 ^ (- e - 1)) / 2 ^ (- e))
  | _ => x
  end.

(** [math.Floor] *)
Definition ffloor (x : float64) : float64 :=
  match x with
  | S754_finite s m e =>
      if 0 <=? e then x
      else let d := 2 ^ (- e) in
           signed_integral s (if s then (Zpos m + d - 1) / d else Zpos m / d)
  | _ => x
  end.

(** [int64(x)]: truncation; the value out of range is the one amd64 gives. *)
Definition f64_to_int64 (x : float64) : Z :=
  match x with
  | S754_zero _ => 0
  | S754_finite s m e =>
      let mag := if 0 <=? e then Zpos m * 2 ^ e else Zpos m / 2 ^ (- e) in
      let z := if s then - mag else mag in
      if (int64_min <=? z) && (z <=? int64_max) then z else int64_min
  | _ => int64_min
  end.

(** The binary64 number nearest to [m * 10^e] (ties to even), with the sign given;
    infinite when it is too large. *)
Definition f64_of_decimal (negative : bool) (m e : Z) : float64 :=
  if m <=? 0 then S754_zero negative
  else if 0 <=? e then
    let z := m * 10 ^ e in binary_normalize f64_prec f64_emax (if negative then - z else z) 0 false
  else
    let '(q, exponent, l) := SFdiv_core_binary f64_prec f64_emax m 0 (10 ^ (- e)) 0 in
    binary_round_aux f64_prec f64_emax negative q exponent l.

Example decimal_tenth : f64_of_decimal false 1 (-1) = fdiv (f64_of_Z 1) (f64_of_Z 10).
Proof. vm_compute. reflexivity. Qed.

(** A finite number that is not negative; [-0] is one, as [x < 0] is false of it. *)
Definition fvalid (x : float64) : bool := negb (IsNaN x || IsInf x || fltb x fzero).

Lemma fadd_comm x y : fadd x y = fadd y x.
Proof.
  unfold fadd, SFadd.
  destruct x as [[]|[]| |sx mx ex], y as [[]|[]| |sy my ey]; try reflexivity.
  rewrite (Z.min_comm ey ex), Z.add_comm. reflexivity.
Qed.

Example round_half_up : fround (fdiv (f64_of_Z 5) (f64_of_Z 2)) = f64_of_Z 3.
Proof. reflexivity. Qed.

Example round_half_down : fround (fdiv (f64_of_Z (-5)) (f64_of_Z 2)) = f64_of_Z (-3).
Proof. reflexivity. Qed.

Example floor_negative : ffloor (fdiv (f64_of_Z (-5)) (f64_of_Z 2)) = f64_of_Z (-3).
Proof. reflexivity. Qed.

(** ** Rounding a product down to an integer *)

Abbreviation f64_fexp := (fexp f64_prec f64_emax).

Lemma digits2_pos_bounds m :
  2 ^ (Zpos (digits2_pos m) - 1) ≤ Zpos m < 2 ^ Zpos (digits2_pos m).
Proof.
  induction m as [m IH|m IH|]; cbn [digits2_pos]; [| |cbn; lia].
  all: rewrite Pos2Z.inj_succ;
    replace (Z.succ (Zpos (digits2_pos m)) - 1) with (Zpos (digits2_pos m) - 1 + 1) by lia;
    rewrite Z.pow_succ_r, Z.pow_add_r by lia; lia.
Qed.

Lemma digits2_lt m k : 0 ≤ k → Zpos m < 2 ^ k → Zpos (digits2_pos m) ≤ k.
Proof.
  intros Hk Hm. pose proof (digits2_pos_bounds m) as [Hlo _].
  assert (2 ^ (Zpos (digits2_pos m) - 1) < 2 ^ k) as H%Z.pow_lt_mono_r_iff; lia.
Qed.

Lemma fexp_eq x : f64_fexp x = Z.max (x - 53) (-1074).
Proof. reflexivity. Qed.

(** What [n] one-bit shifts of the mantissa [m0] leave: the quotient, and the
    two rounding bits clear exactly when the remainder is zero. *)
Definition shifted (m0 n : Z) (r : shr_record) : Prop :=
  0 ≤ shr_m r ∧ ∃ rest, m0 = shr_m r * 2 ^ n + rest ∧ 0 ≤ rest < 2 ^ n
    ∧ (rest = 0 ↔ shr_r r = false ∧ shr_s r = false).

Lemma shr_1_shifted m0 n r : 0 ≤ n → shifted m0 n r → shifted m0 (n + 1) (shr_1 r).
Proof.
  intros Hn (Hm & rest & E & Hr & Hz). destruct r as [m r s]. cbn in Hm, E, Hz.
  assert (∃ b, m = 2 * (m / 2) + Z.b2z b ∧ shr_1 {| shr_m := m; shr_r := r; shr_s := s |}
      = {| shr_m := m / 2; shr_r := b; shr_s := r || s |}) as (b & Hb & ->).
  { exists (Z.odd m). split.
    - pose proof (Z.div2_odd m) as H. rewrite Z.div2_div in H. lia.
    - rewrite <- Z.div2_div. destruct m as [|[]|]; try reflexivity. lia. }
  assert (Hp : 2 ^ (n + 1) = 2 * 2 ^ n) by (rewrite Z.pow_add_r; lia).
  assert (0 < 2 ^ n) by (apply Z.pow_pos_nonneg; lia).
  split; cbn.
  - apply Z.div_pos; lia.
  - exists (Z.b2z b * 2 ^ n + rest). rewrite Hp.
    split; [rewrite E, Hb at 1; ring |].
    split; [destruct b; cbn; lia |].
    destruct b, r, s; cbn in *; split; try lia; intros []; try discriminate; apply Hz; auto.
Qed.

Lemma iter_pos_shifted m0 p r n :
  0 ≤ n → shifted m0 n r → shifted m0 (n + Zpos p) (SpecFloat.iter_pos shr_1 p r).
Proof.
  revert r n. induction p as [p IH|p IH|]; intros r n Hn H; cbn [iter_pos].
  - replace (n + Zpos p~1) with (n + 1 + Zpos p + Zpos p) by lia.
    apply IH; [lia|]. apply IH; [lia|]. by apply shr_1_shifted.
  - replace (n + Zpos p~0) with (n + Zpos p + Zpos p) by lia.
    apply IH; [lia|]. by apply IH.
  - by apply shr_1_shifted.
Qed.

Lemma shr_fexp_shifted m e :
  0 ≤ m → let n := Z.max 0 (f64_fexp (Zdigits2 m + e) - e) in
  shifted m n (fst (shr_fexp f64_prec f64_emax m e loc_Exact))
  ∧ snd (shr_fexp f64_prec f64_emax m e loc_Exact) = e + n.
Proof.
  intros Hm. cbn zeta. unfold shr_fexp, shr.
  assert (shifted m 0 (shr_record_of_loc m loc_Exact)) as H0.
  { split; [done|]. exists 0. cbn. lia. }
  destruct (f64_fexp (Zdigits2 m + e) - e) as [|p|p] eqn:E; cbn [fst snd];
    rewrite ?Z.max_id.
  - split; [done | lia].
  - rewrite Z.max_r by lia. split; [|lia]. by apply (iter_pos_shifted m p _ 0).
  - rewrite Z.max_l by lia. split; [done | lia].
Qed.

(** Rounding a mantissa shifted by [n] up stays below any integer bound. *)
Lemma round_shifted_le m n r b :
  0 ≤ n → shifted m n r → m ≤ b * 2 ^ n →
  0 ≤ round_nearest_even (shr_m r) (loc_of_shr_record r) ≤ b.
Proof.
  intros Hn (Hm & rest & E & Hr & Hz) Hb.
  assert (0 < 2 ^ n) by (apply Z.pow_pos_nonneg; lia).
  assert (shr_m r ≤ b) by nia.
  assert (rest ≠ 0 → shr_m r + 1 ≤ b) by nia.
  destruct r as [q [] []]; cbn in *; try lia.
  all: try (assert (rest ≠ 0) by (intros C; apply Hz in C; naive_solver); lia).
  assert (rest ≠ 0) by (intros C; apply Hz in C; naive_solver).
  destruct (Z.even q); lia.
Qed.

(** [x] is a float whose value is between zero and the integer [b]. *)
Definition at_most (b : Z) (x : float64) : Prop :=
  match x with
  | S754_zero _ => 0 ≤ b
  | S754_finite s m e => s = false ∧ e ≤ 0 ∧ Zpos m ≤ b * 2 ^ (- e)
  | _ => False
  end.

Lemma Zdigits2_scaled m e b :
  0 ≤ m → e ≤ 0 → 0 ≤ b < 2 ^ 53 → m ≤ b * 2 ^ (- e) → Zdigits2 m + e ≤ 53.
Proof.
  intros Hm He Hb H. destruct m as [|p|p]; [cbn; lia| |lia]. cbn.
  assert (0 < 2 ^ (- e)) by (apply Z.pow_pos_nonneg; lia).
  assert (Zpos (digits2_pos p) ≤ 53 - e); [|lia].
  apply digits2_lt; [lia|]. replace (53 - e) with (53 + - e) by lia.
  rewrite Z.pow_add_r by lia. nia.
Qed.

Lemma shr_fexp_le m e b :
  0 ≤ m → e ≤ 0 → 0 ≤ b < 2 ^ 53 → m ≤ b * 2 ^ (- e) →
  let r := shr_fexp f64_prec f64_emax m e loc_Exact in
  let n := snd r - e in
  0 ≤ n ∧ snd r ≤ 0 ∧ shifted m n (fst r) ∧ m ≤ b * 2 ^ (- snd r) * 2 ^ n.
Proof.
  intros Hm He Hb H. cbn zeta.
  pose proof (Zdigits2_scaled m e b Hm He Hb H) as Hd.
  pose proof (shr_fexp_shifted m e Hm) as [Hs He']. rewrite He'.
  revert Hs. rewrite fexp_eq. set (n := Z.max 0 _). intros Hs.
  replace (e + n - e) with n by lia.
  assert (0 ≤ n ∧ e + n ≤ 0) as [Hn Hen] by lia.
  refine (conj Hn (conj Hen (conj Hs _))). rewrite <- Z.mul_assoc, <- Z.pow_add_r by lia.
  by replace (- (e + n) + n) with (- e) by lia.
Qed.

Lemma binary_round_aux_le m e b :
  0 ≤ m → e ≤ 0 → 0 ≤ b < 2 ^ 53 → m ≤ b * 2 ^ (- e) →
  at_most b (binary_round_aux f64_prec f64_emax false m e loc_Exact).
Proof.
  intros Hm He Hb H. unfold binary_round_aux.
  destruct (shr_fexp_le m e b Hm He Hb H) as (Hn & He1 & Hs1 & Hb1).
  destruct (shr_fexp _ _ m e loc_Exact) as [r1 e1]. cbn [fst snd] in *.
  pose proof (round_shifted_le m _ r1 _ Hn Hs1 Hb1) as [Hm2 Hb2].
  set (m2 := round_nearest_even _ _) in *.
  destruct (shr_fexp_le m2 e1 b Hm2 He1 Hb Hb2) as (Hn2 & He2 & Hs2 & Hb3).
  destruct (shr_fexp _ _ m2 e1 loc_Exact) as [r2 e2]. cbn [fst snd] in *.
  destruct Hs2 as (Hq & rest & E2 & Hr & _).
  assert (0 < 2 ^ (e2 - e1)) by (apply Z.pow_pos_nonneg; lia).
  assert (shr_m r2 ≤ b * 2 ^ (- e2)) by nia.
  destruct (shr_m r2) as [|q|q] eqn:Eq; cbn [at_most]; [lia| |lia].
  change (f64_emax - f64_prec) with 971. rewrite (proj2 (Z.leb_le e2 971)) by lia. done.
Qed.

Lemma digits2_unique m k : 2 ^ (k - 1) ≤ Zpos m < 2 ^ k → Zpos (digits2_pos m) = k.
Proof.
  intros [Hlo Hhi]. assert (0 ≤ k) as Hk.
  { destruct (Z_lt_le_dec k 0) as [C|]; [|done]. rewrite Z.pow_neg_r in Hhi; lia. }
  pose proof (digits2_pos_bounds m) as [_ H].
  assert (Zpos (digits2_pos m) ≤ k) by (by apply digits2_lt).
  assert (2 ^ (k - 1) < 2 ^ Zpos (digits2_pos m)) as ?%Z.pow_lt_mono_r_iff; lia.
Qed.

Lemma iter_xO p d : Zpos (Pos.iter xO p d) = Zpos p * 2 ^ Zpos d.
Proof.
  induction d as [|d IH] using Pos.peano_ind; [cbn; lia|].
  rewrite Pos.iter_succ, Pos2Z.inj_xO, IH, Pos2Z.inj_succ, Z.pow_succ_r by lia. lia.
Qed.

(** A canonical mantissa is not shifted again. *)
Lemma shr_fexp_canonical m e :
  f64_fexp (Zdigits2 m + e) = e →
  shr_fexp f64_prec f64_emax m e loc_Exact = ({| shr_m := m; shr_r := false; shr_s := false |}, e).
Proof. intros H. unfold shr_fexp. by rewrite H, Z.sub_diag. Qed.

Lemma binary_round_aux_canonical m e :
  f64_fexp (Zdigits2 (Zpos m) + e) = e → e ≤ 971 →
  binary_round_aux f64_prec f64_emax false (Zpos m) e loc_Exact = S754_finite false m e.
Proof.
  intros H He. unfold binary_round_aux.
  rewrite shr_fexp_canonical by done. cbn [shr_m loc_of_shr_record round_nearest_even].
  rewrite shr_fexp_canonical by done. cbn [shr_m].
  change (f64_emax - f64_prec) with 971. by rewrite (proj2 (Z.leb_le e 971)) by lia.
Qed.

(** [float64(w)] is exact below 2^53. *)
Lemma f64_of_Z_exact w :
  0 < w < 2 ^ 53 → ∃ m e, f64_of_Z w = S754_finite false m e ∧ e ≤ 0 ∧ Zpos m = w * 2 ^ (- e).
Proof.
  intros [Hw Hw2]. destruct w as [|p|p]; [lia| |lia].
  pose proof (digits2_lt p 53 ltac:(lia) Hw2) as Hd.
  pose proof (digits2_pos_bounds p) as [Hlo Hhi].
  unfold f64_of_Z, binary_normalize, binary_round, shl_align.
  rewrite fexp_eq, Z.add_0_r, Z.sub_0_r.
  set (d := Zpos (digits2_pos p)) in *.
  replace (Z.max (d - 53) (-1074)) with (d - 53) by lia.
  destruct (d - 53) as [|k|k] eqn:E; [|lia|].
  - exists p, 0. rewrite binary_round_aux_canonical; [split; [done|lia]| |lia].
    rewrite fexp_eq. cbn -[Z.max]. fold d. lia.
  - exists (Pos.iter xO p k), (Zneg k).
    split; [|split; [lia|by rewrite iter_xO]]. apply binary_round_aux_canonical; [|lia].
    rewrite fexp_eq. cbn -[Z.max]. rewrite (digits2_unique _ 53); [lia|].
    rewrite iter_xO. replace (Zpos k) with (53 - d) by lia.
    assert (2 ^ (53 - 1) = 2 ^ (d - 1) * 2 ^ (53 - d)) as ->
      by (rewrite <- Z.pow_add_r by lia; f_equal; lia).
    assert (2 ^ 53 = 2 ^ d * 2 ^ (53 - d)) as ->
      by (rewrite <- Z.pow_add_r by lia; f_equal; lia).
    assert (0 < 2 ^ (53 - d)) by (apply Z.pow_pos_nonneg; lia). nia.
Qed.

Lemma f64_to_int64_of_Z w : 0 ≤ w < 2 ^ 53 → f64_to_int64 (f64_of_Z w) = w.
Proof.
  intros [Hw Hw2]. destruct (Z.eq_dec w 0) as [->|Hne]; [done|].
  destruct (f64_of_Z_exact w) as (m & e & -> & He & Hm); [lia|]. cbn [f64_to_int64].
  assert (0 < 2 ^ (- e)) by (apply Z.pow_pos_nonneg; lia).
  assert ((if 0 <=? e then Zpos m * 2 ^ e else Zpos m / 2 ^ (- e)) = w) as ->.
  { destruct (Z.leb_spec 0 e).
    - replace e with 0 in * by lia. rewrite Hm. cbn. lia.
    - rewrite Hm. apply Z.div_mul. lia. }
  unfold int64_min, int64_max.
  rewrite (proj2 (Z.leb_le _ w)), (proj2 (Z.leb_le w _)) by lia. done.
Qed.

(** The integer part of a float between zero and [b] is between zero and [b]. *)
Lemma floor_at_most b x :
  0 ≤ b < 2 ^ 53 → at_most b x → 0 ≤ f64_to_int64 (ffloor x) ≤ b.
Proof.
  intros Hb Hx. destruct x as [s|s| |s m e]; cbn in Hx; try done.
  destruct Hx as (-> & He & Hm). unfold ffloor.
  destruct (Z.leb_spec 0 e) as [He0|He0].
  - replace e with 0 in * by lia. cbn in *.
    rewrite Z.mul_1_r in *. unfold int64_min, int64_max.
    rewrite (proj2 (Z.leb_le _ (Zpos m))), (proj2 (Z.leb_le (Zpos m) _)) by lia. cbn [andb]. lia.
  - assert (0 < 2 ^ (- e)) by (apply Z.pow_pos_nonneg; lia).
    assert (0 ≤ Zpos m / 2 ^ (- e) ≤ b) as Hq.
    { split; [apply Z.div_pos; lia|]. apply Z.div_le_upper_bound; lia. }
    unfold signed_integral. destruct (Z.eqb_spec (Zpos m / 2 ^ (- e)) 0) as [E|E]; [cbn [f64_to_int64]; lia|].
    change (binary_normalize f64_prec f64_emax ?q 0 false) with (f64_of_Z q).
    rewrite f64_to_int64_of_Z; lia.
Qed.

(** A valid [float64] of at most one. *)
Definition unit_float (r : float64) : Prop :=
  valid_binary f64_prec f64_emax r = true ∧ fvalid r = true ∧ fltb (f64_of_Z 1) r = false.

Lemma compare_cont_le a m :
  match Some (Pos.compare_cont Eq a m) with Some Lt => true | _ => false end = false →
  Zpos m ≤ Zpos a.
Proof.
  change (Pos.compare_cont Eq a m) with (Pos.compare a m).
  destruct (Pos.compare_spec a m); naive_solver lia.
Qed.

Lemma unit_float_value s m e :
  unit_float (S754_finite s m e) → s = false ∧ e ≤ -52 ∧ Zpos m ≤ 2 ^ (- e).
Proof.
  intros (Hv & Hf & H1). destruct s; [done|]. split; [done|].
  cbn in Hv. apply andb_true_iff in Hv as [Hc _]. apply Z.eqb_eq in Hc.
  rewrite fexp_eq in Hc. pose proof (digits2_pos_bounds m) as [_ Hd].
  assert (Hm : Zpos m < 2 ^ 53).
  { apply Z.lt_le_trans with (1 := Hd). apply Z.pow_le_mono_r; lia. }
  unfold fltb, SFltb in H1.
  change (f64_of_Z 1) with (S754_finite false 4503599627370496 (-52)) in H1.
  cbn -[Z.compare Pos.compare_cont] in H1.
  destruct (Z.compare_spec (-52) e) as [E|E|E]; [subst e|done|].
  - split; [lia|]. change (2 ^ (- -52)) with 4503599627370496.
    by apply compare_cont_le.
  - split; [lia|]. assert (2 ^ 53 ≤ 2 ^ (- e)) by (apply Z.pow_le_mono_r; lia). lia.
Qed.

(** A product by a factor of at most one, rounded to nearest and then down,
    does not exceed the integer it scales. *)
Lemma scaled_floor_bound w r :
  0 ≤ w < 2 ^ 53 → unit_float r →
  0 ≤ f64_to_int64 (ffloor (fmul (f64_of_Z w) r)) ≤ w.
Proof.
  intros Hw Hr. apply floor_at_most; [done|].
  destruct (Z.eq_dec w 0) as [->|Hne].
  { destruct r as [s|s| |s m e]; try (destruct Hr as (_ & Hf & _); cbn in Hf; done); cbn; lia. }
  destruct (f64_of_Z_exact w) as (m & e & -> & He & Hm); [lia|].
  destruct r as [s|s| |s mr er]; try (destruct Hr as (_ & Hf & _); cbn in Hf; done).
  { cbn. lia. }
  apply unit_float_value in Hr as (-> & Her & Hmr).
  apply binary_round_aux_le; [lia|lia|done|].
  rewrite Pos2Z.inj_mul, Hm. replace (- (e + er)) with (- e + - er) by lia.
  rewrite Z.pow_add_r by lia. assert (0 < 2 ^ (- e)) by (apply Z.pow_pos_nonneg; lia). nia.
Qed.
