(* ===== verification/Json.v ===== *)
(** * Json: Go's decoded JSON values and [encoding/json]'s encoder

    [json] is a value of type [any] as [encoding/json] decodes it.  An object
    is the list of its entries in some iteration order of the Go map (keys are
    distinct in a well-formed value); a number is its literal, as [json.Number]
    keeps it and as the encoder prints a numeric Go value.  [Marshal] is
    [json.Marshal] of such a value: keys sorted, strings escaped with the
    default HTML escaping. *)
From Stdlib Require Import Ascii.
From S2P Require Import Prelude.

Inductive json : Type :=
| JNull
| JBool (b : bool)
| JNum (literal : string)
| JStr (s : string)
| JArr (l : list json)
| JObj (entries : list (string * json)).

(** Induction with the hypothesis for the children of arrays and objects. *)
Section json_induction.
Variable P : json → Prop.
Hypothesis HNull : P JNull.
Hypothesis HBool : ∀ b, P (JBool b).
Hypothesis HNum : ∀ n, P (JNum n).
Hypothesis HStr : ∀ s, P (JStr s).
Hypothesis HArr : ∀ l, Forall P l → P (JArr l).
Hypothesis HObj : ∀ l, Forall (fun kv => P kv.2) l → P (JObj l).

Fixpoint json_rec' (j : json) : P j :=
  match j with
  | JNull => HNull
  | JBool b => HBool b
  | JNum n => HNum n
  | JStr s => HStr s
  | JArr l => HArr l ((fix go l : Forall P l :=
      match l with [] => Forall_nil_2 _ | x :: r => Forall_cons_2 _ _ _ (json_rec' x) (go r) end) l)
  | JObj l => HObj l ((fix go l : Forall (fun kv => P kv.2) l :=
      match l with [] => Forall_nil_2 _ | x :: r => Forall_cons_2 _ _ _ (json_rec' x.2) (go r) end) l)
  end.
End json_induction.

(** [object[key]] with its presence flag. *)
Definition field (key : string) (entries : list (string * json)) : option json :=
  snd <$> List.find (fun kv => String.eqb kv.1 key) entries.

(** A Go map as its entries, with the write of a key that may be present. *)
Definition put {A : Type} (m : list (string * A)) (kv : string * A) : list (string * A) :=
  List.filter (fun p => negb (String.eqb p.1 kv.1)) m ++ [kv].

(** ** Encoding *)

Definition cont (b : ascii) : bool := between 128 191 (nat_of_ascii b).

(** The number of bytes of the UTF-8 code point [s] starts with, 0 when the
    bytes are not one ([utf8.DecodeRune] returning [RuneError] with width 1). *)
Definition rune_width (s : string) : nat :=
  match s with
  | EmptyString => 0
  | String a r =>
      let n := nat_of_ascii a in
      if (n <? 128)%nat then 1 else
      match r with
      | String b r2 =>
          let m := nat_of_ascii b in
          if between 194 223 n && cont b then 2 else
          match r2 with
          | String c r3 =>
              if cont c && ((n =? 224)%nat && between 160 191 m
                || (n =? 237)%nat && between 128 159 m
                || (between 225 236 n || between 238 239 n) && cont b) then 3 else
              match r3 with
              | String d _ =>
                  if cont c && cont d && ((n =? 240)%nat && between 144 191 m
                    || (n =? 244)%nat && between 128 143 m
                    || between 241 243 n && cont b) then 4 else 0
              | EmptyString => 0
              end
          | EmptyString => 0
          end
      | EmptyString => 0
      end
  end%nat.

Definition hex_digit (n : nat) : ascii := byte_of (if (n <? 10)%nat then 48 + n else 87 + n).

Definition quote_char : ascii := byte_of 34.
Definition backslash : ascii := byte_of 92.

(** The escape of one ASCII byte inside a JSON string. *)
Definition escape_byte (a : ascii) : string :=
  let n := nat_of_ascii a in
  let short c := String backslash (String c EmptyString) in
  if (n =? 34)%nat || (n =? 92)%nat then short a
  else if (n =? 8)%nat then short "b"%char
  else if (n =? 9)%nat then short "t"%char
  else if (n =? 10)%nat then short "n"%char
  else if (n =? 12)%nat then short "f"%char
  else if (n =? 13)%nat then short "r"%char
  else if (n <? 32)%nat || (n =? 38)%nat || (n =? 60)%nat || (n =? 62)%nat then
    String backslash (String "u" (String "0" (String "0"
      (String (hex_digit (n / 16)) (String (hex_digit (n mod 16)) EmptyString)))))
  else String a EmptyString.

(** Escapes of the invalid byte and of U+2028 and U+2029. *)
Definition escape_u (digits : string) : string := String backslash (String "u" digits).

Fixpoint escape_from (fuel : nat) (s : string) : string :=
  match fuel with
  | O => EmptyString
  | S fuel =>
      match s with
      | EmptyString => EmptyString
      | String a r =>
          match rune_width s with
          | O => escape_u "fffd" +:+ escape_from fuel r
          | 1%nat => escape_byte a +:+ escape_from fuel r
          | w =>
              let rune := String.substring 0 w s in
              let rest := String.substring w (String.length s - w) s in
              let out :=
                if String.eqb rune (String (byte_of 226) (String (byte_of 128) (String (byte_of 168) EmptyString)))
                then escape_u "2028"
                else if String.eqb rune (String (byte_of 226) (String (byte_of 128) (String (byte_of 169) EmptyString)))
                then escape_u "2029"
                else rune in
              out +:+ escape_from fuel rest
          end
      end
  end.

(** Every step consumes a byte, so the length is enough fuel. *)
Definition marshal_string (s : string) : string :=
  String quote_char (escape_from (String.length s) s) +:+ String quote_char EmptyString.

(** The round trip through the encoder and the decoder replaces every invalid
    byte of a string by U+FFFD. *)
Fixpoint sanitize_from (fuel : nat) (s : string) : string :=
  match fuel with
  | O => EmptyString
  | S fuel =>
      match s with
      | EmptyString => EmptyString
      | String a r =>
          match rune_width s with
          | O => String (byte_of 239) (String (byte_of 191) (String (byte_of 189) (sanitize_from fuel r)))
          | w => String.substring 0 w s +:+ sanitize_from fuel (String.substring w (String.length s - w) s)
          end
      end
  end.
Definition sanitize (s : string) : string := sanitize_from (String.length s) s.

(** Bytewise string order, [sort.Strings]. *)
Fixpoint string_ltb (s t : string) : bool :=
  match s, t with
  | _, EmptyString => false
  | EmptyString, String _ _ => true
  | String a r, String b u =>
      if Ascii.eqb a b then string_ltb r u else (nat_of_ascii a <? nat_of_ascii b)%nat
  end.

Fixpoint insert_entry {A : Type} (kv : string * A) (l : list (string * A)) : list (string * A) :=
  match l with
  | [] => [kv]
  | kv' :: r => if string_ltb kv'.1 kv.1 then kv' :: insert_entry kv r else kv :: l
  end.
Definition sort_entries {A : Type} (l : list (string * A)) : list (string * A) :=
  foldr insert_entry [] l.

Fixpoint join_comma (l : list string) : string :=
  match l with
  | [] => EmptyString
  | [x] => x
  | x :: r => x +:+ "," +:+ join_comma r
  end.

Definition marshal_entry (kv : string * string) : string := marshal_string kv.1 +:+ ":" +:+ kv.2.

Fixpoint Marshal (j : json) : string :=
  match j with
  | JNull => "null"
  | JBool b => if b then "true" else "false"
  | JNum n => n
  | JStr s => marshal_string s
  | JArr l => "[" +:+ join_comma (map Marshal l) +:+ "]"
  | JObj l => "{" +:+ join_comma (map marshal_entry (sort_entries (map (fun kv => (kv.1, Marshal kv.2)) l))) +:+ "}"
  end.

Example marshal_object :
  Marshal (JObj [("b", JArr [JNum "1"; JNull]); ("a", JStr "<x>")]%string)
  = String.concat (String quote_char EmptyString)
      ["{"; "a"; ":"; "\u003cx\u003e"; ","; "b"; ":[1,null]}"]%string.
Proof. reflexivity. Qed.

(** ** Maps *)

Lemma put_fresh {A : Type} (m : list (string * A)) kv : kv.1 ∉ map fst m → put m kv = m ++ [kv].
Proof.
  unfold put. intros H. f_equal. induction m as [|p m IH]; [done|]. cbn [map] in H.
  rewrite not_elem_of_cons in H. destruct H as [Hp Hm]. cbn [List.filter].
  rewrite (proj2 (String.eqb_neq p.1 kv.1)) by congruence. cbn. by rewrite IH.
Qed.

Lemma filter_keys {A : Type} (m : list (string * A)) k q :
  q ∈ List.filter (fun p : string * A => negb (String.eqb p.1 k)) m → q ∈ m ∧ q.1 ≠ k.
Proof.
  rewrite !list_elem_of_In, List.filter_In, negb_true_iff, String.eqb_neq. done.
Qed.

Lemma put_NoDup {A : Type} (m : list (string * A)) kv : NoDup (map fst m) → NoDup (map fst (put m kv)).
Proof.
  unfold put. intros H. rewrite map_app. apply NoDup_app. split; [|split; [|apply NoDup_singleton]].
  - induction m as [|p m IH]; [constructor|]. cbn in H. apply NoDup_cons in H as [Hp Hm]. cbn.
    destruct (negb _); [|by apply IH]. cbn. apply NoDup_cons. split; [|by apply IH].
    intros (q & E & Hq%filter_keys)%list_elem_of_fmap. apply Hp, list_elem_of_fmap. exists q. split; [done|apply Hq].
  - intros x (q & -> & Hq%filter_keys)%list_elem_of_fmap. cbn. rewrite list_elem_of_singleton. apply Hq.
Qed.

(** ** Sorted entries *)

Lemma nat_of_ascii_inj a b : nat_of_ascii a = nat_of_ascii b → a = b.
Proof. intros H. by rewrite <- (ascii_nat_embedding a), <- (ascii_nat_embedding b), H. Qed.

Lemma string_ltb_total s t : s ≠ t → string_ltb s t = negb (string_ltb t s).
Proof.
  revert t. induction s as [|a s IH]; intros [|b t] H; cbn [string_ltb]; try done.
  rewrite (Ascii.eqb_sym b a). destruct (Ascii.eqb_spec a b) as [->|N].
  - apply IH. congruence.
  - assert (nat_of_ascii a ≠ nat_of_ascii b) by (intros ?%nat_of_ascii_inj; done).
    destruct (Nat.ltb_spec (nat_of_ascii a) (nat_of_ascii b)), (Nat.ltb_spec (nat_of_ascii b) (nat_of_ascii a)); done || lia.
Qed.

Lemma string_ltb_irrefl s : string_ltb s s = false.
Proof. induction s as [|a s IH]; cbn; [done|]. by rewrite Ascii.eqb_refl. Qed.

Lemma string_ltb_trans s t u : string_ltb s t = true → string_ltb t u = true → string_ltb s u = true.
Proof.
  revert t u. induction s as [|a s IH]; intros [|b t] [|c u]; cbn [string_ltb]; try done.
  destruct (Ascii.eqb_spec a b) as [->|N], (Ascii.eqb_spec b c) as [->|N'];
    rewrite ?Ascii.eqb_refl; intros H1 H2.
  - eauto.
  - destruct (Ascii.eqb_spec b c); done.
  - destruct (Ascii.eqb_spec a c); done.
  - apply Nat.ltb_lt in H1, H2. destruct (Ascii.eqb_spec a c) as [->|_]; [lia|]. apply Nat.ltb_lt. lia.
Qed.

Lemma string_ltb_not s t u : string_ltb s t = true → string_ltb s u = false → string_ltb u t = true.
Proof.
  intros H1 H2. destruct (decide (s = u)) as [->|N]; [done|].
  apply (string_ltb_trans u s t); [|done]. by rewrite string_ltb_total, H2 by congruence.
Qed.

Lemma insert_entry_comm {A : Type} (x y : string * A) l :
  x.1 ≠ y.1 → insert_entry x (insert_entry y l) = insert_entry y (insert_entry x l).
Proof.
  intros Hne. induction l as [|z l IH]; cbn.
  { rewrite (string_ltb_total y.1 x.1) by congruence. by destruct (string_ltb x.1 y.1). }
  destruct (string_ltb z.1 y.1) eqn:Ey, (string_ltb z.1 x.1) eqn:Ex; cbn; rewrite ?Ex, ?Ey.
  - by rewrite IH.
  - rewrite (string_ltb_not z.1 y.1 x.1) by done. by cbn.
  - rewrite (string_ltb_not z.1 x.1 y.1) by done. by cbn.
  - rewrite (string_ltb_total y.1 x.1) by congruence. destruct (string_ltb x.1 y.1); cbn; by rewrite ?Ex, ?Ey.
Qed.

Lemma sort_entries_perm {A : Type} (l l' : list (string * A)) :
  l ≡ₚ l' → NoDup (map fst l) → sort_entries l = sort_entries l'.
Proof.
  unfold sort_entries.
  induction 1 as [|x l l' _ IH|x y l|l1 l2 l3 H1 IH1 _ IH2]; intros Hd; cbn in *.
  - done.
  - rewrite IH; [done|]. by apply NoDup_cons in Hd as [_ ?].
  - apply insert_entry_comm. apply NoDup_cons in Hd as [H _]. intros E. apply H. rewrite E. left.
  - rewrite IH1 by done. apply IH2. by rewrite <- H1.
Qed.

Lemma insert_entry_map {A B : Type} (f : A → B) (kv : string * A) l :
  insert_entry (kv.1, f kv.2) (map (fun p => (p.1, f p.2)) l) = map (fun p => (p.1, f p.2)) (insert_entry kv l).
Proof. induction l as [|p l IH]; [done|]. cbn. destruct (string_ltb p.1 kv.1); [|done]. cbn. by rewrite IH. Qed.

Lemma sort_entries_map {A B : Type} (f : A → B) (l : list (string * A)) :
  sort_entries (map (fun p => (p.1, f p.2)) l) = map (fun p => (p.1, f p.2)) (sort_entries l).
Proof. induction l as [|kv l IH]; [done|]. cbn. fold (sort_entries l). rewrite <- insert_entry_map, <- IH. done. Qed.

Lemma insert_entry_Permutation {A : Type} (kv : string * A) l : insert_entry kv l ≡ₚ kv :: l.
Proof.
  induction l as [|p l IH]; [done|]. cbn. destruct (string_ltb p.1 kv.1); [|done]. rewrite IH. constructor.
Qed.

Lemma sort_entries_Permutation {A : Type} (l : list (string * A)) : sort_entries l ≡ₚ l.
Proof. induction l as [|kv l IH]; [done|]. cbn. rewrite insert_entry_Permutation. by constructor. Qed.

(** ** Members and sizes *)

Lemma field_elem key entries v : field key entries = Some v → (key, v) ∈ entries.
Proof.
  unfold field. destruct (List.find _ entries) as [[k w]|] eqn:E; [|done]. intros [= <-].
  apply find_some in E as [H <-%String.eqb_eq]. by apply list_elem_of_In.
Qed.

Lemma field_none key entries : field key entries = None ↔ key ∉ map fst entries.
Proof.
  induction entries as [|[k v] l IH]; [cbn; split; [by intros _ ?%elem_of_nil|done]|].
  unfold field in *. cbn [List.find map fst]. rewrite not_elem_of_cons.
  destruct (String.eqb_spec k key) as [->|N]; [cbn; naive_solver|]. rewrite IH. naive_solver.
Qed.

Lemma field_some key entries v : NoDup (map fst entries) → (key, v) ∈ entries → field key entries = Some v.
Proof.
  induction entries as [|[k w] l IH]; intros Hd Hin; [by apply elem_of_nil in Hin|].
  cbn [map fst] in Hd. apply NoDup_cons in Hd as [Hk Hd]. unfold field in *. cbn [List.find fst].
  apply elem_of_cons in Hin as [[= -> ->]|Hin]; [by rewrite String.eqb_refl|].
  destruct (String.eqb_spec k key) as [->|_]; [|by apply IH].
  destruct Hk. apply list_elem_of_fmap. by exists (key, v).
Qed.

Fixpoint json_size (j : json) : nat :=
  match j with
  | JArr l => S (foldr (fun x n => (json_size x + n)%nat) 0%nat l)
  | JObj l => S (foldr (fun kv n => (json_size kv.2 + n)%nat) 0%nat l)
  | _ => 1
  end.

Lemma size_array x l : x ∈ l → (json_size x < json_size (JArr l))%nat.
Proof.
  cbn. induction l as [|y l IH]; intros H; [by apply elem_of_nil in H|].
  apply elem_of_cons in H as [->|H%IH]; cbn; lia.
Qed.

Lemma size_object kv l : kv ∈ l → (json_size kv.2 < json_size (JObj l))%nat.
Proof.
  cbn. induction l as [|y l IH]; intros H; [by apply elem_of_nil in H|].
  apply elem_of_cons in H as [->|H%IH]; cbn; lia.
Qed.

Lemma size_field key l v : field key l = Some v → (json_size v < json_size (JObj l))%nat.
Proof. intros H%field_elem. by apply (size_object (key, v)). Qed.

(** Induction on the size, for properties of values some levels down. *)
Lemma json_size_ind (P : json → Prop) :
  (∀ j, (∀ k, (json_size k < json_size j)%nat → P k) → P j) → ∀ j, P j.
Proof. intros H. exact (well_founded_induction (well_founded_ltof json json_size) P H). Qed.
