(* ===== verification/JsonText.v ===== *)
(** * JsonText: the decoder of [encoding/json]

    [parse_value] reads one JSON value from the front of a text the way a
    [json.Decoder] with [UseNumber] does, and returns what is left: white space,
    literals, numbers by the longest match, strings with their escapes, surrogate
    pairs and invalid bytes replaced by U+FFFD, and at most 10000 nested arrays and
    objects.  Of a key that repeats the last value counts.  The lemmas show that it
    inverts the encoder of [Json] and that what it reads is well formed. *)
From Stdlib Require Import Ascii.
From S2P Require Import Prelude Json.

Open Scope string_scope.
Open Scope list_scope.
Open Scope Z_scope.

(** ** Scanning *)

Definition is_ws (a : ascii) : bool :=
  let n := nat_of_ascii a in (n =? 32)%nat || (n =? 9)%nat || (n =? 10)%nat || (n =? 13)%nat.

Fixpoint skip_ws (s : string) : string :=
  match s with
  | EmptyString => EmptyString
  | String a r => if is_ws a then skip_ws r else s
  end.

Fixpoint strip_prefix (p s : string) : option string :=
  match p, s with
  | EmptyString, _ => Some s
  | String a p', String b s' => if Ascii.eqb a b then strip_prefix p' s' else None
  | String _ _, EmptyString => None
  end.

(** The longest prefix of decimal digits. *)
Definition is_digit (a : ascii) : bool := between 48 57 (nat_of_ascii a).
Fixpoint digits (s : string) : string * string :=
  match s with
  | String a r => if is_digit a then let '(d, rest) := digits r in (String a d, rest) else (EmptyString, s)
  | EmptyString => (EmptyString, EmptyString)
  end.

Definition digits1 (s : string) : option (string * string) :=
  match digits s with (EmptyString, _) => None | p => Some p end.

Definition scan_sign (s : string) : string * string :=
  match s with
  | String a r => if Ascii.eqb a "-" then ("-", r) else (EmptyString, s)
  | EmptyString => (EmptyString, s)
  end.
Definition scan_whole (s : string) : option (string * string) :=
  match s with
  | String a r => if Ascii.eqb a "0" then Some ("0", r) else digits1 s
  | EmptyString => None
  end.
Definition scan_fraction (s : string) : option (string * string) :=
  match s with
  | String a r => if Ascii.eqb a "." then '(d, rest) ← digits1 r; Some (String a d, rest) else Some (EmptyString, s)
  | EmptyString => Some (EmptyString, s)
  end.
Definition scan_exponent_sign (s : string) : string * string :=
  match s with
  | String a r => if Ascii.eqb a "+" || Ascii.eqb a "-" then (String a EmptyString, r) else (EmptyString, s)
  | EmptyString => (EmptyString, s)
  end.
Definition scan_exponent (s : string) : option (string * string) :=
  match s with
  | String a r =>
      if Ascii.eqb a "e" || Ascii.eqb a "E" then
        let '(sign, r1) := scan_exponent_sign r in
        '(d, rest) ← digits1 r1; Some (String a (sign +:+ d), rest)
      else Some (EmptyString, s)
  | EmptyString => Some (EmptyString, s)
  end.
Definition scan_number (s : string) : option (string * string) :=
  let '(sign, s1) := scan_sign s in
  '(whole, s2) ← scan_whole s1;
  '(fraction, s3) ← scan_fraction s2;
  '(power, s4) ← scan_exponent s3;
  Some (sign +:+ whole +:+ fraction +:+ power, s4).

(** ** The number a literal denotes *)

(** [big.Int.SetString(s, 10)] *)
Definition SetString (s : string) : option Z :=
  match s with
  | EmptyString => None
  | String a r =>
      if Ascii.eqb a "-" then match r with EmptyString => None | _ => Z.opp <$> digits_value 0 r end
      else if Ascii.eqb a "+" then match r with EmptyString => None | _ => digits_value 0 r end
      else digits_value 0 s
  end.

(** The exponent written after [e]: a sign and digits. *)
Definition exponent_value (power : string) : option Z :=
  match power with EmptyString => Some 0 | String _ r => SetString r end.

(** The digits of a fraction, without the point. *)
Definition fraction_digits (fraction : string) : string :=
  match fraction with EmptyString => EmptyString | String _ r => r end.

(** The integer [m] and the exponent [e] of the number [m * 10^e]. *)
Definition literal_value (n : string) : option (Z * Z) :=
  let '(sign, s1) := scan_sign n in
  '(whole, s2) ← scan_whole s1;
  '(fraction, s3) ← scan_fraction s2;
  '(power, _) ← scan_exponent s3;
  m ← digits_value 0 (whole +:+ fraction_digits fraction);
  e ← exponent_value power;
  Some ((if String.eqb sign "-" then - m else m), e - slen (fraction_digits fraction)).

(** [strconv.ParseInt(literal, 10, 64)] of a number literal. *)
Definition in_range (z : Z) : option Z := if (int64_min <=? z) && (z <=? int64_max) then Some z else None.

Definition ParseInt (literal : string) : option Z :=
  match literal with
  | EmptyString => None
  | String a r =>
      if Ascii.eqb a "-" then
        match r with
        | EmptyString => None
        | _ => z ← digits_value 0 r; in_range (- z)
        end
      else z ← digits_value 0 literal; in_range z
  end.

(** ** Strings *)

Definition hex_value (a : ascii) : option N :=
  let n := nat_of_ascii a in
  if between 48 57 n then Some (N.of_nat (n - 48))
  else if between 97 102 n then Some (N.of_nat (n - 87))
  else if between 65 70 n then Some (N.of_nat (n - 55))
  else None.
Definition hex4 (a b c d : ascii) : option N :=
  x ← hex_value a; y ← hex_value b; z ← hex_value c; w ← hex_value d;
  Some (((x * 16 + y) * 16 + z) * 16 + w)%N.

Definition byteN (n : N) : ascii := byte_of (N.to_nat n).
Definition replacement : string := String (byte_of 239) (String (byte_of 191) (String (byte_of 189) EmptyString)).

(** [utf8.AppendRune] *)
Definition encode_rune (c : N) : string :=
  (if c <? 128 then String (byteN c) EmptyString
   else if c <? 2048 then String (byteN (192 + c / 64)) (String (byteN (128 + c mod 64)) EmptyString)
   else if ((55296 <=? c) && (c <? 57344)) || (1114112 <=? c) then replacement
   else if c <? 65536 then
     String (byteN (224 + c / 4096)) (String (byteN (128 + c / 64 mod 64)) (String (byteN (128 + c mod 64)) EmptyString))
   else
     String (byteN (240 + c / 262144)) (String (byteN (128 + c / 4096 mod 64))
       (String (byteN (128 + c / 64 mod 64)) (String (byteN (128 + c mod 64)) EmptyString))))%N.

(** [utf16.DecodeRune] of two units that are a surrogate pair. *)
Definition surrogates (hi lo : N) : option N :=
  if ((55296 <=? hi) && (hi <? 56320) && (56320 <=? lo) && (lo <? 57344))%N
  then Some ((hi - 55296) * 1024 + (lo - 56320) + 65536)%N else None.
Definition is_surrogate (c : N) : bool := (55296 <=? c)%N && (c <? 57344)%N.

(** The byte an escape other than [\u] stands for. *)
Definition simple_escape (a : ascii) : option ascii :=
  match nat_of_ascii a with
  | 34 | 92 | 47 => Some a
  | 98 => Some (byte_of 8)
  | 102 => Some (byte_of 12)
  | 110 => Some (byte_of 10)
  | 114 => Some (byte_of 13)
  | 116 => Some (byte_of 9)
  | _ => None
  end%nat.

Definition prepend (p : string) (o : option (string * string)) : option (string * string) :=
  '(s, rest) ← o; Some (p +:+ s, rest).

(** The string up to the closing quote; [skip] bytes of a code point are copied. *)
Fixpoint unquote (skip : nat) (s : string) : option (string * string) :=
  match s with
  | EmptyString => None
  | String a r =>
      match skip with
      | S skip => prepend (String a EmptyString) (unquote skip r)
      | O =>
          if Ascii.eqb a quote_char then Some (EmptyString, r)
          else if Ascii.eqb a backslash then
            match r with
            | String e r1 =>
                if Ascii.eqb e "u" then
                  match r1 with
                  | String h1 (String h2 (String h3 (String h4 r2))) =>
                      c ← hex4 h1 h2 h3 h4;
                      if is_surrogate c then
                        match r2 with
                        | String b (String u (String l1 (String l2 (String l3 (String l4 r3))))) =>
                            if Ascii.eqb b backslash && Ascii.eqb u "u" then
                              match (lo ← hex4 l1 l2 l3 l4; surrogates c lo) with
                              | Some full => prepend (encode_rune full) (unquote 0 r3)
                              | None => prepend replacement (unquote 0 r2)
                              end
                            else prepend replacement (unquote 0 r2)
                        | _ => prepend replacement (unquote 0 r2)
                        end
                      else prepend (encode_rune c) (unquote 0 r2)
                  | _ => None
                  end
                else
                  x ← simple_escape e; prepend (String x EmptyString) (unquote 0 r1)
            | EmptyString => None
            end
          else if (nat_of_ascii a <? 32)%nat then None
          else
            match rune_width s with
            | O => prepend replacement (unquote 0 r)
            | S w => prepend (String a EmptyString) (unquote w r)
            end
      end
  end.

(** ** Values *)

Definition maxNestingDepth : N := 10000.

Definition head_is (c : ascii) (s : string) : option string :=
  match s with String a r => if Ascii.eqb a c then Some r else None | EmptyString => None end.

Fixpoint parse_value (fuel : nat) (depth : N) (s : string) : option (json * string) :=
  match fuel with
  | O => None
  | S fuel =>
      match skip_ws s with
      | EmptyString => None
      | String a r =>
          if Ascii.eqb a quote_char then '(str, rest) ← unquote 0 r; Some (JStr str, rest)
          else if Ascii.eqb a "[" then
            if (maxNestingDepth <=? depth)%N then None else
            match head_is "]" (skip_ws r) with
            | Some rest => Some (JArr [], rest)
            | None => '(l, rest) ← parse_elements fuel (N.succ depth) r; Some (JArr l, rest)
            end
          else if Ascii.eqb a "{" then
            if (maxNestingDepth <=? depth)%N then None else
            match head_is "}" (skip_ws r) with
            | Some rest => Some (JObj [], rest)
            | None => '(l, rest) ← parse_members fuel (N.succ depth) r; Some (JObj (foldl put [] l), rest)
            end
          else if Ascii.eqb a "t" then rest ← strip_prefix "rue" r; Some (JBool true, rest)
          else if Ascii.eqb a "f" then rest ← strip_prefix "alse" r; Some (JBool false, rest)
          else if Ascii.eqb a "n" then rest ← strip_prefix "ull" r; Some (JNull, rest)
          else '(n, rest) ← scan_number (String a r); Some (JNum n, rest)
      end
  end
with parse_elements (fuel : nat) (depth : N) (s : string) : option (list json * string) :=
  match fuel with
  | O => None
  | S fuel =>
      '(v, r) ← parse_value fuel depth s;
      match head_is "," (skip_ws r) with
      | Some r1 => '(l, rest) ← parse_elements fuel depth r1; Some (v :: l, rest)
      | None => rest ← head_is "]" (skip_ws r); Some ([v], rest)
      end
  end
with parse_members (fuel : nat) (depth : N) (s : string) : option (list (string * json) * string) :=
  match fuel with
  | O => None
  | S fuel =>
      r ← head_is quote_char (skip_ws s);
      '(key, r1) ← unquote 0 r;
      r2 ← head_is ":" (skip_ws r1);
      '(v, r3) ← parse_value fuel depth r2;
      match head_is "," (skip_ws r3) with
      | Some r4 => '(l, rest) ← parse_members fuel depth r4; Some ((key, v) :: l, rest)
      | None => rest ← head_is "}" (skip_ws r3); Some ([(key, v)], rest)
      end
  end.

(** Two calls for each byte are enough ([parse_fuel]). *)
Definition value_fuel (s : string) : nat := 2 * String.length s + 2.

(** What [Decode] of a [json.Decoder] reports on the text left to read. *)
Inductive decode_result : Type :=
| DecodedEOF
| DecodeError
| DecodedValue (value : json) (rest : string).

Definition Decode (s : string) : decode_result :=
  match skip_ws s with
  | EmptyString => DecodedEOF
  | _ => match parse_value (value_fuel s) 0 s with Some (j, rest) => DecodedValue j rest | None => DecodeError end
  end.

(** A text that holds exactly one value. *)
Definition decode_one (s : string) : option json :=
  match Decode s with
  | DecodedValue j rest => match Decode rest with DecodedEOF => Some j | _ => None end
  | _ => None
  end.

Example decode_object :
  decode_one (Marshal (JObj [("b", JArr [JNum "-1.5e3"; JNull]); ("a", JStr "<x>")]))
  = Some (JObj [("a", JStr "<x>"); ("b", JArr [JNum "-1.5e3"; JNull])]).
Proof. vm_compute. reflexivity. Qed.

(** ** Every step consumes input *)

Lemma skip_ws_length s : (String.length (skip_ws s) ≤ String.length s)%nat.
Proof. induction s as [|a r IH]; cbn; [lia|]. destruct (is_ws a); cbn; lia. Qed.

Lemma head_is_length c s r : head_is c s = Some r → (String.length r < String.length s)%nat.
Proof. destruct s as [|a t]; cbn; [done|]. destruct (Ascii.eqb a c); [|done]. intros [= <-]. lia. Qed.

Lemma head_is_ws_length c s r : head_is c (skip_ws s) = Some r → (String.length r < String.length s)%nat.
Proof. intros H%head_is_length. pose proof (skip_ws_length s). lia. Qed.

Lemma strip_prefix_some p : ∀ s r, strip_prefix p s = Some r → s = p +:+ r.
Proof.
  induction p as [|a p IH]; intros s r; cbn; [by intros [= ->]|]. destruct s as [|b s]; [done|].
  destruct (Ascii.eqb_spec a b) as [->|]; [|done]. by intros ->%IH.
Qed.
Lemma strip_prefix_app p r : strip_prefix p (p +:+ r) = Some r.
Proof. induction p as [|a p IH]; [by destruct r|]. rewrite string_app_cons. cbn. by rewrite Ascii.eqb_refl. Qed.

Lemma strip_prefix_length p s r : strip_prefix p s = Some r → (String.length r ≤ String.length s)%nat.
Proof.
  revert s. induction p as [|a p IH]; intros s; cbn; [intros [= <-]; lia|].
  destruct s as [|b s]; [done|]. destruct (Ascii.eqb a b); [|done]. intros H%IH. cbn. lia.
Qed.

Lemma digits_length s : (String.length (digits s).2 + String.length (digits s).1 = String.length s)%nat.
Proof.
  induction s as [|a r IH]; [done|]. cbn [digits]. destruct (is_digit a); cbn; [|lia].
  destruct (digits r). cbn in *. lia.
Qed.

Lemma digits1_length s d r : digits1 s = Some (d, r) → (String.length r < String.length s)%nat.
Proof.
  unfold digits1. pose proof (digits_length s). destruct (digits s) as [[|a e] t]; [done|].
  intros [= <- <-]. cbn in *. lia.
Qed.

Lemma scan_sign_length s : (String.length (scan_sign s).2 ≤ String.length s)%nat.
Proof. destruct s as [|a r]; cbn; [lia|]. destruct (Ascii.eqb a "-"); cbn; lia. Qed.

Lemma scan_whole_length s w r : scan_whole s = Some (w, r) → (String.length r < String.length s)%nat.
Proof.
  destruct s as [|a t]; [done|]. unfold scan_whole. destruct (Ascii.eqb a "0"); [intros [= <- <-]; cbn; lia|].
  apply digits1_length.
Qed.

Lemma scan_fraction_length s w r : scan_fraction s = Some (w, r) → (String.length r ≤ String.length s)%nat.
Proof.
  destruct s as [|a t]; [intros [= <- <-]; lia|]. unfold scan_fraction.
  destruct (Ascii.eqb a "."); [|intros [= <- <-]; lia].
  destruct (digits1 t) as [[d q]|] eqn:E; [|done]. intros [= <- <-]. apply digits1_length in E. cbn. lia.
Qed.

Lemma scan_exponent_length s w r : scan_exponent s = Some (w, r) → (String.length r ≤ String.length s)%nat.
Proof.
  destruct s as [|a t]; [intros [= <- <-]; lia|]. unfold scan_exponent.
  destruct (_ || _); [|intros [= <- <-]; lia].
  assert (String.length (scan_exponent_sign t).2 ≤ String.length t)%nat as Hs.
  { destruct t as [|b t]; cbn; [lia|]. destruct (_ || _); cbn; lia. }
  destruct (scan_exponent_sign t) as [g q]. cbn in Hs.
  destruct (digits1 q) as [[d q']|] eqn:E; [|done]. intros [= <- <-]. apply digits1_length in E. cbn. lia.
Qed.

Lemma scan_number_length s n r : scan_number s = Some (n, r) → (String.length r < String.length s)%nat.
Proof.
  unfold scan_number. pose proof (scan_sign_length s) as Hs. destruct (scan_sign s) as [g s1]. cbn in Hs.
  destruct (scan_whole s1) as [[w s2]|] eqn:E1; [|done]. cbn.
  destruct (scan_fraction s2) as [[f s3]|] eqn:E2; [|done]. cbn.
  destruct (scan_exponent s3) as [[p s4]|] eqn:E3; [|done]. intros [= <- <-].
  apply scan_whole_length in E1. apply scan_fraction_length in E2. apply scan_exponent_length in E3. lia.
Qed.

Lemma prepend_some p o s r : prepend p o = Some (s, r) → ∃ t, o = Some (t, r) ∧ s = p +:+ t.
Proof. unfold prepend. destruct o as [[t q]|]; [|done]. intros [= <- <-]. by exists t. Qed.

Lemma unquote_length n : ∀ skip s t r,
  (String.length s ≤ n)%nat → unquote skip s = Some (t, r) → (String.length r < String.length s)%nat.
Proof.
  induction n as [|n IH]; intros skip s t r Hn; destruct s as [|a s]; [done|cbn in Hn; lia|done|]. cbn in Hn.
  assert (∀ k u t' q p, (String.length u ≤ String.length s)%nat →
    prepend p (unquote k u) = Some (t', q) → (String.length q < S (String.length s))%nat) as Hstep.
  { intros k u t' q p Hu (x & Hx & _)%prepend_some. apply IH in Hx; lia. }
  cbn [unquote String.length]. destruct skip as [|k]; [|by apply Hstep].
  destruct (Ascii.eqb a quote_char); [intros [= _ <-]; lia|].
  destruct (Ascii.eqb a backslash).
  - destruct s as [|e s]; [done|]. destruct (Ascii.eqb e "u").
    + destruct s as [|h1 [|h2 [|h3 [|h4 r2]]]]; try done. destruct (hex4 h1 h2 h3 h4) as [c|]; [|done].
      cbn [mbind option_bind]. destruct (is_surrogate c); [|apply Hstep; cbn; lia].
      destruct r2 as [|b [|u [|l1 [|l2 [|l3 [|l4 r3]]]]]]; try (apply Hstep; cbn; lia).
      destruct (_ && _); [|apply Hstep; cbn; lia].
      destruct (hex4 l1 l2 l3 l4 ≫= _); apply Hstep; cbn; lia.
    + destruct (simple_escape e); [|done]. apply Hstep. cbn. lia.
  - destruct (_ <? _)%nat; [done|]. destruct (rune_width (String a s)); apply Hstep; lia.
Qed.

Lemma bind_pair_some {A B C : Type} (o : option (A * B)) (k : A → B → option C) c :
  ('(x, y) ← o; k x y) = Some c → ∃ x y, o = Some (x, y) ∧ k x y = Some c.
Proof. destruct o as [[x y]|]; [|done]. cbn. eauto. Qed.

Lemma bind_some {A C : Type} (o : option A) (k : A → option C) c :
  (x ← o; k x) = Some c → ∃ x, o = Some x ∧ k x = Some c.
Proof. destruct o; [|done]. cbn. eauto. Qed.

(** A value, a list of elements and a list of members leave less than they got. *)
Definition consumes {A : Type} (p : string → option (A * string)) : Prop :=
  ∀ s a r, p s = Some (a, r) → (String.length r < String.length s)%nat.

Lemma parse_consumes fuel : ∀ depth,
  consumes (parse_value fuel depth) ∧ consumes (parse_elements fuel depth) ∧ consumes (parse_members fuel depth).
Proof.
  induction fuel as [|fuel IH]; intros depth; [by split_and!; intros s a r|].
  destruct (IH depth) as (Hv & He & Hm). split_and!; intros s x t; cbn [parse_value parse_elements parse_members].
  - destruct (IH (N.succ depth)) as (_ & He' & Hm').
    pose proof (skip_ws_length s) as Hs. destruct (skip_ws s) as [|a r]; [done|]. cbn in Hs.
    destruct (Ascii.eqb a quote_char).
    { intros (str & q & H & [= <- <-])%bind_pair_some. apply (unquote_length (String.length r)) in H; lia. }
    destruct (Ascii.eqb a "["); [destruct (_ <=? _)%N; [done|]|destruct (Ascii.eqb a "{"); [destruct (_ <=? _)%N; [done|]|]].
    + destruct (head_is "]" _) eqn:E; [intros [= <- <-]; apply head_is_ws_length in E; lia|].
      intros (l & q & H%He' & [= <- <-])%bind_pair_some. lia.
    + destruct (head_is "}" _) eqn:E; [intros [= <- <-]; apply head_is_ws_length in E; lia|].
      intros (l & q & H%Hm' & [= <- <-])%bind_pair_some. lia.
    + destruct (Ascii.eqb a "t"); [|destruct (Ascii.eqb a "f"); [|destruct (Ascii.eqb a "n")]];
        try (intros (q & H%strip_prefix_length & [= <- <-])%bind_some; lia).
      intros (n & q & H%scan_number_length & [= <- <-])%bind_pair_some. cbn in H. lia.
  - intros (v & q & H%Hv & Hk)%bind_pair_some. destruct (head_is "," _) eqn:E.
    + apply head_is_ws_length in E. apply bind_pair_some in Hk as (l & u & H2%He & [= <- <-]). lia.
    + apply bind_some in Hk as (u & H2%head_is_ws_length & [= <- <-]). lia.
  - intros (r & H1%head_is_ws_length & Hk)%bind_some.
    apply bind_pair_some in Hk as (key & r1 & H2 & Hk). apply (unquote_length (String.length r)) in H2; [|lia].
    apply bind_some in Hk as (r2 & H3%head_is_ws_length & Hk).
    apply bind_pair_some in Hk as (v & r3 & H4%Hv & Hk). destruct (head_is "," _) eqn:E.
    + apply head_is_ws_length in E. apply bind_pair_some in Hk as (l & u & H5%Hm & [= <- <-]). lia.
    + apply bind_some in Hk as (u & H5%head_is_ws_length & [= <- <-]). lia.
Qed.

(** The fuel of [Decode] never runs out: more of it changes nothing. *)
Lemma parse_fuel fuel : ∀ fuel' depth s,
  (2 * String.length s + 1 ≤ fuel → 2 * String.length s + 1 ≤ fuel' →
    parse_value fuel depth s = parse_value fuel' depth s)%nat
  ∧ (2 * String.length s + 2 ≤ fuel → 2 * String.length s + 2 ≤ fuel' →
    parse_elements fuel depth s = parse_elements fuel' depth s
    ∧ parse_members fuel depth s = parse_members fuel' depth s)%nat.
Proof.
  induction fuel as [|fuel IH]; intros fuel' depth s; [split; lia|].
  destruct fuel' as [|fuel']; [split; lia|]. split; intros H1 H2.
  - cbn [parse_value]. pose proof (skip_ws_length s) as Hs. destruct (skip_ws s) as [|a r]; [done|]. cbn in Hs.
    destruct (IH fuel' (N.succ depth) r) as [_ IHr]. destruct IHr as [Ee Em]; [lia..|].
    by rewrite Ee, Em.
  - split; cbn [parse_elements parse_members].
    + destruct (IH fuel' depth s) as [Ev _]. rewrite Ev by lia.
      destruct (parse_value fuel' depth s) as [[v q]|] eqn:E; [|done]. apply parse_consumes in E. cbn.
      destruct (head_is "," (skip_ws q)) as [u|] eqn:Eh; [|done]. apply head_is_ws_length in Eh.
      destruct (IH fuel' depth u) as [_ IHu]. destruct IHu as [-> _]; [lia..|done].
    + destruct (head_is quote_char (skip_ws s)) as [r|] eqn:Eq; [|done]. apply head_is_ws_length in Eq. cbn.
      destruct (unquote 0 r) as [[key r1]|] eqn:Eu; [|done]. apply (unquote_length (String.length r)) in Eu; [|lia]. cbn.
      destruct (head_is ":" (skip_ws r1)) as [r2|] eqn:Ec; [|done]. apply head_is_ws_length in Ec. cbn.
      destruct (IH fuel' depth r2) as [Ev _]. rewrite Ev by lia.
      destruct (parse_value fuel' depth r2) as [[v q]|] eqn:E; [|done]. apply parse_consumes in E. cbn.
      destruct (head_is "," (skip_ws q)) as [u|] eqn:Eh; [|done]. apply head_is_ws_length in Eh.
      destruct (IH fuel' depth u) as [_ IHu]. destruct IHu as [_ ->]; [lia..|done].
Qed.

(** ** Valid UTF-8 *)

Definition is_rune (r : string) : Prop := r ≠ "" ∧ rune_width r = String.length r.

Inductive utf8 : string → Prop :=
| utf8_nil : utf8 ""
| utf8_rune r s : is_rune r → utf8 s → utf8 (r +:+ s).

(** The ways a code point is encoded. *)
Lemma rune_width_cases s :
  rune_width s = 0%nat
  ∨ (∃ a r, s = String a r ∧ rune_width s = 1%nat ∧ (nat_of_ascii a < 128)%nat ∧ ∀ t, rune_width (String a t) = 1%nat)
  ∨ (128 ≤ nat_of_ascii (default "0"%char (String.get 0 s)))%nat
    ∧ ((∃ a b r, s = String a (String b r) ∧ rune_width s = 2%nat ∧ ∀ t, rune_width (String a (String b t)) = 2%nat)
    ∨ (∃ a b c r, s = String a (String b (String c r)) ∧ rune_width s = 3%nat
        ∧ ∀ t, rune_width (String a (String b (String c t))) = 3%nat)
    ∨ (∃ a b c d r, s = String a (String b (String c (String d r))) ∧ rune_width s = 4%nat
        ∧ ∀ t, rune_width (String a (String b (String c (String d t)))) = 4%nat)).
Proof.
  destruct s as [|a s]; [by left|]. unfold rune_width. cbn beta iota zeta.
  destruct (nat_of_ascii a <? 128)%nat eqn:Ha.
  { right. left. exists a, s. split_and!; [done..|by apply Nat.ltb_lt|]. intros t. by rewrite Ha. }
  destruct s as [|b s]; [by left|]. destruct (between 194 223 _ && cont b) eqn:E2.
  { right. right. split; [by apply Nat.ltb_ge|]. left. exists a, b, s. split_and!; [done..|]. intros t. by rewrite Ha, E2. }
  destruct s as [|c s]; [by left|]. destruct (cont c && (_ || _)) eqn:E3.
  { right. right. split; [by apply Nat.ltb_ge|]. right. left. exists a, b, c, s. split_and!; [done..|].
    intros t. by rewrite Ha, E2, E3. }
  destruct s as [|d s]; [by left|]. destruct (cont c && cont d && _) eqn:E4; [|by left].
  right. right. split; [by apply Nat.ltb_ge|]. right. right. exists a, b, c, d, s. split_and!; [done..|].
  intros t. by rewrite Ha, E2, E3, E4.
Qed.

Lemma rune_width_app r s : is_rune r → rune_width (r +:+ s) = String.length r.
Proof.
  intros [Hne Hr]. destruct (rune_width_cases r) as [H|[(a & q & -> & H & _ & Ht)|(_ & [H|[H|H]])]].
  - destruct r; [done|]. rewrite H in Hr. done.
  - rewrite <- Hr, H. apply Ht.
  - destruct H as (a & b & q & -> & H & Ht). rewrite <- Hr, H. apply Ht.
  - destruct H as (a & b & c & q & -> & H & Ht). rewrite <- Hr, H. apply Ht.
  - destruct H as (a & b & c & d & q & -> & H & Ht). rewrite <- Hr, H. apply Ht.
Qed.

(** A text that starts with a code point is that code point and the rest. *)
Lemma rune_split s w : rune_width s = S w → ∃ r t, s = r +:+ t ∧ is_rune r ∧ String.length r = S w.
Proof.
  intros E. destruct (rune_width_cases s) as [H|[(a & q & -> & H & _ & Ht)|(_ & [H|[H|H]])]]; [congruence| | | |].
  - exists (String a ""), q. split_and!; [done| |cbn; congruence]. split; [done|apply Ht].
  - destruct H as (a & b & q & -> & H & Ht). exists (String a (String b "")), q.
    split_and!; [done| |cbn; congruence]. split; [done|apply Ht].
  - destruct H as (a & b & c & q & -> & H & Ht). exists (String a (String b (String c ""))), q.
    split_and!; [done| |cbn; congruence]. split; [done|apply Ht].
  - destruct H as (a & b & c & d & q & -> & H & Ht). exists (String a (String b (String c (String d "")))), q.
    split_and!; [done| |cbn; congruence]. split; [done|apply Ht].
Qed.

Lemma utf8_app s t : utf8 s → utf8 t → utf8 (s +:+ t).
Proof. induction 1 as [|r s Hr _ IH]; intros Ht; [done|]. rewrite string_app_assoc. constructor; auto. Qed.

Lemma utf8_one r : is_rune r → utf8 r.
Proof. intros H. rewrite <- (string_app_nil r). constructor; [done|constructor]. Qed.

Lemma nat_of_byteN n : (n < 256)%N → nat_of_ascii (byteN n) = N.to_nat n.
Proof. intros H. unfold byteN, byte_of. apply nat_ascii_embedding. lia. Qed.

Lemma between_spec lo hi n : between lo hi n = true ↔ (lo ≤ n ≤ hi)%nat.
Proof. unfold between. rewrite andb_true_iff, !Nat.leb_le. lia. Qed.

Lemma cont_byteN n : (n < 64)%N → cont (byteN (128 + n)) = true.
Proof. intros H. unfold cont. rewrite nat_of_byteN by lia. apply between_spec. lia. Qed.

(** The tests of [rune_width] on a text whose first bytes are given. *)
Ltac show_width := unfold rune_width; cbn beta iota zeta delta [String.length].

Lemma rune2 a b :
  between 194 223 (nat_of_ascii a) = true → cont b = true → is_rune (String a (String b "")).
Proof.
  intros Ha Hb. split; [done|]. show_width. apply between_spec in Ha as Ha'.
  rewrite (proj2 (Nat.ltb_ge _ _)) by lia. by rewrite Ha, Hb.
Qed.

Lemma rune3 a b c :
  (nat_of_ascii a = 224%nat ∧ (160 ≤ nat_of_ascii b ≤ 191)%nat
   ∨ nat_of_ascii a = 237%nat ∧ (128 ≤ nat_of_ascii b ≤ 159)%nat
   ∨ ((225 ≤ nat_of_ascii a ≤ 236)%nat ∨ (238 ≤ nat_of_ascii a ≤ 239)%nat) ∧ cont b = true) →
  cont c = true → is_rune (String a (String b (String c ""))).
Proof.
  intros H Hc. split; [done|]. show_width. rewrite (proj2 (Nat.ltb_ge _ _)) by lia.
  assert (between 194 223 (nat_of_ascii a) = false) as ->.
  { apply not_true_iff_false. rewrite between_spec. lia. }
  rewrite Hc. cbn [andb].
  replace (_ || _) with true; [done|]. symmetry. rewrite !orb_true_iff, !andb_true_iff, !Nat.eqb_eq, orb_true_iff, !between_spec.
  naive_solver.
Qed.

Lemma rune4 a b c d :
  (nat_of_ascii a = 240%nat ∧ (144 ≤ nat_of_ascii b ≤ 191)%nat
   ∨ nat_of_ascii a = 244%nat ∧ (128 ≤ nat_of_ascii b ≤ 143)%nat
   ∨ (241 ≤ nat_of_ascii a ≤ 243)%nat ∧ cont b = true) →
  cont c = true → cont d = true → is_rune (String a (String b (String c (String d "")))).
Proof.
  intros H Hc Hd. split; [done|]. show_width. rewrite (proj2 (Nat.ltb_ge _ _)) by lia.
  assert (∀ lo hi, (nat_of_ascii a < lo ∨ hi < nat_of_ascii a)%nat → between lo hi (nat_of_ascii a) = false) as Hb.
  { intros lo hi Hl. apply not_true_iff_false. rewrite between_spec. lia. }
  rewrite (Hb 194%nat 223%nat), (Hb 225%nat 236%nat), (Hb 238%nat 239%nat) by lia.
  rewrite (proj2 (Nat.eqb_neq (nat_of_ascii a) 224)), (proj2 (Nat.eqb_neq (nat_of_ascii a) 237)) by lia.
  rewrite Hc, Hd. cbn [andb orb].
  replace (_ || _) with true; [done|]. symmetry. rewrite !orb_true_iff, !andb_true_iff, !Nat.eqb_eq, !between_spec.
  naive_solver.
Qed.

Lemma replacement_rune : is_rune replacement.
Proof. by split. Qed.

Lemma div_mod_64 c : ∃ q m, (c / 64 = q ∧ c mod 64 = m ∧ c = 64 * q + m ∧ m < 64)%N.
Proof. exists (c / 64)%N, (c mod 64)%N. split_and!; [done..| |]; [by apply N.div_mod|by apply N.mod_lt]. Qed.

Lemma encode_rune_ok c : is_rune (encode_rune c).
Proof.
  unfold encode_rune.
  destruct (N.ltb_spec c 128) as [H1|H1].
  { split; [done|]. show_width. rewrite nat_of_byteN by lia. by rewrite (proj2 (Nat.ltb_lt _ _)) by lia. }
  replace (c / 4096)%N with (c / 64 / 64)%N by (by rewrite N.Div0.div_div).
  replace (c / 262144)%N with (c / 64 / 64 / 64)%N by (by rewrite !N.Div0.div_div).
  destruct (div_mod_64 c) as (q & m & -> & -> & E0 & Hm). destruct (div_mod_64 q) as (q1 & m1 & -> & -> & E1 & Hm1).
  destruct (div_mod_64 q1) as (q2 & m2 & -> & -> & E2 & Hm2).
  destruct (N.ltb_spec c 2048) as [H2|H2].
  { apply rune2; [rewrite nat_of_byteN by lia; apply between_spec; lia|by apply cont_byteN]. }
  destruct (((55296 <=? c) && (c <? 57344)) || (1114112 <=? c))%N eqn:E; [apply replacement_rune|].
  rewrite orb_false_iff, andb_false_iff, !N.leb_gt, N.ltb_ge in E.
  destruct (N.ltb_spec c 65536) as [H3|H3].
  - apply rune3; [|by apply cont_byteN]. unfold cont. rewrite between_spec, !nat_of_byteN by lia. lia.
  - apply rune4; [|by apply cont_byteN..]. unfold cont. rewrite between_spec, !nat_of_byteN by lia. lia.
Qed.

(** Copying the bytes of a code point. *)
Lemma unquote_copy r s : unquote (String.length r) (r +:+ s) = prepend r (unquote 0 s).
Proof.
  induction r as [|a r IH].
  - change ("" +:+ s) with s. cbn [String.length]. unfold prepend. by destruct (unquote 0 s) as [[]|].
  - rewrite string_app_cons. cbn [String.length unquote]. rewrite IH. unfold prepend.
    by destruct (unquote 0 s) as [[]|].
Qed.

Lemma unquote_utf8 n : ∀ s t rest, (String.length s ≤ n)%nat → unquote 0 s = Some (t, rest) → utf8 t.
Proof.
  induction n as [|n IH]; intros s t rest Hn; destruct s as [|a s]; [done|cbn in Hn; lia|done|]. cbn in Hn.
  assert (∀ u p, (String.length u ≤ n)%nat → utf8 p → prepend p (unquote 0 u) = Some (t, rest) → utf8 t) as Hstep.
  { intros u p Hu Hp (x & Hx & ->)%prepend_some. apply utf8_app; [done|]. by apply (IH u x rest). }
  pose proof (fun c => utf8_one _ (encode_rune_ok c)) as Hc. pose proof (utf8_one _ replacement_rune) as Hr.
  cbn [unquote]. destruct (Ascii.eqb a quote_char); [intros [= <- _]; constructor|].
  destruct (Ascii.eqb a backslash).
  - destruct s as [|e s]; [done|]. cbn in Hn. destruct (Ascii.eqb e "u").
    + destruct s as [|h1 [|h2 [|h3 [|h4 r2]]]]; try done. cbn in Hn. destruct (hex4 h1 h2 h3 h4) as [c|]; [|done].
      cbn [mbind option_bind]. destruct (is_surrogate c); [|apply Hstep; [lia|done]].
      destruct r2 as [|b [|u [|l1 [|l2 [|l3 [|l4 r3]]]]]]; try (apply Hstep; [cbn in *; lia|done]).
      cbn in Hn. destruct (_ && _); [|apply Hstep; [cbn; lia|done]].
      destruct (hex4 l1 l2 l3 l4 ≫= _); apply Hstep; try done; cbn; lia.
    + destruct (simple_escape e) as [x|] eqn:Ee; [|done]. apply Hstep; [lia|]. apply utf8_one. split; [done|].
      revert Ee. clear. destruct e as [[] [] [] [] [] [] [] []]; cbn; intros [= <-]; done.
  - destruct (_ <? _)%nat; [done|]. destruct (rune_width (String a s)) as [|w] eqn:E; [apply Hstep; [lia|done]|].
    destruct (rune_split _ _ E) as (r & u & Es & Hru & Hl). destruct r as [|a' r]; [done|].
    rewrite string_app_cons in Es. injection Es as <- ->. cbn in Hl. injection Hl as <-. rewrite unquote_copy.
    intros (x & (y & Hy & ->)%prepend_some & ->)%prepend_some.
    rewrite string_length_app in Hn. rewrite <- string_app_assoc. apply utf8_app; [by apply utf8_one|].
    apply (IH u y rest); [lia|done].
Qed.

(** ** Reading what the encoder wrote *)

Lemma prepend_prepend p q o : prepend p (prepend q o) = prepend (p +:+ q) o.
Proof. unfold prepend. destruct o as [[s r]|]; [|done]. cbn. by rewrite string_app_assoc. Qed.

Lemma unquote_escape_byte a t :
  (nat_of_ascii a < 128)%nat → unquote 0 (escape_byte a +:+ t) = prepend (String a "") (unquote 0 t).
Proof.
  intros H. apply Nat.ltb_lt in H. revert H.
  destruct a as [[] [] [] [] [] [] [] []]; intros H; first [reflexivity | discriminate H].
Qed.

Lemma unquote_rune a r t :
  is_rune (String a r) → (128 ≤ nat_of_ascii a)%nat →
  unquote 0 (String a r +:+ t) = prepend (String a r) (unquote 0 t).
Proof.
  intros Hr Ha. pose proof (rune_width_app _ t Hr) as Hw. rewrite string_app_cons in *. cbn [unquote].
  destruct (Ascii.eqb_spec a quote_char) as [->|_]; [by apply Nat.leb_le in Ha|].
  destruct (Ascii.eqb_spec a backslash) as [->|_]; [by apply Nat.leb_le in Ha|].
  destruct (Nat.ltb_spec (nat_of_ascii a) 32) as [H|_]; [lia|].
  rewrite Hw. cbn [String.length]. by rewrite unquote_copy, prepend_prepend.
Qed.

Lemma substring_all s : String.substring 0 (String.length s) s = s.
Proof. induction s as [|a s IH]; [done|]. cbn. by rewrite IH. Qed.

Lemma substring_prefix r s : String.substring 0 (String.length r) (r +:+ s) = r.
Proof. induction r as [|a r IH]; [by destruct s|]. rewrite string_app_cons. cbn. by rewrite IH. Qed.

Lemma substring_suffix r s :
  String.substring (String.length r) (String.length (r +:+ s) - String.length r) (r +:+ s) = s.
Proof.
  rewrite string_length_app, Nat.add_comm, Nat.add_sub.
  induction r as [|a r IH]; [apply substring_all|]. rewrite string_app_cons. exact IH.
Qed.

(** The escape of one code point of two bytes or more. *)
Definition escape_rune (r : string) : string :=
  if String.eqb r (String (byte_of 226) (String (byte_of 128) (String (byte_of 168) EmptyString)))
  then escape_u "2028"
  else if String.eqb r (String (byte_of 226) (String (byte_of 128) (String (byte_of 169) EmptyString)))
  then escape_u "2029"
  else r.

Lemma escape_from_rune fuel r s :
  is_rune r → (2 ≤ String.length r)%nat → escape_from (S fuel) (r +:+ s) = escape_rune r +:+ escape_from fuel s.
Proof.
  intros Hr Hl. pose proof (rune_width_app r s Hr) as Hw. pose proof (substring_prefix r s) as Hp.
  pose proof (substring_suffix r s) as Hs. destruct r as [|a r]; [cbn in Hl; lia|].
  rewrite string_app_cons in *. cbn [escape_from]. rewrite Hw in *.
  destruct r as [|b r]; [cbn in Hl; lia|]. cbn [String.length] in *. by rewrite Hp, Hs.
Qed.

Lemma unquote_escape_rune r t :
  is_rune r → (2 ≤ String.length r)%nat → unquote 0 (escape_rune r +:+ t) = prepend r (unquote 0 t).
Proof.
  intros Hr Hl. unfold escape_rune.
  destruct (String.eqb_spec r (String (byte_of 226) (String (byte_of 128) (String (byte_of 168) EmptyString)))) as [->|_];
    [reflexivity|].
  destruct (String.eqb_spec r (String (byte_of 226) (String (byte_of 128) (String (byte_of 169) EmptyString)))) as [->|_];
    [reflexivity|].
  destruct (rune_width_cases r) as [H|[(a & q & -> & H & _)|(Ha & _)]].
  - destruct Hr as [_ Hr]. lia.
  - destruct Hr as [_ Hr]. lia.
  - destruct r as [|a r]; [cbn in Hl; lia|]. by apply unquote_rune.
Qed.

Lemma unquote_escape s : ∀ fuel rest,
  utf8 s → (String.length s ≤ fuel)%nat →
  unquote 0 (escape_from fuel s +:+ String quote_char rest) = Some (s, rest).
Proof.
  intros fuel rest H. revert fuel. induction H as [|r s Hr _ IH]; intros fuel Hf; [by destruct fuel|].
  rewrite string_length_app in Hf. pose proof Hr as [Hne Hw]. destruct fuel as [|fuel].
  { destruct r; [done|cbn in Hf; lia]. }
  destruct (decide (String.length r = 1%nat)) as [E1|N1].
  - destruct r as [|a [|b r]]; try done. destruct (rune_width_cases (String a "")) as [E|[(a' & q & [= <- <-] & _ & Ha & Ht)|(_ & [E|[E|E]])]].
    + by rewrite E in Hw.
    + rewrite string_app_cons. change ("" +:+ s) with s. cbn [escape_from]. rewrite (Ht s).
      rewrite string_app_assoc, unquote_escape_byte, IH by (done || cbn in Hf; lia). done.
    + by destruct E as (? & ? & ? & ? & _).
    + by destruct E as (? & ? & ? & ? & ? & _).
    + by destruct E as (? & ? & ? & ? & ? & ? & _).
  - assert (2 ≤ String.length r)%nat as Hl by (destruct r as [|? [|? ?]]; [done|done|cbn; lia]).
    rewrite escape_from_rune, string_app_assoc, unquote_escape_rune, IH by (done || lia). done.
Qed.

(** ** Numbers before a delimiter *)

(** The text does not go on with a byte of [P]. *)
Definition ends (P : ascii → bool) (s : string) : bool :=
  match s with EmptyString => true | String a _ => negb (P a) end.

(** The bytes that would continue a fraction, an exponent, a number. *)
Definition fraction_byte (a : ascii) : bool := is_digit a || Ascii.eqb a ".".
Definition exponent_byte (a : ascii) : bool := is_digit a || (Ascii.eqb a "e" || Ascii.eqb a "E").
Definition ends_number : string → bool := ends (fun a => fraction_byte a || exponent_byte a).

Lemma ends_sub (P Q : ascii → bool) s : (∀ a, Q a = true → P a = true) → ends P s = true → ends Q s = true.
Proof.
  intros H. destruct s as [|a s]; [done|]. cbn. specialize (H a). destruct (Q a); [|done]. by rewrite H.
Qed.

Lemma ends_number_parts s :
  ends_number s = true → ends is_digit s = true ∧ ends fraction_byte s = true ∧ ends exponent_byte s = true.
Proof.
  intros H. split_and!; (eapply ends_sub; [|exact H]); intros a Ha; unfold fraction_byte, exponent_byte in *;
    by destruct (is_digit a), (Ascii.eqb a "."), (Ascii.eqb a "e"), (Ascii.eqb a "E").
Qed.

Lemma digits_app s rest : ends is_digit rest = true → digits (s +:+ rest) = ((digits s).1, (digits s).2 +:+ rest).
Proof.
  intros H. induction s as [|a s IH].
  - change ("" +:+ rest) with rest. destruct rest as [|b r]; [done|]. cbn in *. by destruct (is_digit b).
  - rewrite string_app_cons. cbn [digits]. destruct (is_digit a); [|done]. rewrite IH. by destruct (digits s).
Qed.

Lemma digits1_app s d r rest :
  ends is_digit rest = true → digits1 s = Some (d, r) → digits1 (s +:+ rest) = Some (d, r +:+ rest).
Proof.
  intros H. unfold digits1. rewrite (digits_app s rest H). destruct (digits s) as [[|a e] t]; [done|]. by intros [= <- <-].
Qed.

Lemma scan_whole_app s w r rest :
  ends is_digit rest = true → scan_whole s = Some (w, r) → scan_whole (s +:+ rest) = Some (w, r +:+ rest).
Proof.
  intros H. destruct s as [|a s]; [done|]. rewrite string_app_cons. unfold scan_whole.
  destruct (Ascii.eqb a "0"); [by intros [= <- <-]|]. rewrite <- string_app_cons. by apply digits1_app.
Qed.

Lemma scan_fraction_app s w r rest :
  ends fraction_byte rest = true → scan_fraction s = Some (w, r) → scan_fraction (s +:+ rest) = Some (w, r +:+ rest).
Proof.
  intros H. destruct s as [|a s].
  - intros [= <- <-]. change ("" +:+ rest) with rest. destruct rest as [|b q]; [done|].
    cbn [ends] in H. unfold fraction_byte in H. unfold scan_fraction. by destruct (is_digit b), (Ascii.eqb b ".").
  - assert (ends is_digit rest = true) as Hd.
    { revert H. apply ends_sub. intros b Hb. unfold fraction_byte. by rewrite Hb. }
    rewrite string_app_cons. unfold scan_fraction. destruct (Ascii.eqb a "."); [|by intros [= <- <-]].
    destruct (digits1 s) as [[d q]|] eqn:E; [|done]. intros [= <- <-]. by rewrite (digits1_app _ _ _ _ Hd E).
Qed.

Lemma scan_exponent_app s w r rest :
  ends exponent_byte rest = true → scan_exponent s = Some (w, r) → scan_exponent (s +:+ rest) = Some (w, r +:+ rest).
Proof.
  intros H. destruct s as [|a s].
  - intros [= <- <-]. change ("" +:+ rest) with rest. destruct rest as [|b q]; [done|].
    cbn [ends] in H. unfold exponent_byte in H. unfold scan_exponent. by destruct (is_digit b), (Ascii.eqb b "e"), (Ascii.eqb b "E").
  - assert (ends is_digit rest = true) as Hd.
    { revert H. apply ends_sub. intros b Hb. unfold exponent_byte. by rewrite Hb. }
    rewrite string_app_cons. unfold scan_exponent. destruct (_ || _); [|by intros [= <- <-]].
    destruct s as [|b s]; [done|]. rewrite string_app_cons. unfold scan_exponent_sign.
    destruct (_ || _); cbn [mbind option_bind]; [|rewrite <- string_app_cons].
    + destruct (digits1 s) as [[d q]|] eqn:E; [|done]. intros [= <- <-]. by rewrite (digits1_app _ _ _ _ Hd E).
    + destruct (digits1 (String b s)) as [[d q]|] eqn:E; [|done]. intros [= <- <-].
      by rewrite (digits1_app _ _ _ _ Hd E).
Qed.

Lemma scan_number_app s n r rest :
  ends_number rest = true → scan_number s = Some (n, r) → scan_number (s +:+ rest) = Some (n, r +:+ rest).
Proof.
  intros (H1 & H2 & H3)%ends_number_parts. destruct s as [|a s]; [done|]. unfold scan_number.
  assert (scan_sign (String a s +:+ rest) = ((scan_sign (String a s)).1, (scan_sign (String a s)).2 +:+ rest)) as ->.
  { rewrite string_app_cons. cbn. by destruct (Ascii.eqb a "-"). }
  destruct (scan_sign (String a s)) as [g s1]. cbn [fst snd].
  intros (w & s2 & E1 & Hk)%bind_pair_some. rewrite (scan_whole_app _ _ _ _ H1 E1).
  apply bind_pair_some in Hk as (f & s3 & E2 & Hk). cbn. rewrite (scan_fraction_app _ _ _ _ H2 E2).
  apply bind_pair_some in Hk as (p & s4 & E3 & [= <- <-]). cbn. by rewrite (scan_exponent_app _ _ _ _ H3 E3).
Qed.

(** A number starts with a digit or a minus sign. *)
Lemma scan_number_head s n r :
  scan_number s = Some (n, r) → ∃ a t, s = String a t ∧ (is_digit a || Ascii.eqb a "-") = true.
Proof.
  destruct s as [|a t]; [done|]. intros H. exists a, t. split; [done|]. revert H. unfold scan_number, scan_sign.
  destruct (Ascii.eqb a "-"); [by rewrite orb_true_r|]. unfold scan_whole.
  destruct (Ascii.eqb_spec a "0") as [->|_]; [done|]. unfold digits1. cbn [digits].
  by destruct (is_digit a).
Qed.

Lemma number_dispatch (P : ascii → bool) a :
  (is_digit a || Ascii.eqb a "-") = true →
  forallb (fun c => negb (P c)) ["-"; "0"; "1"; "2"; "3"; "4"; "5"; "6"; "7"; "8"; "9"]%char = true → P a = false.
Proof.
  intros Ha HP. rewrite forallb_forall in HP. apply negb_true_iff, HP. revert Ha. clear.
  destruct a as [[] [] [] [] [] [] [] []]; vm_compute; intros H; first [discriminate H | tauto].
Qed.

(** ** Well-formed values *)

Definition number_literal (n : string) : Prop := scan_number n = Some (n, "").

(** A value that can occur inside [depth] arrays and objects of a text. *)
Fixpoint wf_json (depth : N) (j : json) : Prop :=
  match j with
  | JNum n => number_literal n
  | JStr s => utf8 s
  | JArr l => (depth < maxNestingDepth)%N ∧ foldr (fun x P => wf_json (N.succ depth) x ∧ P) True l
  | JObj l =>
      (depth < maxNestingDepth)%N ∧ NoDup (map fst l)
      ∧ foldr (fun kv P => (utf8 kv.1 ∧ wf_json (N.succ depth) kv.2) ∧ P) True l
  | JNull | JBool _ => True
  end.

Lemma foldr_Forall {A : Type} (Q : A → Prop) l : foldr (fun x P => Q x ∧ P) True l ↔ Forall Q l.
Proof. induction l as [|x l IH]; cbn; [by split; constructor|]. by rewrite Forall_cons, IH. Qed.

(** The value with the members of its objects in the order of their keys. *)
Fixpoint sort_json (j : json) : json :=
  match j with
  | JArr l => JArr (map sort_json l)
  | JObj l => JObj (sort_entries (map (fun kv => (kv.1, sort_json kv.2)) l))
  | _ => j
  end.

Lemma foldl_put_fresh {A : Type} (l m : list (string * A)) : NoDup (map fst (m ++ l)) → foldl put m l = m ++ l.
Proof.
  revert m. induction l as [|kv l IH]; intros m H; [by rewrite app_nil_r|]. cbn.
  rewrite put_fresh.
  - rewrite IH; by rewrite <- app_assoc.
  - rewrite map_app in H. apply NoDup_app in H as (_ & H & _). intros Hk. apply (H _ Hk). left.
Qed.

(** ** The round trip *)

(** [p] reads [a] from the front of [s] and leaves [rest], with any fuel that is
    large enough. *)
Definition reads {A : Type} (p : nat → string → option (A * string)) (s : string) (a : A) (rest : string) : Prop :=
  ∃ n, ∀ fuel, (n ≤ fuel)%nat → p fuel s = Some (a, rest).

(** The first byte of an encoded value. *)
Lemma marshal_head depth j :
  wf_json depth j →
  ∃ a r, Marshal j = String a r ∧ is_ws a = false ∧ Ascii.eqb a "]" = false.
Proof.
  destruct j as [|[]|n|s|l|l]; cbn [Marshal]; try (intros _; by eexists _, _).
  intros H. destruct (scan_number_head _ _ _ H) as (a & t & -> & Ha). exists a, t.
  split; [done|]. split; [by apply (number_dispatch is_ws)|by apply (number_dispatch (fun a => Ascii.eqb a "]"))].
Qed.

Lemma skip_marshal depth j t : wf_json depth j → skip_ws (Marshal j +:+ t) = Marshal j +:+ t.
Proof. intros (a & r & -> & Hw & _)%marshal_head. rewrite string_app_cons. cbn. by rewrite Hw. Qed.

Definition value_reads (j : json) : Prop := ∀ depth rest,
  wf_json depth j → ends_number rest = true →
  reads (fun fuel => parse_value fuel depth) (Marshal j +:+ rest) (sort_json j) rest.

Lemma join_comma_cons x l : join_comma (x :: l) = match l with [] => x | _ => x +:+ "," +:+ join_comma l end.
Proof. by destruct l. Qed.

Lemma elements_read l depth rest :
  l ≠ [] → Forall value_reads l → Forall (wf_json depth) l →
  reads (fun fuel => parse_elements fuel depth) (join_comma (map Marshal l) +:+ String "]" rest) (map sort_json l) rest.
Proof.
  intros Hne Hl. induction Hl as [|x l Hx Hl IH]; intros Hw; [done|]. apply Forall_cons in Hw as [Hwx Hw].
  cbn [map]. rewrite join_comma_cons. destruct l as [|y l].
  - destruct (Hx depth (String "]" rest) Hwx eq_refl) as [n Hn]. exists (S n). intros [|fuel] Hf; [lia|].
    cbn [parse_elements map]. rewrite Hn by lia. done.
  - destruct (IH ltac:(done) Hw) as [m Hm]. cbn [map] in *. rewrite !string_app_assoc.
    destruct (Hx depth ("," +:+ join_comma (Marshal y :: map Marshal l) +:+ String "]" rest) Hwx eq_refl) as [n Hn].
    exists (S (n + m)). intros [|fuel] Hf; [lia|].
    cbn [parse_elements]. rewrite Hn by lia. cbn [mbind option_bind].
    change (skip_ws ("," +:+ ?s)) with (String "," s). cbn [head_is Ascii.eqb Bool.eqb].
    by rewrite Hm by lia.
Qed.

Definition entry_text (kv : string * json) : string := marshal_entry (kv.1, Marshal kv.2).

(** The member at the front of an object's text. *)
Lemma entry_step kv depth tail fuel :
  utf8 kv.1 →
  parse_members (S fuel) depth (entry_text kv +:+ tail)
  = ('(v, r3) ← parse_value fuel depth (Marshal kv.2 +:+ tail);
     match head_is "," (skip_ws r3) with
     | Some r4 => '(l, rest) ← parse_members fuel depth r4; Some ((kv.1, v) :: l, rest)
     | None => rest ← head_is "}" (skip_ws r3); Some ([(kv.1, v)], rest)
     end).
Proof.
  intros Hk. destruct kv as [k v]. unfold entry_text, marshal_entry, marshal_string. cbn [fst snd] in *.
  rewrite !string_app_assoc, string_app_cons. cbn [parse_members]. cbn [skip_ws].
  change (is_ws quote_char) with false. cbn [head_is]. rewrite Ascii.eqb_refl. cbn [mbind option_bind].
  rewrite string_app_cons. rewrite unquote_escape by (done || lia). cbn [mbind option_bind].
  change (skip_ws ("" +:+ ":" +:+ ?s)) with (String ":" s). cbn [head_is Ascii.eqb Bool.eqb mbind option_bind]. done.
Qed.

Lemma members_read l depth rest :
  l ≠ [] → Forall (fun kv => value_reads kv.2) l → Forall (fun kv => utf8 kv.1 ∧ wf_json depth kv.2) l →
  reads (fun fuel => parse_members fuel depth) (join_comma (map entry_text l) +:+ String "}" rest)
    (map (fun kv => (kv.1, sort_json kv.2)) l) rest.
Proof.
  intros Hne Hl. induction Hl as [|x l Hx Hl IH]; intros Hw; [done|]. apply Forall_cons in Hw as [[Hu Hwx] Hw].
  cbn [map]. rewrite join_comma_cons. destruct l as [|y l].
  - destruct (Hx depth (String "}" rest) Hwx eq_refl) as [n Hn]. exists (S n). intros [|fuel] Hf; [lia|].
    cbn [map]. by rewrite entry_step, Hn by (done || lia).
  - destruct (IH ltac:(done) Hw) as [m Hm]. cbn [map] in *. rewrite !string_app_assoc.
    destruct (Hx depth ("," +:+ join_comma (entry_text y :: map entry_text l) +:+ String "}" rest) Hwx eq_refl) as [n Hn].
    exists (S (n + m)). intros [|fuel] Hf; [lia|]. rewrite entry_step, Hn by (done || lia). cbn [mbind option_bind].
    change (skip_ws ("," +:+ ?s)) with (String "," s). cbn [head_is Ascii.eqb Bool.eqb].
    by rewrite Hm by lia.
Qed.

Lemma marshal_obj l : Marshal (JObj l) = "{" +:+ join_comma (map entry_text (sort_entries l)) +:+ "}".
Proof. cbn [Marshal]. rewrite sort_entries_map, map_map. done. Qed.

Lemma marshal_string_reads s depth rest fuel :
  utf8 s → parse_value (S fuel) depth (marshal_string s +:+ rest) = Some (JStr s, rest).
Proof.
  intros Hs. unfold marshal_string. rewrite string_app_assoc, string_app_cons. cbn [parse_value skip_ws].
  change (is_ws quote_char) with false. cbn iota. rewrite Ascii.eqb_refl, string_app_cons.
  by rewrite unquote_escape by (done || lia).
Qed.

Lemma number_reads n depth rest fuel :
  number_literal n → ends_number rest = true → parse_value (S fuel) depth (n +:+ rest) = Some (JNum n, rest).
Proof.
  intros Hn Hr. pose proof (scan_number_app n n "" rest Hr Hn) as H.
  destruct (scan_number_head _ _ _ Hn) as (a & t & -> & Ha). rewrite string_app_cons in *.
  cbn [parse_value skip_ws]. rewrite (number_dispatch is_ws a Ha) by done.
  rewrite !(number_dispatch (fun a => Ascii.eqb a _) a Ha) by done. by rewrite H.
Qed.

(** The opening of a container that is not empty. *)
Lemma array_step l depth rest fuel :
  l ≠ [] → Forall (fun x => ∃ a r, Marshal x = String a r ∧ is_ws a = false ∧ Ascii.eqb a "]" = false) l →
  parse_value (S fuel) depth (Marshal (JArr l) +:+ rest)
  = if (maxNestingDepth <=? depth)%N then None
    else '(v, r) ← parse_elements fuel (N.succ depth) (join_comma (map Marshal l) +:+ String "]" rest); Some (JArr v, r).
Proof.
  intros Hne Hh. cbn [Marshal]. rewrite !string_app_assoc. change ("[" +:+ ?s) with (String "[" s).
  cbn [parse_value]. change (skip_ws (String "[" ?s)) with (String "[" s). cbn [Ascii.eqb Bool.eqb].
  change ("]" +:+ rest) with (String "]" rest). destruct (_ <=? _)%N; [done|].
  destruct l as [|x l]; [done|]. apply Forall_cons in Hh as [(a & r & Ea & Ew & E) _].
  assert (head_is "]" (skip_ws (join_comma (map Marshal (x :: l)) +:+ String "]" rest)) = None) as ->; [|done].
  cbn [map]. rewrite join_comma_cons.
  destruct (map Marshal l); rewrite Ea, ?string_app_assoc, string_app_cons; cbn [skip_ws]; rewrite Ew;
    cbn [head_is]; by rewrite E.
Qed.

Lemma object_step l depth rest fuel :
  sort_entries l ≠ [] →
  parse_value (S fuel) depth (Marshal (JObj l) +:+ rest)
  = if (maxNestingDepth <=? depth)%N then None
    else '(v, r) ← parse_members fuel (N.succ depth) (join_comma (map entry_text (sort_entries l)) +:+ String "}" rest);
         Some (JObj (foldl put [] v), r).
Proof.
  intros Hne. rewrite marshal_obj, !string_app_assoc. change ("{" +:+ ?s) with (String "{" s).
  cbn [parse_value]. change (skip_ws (String "{" ?s)) with (String "{" s). cbn [Ascii.eqb Bool.eqb].
  change ("}" +:+ rest) with (String "}" rest). destruct (_ <=? _)%N; [done|].
  destruct (sort_entries l) as [|x l']; [done|].
  assert (head_is "}" (skip_ws (join_comma (map entry_text (x :: l')) +:+ String "}" rest)) = None) as ->; [|done].
  cbn [map]. rewrite join_comma_cons. by destruct (map entry_text l').
Qed.

Lemma depth_ok depth : (depth < maxNestingDepth)%N → (maxNestingDepth <=? depth)%N = false.
Proof. intros H. by apply N.leb_gt. Qed.

(** Every well-formed value is read back from its encoding. *)
Lemma marshal_reads j : value_reads j.
Proof.
  induction j as [|b|n|s|l IH|l IH] using json_rec'; intros depth rest Hw Hr.
  - exists 1%nat. by intros [|fuel] Hf; [lia|].
  - exists 1%nat. intros [|fuel] Hf; [lia|]. by destruct b.
  - exists 1%nat. intros [|fuel] Hf; [lia|]. by apply number_reads.
  - exists 1%nat. intros [|fuel] Hf; [lia|]. by apply marshal_string_reads.
  - destruct Hw as [Hd Hw%foldr_Forall]. cbn [sort_json]. destruct l as [|x l].
    { exists 1%nat. intros [|fuel] Hf; [lia|]. cbn. by rewrite depth_ok. }
    destruct (elements_read (x :: l) (N.succ depth) rest ltac:(done) IH Hw) as [n Hn].
    exists (S n). intros [|fuel] Hf; [lia|]. rewrite array_step, depth_ok by (done || by eapply Forall_impl, marshal_head).
    by rewrite Hn by lia.
  - destruct Hw as (Hd & Hk & Hw%foldr_Forall). cbn [sort_json]. rewrite sort_entries_map.
    pose proof (sort_entries_Permutation l) as Hp. rewrite <- Hp in Hw, IH, Hk.
    destruct (decide (sort_entries l = [])) as [El|Nl].
    { exists 1%nat. intros [|fuel] Hf; [lia|]. rewrite marshal_obj, El. cbn. by rewrite depth_ok. }
    destruct (members_read (sort_entries l) (N.succ depth) rest Nl IH Hw) as [n Hn].
    exists (S n). intros [|fuel] Hf; [lia|]. rewrite object_step, depth_ok, Hn by (done || lia). cbn [mbind option_bind].
    rewrite foldl_put_fresh; [done|]. cbn [app]. rewrite map_map. exact Hk.
Qed.

Lemma decode_one_marshal j : wf_json 0 j → decode_one (Marshal j) = Some (sort_json j).
Proof.
  intros Hw. destruct (marshal_reads j 0%N "" Hw eq_refl) as [n Hn]. rewrite string_app_nil in Hn.
  pose proof (skip_marshal 0 j "" Hw) as Hs. rewrite string_app_nil in Hs.
  destruct (marshal_head 0 j Hw) as (a & r & Ea & _). unfold decode_one, Decode. rewrite Hs, Ea, <- Ea.
  destruct (parse_fuel (value_fuel (Marshal j)) (n + value_fuel (Marshal j)) 0 (Marshal j)) as [-> _];
    [|unfold value_fuel; lia..]. by rewrite Hn by (unfold value_fuel; lia).
Qed.

(** ** What is read is well formed *)

Lemma digits_literal s : digits (digits s).1 = ((digits s).1, "").
Proof.
  induction s as [|a s IH]; [done|]. cbn [digits]. destruct (is_digit a) eqn:E; [|done].
  destruct (digits s) as [d r]. cbn [fst] in *. cbn [digits]. by rewrite E, IH.
Qed.

Lemma digits1_literal s d r : digits1 s = Some (d, r) → digits1 d = Some (d, "").
Proof.
  unfold digits1. pose proof (digits_literal s) as H. destruct (digits s) as [[|a e] t]; [done|].
  intros [= <- <-]. cbn [fst] in H. by rewrite H.
Qed.

Lemma digits1_head s d r : digits1 s = Some (d, r) → ∃ a t, d = String a t ∧ s = String a (t +:+ r) ∧ is_digit a = true.
Proof.
  unfold digits1. destruct s as [|a s]; [done|]. cbn [digits]. destruct (is_digit a) eqn:E; [|done].
  assert (s = (digits s).1 +:+ (digits s).2) as Hs.
  { clear. induction s as [|b s IH]; [done|]. cbn [digits]. destruct (is_digit b); [|done].
    destruct (digits s) as [d r]. cbn [fst snd] in *. rewrite string_app_cons. by rewrite IH at 1. }
  destruct (digits s) as [d' r']. intros [= <- <-]. exists a, d'. cbn in Hs. by rewrite Hs at 1.
Qed.

Lemma digit_not a c : is_digit a = true → is_digit c = false → Ascii.eqb a c = false.
Proof. intros Ha Hc. destruct (Ascii.eqb_spec a c); [congruence|done]. Qed.

Lemma scan_whole_literal s w r :
  scan_whole s = Some (w, r) →
  scan_sign w = ("", w) ∧ scan_whole w = Some (w, "") ∧ (w = "0" ∨ digits1 w = Some (w, "")).
Proof.
  destruct s as [|a s]; [done|]. unfold scan_whole at 1.
  destruct (Ascii.eqb a "0") eqn:E; [intros [= <- <-]; by split_and!; [..|left]|].
  intros H. pose proof (digits1_literal _ _ _ H) as Hd.
  destruct (digits1_head _ _ _ H) as (b & t & -> & [= <- _] & Hb).
  unfold scan_sign, scan_whole. rewrite (digit_not a "-" Hb eq_refl), E. by split_and!; [..|right].
Qed.

Lemma scan_fraction_literal s f r :
  scan_fraction s = Some (f, r) → f = "" ∨ scan_fraction f = Some (f, "") ∧ String.get 0 f = Some "."%char.
Proof.
  destruct s as [|a s]; [intros [= <- <-]; by left|]. unfold scan_fraction at 1.
  destruct (Ascii.eqb_spec a ".") as [->|]; [|intros [= <- <-]; by left].
  intros (d & q & H%digits1_literal & [= <- <-])%bind_pair_some. right. cbn. by rewrite H.
Qed.

Lemma scan_exponent_literal s f r :
  scan_exponent s = Some (f, r) →
  f = "" ∨ scan_exponent f = Some (f, "") ∧ ∃ a t, f = String a t ∧ (Ascii.eqb a "e" || Ascii.eqb a "E") = true.
Proof.
  destruct s as [|a s]; [intros [= <- <-]; by left|]. unfold scan_exponent at 1.
  destruct (_ || _) eqn:Ea; [|intros [= <- <-]; by left].
  destruct (scan_exponent_sign s) as [g q] eqn:Eg. intros (d & q' & H & [= <- <-])%bind_pair_some. right.
  split; [|by exists a, (g +:+ d)]. unfold scan_exponent. rewrite Ea. pose proof (digits1_literal _ _ _ H) as Hd.
  assert (scan_exponent_sign (g +:+ d) = (g, d)) as ->; [|cbn [mbind option_bind]; by rewrite Hd].
  destruct (digits1_head _ _ _ H) as (b & t & -> & _ & Hb).
  assert (scan_exponent_sign (String b t) = ("", String b t)) as Hplain.
  { unfold scan_exponent_sign. by rewrite (digit_not b "+" Hb eq_refl), (digit_not b "-" Hb eq_refl). }
  destruct s as [|c s]; [by injection Eg as <- <-|]. unfold scan_exponent_sign in Eg.
  destruct (Ascii.eqb c "+" || Ascii.eqb c "-") eqn:Ec; injection Eg as <- <-; [|exact Hplain].
  rewrite string_app_cons. unfold scan_exponent_sign. by rewrite Ec.
Qed.

(** A number literal read from a text is one. *)
Lemma scan_number_literal s n r : scan_number s = Some (n, r) → number_literal n.
Proof.
  unfold number_literal, scan_number. destruct (scan_sign s) as [g s1] eqn:Eg.
  intros (w & s2 & Hw%scan_whole_literal & Hk)%bind_pair_some.
  apply bind_pair_some in Hk as (f & s3 & Hf%scan_fraction_literal & Hk).
  apply bind_pair_some in Hk as (p & s4 & Hp%scan_exponent_literal & [= <- _]). destruct Hw as (Hs & Hw & _).
  assert (ends fraction_byte p = true) as He.
  { destruct Hp as [->|[_ (a & t & -> & [Ha|Ha]%orb_true_iff)]]; [done|..]; by apply Ascii.eqb_eq in Ha as ->. }
  assert (scan_fraction (f +:+ p) = Some (f, p)) as Ef.
  { rewrite (scan_fraction_app f f "" p He); [done|]. by destruct Hf as [->|[? _]]. }
  assert (ends is_digit (f +:+ p) = true) as Hd.
  { destruct Hf as [->|[_ Hf]].
    - revert He. apply ends_sub. intros b Hb. unfold fraction_byte. by rewrite Hb.
    - destruct f as [|c f]; [done|]. cbn in Hf. injection Hf as ->. done. }
  pose proof (scan_whole_app w w "" (f +:+ p) Hd Hw) as Ew.
  assert (scan_sign (g +:+ w +:+ f +:+ p) = (g, w +:+ f +:+ p)) as ->.
  { destruct s as [|a s]; [|unfold scan_sign in Eg; destruct (Ascii.eqb a "-")]; injection Eg as <- _; try done;
      change ("" +:+ ?x) with x; (destruct w as [|b w]; [done|]); rewrite string_app_cons; unfold scan_sign in *;
      by destruct (Ascii.eqb b "-"). }
  rewrite Ew. cbn [mbind option_bind]. change ("" +:+ ?x) with x. rewrite Ef. cbn [mbind option_bind].
  assert (scan_exponent p = Some (p, "")) as -> by (by destruct Hp as [->|[? _]]). done.
Qed.

Lemma put_Forall {A : Type} (Q : string * A → Prop) m kv : Forall Q m → Q kv → Forall Q (put m kv).
Proof.
  intros Hm Hq. unfold put. apply Forall_app. split; [|by constructor].
  apply Forall_elem. intros q [Hin _]%filter_keys. exact (proj1 (Forall_elem _ _) Hm q Hin).
Qed.

Lemma foldl_put_ok {A : Type} (Q : string * A → Prop) l m :
  NoDup (map fst m) → Forall Q m → Forall Q l → NoDup (map fst (foldl put m l)) ∧ Forall Q (foldl put m l).
Proof.
  revert m. induction l as [|kv l IH]; intros m Hd Hm Hl; [done|]. apply Forall_cons in Hl as [Hkv Hl].
  apply IH; [by apply put_NoDup|by apply put_Forall|done].
Qed.

Lemma parse_wf fuel : ∀ depth,
  (∀ s j r, parse_value fuel depth s = Some (j, r) → wf_json depth j)
  ∧ (∀ s l r, parse_elements fuel depth s = Some (l, r) → Forall (wf_json depth) l)
  ∧ (∀ s l r, parse_members fuel depth s = Some (l, r) → Forall (fun kv => utf8 kv.1 ∧ wf_json depth kv.2) l).
Proof.
  induction fuel as [|fuel IH]; intros depth; [done|]. destruct (IH depth) as (Hv & He & Hm).
  destruct (IH (N.succ depth)) as (_ & He' & Hm'). split_and!; intros s x t.
  - cbn [parse_value]. destruct (skip_ws s) as [|a r]; [done|].
    destruct (Ascii.eqb a quote_char).
    { intros (str & q & H & [= <- <-])%bind_pair_some. by apply (unquote_utf8 (String.length r)) in H. }
    destruct (Ascii.eqb a "[");
      [destruct (N.leb_spec maxNestingDepth depth) as [_|Hd]; [done|]
      |destruct (Ascii.eqb a "{"); [destruct (N.leb_spec maxNestingDepth depth) as [_|Hd]; [done|]|]].
    + destruct (head_is "]" _); [by intros [= <- <-]|].
      intros (l & q & H%He' & [= <- <-])%bind_pair_some. split; [done|]. by apply foldr_Forall.
    + destruct (head_is "}" _); [intros [= <- <-]; split_and!; [done|constructor|done]|].
      intros (l & q & H%Hm' & [= <- <-])%bind_pair_some. split; [done|]. rewrite foldr_Forall.
      by apply foldl_put_ok; [constructor|..].
    + destruct (Ascii.eqb a "t"); [|destruct (Ascii.eqb a "f"); [|destruct (Ascii.eqb a "n")]];
        try (by intros (q & _ & [= <- <-])%bind_some).
      intros (n & q & H%scan_number_literal & [= <- <-])%bind_pair_some. done.
  - cbn [parse_elements]. intros (v & q & H%Hv & Hk)%bind_pair_some. destruct (head_is "," _).
    + apply bind_pair_some in Hk as (l & u & H2%He & [= <- <-]). by constructor.
    + apply bind_some in Hk as (u & _ & [= <- <-]). by constructor.
  - cbn [parse_members]. intros (r & _ & Hk)%bind_some.
    apply bind_pair_some in Hk as (key & r1 & H2 & Hk). apply (unquote_utf8 (String.length r)) in H2; [|lia].
    apply bind_some in Hk as (r2 & _ & Hk).
    apply bind_pair_some in Hk as (v & r3 & H4%Hv & Hk). destruct (head_is "," _).
    + apply bind_pair_some in Hk as (l & u & H5%Hm & [= <- <-]). by constructor.
    + apply bind_some in Hk as (u & _ & [= <- <-]). by constructor.
Qed.

Lemma decode_one_wf s j : decode_one s = Some j → wf_json 0 j.
Proof.
  unfold decode_one, Decode. destruct (skip_ws s); [done|].
  destruct (parse_value _ _ _) as [[v r]|] eqn:E; [|done]. apply parse_wf in E.
  destruct (skip_ws r); [|by destruct (parse_value _ _ _) as [[]|]]. by intros [= <-].
Qed.

(** Reading, writing and reading again gives the same value, with the members
    of its objects sorted. *)
Lemma decode_marshal_decode s j : decode_one s = Some j → decode_one (Marshal j) = Some (sort_json j).
Proof. intros H%decode_one_wf. by apply decode_one_marshal. Qed.

(** ** Values that are too deep *)

(** Well formed but for the nesting. *)
Fixpoint wf_text (j : json) : Prop :=
  match j with
  | JNum n => number_literal n
  | JStr s => utf8 s
  | JArr l => foldr (fun x P => wf_text x ∧ P) True l
  | JObj l => NoDup (map fst l) ∧ foldr (fun kv P => (utf8 kv.1 ∧ wf_text kv.2) ∧ P) True l
  | JNull | JBool _ => True
  end.

Lemma wf_json_text j : ∀ depth, wf_json depth j → wf_text j.
Proof.
  induction j as [|b|n|s|l IH|l IH] using json_rec'; intros depth; cbn; try done.
  - rewrite !foldr_Forall. intros [_ H]. apply Forall_elem. intros x Hx. rewrite Forall_elem in IH, H. eauto.
  - rewrite !foldr_Forall. intros (_ & Hd & H). split; [done|]. apply Forall_elem. intros x Hx.
    rewrite Forall_elem in IH, H. destruct (H x Hx). eauto.
Qed.

Lemma text_head j :
  wf_text j → ∃ a r, Marshal j = String a r ∧ is_ws a = false ∧ Ascii.eqb a "]" = false.
Proof.
  destruct j as [|[]|n|s|l|l]; cbn [Marshal]; try (intros _; by eexists _, _).
  intros H. by apply (marshal_head 0 (JNum n)).
Qed.

(** A parse that succeeds says that the value read was not too deep. *)
Definition read_wf (j : json) : Prop := ∀ depth rest fuel x,
  wf_text j → ends_number rest = true → (2 * String.length (Marshal j +:+ rest) + 1 ≤ fuel)%nat →
  parse_value fuel depth (Marshal j +:+ rest) = Some x → wf_json depth j.

(** With enough fuel the value read is known. *)
Lemma read_value j depth rest fuel :
  wf_json depth j → ends_number rest = true → (2 * String.length (Marshal j +:+ rest) + 1 ≤ fuel)%nat →
  parse_value fuel depth (Marshal j +:+ rest) = Some (sort_json j, rest).
Proof.
  intros Hw Hr Hf. destruct (marshal_reads j depth rest Hw Hr) as [n Hn].
  destruct (parse_fuel fuel (n + fuel) depth (Marshal j +:+ rest)) as [-> _]; [apply Hn; lia|lia..].
Qed.

Lemma elements_wf l depth rest fuel x :
  l ≠ [] → Forall read_wf l → Forall wf_text l →
  (2 * String.length (join_comma (map Marshal l) +:+ String "]" rest) + 2 ≤ fuel)%nat →
  parse_elements fuel depth (join_comma (map Marshal l) +:+ String "]" rest) = Some x → Forall (wf_json depth) l.
Proof.
  intros Hne Hl. revert fuel x. induction Hl as [|y l Hy Hl IH]; intros fuel x Hw Hf; [done|].
  apply Forall_cons in Hw as [Hwy Hw]. cbn [map] in *. rewrite join_comma_cons in *.
  destruct fuel as [|fuel]; [lia|]. cbn [parse_elements]. destruct l as [|z l]; cbn [map] in *.
  - intros ([v q] & H & _)%bind_some. constructor; [|constructor]. eapply Hy; [exact Hwy| |..|exact H]; [done|lia].
  - rewrite !string_app_assoc in *. intros (v & q & H & Hk)%bind_pair_some.
    assert (wf_json depth y) as Hyw by (eapply Hy; [exact Hwy| |..|exact H]; [done|lia]). constructor; [done|].
    rewrite (read_value y) in H by (done || lia). injection H as <- <-.
    change (skip_ws ("," +:+ ?s)) with (String "," s) in Hk. cbn [head_is Ascii.eqb Bool.eqb] in Hk.
    apply bind_some in Hk as (lr & Hk & _). apply (IH ltac:(done) fuel lr Hw); [|done].
    rewrite !string_length_app in *. cbn [String.length] in *. lia.
Qed.

Lemma members_wf l depth rest fuel x :
  l ≠ [] → Forall (fun kv => read_wf kv.2) l → Forall (fun kv => utf8 kv.1 ∧ wf_text kv.2) l →
  (2 * String.length (join_comma (map entry_text l) +:+ String "}" rest) + 2 ≤ fuel)%nat →
  parse_members fuel depth (join_comma (map entry_text l) +:+ String "}" rest) = Some x →
  Forall (fun kv => utf8 kv.1 ∧ wf_json depth kv.2) l.
Proof.
  assert (∀ (kv : string * json) t, (String.length (Marshal kv.2 +:+ t) ≤ String.length (entry_text kv +:+ t))%nat) as Hlen.
  { intros kv t. unfold entry_text, marshal_entry. cbn [fst snd]. rewrite !string_length_app. lia. }
  intros Hne Hl. revert fuel x. induction Hl as [|y l Hy Hl IH]; intros fuel x Hw Hf; [done|].
  apply Forall_cons in Hw as [[Hu Hwy] Hw]. cbn [map] in *. rewrite join_comma_cons in *.
  destruct fuel as [|fuel]; [lia|]. destruct l as [|z l]; cbn [map] in *.
  - pose proof (Hlen y (String "}" rest)). rewrite entry_step by done.
    intros ([v q] & H1 & _)%bind_some. constructor; [|constructor]. split; [done|].
    eapply Hy; [exact Hwy| |..|exact H1]; [done|lia].
  - rewrite !string_app_assoc in *. rewrite entry_step by done.
    pose proof (Hlen y ("," +:+ join_comma (entry_text z :: map entry_text l) +:+ String "}" rest)).
    intros (v & q & H1 & Hk)%bind_pair_some.
    assert (wf_json depth y.2) as Hyw by (eapply Hy; [exact Hwy| |..|exact H1]; [done|lia]). constructor; [done|].
    rewrite (read_value y.2) in H1 by (done || lia). injection H1 as <- <-.
    change (skip_ws ("," +:+ ?s)) with (String "," s) in Hk. cbn [head_is Ascii.eqb Bool.eqb] in Hk.
    apply bind_some in Hk as (lr & Hk & _). apply (IH ltac:(done) fuel lr Hw); [|done].
    rewrite !string_length_app in *. cbn [String.length] in *. lia.
Qed.

Lemma marshal_read_wf j : read_wf j.
Proof.
  induction j as [|b|n|s|l IH|l IH] using json_rec'; intros depth rest fuel x Hw Hr Hf Hp; try done.
  - cbn in Hw. rewrite foldr_Forall in Hw. cbn [wf_json]. rewrite foldr_Forall. destruct fuel as [|fuel]; [lia|].
    destruct l as [|y l].
    { split; [|constructor]. cbn in Hp. destruct (N.leb_spec maxNestingDepth depth); done. }
    rewrite array_step in Hp by (done || by eapply Forall_impl, text_head).
    destruct (N.leb_spec maxNestingDepth depth) as [|Hd]; [done|]. split; [done|].
    apply bind_some in Hp as (v & Hp & _). apply (elements_wf _ _ rest fuel v); try done.
    cbn [Marshal] in Hf. rewrite !string_length_app in *. cbn [String.length] in *. lia.
  - cbn in Hw. rewrite foldr_Forall in Hw. destruct Hw as [Hk Hw]. cbn [wf_json]. rewrite foldr_Forall.
    destruct fuel as [|fuel]; [lia|]. rewrite <- (sort_entries_Permutation l) in IH, Hw |- *.
    destruct (decide (sort_entries l = [])) as [El|Nl].
    { rewrite El. rewrite marshal_obj, El in Hp. cbn in Hp. destruct (N.leb_spec maxNestingDepth depth); [done|].
      split_and!; [done| |constructor]. constructor. }
    rewrite object_step in Hp by done. destruct (N.leb_spec maxNestingDepth depth) as [|Hd]; [done|].
    split; [done|]. split; [by rewrite (sort_entries_Permutation l)|].
    apply bind_some in Hp as (v & Hp & _). apply (members_wf _ _ rest fuel v); try done.
    rewrite marshal_obj, !string_length_app in *. cbn [String.length] in *. lia.
Qed.

(** The text of a value decodes to it, sorted, or not at all. *)
Lemma decode_marshal_some j v : wf_text j → decode_one (Marshal j) = Some v → wf_json 0 j ∧ v = sort_json j.
Proof.
  intros Hw Hd. assert (wf_json 0 j) as Hj.
  { unfold decode_one, Decode in Hd. destruct (skip_ws _); [done|].
    destruct (parse_value _ _ _) as [x|] eqn:E; [|done]. rewrite <- (string_app_nil (Marshal j)) in E.
    apply (marshal_read_wf j 0%N "" _ x) in E; [done..|]. unfold value_fuel. lia. }
  split; [done|]. rewrite (decode_one_marshal j Hj) in Hd. by injection Hd.
Qed.

(** ** Sorting changes nothing that is written *)

Lemma utf8_ascii s :
  forallb (fun a => (nat_of_ascii a <? 128)%nat) (String.list_ascii_of_string s) = true → utf8 s.
Proof.
  induction s as [|a s IH]; cbn [String.list_ascii_of_string forallb]; [constructor|].
  rewrite andb_true_iff. intros [Ha Hs]. change (String a s) with (String a "" +:+ s). constructor; [|auto].
  split; [done|]. show_width. by rewrite Ha.
Qed.

Lemma wf_text_obj l :
  wf_text (JObj l) ↔ NoDup (map fst l) ∧ Forall (fun kv => utf8 kv.1 ∧ wf_text kv.2) l.
Proof. cbn. by rewrite foldr_Forall. Qed.

Lemma wf_text_arr l : wf_text (JArr l) ↔ Forall wf_text l.
Proof. cbn. by rewrite foldr_Forall. Qed.

Lemma sort_entries_idem {A : Type} (l : list (string * A)) :
  NoDup (map fst l) → sort_entries (sort_entries l) = sort_entries l.
Proof. intros H. symmetry. apply sort_entries_perm; [|done]. by rewrite sort_entries_Permutation. Qed.

Lemma marshal_sort j : wf_text j → Marshal (sort_json j) = Marshal j.
Proof.
  induction j as [|b|n|s|l IH|l IH] using json_rec'; try done.
  - rewrite wf_text_arr. intros Hw. cbn. do 3 f_equal. rewrite map_map. apply map_ext_in.
    intros x Hx%list_elem_of_In. rewrite Forall_elem in IH, Hw. auto.
  - rewrite wf_text_obj. intros [Hd Hw]. cbn [sort_json]. rewrite !marshal_obj, sort_entries_map.
    rewrite <- (sort_entries_map sort_json), sort_entries_idem by (by rewrite map_map).
    rewrite sort_entries_map, map_map. do 3 f_equal. apply map_ext_in.
    intros kv Hin%list_elem_of_In. rewrite (sort_entries_Permutation l) in Hin.
    rewrite Forall_elem in IH, Hw. unfold entry_text. cbn [fst snd]. rewrite IH; [done|done|apply (Hw kv Hin)].
Qed.
