(* ===== verification/FloatText.v ===== *)
(** * FloatText: how a [float64] is read and written in JSON

    [ParseFloat] is [json.Number.Float64], and [marshal_float] the text that
    [encoding/json] writes for a [float64]: the shortest decimal that reads back as
    the number, with an exponent when the number is tiny or huge.  A value decoded
    without [UseNumber] holds [float64]s, so that its numbers are rewritten
    ([plain]). *)
From Stdlib Require Import Ascii.
From Corelib Require Import SpecFloat.
From stdpp Require Import pretty.
From S2P Require Import Prelude Float64 Json JsonText.

Open Scope string_scope.
Open Scope list_scope.
Open Scope Z_scope.

(** [json.Number.Float64]: the nearest number, an error when it is infinite.
    ([strconv] stops counting an exponent at five digits, which only a literal of
    some ten thousand digits can make visible.) *)
Definition ParseFloat (n : string) : option float64 :=
  '(m, e) ← literal_value n;
  let negative := match n with String a _ => Ascii.eqb a "-" | EmptyString => false end in
  let x := f64_of_decimal negative (Z.abs m) e in
  if IsInf x then None else Some x.

(** ** Shortest decimals *)

Definition decimal_length (z : Z) : Z := slen (pretty z).

(** The position of the decimal point of [num / den]: it is at least [10^(k-1)] and
    less than [10^k]. *)
Definition point_of (num den : Z) : Z :=
  if den <=? num then decimal_length (num / den)
  else 1 - decimal_length ((den - 1) / num).

(** The best decimal of [n] digits: below or above [num / den], one that reads back
    as [x], the nearer one when both do. *)
Definition decimal_at (x : float64) (num den k n : Z) : option Z :=
  let scaled := if 0 <=? n - k then num * 10 ^ (n - k) else num in
  let den := if 0 <=? n - k then den else den * 10 ^ (k - n) in
  let low := scaled / den in
  let rest := scaled mod den in
  let reads d := feqb (f64_of_decimal false d (k - n)) x in
  if rest =? 0 then (if reads low then Some low else None)
  else
    match reads low, reads (low + 1) with
    | true, true => if (2 * rest <? den) || ((2 * rest =? den) && Z.even low) then Some low else Some (low + 1)
    | true, false => Some low
    | false, true => Some (low + 1)
    | false, false => None
    end.

Fixpoint shortest_from (x : float64) (num den k n : Z) (fuel : nat) : Z * Z :=
  match fuel with
  | O => (num / den, 0)
  | S fuel =>
      match decimal_at x num den k n with
      | Some d => (d, k - n)
      | None => shortest_from x num den k (n + 1) fuel
      end
  end.

(** The shortest decimal [d * 10^e] of a finite positive number: seventeen digits
    are always enough. *)
Definition shortest (m : positive) (e : Z) : Z * Z :=
  let num := if 0 <=? e then Zpos m * 2 ^ e else Zpos m in
  let den := if 0 <=? e then 1 else 2 ^ (- e) in
  shortest_from (S754_finite false m e) num den (point_of num den) 1 17.

(** ** Text *)

Fixpoint zeros (n : nat) : string := match n with O => EmptyString | S n => String "0" (zeros n) end.

Fixpoint trim_zeros (s : string) : string :=
  match s with
  | EmptyString => EmptyString
  | String a r =>
      match trim_zeros r with
      | EmptyString => if Ascii.eqb a "0" then EmptyString else String a EmptyString
      | r' => String a r'
      end
  end.

(** The digits without trailing zeros and the position of the point before which
    they stand. *)
Definition digit_point (d e : Z) : string * Z :=
  let text := pretty d in (trim_zeros text, slen text + e).

Definition exponent_text (e : Z) : string :=
  if e <? 0 then "e-" +:+ pretty (- e) else "e+" +:+ (if e <? 10 then "0" else "") +:+ pretty e.

(** The format 'e', with [e-09] cleaned up to [e-9]. *)
Definition text_e (digits : string) (point : Z) : string :=
  match digits with
  | EmptyString => EmptyString
  | String a EmptyString => String a EmptyString +:+ exponent_text (point - 1)
  | String a r => String a ("." +:+ r) +:+ exponent_text (point - 1)
  end.

(** The format 'f'. *)
Definition text_f (digits : string) (point : Z) : string :=
  let n := slen digits in
  if point <=? 0 then "0." +:+ zeros (Z.to_nat (- point)) +:+ digits
  else if n <=? point then digits +:+ zeros (Z.to_nat (point - n))
  else String.substring 0 (Z.to_nat point) digits +:+ "."
       +:+ String.substring (Z.to_nat point) (Z.to_nat (n - point)) digits.

Definition small_float : float64 := f64_of_decimal false 1 (-6).
Definition large_float : float64 := f64_of_decimal false 1 21.

(** The text of a number; [encoding/json] refuses NaN and the infinities. *)
Definition marshal_float (x : float64) : option string :=
  match x with
  | S754_zero s => Some (if s then "-0" else "0")
  | S754_finite s m e =>
      let '(d, power) := shortest m e in
      let '(digits, point) := digit_point d power in
      let abs := S754_finite false m e in
      let text := if fltb abs small_float || negb (fltb abs large_float) then text_e digits point else text_f digits point in
      Some (if s then "-" +:+ text else text)
  | _ => None
  end.

Example marshal_float_examples :
  omap marshal_float (omap ParseFloat ["0.1"; "100"; "1e21"; "1E-7"; "-2.50"; "1e23"; "5e-324"; "123456789012345680000"; "0.30000000000000004"; "1e22"; "-0"; "9007199254740993"; "1.7976931348623157e308"; "0.000001"])
  = ["0.1"; "100"; "1e+21"; "1e-7"; "-2.5"; "1e+23"; "5e-324"; "123456789012345680000"; "0.30000000000000004"; "1e+22"; "-0"; "9007199254740992"; "1.7976931348623157e+308"; "0.000001"].
Proof. vm_compute. reflexivity. Qed.

(** ** Values decoded without [UseNumber] *)

(** [json.Unmarshal] into an [any]: numbers become [float64]s, and one that is too
    large is an error. *)
Fixpoint plain (value : json) : option json :=
  match value with
  | JNum n => x ← ParseFloat n; text ← marshal_float x; Some (JNum text)
  | JArr l =>
      JArr <$> (fix go l := match l with
                            | [] => Some []
                            | v :: rest => v' ← plain v; rest' ← go rest; Some (v' :: rest')
                            end) l
  | JObj l =>
      JObj <$> (fix go l := match l with
                            | [] => Some []
                            | (k, v) :: rest => v' ← plain v; rest' ← go rest; Some ((k, v') :: rest')
                            end) l
  | v => Some v
  end.
