(* ===== verification/Unicode.v ===== *)
(** * Unicode: Go strings as code points

    [runes s] is [[]rune(s)], the code points a [range] loop over [s] visits, with
    U+FFFD for every byte that is not part of one; [of_runes] is the conversion
    back.  [UnicodeTables] has the functions of packages [unicode] and [strconv]
    that are tables of the Unicode standard. *)
From Stdlib Require Import Ascii.
From S2P Require Import Prelude Json JsonText.

Open Scope string_scope.
Open Scope list_scope.
Open Scope N_scope.

Definition RuneError : N := 65533.

Definition byte_value (a : ascii) : N := N.of_nat (nat_of_ascii a).

(** The code point of the first [rune_width s] bytes. *)
Definition rune_value (s : string) : N :=
  match rune_width s, s with
  | 1%nat, String a _ => byte_value a
  | 2%nat, String a (String b _) => (byte_value a - 192) * 64 + (byte_value b - 128)
  | 3%nat, String a (String b (String c _)) =>
      ((byte_value a - 224) * 64 + (byte_value b - 128)) * 64 + (byte_value c - 128)
  | 4%nat, String a (String b (String c (String d _))) =>
      (((byte_value a - 240) * 64 + (byte_value b - 128)) * 64 + (byte_value c - 128)) * 64 + (byte_value d - 128)
  | _, _ => RuneError
  end.

(** [skip] bytes belong to the code point already read. *)
Fixpoint runes_from (skip : nat) (s : string) : list N :=
  match s with
  | EmptyString => []
  | String _ r =>
      match skip with
      | S skip => runes_from skip r
      | O => rune_value s :: runes_from (pred (rune_width s)) r
      end
  end.
Definition runes (s : string) : list N := runes_from 0 s.

Definition of_runes (l : list N) : string := foldr (fun c s => encode_rune c +:+ s) "" l.

(** [strings.Map] with a mapping that drops nothing. *)
Definition strings_Map (f : N → N) (s : string) : string := of_runes (map f (runes s)).

(** [unicode.IsControl] and [unicode.IsSpace], which are not tables. *)
Definition IsControl (r : N) : bool := (r <? 32) || ((127 <=? r) && (r <? 160)).
Definition IsSpace (r : N) : bool :=
  ((9 <=? r) && (r <=? 13)) || (r =? 32) || (r =? 133) || (r =? 160) || (r =? 5760)
  || ((8192 <=? r) && (r <=? 8202)) || (r =? 8232) || (r =? 8233) || (r =? 8239) || (r =? 8287) || (r =? 12288).

Class UnicodeTables := {
  IsLetter : N → bool;
  IsDigit : N → bool;
  Quote : string → string;
}.

(** The tables restricted to ASCII. *)
Definition ascii_tables : UnicodeTables := {|
  IsLetter := fun r => ((65 <=? r) && (r <=? 90)) || ((97 <=? r) && (r <=? 122));
  IsDigit := fun r => (48 <=? r) && (r <=? 57);
  Quote := fun s => String quote_char s +:+ String quote_char EmptyString;
|}.

(** ** Encoding and decoding *)

Definition valid_rune (c : N) : Prop := c < 55296 ∨ 57344 ≤ c < 1114112.

Lemma byte_value_byteN n : n < 256 → byte_value (byteN n) = n.
Proof. intros H. unfold byte_value. rewrite nat_of_byteN by done. lia. Qed.

Lemma runes_from_skip r s : runes_from (String.length r) (r +:+ s) = runes s.
Proof. induction r as [|a r IH]; [by destruct s|]. rewrite string_app_cons. cbn. exact IH. Qed.

Lemma runes_cons r s : is_rune r → runes (r +:+ s) = rune_value r :: runes s.
Proof.
  intros Hr. pose proof (rune_width_app r s Hr) as Hw. destruct r as [|a r]; [by destruct Hr|].
  rewrite string_app_cons in *. unfold runes. cbn [runes_from]. rewrite Hw. cbn [String.length pred].
  rewrite runes_from_skip. f_equal. unfold rune_value. rewrite Hw. destruct Hr as [_ ->].
  by destruct r as [|b [|c [|d [|e r]]]].
Qed.

Lemma encode_rune_value c : valid_rune c → rune_value (encode_rune c) = c.
Proof.
  intros Hc. pose proof (encode_rune_ok c) as [_ Hw]. unfold rune_value. rewrite Hw. clear Hw. unfold encode_rune.
  destruct (N.ltb_spec c 128); [by apply byte_value_byteN; lia|].
  replace (c / 4096) with (c / 64 / 64) by (by rewrite N.Div0.div_div).
  replace (c / 262144) with (c / 64 / 64 / 64) by (by rewrite !N.Div0.div_div).
  destruct (div_mod_64 c) as (q & m & -> & -> & E0 & Hm). destruct (div_mod_64 q) as (q1 & m1 & -> & -> & E1 & Hm1).
  destruct (div_mod_64 q1) as (q2 & m2 & -> & -> & E2 & Hm2).
  destruct (N.ltb_spec c 2048); [cbn [String.length]; rewrite !byte_value_byteN by lia; lia|].
  replace (((55296 <=? c) && (c <? 57344)) || (1114112 <=? c)) with false.
  2: { symmetry. rewrite orb_false_iff, andb_false_iff, !N.leb_gt, N.ltb_ge. unfold valid_rune in Hc. lia. }
  unfold valid_rune in Hc.
  destruct (N.ltb_spec c 65536); cbn [String.length]; rewrite !byte_value_byteN by lia; lia.
Qed.

Lemma cont_range b : cont b = true → (128 ≤ nat_of_ascii b ≤ 191)%nat.
Proof. apply between_spec. Qed.

(** What is decoded is a code point outside of the surrogates. *)
Lemma rune_value_valid s : valid_rune (rune_value s).
Proof.
  unfold rune_value, valid_rune, byte_value. destruct s as [|a s]; [right; done|]. unfold rune_width.
  cbn beta iota zeta. destruct (Nat.ltb_spec (nat_of_ascii a) 128); [left; lia|].
  destruct s as [|b s]; [right; done|]. destruct (between 194 223 _ && cont b) eqn:E2.
  { apply andb_true_iff in E2 as [Ha%between_spec Hb%cont_range]. lia. }
  destruct s as [|c s]; [right; done|]. destruct (cont c && (_ || _)) eqn:E3.
  { apply andb_true_iff in E3 as [Hc%cont_range H3].
    rewrite !orb_true_iff, !andb_true_iff, !Nat.eqb_eq, orb_true_iff, !between_spec in H3.
    destruct H3 as [[[Ha Hb]|[Ha Hb]]|[Ha Hb%cont_range]]; lia. }
  destruct s as [|d s]; [right; done|]. destruct (cont c && cont d && _) eqn:E4; [|right; done].
  apply andb_true_iff in E4 as [[Hc%cont_range Hd%cont_range]%andb_true_iff H4].
  rewrite !orb_true_iff, !andb_true_iff, !Nat.eqb_eq, !between_spec in H4.
  destruct H4 as [[[Ha Hb]|[Ha Hb]]|[Ha Hb%cont_range]]; lia.
Qed.

Lemma runes_from_valid skip s : Forall valid_rune (runes_from skip s).
Proof.
  revert skip. induction s as [|a s IH]; intros skip; [constructor|]. cbn [runes_from].
  destruct skip; [|apply IH]. constructor; [apply rune_value_valid|apply IH].
Qed.

Lemma runes_of_runes l : Forall valid_rune l → runes (of_runes l) = l.
Proof.
  induction 1 as [|c l Hc Hl IH]; [done|]. cbn [of_runes foldr]. fold (of_runes l).
  rewrite runes_cons by apply encode_rune_ok. by rewrite encode_rune_value, IH.
Qed.

Lemma runes_Map f s : (∀ c, valid_rune c → valid_rune (f c)) → runes (strings_Map f s) = map f (runes s).
Proof.
  intros Hf. apply runes_of_runes. pose proof (runes_from_valid 0 s) as H. fold (runes s) in H.
  induction H; cbn; constructor; auto.
Qed.
