(* ===== verification/Schema.v ===== *)
(** * Schema: contracts of structured output

    Models [src/internal/schema/schema.go]: the expansion of schema shorthand, the
    contract a schema must satisfy, the validation of a value against it, the
    comparison of JSON numbers, and the diagnostic of a rejected output.  Schemas
    and values are texts and the JSON values [JsonText.Decode] reads from them; a
    Go map is the list of its entries in the order a loop over it visits them, and
    the theorems hold for every order. *)
From Stdlib Require Import Ascii.
From stdpp Require Import pretty.
From S2P Require Import Prelude Json JsonText Unicode.

Open Scope string_scope.
Open Scope list_scope.
Open Scope Z_scope.

(** ** Tables *)

Definition schemaKeywords : list string :=
  ["$schema"; "$defs"; "additionalProperties"; "allOf"; "anyOf"; "const";
   "default"; "definitions"; "description"; "enum"; "examples"; "exclusiveMaximum";
   "exclusiveMinimum"; "format"; "items"; "maxItems"; "maxLength"; "maximum";
   "minItems"; "minLength"; "minimum"; "multipleOf"; "not"; "oneOf"; "pattern";
   "prefixItems"; "properties"; "propertyOrdering"; "required"; "title"; "type"; "uniqueItems"].

Definition contractedKeywords : list string :=
  ["type"; "properties"; "required"; "additionalProperties"; "items"; "description"; "enum"].

Definition typeAliases : list (string * string) :=
  [("array", "array"); ("bool", "boolean"); ("boolean", "boolean"); ("double", "number"); ("float", "number");
   ("int", "integer"); ("integer", "integer"); ("list", "array"); ("null", "null"); ("number", "number");
   ("object", "object"); ("str", "string"); ("string", "string"); ("text", "string")].

(** ** Errors *)

(** The errors of the package.  [SJson] is an error of [encoding/json] with the
    text the code puts before it, [SPanic] a failed type assertion. *)
Inductive schema_error : Type :=
| SContract (Path Keyword Message : string)
| SJson (prefix : string)
| STrailing (prefix : string)
| SValue (message : string)
| SValueInvalid (err : schema_error)
| SPanic.

Definition contractError (path keyword message : string) : schema_error :=
  SContract (if String.eqb path "" then "/" else path) keyword message.

(** [strings.ReplaceAll] of one byte. *)
Fixpoint replace_byte (x : ascii) (by_ : string) (s : string) : string :=
  match s with
  | EmptyString => EmptyString
  | String a r => (if Ascii.eqb a x then by_ else String a EmptyString) +:+ replace_byte x by_ r
  end.

Definition joinPath (path segment : string) : string :=
  path +:+ "/" +:+ replace_byte "/" "~1" (replace_byte "~" "~0" segment).

(** [requireEOF] *)
Definition requireEOF (prefix : string) (rest : string) : res schema_error unit :=
  match Decode rest with
  | DecodedEOF => Ok tt
  | DecodeError => Err (SJson prefix)
  | DecodedValue _ _ => Err (STrailing prefix)
  end.

(** ** Shorthand *)

Definition normalizeType (value : string) : string :=
  match List.find (fun alias => String.eqb alias.1 (ToLower (TrimSpace value))) typeAliases with
  | Some (_, normalized) => normalized
  | None => value
  end.

Definition isSchemaObject (object : list (string * json)) : bool :=
  existsb (fun kv => negb (String.eqb kv.1 "type") && str_in kv.1 schemaKeywords) object
  || (existsb (fun kv => String.eqb kv.1 "type") object
      && forallb (fun kv => str_in kv.1 schemaKeywords) object).

Definition sortedKeys (input : list (string * json)) : list string := map fst (sort_entries input).

(** A member of the schema object that [normalizeObject] copies; [descriptor]
    is [normalizeDescriptor]. *)
Definition normalize_type_member (value : json) : json :=
  match value with
  | JStr s => JStr (normalizeType s)
  | JArr values => JArr (map (fun x => match x with JStr text => JStr (normalizeType text) | _ => x end) values)
  | _ => value
  end.
Definition normalize_member (descriptor : json → json) (kv : string * json) : string * json :=
  (kv.1,
   if String.eqb kv.1 "type" then normalize_type_member kv.2
   else if String.eqb kv.1 "properties" then
     match kv.2 with
     | JObj properties => JObj (map (fun p => (p.1, descriptor p.2)) properties)
     | _ => kv.2
     end
   else if String.eqb kv.1 "items" then
     match kv.2 with
     | JArr l => JArr (map descriptor l)
     | _ => descriptor kv.2
     end
   else kv.2).

(** The object schema that an object that is not a schema stands for. *)
Definition shorthand_object (properties : list (string * json)) (keys : list string) : list (string * json) :=
  [("type", JStr "object"); ("properties", JObj properties); ("required", JArr (map JStr keys));
   ("additionalProperties", JBool false)].

Definition normalizeObject_with (descriptor : json → json) (object : list (string * json)) : list (string * json) :=
  if isSchemaObject object then map (normalize_member descriptor) object
  else shorthand_object (map (fun kv => (kv.1, descriptor kv.2)) object) (sortedKeys object).

Fixpoint normalizeDescriptor (value : json) : json :=
  match value with
  | JStr typed => JObj [("type", JStr (normalizeType typed))]
  | JArr [] => JObj [("type", JStr "array"); ("items", JObj [("type", JStr (normalizeType "string"))])]
  | JArr (item :: _) => JObj [("type", JStr "array"); ("items", normalizeDescriptor item)]
  | JObj typed => JObj (normalizeObject_with normalizeDescriptor typed)
  | _ => JObj [("type", JStr "string")]
  end.

Definition normalizeObject : list (string * json) → list (string * json) := normalizeObject_with normalizeDescriptor.

(** ** The contract of a schema *)

Definition contractTypes : list string := ["object"; "array"; "string"; "number"; "integer"; "boolean"].

Definition type_union_error (path : string) : schema_error :=
  contractError (joinPath path "type") "type" "type union must contain one supported type and null".

Definition supported_type (name : string) (nullable : bool) (path : string) : res schema_error (string * bool) :=
  if str_in name contractTypes then Ok (name, nullable)
  else Err (contractError (joinPath path "type") "type" (name +:+ " is not a contracted schema type")).

Definition contractType (raw : option json) (path : string) : res schema_error (string * bool) :=
  match raw with
  | Some (JStr value) => supported_type value false path
  | Some (JArr [JStr first; JStr second]) =>
      if String.eqb first second || (negb (String.eqb first "null") && negb (String.eqb second "null"))
      then Err (type_union_error path)
      else supported_type (if String.eqb first "null" then second else first) true path
  | Some (JArr _) => Err (type_union_error path)
  | _ => Err (contractError (joinPath path "type") "type" "type must be a supported type or its nullable union")
  end.

(** A [for] loop that returns the first error of its body. *)
Fixpoint for_each {A : Type} (body : A → res schema_error unit) (l : list A) : res schema_error unit :=
  match l with
  | [] => Ok tt
  | x :: r => let? _ := body x in for_each body r
  end.

(** [object[key]] used by [f], [absent] when there is no such member. *)
Fixpoint with_field {A : Type} (key : string) (f : json → A) (absent : A) (entries : list (string * json)) : A :=
  match entries with
  | [] => absent
  | kv :: r => if String.eqb kv.1 key then f kv.2 else with_field key f absent r
  end.

Section Contract.
Context `{UnicodeTables}.

Definition check_keyword (path : string) (kv : string * json) : res schema_error unit :=
  fail_if (negb (str_in kv.1 contractedKeywords))
    (contractError (joinPath path kv.1) kv.1 (kv.1 +:+ " is not part of the contracted schema subset")).

Definition check_description (path : string) (node : list (string * json)) : res schema_error unit :=
  match field "description" node with
  | None | Some (JStr _) => Ok tt
  | Some _ => Err (contractError (joinPath path "description") "description" "description must be a string")
  end.

Definition scalar (j : json) : bool := match j with JArr _ | JObj _ => false | _ => true end.

Definition check_enum (path : string) (node : list (string * json)) : res schema_error unit :=
  match field "enum" node with
  | None => Ok tt
  | Some (JArr (value :: values)) =>
      fail_if (negb (forallb scalar (value :: values)))
        (contractError (joinPath path "enum") "enum" "enum must contain only scalar values")
  | Some _ => Err (contractError (joinPath path "enum") "enum" "enum must contain scalar values")
  end.

(** The loop over [required], which collects the names seen. *)
Fixpoint check_required (path : string) (properties : list (string * json)) (required : list string)
    (values : list json) : res schema_error (list string) :=
  match values with
  | [] => Ok required
  | JStr name :: rest =>
      let? _ := fail_if (str_in name required)
        (contractError (joinPath path "required") "required" ("required property " +:+ Quote name +:+ " is duplicated")) in
      let? _ := fail_if (bool_decide (field name properties = None))
        (contractError (joinPath path "required") "required" ("required property " +:+ Quote name +:+ " is not defined")) in
      check_required path properties (name :: required) rest
  | _ :: _ => Err (contractError (joinPath path "required") "required" "required entries must be strings")
  end.

(** The members of an object schema other than its properties' schemas: the
    names it requires. *)
Definition check_object (path : string) (node properties : list (string * json)) : res schema_error (list string) :=
  let? _ := match field "additionalProperties" node with
            | Some (JBool false) => Ok tt
            | _ => Err (contractError (joinPath path "additionalProperties") "additionalProperties"
                     "object schemas must set additionalProperties: false")
            end in
  match field "required" node with
  | Some (JArr requiredValues) => check_required path properties [] requiredValues
  | _ => Err (contractError (joinPath path "required") "required" "object schemas must list all required properties")
  end.

Fixpoint validateNode (node : json) (path : string) (root : bool) : res schema_error unit :=
  match node with
  | JObj entries =>
      let? _ := for_each (check_keyword path) entries in
      let? typed := contractType (field "type" entries) path in
      let? _ := fail_if (root && (negb (String.eqb typed.1 "object") || typed.2))
        (contractError (joinPath path "type") "type" "root schema must be an object") in
      let? _ := check_description path entries in
      let? _ := check_enum path entries in
      let? _ :=
        (if String.eqb typed.1 "object" then
           with_field "properties" (fun value =>
             match value with
             | JObj properties =>
                 let? required := check_object path entries properties in
                 for_each (fun kv =>
                   let? _ := fail_if (negb (str_in kv.1 required))
                     (contractError (joinPath (joinPath path "properties") kv.1) "required"
                        ("property " +:+ Quote kv.1 +:+ " must be listed in required")) in
                   match kv.2 with
                   | JObj _ => validateNode kv.2 (joinPath (joinPath path "properties") kv.1) false
                   | _ => Err (contractError (joinPath (joinPath path "properties") kv.1) "schema"
                            "schema node must be an object")
                   end) properties
             | _ => Err (contractError (joinPath path "properties") "properties" "object schemas must define properties")
             end)
             (Err (contractError (joinPath path "properties") "properties" "object schemas must define properties"))
             entries
         else Ok tt) in
      if String.eqb typed.1 "array" then
        with_field "items" (fun items =>
          match items with
          | JObj _ => validateNode items (joinPath path "items") false
          | _ => Err (contractError (joinPath path "items") "items" "array schemas must define one object-form items schema")
          end)
          (Err (contractError (joinPath path "items") "items" "array schemas must define one object-form items schema"))
          entries
      else Ok tt
  | _ => Err SPanic
  end.

Definition ValidateContract (raw : string) : res schema_error unit :=
  match Decode raw with
  | DecodedValue value rest =>
      match requireEOF "" rest with
      | Err _ => Err (contractError "/" "schema" "schema must contain one JSON value")
      | Ok _ =>
          match value with
          | JObj _ => validateNode value "" true
          | _ => Err (contractError "/" "schema" "schema node must be an object")
          end
      end
  | _ => Err (contractError "/" "schema" "schema must be valid JSON")
  end.

Definition Normalize (raw : string) : res schema_error string :=
  match Decode raw with
  | DecodedValue value rest =>
      let? _ := requireEOF "" rest in
      match value with
      | JObj object =>
          let encoded := Marshal (JObj (normalizeObject object)) in
          let? _ := ValidateContract encoded in
          Ok encoded
      | _ => Err (contractError "/" "schema" "root schema must be an object")
      end
  | _ => Err (SJson "decode structured output schema: ")
  end.
End Contract.

(** ** Values *)

(** [strings.Cut] at a byte: what is before it and, when present, after it. *)
Fixpoint Cut (x : ascii) (s : string) : string * option string :=
  match s with
  | EmptyString => (EmptyString, None)
  | String a r =>
      if Ascii.eqb a x then (EmptyString, Some r)
      else let '(before, after) := Cut x r in (String a before, after)
  end.

(** [strings.TrimLeft] and [strings.TrimRight] of zeros. *)
Fixpoint TrimLeftZeros (s : string) : string :=
  match s with
  | String a r => if Ascii.eqb a "0" then TrimLeftZeros r else s
  | EmptyString => EmptyString
  end.
Definition TrimRightZeros (s : string) : string := go_string_rev (TrimLeftZeros (go_string_rev s)).

Record decimalValue : Type := MkDecimal { dec_digits : string; dec_exponent : Z }.

(** [json.Marshal] of a [json.Number], which must be a number or empty. *)
Definition marshal_number (n : string) : option string :=
  if String.eqb n "" then Some "0"
  else match scan_number n with Some (_, EmptyString) => Some n | _ => None end.

Definition decimal_of (text : string) : option decimalValue :=
  let negative := match text with String a _ => Ascii.eqb a "-" | EmptyString => false end in
  let unsigned := match text with String a r => if Ascii.eqb a "-" then r else text | EmptyString => text end in
  let '(mantissa, power) := Cut "e" unsigned in
  let '(whole, after) := Cut "." mantissa in
  let fraction := default "" after in
  let digits := TrimLeftZeros (whole +:+ fraction) in
  if String.eqb digits "" then Some (MkDecimal "0" 0)
  else
    exponent ← (match power with Some p => SetString p | None => Some 0 end);
    let trimmed := TrimRightZeros digits in
    Some (MkDecimal (if negative then "-" +:+ trimmed else trimmed)
            (exponent + (slen digits - slen trimmed - slen fraction))).

Definition numericValue (value : json) : option decimalValue :=
  match value with
  | JNum n => text ← marshal_number n; decimal_of (ToLower text)
  | _ => None
  end.

Definition isNumber (value : json) (integer : bool) : bool :=
  match numericValue value with
  | Some number => negb integer || (0 <=? dec_exponent number)
  | None => false
  end.

Definition same_decimal (a b : decimalValue) : bool :=
  String.eqb (dec_digits a) (dec_digits b) && (dec_exponent a =? dec_exponent b).

(** The loop over two arrays of the same length. *)
Fixpoint zip_all {A B : Type} (f : A → B → bool) (l : list A) (r : list B) : bool :=
  match l, r with
  | [], [] => true
  | x :: l', y :: r' => f x y && zip_all f l' r'
  | _, _ => false
  end.

Fixpoint equalJSONValue (left right : json) : bool :=
  match numericValue left with
  | Some number => match numericValue right with Some other => same_decimal number other | None => false end
  | None =>
      match left, right with
      | JObj l, JObj r =>
          (length l =? length r)%nat
          && forallb (fun kv => match field kv.1 r with Some other => equalJSONValue kv.2 other | None => false end) l
      | JArr l, JArr r => zip_all equalJSONValue l r
      | JNull, JNull => true
      | JBool a, JBool b => Bool.eqb a b
      | JStr a, JStr b => String.eqb a b
      | JNum a, JNum b => String.eqb a b
      | _, _ => false
      end
  end.

Fixpoint for_index {A : Type} (body : nat → A → res schema_error unit) (index : nat) (l : list A) : res schema_error unit :=
  match l with
  | [] => Ok tt
  | x :: r => let? _ := body index x in for_index body (S index) r
  end.

Definition check_value_enum (node : list (string * json)) (value : json) (path : string) : res schema_error unit :=
  match field "enum" node with
  | Some (JArr enum) =>
      fail_if (negb (existsb (fun candidate => equalJSONValue candidate value) enum))
        (SValue (path +:+ " is not an allowed enum value"))
  | _ => Ok tt
  end.

Definition must_be (ok : bool) (path what : string) : res schema_error unit :=
  fail_if (negb ok) (SValue (path +:+ " must be " +:+ what)).

Definition is_string (j : json) : bool := match j with JStr _ => true | _ => false end.
Definition is_boolean (j : json) : bool := match j with JBool _ => true | _ => false end.
Definition is_null (j : json) : bool := match j with JNull => true | _ => false end.

Fixpoint validateValueNode (node value : json) (path : string) : res schema_error unit :=
  match node with
  | JObj entries =>
      let? typed := contractType (field "type" entries) path in
      let? _ := check_value_enum entries value path in
      if typed.2 && is_null value then Ok tt
      else if String.eqb typed.1 "object" then
        match value with
        | JObj object =>
            with_field "properties" (fun value =>
              match value with
              | JObj properties =>
                  let? _ := for_each (fun kv : string * json =>
                    fail_if (bool_decide (field kv.1 properties = None)) (SValue (path +:+ "." +:+ kv.1 +:+ " is not allowed")))
                    object in
                  for_each (fun kv =>
                    match field kv.1 object with
                    | None => Err (SValue (path +:+ "." +:+ kv.1 +:+ " is required"))
                    | Some childValue =>
                        match kv.2 with
                        | JObj _ => validateValueNode kv.2 childValue (path +:+ "." +:+ kv.1)
                        | _ => Err SPanic
                        end
                    end) properties
              | _ => Err SPanic
              end) (Err SPanic) entries
        | _ => must_be false path "an object"
        end
      else if String.eqb typed.1 "array" then
        match value with
        | JArr items =>
            with_field "items" (fun itemSchema =>
              match itemSchema with
              | JObj _ =>
                  for_index (fun index item => validateValueNode itemSchema item (path +:+ "[" +:+ pretty index +:+ "]")) 0 items
              | _ => Err SPanic
              end) (Err SPanic) entries
        | _ => must_be false path "an array"
        end
      else if String.eqb typed.1 "string" then must_be (is_string value) path "a string"
      else if String.eqb typed.1 "boolean" then must_be (is_boolean value) path "a boolean"
      else if String.eqb typed.1 "number" then must_be (isNumber value false) path "a number"
      else if String.eqb typed.1 "integer" then must_be (isNumber value true) path "an integer"
      else Ok tt
  | _ => Err SPanic
  end.

(** The value of a contract's text; a null decodes to a nil map. *)
Definition ValidateValue (contract : string) (value : json) : res schema_error unit :=
  let node := match Decode contract with
              | DecodedValue (JObj entries) _ => Some entries
              | DecodedValue JNull _ => Some []
              | _ => None
              end in
  match node with
  | None => Err (SJson "")
  | Some entries =>
      match validateValueNode (JObj entries) value "$" with
      | Ok _ => Ok tt
      | Err SPanic => Err SPanic
      | Err err => Err (SValueInvalid err)
      end
  end.

(** ** Diagnostics *)

Record Diagnostic : Type := MkDiagnostic {
  dg_Category : string; dg_Stage : string; dg_Message : string; dg_RawLength : Z; dg_RawTail : string }.

(** [utf16Length] *)
Definition rune_units (r : N) : Z := if (65535 <? r)%N then 2 else 1.
Definition units (l : list N) : Z := foldr (fun r n => rune_units r + n) 0 l.
Definition utf16Length (value : string) : Z := units (runes value).

Section Diagnose.
Context `{UnicodeTables}.

(** The rune [safeTail] writes for a rune of the raw output. *)
Definition redact_rune (r : N) : N :=
  if IsLetter r || IsDigit r then 42
  else if IsControl r && negb (IsSpace r) then 32
  else r.

(** The loop of [safeTail] from the end: the runes [before] the start, last
    first, and the ones kept. *)
Fixpoint tail_within (limit units : Z) (before kept : list N) : list N :=
  match before with
  | [] => kept
  | r :: before' =>
      let width := rune_units r in
      if limit <? units + width then kept
      else tail_within limit (units + width) before' (r :: kept)
  end.

Definition safeTail (raw : string) (limit : Z) : string :=
  if limit <=? 0 then ""
  else of_runes (tail_within limit 0 (rev (runes (strings_Map redact_rune raw))) []).

Definition newDiagnostic (stage raw errText : string) : Diagnostic :=
  let message := strings_Map (fun r => if IsControl r then 32%N else r) errText in
  {| dg_Category := "parse_error"; dg_Stage := stage;
     dg_Message := if 256 <? slen message then String.substring 0 256 message else message;
     dg_RawLength := utf16Length raw; dg_RawTail := safeTail raw 128 |}.

(** The text of the package's errors; [json_error] is the text of an error of
    [encoding/json]. *)
Variable json_error : string.

Fixpoint schema_error_text (err : schema_error) : string :=
  match err with
  | SContract path _ message => "unsupported structured output schema at " +:+ path +:+ ": " +:+ message
  | SJson prefix => prefix +:+ json_error
  | STrailing prefix => prefix +:+ "unexpected trailing JSON value"
  | SValue message => message
  | SValueInvalid err => "structured output value is invalid: " +:+ schema_error_text err
  | SPanic => ""
  end.

(** [decodeOneJSON], with the text its caller puts before its errors. *)
Definition decodeOneJSON (prefix raw : string) : res schema_error json :=
  match Decode raw with
  | DecodedValue value rest => let? _ := requireEOF prefix rest in Ok value
  | _ => Err (SJson prefix)
  end.

(** A result with its diagnostic, nil for errors of the contract. *)
Definition with_diagnostic (A : Type) : Type := res (schema_error * option Diagnostic) A.

Definition ParseProviderOutput (raw : string) : with_diagnostic json :=
  match decodeOneJSON "" raw with
  | Ok value => Ok value
  | Err err =>
      let wrapped := match err with
                     | SJson _ => SJson "structured output parse: "
                     | _ => STrailing "structured output parse: "
                     end in
      Err (wrapped, Some (newDiagnostic "json_parse" raw (schema_error_text err)))
  end.

Definition ParseAndValidate (raw contract : string) : with_diagnostic json :=
  match ValidateContract contract with
  | Err err => Err (err, None)
  | Ok _ =>
      let? value := ParseProviderOutput raw in
      match ValidateValue contract value with
      | Ok _ => Ok value
      | Err err => Err (err, Some (newDiagnostic "schema_validation" raw (schema_error_text err)))
      end
  end.
End Diagnose.

(** ** Examples *)

(** The shorthand of an object with a string, a list of integers and an object. *)
Definition shorthand_example : string :=
  Marshal (JObj [("tags", JArr [JStr " INT "]); ("name", JStr "text"); ("at", JObj [("x", JStr "double")])]).

Example normalize_shorthand :
  Normalize (H := ascii_tables) shorthand_example
  = Ok (Marshal (JObj (shorthand_object
      [("at", JObj (shorthand_object [("x", JObj [("type", JStr "number")])] ["x"]));
       ("name", JObj [("type", JStr "string")]);
       ("tags", JObj [("type", JStr "array"); ("items", JObj [("type", JStr "integer")])])] ["at"; "name"; "tags"]))).
Proof. vm_compute. reflexivity. Qed.

Example equal_numbers : equalJSONValue (JNum "-1.50E+2") (JNum "-150") = true.
Proof. vm_compute. reflexivity. Qed.

Example redacted_tail : safeTail (H := ascii_tables) "{ab: 12}" 6 = "*: **}".
Proof. vm_compute. reflexivity. Qed.
