(* ===== verification/SchemaContract.v ===== *)
(** * SchemaContract: what a contracted schema is

    [Contract] says which schemas the package supports, without the order of the
    checks and their messages; [validateNode] decides it.  Normalising a schema is
    a projection onto normal forms, and the text that [Normalize] returns is a
    contract that it maps to itself. *)
From Stdlib Require Import Ascii.
From S2P Require Import Prelude Json JsonText Unicode Schema.

Open Scope string_scope.
Open Scope list_scope.
Open Scope Z_scope.

(** ** The contract *)

(** The type of a node: a supported type, or its union with null. *)
Definition TypeOf (node : list (string * json)) (name : string) (nullable : bool) : Prop :=
  name ∈ contractTypes
  ∧ if nullable
    then field "type" node = Some (JArr [JStr name; JStr "null"]) ∨ field "type" node = Some (JArr [JStr "null"; JStr name])
    else field "type" node = Some (JStr name).

Inductive Contract : list (string * json) → Prop :=
| contract_node node name nullable :
    (∀ key value, (key, value) ∈ node → key ∈ contractedKeywords) →
    TypeOf node name nullable →
    (∀ d, field "description" node = Some d → ∃ s, d = JStr s) →
    (∀ e, field "enum" node = Some e → ∃ v l, e = JArr (v :: l) ∧ Forall (fun x => scalar x = true) (v :: l)) →
    (name = "object" → ∃ properties required,
      field "properties" node = Some (JObj properties)
      ∧ field "additionalProperties" node = Some (JBool false)
      ∧ field "required" node = Some (JArr (map JStr required))
      ∧ NoDup required ∧ (∀ key, key ∈ required ↔ key ∈ map fst properties)
      ∧ ∀ key value, (key, value) ∈ properties → ∃ child, value = JObj child ∧ Contract child) →
    (name = "array" → ∃ items, field "items" node = Some (JObj items) ∧ Contract items) →
    Contract node.

(** ** Loops and members *)

Lemma for_each_ok {A : Type} (body : A → res schema_error unit) l :
  for_each body l = Ok tt ↔ ∀ x, x ∈ l → body x = Ok tt.
Proof.
  induction l as [|x l IH]; cbn [for_each]; [split; [by intros _ x ?%elem_of_nil|done]|].
  rewrite check_then_ok, IH. setoid_rewrite elem_of_cons. naive_solver.
Qed.

Lemma with_field_spec {A : Type} key (f : json → A) absent entries :
  with_field key f absent entries = match field key entries with Some v => f v | None => absent end.
Proof.
  induction entries as [|[k v] l IH]; [done|]. unfold field in *. cbn [with_field List.find fst snd].
  by destruct (String.eqb k key).
Qed.

Lemma supported_type_ok name nullable path r :
  supported_type name nullable path = Ok r ↔ name ∈ contractTypes ∧ r = (name, nullable).
Proof.
  unfold supported_type. rewrite <- str_in_spec. destruct (str_in name contractTypes); naive_solver.
Qed.

Lemma contractType_ok node path name nullable :
  contractType (field "type" node) path = Ok (name, nullable) ↔ TypeOf node name nullable.
Proof.
  unfold TypeOf. destruct (field "type" node) as [j|]; [|split; [done|]; destruct nullable; naive_solver].
  assert ("null" ∉ contractTypes) as Hnull by (by rewrite <- str_in_spec).
  destruct j as [| | |s|l|]; cbn [contractType]; try (split; [done|]; destruct nullable; naive_solver).
  - rewrite supported_type_ok. destruct nullable; naive_solver.
  - destruct l as [|[| | |a| |] [|[| | |b| |] [|]]]; try (split; [done|]; destruct nullable; naive_solver).
    destruct (String.eqb_spec a b) as [->|N]; cbn [orb].
    { split; [done|]. intros [Hin H]. destruct nullable; [|done]. by destruct H as [H|H]; simplify_eq. }
    destruct (String.eqb_spec a "null") as [->|Na]; cbn [negb andb].
    + rewrite supported_type_ok. destruct nullable; [|naive_solver]. split.
      * intros [H ?]; simplify_eq. split; [done|]. by right.
      * by intros [Hin [H|H]]; simplify_eq.
    + destruct (String.eqb_spec b "null") as [->|Nb]; cbn [negb].
      * rewrite supported_type_ok. destruct nullable; [|naive_solver]. split.
        -- intros [H ?]; simplify_eq. split; [done|]. by left.
        -- by intros [Hin [H|H]]; simplify_eq.
      * split; [done|]. intros [Hin H]. destruct nullable; [|done]. by destruct H as [H|H]; simplify_eq.
Qed.

Section Contracts.
Context `{UnicodeTables}.

Lemma check_required_ok path properties seen values r :
  check_required path properties seen values = Ok r ↔
  ∃ names, values = map JStr names ∧ r = rev names ++ seen ∧ NoDup names ∧ (∀ k, k ∈ names → k ∉ seen)
    ∧ ∀ k, k ∈ names → k ∈ map fst properties.
Proof.
  revert seen. induction values as [|v values IH]; intros seen; cbn [check_required].
  { split.
    - intros [= <-]. exists []. split_and!; try done; [constructor|..]; by intros k ?%elem_of_nil.
    - intros ([|n names] & E & -> & _); [done|discriminate E]. }
  destruct v as [| | |name| |]; try (split; [done|]; intros ([|n names] & [= ] & _)).
  rewrite !fail_if_then_ok, IH, <- not_true_iff_false, str_in_spec, bool_decide_eq_false, field_none. split.
  - intros (Hs & Hp & names & -> & -> & Hd & Hn & Hm). exists (name :: names). cbn [map rev].
    split_and!; try done.
    + by rewrite <- app_assoc.
    + constructor; [|done]. intros Hin. apply (Hn _ Hin). left.
    + intros k [->|Hin]%elem_of_cons; [done|]. intros Hk. apply (Hn _ Hin). by right.
    + intros k [->|Hin]%elem_of_cons; [by apply dec_stable|auto].
  - intros ([|n names] & [= -> ->] & -> & [Hn Hd]%NoDup_cons & Hs & Hp).
    split; [apply Hs; left|]. split; [intros Hk; apply Hk, Hp; left|]. exists names. cbn [rev]. split_and!; try done.
    + by rewrite <- app_assoc.
    + intros k Hk [->|Hin]%elem_of_cons; [done|]. apply (Hs k); [by right|done].
    + intros k Hk. apply Hp. by right.
Qed.

Lemma check_keywords_ok path node :
  for_each (check_keyword path) node = Ok tt ↔ ∀ key value, (key, value) ∈ node → key ∈ contractedKeywords.
Proof.
  rewrite for_each_ok. split.
  - intros Hk key value Hin. specialize (Hk _ Hin). apply fail_if_ok, negb_false_iff in Hk. by apply str_in_spec.
  - intros Hk [key value] Hin. apply fail_if_ok, negb_false_iff, str_in_spec. by apply (Hk key value).
Qed.

Lemma check_description_ok path node :
  check_description path node = Ok tt ↔ ∀ d, field "description" node = Some d → ∃ s, d = JStr s.
Proof. unfold check_description. destruct (field _ node) as [[| | | | |]|]; naive_solver. Qed.

Lemma check_enum_ok path node :
  check_enum path node = Ok tt ↔
  ∀ e, field "enum" node = Some e → ∃ v l, e = JArr (v :: l) ∧ Forall (fun x => scalar x = true) (v :: l).
Proof.
  unfold check_enum. destruct (field _ node) as [[| | | |[|v l]|]|]; try naive_solver.
  rewrite fail_if_ok, negb_false_iff, forallb_elem. naive_solver.
Qed.

Lemma check_object_ok path node properties required :
  check_object path node properties = Ok required ↔
  field "additionalProperties" node = Some (JBool false)
  ∧ ∃ names, field "required" node = Some (JArr (map JStr names)) ∧ required = rev names ∧ NoDup names
    ∧ ∀ key, key ∈ names → key ∈ map fst properties.
Proof.
  unfold check_object. rewrite check_then_ok.
  assert (∀ A B C D : Prop, (A ↔ C) → (B ↔ D) → A ∧ B ↔ C ∧ D) as Hand by tauto. apply Hand; clear Hand.
  - destruct (field _ node) as [[|[]| | | |]|]; naive_solver.
  - destruct (field "required" node) as [[| | | |l|]|]; try naive_solver.
    rewrite check_required_ok. split.
    + intros (names & -> & -> & Hd & _ & Hp). exists names. by rewrite app_nil_r.
    + intros (names & [= ->] & -> & Hd & Hp). exists names. split_and!; try done; [by rewrite app_nil_r|].
      by intros k _ ?%elem_of_nil.
Qed.

(** The induction hypothesis of [validateNode_ok], for a value below a node. *)
Definition child_checked (size : nat) : Prop :=
  ∀ v path e, (json_size v < size)%nat →
  (match v with JObj _ => validateNode v path false | _ => Err e end) = Ok tt ↔ ∃ child, v = JObj child ∧ Contract child.

Lemma object_part_ok path node properties :
  child_checked (json_size (JObj properties)) →
  (let? required := check_object path node properties in
   for_each (fun kv : string * json =>
     let? _ := fail_if (negb (str_in kv.1 required))
       (contractError (joinPath (joinPath path "properties") kv.1) "required"
          ("property " +:+ Quote kv.1 +:+ " must be listed in required")) in
     match kv.2 with
     | JObj _ => validateNode kv.2 (joinPath (joinPath path "properties") kv.1) false
     | _ => Err (contractError (joinPath (joinPath path "properties") kv.1) "schema" "schema node must be an object")
     end) properties) = Ok tt ↔
  field "additionalProperties" node = Some (JBool false)
  ∧ ∃ required, field "required" node = Some (JArr (map JStr required))
    ∧ NoDup required ∧ (∀ key, key ∈ required ↔ key ∈ map fst properties)
    ∧ ∀ key value, (key, value) ∈ properties → ∃ child, value = JObj child ∧ Contract child.
Proof.
  intros IH. rewrite res_bind_ok. setoid_rewrite check_object_ok. setoid_rewrite for_each_ok. split.
  - intros (r & (Ha & names & Hr & -> & Hd & Hp) & Hc). split; [done|]. exists names. split_and!; try done.
    + intros key. split; [apply Hp|]. intros (kv & -> & Hin)%list_elem_of_fmap. specialize (Hc _ Hin).
      rewrite fail_if_then_ok, negb_false_iff, str_in_spec in Hc. destruct Hc as [Hc _].
      by rewrite list_elem_of_In, <- in_rev, <- list_elem_of_In in Hc.
    + intros key value Hin. specialize (Hc _ Hin). rewrite fail_if_then_ok in Hc. destruct Hc as [_ Hc]. cbn in Hc.
      apply IH in Hc; [done|]. by apply (size_object (key, value)).
  - intros (Ha & names & Hr & Hd & Hp & Hc). exists (rev names). split.
    + split; [done|]. exists names. split_and!; try done. intros key. apply Hp.
    + intros [key value] Hin. rewrite fail_if_then_ok, negb_false_iff, str_in_spec. split.
      * rewrite list_elem_of_In, <- in_rev, <- list_elem_of_In. apply Hp. apply list_elem_of_fmap. by exists (key, value).
      * cbn. apply IH; [by apply (size_object (key, value))|by apply (Hc key)].
Qed.

(** [validateNode] decides the contract. *)
Lemma validateNode_ok j : ∀ node path root, j = JObj node →
  validateNode (JObj node) path root = Ok tt ↔ Contract node ∧ (root = true → TypeOf node "object" false).
Proof.
  induction j as [j IH] using json_size_ind. intros node path root ->.
  assert (∀ n, (n ≤ json_size (JObj node))%nat → child_checked n) as Hchild.
  { intros n Hn v p e Hv. destruct v as [| | | | |l]; try (split; [done|by intros (? & ? & _)]).
    rewrite (IH (JObj l) ltac:(lia) l p false eq_refl). naive_solver. }
  cbn [validateNode]. rewrite !with_field_spec, check_then_ok, res_bind_ok, check_keywords_ok.
  split.
  - intros (Hk & [name nullable] & Ht%contractType_ok & Hc). cbn [fst snd] in Hc.
    rewrite fail_if_then_ok, !check_then_ok, check_description_ok, check_enum_ok in Hc.
    destruct Hc as (Hroot & Hd & He & Hobj & Harr). split.
    + apply (contract_node node name nullable); try done; intros ->.
      * change (String.eqb "object" "object") with true in Hobj. cbn iota in Hobj.
        destruct (field "properties" node) as [[| | | | |properties]|] eqn:Ep; try done.
        apply object_part_ok in Hobj; [|apply Hchild; apply Nat.lt_le_incl; by eapply size_field].
        destruct Hobj as (Ha & required & Hr). by exists properties, required.
      * change (String.eqb "array" "array") with true in Harr. cbn iota in Harr.
        destruct (field "items" node) as [items|] eqn:Ei; [|done].
        apply (Hchild (json_size (JObj node))) in Harr as (child & -> & Hc); [by exists child|lia|by eapply size_field].
    + intros ->. cbn [andb] in Hroot. by apply orb_false_iff in Hroot as [->%negb_false_iff%String.eqb_eq ->].
  - intros [Hc Hroot]. destruct Hc as [node name nullable Hk Ht Hd He Hobj Harr]. split; [done|].
    exists (name, nullable). rewrite contractType_ok. split; [done|]. cbn [fst snd].
    rewrite fail_if_then_ok, !check_then_ok, check_description_ok, check_enum_ok. split_and!; try done.
    + destruct root; [|done]. specialize (Hroot eq_refl). apply (contractType_ok node path) in Ht, Hroot.
      rewrite Hroot in Ht. by injection Ht as <- <-.
    + destruct (String.eqb_spec name "object") as [->|]; [|done].
      destruct (Hobj eq_refl) as (properties & required & Hp & Ha & Hr). rewrite Hp.
      apply object_part_ok; [apply Hchild; apply Nat.lt_le_incl; by eapply size_field|]. split; [done|]. by exists required.
    + destruct (String.eqb_spec name "array") as [->|]; [|done].
      destruct (Harr eq_refl) as (items & Hi & Hc). rewrite Hi.
      apply (IH (JObj items) (size_field _ _ _ Hi)); [done|]. by split.
Qed.

Lemma decode_cases raw :
  match decode_one raw with
  | Some value => ∃ rest, Decode raw = DecodedValue value rest ∧ ∀ prefix, requireEOF prefix rest = Ok tt
  | None => ∀ value rest, Decode raw = DecodedValue value rest → ∀ prefix, ∃ e, requireEOF prefix rest = Err e
  end.
Proof.
  unfold decode_one, requireEOF. destruct (Decode raw) as [| |value rest]; [done..|].
  destruct (Decode rest) as [| |value' rest'] eqn:E.
  - exists rest. split; [done|]. intros prefix. by rewrite E.
  - intros v r [= <- <-] prefix. rewrite E. eauto.
  - intros v r [= <- <-] prefix. rewrite E. eauto.
Qed.

(** A text is a contract when it holds exactly one value, an object that is a
    contract and whose type is object. *)
Lemma ValidateContract_ok raw :
  ValidateContract raw = Ok tt ↔
  ∃ node, decode_one raw = Some (JObj node) ∧ Contract node ∧ TypeOf node "object" false.
Proof.
  unfold ValidateContract. pose proof (decode_cases raw) as H1. destruct (decode_one raw) as [value|].
  - destruct H1 as (rest & -> & H2). rewrite (H2 ""). destruct value as [| | | | |node]; try (split; [done|naive_solver]).
    rewrite (validateNode_ok (JObj node)) by done. naive_solver.
  - destruct (Decode raw) as [| |value rest]; [split; [done|naive_solver]..|].
    destruct (H1 _ _ eq_refl "") as [e ->]. split; [done|naive_solver].
Qed.
End Contracts.

(** ** Normal forms *)

(** A computation of the table of aliases: every name it gives is its own normal
    form. *)
Lemma normalizeType_idem value : normalizeType (normalizeType value) = normalizeType value.
Proof.
  unfold normalizeType at 2 3. destruct (List.find _ typeAliases) as [[a n]|] eqn:E.
  - apply find_some in E as [Hin _]. revert Hin. cbn.
    repeat (intros [[= <- <-]|Hin]; [reflexivity|revert Hin]). done.
  - unfold normalizeType. by rewrite E.
Qed.

Lemma isSchemaObject_keys l k :
  (∀ key, key ∈ map fst l ↔ key ∈ map fst k) → isSchemaObject l = isSchemaObject k.
Proof.
  intros Hk. unfold isSchemaObject.
  assert (∀ f (m : list (string * json)), existsb (fun kv => f kv.1) m = existsb f (map fst m)) as Hex.
  { intros f m. induction m as [|x m IH]; cbn; [done|]. by rewrite IH. }
  assert (∀ f (m : list (string * json)), forallb (fun kv => f kv.1) m = forallb f (map fst m)) as Hall.
  { intros f m. induction m as [|x m IH]; cbn; [done|]. by rewrite IH. }
  rewrite (Hex (fun key => negb (String.eqb key "type") && str_in key schemaKeywords) l), (Hex (fun key => String.eqb key "type") l),
    (Hall (fun key => str_in key schemaKeywords) l), (Hex (fun key => negb (String.eqb key "type") && str_in key schemaKeywords) k),
    (Hex (fun key => String.eqb key "type") k), (Hall (fun key => str_in key schemaKeywords) k).
  assert (∀ f, existsb f (map fst l) = existsb f (map fst k)) as He.
  { intros f. apply eq_true_iff_eq. rewrite !existsb_elem. by setoid_rewrite Hk. }
  assert (∀ f, forallb f (map fst l) = forallb f (map fst k)) as Ha.
  { intros f. apply eq_true_iff_eq. rewrite !forallb_elem, !Forall_elem. by setoid_rewrite Hk. }
  by rewrite !He, Ha.
Qed.

(** A value [normalizeDescriptor] maps to itself, and how it does. *)
Definition normal (j : json) : Prop := normalizeDescriptor j = j.

(** The member of an object that normalising keeps. *)
Definition normal_member (kv : string * json) : Prop := normalize_member normalizeDescriptor kv = kv.

Lemma map_fixed {A : Type} (f : A → A) l : map f l = l ↔ Forall (fun x => f x = x) l.
Proof.
  induction l as [|x l IH]; cbn; [by split|]. rewrite Forall_cons, <- IH. split; [by intros [= -> ->]|].
  by intros [-> ->].
Qed.

Lemma normal_object l : normal (JObj l) ↔ isSchemaObject l = true ∧ Forall normal_member l.
Proof.
  unfold normal. cbn [normalizeDescriptor]. unfold normalizeObject_with.
  destruct (isSchemaObject l) eqn:E.
  - unfold normal_member. rewrite <- map_fixed. split; [by intros [= Hl]|by intros [_ ->]].
  - split; [|by intros [? _]]. intros [= Hl]. by rewrite <- Hl in E.
Qed.

Lemma normalize_member_key f kv : (normalize_member f kv).1 = kv.1.
Proof. done. Qed.

Lemma normalize_keys f l : map fst (map (normalize_member f) l) = map fst l.
Proof. rewrite map_map. done. Qed.

Lemma normalize_type_member_idem v : normalize_type_member (normalize_type_member v) = normalize_type_member v.
Proof.
  destruct v as [| | |s|l|]; cbn; try done; [by rewrite normalizeType_idem|]. f_equal. rewrite map_map.
  apply map_ext. intros [| | |s| |]; try done. by rewrite normalizeType_idem.
Qed.

Lemma map_twice {A : Type} (f : A → A) l : (∀ x, x ∈ l → f (f x) = f x) → map f (map f l) = map f l.
Proof.
  intros H. rewrite map_map. apply map_ext_in. intros x Hx. apply H. by apply list_elem_of_In.
Qed.

(** A member normalised once is normal, when the values below it are. *)
Lemma normalize_member_idem kv :
  (∀ v, (json_size v ≤ json_size kv.2)%nat → normal (normalizeDescriptor v)) →
  normal_member (normalize_member normalizeDescriptor kv).
Proof.
  intros IH. destruct kv as [key v]. unfold normal_member, normalize_member. cbn [fst snd] in *. f_equal.
  destruct (String.eqb key "type"); [apply normalize_type_member_idem|].
  destruct (String.eqb key "properties").
  { destruct v as [| | | | |l]; try done. f_equal. rewrite map_map. apply map_ext_in. cbn [fst snd].
    intros p Hp%list_elem_of_In. f_equal. apply IH. apply Nat.lt_le_incl. by apply size_object. }
  destruct (String.eqb key "items"); [|done].
  destruct v as [| | | |l|l]; try (apply IH; lia).
  f_equal. apply map_twice. intros x Hx. apply IH. apply Nat.lt_le_incl. by apply size_array.
Qed.

(** An expanded descriptor is its own expansion, whatever shorthand it came from. *)
Lemma normalizeDescriptor_idem j : normal (normalizeDescriptor j).
Proof.
  induction j as [j IH] using json_size_ind. destruct j as [| | |s|l|l]; try done.
  - apply normal_object. split; [done|]. constructor; [|constructor]. unfold normal_member, normalize_member.
    cbn [fst snd]. change (String.eqb "type" "type") with true. cbn [normalize_type_member].
    by rewrite normalizeType_idem.
  - assert (∀ x, normal x → normal (JObj [("type", JStr "array"); ("items", x)])) as Harr.
    { intros x Hx. apply normal_object. split; [done|]. repeat constructor; try done.
      unfold normal_member, normalize_member. cbn [fst snd]. change (String.eqb "items" "type") with false.
      change (String.eqb "items" "properties") with false. change (String.eqb "items" "items") with true. cbn iota.
      destruct x as [| | | |[|]|]; try done. by rewrite Hx. }
    destruct l as [|x l]; [by apply (Harr (JObj [("type", JStr (normalizeType "string"))]))|].
    cbn [normalizeDescriptor]. apply Harr, IH. apply size_array. left.
  - cbn [normalizeDescriptor]. apply normal_object. unfold normalizeObject_with.
    destruct (isSchemaObject l) eqn:E.
    + split.
      * rewrite <- E. apply isSchemaObject_keys. intros key. by rewrite normalize_keys.
      * apply Forall_elem. intros kv (kv0 & -> & Hin)%list_elem_of_fmap. apply normalize_member_idem.
        intros v Hv. apply IH. pose proof (size_object _ _ Hin). lia.
    + split; [done|]. unfold shorthand_object. repeat constructor.
      unfold normal_member, normalize_member. cbn [fst snd]. change (String.eqb "properties" "type") with false.
      change (String.eqb "properties" "properties") with true. cbn iota. do 2 f_equal. rewrite map_map.
      apply map_ext_in. intros kv Hin%list_elem_of_In. cbn [fst snd]. f_equal. apply IH. by apply size_object.
Qed.

(** ** The text of a normalised schema *)

Lemma normal_is_object j : normal j → ∃ l, j = JObj l.
Proof. destruct j as [| | | |[|]|]; try done. eauto. Qed.

Lemma normal_member_sort kv :
  (∀ v, (json_size v ≤ json_size kv.2)%nat → normal v → normal (sort_json v)) →
  normal_member kv → normal_member (kv.1, sort_json kv.2).
Proof.
  intros IH. destruct kv as [key v]. unfold normal_member, normalize_member. cbn [fst snd] in *.
  intros [= Hv]. f_equal. revert Hv. destruct (String.eqb key "type").
  { destruct v as [| | | |l|]; try done. cbn. intros [= Hl]. f_equal. rewrite map_map. apply map_ext_in.
    rewrite map_fixed in Hl. rewrite Forall_elem in Hl. intros x Hx%list_elem_of_In%Hl.
    destruct x; try done. }
  destruct (String.eqb key "properties").
  { destruct v as [| | | | |l]; try done. cbn [sort_json]. intros [= Hl]. f_equal. apply map_fixed in Hl.
    apply map_fixed. rewrite (sort_entries_Permutation (map _ l)). apply Forall_elem.
    intros x (p & -> & Hp)%list_elem_of_fmap. cbn [fst snd]. rewrite Forall_elem in Hl.
    f_equal. apply IH; [apply Nat.lt_le_incl; by apply size_object|]. specialize (Hl p Hp). destruct p as [a b]. by injection Hl. }
  destruct (String.eqb key "items"); [|done].
  destruct v as [| | | |l|l]; try done.
  - cbn [sort_json]. intros [= Hl]. f_equal. apply map_fixed in Hl. apply map_fixed. rewrite Forall_elem in *.
    intros y (x & -> & Hx)%list_elem_of_fmap. apply IH; [apply Nat.lt_le_incl; by apply size_array|by apply Hl].
  - intros Hl. apply (IH (JObj l)); [lia|done].
Qed.

(** Normal forms do not depend on the order of members. *)
Lemma normal_sort j : normal j → normal (sort_json j).
Proof.
  induction j as [j IH] using json_size_ind. intros Hj. destruct (normal_is_object j Hj) as [l ->].
  apply normal_object in Hj as [Hs Hm]. cbn [sort_json]. apply normal_object. split.
  - rewrite <- Hs. apply isSchemaObject_keys. intros key. rewrite (sort_entries_Permutation (map _ l)), map_map. done.
  - rewrite (sort_entries_Permutation (map _ l)). apply Forall_elem. intros x (kv & -> & Hin)%list_elem_of_fmap.
    rewrite Forall_elem in Hm. apply normal_member_sort; [|auto].
    intros v Hv. apply IH. pose proof (size_object _ _ Hin). lia.
Qed.

Lemma normalizeType_utf8 value : utf8 value → utf8 (normalizeType value).
Proof.
  unfold normalizeType. destruct (List.find _ typeAliases) as [[a n]|] eqn:E; [|done]. intros _.
  apply find_some in E as [Hin _]. revert Hin. cbn.
  repeat (intros [[= <- <-]|Hin]; [by apply utf8_ascii|revert Hin]). done.
Qed.

Lemma normalize_member_wf kv :
  (∀ v, (json_size v ≤ json_size kv.2)%nat → wf_text v → wf_text (normalizeDescriptor v)) →
  wf_text kv.2 → wf_text (normalize_member normalizeDescriptor kv).2.
Proof.
  intros IH. destruct kv as [key v]. cbn [fst snd normalize_member] in *.
  destruct (String.eqb key "type").
  { destruct v as [| | |s|l|]; try done; [apply normalizeType_utf8|]. cbn [normalize_type_member]. rewrite !wf_text_arr.
    rewrite Forall_fmap. intros Hl. eapply Forall_impl; [exact Hl|]. intros [| | |s| |]; try done. apply normalizeType_utf8. }
  destruct (String.eqb key "properties").
  { destruct v as [| | | | |l]; try done. rewrite !wf_text_obj, map_map. intros [Hd Hw]. split; [done|].
    rewrite Forall_elem in Hw. apply Forall_elem. intros x (p & -> & Hp)%list_elem_of_fmap. destruct (Hw p Hp).
    cbn. split; [done|]. apply IH; [apply Nat.lt_le_incl; by apply size_object|done]. }
  destruct (String.eqb key "items"); [|done].
  destruct v as [| | | |l|l]; try (apply IH; lia).
  rewrite !wf_text_arr, !Forall_elem. intros Hw x (y & -> & Hy)%list_elem_of_fmap.
  apply IH; [apply Nat.lt_le_incl; by apply size_array|auto].
Qed.

Lemma normalize_wf j : wf_text j → wf_text (normalizeDescriptor j).
Proof.
  induction j as [j IH] using json_size_ind. intros Hj.
  assert (∀ l, NoDup (map fst l) → Forall (fun kv => utf8 kv.1 ∧ wf_text kv.2) l → wf_text (JObj l)) as Hmk.
  { intros l Hd Hl. by apply wf_text_obj. }
  assert (∀ key v, forallb (fun a => (nat_of_ascii a <? 128)%nat) (String.list_ascii_of_string key) = true →
    wf_text v → utf8 key ∧ wf_text v) as Hkey by (intros key v Hk Hv; split; [by apply utf8_ascii|done]).
  assert (∀ s, utf8 s → wf_text (JObj [("type", JStr s)])) as Htype.
  { intros s Hs. apply Hmk; [apply NoDup_singleton|]. constructor; [|constructor]. by apply Hkey. }
  assert (∀ x, wf_text x → wf_text (JObj [("type", JStr "array"); ("items", x)])) as Hitems.
  { intros x Hx. apply Hmk; [by apply (bool_decide_unpack _)|]. repeat constructor; by apply utf8_ascii || done. }
  destruct j as [| | |s|l|l]; cbn [normalizeDescriptor]; try (by apply Htype, utf8_ascii).
  - by apply Htype, normalizeType_utf8.
  - destruct l as [|x l]; [by apply Hitems, Htype, utf8_ascii|]. apply Hitems, IH; [apply size_array; left|].
    apply wf_text_arr in Hj. by apply Forall_cons in Hj as [? _].
  - apply wf_text_obj in Hj as [Hd Hw]. rewrite Forall_elem in Hw. unfold normalizeObject_with.
    destruct (isSchemaObject l).
    + apply Hmk; [by rewrite normalize_keys|]. apply Forall_elem. intros x (kv & -> & Hin)%list_elem_of_fmap.
      destruct (Hw kv Hin) as [Hu Hv]. split; [done|]. apply normalize_member_wf; [|done].
      intros v Hsz. apply IH. pose proof (size_object _ _ Hin). lia.
    + apply Hmk; [by apply (bool_decide_unpack _)|].
      repeat constructor; try (by apply utf8_ascii); try done.
      * rewrite map_map. done.
      * apply foldr_Forall, Forall_elem. intros x (kv & -> & Hin)%list_elem_of_fmap. destruct (Hw kv Hin) as [Hu Hv].
        split; [done|]. cbn. apply IH; [by apply size_object|done].
      * change (wf_text (JArr (map JStr (sortedKeys l)))). apply wf_text_arr, Forall_elem.
        intros x (key & -> & (kv & -> & Hin)%list_elem_of_fmap)%list_elem_of_fmap.
        rewrite (sort_entries_Permutation l) in Hin. apply (Hw kv Hin).
Qed.

(** ** Properties *)

Section Properties.
Context `{UnicodeTables}.

(** [Normalize] in terms of the one value of its input. *)
Lemma Normalize_ok raw out :
  Normalize raw = Ok out ↔
  ∃ object, decode_one raw = Some (JObj object) ∧ out = Marshal (JObj (normalizeObject object))
    ∧ ValidateContract out = Ok tt.
Proof.
  unfold Normalize. pose proof (decode_cases raw) as H1. destruct (decode_one raw) as [value|].
  - destruct H1 as (rest & -> & H2). rewrite check_then_ok, (H2 "").
    destruct value as [| | | | |object]; try naive_solver. rewrite check_then_ok. naive_solver.
  - destruct (Decode raw) as [| |value rest]; [naive_solver..|].
    destruct (H1 _ _ eq_refl "") as [e ->]. cbn. naive_solver.
Qed.

(** [ValidateContract] accepts a text exactly when it holds one JSON value,
    an object whose type is object (not nullable) and which is a contract: only
    supported keywords and types, closed objects that require each of their
    properties once, one schema for the items of an array, scalar enums; at every
    depth and for every order in which its maps are visited. *)
Theorem ValidateContract_correct raw :
  ValidateContract raw = Ok tt ↔
  ∃ node, decode_one raw = Some (JObj node) ∧ Contract node ∧ TypeOf node "object" false.
Proof. apply ValidateContract_ok. Qed.

(** The text [Normalize] returns is a valid contract and a fixed point:
    normalising it again succeeds and returns the same bytes, whatever mixture of
    shorthand and schema keywords the input was. *)
Theorem Normalize_idempotent raw out :
  Normalize raw = Ok out → ValidateContract out = Ok tt ∧ Normalize out = Ok out.
Proof.
  intros (object & Hd & -> & Hv)%Normalize_ok. split; [done|]. apply Normalize_ok.
  pose proof Hv as (node & Hn & _)%ValidateContract_ok.
  pose proof (normalize_wf (JObj object) (wf_json_text _ _ (decode_one_wf _ _ Hd))) as Hw.
  pose proof (normalizeDescriptor_idem (JObj object)) as Hnormal.
  change (normalizeDescriptor (JObj object)) with (JObj (normalizeObject object)) in *.
  destruct (decode_marshal_some _ _ Hw Hn) as [_ E]. exists node. split; [exact Hn|].
  apply normal_sort in Hnormal. rewrite <- E in Hnormal. split; [|done].
  change (JObj (normalizeObject node)) with (normalizeDescriptor (JObj node)). rewrite Hnormal, E. symmetry.
  by apply marshal_sort.
Qed.
End Properties.

Lemma Normalize_idempotent_witness :
  ∃ out, Normalize (H := ascii_tables) shorthand_example = Ok out
    ∧ ValidateContract (H := ascii_tables) out = Ok tt ∧ Normalize (H := ascii_tables) out = Ok out.
Proof.
  eexists. split; [vm_compute; reflexivity|].
  apply (Normalize_idempotent (H := ascii_tables) shorthand_example). vm_compute. reflexivity.
Defined.
