(* ===== verification/SchemaNumber.v ===== *)
(** * SchemaNumber: the comparison of JSON numbers is exact

    [numericValue] of [src/internal/schema/schema.go] compares numbers by their
    canonical decimal digits and an exponent, without expanding powers of ten.
    [literal_value] is the reference: the integer [m] and the exponent [e] that a
    literal denotes, the number [m * 10^e].  Two literals have the same canonical
    form exactly when they denote the same number, and the canonical exponent is
    not negative exactly when the number is an integer. *)
From Stdlib Require Import Ascii.
From S2P Require Import Prelude Json JsonText Unicode Schema.

Open Scope string_scope.
Open Scope list_scope.
Open Scope Z_scope.

(** ** The number a literal denotes *)

(** [a.1 * 10^a.2 = b.1 * 10^b.2], without fractions. *)
Definition same_number (a b : Z * Z) : Prop :=
  a.1 * 10 ^ (a.2 - Z.min a.2 b.2) = b.1 * 10 ^ (b.2 - Z.min a.2 b.2).

Definition is_integer (a : Z * Z) : Prop := ∃ z, same_number a (z, 0).

(** ** Strings of digits *)

Definition all_digits (s : string) : bool := forallb is_digit (String.list_ascii_of_string s).

Definition digit_value (a : ascii) : Z := Z.of_nat (nat_of_ascii a - 48).

Lemma digit_range a : is_digit a = true → 0 ≤ digit_value a ≤ 9.
Proof. unfold is_digit, digit_value. intros H%between_spec. lia. Qed.

Lemma digit_inj a b : is_digit a = true → is_digit b = true → digit_value a = digit_value b → a = b.
Proof.
  unfold is_digit, digit_value. intros Ha%between_spec Hb%between_spec H. apply nat_of_ascii_inj. lia.
Qed.

Lemma digit_zero a : is_digit a = true → digit_value a = 0 ↔ a = "0"%char.
Proof. intros Ha. split; [|by intros ->]. intros H. by apply digit_inj. Qed.

(** The value of a string of digits, total. *)
Fixpoint dval (acc : Z) (s : string) : Z :=
  match s with EmptyString => acc | String a r => dval (acc * 10 + digit_value a) r end.

Lemma digits_value_dval s : ∀ acc, all_digits s = true → digits_value acc s = Some (dval acc s).
Proof.
  induction s as [|a s IH]; intros acc H; [done|]. unfold all_digits in *. cbn in H. apply andb_true_iff in H as [Ha Hs].
  cbn [digits_value dval]. unfold is_digit in Ha. rewrite Ha. by apply IH.
Qed.

Lemma all_digits_app s t : all_digits (s +:+ t) = all_digits s && all_digits t.
Proof.
  unfold all_digits. induction s as [|a s IH]; [done|]. rewrite string_app_cons. cbn. by rewrite IH, andb_assoc.
Qed.

Lemma dval_acc s acc : dval acc s = acc * 10 ^ slen s + dval 0 s.
Proof.
  revert acc. induction s as [|a s IH]; intros acc; [change (slen "") with 0; rewrite Z.pow_0_r; cbn; lia|]. cbn [dval]. rewrite (IH (acc * 10 + _)), (IH (0 * 10 + _)).
  unfold slen. cbn [String.length]. rewrite Nat2Z.inj_succ, Z.pow_succ_r by lia. lia.
Qed.

Lemma dval_app s t : dval 0 (s +:+ t) = dval 0 s * 10 ^ slen t + dval 0 t.
Proof.
  rewrite <- dval_acc. generalize 0. induction s as [|a s IH]; intros acc; [done|]. rewrite string_app_cons. cbn. apply IH.
Qed.

Lemma dval_bounds s : all_digits s = true → 0 ≤ dval 0 s < 10 ^ slen s.
Proof.
  induction s as [|a s IH]; [change (slen "") with 0; cbn; lia|]. unfold all_digits in *. cbn. intros [Ha Hs]%andb_true_iff. specialize (IH Hs).
  rewrite dval_acc. pose proof (digit_range a Ha).
  unfold slen in *. cbn [String.length]. rewrite Nat2Z.inj_succ, Z.pow_succ_r by lia. nia.
Qed.

(** ** Trimming zeros *)

Lemma trim_left_digits s : all_digits s = true → all_digits (TrimLeftZeros s) = true.
Proof.
  induction s as [|a s IH]; [done|]. intros H. cbn. destruct (Ascii.eqb a "0"); [|done].
  apply IH. unfold all_digits in *. cbn in H. by apply andb_true_iff in H as [_ ?].
Qed.

Lemma trim_left_dval s : dval 0 (TrimLeftZeros s) = dval 0 s.
Proof. induction s as [|a s IH]; [done|]. cbn [TrimLeftZeros]. by destruct (Ascii.eqb_spec a "0") as [->|]. Qed.

(** A string of digits without a leading zero has a value of its length. *)
Lemma leading_digit a s :
  all_digits (String a s) = true → a ≠ "0"%char → 10 ^ slen s ≤ dval 0 (String a s).
Proof.
  unfold all_digits. cbn. intros [Ha Hs]%andb_true_iff Hz. rewrite dval_acc. pose proof (dval_bounds s Hs).
  assert (digit_value a ≠ 0) by (by rewrite digit_zero). pose proof (digit_range a Ha). nia.
Qed.

Definition no_leading_zero (s : string) : Prop := match s with EmptyString => True | String a _ => a ≠ "0"%char end.

Lemma trim_left_leading s : no_leading_zero (TrimLeftZeros s).
Proof. induction s as [|a s IH]; [done|]. cbn. by destruct (Ascii.eqb_spec a "0"). Qed.

Lemma dval_inj_length s : ∀ t,
  all_digits s = true → all_digits t = true → String.length s = String.length t → dval 0 s = dval 0 t → s = t.
Proof.
  induction s as [|a s IH]; intros [|b t] Hs Ht Hl Hv; try done. unfold all_digits in *. cbn in Hs, Ht.
  apply andb_true_iff in Hs as [Ha Hs], Ht as [Hb Ht]. cbn in Hl. injection Hl as Hl.
  cbn in Hv. rewrite (dval_acc s), (dval_acc t) in Hv. unfold slen in Hv. rewrite Hl in Hv.
  pose proof (dval_bounds s Hs) as Bs. pose proof (dval_bounds t Ht) as Bt. unfold slen in Bs, Bt. rewrite Hl in Bs.
  assert (digit_value a = digit_value b) as E by nia. f_equal; [by apply digit_inj|]. apply IH; try done. rewrite E in Hv. lia.
Qed.

(** Strings of digits without leading zeros are determined by their values. *)
Lemma dval_inj s t :
  all_digits s = true → all_digits t = true → no_leading_zero s → no_leading_zero t → dval 0 s = dval 0 t → s = t.
Proof.
  intros Hs Ht Ns Nt Hv. apply dval_inj_length; try done.
  assert (∀ u v, all_digits u = true → all_digits v = true → no_leading_zero v → dval 0 u = dval 0 v →
    (String.length v ≤ String.length u)%nat) as Hle.
  { intros u [|b v] Hu Hv' Nv E; [cbn; lia|]. pose proof (leading_digit b v Hv' Nv) as Hb.
    pose proof (dval_bounds u Hu) as [_ Hu2]. rewrite E in Hu2. unfold slen in *. cbn [String.length].
    assert (10 ^ Z.of_nat (String.length v) < 10 ^ Z.of_nat (String.length u)) as Hp by lia.
    apply Z.pow_lt_mono_r_iff in Hp; lia. }
  pose proof (Hle s t Hs Ht Nt Hv). pose proof (Hle t s Ht Hs Ns ltac:(done)). lia.
Qed.

(** ** Trimming on the right *)

Fixpoint zeros (k : nat) : string := match k with O => EmptyString | S k => String "0" (zeros k) end.

Lemma rev_onto_app s t acc : string_rev_onto (s +:+ t) acc = string_rev_onto t (string_rev_onto s acc).
Proof. revert acc. induction s as [|a s IH]; intros acc; [done|]. rewrite string_app_cons. cbn. apply IH. Qed.

Lemma rev_onto_acc s acc : string_rev_onto s acc = go_string_rev s +:+ acc.
Proof.
  unfold go_string_rev. revert acc. induction s as [|a s IH]; intros acc; [done|]. cbn.
  rewrite (IH (String a acc)), (IH (String a "")), string_app_assoc. done.
Qed.

Lemma string_rev_app s t : go_string_rev (s +:+ t) = go_string_rev t +:+ go_string_rev s.
Proof. unfold go_string_rev at 1. by rewrite rev_onto_app, rev_onto_acc. Qed.

Lemma string_rev_cons a s : go_string_rev (String a s) = go_string_rev s +:+ String a "".
Proof. apply (string_rev_app (String a "") s). Qed.

Lemma string_rev_involutive s : go_string_rev (go_string_rev s) = s.
Proof. induction s as [|a s IH]; [done|]. rewrite string_rev_cons, string_rev_app, IH. done. Qed.

Lemma zeros_snoc k : zeros k +:+ "0" = zeros (S k).
Proof. induction k as [|k IH]; [done|]. cbn [zeros]. rewrite string_app_cons, IH. done. Qed.

Lemma rev_zeros k : go_string_rev (zeros k) = zeros k.
Proof. induction k as [|k IH]; [done|]. cbn [zeros]. by rewrite string_rev_cons, IH, zeros_snoc. Qed.

Lemma trim_left_zeros s : ∃ k, s = zeros k +:+ TrimLeftZeros s.
Proof.
  induction s as [|a s [k IH]]; [by exists 0%nat|]. cbn [TrimLeftZeros].
  destruct (Ascii.eqb_spec a "0") as [->|]; [|by exists 0%nat]. exists (S k). cbn [zeros].
  by rewrite string_app_cons, <- IH.
Qed.

Lemma trim_right_zeros s : ∃ k, s = TrimRightZeros s +:+ zeros k.
Proof.
  destruct (trim_left_zeros (go_string_rev s)) as [k E]. exists k. unfold TrimRightZeros.
  rewrite <- (string_rev_involutive s) at 1. rewrite E at 1. by rewrite string_rev_app, rev_zeros.
Qed.

Lemma all_digits_rev s : all_digits (go_string_rev s) = all_digits s.
Proof.
  induction s as [|a s IH]; [done|]. rewrite string_rev_cons, all_digits_app, IH. unfold all_digits. cbn.
  by rewrite andb_true_r, andb_comm.
Qed.

Lemma trim_right_digits s : all_digits s = true → all_digits (TrimRightZeros s) = true.
Proof. intros H. unfold TrimRightZeros. rewrite all_digits_rev. apply trim_left_digits. by rewrite all_digits_rev. Qed.

Lemma trim_right_last s : all_digits s = true → TrimRightZeros s ≠ "" → dval 0 (TrimRightZeros s) mod 10 ≠ 0.
Proof.
  intros H. unfold TrimRightZeros. pose proof (trim_left_leading (go_string_rev s)) as Hl.
  assert (all_digits (TrimLeftZeros (go_string_rev s)) = true) as Hd.
  { apply trim_left_digits. by rewrite all_digits_rev. }
  destruct (TrimLeftZeros (go_string_rev s)) as [|a t]; [done|]. intros _. cbn in Hl.
  unfold all_digits in Hd. cbn in Hd. apply andb_true_iff in Hd as [Ha _].
  rewrite string_rev_cons, dval_app. change (slen (String a "")) with 1. cbn [dval].
  assert (digit_value a ≠ 0) by (by rewrite digit_zero). pose proof (digit_range a Ha).
  rewrite Z.pow_1_r, Z.add_comm, Z_mod_plus_full, Z.mod_small; lia.
Qed.

Lemma dval_zeros k : dval 0 (zeros k) = 0.
Proof. induction k as [|k IH]; [done|]. exact IH. Qed.

Lemma slen_zeros k : slen (zeros k) = Z.of_nat k.
Proof. unfold slen. induction k as [|k IH]; [done|]. cbn [zeros String.length]. lia. Qed.

Lemma slen_app s t : slen (s +:+ t) = slen s + slen t.
Proof. unfold slen. rewrite string_length_app. lia. Qed.

(** The digits of a number that is not zero, with the zeros at both ends cut. *)
Lemma trimmed_spec s :
  all_digits s = true → no_leading_zero s → s ≠ "" →
  let t := TrimRightZeros s in
  all_digits t = true ∧ no_leading_zero t ∧ dval 0 t mod 10 ≠ 0 ∧ 0 < dval 0 t
  ∧ dval 0 s = dval 0 t * 10 ^ (slen s - slen t) ∧ 0 ≤ slen s - slen t.
Proof.
  intros Hs Hl Hne t. destruct (trim_right_zeros s) as [k E]. fold t in E.
  assert (t ≠ "") as Ht.
  { intros Et. rewrite Et in E. change ("" +:+ zeros k) with (zeros k) in E. destruct k; [done|]. by rewrite E in Hl. }
  pose proof (trim_right_digits s Hs) as Hd. pose proof (trim_right_last s Hs Ht) as Hm. fold t in Hd, Hm.
  assert (no_leading_zero t) as Hlt.
  { destruct t as [|a t']; [done|]. by rewrite E, string_app_cons in Hl. }
  pose proof (dval_bounds t Hd) as [Hp _].
  assert (slen s - slen t = Z.of_nat k) as Hk by (rewrite E at 1; rewrite slen_app, slen_zeros; lia).
  rewrite Hk. split_and!; try done; [|..|lia].
  - destruct (Z.eq_dec (dval 0 t) 0) as [Ez|]; [by rewrite Ez in Hm|lia].
  - rewrite E at 1. rewrite dval_app, dval_zeros, slen_zeros. lia.
Qed.

(** ** The parts of a literal *)

Definition sign_digits (s : string) : Prop :=
  ∃ g d, s = g +:+ d ∧ (g = "" ∨ g = "+" ∨ g = "-") ∧ all_digits d = true ∧ d ≠ "".

(** A literal is a sign, whole digits, a fraction and an exponent. *)
Record literal_parts (n g w f p : string) : Prop := {
  parts_eq : n = g +:+ w +:+ f +:+ p;
  parts_sign : g = "" ∨ g = "-";
  parts_whole : all_digits w = true ∧ w ≠ "";
  parts_fraction : f = "" ∨ ∃ d, f = String "." d ∧ all_digits d = true;
  parts_power : p = "" ∨ ∃ a r, p = String a r ∧ (a = "e"%char ∨ a = "E"%char) ∧ sign_digits r;
}.

Lemma digits1_all d r : digits1 d = Some (d, r) → all_digits d = true ∧ d ≠ "".
Proof.
  intros H. split; [|by intros ->]. revert H. unfold digits1.
  assert (all_digits (digits d).1 = true) as Hd.
  { induction d as [|a d IH]; [done|]. cbn [digits]. destruct (is_digit a) eqn:E; [|done].
    destruct (digits d) as [x y]. unfold all_digits in *. cbn in *. by rewrite E, IH. }
  destruct (digits d) as [[|a e] t]; [done|]. intros [= Hx <-]. cbn in Hd. by rewrite <- Hx at 1.
Qed.

Lemma scan_parts s n r : scan_number s = Some (n, r) → ∃ g w f p,
  literal_parts n g w f p
  ∧ (let '(g', s1) := scan_sign s in '(w', s2) ← scan_whole s1; '(f', s3) ← scan_fraction s2; '(p', _) ← scan_exponent s3;
     Some (g', w', f', p')) = Some (g, w, f, p).
Proof.
  unfold scan_number. destruct (scan_sign s) as [g s1] eqn:Eg.
  intros (w & s2 & Ew & Hk)%bind_pair_some. apply bind_pair_some in Hk as (f & s3 & Ef & Hk).
  apply bind_pair_some in Hk as (p & s4 & Ep & [= <- _]). exists g, w, f, p.
  rewrite Ew. cbn. rewrite Ef. cbn. rewrite Ep. cbn. split; [|done]. constructor; [done|..].
  - destruct s as [|a s]; [by injection Eg as <- _; left|]. unfold scan_sign in Eg.
    destruct (Ascii.eqb a "-"); injection Eg as <- _; auto.
  - apply scan_whole_literal in Ew as (_ & _ & [->|H]); [done|]. by apply digits1_all in H.
  - destruct s2 as [|a s2]; [by injection Ef as <- _; left|]. unfold scan_fraction in Ef.
    destruct (Ascii.eqb_spec a ".") as [->|]; [|injection Ef as <- _; by left].
    apply bind_pair_some in Ef as (d & q & H%digits1_literal & [= <- _]). right. exists d. split; [done|].
    by apply digits1_all in H as [? _].
  - destruct s3 as [|a s3]; [by injection Ep as <- _; left|]. unfold scan_exponent in Ep.
    destruct (Ascii.eqb a "e" || Ascii.eqb a "E") eqn:Ea; [|injection Ep as <- _; by left].
    assert ((scan_exponent_sign s3).1 = "" ∨ (scan_exponent_sign s3).1 = "+" ∨ (scan_exponent_sign s3).1 = "-") as Hg.
    { destruct s3 as [|b s3]; [by left|]. cbn. destruct (Ascii.eqb_spec b "+") as [->|]; [auto|].
      destruct (Ascii.eqb_spec b "-") as [->|]; auto. }
    destruct (scan_exponent_sign s3) as [g' q]. cbn in Hg.
    apply bind_pair_some in Ep as (d & q' & H%digits1_literal & [= <- _]). right. exists a, (g' +:+ d).
    split; [done|]. split; [by apply orb_true_iff in Ea as [->%Ascii.eqb_eq| ->%Ascii.eqb_eq]; auto|].
    exists g', d. apply digits1_all in H as [? ?]. done.
Qed.

(** ** Lower case *)

Fixpoint lower_all (s : string) : string :=
  match s with EmptyString => EmptyString | String a r => String (lower_ascii a) (lower_all r) end.

Definition ascii_only (s : string) : bool :=
  forallb (fun a => (nat_of_ascii a <? 128)%nat) (String.list_ascii_of_string s).

Lemma ToLower_ascii s : ascii_only s = true → ToLower s = lower_all s.
Proof.
  unfold ascii_only. induction s as [|a s IH]; [done|]. cbn [String.list_ascii_of_string forallb].
  intros [Ha Hs]%andb_true_iff. specialize (IH Hs). apply Nat.ltb_lt in Ha.
  assert (∀ n, (128 ≤ n)%nat → (nat_of_ascii a =? n)%nat = false) as Hn by (intros n Hn; apply Nat.eqb_neq; lia).
  change (lower_all (String a s)) with (String (lower_ascii a) (lower_all s)). rewrite <- IH.
  destruct s as [|b [|c s]]; cbn [ToLower]; rewrite ?(Hn 196%nat), ?(Hn 226%nat) by lia; done.
Qed.

Lemma ascii_only_app s t : ascii_only (s +:+ t) = ascii_only s && ascii_only t.
Proof.
  unfold ascii_only. induction s as [|a s IH]; [done|]. rewrite string_app_cons. cbn [String.list_ascii_of_string forallb].
  by rewrite IH, andb_assoc.
Qed.

Lemma lower_all_app s t : lower_all (s +:+ t) = lower_all s +:+ lower_all t.
Proof. induction s as [|a s IH]; [done|]. rewrite string_app_cons. cbn. by rewrite IH. Qed.

Lemma digits_ascii s : all_digits s = true → ascii_only s = true ∧ lower_all s = s.
Proof.
  unfold all_digits, ascii_only. induction s as [|a s IH]; [done|]. cbn [String.list_ascii_of_string forallb lower_all].
  intros [Ha [-> ->]%IH]%andb_true_iff. unfold is_digit in Ha. pose proof Ha as Hr%between_spec.
  rewrite (proj2 (Nat.ltb_lt _ _)) by lia. split; [done|]. f_equal. unfold lower_ascii.
  destruct (between 65 90 (nat_of_ascii a)) eqn:E; [|done]. apply between_spec in E. lia.
Qed.

Lemma sign_digits_ascii r : sign_digits r → ascii_only r = true ∧ lower_all r = r.
Proof.
  intros (g & d & -> & Hg & [H1 H2]%digits_ascii & _). rewrite ascii_only_app, lower_all_app, H1, H2.
  by destruct Hg as [->|[->| ->]].
Qed.

(** The exponent as [numericValue] sees it. *)
Definition lower_power (p : string) : string := match p with EmptyString => EmptyString | String _ r => String "e" r end.

Lemma ToLower_literal n g w f p :
  literal_parts n g w f p → ToLower n = g +:+ w +:+ f +:+ lower_power p.
Proof.
  intros [-> Hg [Hw _] Hf Hp]. apply digits_ascii in Hw as [Hw1 Hw2].
  assert (ascii_only f = true ∧ lower_all f = f) as [Hf1 Hf2].
  { destruct Hf as [->|(d & -> & [H1 H2]%digits_ascii)]; [done|]. cbn [lower_all]. rewrite H2. split; [|done]. exact H1. }
  assert (ascii_only p = true ∧ lower_all p = lower_power p) as [Hp1 Hp2].
  { destruct Hp as [->|(a & r & -> & Ha & [H1 H2]%sign_digits_ascii)]; [done|]. cbn [lower_all lower_power]. rewrite H2.
    by destruct Ha as [->| ->]. }
  assert (ascii_only g = true ∧ lower_all g = g) as [Hg1 Hg2] by (by destruct Hg as [->| ->]).
  rewrite ToLower_ascii; [by rewrite !lower_all_app, Hg2, Hw2, Hf2, Hp2|].
  by rewrite !ascii_only_app, Hg1, Hw1, Hf1, Hp1.
Qed.

(** ** Cutting a literal *)

Definition lacks (x : ascii) (s : string) : bool := forallb (fun a => negb (Ascii.eqb a x)) (String.list_ascii_of_string s).

Lemma Cut_app x s t : lacks x s = true → Cut x (s +:+ t) = (s +:+ (Cut x t).1, (Cut x t).2).
Proof.
  unfold lacks. induction s as [|a s IH]; [intros _; change ("" +:+ ?s) with s; by destruct (Cut x t)|]. cbn [String.list_ascii_of_string forallb].
  intros [Ha%negb_true_iff Hs]%andb_true_iff. rewrite string_app_cons. cbn [Cut]. by rewrite Ha, IH.
Qed.

Lemma lacks_app x s t : lacks x (s +:+ t) = lacks x s && lacks x t.
Proof.
  unfold lacks. induction s as [|a s IH]; [done|]. rewrite string_app_cons. cbn [String.list_ascii_of_string forallb].
  by rewrite IH, andb_assoc.
Qed.

Lemma digits_lack x s : is_digit x = false → all_digits s = true → lacks x s = true.
Proof.
  intros Hx. unfold all_digits, lacks. induction s as [|a s IH]; [done|]. cbn [String.list_ascii_of_string forallb].
  intros [Ha Hs]%andb_true_iff. by rewrite (digit_not a x Ha Hx), IH.
Qed.

(** What [numericValue] computes from the parts. *)
Definition decimal_of_parts (negative : bool) (w fd : string) (power : option Z) : option decimalValue :=
  let digits := TrimLeftZeros (w +:+ fd) in
  if String.eqb digits "" then Some (MkDecimal "0" 0)
  else
    exponent ← power;
    let trimmed := TrimRightZeros digits in
    Some (MkDecimal (if negative then "-" +:+ trimmed else trimmed) (exponent + (slen digits - slen trimmed - slen fd))).

Lemma decimal_of_literal n g w f p :
  literal_parts n g w f p →
  decimal_of (ToLower n) = decimal_of_parts (String.eqb g "-") w (fraction_digits f) (exponent_value p).
Proof.
  intros Hn. rewrite (ToLower_literal _ _ _ _ _ Hn). destruct Hn as [_ Hg [Hw Hne] Hf Hp].
  unfold decimal_of.
  assert (∀ t, match g +:+ w +:+ t with String a _ => Ascii.eqb a "-" | "" => false end = String.eqb g "-"
    ∧ match g +:+ w +:+ t with String a r => if Ascii.eqb a "-" then r else g +:+ w +:+ t | "" => g +:+ w +:+ t end
      = w +:+ t) as Hsign.
  { intros t. destruct Hg as [->| ->]; [|done]. change ("" +:+ w +:+ t) with (w +:+ t).
    destruct w as [|a w]; [done|]. unfold all_digits in Hw. cbn in Hw. apply andb_true_iff in Hw as [Ha _].
    rewrite string_app_cons. by rewrite (digit_not a "-" Ha eq_refl). }
  destruct (Hsign (f +:+ lower_power p)) as [-> ->].
  assert (lacks "e" w = true ∧ lacks "." w = true) as [Hwe Hwd] by (split; by apply digits_lack).
  assert (lacks "e" (w +:+ f) = true) as Hcut.
  { rewrite lacks_app, Hwe. destruct Hf as [->|(d & -> & Hd)]; [done|]. by apply (digits_lack "e") in Hd. }
  rewrite <- string_app_assoc, (Cut_app "e" (w +:+ f)) by done.
  assert (Cut "e" (lower_power p) = ("", match p with "" => None | String _ r => Some r end)) as ->.
  { destruct Hp as [->|(a & r & -> & _)]; done. }
  cbn [fst snd]. rewrite string_app_nil, (Cut_app "." w) by done.
  assert (Cut "." f = ("", match f with "" => None | String _ r => Some r end)) as ->.
  { destruct Hf as [->|(d & -> & _)]; done. }
  cbn [fst snd]. rewrite string_app_nil. unfold decimal_of_parts, fraction_digits, exponent_value.
  by destruct f, p.
Qed.

(** The canonical form of the number [v]. *)
Definition canonical (d : decimalValue) (v : Z * Z) : Prop :=
  v.1 = 0 ∧ d = MkDecimal "0" 0
  ∨ ∃ (negative : bool) t k,
      dec_digits d = (if negative then "-" +:+ t else t) ∧ all_digits t = true ∧ no_leading_zero t ∧ t ≠ ""
      ∧ dval 0 t mod 10 ≠ 0 ∧ 0 < dval 0 t ∧ 0 ≤ k
      ∧ v.1 = (if negative then - (dval 0 t * 10 ^ k) else dval 0 t * 10 ^ k) ∧ dec_exponent d = v.2 + k.

Lemma SetString_digits r : sign_digits r → ∃ z, SetString r = Some z.
Proof.
  intros (g & d & -> & Hg & Hd & Hne). pose proof (digits_value_dval d 0 Hd) as E. destruct d as [|a d]; [done|].
  unfold all_digits in Hd. cbn in Hd. apply andb_true_iff in Hd as [Ha _].
  destruct Hg as [->|[->| ->]].
  - change ("" +:+ String a d) with (String a d). unfold SetString.
    rewrite (digit_not a "-" Ha eq_refl), (digit_not a "+" Ha eq_refl), E. eauto.
  - rewrite string_app_cons. change ("" +:+ ?x) with x. unfold SetString. cbn [Ascii.eqb Bool.eqb]. rewrite E. eauto.
  - rewrite string_app_cons. change ("" +:+ ?x) with x. unfold SetString. cbn [Ascii.eqb Bool.eqb]. rewrite E. cbn. eauto.
Qed.

Lemma marshal_literal n : number_literal n → marshal_number n = Some n.
Proof.
  intros H. unfold marshal_number. rewrite H. destruct (String.eqb_spec n "") as [->|]; [done|done].
Qed.

(** [numericValue] of a literal is the canonical form of the number it denotes. *)
Lemma numericValue_canonical n :
  number_literal n → ∃ v d, literal_value n = Some v ∧ numericValue (JNum n) = Some d ∧ canonical d v.
Proof.
  intros H. cbn [numericValue]. rewrite marshal_literal by done. cbn [mbind option_bind].
  destruct (scan_parts _ _ _ H) as (g & w & f & p & Hp & Hs).
  rewrite (decimal_of_literal _ _ _ _ _ Hp). unfold literal_value. destruct (scan_sign n) as [g' s1].
  apply bind_pair_some in Hs as (w' & s2 & -> & Hs). apply bind_pair_some in Hs as (f' & s3 & Ef & Hs).
  cbn [mbind option_bind]. rewrite Ef. cbn [mbind option_bind].
  apply bind_pair_some in Hs as (p' & s4 & -> & [= -> -> -> ->]). cbn [mbind option_bind].
  destruct Hp as [_ Hg [Hw Hne] Hf Hp].
  assert (all_digits (w +:+ fraction_digits f) = true) as Hd.
  { rewrite all_digits_app, Hw. destruct Hf as [->|(d & -> & Hd)]; done. }
  assert (∃ e, exponent_value p = Some e) as [e He].
  { destruct Hp as [->|(a & r & -> & _ & Hr)]; [by exists 0|]. by apply SetString_digits. }
  rewrite (digits_value_dval _ 0 Hd), He. cbn [mbind option_bind].
  set (s := w +:+ fraction_digits f) in *. pose proof (trim_left_dval s) as Hv. pose proof (trim_left_leading s) as Hl.
  pose proof (trim_left_digits s Hd) as Hd'. unfold decimal_of_parts. fold s. eexists _.
  destruct (String.eqb_spec (TrimLeftZeros s) "") as [E|N].
  - eexists. split_and!; [done..|]. left. rewrite E in Hv. cbn in Hv. cbn [fst]. rewrite <- Hv. split; [|done].
    by destruct (String.eqb g "-").
  - destruct (trimmed_spec _ Hd' Hl N) as (T1 & T2 & T3 & T4 & T5 & T6). eexists. split_and!; [done..|]. right.
    exists (String.eqb g "-"), (TrimRightZeros (TrimLeftZeros s)), (slen (TrimLeftZeros s) - slen (TrimRightZeros (TrimLeftZeros s))).
    cbn [fst snd dec_digits dec_exponent]. split_and!; try done.
    + intros E. by rewrite E in T3.
    + rewrite <- Hv, T5. by destruct (String.eqb g "-").
    + lia.
Qed.

(** ** Canonical forms are unique *)

(** The numbers compared at any exponent below both. *)
Lemma same_number_at c a b :
  c ≤ a.2 → c ≤ b.2 → same_number a b ↔ a.1 * 10 ^ (a.2 - c) = b.1 * 10 ^ (b.2 - c).
Proof.
  intros Ha Hb. unfold same_number. set (m := Z.min a.2 b.2). assert (c ≤ m ≤ a.2 ∧ m ≤ b.2) as Hm by lia.
  replace (a.2 - c) with ((a.2 - m) + (m - c)) by lia. replace (b.2 - c) with ((b.2 - m) + (m - c)) by lia.
  rewrite !Z.pow_add_r, !Z.mul_assoc by lia. assert (0 < 10 ^ (m - c)) by (apply Z.pow_pos_nonneg; lia).
  split; [by intros ->|]. intros E. by apply Z.mul_reg_r in E; [|lia].
Qed.

Lemma same_number_scale x k e b : 0 ≤ k → same_number (x * 10 ^ k, e) b ↔ same_number (x, e + k) b.
Proof.
  intros Hk. rewrite (same_number_at (Z.min e b.2)), (same_number_at (Z.min e b.2) (x, e + k)) by (cbn; lia). cbn [fst snd].
  replace (e + k - Z.min e b.2) with (k + (e - Z.min e b.2)) by lia. by rewrite Z.pow_add_r, Z.mul_assoc by lia.
Qed.

Lemma same_number_sym a b : same_number a b ↔ same_number b a.
Proof. unfold same_number. rewrite (Z.min_comm a.2). split; done. Qed.

Lemma pow10_multiple z n : 0 < n → (z * 10 ^ n) mod 10 = 0.
Proof.
  intros Hn. replace n with (n - 1 + 1) by lia. rewrite Z.pow_add_r, Z.pow_1_r, Z.mul_assoc by lia. apply Z_mod_mult.
Qed.

Lemma same_number_primitive x e y d :
  x mod 10 ≠ 0 → y mod 10 ≠ 0 → same_number (x, e) (y, d) ↔ x = y ∧ e = d.
Proof.
  intros Hx Hy. rewrite (same_number_at (Z.min e d)) by (cbn; lia). cbn [fst snd]. split; [|by intros [-> ->]].
  destruct (Z.lt_trichotomy e d) as [H|[->|H]].
  - replace (e - Z.min e d) with 0 by lia. intros E. destruct Hx. rewrite Z.pow_0_r, Z.mul_1_r in E. rewrite E.
    apply pow10_multiple. lia.
  - rewrite Z.min_id, Z.sub_diag, Z.pow_0_r, !Z.mul_1_r. done.
  - replace (d - Z.min e d) with 0 by lia. intros E. destruct Hy. rewrite Z.pow_0_r, Z.mul_1_r in E. rewrite <- E.
    apply pow10_multiple. lia.
Qed.

Definition signed (negative : bool) (z : Z) : Z := if negative then - z else z.

Lemma signed_mod negative z : z mod 10 ≠ 0 → signed negative z mod 10 ≠ 0.
Proof. destruct negative; [|done]. cbn. intros H E. apply H. by apply Z_mod_zero_opp_full in E; rewrite Z.opp_involutive in E. Qed.

(** A canonical form other than zero: its digits determine a number that ends in
    no zero, at the form's exponent. *)
Lemma canonical_nonzero d v :
  canonical d v → v.1 ≠ 0 → ∃ (negative : bool) (t : string),
    dec_digits d = (if negative then "-" +:+ t else t) ∧ all_digits t = true ∧ no_leading_zero t ∧ t ≠ ""
    ∧ 0 < dval 0 t ∧ signed negative (dval 0 t) mod 10 ≠ 0
    ∧ ∀ b, same_number v b ↔ same_number (signed negative (dval 0 t), dec_exponent d) b.
Proof.
  intros [[Hz _]|(negative & t & k & Hd & Ha & Hl & Hne & Hm & Hp & Hk & Hv & He)] Hnz; [done|].
  exists negative, t. split_and!; try done; [by apply signed_mod|]. intros b. rewrite He, <- same_number_scale by done.
  destruct v as [x e]. cbn [fst snd] in *. rewrite Hv. unfold signed. destruct negative; [|done].
  by rewrite Z.mul_opp_l.
Qed.

Lemma canonical_zero d v : canonical d v → v.1 = 0 → d = MkDecimal "0" 0.
Proof.
  intros [[_ Hd]|(negative & t & k & _ & _ & _ & _ & _ & Hp & Hk & Hv & _)] Hz; [done|].
  assert (0 < 10 ^ k) by (apply Z.pow_pos_nonneg; lia). rewrite Hz in Hv. destruct negative; nia.
Qed.

(** Strings of digits are not signed. *)
Lemma sign_strings (n1 n2 : bool) (t1 t2 : string) :
  all_digits t1 = true → all_digits t2 = true → t1 ≠ "" → t2 ≠ "" →
  (if n1 then "-" +:+ t1 else t1) = (if n2 then "-" +:+ t2 else t2) ↔ n1 = n2 ∧ t1 = t2.
Proof.
  intros H1 H2 N1 N2. assert (∀ s t, all_digits t = true → t ≠ "" → "-" +:+ s ≠ t) as Hm.
  { intros s t Ht Hne E. rewrite <- E in Ht. done. }
  destruct n1, n2; split; try (by intros [_ ->]); try (by intros [? _]).
  - rewrite !string_app_cons. by intros [= E].
  - intros E. by destruct (Hm _ _ H2 N2 E).
  - intros E. by destruct (Hm _ _ H1 N1 (eq_sym E)).
  - done.
Qed.

Lemma canonical_same d1 v1 d2 v2 :
  canonical d1 v1 → canonical d2 v2 → same_decimal d1 d2 = true ↔ same_number v1 v2.
Proof.
  intros C1 C2. unfold same_decimal. rewrite andb_true_iff, String.eqb_eq, Z.eqb_eq.
  assert (∀ d v d' v', canonical d v → canonical d' v' → v.1 = 0 → v'.1 ≠ 0 →
    dec_digits d ≠ dec_digits d' ∧ ¬ same_number v v') as Hzero.
  { intros d v d' v' C C' Hz Hnz. rewrite (canonical_zero d v C Hz).
    destruct (canonical_nonzero d' v' C' Hnz) as (n & t & -> & Ha & Hl & Hne & Hp & _ & Hs). split.
    - intros E. destruct n; [discriminate E|]. cbn [dec_digits] in E. by rewrite <- E in Hl.
    - rewrite same_number_sym, Hs, (same_number_at (Z.min (dec_exponent d') v.2)) by (cbn; lia). cbn [fst snd].
      rewrite Hz, Z.mul_0_l. assert (0 < 10 ^ (dec_exponent d' - Z.min (dec_exponent d') v.2)) by (apply Z.pow_pos_nonneg; lia).
      intros E. destruct n; cbn in E; nia. }
  destruct (Z.eq_dec v1.1 0) as [Z1|N1], (Z.eq_dec v2.1 0) as [Z2|N2].
  - rewrite (canonical_zero d1 v1 C1 Z1), (canonical_zero d2 v2 C2 Z2). unfold same_number. rewrite Z1, Z2. done.
  - destruct (Hzero d1 v1 d2 v2) as [? ?]; try done. naive_solver.
  - destruct (Hzero d2 v2 d1 v1) as [? ?]; try done. rewrite same_number_sym. naive_solver.
  - destruct (canonical_nonzero d1 v1 C1 N1) as (n1 & t1 & E1 & A1 & L1 & M1 & P1 & Q1 & S1).
    destruct (canonical_nonzero d2 v2 C2 N2) as (n2 & t2 & E2 & A2 & L2 & M2 & P2 & Q2 & S2).
    rewrite S1, same_number_sym, S2, same_number_primitive, E1, E2, sign_strings by done. split.
    + by intros [[-> ->] ->].
    + intros [E ->]. assert (n1 = n2 ∧ dval 0 t1 = dval 0 t2) as [-> Ev] by (destruct n1, n2; cbn in E; split; done || lia).
      by rewrite (dval_inj t1 t2).
Qed.

Lemma canonical_integer d v : canonical d v → 0 ≤ dec_exponent d ↔ is_integer v.
Proof.
  intros C. unfold is_integer. destruct (Z.eq_dec v.1 0) as [Hz|Hn].
  - rewrite (canonical_zero d v C Hz). split; [|done]. intros _. exists 0. unfold same_number. cbn [fst snd]. by rewrite Hz.
  - destruct (canonical_nonzero d v C Hn) as (n & t & _ & _ & _ & _ & _ & Hm & Hs). setoid_rewrite Hs. split.
    + intros He. exists (signed n (dval 0 t) * 10 ^ dec_exponent d). apply same_number_sym, same_number_scale; [done|].
      by rewrite Z.add_0_l.
    + intros [z Hz]. destruct (Z.le_gt_cases 0 (dec_exponent d)) as [|Hneg]; [done|]. destruct Hm.
      apply (same_number_at (dec_exponent d)) in Hz; [|cbn; lia..]. cbn [fst snd] in Hz.
      rewrite Z.sub_diag, Z.pow_0_r, Z.mul_1_r in Hz. rewrite Hz. apply pow10_multiple. lia.
Qed.

Lemma isNumber_literal n :
  number_literal n → ∃ v, literal_value n = Some v
    ∧ isNumber (JNum n) false = true ∧ (isNumber (JNum n) true = true ↔ is_integer v).
Proof.
  intros Hn. destruct (numericValue_canonical n Hn) as (v & d & Hv & Hd & C). exists v. split; [done|].
  unfold isNumber. rewrite Hd. split; [done|]. cbn [negb orb]. rewrite Z.leb_le. by apply canonical_integer.
Qed.

Lemma equal_literals a b :
  number_literal a → number_literal b → ∃ va vb, literal_value a = Some va ∧ literal_value b = Some vb
    ∧ (equalJSONValue (JNum a) (JNum b) = true ↔ same_number va vb).
Proof.
  intros Ha Hb. destruct (numericValue_canonical a Ha) as (va & da & La & Na & Ca).
  destruct (numericValue_canonical b Hb) as (vb & db & Lb & Nb & Cb). exists va, vb. split; [done|]. split; [done|].
  unfold equalJSONValue. rewrite Na, Nb. by apply canonical_same.
Qed.

(** ** Properties *)

(** C3: The comparison of numbers is exact: two JSON number literals denote
    numbers, they are equal values exactly when they denote the same number
    (whatever their signs of zero, trailing zeros and exponents), and a literal
    counts as an integer exactly when the number it denotes is one.  No power of
    ten is expanded, and exponents of any size are accepted. *)
Theorem numbers_compared_exactly a b :
  number_literal a → number_literal b →
  ∃ va vb, literal_value a = Some va ∧ literal_value b = Some vb
    ∧ (equalJSONValue (JNum a) (JNum b) = true ↔ same_number va vb)
    ∧ isNumber (JNum a) false = true ∧ (isNumber (JNum a) true = true ↔ is_integer va).
Proof.
  intros Ha Hb. destruct (equal_literals a b Ha Hb) as (va & vb & La & Lb & H).
  destruct (isNumber_literal a Ha) as (v & Hv & H1 & H2). rewrite La in Hv. injection Hv as <-. by exists va, vb.
Qed.

Lemma numbers_compared_exactly_witness :
  equalJSONValue (JNum "-1.50E+2") (JNum "-150.0") = true ∧ ∃ va, literal_value "-1.50E+2" = Some va ∧ is_integer va.
Proof.
  destruct (numbers_compared_exactly "-1.50E+2" "-150.0") as (va & vb & Ea & Eb & H1 & _ & H2);
    [vm_compute; reflexivity..|].
  vm_compute in Ea, Eb. injection Ea as <-. injection Eb as <-. split.
  - apply H1. vm_compute. reflexivity.
  - eexists. split; [vm_compute; reflexivity|]. apply H2. vm_compute. reflexivity.
Defined.
