(* ===== verification/SchemaValue.v ===== *)
(** * SchemaValue: validated values have the type of their contract

    [Conforms] is the typing judgement of contracts: which JSON values a contract
    describes.  [validateValueNode] decides it for every valid contract and never
    fails a type assertion there; [ParseAndValidate] returns exactly the values
    that conform; and the diagnostic of a rejected output quotes the end of it with
    its letters and digits hidden. *)
From Stdlib Require Import Ascii.
From S2P Require Import Prelude Json JsonText Unicode Schema SchemaContract SchemaNumber.

Open Scope string_scope.
Open Scope list_scope.
Open Scope Z_scope.

(** ** Typing *)

(** A value of an enum: the same null, boolean or string, or the same number. *)
Definition SameScalar (candidate value : json) : Prop :=
  (∀ n, candidate ≠ JNum n) ∧ candidate = value
  ∨ ∃ a b va vb, candidate = JNum a ∧ value = JNum b ∧ literal_value a = Some va ∧ literal_value b = Some vb
      ∧ same_number va vb.

(** The values of a type, given the values of the schemas below the node. *)
Definition Shape (conforms : list (string * json) → json → Prop) (node : list (string * json)) (name : string)
    (value : json) : Prop :=
  name = "object" ∧ (∃ properties object,
    field "properties" node = Some (JObj properties) ∧ value = JObj object
    ∧ (∀ key, key ∈ map fst object ↔ key ∈ map fst properties)
    ∧ ∀ key child, (key, JObj child) ∈ properties → ∃ v, field key object = Some v ∧ conforms child v)
  ∨ name = "array" ∧ (∃ items l,
    field "items" node = Some (JObj items) ∧ value = JArr l ∧ ∀ x, x ∈ l → conforms items x)
  ∨ name = "string" ∧ (∃ s, value = JStr s)
  ∨ name = "boolean" ∧ (∃ b, value = JBool b)
  ∨ name = "number" ∧ (∃ n, value = JNum n)
  ∨ name = "integer" ∧ (∃ n v, value = JNum n ∧ literal_value n = Some v ∧ is_integer v).

Inductive Conforms : list (string * json) → json → Prop :=
| conforms_node node name nullable value :
    TypeOf node name nullable →
    (∀ enum, field "enum" node = Some (JArr enum) → ∃ candidate, candidate ∈ enum ∧ SameScalar candidate value) →
    (nullable = true ∧ value = JNull ∨ Shape Conforms node name value) →
    Conforms node value.

(** ** Scalars *)

Lemma isNumber_spec value integer :
  wf_text value →
  isNumber value integer = true ↔
  ∃ n v, value = JNum n ∧ literal_value n = Some v ∧ (integer = true → is_integer v).
Proof.
  intros Hw. destruct value as [| |n| | |]; try (split; [done|naive_solver]).
  destruct (isNumber_literal n Hw) as (v & Hv & H1 & H2).
  destruct integer.
  - rewrite H2. split; [by intros; exists n, v|]. intros (n' & v' & [= <-] & Hv' & Hi). rewrite Hv in Hv'.
    injection Hv' as <-. auto.
  - rewrite H1. split; [by intros; exists n, v|done].
Qed.

Lemma numericValue_other c : (∀ n, c ≠ JNum n) → numericValue c = None.
Proof. by destruct c as [| |n| | |]; intros H; try done; destruct (H n). Qed.

Lemma equal_scalar c v :
  scalar c = true → wf_text c → wf_text v → equalJSONValue c v = true ↔ SameScalar c v.
Proof.
  intros Hs Hc Hv. unfold SameScalar. destruct c as [|b|n|s| |]; try done.
  - destruct v; cbn; naive_solver.
  - destruct v as [|b'| | | |]; cbn; try naive_solver. rewrite Bool.eqb_true_iff. naive_solver.
  - destruct v as [| |m| | |].
    3: { destruct (equal_literals n m Hc Hv) as (va & vb & La & Lb & ->). split.
         - intros H. right. by exists n, m, va, vb.
         - intros [[H _]|(x & y & wa & wb & [= <-] & [= <-] & Wa & Wb & H)]; [by destruct (H n)|]. congruence. }
    all: split; [|intros [[H _]|(x & y & wa & wb & _ & [=] & _)]; by destruct (H n)].
    all: destruct (numericValue_canonical n Hc) as (va & da & _ & Na & _); unfold equalJSONValue; rewrite Na; done.
  - destruct v as [| | |s'| |]; cbn; try naive_solver. rewrite String.eqb_eq. naive_solver.
Qed.

(** ** The validator decides the judgement *)

Lemma TypeOf_unique node n1 b1 n2 b2 : TypeOf node n1 b1 → TypeOf node n2 b2 → n1 = n2 ∧ b1 = b2.
Proof. intros H1%(contractType_ok _ "") H2%(contractType_ok _ ""). rewrite H1 in H2. by injection H2. Qed.

Lemma Conforms_iff node name nullable value :
  TypeOf node name nullable →
  Conforms node value ↔
  (∀ enum, field "enum" node = Some (JArr enum) → ∃ candidate, candidate ∈ enum ∧ SameScalar candidate value)
  ∧ (nullable = true ∧ value = JNull ∨ Shape Conforms node name value).
Proof.
  intros Ht. split.
  - intros Hc. destruct Hc as [node n b value Ht' He Hs]. by destruct (TypeOf_unique _ _ _ _ _ Ht Ht') as [-> ->].
  - intros [He Hs]. by apply (conforms_node node name nullable).
Qed.

Lemma field_wf key l v : wf_text (JObj l) → field key l = Some v → wf_text v.
Proof.
  intros [_ H]%wf_text_obj Hin%field_elem. rewrite Forall_elem in H. by destruct (H _ Hin).
Qed.

Lemma check_value_enum_ok node value path :
  Contract node → wf_text (JObj node) → wf_text value →
  check_value_enum node value path = Ok tt ↔
  ∀ enum, field "enum" node = Some (JArr enum) → ∃ candidate, candidate ∈ enum ∧ SameScalar candidate value.
Proof.
  intros Hc Hn Hv. destruct Hc as [node name nullable _ _ _ He _ _]. unfold check_value_enum.
  destruct (field "enum" node) as [e|] eqn:E; [|naive_solver].
  destruct (He e eq_refl) as (x & l & -> & Hs). pose proof (field_wf _ _ _ Hn E) as Hw. apply wf_text_arr in Hw.
  rewrite fail_if_ok, negb_false_iff, existsb_elem. rewrite Forall_elem in Hs, Hw. split.
  - intros (c & Hin & Heq) enum [= <-]. exists c. split; [done|]. by apply equal_scalar in Heq; auto.
  - intros H. destruct (H _ eq_refl) as (c & Hin & Heq). exists c. split; [done|]. by apply equal_scalar; auto.
Qed.

Lemma for_index_ok {A : Type} (body : nat → A → res schema_error unit) (P : A → Prop) l : ∀ i,
  (∀ j x, x ∈ l → body j x = Ok tt ↔ P x) → for_index body i l = Ok tt ↔ ∀ x, x ∈ l → P x.
Proof.
  induction l as [|x l IH]; intros i H; cbn [for_index]; [split; [by intros _ x ?%elem_of_nil|done]|].
  rewrite check_then_ok, IH by (intros j y Hy; apply H; by right). rewrite (H i x) by left.
  setoid_rewrite elem_of_cons. naive_solver.
Qed.

Lemma must_be_ok ok path what : must_be ok path what = Ok tt ↔ ok = true.
Proof. unfold must_be. by rewrite fail_if_ok, negb_false_iff. Qed.

(** The two loops of an object: over the members of the value and over the
    properties of the schema. *)
Lemma object_value_ok properties object path :
  (∀ key value, (key, value) ∈ properties → ∃ child, value = JObj child) →
  (∀ key child v p, (key, JObj child) ∈ properties → wf_text v →
    validateValueNode (JObj child) v p = Ok tt ↔ Conforms child v) →
  wf_text (JObj object) →
  (let? _ := for_each (fun kv : string * json =>
     fail_if (bool_decide (field kv.1 properties = None)) (SValue (path +:+ "." +:+ kv.1 +:+ " is not allowed"))) object in
   for_each (fun kv : string * json =>
     match field kv.1 object with
     | None => Err (SValue (path +:+ "." +:+ kv.1 +:+ " is required"))
     | Some childValue =>
         match kv.2 with
         | JObj _ => validateValueNode kv.2 childValue (path +:+ "." +:+ kv.1)
         | _ => Err SPanic
         end
     end) properties) = Ok tt ↔
  (∀ key, key ∈ map fst object ↔ key ∈ map fst properties)
  ∧ ∀ key child, (key, JObj child) ∈ properties → ∃ v, field key object = Some v ∧ Conforms child v.
Proof.
  intros Hobj IH Hw. rewrite check_then_ok, !for_each_ok.
  assert ((∀ x : string * json, x ∈ object →
    fail_if (bool_decide (field x.1 properties = None)) (SValue (path +:+ "." +:+ x.1 +:+ " is not allowed")) = Ok tt)
    ↔ ∀ key, key ∈ map fst object → key ∈ map fst properties) as ->.
  { setoid_rewrite fail_if_ok. setoid_rewrite bool_decide_eq_false. setoid_rewrite field_none. split.
    - intros H key (kv & -> & Hin)%list_elem_of_fmap. apply dec_stable. by apply H.
    - intros H kv Hin Hn. apply Hn, H. apply list_elem_of_fmap. by exists kv. }
  split.
  - intros [Hsub Hall].
    assert (∀ key child, (key, JObj child) ∈ properties → ∃ v, field key object = Some v ∧ Conforms child v) as Hc.
    { intros key child Hin. specialize (Hall _ Hin). cbn [fst snd] in Hall.
      destruct (field key object) as [v|] eqn:E; [|done]. exists v. split; [done|].
      eapply IH; [done| |exact Hall]. by eapply field_wf. }
    split; [|done]. intros key. split; [apply Hsub|]. intros ([k v] & -> & Hin)%list_elem_of_fmap.
    destruct (Hobj k v Hin) as [child ->]. destruct (Hc k child Hin) as (w & Hf%field_elem & _).
    apply list_elem_of_fmap. by exists (k, w).
  - intros [Hkeys Hc]. split; [by intros key ?%Hkeys|]. intros [k v] Hin. cbn [fst snd].
    destruct (Hobj k v Hin) as [child ->]. destruct (Hc k child Hin) as (w & Hf & Hw'). rewrite Hf.
    eapply IH; [done| |done]. by eapply field_wf.
Qed.

Lemma contract_type node :
  Contract node → ∃ name nullable, TypeOf node name nullable
    ∧ (name = "object" → ∃ properties, field "properties" node = Some (JObj properties)
        ∧ ∀ key value, (key, value) ∈ properties → ∃ child, value = JObj child ∧ Contract child)
    ∧ (name = "array" → ∃ items, field "items" node = Some (JObj items) ∧ Contract items).
Proof.
  intros Hc. destruct Hc as [node name nullable _ Ht _ _ Hobj Harr]. exists name, nullable. split; [done|]. split; [|done].
  intros E. destruct (Hobj E) as (properties & required & Hp & _ & _ & _ & _ & Hch). by exists properties.
Qed.

(** The dispatch on the type, past the enum and a null. *)
Definition validate_shape (entries : list (string * json)) (name : string) (value : json) (path : string)
  : res schema_error unit :=
  if String.eqb name "object" then
    match value with
    | JObj object =>
        match field "properties" entries with
        | Some (JObj properties) =>
            let? _ := for_each (fun kv : string * json =>
              fail_if (bool_decide (field kv.1 properties = None)) (SValue (path +:+ "." +:+ kv.1 +:+ " is not allowed"))) object in
            for_each (fun kv : string * json =>
              match field kv.1 object with
              | None => Err (SValue (path +:+ "." +:+ kv.1 +:+ " is required"))
              | Some childValue =>
                  match kv.2 with
                  | JObj _ => validateValueNode kv.2 childValue (path +:+ "." +:+ kv.1)
                  | _ => Err SPanic
                  end
              end) properties
        | _ => Err SPanic
        end
    | _ => must_be false path "an object"
    end
  else if String.eqb name "array" then
    match value with
    | JArr items =>
        match field "items" entries with
        | Some (JObj itemSchema) =>
            for_index (fun index item =>
              validateValueNode (JObj itemSchema) item (path +:+ "[" +:+ pretty.pretty index +:+ "]")) 0 items
        | _ => Err SPanic
        end
    | _ => must_be false path "an array"
    end
  else if String.eqb name "string" then must_be (is_string value) path "a string"
  else if String.eqb name "boolean" then must_be (is_boolean value) path "a boolean"
  else if String.eqb name "number" then must_be (isNumber value false) path "a number"
  else if String.eqb name "integer" then must_be (isNumber value true) path "an integer"
  else Ok tt.

Lemma validateValueNode_eq entries value path name nullable :
  TypeOf entries name nullable →
  validateValueNode (JObj entries) value path
  = let? _ := check_value_enum entries value path in
    if nullable && is_null value then Ok tt else validate_shape entries name value path.
Proof.
  intros Ht%(contractType_ok _ path). cbn [validateValueNode]. rewrite Ht. cbn [res_bind fst snd].
  unfold validate_shape. destruct value as [| | | |l|l]; try reflexivity; rewrite with_field_spec.
  - by destruct (field "items" entries) as [[| | | | |?]|].
  - by destruct (field "properties" entries) as [[| | | | |?]|].
Qed.

(** What is known of the schemas below a node. *)
Definition below_ok (node : list (string * json)) : Prop :=
  ∀ child v p, (json_size (JObj child) < json_size (JObj node))%nat → Contract child → wf_text (JObj child) → wf_text v →
  validateValueNode (JObj child) v p = Ok tt ↔ Conforms child v.

Lemma validate_object_ok node value path :
  below_ok node → wf_text (JObj node) → wf_text value →
  (∃ properties, field "properties" node = Some (JObj properties)
     ∧ ∀ key value, (key, value) ∈ properties → ∃ child, value = JObj child ∧ Contract child) →
  validate_shape node "object" value path = Ok tt ↔ Shape Conforms node "object" value.
Proof.
  intros IH Hn Hv (properties & Hp & Hch). unfold validate_shape, Shape.
  change (String.eqb "object" "object") with true. cbn iota. rewrite Hp.
  pose proof (size_field _ _ _ Hp) as Hsz. pose proof (field_wf _ _ _ Hn Hp) as Hpw.
  destruct value as [| | | | |object]; try (split; [done|naive_solver]).
  rewrite object_value_ok; [|naive_solver| |done].
  - split; [intros H; left; split; [done|]; by exists properties, object|]. naive_solver.
  - intros key child v p Hin Hw. destruct (Hch _ _ Hin) as (c & [= <-] & Hc). apply IH; try done.
    + pose proof (size_object _ _ Hin) as Hs. cbn [snd] in Hs. lia.
    + apply wf_text_obj in Hpw as [_ Hpw]. rewrite Forall_elem in Hpw. by destruct (Hpw _ Hin).
Qed.

Lemma validate_array_ok node value path :
  below_ok node → wf_text (JObj node) → wf_text value →
  (∃ items, field "items" node = Some (JObj items) ∧ Contract items) →
  validate_shape node "array" value path = Ok tt ↔ Shape Conforms node "array" value.
Proof.
  intros IH Hn Hv (items & Hi & Hc). unfold validate_shape, Shape.
  change (String.eqb "array" "object") with false. change (String.eqb "array" "array") with true. cbn iota. rewrite Hi.
  pose proof (size_field _ _ _ Hi) as Hsz. pose proof (field_wf _ _ _ Hn Hi) as Hiw.
  destruct value as [| | | |l|]; try (split; [done|naive_solver]).
  rewrite (for_index_ok _ (Conforms items)).
  - split; [intros H; right; left; split; [done|]; by exists items, l|]. naive_solver.
  - intros j x Hx. apply IH; try done. apply wf_text_arr in Hv. rewrite Forall_elem in Hv. auto.
Qed.

Lemma validate_scalar_ok node name value path :
  name ∈ contractTypes → name ≠ "object" → name ≠ "array" → wf_text value →
  validate_shape node name value path = Ok tt ↔ Shape Conforms node name value.
Proof.
  intros Hin No Na Hv. unfold validate_shape, Shape.
  rewrite (proj2 (String.eqb_neq name "object") No), (proj2 (String.eqb_neq name "array") Na).
  assert (name = "string" ∨ name = "number" ∨ name = "integer" ∨ name = "boolean") as Hname.
  { unfold contractTypes in Hin. set_solver. }
  destruct Hname as [->|[->|[->| ->]]]; cbn [String.eqb Ascii.eqb Bool.eqb]; rewrite must_be_ok.
  - destruct value; naive_solver.
  - rewrite isNumber_spec by done. split.
    + intros (n & v & -> & _). do 4 right. left. split; [done|]. by exists n.
    + intros H. assert (∃ n, value = JNum n) as [n ->] by naive_solver. destruct (isNumber_literal n Hv) as (v & Hl & _).
      by exists n, v.
  - rewrite isNumber_spec by done. split.
    + intros (n & v & -> & Hl & Hi). do 5 right. split; [done|]. exists n, v. auto.
    + intros H. assert (∃ n v, value = JNum n ∧ literal_value n = Some v ∧ is_integer v) as (n & v & H1 & H2 & H3) by naive_solver.
      exists n, v. auto.
  - destruct value; naive_solver.
Qed.

Lemma is_null_spec value : is_null value = true ↔ value = JNull.
Proof. by destruct value. Qed.

Lemma validateValueNode_ok j : ∀ node value path, j = JObj node →
  Contract node → wf_text (JObj node) → wf_text value →
  validateValueNode (JObj node) value path = Ok tt ↔ Conforms node value.
Proof.
  induction j as [j IH] using json_size_ind. intros node value path -> Hc Hn Hv.
  destruct (contract_type node Hc) as (name & nullable & Ht & Hobj & Harr).
  assert (below_ok node) as Hbelow.
  { intros child v p Hs Hcc Hcw Hvw. by apply (IH (JObj child)). }
  rewrite (validateValueNode_eq _ _ _ name nullable Ht), check_then_ok, check_value_enum_ok by done.
  rewrite (Conforms_iff node name nullable value Ht).
  assert (validate_shape node name value path = Ok tt ↔ Shape Conforms node name value) as Hshape.
  { destruct (decide (name = "object")) as [->|No]; [by apply validate_object_ok; auto|].
    destruct (decide (name = "array")) as [->|Na]; [by apply validate_array_ok; auto|].
    apply validate_scalar_ok; try done. apply Ht. }
  assert (∀ A B C : Prop, (B ↔ C) → A ∧ B ↔ A ∧ C) as Hand by tauto. apply Hand.
  destruct (nullable && is_null value) eqn:E.
  - apply andb_true_iff in E as [-> ->%is_null_spec]. split; [by left|done].
  - rewrite Hshape. split; [by right|]. intros [[-> ->]|]; done.
Qed.

(** ** No failed assertion *)

Lemma no_panic_bind {A B : Type} (m : res schema_error A) (k : A → res schema_error B) :
  m ≠ Err SPanic → (∀ a, m = Ok a → k a ≠ Err SPanic) → res_bind m k ≠ Err SPanic.
Proof. destruct m; cbn; [|congruence]. intros _ H. by apply H. Qed.

Lemma for_each_no_panic {A : Type} (body : A → res schema_error unit) l :
  (∀ x, x ∈ l → body x ≠ Err SPanic) → for_each body l ≠ Err SPanic.
Proof.
  induction l as [|x l IH]; intros H; cbn [for_each]; [done|]. apply no_panic_bind; [apply H; left|].
  intros _ _. apply IH. intros y Hy. apply H. by right.
Qed.

Lemma for_index_no_panic {A : Type} (body : nat → A → res schema_error unit) l : ∀ i,
  (∀ j x, x ∈ l → body j x ≠ Err SPanic) → for_index body i l ≠ Err SPanic.
Proof.
  induction l as [|x l IH]; intros i H; cbn [for_index]; [done|]. apply no_panic_bind; [apply H; left|].
  intros _ _. apply IH. intros j y Hy. apply H. by right.
Qed.

Lemma fail_no_panic (c : bool) e : e ≠ SPanic → fail_if c e ≠ Err SPanic.
Proof. destruct c; cbn; congruence. Qed.

(** The type assertions on [properties], their children and [items] hold in a
    contract. *)
Lemma validateValueNode_no_panic j : ∀ node value path, j = JObj node →
  Contract node → validateValueNode (JObj node) value path ≠ Err SPanic.
Proof.
  induction j as [j IH] using json_size_ind. intros node value path -> Hc.
  destruct (contract_type node Hc) as (name & nullable & Ht & Hobj & Harr).
  rewrite (validateValueNode_eq _ _ _ name nullable Ht). apply no_panic_bind.
  { unfold check_value_enum. destruct (field "enum" node) as [[| | | |l|]|]; try discriminate. by apply fail_no_panic. }
  intros _ _. destruct (nullable && is_null value); [done|]. unfold validate_shape.
  destruct (String.eqb_spec name "object") as [->|_].
  { destruct value as [| | | | |object]; try done. destruct (Hobj eq_refl) as (properties & Hp & Hch). rewrite Hp.
    apply no_panic_bind; [by apply for_each_no_panic; intros kv _; apply fail_no_panic|].
    intros _ _. apply for_each_no_panic. intros [k v] Hin. cbn [fst snd]. destruct (field k object); [|done].
    destruct (Hch k v Hin) as (child & -> & Hcc). apply (IH (JObj child)); [|done..].
    pose proof (size_field _ _ _ Hp). pose proof (size_object _ _ Hin) as Hs. cbn [snd] in Hs. lia. }
  destruct (String.eqb_spec name "array") as [->|_].
  { destruct value as [| | | |l|]; try done. destruct (Harr eq_refl) as (items & Hi & Hcc). rewrite Hi.
    apply for_index_no_panic. intros i x _. apply (IH (JObj items)); [|done..]. by eapply size_field. }
  unfold must_be. repeat (destruct (String.eqb name _); [by apply fail_no_panic|]). done.
Qed.

(** ** Redacted tails *)

Section Tail.
Context `{UnicodeTables}.

Lemma redact_valid c : valid_rune c → valid_rune (redact_rune c).
Proof. unfold redact_rune. intros Hc. repeat case_match; [left; done..|done]. Qed.

(** The runes kept are a suffix within the limit, and no longer one is. *)
Lemma tail_within_spec limit before : ∀ n kept,
  n = units kept → n ≤ limit →
  ∃ prefix, rev before ++ kept = prefix ++ tail_within limit n before kept
    ∧ units (tail_within limit n before kept) ≤ limit
    ∧ (prefix = [] ∨ ∃ p r, prefix = p ++ [r] ∧ limit < units (tail_within limit n before kept) + rune_units r).
Proof.
  induction before as [|r before IH]; intros n kept Hn Hl; cbn [tail_within rev].
  - exists []. split_and!; [done|lia|by left].
  - destruct (Z.ltb_spec limit (n + rune_units r)) as [Hlt|Hle].
    + exists (rev before ++ [r]). split_and!; [done|lia|]. right. exists (rev before), r. split; [done|]. by rewrite <- Hn.
    + destruct (IH (n + rune_units r) (r :: kept)) as (prefix & E & H1 & H2); [cbn [units foldr]; fold (units kept); lia|lia|].
      exists prefix. rewrite <- app_assoc. done.
Qed.

Lemma safeTail_spec raw limit :
  0 < limit → ∃ prefix, map redact_rune (runes raw) = prefix ++ runes (safeTail raw limit)
    ∧ utf16Length (safeTail raw limit) ≤ limit
    ∧ (prefix = [] ∨ ∃ p r, prefix = p ++ [r] ∧ limit < utf16Length (safeTail raw limit) + rune_units r).
Proof.
  intros Hl. unfold safeTail, utf16Length. destruct (Z.leb_spec limit 0); [lia|].
  rewrite runes_Map by apply redact_valid.
  destruct (tail_within_spec limit (rev (map redact_rune (runes raw))) 0 []) as (prefix & E & H1 & H2); [done|lia|].
  rewrite rev_involutive, app_nil_r in E. set (kept := tail_within _ _ _ _) in *.
  assert (runes (of_runes kept) = kept) as ->; [|by exists prefix].
  apply runes_of_runes. assert (Forall valid_rune (map redact_rune (runes raw))) as Hv.
  { pose proof (runes_from_valid 0 raw) as Hr. fold (runes raw) in Hr. clear -Hr.
    induction Hr; cbn; constructor; [by apply redact_valid|done]. }
  rewrite E in Hv. by apply Forall_app in Hv as [_ ?].
Qed.
End Tail.

(** ** Properties *)

Section Properties.
Context `{UnicodeTables}.

Lemma ValidateValue_node contract node value :
  decode_one contract = Some (JObj node) → Contract node → wf_text value →
  (ValidateValue contract value = Ok tt ↔ Conforms node value) ∧ ValidateValue contract value ≠ Err SPanic.
Proof.
  intros Hd Hc Hv. pose proof (wf_json_text _ _ (decode_one_wf _ _ Hd)) as Hn.
  pose proof (decode_cases contract) as Hcases. rewrite Hd in Hcases. destruct Hcases as (rest & E & _).
  unfold ValidateValue. rewrite E.
  pose proof (validateValueNode_ok _ node value "$" eq_refl Hc Hn Hv) as Hok.
  pose proof (validateValueNode_no_panic _ node value "$" eq_refl Hc) as Hp.
  destruct (validateValueNode (JObj node) value "$") as [[]|e]; [by rewrite <- Hok|].
  destruct e; try done; (split; [|done]); rewrite <- Hok; done.
Qed.

Lemma validateNode_no_panic j : ∀ node path root, j = JObj node → validateNode (JObj node) path root ≠ Err SPanic.
Proof.
  induction j as [j IH] using json_size_ind. intros node path root ->. cbn [validateNode]. rewrite !with_field_spec.
  apply no_panic_bind; [by apply for_each_no_panic; intros kv _; apply fail_no_panic|]. intros _ _.
  apply no_panic_bind.
  { unfold contractType, supported_type. repeat case_match; discriminate. }
  intros typed _. apply no_panic_bind; [by apply fail_no_panic|]. intros _ _.
  apply no_panic_bind; [unfold check_description; repeat case_match; discriminate|]. intros _ _.
  apply no_panic_bind; [unfold check_enum; repeat case_match; try discriminate; by apply fail_no_panic|]. intros _ _.
  apply no_panic_bind.
  - destruct (String.eqb _ _); [|done]. destruct (field "properties" node) as [[| | | | |properties]|] eqn:Ep; try discriminate.
    apply no_panic_bind.
    { unfold check_object. apply no_panic_bind; [repeat case_match; discriminate|]. intros _ _.
      destruct (field "required" node) as [[| | | |l|]|]; try discriminate. generalize ([] : list string).
      induction l as [|v l IHl]; intros seen; [done|]. destruct v; try discriminate. cbn [check_required].
      apply no_panic_bind; [by apply fail_no_panic|]. intros _ _.
      apply no_panic_bind; [by apply fail_no_panic|]. intros _ _. apply IHl. }
    intros required _. apply for_each_no_panic. intros [k v] Hin. apply no_panic_bind; [by apply fail_no_panic|].
    intros _ _. cbn [fst snd]. destruct v as [| | | | |child]; try discriminate. apply (IH (JObj child)); [|done].
    pose proof (size_field _ _ _ Ep). pose proof (size_object _ _ Hin) as Hs. cbn [snd] in Hs. lia.
  - intros _ _. destruct (String.eqb _ _); [|done]. destruct (field "items" node) as [[| | | | |items]|] eqn:Ei; try discriminate.
    apply (IH (JObj items)); [|done]. by eapply size_field.
Qed.

Lemma ValidateContract_no_panic raw : ValidateContract raw ≠ Err SPanic.
Proof.
  unfold ValidateContract. destruct (Decode raw) as [| |value rest]; try discriminate.
  destruct (requireEOF "" rest); [|discriminate]. destruct value; try discriminate. by eapply validateNode_no_panic.
Qed.

Lemma ParseProviderOutput_no_panic json_error raw diag : ParseProviderOutput json_error raw ≠ Err (SPanic, diag).
Proof. unfold ParseProviderOutput. destruct (decodeOneJSON "" raw) as [|[]]; discriminate. Qed.

Lemma ParseProviderOutput_ok json_error raw value :
  ParseProviderOutput json_error raw = Ok value ↔ decode_one raw = Some value.
Proof.
  unfold ParseProviderOutput, decodeOneJSON. pose proof (decode_cases raw) as H1. destruct (decode_one raw) as [v|].
  - destruct H1 as (rest & -> & H2). rewrite (H2 ""). cbn. naive_solver.
  - destruct (Decode raw) as [| |v rest]; [done..|]. destruct (H1 _ _ eq_refl "") as [e ->]. done.
Qed.

(** C33: [ParseAndValidate] returns a value exactly when the contract is valid,
    the provider's text holds exactly one JSON value, and that value, unchanged,
    has the type of the contract: closed objects with every property, items of one
    type, numbers and integers by their value, enums by value.  It never panics on
    a type assertion. *)
Theorem ParseAndValidate_correct json_error raw contract value :
  (ParseAndValidate json_error raw contract = Ok value ↔
   ∃ node, decode_one contract = Some (JObj node) ∧ Contract node ∧ TypeOf node "object" false
     ∧ decode_one raw = Some value ∧ Conforms node value)
  ∧ ∀ diagnostic, ParseAndValidate json_error raw contract ≠ Err (SPanic, diagnostic).
Proof.
  unfold ParseAndValidate. pose proof (ValidateContract_ok contract) as Hc.
  pose proof (ValidateContract_no_panic contract) as Hnp.
  destruct (ValidateContract contract) as [[]|e].
  - destruct (proj1 Hc eq_refl) as (node & Hd & Hn & Ht). pose proof (ParseProviderOutput_ok json_error raw) as Hp.
    pose proof (ParseProviderOutput_no_panic json_error raw) as Hpp.
    destruct (ParseProviderOutput json_error raw) as [v|[e diag]]; cbn [res_bind].
    + pose proof (proj1 (Hp v) eq_refl) as Hv.
      destruct (ValidateValue_node contract node v Hd Hn) as [Hok Hpanic]; [by eapply wf_json_text, decode_one_wf|].
      destruct (ValidateValue contract v) as [[]|e]; (split; [|by intros d [= -> _]]).
      * split; [intros [= <-]|by intros (? & _ & _ & _ & Hv' & _); rewrite Hv in Hv'; injection Hv' as ->].
        exists node. split_and!; try done. by apply Hok.
      * split; [done|]. intros (node' & Hd' & _ & _ & Hv' & Hcf). rewrite Hd in Hd'. injection Hd' as <-.
        rewrite Hv in Hv'. injection Hv' as <-. by apply Hok in Hcf.
    + split.
      * split; [done|]. intros (_ & _ & _ & _ & Hv & _). by apply Hp in Hv.
      * intros d [= -> ->]. exact (Hpp _ eq_refl).
  - split.
    + split; [done|]. intros (node & H1 & H2 & H3 & _). assert (Err e = Ok tt) as Hx by (apply Hc; eauto). done.
    + by intros d [= -> _].
Qed.

(** What a diagnostic shows for a rune of the output: a star for a letter or a digit, a
    blank for a control character that is not layout, and the rune itself otherwise. *)
Inductive shown_as (r : N) : N → Prop :=
| shown_word : IsLetter r = true ∨ IsDigit r = true → shown_as r 42
| shown_control : IsLetter r = false → IsDigit r = false → IsControl r = true → IsSpace r = false → shown_as r 32
| shown_plain : IsLetter r = false → IsDigit r = false → IsControl r = false ∨ IsSpace r = true → shown_as r r.
(** A UTF-16 unit for each rune, and another for each beyond the basic plane. *)
Definition utf16_units (l : list N) : Z := llen l + llen (List.filter (fun r => (65535 <? r)%N) l).
(** The tail shows the last runes of the output, as many as fit. *)
Definition shows_end (limit : Z) (raw tail : string) : Prop :=
  ∃ skipped kept, runes raw = skipped ++ kept ∧ Forall2 shown_as kept (runes tail) ∧ utf16_units (runes tail) ≤ limit
    ∧ (skipped = [] ∨ ∃ before r s, skipped = before ++ [r] ∧ shown_as r s ∧ limit < utf16_units (s :: runes tail)).

Lemma units_utf16 l : units l = utf16_units l.
Proof.
  unfold utf16_units. induction l as [|r l IH]; [done|]. unfold llen in *. cbn [units foldr List.filter length]. fold (units l). rewrite IH.
  unfold rune_units. destruct (N.ltb_spec 65535 r); cbn [length]; lia.
Qed.
Lemma redact_shown r : shown_as r (redact_rune r).
Proof.
  unfold redact_rune. destruct (IsLetter r) eqn:E1; [by apply shown_word; left|]. destruct (IsDigit r) eqn:E2; [by apply shown_word; right|]. cbn [orb].
  destruct (IsControl r) eqn:E3; [destruct (IsSpace r) eqn:E4|]; cbn [andb negb].
  - apply shown_plain; auto.
  - by apply shown_control.
  - apply shown_plain; auto.
Qed.
Lemma safeTail_shows raw limit : 0 < limit → shows_end limit raw (safeTail raw limit).
Proof.
  intros Hl. destruct (safeTail_spec raw limit Hl) as (prefix & E & Hu & Hm). unfold utf16Length in *. rewrite units_utf16 in *.
  set (tail := runes (safeTail raw limit)) in *. apply map_eq_app in E as (skipped & kept & Er & <- & Et). exists skipped, kept. split; [done|].
  split; [|split; [done|]].
  - fold tail. rewrite <- Et. clear. induction kept; cbn; constructor; [apply redact_shown|done].
  - destruct Hm as [Hm|(p & r & Hm & Hn)]; [left; by apply map_eq_nil in Hm|right].
    apply map_eq_app in Hm as (before & last & -> & _ & Hlast). destruct last as [|c [|]]; [done| |done]. injection Hlast as Ec.
    exists before, c, r. split; [done|]. split; [rewrite <- Ec; apply redact_shown|]. fold tail. rewrite <- units_utf16. cbn [units foldr]. fold (units tail).
    rewrite units_utf16. lia.
Qed.

Lemma message_bounded (m : string) : slen (if 256 <? slen m then String.substring 0 256 m else m) ≤ 256.
Proof.
  destruct (Z.ltb_spec 256 (slen m)) as [Hlt|]; [|done]. unfold slen. pose proof (substring_length_le 256 m). lia.
Qed.

(** C34: a diagnostic redacts the output it quotes. Its tail shows the last runes of the
    provider's text, as many as fit in 128 UTF-16 units, one for one: a star for each
    letter and each digit, a blank for each control character that is not layout, and
    punctuation and layout as they are. The length it reports is the one of the whole
    text in UTF-16 units. Its message has at most 256 bytes; that one is not redacted: it
    is the error, and that of a value names the path to it, with its keys. *)
Theorem diagnostics_redacted json_error raw contract err diagnostic :
  ParseAndValidate json_error raw contract = Err (err, Some diagnostic) →
  shows_end 128 raw (dg_RawTail diagnostic)
  ∧ dg_RawLength diagnostic = utf16_units (runes raw) ∧ slen (dg_Message diagnostic) ≤ 256
  ∧ (dg_Stage diagnostic = "json_parse" ∧ decode_one raw = None
     ∨ dg_Stage diagnostic = "schema_validation" ∧ ∃ value, decode_one raw = Some value ∧ ValidateValue contract value = Err err).
Proof.
  unfold ParseAndValidate. destruct (ValidateContract contract); [|done].
  assert (∀ stage text, diagnostic = newDiagnostic stage raw text →
    shows_end 128 raw (dg_RawTail diagnostic) ∧ dg_RawLength diagnostic = utf16_units (runes raw) ∧ slen (dg_Message diagnostic) ≤ 256
    ∧ dg_Stage diagnostic = stage) as Hd.
  { intros stage text ->. split_and!; [by apply safeTail_shows|apply units_utf16|apply message_bounded|done]. }
  pose proof (ParseProviderOutput_ok json_error raw) as Hp.
  destruct (ParseProviderOutput json_error raw) as [value|[e diag]] eqn:Ep; cbn [res_bind].
  - pose proof (proj1 (Hp value) eq_refl) as Hv. destruct (ValidateValue contract value) as [|e] eqn:Ev; [done|]. intros [= <- Ed].
    destruct (Hd _ _ (eq_sym Ed)) as (H1 & H2 & H3 & H4). split_and!; try done. right. split; [done|]. by exists value.
  - intros [= <- ->]. assert (decode_one raw = None) as Hn by (destruct (decode_one raw) as [v|]; [by specialize (proj2 (Hp v) eq_refl)|done]).
    unfold ParseProviderOutput in Ep. destruct (decodeOneJSON "" raw) as [|e']; [done|]. injection Ep as _ Ed.
    destruct (Hd _ _ (eq_sym Ed)) as (H1 & H2 & H3 & H4). split_and!; try done. by left.
Qed.
End Properties.

(** A contract with an integer and an enum, and an output that has a fraction. *)
Definition example_contract : string :=
  Marshal (JObj (shorthand_object
    [("age", JObj [("type", JStr "integer")]);
     ("kind", JObj [("type", JArr [JStr "string"; JStr "null"]); ("enum", JArr [JStr "a"; JStr "b"; JNull])])]
    ["age"; "kind"])).

Example parse_ok :
  ParseAndValidate (H := ascii_tables) "" (Marshal (JObj [("kind", JNull); ("age", JNum "4.20e1")])) example_contract
  = Ok (JObj [("age", JNum "4.20e1"); ("kind", JNull)]).
Proof. vm_compute. reflexivity. Qed.

Lemma diagnostics_redacted_witness :
  ∃ err d, ParseAndValidate (H := ascii_tables) "" (Marshal (JObj [("kind", JNull); ("age", JNum "4.5")])) example_contract
    = Err (err, Some d) ∧ dg_Stage d = "schema_validation"
    ∧ shows_end (H := ascii_tables) 128 (Marshal (JObj [("kind", JNull); ("age", JNum "4.5")])) (dg_RawTail d).
Proof.
  eexists _, _. split; [vm_compute; reflexivity|]. split; [reflexivity|].
  eapply (diagnostics_redacted (H := ascii_tables) ""
    (Marshal (JObj [("kind", JNull); ("age", JNum "4.5")])) example_contract).
  vm_compute. reflexivity.
Defined.
