(* ===== verification/Retry.v ===== *)
(** * Retry: classification of failures, retry policies and backoff

    Models [src/internal/retry/retry.go]: the recovery policy and its
    validation, the classification of a provider failure, and the exponential
    backoff with full jitter.  Go errors are the values of [goerror]; the walks
    of [errors.Is] and [errors.As] over wrapped errors are the fixpoints below. *)
From Stdlib Require Import Ascii.
From stdpp Require Import pretty.
From Corelib Require Import SpecFloat.
From S2P Require Import Prelude Float64 Json.

Open Scope string_scope.
Open Scope Z_scope.

(** ** Categories *)

Definition Category : Type := string.

Definition CategorySuccess : Category := "success".
Definition CategoryNetwork : Category := "network".
Definition CategoryRateLimit : Category := "rate_limit".
Definition CategoryServer : Category := "server_error".
Definition CategoryEmpty : Category := "empty_response".
Definition CategoryProvider : Category := "provider_retry".
Definition CategoryParse : Category := "parse_error".
Definition CategoryRefusal : Category := "refusal".
Definition CategoryTimeout : Category := "timeout".
Definition CategoryCanceled : Category := "canceled".
Definition CategoryOther : Category := "other".

(** The categories [Policy.Validate] accepts in [retryOn]. *)
Definition retryCategories : list Category :=
  [CategoryNetwork; CategoryRateLimit; CategoryServer; CategoryEmpty; CategoryProvider].

(** ** Errors *)

Record ProviderError := MkProviderError {
  pe_Category : Category;
  pe_Code : string;
  pe_Type : string;
  pe_ProviderRequestID : string;
  pe_RawResponse : string;
  pe_Status : Z;
  pe_RetryAfter : Duration;
}.

(** The error values that reach the recovery engine.  [EProvider] is a
    [*ProviderError] with its wrapped cause; [EWrap] is [fmt.Errorf] with %w;
    [EText] is any error without a recognised identity. *)
Inductive goerror : Type :=
| EText (message : string)
| ECanceled
| EDeadlineExceeded
| EValidation (errField message : string)
| ECacheIntegrity
| EWrap (message : string) (cause : goerror)
| EProvider (cause : option goerror) (info : ProviderError).

(** [errors.Is(err, context.Canceled)] *)
Fixpoint isCanceled (err : goerror) : bool :=
  match err with
  | ECanceled => true
  | EWrap _ e => isCanceled e
  | EProvider (Some e) _ => isCanceled e
  | _ => false
  end.

(** [errors.Is(err, context.DeadlineExceeded)] *)
Fixpoint isDeadline (err : goerror) : bool :=
  match err with
  | EDeadlineExceeded => true
  | EWrap _ e => isDeadline e
  | EProvider (Some e) _ => isDeadline e
  | _ => false
  end.

(** [errors.As(err, &providerError)]: the outermost provider error. *)
Fixpoint asProvider (err : goerror) : option (option goerror * ProviderError) :=
  match err with
  | EProvider cause info => Some (cause, info)
  | EWrap _ e => asProvider e
  | _ => None
  end.

Fixpoint errorText (err : goerror) : string :=
  match err with
  | EText m => m
  | ECanceled => "context canceled"
  | EDeadlineExceeded => "context deadline exceeded"
  | EValidation f m => f +:+ ": " +:+ m
  | ECacheIntegrity => "CACHE_INTEGRITY"
  | EWrap m e => m +:+ errorText e
  | EProvider (Some e) _ => errorText e
  | EProvider None info =>
      if negb (String.eqb (pe_Code info) "") then pe_Code info
      else if negb (pe_Status info =? 0) then "provider returned HTTP " +:+ pretty (pe_Status info)
      else "provider error"
  end.

(** ** Policies *)

Record RecoveryTarget := MkTarget {
  rt_ConnectionID : string;
  rt_Source : string;
  rt_ModelID : string;
  rt_ReasoningEffort : string;
  rt_ProviderOptions : option (list (string * json));
}.

Record RepairPlan := MkRepairPlan {
  rp_Initial : RecoveryTarget;
  rp_Escalation : option RecoveryTarget;
}.

Record RerunPlan := MkRerunPlan {
  rr_Target : RecoveryTarget;
  rr_JSONRepair : option RepairPlan;
}.

Record Backoff := MkBackoff {
  BaseDelayMS : Z;
  MaxDelayMS : Z;
}.

(** [RetryOn] is a slice, whose [nil] differs from the empty slice. *)
Record Policy := MkPolicy {
  MaxAttempts : Z;
  RetryOn : option (list Category);
  pol_Backoff : Backoff;
  JSONRepair : option RepairPlan;
  Rerun : option RerunPlan;
  explicitPlan : bool;
}.

Definition UsesExplicitPlan (policy : Policy) : bool :=
  explicitPlan policy || bool_decide (is_Some (JSONRepair policy)) || bool_decide (is_Some (Rerun policy)).

Definition options_len (o : option (list (string * json))) : Z := llen (default [] o).

Definition target_IsZero (t : RecoveryTarget) : bool :=
  String.eqb (rt_Source t) "" && String.eqb (rt_ConnectionID t) "" && String.eqb (rt_ModelID t) ""
  && String.eqb (rt_ReasoningEffort t) "" && (options_len (rt_ProviderOptions t) =? 0).

(** ** Provider options *)

Definition normalizeKey (key : string) : string :=
  ToLower (remove_byte "_"%char (remove_byte "-"%char key)).

Definition secretPrefixes : list string :=
  ["authorization"; "apikey"; "credential"; "password"; "secret"].
Definition secretTokens : list string :=
  ["token"; "accesstoken"; "authtoken"; "bearertoken"; "clienttoken"; "idtoken"; "refreshtoken"; "sessiontoken"].

Definition secretKey (key : string) : bool :=
  let normalized := normalizeKey key in
  existsb (fun p => String.prefix p normalized) secretPrefixes || str_in normalized secretTokens.

Fixpoint containsRecoverySecretKey (value : json) : bool :=
  match value with
  | JObj entries => existsb (fun kv => secretKey kv.1 || containsRecoverySecretKey kv.2) entries
  | JArr l => existsb containsRecoverySecretKey l
  | _ => false
  end.

Definition validateTargetProviderOptions (options : list (string * json)) : res goerror unit :=
  let? _ := fail_if (32768 <? slen (Marshal (JObj options)))
                    (EText "providerOptions exceeds the 32 KiB limit") in
  fail_if (containsRecoverySecretKey (JObj options))
          (EText "providerOptions may not contain credential material").

Definition recoveryControlKeys : list string :=
  ["maxAttempts"; "maxRetries"; "max_retries"; "baseDelayMs"; "maxDelayMs"; "initialBackoffMs"; "maximumBackoffMs";
   "enableRetryOn429"; "enableRetryOn5xx"; "enableRetryOnNetworkError"; "enableRetryOnParseError"; "structuredRepairRetry";
   "structuredRepair"; "retryNetwork"; "retryRateLimit"; "retryServerError"; "retryEmpty"; "retryParse"; "repairEscalation";
   "backupProfiles"; "retryPolicy"; "recoveryPolicy"; "repairInvalidOutput"; "jsonRepair"; "rerun"; "escalation";
   "cache"; "cacheMode"; "cacheVersion"; "search"; "webSearch"; "model"; "modelId"; "reasoningEffort"].

Definition ValidateProviderOptions (options : list (string * json)) : res goerror unit :=
  match List.find (fun key => bool_decide (is_Some (field key options))) recoveryControlKeys with
  | Some key => Err (EValidation ("providerOptions." +:+ key) "recovery controls belong in recoveryPolicy")
  | None => validateTargetProviderOptions options
  end.

(** ** Validation *)

Definition target_Validate (t : RecoveryTarget) (errField : string) (allowGeneration : bool) : res goerror unit :=
  let invalid message := EValidation errField message in
  let isModel := String.eqb (rt_Source t) "model" in
  let isGeneration := String.eqb (rt_Source t) "generation" in
  let? _ := fail_if (negb isModel && negb (allowGeneration && isGeneration))
              (invalid "source must be model or generation") in
  let? _ := fail_if (isModel && String.eqb (TrimSpace (rt_ModelID t)) "")
              (invalid "modelId is required for a model target") in
  let? _ := fail_if (isGeneration && (negb (String.eqb (rt_ConnectionID t) "") || negb (String.eqb (rt_ModelID t) "")
                      || negb (String.eqb (rt_ReasoningEffort t) "") || negb (options_len (rt_ProviderOptions t) =? 0)))
              (invalid "generation target cannot override request settings") in
  let? _ := fail_if ((128 <? slen (rt_ConnectionID t)) || negb (String.eqb (TrimSpace (rt_ConnectionID t)) (rt_ConnectionID t))
                      || (512 <? slen (rt_ModelID t)) || (128 <? slen (rt_ReasoningEffort t)))
              (invalid "target identifiers exceed their limits") in
  match rt_ProviderOptions t with
  | None => Ok tt
  | Some options =>
      match ValidateProviderOptions options with
      | Err e => Err (invalid (errorText e))
      | Ok _ =>
          match validateTargetProviderOptions options with
          | Err e => Err (invalid (errorText e))
          | Ok _ => Ok tt
          end
      end
  end.

Definition repair_Validate (plan : RepairPlan) (errField : string) : res goerror unit :=
  let? _ := target_Validate (rp_Initial plan) (errField +:+ ".initial") true in
  match rp_Escalation plan with
  | Some escalation => target_Validate escalation (errField +:+ ".escalation") true
  | None => Ok tt
  end.

Definition rerun_Validate (plan : RerunPlan) (errField : string) : res goerror unit :=
  let? _ := target_Validate (rr_Target plan) (errField +:+ ".target") false in
  let? _ := fail_if (negb (String.eqb (rt_Source (rr_Target plan)) "model"))
              (EValidation (errField +:+ ".target.source") "rerun target must be a model target") in
  match rr_JSONRepair plan with
  | Some repair => repair_Validate repair (errField +:+ ".jsonRepair")
  | None => Ok tt
  end.

(** The loop over [RetryOn]: [seen] is [policy.RetryOn[:index]]. *)
Fixpoint validateRetryOn (seen rest : list Category) : res goerror unit :=
  match rest with
  | [] => Ok tt
  | category :: rest =>
      let invalid message := EValidation "recoveryPolicy.retryOn" message in
      let? _ := fail_if (negb (str_in category retryCategories)) (invalid "contains an unsupported retry category") in
      let? _ := fail_if (str_in category seen) (invalid "categories must be unique") in
      validateRetryOn (seen ++ [category]) rest
  end.

Definition policy_Validate (policy : Policy) : res goerror unit :=
  let invalid errField message := EValidation ("recoveryPolicy." +:+ errField) message in
  let backoff := pol_Backoff policy in
  let? _ := fail_if ((MaxAttempts policy <? 1) || (10 <? MaxAttempts policy))
              (invalid "maxAttempts" "must be an integer from 1 through 10") in
  match RetryOn policy with
  | None => Err (invalid "retryOn" "must be an explicit array; use [] to disable retries")
  | Some retryOn =>
      let? _ := validateRetryOn [] retryOn in
      let? _ := fail_if ((BaseDelayMS backoff <? 0) || (60000 <? BaseDelayMS backoff))
                  (invalid "backoff.baseDelayMs" "must be an integer from 0 through 60000") in
      let? _ := fail_if ((MaxDelayMS backoff <? BaseDelayMS backoff) || (600000 <? MaxDelayMS backoff))
                  (invalid "backoff.maxDelayMs" "must be at least baseDelayMs and at most 600000") in
      let? _ := match JSONRepair policy with
                | Some repair => repair_Validate repair "recoveryPolicy.jsonRepair"
                | None => Ok tt end in
      match Rerun policy with
      | Some rerun => rerun_Validate rerun "recoveryPolicy.rerun"
      | None => Ok tt
      end
  end.

Definition DefaultMaxAttempts : Z := 4.
Definition DefaultBaseDelay : Duration := 500 * Millisecond.
Definition DefaultMaxDelay : Duration := 8 * Second.

Definition DefaultPolicy : Policy :=
  let generation := MkTarget "" "generation" "" "" None in
  {| MaxAttempts := DefaultMaxAttempts;
     RetryOn := Some [CategoryNetwork; CategoryRateLimit; CategoryServer; CategoryEmpty; CategoryProvider];
     pol_Backoff := {| BaseDelayMS := Milliseconds DefaultBaseDelay; MaxDelayMS := Milliseconds DefaultMaxDelay |};
     JSONRepair := Some {| rp_Initial := generation; rp_Escalation := Some generation |};
     Rerun := None;
     explicitPlan := true |}.

Definition Allows (policy : Policy) (category : Category) : bool :=
  str_in category (default [] (RetryOn policy)).

(** ** Classification *)

Record Classification := MkClassification {
  cl_Retryable : bool;
  cl_Category : Category;
  cl_Status : Z;
  cl_RetryAfter : Duration;
  cl_Code : string;
  cl_Type : string;
  cl_ProviderRequestID : string;
}.

Definition nonnegativeDuration (value : Duration) : Duration := Z.max value 0.

Definition categoryForCode (code : string) : Category :=
  let code := ToLower (TrimSpace code) in
  if str_in code ["etimedout"; "econnreset"; "enotfound"; "eai_again"; "epipe"; "econnaborted"; "network_error";
                  "web_search_network"; "provider_response_read"] then CategoryNetwork
  else if str_in code ["empty_response"; "web_search_empty"] then CategoryEmpty
  else if str_in code ["provider_retry"] then CategoryProvider
  else if str_in code ["server_is_overloaded"; "service_unavailable"; "server_error"] then CategoryServer
  else if str_in code ["provider_refusal"; "web_search_tool_error"] then CategoryRefusal
  else if str_in code ["structured_parse"] then CategoryParse
  else if str_in code ["provider_request_timeout"; "web_search_timeout"] then CategoryTimeout
  else CategoryOther.

Definition plain_classification (category : Category) : Classification :=
  MkClassification false category 0 0 "" "" "".

(** The retryable condition both classified branches of [Classify] use. *)
Definition retryableCategory (policy : Policy) (category : Category) : bool :=
  Allows policy category && negb (String.eqb category CategoryOther) && negb (String.eqb category CategoryParse)
  && negb (String.eqb category CategoryRefusal) && negb (String.eqb category CategoryTimeout)
  && negb (String.eqb category CategoryCanceled).

Definition Classify (err : option goerror) (policy : Policy) : Classification :=
  match err with
  | None => plain_classification CategorySuccess
  | Some err =>
      if isCanceled err then plain_classification CategoryCanceled
      else if isDeadline err then plain_classification CategoryTimeout
      else match asProvider err with
      | None => plain_classification CategoryOther
      | Some (_, pe) =>
          let metadata category retryable :=
            MkClassification retryable category (pe_Status pe) (nonnegativeDuration (pe_RetryAfter pe))
              (pe_Code pe) (pe_Type pe) (pe_ProviderRequestID pe) in
          if negb (String.eqb (pe_Category pe) "") then
            metadata (pe_Category pe) (retryableCategory policy (pe_Category pe))
          else if pe_Status pe =? 429 then
            metadata CategoryRateLimit (Allows policy CategoryRateLimit)
          else if (500 <=? pe_Status pe) && (pe_Status pe <=? 599) then
            metadata CategoryServer (Allows policy CategoryServer)
          else if negb (pe_Status pe =? 0) && ((pe_Status pe <? 200) || (299 <? pe_Status pe)) then
            metadata CategoryOther false
          else
            let category := categoryForCode (pe_Code pe) in
            if String.eqb category CategoryParse then metadata CategoryParse false
            else metadata category (retryableCategory policy category)
      end
  end.

(** ** Backoff *)

Definition clampRandom (value : float64) : float64 :=
  if IsNaN value || IsInf value || fltb value fzero then fzero
  else if fltb (f64_of_Z 1) value then f64_of_Z 1
  else value.

(** The doubling loop; [steps] iterations of [step] are left. *)
Fixpoint delay_window (steps : nat) (window maximum : Z) : Z :=
  match steps with
  | O => window
  | S steps =>
      if window <? maximum then
        if Z.quot maximum 2 <? window then maximum
        else delay_window steps (wrap64 (window * 2)) maximum
      else window
  end.

Definition initial_window (backoff : Backoff) : Z :=
  let window := Z.max (BaseDelayMS backoff) 0 in
  let maximum := Z.max (MaxDelayMS backoff) 0 in
  if maximum <? window then maximum else window.

Definition Delay (attempt : Z) (retryAfter : Duration) (backoff : Backoff) (random : float64) : Duration :=
  let maximum := Z.max (MaxDelayMS backoff) 0 in
  let window := delay_window (Z.to_nat (Z.max attempt 1 - 1)) (initial_window backoff) maximum in
  let jitter := f64_to_int64 (ffloor (fmul (f64_of_Z window) (clampRandom random))) in
  let delay := wrap64 (jitter * Millisecond) in
  Z.max delay (nonnegativeDuration retryAfter).

(** ** Backoff: the window doubles until it reaches the maximum *)

Lemma delay_window_spec n w m :
  0 ≤ w ≤ m → m ≤ 2 ^ 62 → delay_window n w m = Z.min m (w * 2 ^ Z.of_nat n).
Proof.
  revert w. induction n as [|n IH]; intros w Hw Hm; [cbn; lia|].
  rewrite Nat2Z.inj_succ, Z.pow_succ_r by lia. cbn [delay_window].
  assert (0 < 2 ^ Z.of_nat n) by (apply Z.pow_pos_nonneg; lia).
  destruct (Z.ltb_spec w m); [|nia].
  rewrite Z.quot_div_nonneg by lia.
  pose proof (Z.div_mod m 2 ltac:(lia)). pose proof (Z.mod_pos_bound m 2 ltac:(lia)).
  destruct (Z.ltb_spec (m / 2) w) as [Hq|Hq]; [nia|].
  rewrite wrap64_id by (unfold in_int64, int64_min, int64_max; lia).
  rewrite IH by lia. f_equal. lia.
Qed.

Lemma clampRandom_unit r :
  valid_binary f64_prec f64_emax r = true → unit_float (clampRandom r).
Proof.
  intros Hv. unfold clampRandom.
  destruct (IsNaN r || IsInf r || fltb r fzero) eqn:E; [by split_and!|].
  destruct (fltb (f64_of_Z 1) r) eqn:E1; [by split_and!|].
  split_and!; [done| |done]. unfold fvalid. by rewrite E.
Qed.

(** ** What a valid policy is *)

(** A secret key at some depth of a JSON value. *)
Inductive HasSecretKey : json → Prop :=
| secret_here k v l : (k, v) ∈ l → secretKey k = true → HasSecretKey (JObj l)
| secret_object k v l : (k, v) ∈ l → HasSecretKey v → HasSecretKey (JObj l)
| secret_array v l : v ∈ l → HasSecretKey v → HasSecretKey (JArr l).

Definition OptionsWF (options : list (string * json)) : Prop :=
  (∀ key, key ∈ recoveryControlKeys → field key options = None)
  ∧ slen (Marshal (JObj options)) ≤ 32768
  ∧ ¬ HasSecretKey (JObj options).

Definition TargetWF (allowGeneration : bool) (t : RecoveryTarget) : Prop :=
  ((rt_Source t = "model" ∧ TrimSpace (rt_ModelID t) ≠ "")
   ∨ (allowGeneration = true ∧ rt_Source t = "generation" ∧ rt_ConnectionID t = "" ∧ rt_ModelID t = ""
      ∧ rt_ReasoningEffort t = "" ∧ default [] (rt_ProviderOptions t) = []))
  ∧ slen (rt_ConnectionID t) ≤ 128 ∧ TrimSpace (rt_ConnectionID t) = rt_ConnectionID t
  ∧ slen (rt_ModelID t) ≤ 512 ∧ slen (rt_ReasoningEffort t) ≤ 128
  ∧ (∀ options, rt_ProviderOptions t = Some options → OptionsWF options).

Definition RepairWF (plan : RepairPlan) : Prop :=
  TargetWF true (rp_Initial plan) ∧ (∀ t, rp_Escalation plan = Some t → TargetWF true t).

Definition RerunWF (plan : RerunPlan) : Prop :=
  TargetWF false (rr_Target plan) ∧ (∀ r, rr_JSONRepair plan = Some r → RepairWF r).

Definition PolicyWF (policy : Policy) : Prop :=
  1 ≤ MaxAttempts policy ≤ 10
  ∧ (∃ l, RetryOn policy = Some l ∧ NoDup l ∧ ∀ c, c ∈ l → c ∈ retryCategories)
  ∧ 0 ≤ BaseDelayMS (pol_Backoff policy) ≤ 60000
  ∧ BaseDelayMS (pol_Backoff policy) ≤ MaxDelayMS (pol_Backoff policy) ≤ 600000
  ∧ (∀ r, JSONRepair policy = Some r → RepairWF r)
  ∧ (∀ r, Rerun policy = Some r → RerunWF r).

Lemma containsRecoverySecretKey_iff value :
  containsRecoverySecretKey value = true ↔ HasSecretKey value.
Proof.
  induction value as [| | | |l IH|l IH] using json_rec'; cbn;
    try (split; [done | by inversion 1]); rewrite existsb_exists; rewrite Forall_elem in IH.
  - split.
    + intros (v & Hv%list_elem_of_In & H). apply (secret_array v); [done|]. by apply IH.
    + inversion 1 as [| |v ? Hv Hs]; subst. exists v.
      rewrite <- list_elem_of_In. split; [done|]. by apply IH.
  - split.
    + intros ([k v] & Hv%list_elem_of_In & [H|H]%orb_true_iff).
      * by apply (secret_here k v).
      * apply (secret_object k v); [done|]. by apply (IH (k, v)).
    + inversion 1 as [k v ? Hv Hs|k v ? Hv Hs|]; subst; exists (k, v);
        rewrite <- list_elem_of_In; (split; [done|]); cbn; apply orb_true_iff; [by left|right].
      by apply (IH (k, v)).
Qed.

Lemma validateTargetProviderOptions_iff options :
  validateTargetProviderOptions options = Ok tt
  ↔ slen (Marshal (JObj options)) ≤ 32768 ∧ ¬ HasSecretKey (JObj options).
Proof.
  unfold validateTargetProviderOptions. rewrite fail_if_then_ok, fail_if_ok.
  by rewrite Z.ltb_ge, <- containsRecoverySecretKey_iff, not_true_iff_false.
Qed.

Lemma ValidateProviderOptions_iff options :
  ValidateProviderOptions options = Ok tt ↔ OptionsWF options.
Proof.
  unfold ValidateProviderOptions, OptionsWF.
  destruct (List.find _ recoveryControlKeys) as [key|] eqn:E.
  - apply List.find_some in E as [Hin%list_elem_of_In [v Hv]%bool_decide_eq_true].
    split; [done|]. intros [H _]. specialize (H key Hin). congruence.
  - rewrite validateTargetProviderOptions_iff. split; [|naive_solver].
    intros H. split; [|done]. intros key Hin%list_elem_of_In.
    apply (List.find_none _ _ E) in Hin as Hn%bool_decide_eq_false.
    by apply eq_None_not_Some.
Qed.

Lemma options_len_zero o : (options_len o =? 0) = true ↔ default [] o = [].
Proof.
  unfold options_len, llen. rewrite Z.eqb_eq.
  destruct (default [] o); cbn; split; try done; lia.
Qed.

(** The two option checks of [RecoveryTarget.Validate] amount to the first. *)
Lemma target_options_iff t invalid :
  match rt_ProviderOptions t with
  | None => Ok tt
  | Some options =>
      match ValidateProviderOptions options with
      | Err e => Err (EValidation invalid (errorText e))
      | Ok _ =>
          match validateTargetProviderOptions options with
          | Err e => Err (EValidation invalid (errorText e))
          | Ok _ => Ok tt
          end
      end
  end = Ok tt ↔ ∀ options, rt_ProviderOptions t = Some options → OptionsWF options.
Proof.
  destruct (rt_ProviderOptions t) as [options|]; [|by split].
  assert ((∀ o, Some options = Some o → OptionsWF o) ↔ OptionsWF options) as -> by naive_solver.
  destruct (ValidateProviderOptions options) as [[]|e] eqn:E.
  - pose proof (proj1 (ValidateProviderOptions_iff options) E) as H.
    by rewrite (proj2 (validateTargetProviderOptions_iff options) (proj2 H)).
  - rewrite <- ValidateProviderOptions_iff. by rewrite E.
Qed.

Lemma target_Validate_iff t errField allowGeneration :
  target_Validate t errField allowGeneration = Ok tt ↔ TargetWF allowGeneration t.
Proof.
  unfold target_Validate, TargetWF. cbn zeta.
  rewrite !fail_if_then_ok, target_options_iff, !orb_false_iff, !Z.ltb_ge, !negb_false_iff, String.eqb_eq.
  destruct (String.eqb_spec (rt_Source t) "model") as [Em|Nm]; cbn [andb orb negb].
  - rewrite Em. cbn [String.eqb]. rewrite String.eqb_neq. naive_solver.
  - destruct (String.eqb_spec (rt_Source t) "generation") as [Eg|Ng]; cbn [andb orb negb].
    + rewrite !orb_false_iff, !negb_false_iff, !String.eqb_eq, options_len_zero.
      destruct allowGeneration; naive_solver.
    + rewrite andb_false_r. naive_solver.
Qed.

Lemma repair_Validate_iff plan errField : repair_Validate plan errField = Ok tt ↔ RepairWF plan.
Proof.
  unfold repair_Validate, RepairWF. rewrite check_then_ok, target_Validate_iff.
  destruct (rp_Escalation plan); [rewrite target_Validate_iff|]; naive_solver.
Qed.

Lemma rerun_Validate_iff plan errField : rerun_Validate plan errField = Ok tt ↔ RerunWF plan.
Proof.
  unfold rerun_Validate, RerunWF.
  rewrite check_then_ok, fail_if_then_ok, target_Validate_iff, negb_false_iff, String.eqb_eq.
  destruct (rr_JSONRepair plan); [rewrite repair_Validate_iff|]; unfold TargetWF; naive_solver.
Qed.

Lemma validateRetryOn_iff seen rest :
  validateRetryOn seen rest = Ok tt
  ↔ NoDup rest ∧ (∀ c, c ∈ rest → c ∈ retryCategories ∧ c ∉ seen).
Proof.
  revert seen. induction rest as [|c rest IH]; intros seen; cbn [validateRetryOn].
  { split; [|done]. intros _. split; [constructor|]. set_solver. }
  rewrite !fail_if_then_ok, IH, negb_false_iff, str_in_spec, <- not_true_iff_false, str_in_spec, NoDup_cons.
  set_solver.
Qed.

Lemma policy_Validate_iff policy : policy_Validate policy = Ok tt ↔ PolicyWF policy.
Proof.
  unfold policy_Validate, PolicyWF. cbn zeta. rewrite fail_if_then_ok, orb_false_iff, !Z.ltb_ge.
  destruct (RetryOn policy) as [l|]; [|split; [naive_solver|intros (_ & (? & ? & _) & _); done]].
  rewrite !check_then_ok, !fail_if_ok, validateRetryOn_iff, !orb_false_iff, !Z.ltb_ge.
  assert ((match JSONRepair policy with
           | Some repair => repair_Validate repair "recoveryPolicy.jsonRepair"
           | None => Ok tt end = Ok tt) ↔ ∀ r, JSONRepair policy = Some r → RepairWF r) as ->.
  { destruct (JSONRepair policy); [rewrite repair_Validate_iff|]; naive_solver. }
  assert ((match Rerun policy with
           | Some rerun => rerun_Validate rerun "recoveryPolicy.rerun"
           | None => Ok tt end = Ok tt) ↔ ∀ r, Rerun policy = Some r → RerunWF r) as ->.
  { destruct (Rerun policy); [rewrite rerun_Validate_iff|]; naive_solver. }
  assert ((∃ l0, Some l = Some l0 ∧ NoDup l0 ∧ ∀ c, c ∈ l0 → c ∈ retryCategories)
    ↔ NoDup l ∧ ∀ c, c ∈ l → c ∈ retryCategories ∧ c ∉ []) as -> by set_solver.
  tauto.
Qed.

(** ** Properties *)

(** For a policy that validates, the wait before the next attempt is never
    shorter than the provider's Retry-After and never longer than the larger of
    the Retry-After and the exponential window
    [min(maxDelayMs, baseDelayMs * 2^(attempt-1))]: the doubling loop neither
    overflows nor exceeds the maximum, whatever the random source returns. *)
Theorem Delay_bounds policy attempt retryAfter random :
  policy_Validate policy = Ok tt →
  valid_binary f64_prec f64_emax random = true →
  let b := pol_Backoff policy in
  let window := Z.min (MaxDelayMS b) (BaseDelayMS b * 2 ^ (Z.max attempt 1 - 1)) in
  Z.max retryAfter 0 ≤ Delay attempt retryAfter b random
    ≤ Z.max (window * Millisecond) (Z.max retryAfter 0).
Proof.
  intros (_ & _ & Hb & Hm & _)%policy_Validate_iff Hr. cbn zeta.
  unfold Delay, initial_window, nonnegativeDuration, Millisecond. cbn zeta.
  set (b := pol_Backoff policy) in *.
  rewrite (Z.max_l (BaseDelayMS b) 0), (Z.max_l (MaxDelayMS b) 0) by lia. destruct (Z.ltb_spec (MaxDelayMS b) (BaseDelayMS b)); [lia|].
  rewrite delay_window_spec by lia. rewrite Z2Nat.id by lia.
  assert (0 < 2 ^ (Z.max attempt 1 - 1)) by (apply Z.pow_pos_nonneg; lia).
  set (w := Z.min _ _).
  assert (0 ≤ w ≤ 600000) as Hw by nia.
  pose proof (scaled_floor_bound w (clampRandom random) ltac:(lia) (clampRandom_unit random Hr)).
  rewrite wrap64_id by (unfold in_int64, int64_min, int64_max; lia). lia.
Qed.

Lemma Delay_bounds_witness :
  Delay 3 0 (pol_Backoff DefaultPolicy) (f64_of_Z 1) ≤ 2000 * Millisecond.
Proof.
  refine (Z.le_trans _ _ _ (proj2 (Delay_bounds DefaultPolicy 3 0 (f64_of_Z 1) _ _)) _);
    [vm_compute; reflexivity | vm_compute; reflexivity | vm_compute; discriminate].
Defined.

Lemma retryableCategory_sound policy category :
  PolicyWF policy → retryableCategory policy category = true →
  category ∈ default [] (RetryOn policy) ∧ category ∈ retryCategories.
Proof.
  intros (_ & (l & El & _ & Hl) & _) H. unfold retryableCategory, Allows in H.
  bool_to_prop. rewrite El in *. apply str_in_spec in H. eauto.
Qed.

Lemma Allows_sound policy category :
  PolicyWF policy → Allows policy category = true →
  category ∈ default [] (RetryOn policy) ∧ category ∈ retryCategories.
Proof.
  intros (_ & (l & El & _ & Hl) & _) H. unfold Allows in H.
  rewrite El in *. apply str_in_spec in H. eauto.
Qed.

(** A failure is retried only when it is a provider failure that neither
    cancellation nor a deadline caused, and only in a category that the policy
    lists and that is one of the five transient categories: parse errors,
    refusals, timeouts, cancellations and unclassified failures never are. *)
Theorem Classify_retryable_sound policy err :
  policy_Validate policy = Ok tt →
  cl_Retryable (Classify err policy) = true →
  ∃ e cause pe, err = Some e ∧ isCanceled e = false ∧ isDeadline e = false
    ∧ asProvider e = Some (cause, pe)
    ∧ cl_Category (Classify err policy) ∈ default [] (RetryOn policy)
    ∧ cl_Category (Classify err policy) ∈ retryCategories.
Proof.
  intros Hp%policy_Validate_iff H. destruct err as [e|]; [|done]. cbn in *.
  destruct (isCanceled e) eqn:Ec; [done|]. destruct (isDeadline e) eqn:Ed; [done|].
  destruct (asProvider e) as [[cause pe]|] eqn:Ep; [|done].
  exists e, cause, pe. do 4 (split; [done|]).
  revert H. repeat (split_if; [solve [by apply Allows_sound | by apply retryableCategory_sound | done]|]).
  by apply retryableCategory_sound.
Qed.

Lemma Classify_retryable_sound_witness :
  let err := Some (EWrap "call: " (EProvider None (MkProviderError "" "" "" "" "" 503 0))) in
  cl_Category (Classify err DefaultPolicy) ∈ retryCategories.
Proof.
  intros err. destruct (Classify_retryable_sound DefaultPolicy err) as (? & ? & ? & H).
  - vm_compute; reflexivity.
  - vm_compute; reflexivity.
  - apply H.
Defined.

(** [Policy.Validate] accepts exactly the well-formed policies: an attempt
    budget of 1 to 10, distinct transient categories, ordered and bounded
    delays, and recovery targets that name a model or defer to the generation,
    with no recovery control and no credential at any depth of their options. *)
Theorem policy_Validate_correct policy : policy_Validate policy = Ok tt ↔ PolicyWF policy.
Proof. apply policy_Validate_iff. Qed.

(** The credential scan of provider options finds a secret key exactly when
    one occurs at some depth of the nested objects and arrays. *)
Theorem containsRecoverySecretKey_correct value :
  containsRecoverySecretKey value = true ↔ HasSecretKey value.
Proof. apply containsRecoverySecretKey_iff. Qed.
