(* ===== verification/RetryJson.v ===== *)
(** * RetryJson: the JSON form of recovery policies

    Models the [UnmarshalJSON] and [MarshalJSON] methods of
    [src/internal/retry/retry.go].  They work on decoded values: the argument of
    an [UnmarshalJSON] is the value [data] holds, [None] when [data] is not one
    JSON text, and a policy is encoded to the value whose text is written.  (With
    one value in [data] the second [Decode] always reports the end of the input.)

    The decoding of structs is the one of [encoding/json] with unknown fields
    disallowed: members in document order, field names matched up to case, null
    a no-op for strings and integers, a member that repeats decoded again over
    the first.  A number decoded into an [any] becomes a [float64];
    [float_literal] gives the literal that the encoder prints for it, [None]
    when it is out of range. *)
From Stdlib Require Import Ascii.
From stdpp Require Import pretty.
From S2P Require Import Prelude Float64 Json JsonText Retry.

Open Scope string_scope.
Open Scope list_scope.
Open Scope Z_scope.

(** ** Decoding *)

(** The raw members of an object, [map[string]json.RawMessage]: the last of a
    repeated member counts. *)
Definition raw_field (key : string) (entries : list (string * json)) : option json := field key (rev entries).

(** A struct's fields with the decoders of their types. *)
Definition Fields (S : Type) : Type := list (string * (S → json → option S)).

Definition find_decoder {S : Type} (fields : Fields S) (key : string) : option (S → json → option S) :=
  snd <$> List.find (fun f => String.eqb (fold_case f.1) (fold_case key)) fields.

Definition decode_member {S : Type} (fields : Fields S) (acc : option S) (member : string * json) : option S :=
  s ← acc; decoder ← find_decoder fields member.1; decoder s member.2.

Definition decode_struct {S : Type} (fields : Fields S) (zero : S) (entries : list (string * json)) : option S :=
  foldl (decode_member fields) (Some zero) entries.

Definition decode_string {S : Type} (set : string → S → S) (s : S) (j : json) : option S :=
  match j with JNull => Some s | JStr v => Some (set v s) | _ => None end.

Definition decode_int {S : Type} (set : Z → S → S) (s : S) (j : json) : option S :=
  match j with JNull => Some s | JNum n => z ← ParseInt n; Some (set z s) | _ => None end.

(** A field whose type has an [UnmarshalJSON], by value and by pointer. *)
Definition decode_value {S A : Type} (unmarshal : json → res goerror A) (set : A → S → S) (s : S) (j : json) : option S :=
  match unmarshal j with Ok a => Some (set a s) | Err _ => None end.
Definition decode_pointer {S A : Type} (unmarshal : json → res goerror A) (set : option A → S → S) (s : S) (j : json)
  : option S :=
  match j with
  | JNull => Some (set None s)
  | _ => match unmarshal j with Ok a => Some (set (Some a) s) | Err _ => None end
  end.

(** The elements of a [[]Category]; a null keeps the element it overwrites. *)
Fixpoint decode_categories (old : list Category) (l : list json) : option (list Category) :=
  match l with
  | [] => Some []
  | j :: rest =>
      category ← (match j with JNull => Some (default "" (head old)) | JStr c => Some c | _ => None end);
      tail' ← decode_categories (tail old) rest;
      Some (category :: tail')
  end.

Section Wire.
Variable float_literal : string → option string.

(** A value decoded into an [any]. *)
Fixpoint decode_any (j : json) : option json :=
  match j with
  | JNum n => JNum <$> float_literal n
  | JArr l =>
      JArr <$> (fix go (l : list json) : option (list json) :=
        match l with
        | [] => Some []
        | x :: r => y ← decode_any x; r' ← go r; Some (y :: r')
        end) l
  | JObj l =>
      JObj <$> (fix go (l m : list (string * json)) : option (list (string * json)) :=
        match l with
        | [] => Some m
        | (k, x) :: r => y ← decode_any x; go r (put m (k, y))
        end) l []
  | _ => Some j
  end.

(** The two inner loops of [decode_any], by name: the elements of an array, and
    the members of an object decoded into the map [m]. *)
Fixpoint decode_elements (l : list json) : option (list json) :=
  match l with
  | [] => Some []
  | x :: r => y ← decode_any x; r' ← decode_elements r; Some (y :: r')
  end.
Fixpoint decode_members (l m : list (string * json)) : option (list (string * json)) :=
  match l with
  | [] => Some m
  | (k, x) :: r => y ← decode_any x; decode_members r (put m (k, y))
  end.

(** A [map[string]any] field. *)
Definition decode_options (old : option (list (string * json))) (j : json) : option (option (list (string * json))) :=
  match j with
  | JNull => Some None
  | JObj l => Some <$> decode_members l (default [] old)
  | _ => None
  end.

Definition zeroRecoveryTarget : RecoveryTarget := MkTarget "" "" "" "" None.

Definition target_fields : Fields RecoveryTarget :=
  [("source", decode_string (fun v t => t <| rt_Source := v |>));
   ("upstream", decode_string (fun v t => t <| rt_ConnectionID := v |>));
   ("modelId", decode_string (fun v t => t <| rt_ModelID := v |>));
   ("reasoningEffort", decode_string (fun v t => t <| rt_ReasoningEffort := v |>));
   ("providerOptions", fun t j => o ← decode_options (rt_ProviderOptions t) j; Some (t <| rt_ProviderOptions := o |>))].

(** Members that must be present, and the fields decoded when they are. *)
Definition unmarshal_object {S : Type} (name : string) (objectMessage : string) (required : list string)
    (fields : Fields S) (zero : S) (data : option json) : res goerror S :=
  match data with
  | Some (JObj entries) =>
      match List.find (fun key => bool_decide (raw_field key entries = None)) required with
      | Some key => Err (EValidation (name +:+ "." +:+ key) "is required")
      | None =>
          match decode_struct fields zero entries with
          | Some s => Ok s
          | None => Err (EValidation name "has an unknown field or invalid value type")
          end
      end
  | _ => Err (EValidation name objectMessage)
  end.

Definition target_UnmarshalJSON (data : option json) : res goerror RecoveryTarget :=
  unmarshal_object "recoveryTarget" "must be an object" ["source"] target_fields zeroRecoveryTarget data.

Definition repair_fields : Fields RepairPlan :=
  [("initial", decode_value (fun j => target_UnmarshalJSON (Some j)) (fun t p => p <| rp_Initial := t |>));
   ("escalation", decode_pointer (fun j => target_UnmarshalJSON (Some j)) (fun t p => p <| rp_Escalation := t |>))].

Definition repair_UnmarshalJSON (data : option json) : res goerror RepairPlan :=
  unmarshal_object "repairPlan" "must be an object" ["initial"; "escalation"] repair_fields
    (MkRepairPlan zeroRecoveryTarget None) data.

Definition rerun_fields : Fields RerunPlan :=
  [("target", decode_value (fun j => target_UnmarshalJSON (Some j)) (fun t p => p <| rr_Target := t |>));
   ("jsonRepair", decode_pointer (fun j => repair_UnmarshalJSON (Some j)) (fun r p => p <| rr_JSONRepair := r |>))].

Definition rerun_UnmarshalJSON (data : option json) : res goerror RerunPlan :=
  unmarshal_object "rerun" "must be an object or null" ["target"; "jsonRepair"] rerun_fields
    (MkRerunPlan zeroRecoveryTarget None) data.

Definition backoff_fields : Fields Backoff :=
  [("baseDelayMs", decode_int (fun v b => b <| BaseDelayMS := v |>));
   ("maxDelayMs", decode_int (fun v b => b <| MaxDelayMS := v |>))].

(** A required member that is absent or null. *)
Definition missing (entries : list (string * json)) (key : string) : bool :=
  match raw_field key entries with None | Some JNull => true | Some _ => false end.

(** [decodeRequired]; a null leaves the object nil, so that its members are missing. *)
Definition decodeRequired {S : Type} (prefix : string) (required : list string) (fields : Fields S) (zero : S)
    (data : option json) : res goerror S :=
  match (match data with Some (JObj entries) => Some entries | Some JNull => Some [] | _ => None end) with
  | None => Err (EValidation prefix "must be an object")
  | Some entries =>
      match List.find (missing entries) required with
      | Some key => Err (EValidation (prefix +:+ "." +:+ key) "is required")
      | None =>
          match decode_struct fields zero entries with
          | Some s => Ok s
          | None => Err (EValidation prefix "has an unknown field or invalid value type")
          end
      end
  end.

Definition backoff_UnmarshalJSON (data : option json) : res goerror Backoff :=
  decodeRequired "recoveryPolicy.backoff" ["baseDelayMs"; "maxDelayMs"] backoff_fields (MkBackoff 0 0) data.

Definition policy_fields : Fields Policy :=
  [("maxAttempts", decode_int (fun v p => p <| MaxAttempts := v |>));
   ("retryOn", fun p j =>
      match j with
      | JNull => Some (p <| RetryOn := None |>)
      | JArr l => c ← decode_categories (default [] (RetryOn p)) l; Some (p <| RetryOn := Some c |>)
      | _ => None
      end);
   ("backoff", decode_value (fun j => backoff_UnmarshalJSON (Some j)) (fun b p => p <| pol_Backoff := b |>));
   ("jsonRepair", decode_pointer (fun j => repair_UnmarshalJSON (Some j)) (fun r p => p <| JSONRepair := r |>));
   ("rerun", decode_pointer (fun j => rerun_UnmarshalJSON (Some j)) (fun r p => p <| Rerun := r |>))].

(** The members of [Policy.UnmarshalJSON] that must be present, in its order. *)
Definition policy_missing (entries : list (string * json)) (key : string) : bool :=
  match raw_field key entries with
  | None => true
  | Some JNull => negb (String.eqb key "jsonRepair") && negb (String.eqb key "rerun")
  | Some _ => false
  end.

Definition policy_UnmarshalJSON (data : option json) : res goerror Policy :=
  match data with
  | Some (JObj entries) =>
      match List.find (policy_missing entries) ["maxAttempts"; "retryOn"; "jsonRepair"; "rerun"; "backoff"] with
      | Some key => Err (EValidation ("recoveryPolicy." +:+ key) "is required")
      | None =>
          match decode_struct policy_fields (MkPolicy 0 None (MkBackoff 0 0) None None true) entries with
          | None => Err (EValidation "recoveryPolicy" "has an unknown field or invalid value type")
          | Some result => let? _ := policy_Validate result in Ok result
          end
      end
  | _ => Err (EValidation "recoveryPolicy" "must be an object")
  end.
End Wire.

(** ** Encoding *)

Definition omitempty (key value : string) : list (string * json) :=
  if String.eqb value "" then [] else [(key, JStr value)].

Definition target_json (t : RecoveryTarget) : json :=
  JObj (omitempty "upstream" (rt_ConnectionID t) ++ [("source", JStr (rt_Source t))]
        ++ omitempty "modelId" (rt_ModelID t) ++ omitempty "reasoningEffort" (rt_ReasoningEffort t)
        ++ match rt_ProviderOptions t with
           | None | Some [] => []
           | Some o => [("providerOptions", JObj o)]
           end).

Definition nullable {A : Type} (encode : A → json) (o : option A) : json :=
  match o with Some a => encode a | None => JNull end.

Definition repair_json (p : RepairPlan) : json :=
  JObj [("initial", target_json (rp_Initial p)); ("escalation", nullable target_json (rp_Escalation p))].
Definition rerun_json (p : RerunPlan) : json :=
  JObj [("target", target_json (rr_Target p)); ("jsonRepair", nullable repair_json (rr_JSONRepair p))].
Definition backoff_json (b : Backoff) : json :=
  JObj [("baseDelayMs", JNum (pretty (BaseDelayMS b))); ("maxDelayMs", JNum (pretty (MaxDelayMS b)))].

(** [Policy.MarshalJSON] *)
Definition policy_MarshalJSON (p : Policy) : json :=
  JObj [("maxAttempts", JNum (pretty (MaxAttempts p)));
        ("retryOn", nullable (fun l => JArr (map JStr l)) (RetryOn p));
        ("backoff", backoff_json (pol_Backoff p));
        ("jsonRepair", nullable repair_json (JSONRepair p));
        ("rerun", nullable rerun_json (Rerun p))].

(** ** Integers *)

Lemma digits_value_step acc a r :
  between 48 57 (nat_of_ascii a) = true →
  digits_value acc (String a r) = digits_value (acc * 10 + Z.of_nat (nat_of_ascii a - 48)) r.
Proof. intros H. cbn [digits_value]. by rewrite H. Qed.

Lemma pretty_N_char_digit d :
  (d < 10)%N →
  between 48 57 (nat_of_ascii (pretty_N_char d)) = true
  ∧ Z.of_nat (nat_of_ascii (pretty_N_char d) - 48) = Z.of_N d.
Proof.
  intros H.
  assert (d = 0 ∨ d = 1 ∨ d = 2 ∨ d = 3 ∨ d = 4 ∨ d = 5 ∨ d = 6 ∨ d = 7 ∨ d = 8 ∨ d = 9)%N as Hd by lia.
  repeat (destruct Hd as [->|Hd]; [by vm_compute|]). by subst.
Qed.

Lemma digits_value_pretty_go x s : digits_value 0 (pretty_N_go x s) = digits_value (Z.of_N x) s.
Proof.
  revert s. induction (N.lt_wf_0 x) as [x _ IH]. intros s.
  assert (x = 0 ∨ 0 < x)%N as [->|Hx] by lia; [by rewrite pretty_N_go_0|].
  rewrite pretty_N_go_step, IH by (done || by apply N.div_lt).
  destruct (pretty_N_char_digit (x mod 10)) as [Hb Hv]; [by apply N.mod_lt|].
  rewrite digits_value_step, Hv by done. f_equal.
  pose proof (N.div_mod x 10). lia.
Qed.

Lemma digits_value_pretty (n : N) : digits_value 0 (pretty n) = Some (Z.of_N n).
Proof.
  unfold pretty, pretty_N. case_decide as E; [by subst|]. by rewrite digits_value_pretty_go.
Qed.

Lemma pretty_N_head (n : N) : ∃ a r, pretty n = String a r ∧ Ascii.eqb a "-" = false.
Proof.
  assert (pretty n ≠ "") as Hne.
  { intros E. pose proof (digits_value_pretty n) as H. unfold pretty, pretty_N in E.
    case_decide; [done|]. rewrite pretty_N_go_step in E by lia.
    assert (∀ x s, pretty_N_go x s = "" → s = "") as Hgo.
    { intros x. induction (N.lt_wf_0 x) as [x _ IH]. intros s.
      assert (x = 0 ∨ 0 < x)%N as [->|Hx] by lia; [by rewrite pretty_N_go_0|].
      rewrite pretty_N_go_step by done. intros Hs%IH; [done|]. by apply N.div_lt. }
    by apply Hgo in E. }
  destruct (pretty n) as [|a r] eqn:E; [done|]. exists a, r. split; [done|].
  destruct (Ascii.eqb_spec a "-") as [->|]; [|done].
  pose proof (digits_value_pretty n) as H. rewrite E in H. discriminate H.
Qed.

Lemma ParseInt_pretty z : in_int64 z → ParseInt (pretty z) = Some z.
Proof.
  intros [H1 H2]. assert (in_range z = Some z) as Hr.
  { unfold in_range. by rewrite (proj2 (Z.leb_le _ _) H1), (proj2 (Z.leb_le _ _) H2). }
  destruct z as [|p|p]; [done| |].
  - change (pretty (Z.pos p)) with (pretty (N.pos p)). unfold ParseInt.
    pose proof (digits_value_pretty (N.pos p)) as E.
    destruct (pretty_N_head (N.pos p)) as (a & r & Ep & Ha). rewrite Ep in *. rewrite Ha.
    transitivity (Some (Z.of_N (N.pos p)) ≫= in_range); [|exact Hr]. by rewrite <- E.
  - change (pretty (Z.neg p)) with ("-" +:+ pretty (N.pos p)). cbn [String.append ParseInt]. cbn [Ascii.eqb Bool.eqb].
    pose proof (digits_value_pretty (N.pos p)) as E.
    destruct (pretty_N_head (N.pos p)) as (a & r & Ep & _). rewrite Ep in *.
    transitivity (Some (Z.of_N (N.pos p)) ≫= (fun z => in_range (- z))); [|exact Hr]. by rewrite <- E.
Qed.

(** ** Dynamic values *)

Section Laws.
Variable float_literal : string → option string.
Hypothesis float_literal_stable : ∀ n m, float_literal n = Some m → float_literal m = Some m.

Local Abbreviation decode_any := (decode_any float_literal).
Local Abbreviation decode_members := (decode_members float_literal).

(** The values that decode to themselves: what a decoder produces. *)
Definition wire (j : json) : Prop := decode_any j = Some j.
Definition wire_members (m : list (string * json)) : Prop :=
  NoDup (map fst m) ∧ Forall (fun kv => wire kv.2) m.

Lemma decode_any_arr l : decode_any (JArr l) = JArr <$> decode_elements float_literal l.
Proof. reflexivity. Qed.

Lemma decode_any_obj l : decode_any (JObj l) = JObj <$> decode_members l [].
Proof. reflexivity. Qed.

Lemma decode_members_wire m acc :
  NoDup (map fst (acc ++ m)) → Forall (fun kv => wire kv.2) m → decode_members m acc = Some (acc ++ m).
Proof.
  revert acc. induction m as [|[k x] m IH]; intros acc Hd Hm; [by rewrite app_nil_r|].
  apply Forall_cons in Hm as [Hx Hm]. cbn [RetryJson.decode_members snd] in *. rewrite Hx. cbn [mbind option_bind].
  rewrite put_fresh.
  - rewrite IH; [by rewrite <- app_assoc| |done]. by rewrite <- app_assoc.
  - cbn [fst]. rewrite map_app in Hd. cbn [map fst] in Hd. apply NoDup_app in Hd as (_ & Hd & _).
    intros Hk. apply (Hd k Hk). left.
Qed.

Lemma wire_obj m : wire_members m → wire (JObj m).
Proof. intros [Hd Hm]. unfold wire. by rewrite decode_any_obj, (decode_members_wire m []). Qed.

Lemma wire_members_put m k y : wire_members m → wire y → wire_members (put m (k, y)).
Proof.
  intros [Hd Hm] Hy. split; [by apply put_NoDup|]. unfold put. apply Forall_app. split; [|by constructor].
  apply Forall_elem. intros q [Hq _]%filter_keys. exact (proj1 (Forall_elem _ _) Hm q Hq).
Qed.

Lemma decode_members_ok l m m' :
  Forall (fun kv => ∀ y, decode_any kv.2 = Some y → wire y) l →
  wire_members m → decode_members l m = Some m' → wire_members m'.
Proof.
  revert m. induction l as [|[k x] l IH]; intros m Hl Hm H; [by injection H as <-|].
  apply Forall_cons in Hl as [Hx Hl]. cbn in H, Hx. destruct (decode_any x) as [y|]; [|done].
  apply (IH (put m (k, y)) Hl); [|exact H]. apply wire_members_put; [done|]. by apply Hx.
Qed.

(** Decoding is a projection. *)
Lemma decode_any_wire j j' : decode_any j = Some j' → wire j'.
Proof.
  revert j'. induction j as [|b|n|s|l IH|l IH] using json_rec'; intros j' H.
  - by injection H as <-.
  - by injection H as <-.
  - cbn in H. destruct (float_literal n) as [m|] eqn:E; [|done]. injection H as <-. unfold wire. cbn.
    by rewrite (float_literal_stable n m E).
  - by injection H as <-.
  - rewrite decode_any_arr in H. destruct (decode_elements float_literal l) as [k|] eqn:E; [|done].
    injection H as <-. unfold wire. rewrite decode_any_arr.
    enough (decode_elements float_literal k = Some k) as -> by done.
    revert k E. induction IH as [|x l Hx _ IHl]; intros k E; [by injection E as <-|]. cbn in E.
    destruct (decode_any x) as [y|] eqn:Ex; [|done]. cbn in E.
    destruct (decode_elements float_literal l) as [r|]; [|done]. injection E as <-. cbn.
    rewrite (Hx y eq_refl). cbn. by rewrite (IHl r eq_refl).
  - rewrite decode_any_obj in H. destruct (decode_members l []) as [m|] eqn:E; [|done]. injection H as <-.
    apply wire_obj. apply (decode_members_ok l [] m); [done|by repeat constructor|done].
Qed.

Lemma decode_options_ok old j o :
  (∀ m, old = Some m → wire_members m) → decode_options float_literal old j = Some (Some o) → wire_members o.
Proof.
  intros Ho H. destruct j as [| | | | |l]; try done. cbn in H.
  destruct (decode_members l (default [] old)) as [m|] eqn:E; [|done]. injection H as <-.
  apply (decode_members_ok l (default [] old)); [|destruct old; [by apply Ho|by repeat constructor]|done].
  apply Forall_elem. intros kv _ y Hy. exact (decode_any_wire _ _ Hy).
Qed.

(** ** What decoding produces *)

Definition target_wire (t : RecoveryTarget) : Prop := ∀ m, rt_ProviderOptions t = Some m → wire_members m.
Definition repair_wire (p : RepairPlan) : Prop :=
  target_wire (rp_Initial p) ∧ ∀ t, rp_Escalation p = Some t → target_wire t.
Definition rerun_wire (p : RerunPlan) : Prop :=
  target_wire (rr_Target p) ∧ ∀ r, rr_JSONRepair p = Some r → repair_wire r.
Definition policy_wire (p : Policy) : Prop :=
  explicitPlan p = true ∧ (∀ r, JSONRepair p = Some r → repair_wire r) ∧ ∀ r, Rerun p = Some r → rerun_wire r.

(** A decoded struct keeps what every field's decoder keeps. *)
Lemma decode_struct_inv {S : Type} (P : S → Prop) (fields : Fields S) zero entries s :
  P zero → Forall (fun f => ∀ s j s', P s → f.2 s j = Some s' → P s') fields →
  decode_struct fields zero entries = Some s → P s.
Proof.
  intros Hz Hf. unfold decode_struct. revert zero Hz. induction entries as [|[k j] l IH]; intros zero Hz H.
  { by injection H as <-. }
  cbn [foldl] in H. unfold decode_member at 2 in H. cbn [mbind option_bind fst snd] in H.
  assert (∀ l, foldl (decode_member fields) None l = None) as Hnone by (induction l0; [done|]; apply IHl0).
  unfold find_decoder in H. destruct (List.find _ fields) as [[n d]|] eqn:E; cbn in H; [|by rewrite Hnone in H].
  destruct (d zero j) as [s1|] eqn:Ed; [|by rewrite Hnone in H].
  apply (IH s1); [|done]. apply find_some in E as [Hin%list_elem_of_In _].
  exact (proj1 (Forall_elem _ _) Hf (n, d) Hin zero j s1 Hz Ed).
Qed.

Lemma unmarshal_object_inv {S : Type} (P : S → Prop) name message required (fields : Fields S) zero data s :
  P zero → Forall (fun f => ∀ s j s', P s → f.2 s j = Some s' → P s') fields →
  unmarshal_object name message required fields zero data = Ok s → P s.
Proof.
  intros Hz Hf. unfold unmarshal_object. destruct data as [[| | | | |entries]|]; try done.
  destruct (List.find _ _); [done|]. destruct (decode_struct _ _ _) as [s'|] eqn:E; [|done].
  intros [= <-]. by eapply decode_struct_inv.
Qed.

(** One goal for each decoder of a field list. *)
Ltac each_field := repeat first [apply Forall_nil_2 | apply Forall_cons_2]; cbn [snd].

Lemma target_decoded data t : target_UnmarshalJSON float_literal data = Ok t → target_wire t.
Proof.
  apply unmarshal_object_inv; [by intros m|]. each_field; intros s j s' Hs H.
  1-4: destruct j; try done; by injection H as <-.
  destruct (decode_options _ _ _) as [o|] eqn:E; [|done]. injection H as <-. intros m. cbn. intros ->.
  by eapply decode_options_ok.
Qed.

Lemma decode_value_inv {S A : Type} (P : S → Prop) (Q : A → Prop) (unmarshal : json → res goerror A) set s j s' :
  (∀ a, unmarshal j = Ok a → Q a) → (∀ a, Q a → P (set a s)) → decode_value unmarshal set s j = Some s' → P s'.
Proof. unfold decode_value. intros H1 H2. destruct (unmarshal j); [|done]. intros [= <-]. auto. Qed.

Lemma decode_pointer_inv {S A : Type} (P : S → Prop) (Q : A → Prop) (unmarshal : json → res goerror A) set s j s' :
  (∀ a, unmarshal j = Ok a → Q a) → P (set None s) → (∀ a, Q a → P (set (Some a) s)) →
  decode_pointer unmarshal set s j = Some s' → P s'.
Proof.
  unfold decode_pointer. intros H1 H2 H3. destruct j; try (destruct (unmarshal _); [|done]); intros [= <-]; auto.
Qed.

Lemma repair_decoded data p : repair_UnmarshalJSON float_literal data = Ok p → repair_wire p.
Proof.
  apply unmarshal_object_inv; [by split|]. each_field; intros s j s' [Hi He] H.
  - refine (decode_value_inv repair_wire target_wire _ _ _ _ _ _ _ H); [intros a; apply target_decoded|]. by split.
  - refine (decode_pointer_inv repair_wire target_wire _ _ _ _ _ _ _ _ H); [intros a; apply target_decoded|by split|].
    intros a Ha. split; [done|]. cbn. by intros t [= <-].
Qed.

Lemma rerun_decoded data p : rerun_UnmarshalJSON float_literal data = Ok p → rerun_wire p.
Proof.
  apply unmarshal_object_inv; [by split|]. each_field; intros s j s' [Hi He] H.
  - refine (decode_value_inv rerun_wire target_wire _ _ _ _ _ _ _ H); [intros a; apply target_decoded|]. by split.
  - refine (decode_pointer_inv rerun_wire repair_wire _ _ _ _ _ _ _ _ H); [intros a; apply repair_decoded|by split|].
    intros a Ha. split; [done|]. cbn. by intros t [= <-].
Qed.

Lemma policy_decoded data p :
  policy_UnmarshalJSON float_literal data = Ok p → policy_wire p ∧ policy_Validate p = Ok tt.
Proof.
  unfold policy_UnmarshalJSON. destruct data as [[| | | | |entries]|]; try done.
  destruct (List.find _ _); [done|]. destruct (decode_struct _ _ _) as [s|] eqn:E; [|done].
  rewrite check_then_ok. intros [Hv [= <-]]. split; [|done].
  eapply (decode_struct_inv policy_wire); [| |exact E]; [by split|].
  each_field; intros q j q' (Hx & Hj & Hr) H.
  - destruct j; try done; [by injection H as <-|]. cbn in H. destruct (ParseInt _); [|done]. by injection H as <-.
  - destruct j as [| | | |l|]; try done; [by injection H as <-|]. destruct (decode_categories _ _); [|done].
    by injection H as <-.
  - refine (decode_value_inv policy_wire (fun _ => True) _ _ _ _ _ _ _ H); [done|]. by split.
  - refine (decode_pointer_inv policy_wire repair_wire _ _ _ _ _ _ _ _ H); [intros a; apply repair_decoded|by split|].
    intros a Ha. split; [done|]. split; [|done]. cbn. by intros t [= <-].
  - refine (decode_pointer_inv policy_wire rerun_wire _ _ _ _ _ _ _ _ H); [intros a; apply rerun_decoded|by split|].
    intros a Ha. split; [done|]. split; [done|]. cbn. by intros t [= <-].
Qed.
End Laws.

(** ** The round trip *)

(** Empty options are not written, and so are nil after decoding. *)
Definition target_canon (t : RecoveryTarget) : RecoveryTarget :=
  t <| rt_ProviderOptions ::= fun o => match o with Some [] => None | _ => o end |>.
Definition repair_canon (p : RepairPlan) : RepairPlan :=
  MkRepairPlan (target_canon (rp_Initial p)) (target_canon <$> rp_Escalation p).
Definition rerun_canon (p : RerunPlan) : RerunPlan :=
  MkRerunPlan (target_canon (rr_Target p)) (repair_canon <$> rr_JSONRepair p).
Definition policy_canon (p : Policy) : Policy :=
  MkPolicy (MaxAttempts p) (RetryOn p) (pol_Backoff p) (repair_canon <$> JSONRepair p) (rerun_canon <$> Rerun p) true.

Section RoundTrip.
Variable float_literal : string → option string.

Lemma decode_options_wire o :
  wire_members float_literal o → decode_options float_literal None (JObj o) = Some (Some o).
Proof. intros [Hd Hm]. cbn [decode_options from_option]. by rewrite (decode_members_wire float_literal o []). Qed.

Lemma decode_options_member o t :
  wire_members float_literal o → rt_ProviderOptions t = None →
  decode_member (target_fields float_literal) (Some t) ("providerOptions", JObj o)
  = Some (t <| rt_ProviderOptions := Some o |>).
Proof.
  intros Ho Ht. unfold decode_member. cbn [mbind option_bind fst snd].
  change (find_decoder (target_fields float_literal) "providerOptions") with
    (Some (fun t j => o ← decode_options float_literal (rt_ProviderOptions t) j;
                      Some (t <| rt_ProviderOptions := o |>))).
  cbn [mbind option_bind]. by rewrite Ht, decode_options_wire.
Qed.

Lemma target_roundtrip t :
  target_wire float_literal t → target_UnmarshalJSON float_literal (Some (target_json t)) = Ok (target_canon t).
Proof.
  destruct t as [c s m e o]. intros Hw. unfold target_UnmarshalJSON, unmarshal_object, target_json.
  cbn [rt_ConnectionID rt_Source rt_ModelID rt_ReasoningEffort rt_ProviderOptions].
  set (opts := match o with None | Some [] => [] | Some o0 => [("providerOptions", JObj o0)] end).
  set (pre := omitempty "upstream" c ++ [("source", JStr s)] ++ omitempty "modelId" m ++ omitempty "reasoningEffort" e).
  replace (omitempty "upstream" c ++ _) with (pre ++ opts) by (unfold pre; by rewrite <- !app_assoc).
  assert (decode_struct (target_fields float_literal) zeroRecoveryTarget pre = Some (MkTarget c s m e None)) as Hpre.
  { unfold pre, omitempty. destruct (String.eqb_spec c ""), (String.eqb_spec m ""), (String.eqb_spec e ""); subst;
      reflexivity. }
  assert (raw_field "source" (pre ++ opts) = Some (JStr s)) as Hraw.
  { unfold pre, opts, omitempty, raw_field.
    destruct (String.eqb c ""), (String.eqb m ""), (String.eqb e ""), o as [[|kv l]|]; reflexivity. }
  cbn [List.find]. rewrite Hraw. cbn [bool_decide decide]. rewrite bool_decide_false by done.
  unfold decode_struct. rewrite foldl_app. fold (decode_struct (target_fields float_literal) zeroRecoveryTarget pre).
  rewrite Hpre. unfold opts. destruct o as [[|kv l]|]; cbn [foldl]; [done| |done].
  rewrite decode_options_member; [done| |done]. by apply Hw.
Qed.

(** A decoder by value and by pointer, on what the encoder writes for them. *)
Lemma decode_value_roundtrip {S A : Type} (unmarshal : json → res goerror A) (set : A → S → S) s j a :
  unmarshal j = Ok a → decode_value unmarshal set s j = Some (set a s).
Proof. unfold decode_value. by intros ->. Qed.

Lemma decode_pointer_roundtrip {S A : Type} (unmarshal : json → res goerror A) (encode : A → json) (canon : A → A)
    (set : option A → S → S) s (o : option A) :
  (∀ a, encode a ≠ JNull) → (∀ a, o = Some a → unmarshal (encode a) = Ok (canon a)) →
  decode_pointer unmarshal set s (nullable encode o) = Some (set (canon <$> o) s).
Proof.
  unfold decode_pointer. intros Hn H. destruct o as [a|]; cbn; [|done].
  specialize (Hn a). rewrite (H a eq_refl). by destruct (encode a).
Qed.

Lemma decode_struct_cons {S : Type} (fields : Fields S) zero k j l d s :
  find_decoder fields k = Some d → d zero j = Some s →
  decode_struct fields zero ((k, j) :: l) = decode_struct fields s l.
Proof. intros H1 H2. unfold decode_struct. cbn [foldl]. unfold decode_member at 2. cbn. rewrite H1. cbn. by rewrite H2. Qed.

(** The next member decodes to the given struct. *)
Tactic Notation "member" uconstr(H) "by" tactic3(side) :=
  erewrite decode_struct_cons; [|reflexivity|eapply H; side].

Lemma repair_roundtrip p :
  repair_wire float_literal p → repair_UnmarshalJSON float_literal (Some (repair_json p)) = Ok (repair_canon p).
Proof.
  intros [Hi He]. unfold repair_UnmarshalJSON, unmarshal_object, repair_json. cbn [List.find].
  rewrite !bool_decide_false by (by destruct p as [? [|]]).
  member decode_value_roundtrip by (by apply target_roundtrip).
  member (decode_pointer_roundtrip _ target_json target_canon) by (first [done | intros t Ht; by apply target_roundtrip, He]).
  done.
Qed.

Lemma rerun_roundtrip p :
  rerun_wire float_literal p → rerun_UnmarshalJSON float_literal (Some (rerun_json p)) = Ok (rerun_canon p).
Proof.
  intros [Hi He]. unfold rerun_UnmarshalJSON, unmarshal_object, rerun_json. cbn [List.find].
  rewrite !bool_decide_false by (by destruct p as [? [|]]).
  member decode_value_roundtrip by (by apply target_roundtrip).
  member (decode_pointer_roundtrip _ repair_json repair_canon) by (first [done | intros t Ht; by apply repair_roundtrip, He]).
  done.
Qed.

Lemma decode_int_roundtrip {S : Type} (set : Z → S → S) s z :
  in_int64 z → decode_int set s (JNum (pretty z)) = Some (set z s).
Proof. intros H. cbn [decode_int]. by rewrite ParseInt_pretty. Qed.

Lemma backoff_roundtrip b :
  in_int64 (BaseDelayMS b) → in_int64 (MaxDelayMS b) → backoff_UnmarshalJSON (Some (backoff_json b)) = Ok b.
Proof.
  intros H1 H2. unfold backoff_UnmarshalJSON, decodeRequired, backoff_json.
  change (List.find _ _) with (@None string).
  member decode_int_roundtrip by done. member decode_int_roundtrip by done. done.
Qed.

Lemma decode_categories_roundtrip old l : decode_categories old (map JStr l) = Some l.
Proof. revert old. induction l as [|c l IH]; intros old; [done|]. cbn. by rewrite IH. Qed.

Lemma policy_decode_roundtrip p l :
  policy_wire float_literal p → RetryOn p = Some l → in_int64 (MaxAttempts p) →
  in_int64 (BaseDelayMS (pol_Backoff p)) → in_int64 (MaxDelayMS (pol_Backoff p)) →
  policy_UnmarshalJSON float_literal (Some (policy_MarshalJSON p))
  = let? _ := policy_Validate (policy_canon p) in Ok (policy_canon p).
Proof.
  intros (_ & Hj & Hr) Hl Hm Hb Hx. unfold policy_UnmarshalJSON, policy_MarshalJSON. rewrite Hl. cbn [nullable].
  replace (List.find _ _) with (@None string) by (by destruct (JSONRepair p), (Rerun p)).
  member decode_int_roundtrip by done.
  erewrite decode_struct_cons; [|reflexivity|]; [|cbn; by rewrite decode_categories_roundtrip].
  member decode_value_roundtrip by (by apply backoff_roundtrip).
  member (decode_pointer_roundtrip _ repair_json repair_canon) by (first [done | intros r Er; by apply repair_roundtrip, Hj]).
  member (decode_pointer_roundtrip _ rerun_json rerun_canon) by (first [done | intros r Er; by apply rerun_roundtrip, Hr]).
  unfold policy_canon. by rewrite Hl.
Qed.
End RoundTrip.

(** ** Validity and encoding do not see the difference *)

Lemma target_canon_WF g t : TargetWF g t → TargetWF g (target_canon t).
Proof. unfold TargetWF. destruct t as [c s m e [[|kv l]|]]; cbn; intuition congruence. Qed.

Lemma repair_canon_WF p : RepairWF p → RepairWF (repair_canon p).
Proof.
  intros [Hi He]. split; [by apply target_canon_WF|]. cbn.
  intros t (t0 & E & ->)%fmap_Some_1. by apply target_canon_WF, He.
Qed.

Lemma rerun_canon_WF p : RerunWF p → RerunWF (rerun_canon p).
Proof.
  intros [Hi He]. split; [by apply target_canon_WF|]. cbn.
  intros r (r0 & E & ->)%fmap_Some_1. by apply repair_canon_WF, He.
Qed.

Lemma policy_canon_WF p : PolicyWF p → PolicyWF (policy_canon p).
Proof.
  intros (Ha & Hr & Hb & Hm & Hj & Hn). unfold PolicyWF. cbn. split_and!; try lia; try done.
  - intros r (r0 & E & ->)%fmap_Some_1. by apply repair_canon_WF, Hj.
  - intros r (r0 & E & ->)%fmap_Some_1. by apply rerun_canon_WF, Hn.
Qed.

Lemma target_canon_json t : target_json (target_canon t) = target_json t.
Proof. by destruct t as [c s m e [[|kv l]|]]. Qed.

Lemma repair_canon_json p : repair_json (repair_canon p) = repair_json p.
Proof. destruct p as [i [e|]]; unfold repair_json; cbn; by rewrite !target_canon_json. Qed.

Lemma rerun_canon_json p : rerun_json (rerun_canon p) = rerun_json p.
Proof. destruct p as [i [e|]]; unfold rerun_json; cbn; by rewrite target_canon_json, ?repair_canon_json. Qed.

Lemma policy_canon_json p : policy_MarshalJSON (policy_canon p) = policy_MarshalJSON p.
Proof.
  destruct p as [a r b [j|] [n|] x]; unfold policy_MarshalJSON; cbn; by rewrite ?repair_canon_json, ?rerun_canon_json.
Qed.

(** ** Properties *)

(** C32: a policy read from JSON is valid and marked as an explicit plan, and
    writing it with [MarshalJSON] and reading it back gives the same policy, with
    provider options that are empty replaced by absent ones; the policy read back
    is written exactly as the first one. *)
Theorem policy_json_roundtrip (float_literal : string → option string) data p :
  (∀ n m, float_literal n = Some m → float_literal m = Some m) →
  policy_UnmarshalJSON float_literal data = Ok p →
  PolicyWF p ∧ explicitPlan p = true
  ∧ policy_UnmarshalJSON float_literal (Some (policy_MarshalJSON p)) = Ok (policy_canon p)
  ∧ policy_MarshalJSON (policy_canon p) = policy_MarshalJSON p.
Proof.
  intros Hf [Hw Hv%policy_Validate_iff]%policy_decoded; [|done].
  split; [done|]. split; [apply Hw|]. split; [|apply policy_canon_json].
  pose proof Hv as (Ha & (l & Hl & _) & Hb & Hm & _).
  erewrite policy_decode_roundtrip by
    (first [exact Hw | exact Hl | unfold in_int64, int64_min, int64_max; lia]).
  by rewrite (proj2 (policy_Validate_iff _) (policy_canon_WF p Hv)).
Qed.

(** A policy whose repair runs a model with provider options. *)
Definition repairing_policy : Policy :=
  DefaultPolicy <| JSONRepair := Some (MkRepairPlan
    (MkTarget "main" "model" "small" "" (Some [("temperature", JNum "0"); ("seed", JNum "7")]))
    (Some (MkTarget "" "generation" "" "" (Some []))) ) |> <| explicitPlan := true |>.

Lemma policy_json_roundtrip_witness :
  PolicyWF (policy_canon repairing_policy)
  ∧ policy_UnmarshalJSON Some (Some (policy_MarshalJSON (policy_canon repairing_policy)))
    = Ok (policy_canon (policy_canon repairing_policy)).
Proof.
  destruct (policy_json_roundtrip Some (Some (policy_MarshalJSON repairing_policy)) (policy_canon repairing_policy))
    as (H0 & _ & H1 & _); [by intros n m [= ->]|vm_compute; reflexivity|]. by split.
Defined.
