(* ===== verification/Accounting.v ===== *)
(** * Accounting: token usage, cost certainty and the provider ledger

    Models [src/internal/accounting/accounting.go]: the five exclusive token
    components with checked 64-bit sums, the cost with its coverage counters,
    their additions, the dispatch-aware accumulator and the pricing of a usage.
    Statuses are the Go string types, so an unsupported status is representable
    and rejected by the validators as in the code. *)
From Corelib Require Import SpecFloat.
From S2P Require Import Prelude Float64.

Open Scope string_scope.
Open Scope Z_scope.

Inductive acc_error : Type :=
| UnsupportedUsageStatus (status : string)
| NegativeTokenCount
| UnavailableUsageHasTokens
| UsageIsInconsistent
| CostSubtotalInvalid
| CostCountNegative
| ExactCostCoverage
| PartialCostCoverage
| UnknownCostCoverage
| UnavailableCostHasObservations
| UnsupportedCostStatus (status : string)
| NegativeSummand
| IntegerOverflow
| PricedItemsRequired
| UnsupportedItemType (item : string)
| NegativeItemTokens (item : string)
| InvalidItemRate (item : string)
| ConflictingRate (item : string).

(** ** Usage *)

Definition UsageStatus : Type := string.
Definition UsageComplete : UsageStatus := "complete".
Definition UsagePartial : UsageStatus := "partial".
Definition UsageUnavailable : UsageStatus := "unavailable".
Definition UsageInconsistent : UsageStatus := "inconsistent".

Record Usage := MkUsage {
  InputTokens : Z;
  CacheReadTokens : Z;
  CacheCreationTokens : Z;
  OutputTokens : Z;
  ReasoningTokens : Z;
  usage_Status : UsageStatus;
}.

Definition zeroUsage : Usage := MkUsage 0 0 0 0 0 "".

Fixpoint checkedSum_from (result : Z) (values : list Z) : res acc_error Z :=
  match values with
  | [] => Ok result
  | value :: rest =>
      let? _ := fail_if (value <? 0) NegativeSummand in
      let? _ := fail_if (int64_max - result <? value) IntegerOverflow in
      checkedSum_from (wrap64 (result + value)) rest
  end.
Definition checkedSum (values : list Z) : res acc_error Z := checkedSum_from 0 values.

Definition components (u : Usage) : list Z :=
  [InputTokens u; CacheReadTokens u; CacheCreationTokens u; OutputTokens u; ReasoningTokens u].

(** The unchecked sum, which wraps. *)
Definition componentTotalUnsafe (u : Usage) : Z :=
  wrap64 (wrap64 (wrap64 (wrap64 (InputTokens u + CacheReadTokens u) + CacheCreationTokens u)
    + OutputTokens u) + ReasoningTokens u).

Definition usage_Validate (u : Usage) : res acc_error unit :=
  let? _ := fail_if (negb (str_in (usage_Status u) [UsageComplete; UsagePartial; UsageUnavailable; UsageInconsistent]))
              (UnsupportedUsageStatus (usage_Status u)) in
  let? _ := fail_if (existsb (fun value => value <? 0) (components u)) NegativeTokenCount in
  let? _ := fail_if (String.eqb (usage_Status u) UsageUnavailable && negb (componentTotalUnsafe u =? 0))
              UnavailableUsageHasTokens in
  let? _ := fail_if (String.eqb (usage_Status u) UsageInconsistent) UsageIsInconsistent in
  let? _ := checkedSum (components u) in Ok tt.

Definition CompleteUsage (input cacheRead cacheCreation output reasoning : Z) : res acc_error Usage :=
  let usage := MkUsage input cacheRead cacheCreation output reasoning UsageComplete in
  let? _ := usage_Validate usage in Ok usage.

Definition UnavailableUsage : Usage := MkUsage 0 0 0 0 0 UsageUnavailable.

(** [value, _ := checkedSum(...)]: 0 when the sum fails. *)
Definition sum_or_zero (values : list Z) : Z := match checkedSum values with Ok v => v | Err _ => 0 end.

Definition PromptTokens (u : Usage) : Z := sum_or_zero [InputTokens u; CacheReadTokens u; CacheCreationTokens u].
Definition CompletionTokens (u : Usage) : Z := sum_or_zero [OutputTokens u; ReasoningTokens u].
Definition TotalTokens (u : Usage) : Z := sum_or_zero (components u).

Definition AddUsage (left right : Usage) : res acc_error Usage :=
  if String.eqb (usage_Status left) UsageUnavailable then
    let? _ := usage_Validate right in Ok right
  else if String.eqb (usage_Status right) UsageUnavailable then
    let? _ := usage_Validate left in Ok left
  else
    let? _ := usage_Validate left in
    let? _ := usage_Validate right in
    let? input := checkedSum [InputTokens left; InputTokens right] in
    let? cacheRead := checkedSum [CacheReadTokens left; CacheReadTokens right] in
    let? cacheCreation := checkedSum [CacheCreationTokens left; CacheCreationTokens right] in
    let? output := checkedSum [OutputTokens left; OutputTokens right] in
    let? reasoning := checkedSum [ReasoningTokens left; ReasoningTokens right] in
    let status := if String.eqb (usage_Status left) UsagePartial || String.eqb (usage_Status right) UsagePartial
                  then UsagePartial else UsageComplete in
    let result := MkUsage input cacheRead cacheCreation output reasoning status in
    let? _ := usage_Validate result in Ok result.

(** ** Cost *)

Definition CostStatus : Type := string.
Definition CostExact : CostStatus := "exact".
Definition CostPartial : CostStatus := "partial".
Definition CostUnknown : CostStatus := "unknown".
Definition CostUnavailable : CostStatus := "unavailable".

Record Cost := MkCost {
  KnownSubtotalUSD : float64;
  cost_Status : CostStatus;
  cost_Source : string;
  KnownObservations : Z;
  UnknownObservations : Z;
}.

Definition costPrecision : float64 := f64_of_Z 1000000000000.
Definition roundCost (value : float64) : float64 := fdiv (fround (fmul value costPrecision)) costPrecision.

Definition ExactCost (value : float64) (source : string) : Cost :=
  MkCost (roundCost value) CostExact (TrimSpace source) 1 0.
Definition UnknownCost (source : string) : Cost := MkCost fzero CostUnknown (TrimSpace source) 0 1.
Definition UnavailableCost : Cost := MkCost fzero CostUnavailable "" 0 0.

Definition cost_Validate (c : Cost) : res acc_error unit :=
  let known0 := KnownObservations c =? 0 in
  let unknown0 := UnknownObservations c =? 0 in
  let subtotal0 := feqb (KnownSubtotalUSD c) fzero in
  let? _ := fail_if (IsNaN (KnownSubtotalUSD c) || IsInf (KnownSubtotalUSD c) || fltb (KnownSubtotalUSD c) fzero)
              CostSubtotalInvalid in
  let? _ := fail_if ((KnownObservations c <? 0) || (UnknownObservations c <? 0)) CostCountNegative in
  if String.eqb (cost_Status c) CostExact then fail_if (known0 || negb unknown0) ExactCostCoverage
  else if String.eqb (cost_Status c) CostPartial then fail_if (known0 || unknown0) PartialCostCoverage
  else if String.eqb (cost_Status c) CostUnknown then
    fail_if (negb known0 || unknown0 || negb subtotal0) UnknownCostCoverage
  else if String.eqb (cost_Status c) CostUnavailable then
    fail_if (negb known0 || negb unknown0 || negb subtotal0) UnavailableCostHasObservations
  else Err (UnsupportedCostStatus (cost_Status c)).

Definition mergeSource (left right : string) : string :=
  let left := TrimSpace left in
  let right := TrimSpace right in
  if String.eqb left "" then right
  else if String.eqb right "" || String.eqb left right then left
  else "mixed".

Definition AddCost (left right : Cost) : res acc_error Cost :=
  if String.eqb (cost_Status left) CostUnavailable then
    let? _ := cost_Validate right in Ok right
  else if String.eqb (cost_Status right) CostUnavailable then
    let? _ := cost_Validate left in Ok left
  else
    let? _ := cost_Validate left in
    let? _ := cost_Validate right in
    let known := wrap64 (KnownObservations left + KnownObservations right) in
    let unknown := wrap64 (UnknownObservations left + UnknownObservations right) in
    let status := if (0 <? known) && (0 <? unknown) then CostPartial
                  else if 0 <? known then CostExact else CostUnknown in
    let result := MkCost (roundCost (fadd (KnownSubtotalUSD left) (KnownSubtotalUSD right))) status
                    (mergeSource (cost_Source left) (cost_Source right)) known unknown in
    let? _ := cost_Validate result in Ok result.

(** ** Ledgers *)

Record Ledger := MkLedger { ledger_Usage : Usage; ledger_Cost : Cost }.

Definition EmptyLedger : Ledger := MkLedger UnavailableUsage UnavailableCost.

Definition AddLedger (left right : Ledger) : res acc_error Ledger :=
  let? usage := AddUsage (ledger_Usage left) (ledger_Usage right) in
  let? cost := AddCost (ledger_Cost left) (ledger_Cost right) in
  Ok (MkLedger usage cost).

Record Accounting := MkAccounting { acct_Result : Ledger; acct_Provider : Ledger }.

Record ProviderAccumulator := MkAccumulator { acc_ledger : Ledger; missingUsage : bool }.

Definition NewProviderAccumulator : ProviderAccumulator := MkAccumulator EmptyLedger false.

Definition set_cost (acc : ProviderAccumulator) (c : Cost) : ProviderAccumulator :=
  acc <| acc_ledger ::= fun l => l <| ledger_Cost := c |> |>.
Definition set_usage (acc : ProviderAccumulator) (u : Usage) : ProviderAccumulator :=
  acc <| acc_ledger ::= fun l => l <| ledger_Usage := u |> |>.

Definition addUnknownCost (acc : ProviderAccumulator) : ProviderAccumulator :=
  match AddCost (ledger_Cost (acc_ledger acc)) (UnknownCost "unknown") with
  | Ok cost => set_cost acc cost
  | Err _ => acc
  end.

(** [Observe] commits usage and cost independently and returns the first error. *)
Definition Observe (acc : ProviderAccumulator) (dispatched : bool) (o : Ledger)
  : ProviderAccumulator * option acc_error :=
  let usageErr := usage_Validate (ledger_Usage o) in
  let costErr := cost_Validate (ledger_Cost o) in
  let usageMeasured := is_ok usageErr && negb (String.eqb (usage_Status (ledger_Usage o)) UsageUnavailable) in
  let costMeasured := is_ok costErr && negb (String.eqb (cost_Status (ledger_Cost o)) CostUnavailable) in
  let observed := dispatched || usageMeasured || costMeasured in
  let '(acc, firstErr) :=
    match usageErr with
    | Err e => (acc, Some e)
    | Ok _ =>
        if String.eqb (usage_Status (ledger_Usage o)) UsageUnavailable then
          ((if observed then acc <| missingUsage := true |> else acc), None)
        else match AddUsage (ledger_Usage (acc_ledger acc)) (ledger_Usage o) with
        | Err e => (acc <| missingUsage := true |>, Some e)
        | Ok usage => (set_usage acc usage, None)
        end
    end in
  let acc := if negb (is_ok usageErr) && observed then acc <| missingUsage := true |> else acc in
  let first e := match firstErr with None => Some e | Some _ => firstErr end in
  match costErr with
  | Err e => ((if observed then addUnknownCost acc else acc), first e)
  | Ok _ =>
      if String.eqb (cost_Status (ledger_Cost o)) CostUnavailable then
        ((if observed then addUnknownCost acc else acc), firstErr)
      else match AddCost (ledger_Cost (acc_ledger acc)) (ledger_Cost o) with
      | Err e => ((if observed then addUnknownCost acc else acc), first e)
      | Ok cost => (set_cost acc cost, firstErr)
      end
  end.

(** [ProviderAccumulator.Ledger] *)
Definition accumulator_Ledger (acc : ProviderAccumulator) : Ledger :=
  let ledger := acc_ledger acc in
  if missingUsage acc && negb (String.eqb (usage_Status (ledger_Usage ledger)) UsageUnavailable)
  then ledger <| ledger_Usage ::= fun u => u <| usage_Status := UsagePartial |> |>
  else ledger.

(** ** Pricing of a usage *)

Record Pricing := MkPricing {
  price_Input : option float64;
  price_CacheRead : option float64;
  price_CacheCreation : option float64;
  price_Output : option float64;
  price_Reasoning : option float64;
}.

Definition rates (p : Pricing) : list (option float64) :=
  [price_Input p; price_CacheRead p; price_CacheCreation p; price_Output p; price_Reasoning p].

Definition rate_usable (rate : float64) : bool := negb (IsNaN rate || IsInf rate || fltb rate fzero).

(** The loop over the token counts and their rates. *)
Fixpoint price_counts (pairs : list (Z * option float64)) (subtotal : float64) (known unknown : Z)
  : float64 * Z * Z :=
  match pairs with
  | [] => (subtotal, known, unknown)
  | (count, rate) :: rest =>
      if count =? 0 then price_counts rest subtotal known unknown
      else match rate with
      | Some r =>
          if rate_usable r
          then price_counts rest (roundCost (fadd subtotal (fmul (f64_of_Z count) r))) (wrap64 (known + 1)) unknown
          else price_counts rest subtotal known (wrap64 (unknown + 1))
      | None => price_counts rest subtotal known (wrap64 (unknown + 1))
      end
  end.

Definition allRatesMissing (rs : list (option float64)) : bool :=
  forallb (fun r => bool_decide (r = None)) rs.

Definition validated (c : Cost) : res acc_error Cost := let? _ := cost_Validate c in Ok c.

Definition ResolveCost (usage : Usage) (pricing : Pricing) (reported : option float64) : res acc_error Cost :=
  match reported with
  | Some value => validated (ExactCost value "reported")
  | None =>
      let? _ := usage_Validate usage in
      if String.eqb (usage_Status usage) UsageUnavailable then Ok UnavailableCost
      else
        let '(knownSubtotal, known, unknown) := price_counts (zip (components usage) (rates pricing)) fzero 0 0 in
        if (known =? 0) && (unknown =? 0) then
          if allRatesMissing (rates pricing) then Ok (UnknownCost "missing_rate")
          else Ok (ExactCost fzero "profile")
        else
          validated
            (if (0 <? known) && (0 <? unknown) then MkCost knownSubtotal CostPartial "profile" 1 1
             else if 0 <? known then MkCost knownSubtotal CostExact "profile" 1 0
             else MkCost knownSubtotal CostUnknown "missing_rate" 0 1)
  end.

(** ** Checked sums *)

Fixpoint sum_list (l : list Z) : Z :=
  match l with [] => 0 | v :: l => v + sum_list l end.

Lemma sum_list_nonneg l : Forall (fun v => 0 ≤ v) l → 0 ≤ sum_list l.
Proof. induction 1; cbn in *; lia. Qed.

Lemma checkedSum_from_iff r l s :
  0 ≤ r ≤ int64_max →
  checkedSum_from r l = Ok s
  ↔ Forall (fun v => 0 ≤ v) l ∧ s = r + sum_list l ∧ s ≤ int64_max.
Proof.
  revert r. induction l as [|v l IH]; intros r Hr; cbn [checkedSum_from].
  { cbn. rewrite Z.add_0_r, Forall_nil. split; [intros [= <-]; tauto | by intros (_ & -> & _)]. }
  cbn [sum_list].
  rewrite !fail_if_then_ok, !Z.ltb_ge, Forall_cons. split.
  - intros (Hv & Hle & H). rewrite wrap64_id in H by (unfold in_int64, int64_min in *; lia).
    apply IH in H as (Hl & -> & Hs); [|lia]. repeat split; auto; lia.
  - intros ([Hv Hl] & -> & Hs). pose proof (sum_list_nonneg l Hl).
    split; [lia|]. split; [lia|]. rewrite wrap64_id by (unfold in_int64, int64_min in *; lia).
    apply IH; [lia|]. repeat split; auto; lia.
Qed.

Lemma checkedSum_iff l s :
  checkedSum l = Ok s ↔ Forall (fun v => 0 ≤ v) l ∧ s = sum_list l ∧ s ≤ int64_max.
Proof. apply checkedSum_from_iff. unfold int64_max. lia. Qed.

(** ** Well-formed usages *)

Definition total (u : Usage) : Z := sum_list (components u).

Definition UsageWF (u : Usage) : Prop :=
  (usage_Status u = UsageComplete ∨ usage_Status u = UsagePartial
   ∨ (usage_Status u = UsageUnavailable ∧ total u = 0))
  ∧ 0 ≤ InputTokens u ∧ 0 ≤ CacheReadTokens u ∧ 0 ≤ CacheCreationTokens u
  ∧ 0 ≤ OutputTokens u ∧ 0 ≤ ReasoningTokens u
  ∧ total u ≤ int64_max.

Lemma components_nonneg u :
  existsb (fun value => value <? 0) (components u) = false
  ↔ 0 ≤ InputTokens u ∧ 0 ≤ CacheReadTokens u ∧ 0 ≤ CacheCreationTokens u
    ∧ 0 ≤ OutputTokens u ∧ 0 ≤ ReasoningTokens u.
Proof. cbn [components existsb]. rewrite !orb_false_iff, !Z.ltb_ge. tauto. Qed.

(** The wrapped total is the exact one when the exact one fits. *)
Lemma componentTotalUnsafe_exact u :
  0 ≤ InputTokens u → 0 ≤ CacheReadTokens u → 0 ≤ CacheCreationTokens u →
  0 ≤ OutputTokens u → 0 ≤ ReasoningTokens u → total u ≤ int64_max →
  componentTotalUnsafe u = total u.
Proof.
  unfold total, componentTotalUnsafe. cbn. unfold int64_max. intros.
  rewrite !wrap64_id; unfold in_int64, int64_min, int64_max; rewrite ?wrap64_id;
    unfold in_int64, int64_min, int64_max; rewrite ?wrap64_id;
    unfold in_int64, int64_min, int64_max; rewrite ?wrap64_id;
    unfold in_int64, int64_min, int64_max; lia.
Qed.

Lemma total_zero u :
  0 ≤ InputTokens u → 0 ≤ CacheReadTokens u → 0 ≤ CacheCreationTokens u →
  0 ≤ OutputTokens u → 0 ≤ ReasoningTokens u → total u = 0 →
  InputTokens u = 0 ∧ CacheReadTokens u = 0 ∧ CacheCreationTokens u = 0 ∧ OutputTokens u = 0 ∧ ReasoningTokens u = 0.
Proof. unfold total. cbn. lia. Qed.

Lemma checkedSum_components u :
  0 ≤ InputTokens u → 0 ≤ CacheReadTokens u → 0 ≤ CacheCreationTokens u →
  0 ≤ OutputTokens u → 0 ≤ ReasoningTokens u →
  (let? _ := checkedSum (components u) in Ok tt) = @Ok acc_error unit tt ↔ total u ≤ int64_max.
Proof.
  intros. rewrite res_bind_ok. setoid_rewrite checkedSum_iff. fold (total u). split.
  - intros (s & (_ & -> & ?) & _). done.
  - intros Ht. exists (total u). repeat split; auto. unfold components. repeat constructor; done.
Qed.

Lemma usage_Validate_iff u : usage_Validate u = Ok tt ↔ UsageWF u.
Proof.
  unfold usage_Validate, UsageWF. rewrite !fail_if_then_ok, components_nonneg.
  rewrite negb_false_iff, str_in_spec. split.
  - intros (Hs & (? & ? & ? & ? & ?) & Hu & Hi & Ht).
    rewrite checkedSum_components in Ht by done.
    rewrite componentTotalUnsafe_exact in Hu by done.
    split; [|tauto]. apply String.eqb_neq in Hi.
    destruct (String.eqb_spec (usage_Status u) UsageUnavailable); cbn in Hu; bool_to_prop; set_solver.
  - intros (Hs & ? & ? & ? & ? & ? & Ht).
    rewrite checkedSum_components, componentTotalUnsafe_exact by done.
    destruct Hs as [->|[->|[-> ->]]]; (split; [set_solver|]); repeat split; try done; lia.
Qed.

(** ** Addition of usages *)

Definition join_status (a b : UsageStatus) : UsageStatus :=
  if String.eqb a UsageUnavailable then b
  else if String.eqb b UsageUnavailable then a
  else if String.eqb a UsagePartial || String.eqb b UsagePartial then UsagePartial else UsageComplete.

(** The specification: componentwise sums over unbounded integers. *)
Definition usage_plus (a b : Usage) : Usage :=
  MkUsage (InputTokens a + InputTokens b) (CacheReadTokens a + CacheReadTokens b)
    (CacheCreationTokens a + CacheCreationTokens b) (OutputTokens a + OutputTokens b)
    (ReasoningTokens a + ReasoningTokens b) (join_status (usage_Status a) (usage_Status b)).

Lemma total_plus a b : total (usage_plus a b) = total a + total b.
Proof. unfold total. cbn. lia. Qed.

Lemma pair_sum a b s :
  0 ≤ a → 0 ≤ b → checkedSum [a; b] = Ok s ↔ s = a + b ∧ a + b ≤ int64_max.
Proof.
  intros. rewrite checkedSum_iff. cbn. rewrite Z.add_0_r. split.
  - intros (_ & -> & ?). done.
  - intros [-> ?]. repeat split; auto.
Qed.

Lemma pair_sum_then {A : Type} a b (k : Z → res acc_error A) c :
  0 ≤ a → 0 ≤ b →
  (let? x := checkedSum [a; b] in k x) = Ok c ↔ a + b ≤ int64_max ∧ k (a + b) = Ok c.
Proof.
  intros. rewrite res_bind_ok. setoid_rewrite pair_sum; [|done..]. naive_solver.
Qed.

Lemma usage_plus_unavailable_l a b : UsageWF a → usage_Status a = UsageUnavailable → usage_plus a b = b.
Proof.
  intros (Hs & ? & ? & ? & ? & ? & _) E.
  destruct (total_zero a) as (E1 & E2 & E3 & E4 & E5); auto.
  { destruct Hs as [H'|[H'|[_ H']]]; [..|done]; rewrite E in H'; discriminate. }
  unfold usage_plus, join_status. rewrite E, E1, E2, E3, E4, E5. by destruct b.
Qed.

Lemma join_status_comm a b : join_status a b = join_status b a.
Proof.
  unfold join_status. rewrite (orb_comm (String.eqb b UsagePartial)).
  destruct (String.eqb_spec a UsageUnavailable), (String.eqb_spec b UsageUnavailable); congruence.
Qed.

Lemma usage_plus_comm a b : usage_plus a b = usage_plus b a.
Proof.
  unfold usage_plus. rewrite join_status_comm. f_equal; lia.
Qed.

Lemma usage_plus_unavailable_r a b : UsageWF b → usage_Status b = UsageUnavailable → usage_plus a b = a.
Proof. intros. rewrite usage_plus_comm. by apply usage_plus_unavailable_l. Qed.

Lemma join_status_assoc a b c :
  join_status (join_status a b) c = join_status a (join_status b c).
Proof.
  unfold join_status.
  destruct (String.eqb_spec a UsageUnavailable) as [->|Ha]; [done|].
  destruct (String.eqb_spec b UsageUnavailable) as [->|Hb]; cbn [String.eqb].
  { by rewrite (proj2 (String.eqb_neq a _) Ha). }
  destruct (String.eqb_spec c UsageUnavailable) as [->|Hc]; cbn.
  { rewrite (proj2 (String.eqb_neq b _) Hb).
    by destruct (String.eqb a UsagePartial), (String.eqb b UsagePartial). }
  by destruct (String.eqb a UsagePartial), (String.eqb b UsagePartial), (String.eqb c UsagePartial).
Qed.

Lemma usage_plus_assoc a b c : usage_plus (usage_plus a b) c = usage_plus a (usage_plus b c).
Proof. unfold usage_plus. cbn. rewrite join_status_assoc. f_equal; lia. Qed.

Lemma join_status_cases a b :
  UsageWF a → UsageWF b → usage_Status a ≠ UsageUnavailable → usage_Status b ≠ UsageUnavailable →
  join_status (usage_Status a) (usage_Status b) = UsageComplete
  ∨ join_status (usage_Status a) (usage_Status b) = UsagePartial.
Proof.
  intros _ _ Ha Hb. unfold join_status.
  rewrite (proj2 (String.eqb_neq _ _) Ha), (proj2 (String.eqb_neq _ _) Hb).
  destruct (_ || _); auto.
Qed.

(** On well-formed operands [AddUsage] is the unbounded sum, and fails exactly
    when the sum does not fit in 64 bits. *)
Lemma AddUsage_iff a b c :
  UsageWF a → UsageWF b → AddUsage a b = Ok c ↔ c = usage_plus a b ∧ total c ≤ int64_max.
Proof.
  intros Ha Hb. unfold AddUsage.
  destruct (String.eqb_spec (usage_Status a) UsageUnavailable) as [Ea|Na].
  { rewrite check_then_ok, usage_Validate_iff, usage_plus_unavailable_l by done.
    split; [intros [? [= <-]] | intros [-> ?]]; split; auto. apply Hb. }
  destruct (String.eqb_spec (usage_Status b) UsageUnavailable) as [Eb|Nb].
  { rewrite check_then_ok, usage_Validate_iff, usage_plus_unavailable_r by done.
    split; [intros [? [= <-]] | intros [-> ?]]; split; auto. apply Ha. }
  pose proof (join_status_cases a b Ha Hb Na Nb) as Hj.
  assert (Hd : (if String.eqb (usage_Status a) UsagePartial || String.eqb (usage_Status b) UsagePartial
                then UsagePartial else UsageComplete) = join_status (usage_Status a) (usage_Status b)).
  { unfold join_status. by rewrite (proj2 (String.eqb_neq _ _) Na), (proj2 (String.eqb_neq _ _) Nb). }
  destruct Ha as (Sa & ? & ? & ? & ? & ? & Ta), Hb as (Sb & ? & ? & ? & ? & ? & Tb).
  rewrite Hd, !check_then_ok, !usage_Validate_iff, !pair_sum_then, !check_then_ok, usage_Validate_iff by done.
  fold (usage_plus a b). split.
  - intros (_ & _ & _ & _ & _ & _ & _ & (_ & _ & _ & _ & _ & _ & Ht) & [= <-]). done.
  - intros [-> Ht]. unfold UsageWF, total in *. cbn in *.
    split; [tauto|]. split; [tauto|]. do 5 (split; [lia|]). split; [|done].
    destruct Hj; repeat split; auto; lia.
Qed.

Lemma UsageWF_plus a b : UsageWF a → UsageWF b → total (usage_plus a b) ≤ int64_max → UsageWF (usage_plus a b).
Proof.
  intros Ha Hb Ht.
  destruct (decide (usage_Status a = UsageUnavailable)).
  { by rewrite usage_plus_unavailable_l in *. }
  destruct (decide (usage_Status b = UsageUnavailable)).
  { by rewrite usage_plus_unavailable_r in *. }
  pose proof (join_status_cases a b Ha Hb n n0) as Hj.
  destruct Ha as (_ & ? & ? & ? & ? & ? & _), Hb as (_ & ? & ? & ? & ? & ? & _).
  split; [cbn; tauto|]. cbn in *. repeat split; auto; lia.
Qed.

Lemma AddUsage_wf a b c : UsageWF a → UsageWF b → AddUsage a b = Ok c → UsageWF c.
Proof. intros Ha Hb [-> Ht]%AddUsage_iff; [by apply UsageWF_plus|done..]. Qed.

Lemma total_nonneg u : UsageWF u → 0 ≤ total u.
Proof. intros (_ & ? & ? & ? & ? & ? & _). unfold total. cbn. lia. Qed.

(** Adding three usages from the left and from the right. *)
Lemma AddUsage_fold_iff a b c r :
  UsageWF a → UsageWF b → UsageWF c →
  (let? ab := AddUsage a b in AddUsage ab c) = Ok r
  ↔ r = usage_plus (usage_plus a b) c ∧ total r ≤ int64_max.
Proof.
  intros Ha Hb Hc. rewrite res_bind_ok. split.
  - intros (ab & Hab & H). pose proof (AddUsage_wf _ _ _ Ha Hb Hab).
    apply AddUsage_iff in Hab as [-> _]; [|done..]. by apply AddUsage_iff in H.
  - intros [-> Ht]. pose proof (total_nonneg c Hc). rewrite total_plus in Ht.
    exists (usage_plus a b). split; [apply AddUsage_iff; auto; split; [done|lia]|].
    apply AddUsage_iff; [apply UsageWF_plus; auto; lia|done|]. split; [done|]. by rewrite total_plus.
Qed.

(** ** Costs *)

Lemma cost_valid_counts c :
  cost_Validate c = Ok tt →
  0 ≤ KnownObservations c ∧ 0 ≤ UnknownObservations c ∧ fvalid (KnownSubtotalUSD c) = true
  ∧ (cost_Status c = CostUnavailable → KnownObservations c = 0 ∧ UnknownObservations c = 0)
  ∧ (cost_Status c = CostExact ↔ 0 < KnownObservations c ∧ UnknownObservations c = 0).
Proof.
  unfold cost_Validate. cbn zeta. rewrite !fail_if_then_ok.
  intros (Hf & Hn & H). unfold fvalid. rewrite Hf. bool_to_prop.
  do 2 (split; [done|]). split; [done|].
  destruct (String.eqb_spec (cost_Status c) CostExact) as [->|N1];
    [|destruct (String.eqb_spec (cost_Status c) CostPartial) as [->|N2];
    [|destruct (String.eqb_spec (cost_Status c) CostUnknown) as [->|N3];
    [|destruct (String.eqb_spec (cost_Status c) CostUnavailable) as [->|N4]; [|done]]]];
    apply fail_if_ok in H; bool_to_prop; (split; [done || intros; lia|]); split; try done; lia.
Qed.

(** A valid cost whose counters are [int64] values, as Go's type has them. *)
Definition CostWF (c : Cost) : Prop :=
  cost_Validate c = Ok tt ∧ in_int64 (KnownObservations c) ∧ in_int64 (UnknownObservations c).

Lemma wrap64_sum_nonneg a b :
  0 ≤ a → 0 ≤ b → in_int64 a → in_int64 b → 0 ≤ wrap64 (a + b) → wrap64 (a + b) = a + b.
Proof.
  intros Ha Hb Ia Ib H. destruct (wrap64_mod (a + b)) as [k Hk].
  pose proof (wrap64_range (a + b)). unfold in_int64, int64_min, int64_max in *. lia.
Qed.

Lemma AddCost_ok l r c :
  CostWF l → CostWF r → AddCost l r = Ok c →
  CostWF c
  ∧ KnownObservations c = KnownObservations l + KnownObservations r
  ∧ UnknownObservations c = UnknownObservations l + UnknownObservations r.
Proof.
  intros (Hl & Il & Jl) (Hr & Ir & Jr). unfold AddCost. rewrite Hl, Hr. cbn [res_bind].
  pose proof (cost_valid_counts l Hl) as (? & ? & _ & Ul & _).
  pose proof (cost_valid_counts r Hr) as (? & ? & _ & Ur & _).
  destruct (String.eqb_spec (cost_Status l) CostUnavailable) as [El|Nl].
  { intros [= <-]. destruct (Ul El) as [-> ->]. done. }
  destruct (String.eqb_spec (cost_Status r) CostUnavailable) as [Er|Nr].
  { intros [= <-]. destruct (Ur Er) as [-> ->]. rewrite !Z.add_0_r. done. }
  rewrite check_then_ok. intros [Hc [= <-]].
  pose proof (cost_valid_counts _ Hc) as (Hk & Hu & _). cbn in Hk, Hu.
  split; [split; [done|]; cbn; auto with harden|]. cbn.
  by rewrite !wrap64_sum_nonneg.
Qed.

Lemma UnknownCost_wf s : CostWF (UnknownCost s).
Proof. unfold CostWF, in_int64, int64_min, int64_max. cbn. split; [done|lia]. Qed.

Lemma UnavailableCost_wf : CostWF UnavailableCost.
Proof. unfold CostWF, in_int64, int64_min, int64_max. cbn. split; [done|lia]. Qed.

Lemma UnavailableUsage_wf : UsageWF UnavailableUsage.
Proof. by apply usage_Validate_iff. Qed.

(** ** The accumulator *)

Definition AccWF (acc : ProviderAccumulator) : Prop :=
  UsageWF (ledger_Usage (acc_ledger acc)) ∧ CostWF (ledger_Cost (acc_ledger acc)).

(** The counters of an observed cost are [int64] values. *)
Definition ledger_int64 (o : Ledger) : Prop :=
  in_int64 (KnownObservations (ledger_Cost o)) ∧ in_int64 (UnknownObservations (ledger_Cost o)).

Lemma addUnknownCost_wf acc : AccWF acc → AccWF (addUnknownCost acc).
Proof.
  intros [Hu Hc]. unfold addUnknownCost.
  destruct (AddCost _ _) as [c|] eqn:E; [|done].
  split; [done|]. eapply AddCost_ok in E; [apply E|done|apply UnknownCost_wf].
Qed.

(** [Observe] in two independent halves. *)
Definition observe_usage (acc : ProviderAccumulator) (observed : bool) (u : Usage) : ProviderAccumulator :=
  match usage_Validate u with
  | Err _ => if observed then acc <| missingUsage := true |> else acc
  | Ok _ =>
      if String.eqb (usage_Status u) UsageUnavailable
      then if observed then acc <| missingUsage := true |> else acc
      else match AddUsage (ledger_Usage (acc_ledger acc)) u with
      | Err _ => acc <| missingUsage := true |>
      | Ok usage => set_usage acc usage
      end
  end.

Definition observe_cost (acc : ProviderAccumulator) (observed : bool) (c : Cost) : ProviderAccumulator :=
  match cost_Validate c with
  | Err _ => if observed then addUnknownCost acc else acc
  | Ok _ =>
      if String.eqb (cost_Status c) CostUnavailable
      then if observed then addUnknownCost acc else acc
      else match AddCost (ledger_Cost (acc_ledger acc)) c with
      | Err _ => if observed then addUnknownCost acc else acc
      | Ok cost => set_cost acc cost
      end
  end.

Definition was_observed (dispatched : bool) (o : Ledger) : bool :=
  dispatched
  || is_ok (usage_Validate (ledger_Usage o)) && negb (String.eqb (usage_Status (ledger_Usage o)) UsageUnavailable)
  || is_ok (cost_Validate (ledger_Cost o)) && negb (String.eqb (cost_Status (ledger_Cost o)) CostUnavailable).

Lemma Observe_split acc dispatched o :
  fst (Observe acc dispatched o)
  = observe_cost (observe_usage acc (was_observed dispatched o) (ledger_Usage o))
      (was_observed dispatched o) (ledger_Cost o).
Proof.
  unfold Observe, observe_usage, observe_cost. cbn zeta. fold (was_observed dispatched o).
  generalize (was_observed dispatched o) as w. intros w.
  destruct (usage_Validate (ledger_Usage o)) as [[]|e], w; cbn [is_ok negb andb];
    try destruct (String.eqb (usage_Status (ledger_Usage o)) UsageUnavailable);
    try destruct (AddUsage _ _); destruct (cost_Validate _) as [[]|];
    try destruct (String.eqb (cost_Status _) _); cbn; try destruct (AddCost _ _); reflexivity.
Qed.

Lemma observe_usage_wf acc observed u : AccWF acc → AccWF (observe_usage acc observed u).
Proof.
  intros [Hu Hc]. unfold observe_usage.
  destruct (usage_Validate u) as [[]|] eqn:E; [|by destruct observed].
  destruct (String.eqb _ _); [by destruct observed|].
  destruct (AddUsage _ _) as [u'|] eqn:Ea; [|done].
  split; [|done]. apply usage_Validate_iff in E. exact (AddUsage_wf _ _ _ Hu E Ea).
Qed.

Lemma observe_cost_wf acc observed c :
  in_int64 (KnownObservations c) → in_int64 (UnknownObservations c) →
  AccWF acc → AccWF (observe_cost acc observed c).
Proof.
  intros Hk Hn Ha. pose proof (addUnknownCost_wf acc Ha). destruct Ha as [Hu Hc]. unfold observe_cost.
  destruct (cost_Validate c) as [[]|] eqn:E; [|by destruct observed].
  destruct (String.eqb _ _); [by destruct observed|].
  destruct (AddCost _ _) as [c'|] eqn:Ea; [|by destruct observed].
  split; [done|]. by apply AddCost_ok in Ea as [? _].
Qed.

Lemma Observe_wf acc dispatched o : ledger_int64 o → AccWF acc → AccWF (fst (Observe acc dispatched o)).
Proof.
  intros [? ?] Ha. rewrite Observe_split. apply observe_cost_wf; auto using observe_usage_wf.
Qed.

Lemma accumulator_Ledger_wf acc :
  AccWF acc → UsageWF (ledger_Usage (accumulator_Ledger acc)) ∧ CostWF (ledger_Cost (accumulator_Ledger acc)).
Proof.
  intros [Hu Hc]. unfold accumulator_Ledger. destruct (_ && _); [|done]. split; [|done]. cbn.
  destruct Hu as (_ & ? & ? & ? & ? & ? & ?). unfold UsageWF, total. cbn in *. tauto.
Qed.

(** The accumulator after a sequence of provider attempts. *)
Definition observe_all (observations : list (bool * Ledger)) : ProviderAccumulator :=
  foldl (fun acc o => fst (Observe acc o.1 o.2)) NewProviderAccumulator observations.

Lemma observe_all_wf observations :
  Forall (fun o => ledger_int64 o.2) observations → AccWF (observe_all observations).
Proof.
  unfold observe_all. assert (AccWF NewProviderAccumulator) as H0
    by (split; [apply UnavailableUsage_wf|apply UnavailableCost_wf]).
  revert H0. generalize NewProviderAccumulator.
  induction observations as [|o l IH]; intros acc Ha Hl; [done|].
  apply Forall_cons in Hl as [Ho Hl]. apply IH; [|done]. by apply Observe_wf.
Qed.

(** ** Pricing: what the loop counts *)

Definition usable_rate (r : option float64) : bool :=
  match r with Some r => rate_usable r | None => false end.
Definition priced (pairs : list (Z * option float64)) : nat :=
  length (filter (fun p => p.1 ≠ 0 ∧ usable_rate p.2 = true) pairs).
Definition unpriced (pairs : list (Z * option float64)) : nat :=
  length (filter (fun p => p.1 ≠ 0 ∧ usable_rate p.2 = false) pairs).

Lemma price_counts_spec pairs s k n :
  0 ≤ k → 0 ≤ n → k + n + llen pairs ≤ 1000 →
  ∃ s', price_counts pairs s k n = (s', k + Z.of_nat (priced pairs), n + Z.of_nat (unpriced pairs)).
Proof.
  unfold llen, priced, unpriced. revert s k n.
  induction pairs as [|[c r] pairs IH]; intros s k n Hk Hn Hb; cbn [price_counts].
  { exists s. rewrite !filter_nil. cbn. by rewrite !Z.add_0_r. }
  rewrite !filter_cons. cbn [fst snd length] in *.
  destruct (Z.eqb_spec c 0) as [->|Hc].
  { rewrite !decide_False by naive_solver. apply IH; lia. }
  destruct r as [r|]; cbn [usable_rate]; [destruct (rate_usable r)|].
  all: repeat case_decide; try tauto; try (destruct_and!; discriminate); cbn [length];
    rewrite wrap64_id by (unfold in_int64, int64_min, int64_max; lia).
  - destruct (IH (roundCost (fadd s (fmul (f64_of_Z c) r))) (k + 1) n) as [s' ->]; [lia..|].
    exists s'. apply f_equal2; [apply f_equal2; [done|lia]|lia].
  - destruct (IH s k (n + 1)) as [s' ->]; [lia..|]. exists s'. apply f_equal2; [apply f_equal2; [done|lia]|lia].
  - destruct (IH s k (n + 1)) as [s' ->]; [lia..|]. exists s'. apply f_equal2; [apply f_equal2; [done|lia]|lia].
Qed.

Definition priced_pairs (u : Usage) (p : Pricing) : list (Z * option float64) := zip (components u) (rates p).

Lemma unpriced_zero pairs :
  unpriced pairs = 0%nat ↔ ∀ c r, (c, r) ∈ pairs → c ≠ 0 → usable_rate r = true.
Proof.
  unfold unpriced. rewrite length_zero_iff_nil. split.
  - intros H c r Hin Hc. destruct (usable_rate r) eqn:E; [done|].
    assert ((c, r) ∈ filter (fun p => p.1 ≠ 0 ∧ usable_rate p.2 = false) pairs) as C
      by (apply list_elem_of_filter; done).
    rewrite H in C. by apply not_elem_of_nil in C.
  - intros H. destruct (filter _ pairs) as [|[c r] l] eqn:E; [done|].
    assert ((c, r) ∈ filter (fun p => p.1 ≠ 0 ∧ usable_rate p.2 = false) pairs) as C
      by (rewrite E; left).
    apply list_elem_of_filter in C as [[? ?] ?]. cbn in *. rewrite (H c r) in *; done.
Qed.

(** The status of a resolved cost, by the components that have a usable rate. *)
Lemma ResolveCost_cases usage pricing c :
  ResolveCost usage pricing None = Ok c →
  usage_Validate usage = Ok tt
  ∧ (usage_Status usage = UsageUnavailable → c = UnavailableCost)
  ∧ (usage_Status usage ≠ UsageUnavailable →
     let k := priced (priced_pairs usage pricing) in
     let n := unpriced (priced_pairs usage pricing) in
     (k = 0%nat → n = 0%nat →
        c = if allRatesMissing (rates pricing) then UnknownCost "missing_rate" else ExactCost fzero "profile")
     ∧ (k ≠ 0%nat → n ≠ 0%nat → cost_Status c = CostPartial)
     ∧ (k ≠ 0%nat → n = 0%nat → cost_Status c = CostExact)
     ∧ (k = 0%nat → n ≠ 0%nat → cost_Status c = CostUnknown)).
Proof.
  unfold ResolveCost. rewrite check_then_ok. intros [Hv H]. split; [done|].
  destruct (String.eqb_spec (usage_Status usage) UsageUnavailable) as [E|E].
  { injection H as <-. split; [done|]. intros N. by destruct N. }
  split; [done|]. intros _. cbn zeta. fold (priced_pairs usage pricing) in H.
  destruct (price_counts_spec (priced_pairs usage pricing) fzero 0 0) as [s Es];
    [lia..|unfold llen, priced_pairs; cbn; lia|].
  rewrite Es, !Z.add_0_l in H.
  destruct (priced (priced_pairs usage pricing)) as [|k], (unpriced (priced_pairs usage pricing)) as [|n];
    cbn [Z.of_nat Z.eqb Z.ltb Z.compare andb] in H.
  { destruct (allRatesMissing _); injection H as <-; tauto. }
  all: unfold validated in H; apply check_then_ok in H as [_ H]; injection H as <-;
    repeat split; intros; try discriminate; done.
Qed.

(** ** Properties *)

(** On valid usages [AddUsage] is exactly the componentwise sum over
    unbounded integers, with the unavailable usage as unit and partial coverage
    absorbing: it succeeds if and only if the total fits in an [int64], and then
    no component has wrapped. *)
Theorem AddUsage_correct a b c :
  usage_Validate a = Ok tt → usage_Validate b = Ok tt →
  AddUsage a b = Ok c ↔ c = usage_plus a b ∧ total (usage_plus a b) ≤ int64_max.
Proof.
  rewrite !usage_Validate_iff. intros Ha Hb. rewrite AddUsage_iff by done. naive_solver.
Qed.

Lemma AddUsage_correct_witness :
  AddUsage (MkUsage 1 2 3 4 5 "complete") (MkUsage 10 0 0 1 0 "partial") = Ok (MkUsage 11 2 3 5 5 "partial").
Proof.
  apply (proj2 (AddUsage_correct (MkUsage 1 2 3 4 5 "complete") (MkUsage 10 0 0 1 0 "partial")
    (MkUsage 11 2 3 5 5 "partial") eq_refl eq_refl)).
  split; [reflexivity | vm_compute; discriminate].
Defined.

(** Accumulating usages does not depend on their order or grouping: on valid
    usages addition commutes, and adding from the left and from the right give
    the same result or both overflow. *)
Theorem AddUsage_order_independent a b c r :
  usage_Validate a = Ok tt → usage_Validate b = Ok tt → usage_Validate c = Ok tt →
  (AddUsage a b = Ok r ↔ AddUsage b a = Ok r)
  ∧ ((let? ab := AddUsage a b in AddUsage ab c) = Ok r ↔ (let? bc := AddUsage b c in AddUsage a bc) = Ok r).
Proof.
  rewrite !usage_Validate_iff. intros Ha Hb Hc. split.
  - rewrite !AddUsage_iff by done. by rewrite usage_plus_comm.
  - rewrite AddUsage_fold_iff, usage_plus_assoc by done.
    rewrite res_bind_ok. split.
    + intros [-> Ht]. pose proof (total_nonneg a Ha). rewrite !total_plus in Ht.
      exists (usage_plus b c). split.
      * apply AddUsage_iff; auto. rewrite total_plus. split; [done|lia].
      * apply AddUsage_iff; [done| |by rewrite !total_plus].
        apply UsageWF_plus; auto. rewrite total_plus. lia.
    + intros (bc & Hbc & H). pose proof (AddUsage_wf _ _ _ Hb Hc Hbc).
      apply AddUsage_iff in Hbc as [-> _]; [|done..]. by apply AddUsage_iff in H.
Qed.

Lemma AddUsage_order_independent_witness :
  let u := MkUsage 1 0 0 1 0 "complete" in
  AddUsage UnavailableUsage u = Ok u.
Proof.
  cbn zeta.
  apply (proj1 (AddUsage_order_independent UnavailableUsage (MkUsage 1 0 0 1 0 "complete")
    UnavailableUsage (MkUsage 1 0 0 1 0 "complete") eq_refl eq_refl eq_refl)).
  reflexivity.
Defined.

(** Whatever provider attempts are observed, valid or not, dispatched or
    not, in any order, the accumulated provider ledger passes both validators. *)
Theorem accumulator_always_valid observations :
  Forall (fun o => ledger_int64 o.2) observations →
  let ledger := accumulator_Ledger (observe_all observations) in
  usage_Validate (ledger_Usage ledger) = Ok tt ∧ cost_Validate (ledger_Cost ledger) = Ok tt.
Proof.
  intros H%observe_all_wf. cbn zeta. destruct (accumulator_Ledger_wf _ H) as [Hu [Hc _]].
  by rewrite usage_Validate_iff.
Qed.

Lemma accumulator_always_valid_witness :
  let o := MkLedger (MkUsage (-1) 0 0 0 0 "complete") (MkCost fzero "exact" "" 0 0) in
  cost_Validate (ledger_Cost (accumulator_Ledger (observe_all [(true, o)]))) = Ok tt.
Proof.
  cbn zeta. apply (accumulator_always_valid
    [(true, MkLedger (MkUsage (-1) 0 0 0 0 "complete") (MkCost fzero "exact" "" 0 0))]).
  repeat constructor; vm_compute; discriminate.
Defined.

(** Usage and cost are committed independently: a valid measurement in one
    dimension is added to the ledger whatever the other one is. *)
Theorem Observe_commits_independently acc dispatched o :
  (∀ u, usage_Validate (ledger_Usage o) = Ok tt → usage_Status (ledger_Usage o) ≠ UsageUnavailable →
    AddUsage (ledger_Usage (acc_ledger acc)) (ledger_Usage o) = Ok u →
    ledger_Usage (acc_ledger (fst (Observe acc dispatched o))) = u)
  ∧ (∀ c, cost_Validate (ledger_Cost o) = Ok tt → cost_Status (ledger_Cost o) ≠ CostUnavailable →
    AddCost (ledger_Cost (acc_ledger acc)) (ledger_Cost o) = Ok c →
    ledger_Cost (acc_ledger (fst (Observe acc dispatched o))) = c).
Proof.
  rewrite Observe_split. generalize (was_observed dispatched o) as w. intros w. split.
  - intros u Hv Hs Ha. unfold observe_usage.
    rewrite Hv, (proj2 (String.eqb_neq _ _) Hs), Ha. unfold observe_cost, addUnknownCost.
    destruct (cost_Validate _), w; try destruct (String.eqb _ _); repeat destruct (AddCost _ _); done.
  - intros c Hv Hs Ha. unfold observe_cost. rewrite Hv, (proj2 (String.eqb_neq _ _) Hs).
    assert (ledger_Cost (acc_ledger (observe_usage acc w (ledger_Usage o))) = ledger_Cost (acc_ledger acc)) as ->.
    { unfold observe_usage. destruct (usage_Validate _), w; try destruct (String.eqb _ _);
        try destruct (AddUsage _ _); done. }
    by rewrite Ha.
Qed.

Lemma Observe_commits_independently_witness :
  let o := MkLedger (MkUsage 1 0 0 2 0 "complete") (MkCost fzero "exact" "" 0 0) in
  ledger_Usage (acc_ledger (fst (Observe NewProviderAccumulator true o))) = MkUsage 1 0 0 2 0 "complete".
Proof.
  cbn zeta. apply (proj1 (Observe_commits_independently NewProviderAccumulator true
    (MkLedger (MkUsage 1 0 0 2 0 "complete") (MkCost fzero "exact" "" 0 0)))); [reflexivity|discriminate|reflexivity].
Defined.

(** Adding costs never loses uncertainty: the counters add up without
    wrapping, the result is valid, and it is exact only when neither operand had
    an unknown observation. *)
Theorem AddCost_certainty l r c :
  CostWF l → CostWF r → AddCost l r = Ok c →
  cost_Validate c = Ok tt
  ∧ KnownObservations c = KnownObservations l + KnownObservations r
  ∧ UnknownObservations c = UnknownObservations l + UnknownObservations r
  ∧ (cost_Status c = CostExact → UnknownObservations l = 0 ∧ UnknownObservations r = 0).
Proof.
  intros Hl Hr H. destruct (AddCost_ok l r c Hl Hr H) as ([Hc _] & Hk & Hu).
  do 3 (split; [done|]). intros E. destruct Hl as [Hl _], Hr as [Hr _].
  pose proof (cost_valid_counts l Hl). pose proof (cost_valid_counts r Hr).
  destruct (cost_valid_counts c Hc) as (_ & _ & _ & _ & Hx). apply Hx in E. lia.
Qed.

Lemma AddCost_certainty_witness :
  ∃ c, AddCost (ExactCost (f64_of_Z 2) "reported") (UnknownCost "unknown") = Ok c ∧ UnknownObservations c = 1.
Proof.
  eexists. split; [vm_compute; reflexivity|].
  refine (proj1 (proj2 (proj2 (AddCost_certainty (ExactCost (f64_of_Z 2) "reported") (UnknownCost "unknown") _ _ _ _)))).
  - repeat split; vm_compute; congruence.
  - repeat split; vm_compute; congruence.
  - vm_compute; reflexivity.
Defined.

(** A priced usage is reported as exact only when every token component
    that was used has a usable rate, and as partial only when some used
    component has one and some has not. *)
Theorem ResolveCost_certainty usage pricing c :
  ResolveCost usage pricing None = Ok c →
  (cost_Status c = CostExact →
     ∀ count rate, (count, rate) ∈ priced_pairs usage pricing → count ≠ 0 → usable_rate rate = true)
  ∧ (cost_Status c = CostPartial →
     (0 < priced (priced_pairs usage pricing))%nat ∧ (0 < unpriced (priced_pairs usage pricing))%nat).
Proof.
  intros H. destruct (ResolveCost_cases _ _ _ H) as (_ & Hu & Hc). rewrite <- unpriced_zero.
  destruct (decide (usage_Status usage = UsageUnavailable)) as [E|E].
  { by rewrite (Hu E). }
  specialize (Hc E). cbn zeta in Hc. destruct Hc as (H1 & H2 & H3 & H4).
  destruct (priced _) as [|k], (unpriced _) as [|n].
  - rewrite H1 by done. split; [done|]. destruct (allRatesMissing _); discriminate.
  - rewrite H4 by done. split; discriminate.
  - rewrite H3 by done. split; [done|discriminate].
  - rewrite H2 by done. split; [discriminate|lia].
Qed.

Lemma ResolveCost_certainty_witness :
  ∃ c, ResolveCost (MkUsage 3 0 0 0 0 "complete") (MkPricing (Some (f64_of_Z 2)) None None None None) None = Ok c
    ∧ cost_Status c = CostExact
    ∧ (∀ count rate, (count, rate) ∈ priced_pairs (MkUsage 3 0 0 0 0 "complete")
         (MkPricing (Some (f64_of_Z 2)) None None None None) → count ≠ 0 → usable_rate rate = true).
Proof.
  eexists. split; [vm_compute; reflexivity|]. split; [reflexivity|].
  refine (proj1 (ResolveCost_certainty (MkUsage 3 0 0 0 0 "complete")
    (MkPricing (Some (f64_of_Z 2)) None None None None) _ _) _); [vm_compute; reflexivity|reflexivity].
Defined.
