(* ===== verification/Pricing.v ===== *)
(** * Pricing: itemised usage with rates

    Models [src/internal/accounting/pricing.go]: a usage as a map from the five
    item types to a token count and an optional rate, its normalisation, its
    summary by display group, its addition and its cost.  Go maps are [gmap]s;
    a nil map is [None].  The token totals of a summary are added without an
    overflow check, so they are [wrap64] sums here as in the code. *)
From Corelib Require Import SpecFloat.
From stdpp Require Import gmap.
From S2P Require Import Prelude Float64 Accounting.

Open Scope string_scope.
Open Scope list_scope.
Open Scope Z_scope.

Definition ItemInput : string := "input".
Definition ItemCacheRead : string := "cacheReadInput".
Definition ItemCacheCreation : string := "cacheCreationInput".
Definition ItemOutput : string := "output".
Definition ItemReasoning : string := "reasoningOutput".

Definition itemOrder : list string := [ItemInput; ItemCacheRead; ItemCacheCreation; ItemOutput; ItemReasoning].

Definition displayGroup : gmap string string :=
  list_to_map [(ItemInput, "input"); (ItemCacheRead, "cache"); (ItemCacheCreation, "cache");
               (ItemOutput, "output"); (ItemReasoning, "output")].

Record Item := MkItem { it_Tokens : Z; it_RatePerToken : option float64 }.
Definition zeroItem : Item := MkItem 0 None.

Record PricedUsage := MkPricedUsage { pu_Items : option (gmap string Item) }.

Record SummaryItem := MkSummaryItem {
  si_Tokens : Z;
  si_RatePerToken : option float64;
  si_Cost : option float64;
  si_CostKnown : bool;
  si_DisplayGroup : string;
}.

Record GroupSummary := MkGroup { gs_Tokens : Z; gs_Cost : option float64; gs_CostKnown : bool }.

Record Summary := MkSummary {
  su_Items : gmap string SummaryItem;
  su_Groups : gmap string GroupSummary;
  su_TotalTokens : Z;
  su_TotalCost : option float64;
  su_CostKnown : bool;
}.

(** [items[itemType]]: the zero value when the key is absent. *)
Definition item_of (items : gmap string Item) (itemType : string) : Item := default zeroItem (items !! itemType).

(** The loop over [itemOrder] that checks and copies each item. *)
Fixpoint normalize_items (items : gmap string Item) (order : list string) (result : gmap string Item)
  : res acc_error (gmap string Item) :=
  match order with
  | [] => Ok result
  | itemType :: rest =>
      let item := item_of items itemType in
      let? _ := fail_if (it_Tokens item <? 0) (NegativeItemTokens itemType) in
      let? _ := match it_RatePerToken item with
                | Some rate => fail_if (IsNaN rate || IsInf rate || fltb rate fzero) (InvalidItemRate itemType)
                | None => Ok tt
                end in
      normalize_items items rest (<[itemType := item]> result)
  end.

Definition NormalizePricedUsage (usage : PricedUsage) : res acc_error PricedUsage :=
  match pu_Items usage with
  | None => Err PricedItemsRequired
  | Some items =>
      match List.find (fun kv => bool_decide (displayGroup !! kv.1 = None)) (map_to_list items) with
      | Some (itemType, _) => Err (UnsupportedItemType itemType)
      | None =>
          let? result := normalize_items items itemOrder ∅ in
          Ok (MkPricedUsage (Some result))
      end
  end.

Definition ZeroPricedUsage : PricedUsage :=
  MkPricedUsage (Some (foldl (fun items itemType => <[itemType := zeroItem]> items) ∅ itemOrder)).

(** The group of an item type, the empty string for an unknown one. *)
Definition group_of (itemType : string) : string := default "" (displayGroup !! itemType).

Definition zeroGroup : GroupSummary := MkGroup 0 None false.

Definition item_known (item : Item) : bool :=
  (it_Tokens item =? 0) || bool_decide (is_Some (it_RatePerToken item)).

(** The cost of an item whose cost is known. *)
Definition item_value (item : Item) : float64 :=
  match it_RatePerToken item with
  | Some rate => roundCost (fmul (f64_of_Z (it_Tokens item)) rate)
  | None => fzero
  end.

(** A group with one more item; [Cost] is not nil while [CostKnown] holds. *)
Definition group_add (group : GroupSummary) (item : Item) : GroupSummary :=
  let known := item_known item in
  let group := group <| gs_Tokens ::= fun n => wrap64 (n + it_Tokens item) |> in
  if known && gs_CostKnown group then
    group <| gs_Cost ::= fun cost => match cost with
                                     | Some c => Some (roundCost (fadd c (item_value item)))
                                     | None => None
                                     end |>
  else if negb known then group <| gs_Cost := None |> <| gs_CostKnown := false |>
  else group.

(** One turn of the loop over [itemOrder], with the running total of the costs. *)
Definition summarize_item (items : gmap string Item) (acc : Summary * float64) (itemType : string)
  : Summary * float64 :=
  let '(result, totalCost) := acc in
  let item := item_of items itemType in
  let known := item_known item in
  let totalCost := if known then roundCost (fadd totalCost (item_value item)) else totalCost in
  let group := default zeroGroup (su_Groups result !! group_of itemType) in
  let result :=
    result <| su_Items ::= insert itemType
                (MkSummaryItem (it_Tokens item) (it_RatePerToken item)
                   (if known then Some (item_value item) else None) known (group_of itemType)) |>
           <| su_TotalTokens ::= fun n => wrap64 (n + it_Tokens item) |>
           <| su_Groups ::= insert (group_of itemType) (group_add group item) |>
           <| su_CostKnown ::= fun k => k && known |> in
  (result, totalCost).

Definition emptySummary : Summary :=
  MkSummary ∅ (list_to_map [("input", MkGroup 0 (Some fzero) true); ("cache", MkGroup 0 (Some fzero) true);
                            ("output", MkGroup 0 (Some fzero) true)]) 0 None true.

Definition SummarizePricedUsage (usage : PricedUsage) : res acc_error Summary :=
  let? normalized := NormalizePricedUsage usage in
  let items := default ∅ (pu_Items normalized) in
  let '(result, totalCost) := foldl (summarize_item items) (emptySummary, fzero) itemOrder in
  Ok (if su_CostKnown result then result <| su_TotalCost := Some totalCost |> else result).

Definition ResolvePricedCost (usage : PricedUsage) (reported : option float64) : res acc_error Cost :=
  match reported with
  | Some value => validated (ExactCost value "reported")
  | None =>
      let? summary := SummarizePricedUsage usage in
      if su_CostKnown summary then
        match su_TotalCost summary with
        | Some total => Ok (ExactCost total "calculated")
        | None => Ok (UnknownCost "missing_rate")
        end
      else Ok (UnknownCost "missing_rate")
  end.

Definition mergeRate (itemType : string) (left right : option float64) : res acc_error (option float64) :=
  match left, right with
  | None, None => Ok None
  | None, Some r => Ok (Some r)
  | Some l, None => Ok (Some l)
  | Some l, Some r => if negb (feqb l r) then Err (ConflictingRate itemType) else Ok (Some l)
  end.

Fixpoint add_items (left right : gmap string Item) (order : list string) (result : gmap string Item)
  : res acc_error (gmap string Item) :=
  match order with
  | [] => Ok result
  | itemType :: rest =>
      let leftItem := item_of left itemType in
      let rightItem := item_of right itemType in
      let? rate := mergeRate itemType (it_RatePerToken leftItem) (it_RatePerToken rightItem) in
      let? tokens := checkedSum [it_Tokens leftItem; it_Tokens rightItem] in
      add_items left right rest (<[itemType := MkItem tokens rate]> result)
  end.

Definition AddPricedUsage (left right : PricedUsage) : res acc_error PricedUsage :=
  let? left := NormalizePricedUsage left in
  let? right := NormalizePricedUsage right in
  let? items := add_items (default ∅ (pu_Items left)) (default ∅ (pu_Items right)) itemOrder
                  (default ∅ (pu_Items ZeroPricedUsage)) in
  Ok (MkPricedUsage (Some items)).

Definition PricedUsageFrom (usage : Usage) (pricing : Pricing) : PricedUsage :=
  MkPricedUsage (Some (list_to_map
    [(ItemInput, MkItem (InputTokens usage) (price_Input pricing));
     (ItemCacheRead, MkItem (CacheReadTokens usage) (price_CacheRead pricing));
     (ItemCacheCreation, MkItem (CacheCreationTokens usage) (price_CacheCreation pricing));
     (ItemOutput, MkItem (OutputTokens usage) (price_Output pricing));
     (ItemReasoning, MkItem (ReasoningTokens usage) (price_Reasoning pricing))])).

(** ** Normalisation *)

Definition ItemWF (item : Item) : Prop :=
  0 ≤ it_Tokens item ∧ ∀ rate, it_RatePerToken item = Some rate → rate_usable rate = true.

Lemma displayGroup_dom t : displayGroup !! t = None ↔ t ∉ itemOrder.
Proof.
  unfold displayGroup. rewrite <- not_elem_of_list_to_map. cbn. done.
Qed.

Lemma normalize_items_iff items order result r :
  normalize_items items order result = Ok r
  ↔ Forall (fun t => ItemWF (item_of items t)) order
    ∧ r = foldl (fun m t => <[t := item_of items t]> m) result order.
Proof.
  revert result. induction order as [|t order IH]; intros result; cbn [normalize_items foldl].
  { rewrite Forall_nil. naive_solver. }
  rewrite fail_if_then_ok, check_then_ok, Z.ltb_ge, IH, Forall_cons. unfold ItemWF.
  assert ((match it_RatePerToken (item_of items t) with
           | Some rate => fail_if (IsNaN rate || IsInf rate || fltb rate fzero) (InvalidItemRate t)
           | None => Ok tt end = Ok tt)
          ↔ ∀ rate, it_RatePerToken (item_of items t) = Some rate → rate_usable rate = true) as E.
  { destruct (it_RatePerToken (item_of items t)) as [rate|]; [|naive_solver].
    rewrite fail_if_ok. unfold rate_usable. split; [intros H ? [= <-]; by rewrite H|].
    intros H. specialize (H rate eq_refl). by apply negb_true_iff in H. }
  rewrite E. tauto.
Qed.

Lemma foldl_insert_lookup {A : Type} (f : string → A) (order : list string) (m : gmap string A) t :
  foldl (fun m t => <[t := f t]> m) m order !! t = (if decide (t ∈ order) then Some (f t) else m !! t).
Proof.
  revert m. induction order as [|s order IH]; intros m; cbn [foldl].
  { rewrite decide_False; [done|]. apply not_elem_of_nil. }
  rewrite IH. destruct (decide (t = s)) as [->|N].
  - rewrite (decide_True (P := s ∈ s :: order)) by left.
    destruct (decide (s ∈ order)); [done|]. apply lookup_insert_eq.
  - rewrite lookup_insert_ne by done.
    destruct (decide (t ∈ order)) as [H|H], (decide (t ∈ s :: order)) as [H'|H']; try done.
    + destruct H'. by right.
    + apply elem_of_cons in H' as [?|?]; done.
Qed.

(** What a normalised usage is: exactly the five items, each of them valid. *)
Definition Normalised (items : gmap string Item) : Prop :=
  (∀ t, is_Some (items !! t) ↔ t ∈ itemOrder) ∧ ∀ t, ItemWF (item_of items t).

Lemma zeroItem_wf : ItemWF zeroItem.
Proof. split; [done|]. intros ? [=]. Qed.

Lemma NormalizePricedUsage_iff usage r :
  NormalizePricedUsage usage = Ok r
  ↔ ∃ items items', pu_Items usage = Some items ∧ r = MkPricedUsage (Some items')
      ∧ (∀ t, is_Some (items !! t) → t ∈ itemOrder)
      ∧ Normalised items' ∧ ∀ t, item_of items' t = item_of items t.
Proof.
  unfold NormalizePricedUsage. destruct usage as [[items|]]; cbn [pu_Items]; [|naive_solver].
  assert (List.find (fun kv => bool_decide (displayGroup !! kv.1 = None)) (map_to_list items) = None
          ↔ ∀ t, is_Some (items !! t) → t ∈ itemOrder) as Hfind.
  { split.
    - intros H t [i Hi]. apply elem_of_map_to_list, list_elem_of_In in Hi.
      apply (find_none _ _ H) in Hi. apply bool_decide_eq_false in Hi. cbn in Hi.
      rewrite displayGroup_dom in Hi. by apply dec_stable.
    - intros H. destruct (List.find _ _) as [[t i]|] eqn:E; [|done]. exfalso.
      apply find_some in E as [Hin E%bool_decide_eq_true]. cbn in E. apply displayGroup_dom in E. apply E, H.
      apply list_elem_of_In, elem_of_map_to_list in Hin. by eexists. }
  destruct (List.find _ _) as [[t i]|] eqn:E.
  { split; [done|]. intros (i1 & i2 & [= <-] & _ & H & _). by apply Hfind in H. }
  assert (∀ t, is_Some (items !! t) → t ∈ itemOrder) as Hdom by (by apply Hfind).
  rewrite res_bind_ok. split.
  - intros (m & Hm & [= <-]). apply normalize_items_iff in Hm as [Hwf ->].
    assert (∀ t, item_of (foldl (fun m t => <[t := item_of items t]> m) ∅ itemOrder) t = item_of items t) as Hsame.
    { intros t. unfold item_of at 1. rewrite foldl_insert_lookup. destruct (decide (t ∈ itemOrder)) as [|N]; [done|].
      rewrite lookup_empty. unfold item_of. destruct (items !! t) eqn:Et; [|done]. destruct N. apply Hdom. by eexists. }
    exists items, (foldl (fun m t => <[t := item_of items t]> m) ∅ itemOrder).
    do 3 (split; [done|]). split; [|done]. split.
    + intros t. rewrite foldl_insert_lookup. destruct (decide (t ∈ itemOrder)) as [H|H]; [split; done|].
      rewrite lookup_empty. split; [by intros []|done].
    + intros t. rewrite Hsame. destruct (decide (t ∈ itemOrder)) as [H|H].
      * by apply (proj1 (Forall_elem _ _) Hwf).
      * unfold item_of. destruct (items !! t) eqn:Et; [|apply zeroItem_wf]. destruct H. apply Hdom. by eexists.
  - intros (i1 & i2 & [= <-] & -> & _ & [Hd Hwf] & Hsame). exists i2. split; [|done].
    apply normalize_items_iff. split.
    + apply Forall_elem. intros t _. rewrite <- Hsame. apply Hwf.
    + apply map_eq. intros t. rewrite foldl_insert_lookup.
      destruct (decide (t ∈ itemOrder)) as [H|H].
      * destruct (proj2 (Hd t) H) as [i Hi]. rewrite Hi, <- Hsame. unfold item_of. by rewrite Hi.
      * rewrite lookup_empty. destruct (i2 !! t) eqn:Et; [|done]. destruct H. apply Hd. by eexists.
Qed.

(** ** Summaries *)

Definition tokens_of (items : gmap string Item) (l : list string) : Z :=
  sum_list (map (fun t => it_Tokens (item_of items t)) l).
Definition all_known (items : gmap string Item) (l : list string) : bool :=
  forallb (fun t => item_known (item_of items t)) l.
Definition in_group (g : string) (l : list string) : list string := List.filter (fun t => String.eqb (group_of t) g) l.
Definition groups : list string := ["input"; "cache"; "output"].

Record SumInv (items : gmap string Item) (l : list string) (s : Summary) : Prop := {
  si_total : su_TotalTokens s = wrap64 (tokens_of items l);
  si_known : su_CostKnown s = all_known items l;
  si_nocost : su_TotalCost s = None;
  si_groups : ∀ g, g ∈ groups → ∃ gs, su_Groups s !! g = Some gs
    ∧ gs_Tokens gs = wrap64 (tokens_of items (in_group g l))
    ∧ gs_CostKnown gs = all_known items (in_group g l)
    ∧ (is_Some (gs_Cost gs) ↔ gs_CostKnown gs = true);
  si_items : ∀ t, t ∈ l → su_Items s !! t = Some
    (let item := item_of items t in
     MkSummaryItem (it_Tokens item) (it_RatePerToken item)
       (if item_known item then Some (item_value item) else None) (item_known item) (group_of t));
}.

Lemma sum_list_snoc l x : sum_list (l ++ [x]) = sum_list l + x.
Proof. induction l; cbn in *; lia. Qed.

Lemma tokens_of_snoc items l t : tokens_of items (l ++ [t]) = tokens_of items l + it_Tokens (item_of items t).
Proof. unfold tokens_of. rewrite map_app. cbn [map]. apply sum_list_snoc. Qed.

Lemma all_known_snoc items l t : all_known items (l ++ [t]) = all_known items l && item_known (item_of items t).
Proof. unfold all_known. rewrite forallb_app. cbn. by rewrite andb_true_r. Qed.

Lemma in_group_snoc g l t :
  in_group g (l ++ [t]) = if String.eqb (group_of t) g then in_group g l ++ [t] else in_group g l.
Proof. unfold in_group. rewrite List.filter_app. cbn. destruct (String.eqb _ _); [done|]. apply app_nil_r. Qed.

(** A group tracks the items added to it. *)
Lemma group_add_spec items l t gs :
  gs_Tokens gs = wrap64 (tokens_of items l) → gs_CostKnown gs = all_known items l →
  (is_Some (gs_Cost gs) ↔ gs_CostKnown gs = true) →
  let gs' := group_add gs (item_of items t) in
  gs_Tokens gs' = wrap64 (tokens_of items (l ++ [t]))
  ∧ gs_CostKnown gs' = all_known items (l ++ [t])
  ∧ (is_Some (gs_Cost gs') ↔ gs_CostKnown gs' = true).
Proof.
  intros Ht Hk Hc. cbn zeta. rewrite tokens_of_snoc, all_known_snoc, <- wrap64_add, <- Ht, <- Hk.
  destruct gs as [n c k]. cbn [gs_Tokens gs_Cost gs_CostKnown] in *. unfold group_add.
  destruct (item_known (item_of items t)), k; cbn; (split; [done|]); (split; [done|]); try done.
  destruct c; [naive_solver|]. destruct (proj2 Hc eq_refl). discriminate.
Qed.

Lemma summarize_item_inv items l s c t :
  SumInv items l s → SumInv items (l ++ [t]) (summarize_item items (s, c) t).1.
Proof.
  intros [Ht Hk Hn Hg Hi]. unfold summarize_item. cbn [fst]. split.
  - rewrite tokens_of_snoc, <- wrap64_add, <- Ht. done.
  - rewrite all_known_snoc, <- Hk. done.
  - done.
  - intros g Hin. destruct (Hg g Hin) as (gs & El & H1 & H2 & H3). rewrite in_group_snoc.
    cbn -[group_add group_of]. destruct (String.eqb_spec (group_of t) g) as [<-|N].
    + rewrite lookup_insert_eq, El. cbn [default]. eexists. split; [done|]. by apply group_add_spec.
    + rewrite lookup_insert_ne by done. eauto.
  - intros u Hu. cbn -[group_of]. destruct (decide (u = t)) as [->|N].
    + by rewrite lookup_insert_eq.
    + rewrite lookup_insert_ne by done. apply Hi. apply elem_of_app in Hu as [?|Hu]; [done|].
      by apply list_elem_of_singleton in Hu.
Qed.

Lemma emptySummary_inv items : SumInv items [] emptySummary.
Proof.
  split; [done..| |].
  - intros g Hg. exists (MkGroup 0 (Some fzero) true). split; [|done].
    unfold groups in Hg. rewrite !elem_of_cons in Hg.
    destruct Hg as [->|[->|[->|[]%not_elem_of_nil]]]; reflexivity.
  - intros t []%not_elem_of_nil.
Qed.

Lemma summarize_inv items order :
  SumInv items order (foldl (summarize_item items) (emptySummary, fzero) order).1.
Proof.
  induction order as [|t l IH] using rev_ind; [apply emptySummary_inv|].
  rewrite foldl_app. cbn [foldl]. destruct (foldl _ _ l) as [s c]. by apply summarize_item_inv.
Qed.

Lemma SummarizePricedUsage_ok usage summary :
  SummarizePricedUsage usage = Ok summary →
  ∃ items s c, pu_Items usage = Some items ∧ SumInv items itemOrder s
    ∧ summary = if all_known items itemOrder then s <| su_TotalCost := Some c |> else s.
Proof.
  unfold SummarizePricedUsage. rewrite res_bind_ok. intros (n & Hn & H).
  apply NormalizePricedUsage_iff in Hn as (items & items' & Hi & -> & _ & _ & Hsame). cbn [pu_Items default] in H.
  pose proof (summarize_inv items' itemOrder) as Hinv. cbn -[itemOrder summarize_item] in H.
  destruct (foldl _ _ _) as [s c]. injection H as <-. exists items, s, c. split; [done|].
  assert (∀ l, tokens_of items' l = tokens_of items l) as Et
    by (intros l; unfold tokens_of; f_equal; apply map_ext; intros; by rewrite Hsame).
  assert (∀ l, all_known items' l = all_known items l) as Ek.
  { intros l. unfold all_known. induction l as [|x l IHl]; [done|]. cbn. by rewrite Hsame, IHl. }
  destruct Hinv as [H1 H2 H3 H4 H5]. cbn [fst] in *. split.
  - split; [by rewrite <- Et|by rewrite <- Ek|done| |].
    + intros g Hg. destruct (H4 g Hg) as (gs & ? & ? & ? & ?). exists gs. by rewrite <- Et, <- Ek.
    + intros t Ht. by rewrite H5, Hsame.
  - by rewrite H2, Ek.
Qed.

Lemma all_known_iff items l :
  all_known items l = true
  ↔ ∀ t, t ∈ l → it_Tokens (item_of items t) = 0 ∨ is_Some (it_RatePerToken (item_of items t)).
Proof.
  unfold all_known. rewrite forallb_forall. setoid_rewrite list_elem_of_In.
  apply forall_proper; intros t. apply forall_proper; intros _.
  unfold item_known. by rewrite orb_true_iff, Z.eqb_eq, bool_decide_eq_true.
Qed.

(** Without overflow the totals are the sums, and the groups partition them. *)
Lemma group_tokens_partition items :
  tokens_of items itemOrder
  = tokens_of items (in_group "input" itemOrder) + tokens_of items (in_group "cache" itemOrder)
    + tokens_of items (in_group "output" itemOrder).
Proof.
  change (in_group "input" itemOrder) with [ItemInput].
  change (in_group "cache" itemOrder) with [ItemCacheRead; ItemCacheCreation].
  change (in_group "output" itemOrder) with [ItemOutput; ItemReasoning].
  unfold tokens_of, itemOrder. cbn [map sum_list]. lia.
Qed.

Lemma SummarizePricedUsage_valid usage summary :
  SummarizePricedUsage usage = Ok summary →
  ∃ items, pu_Items usage = Some items ∧ ∀ t, 0 ≤ it_Tokens (item_of items t).
Proof.
  unfold SummarizePricedUsage. rewrite res_bind_ok. intros (n & Hn & _).
  apply NormalizePricedUsage_iff in Hn as (items & items' & Hi & -> & _ & [_ Hwf] & Hsame).
  exists items. split; [done|]. intros t. rewrite <- Hsame. apply Hwf.
Qed.

(** ** Addition *)

Definition rates_agree (a b : option float64) : Prop :=
  match a, b with Some x, Some y => feqb x y = true | _, _ => True end.
Definition item_plus (a b : Item) : Item :=
  MkItem (it_Tokens a + it_Tokens b) (match it_RatePerToken a with Some r => Some r | None => it_RatePerToken b end).
Definition item_addable (a b : Item) : Prop :=
  it_Tokens a + it_Tokens b ≤ int64_max ∧ rates_agree (it_RatePerToken a) (it_RatePerToken b).

Lemma mergeRate_iff t a b r :
  mergeRate t a b = Ok r ↔ rates_agree a b ∧ r = match a with Some x => Some x | None => b end.
Proof. destruct a as [x|], b as [y|]; cbn; try destruct (feqb x y); cbn; naive_solver. Qed.

Lemma add_items_iff a b order result r :
  (∀ t, ItemWF (item_of a t)) → (∀ t, ItemWF (item_of b t)) →
  add_items a b order result = Ok r
  ↔ Forall (fun t => item_addable (item_of a t) (item_of b t)) order
    ∧ r = foldl (fun m t => <[t := item_plus (item_of a t) (item_of b t)]> m) result order.
Proof.
  intros Ha Hb. revert result. induction order as [|t order IH]; intros result; cbn [add_items foldl].
  { rewrite Forall_nil. naive_solver. }
  rewrite res_bind_ok, Forall_cons. destruct (Ha t) as [Hta _], (Hb t) as [Htb _]. split.
  - intros (rate & Hr & H). apply mergeRate_iff in Hr as [Hr ->].
    apply res_bind_ok in H as (n & Hn & H). apply checkedSum_iff in Hn as (_ & -> & Hn). cbn in Hn, H.
    rewrite Z.add_0_r in Hn, H. apply IH in H as [Hf ->]. done.
  - intros [[[Hn Hr] Hf] ->]. eexists. split; [by apply mergeRate_iff|].
    apply res_bind_ok. exists (it_Tokens (item_of a t) + it_Tokens (item_of b t)). split.
    + apply checkedSum_iff. cbn. split; [by repeat constructor|]. lia.
    + by apply IH.
Qed.

Lemma lookup_item_of items t i : items !! t = Some i → item_of items t = i.
Proof. unfold item_of. by intros ->. Qed.

Lemma AddPricedUsage_iff left right r :
  AddPricedUsage left right = Ok r
  ↔ ∃ a b, NormalizePricedUsage left = Ok (MkPricedUsage (Some a)) ∧ NormalizePricedUsage right = Ok (MkPricedUsage (Some b))
      ∧ (∀ t, t ∈ itemOrder → item_addable (item_of a t) (item_of b t))
      ∧ ∃ c, r = MkPricedUsage (Some c)
           ∧ ∀ t, c !! t = if decide (t ∈ itemOrder) then Some (item_plus (item_of a t) (item_of b t)) else None.
Proof.
  assert (∀ t, t ∉ itemOrder → default ∅ (pu_Items ZeroPricedUsage) !! t = None) as Hz.
  { intros t Ht. change (foldl (fun m t => <[t := zeroItem]> m) (∅ : gmap string Item) itemOrder !! t = None).
    rewrite (foldl_insert_lookup (fun _ => zeroItem)). by rewrite decide_False, lookup_empty. }
  unfold AddPricedUsage. rewrite res_bind_ok. split.
  - intros (l & Hl & H). apply res_bind_ok in H as (k & Hk & H). apply res_bind_ok in H as (m & Hm & [= <-]).
    destruct (proj1 (NormalizePricedUsage_iff _ _) Hl) as (_ & a & _ & -> & _ & [_ Ha] & _).
    destruct (proj1 (NormalizePricedUsage_iff _ _) Hk) as (_ & b & _ & -> & _ & [_ Hb] & _).
    cbn [pu_Items] in Hm. apply add_items_iff in Hm as [Hf ->]; [|done..].
    exists a, b. do 2 (split; [done|]). split; [by apply Forall_elem|]. eexists. split; [done|].
    intros t. rewrite foldl_insert_lookup. destruct (decide (t ∈ itemOrder)); [done|]. by apply Hz.
  - intros (a & b & Hl & Hk & Hadd & c & -> & Hc).
    exists (MkPricedUsage (Some a)). split; [done|]. rewrite Hk. cbn [res_bind pu_Items].
    destruct (proj1 (NormalizePricedUsage_iff _ _) Hl) as (_ & a' & _ & [= <-] & _ & [_ Ha] & _).
    destruct (proj1 (NormalizePricedUsage_iff _ _) Hk) as (_ & b' & _ & [= <-] & _ & [_ Hb] & _).
    apply res_bind_ok. exists c. split; [|done]. apply add_items_iff; [done..|].
    split; [by apply Forall_elem|]. apply map_eq. intros t. rewrite Hc, foldl_insert_lookup.
    destruct (decide (t ∈ itemOrder)); [done|]. by rewrite Hz.
Qed.

(** ** The canonical usage as priced items *)

Definition priced_items (usage : Usage) (pricing : Pricing) : gmap string Item :=
  default ∅ (pu_Items (PricedUsageFrom usage pricing)).

Lemma priced_items_lookup usage pricing :
  map (item_of (priced_items usage pricing)) itemOrder
  = map (fun p => MkItem p.1 p.2) (priced_pairs usage pricing).
Proof. reflexivity. Qed.

Lemma priced_items_dom usage pricing t : is_Some (priced_items usage pricing !! t) ↔ t ∈ itemOrder.
Proof.
  rewrite <- not_eq_None_Some. unfold priced_items, PricedUsageFrom. cbn [pu_Items from_option id].
  rewrite <- not_elem_of_list_to_map. cbn. split; [apply dec_stable|auto].
Qed.

(** Every used token component and its rate, through the items. *)
Lemma priced_items_forall usage pricing (P : Item → Prop) :
  (∀ t, t ∈ itemOrder → P (item_of (priced_items usage pricing) t))
  ↔ ∀ count rate, (count, rate) ∈ priced_pairs usage pricing → P (MkItem count rate).
Proof.
  transitivity (Forall P (map (item_of (priced_items usage pricing)) itemOrder)).
  { by rewrite Forall_map, Forall_elem. }
  rewrite priced_items_lookup, Forall_map, Forall_elem. split.
  - intros H c r Hin. exact (H (c, r) Hin).
  - intros H [c r] Hin. exact (H c r Hin).
Qed.

Definition rates_usable (usage : Usage) (pricing : Pricing) : Prop :=
  ∀ count rate, (count, Some rate) ∈ priced_pairs usage pricing → rate_usable rate = true.

Lemma components_in_pairs usage pricing count rate :
  (count, rate) ∈ priced_pairs usage pricing → count ∈ components usage.
Proof. unfold priced_pairs. apply elem_of_zip_l. Qed.

Lemma unused_unpriced usage pricing :
  unpriced (priced_pairs usage pricing) = 0%nat → allRatesMissing (rates pricing) = true →
  ∀ count rate, (count, rate) ∈ priced_pairs usage pricing → count = 0 ∧ rate = None.
Proof.
  intros Hn Hm c r Hin. assert (r = None) as ->.
  { unfold allRatesMissing in Hm. rewrite forallb_forall in Hm.
    apply elem_of_zip_r, list_elem_of_In, Hm, bool_decide_eq_true in Hin. done. }
  split; [|done]. destruct (decide (c = 0)) as [|N]; [done|].
  by apply (proj1 (unpriced_zero _) Hn c None Hin) in N.
Qed.

Lemma NormalizePricedUsage_from usage pricing :
  usage_Validate usage = Ok tt → rates_usable usage pricing →
  NormalizePricedUsage (PricedUsageFrom usage pricing) = Ok (PricedUsageFrom usage pricing).
Proof.
  intros Hu%usage_Validate_iff Hr. apply NormalizePricedUsage_iff.
  exists (priced_items usage pricing), (priced_items usage pricing).
  do 2 (split; [done|]). split; [intros t; apply priced_items_dom|]. split; [|done].
  split; [apply priced_items_dom|]. intros t. destruct (decide (t ∈ itemOrder)) as [H|H].
  - revert t H. apply priced_items_forall. intros c r Hin. split.
    + apply components_in_pairs in Hin. destruct Hu as (_ & ? & ? & ? & ? & ? & _).
      cbn. unfold components in Hin. rewrite !elem_of_cons in Hin.
      destruct Hin as [->|[->|[->|[->|[->|[]%not_elem_of_nil]]]]]; done.
    + cbn. intros rate ->. exact (Hr c rate Hin).
  - unfold item_of. destruct (priced_items usage pricing !! t) eqn:E; [|apply zeroItem_wf].
    destruct H. apply (priced_items_dom usage pricing). by eexists.
Qed.

Lemma all_known_unpriced usage pricing :
  rates_usable usage pricing →
  all_known (priced_items usage pricing) itemOrder = true ↔ unpriced (priced_pairs usage pricing) = 0%nat.
Proof.
  intros Hr. rewrite all_known_iff, unpriced_zero.
  rewrite (priced_items_forall usage pricing (fun i => it_Tokens i = 0 ∨ is_Some (it_RatePerToken i))). cbn. split.
  - intros H c r Hin Hc. destruct (H c r Hin) as [?|[rate ->]]; [done|]. exact (Hr c rate Hin).
  - intros H c r Hin. destruct (decide (c = 0)) as [|N]; [by left|right].
    specialize (H c r Hin N). destruct r; [by eexists|done].
Qed.

Lemma ResolvePricedCost_from usage pricing :
  usage_Validate usage = Ok tt → rates_usable usage pricing →
  ∃ p, ResolvePricedCost (PricedUsageFrom usage pricing) None = Ok p
     ∧ (unpriced (priced_pairs usage pricing) = 0%nat → cost_Status p = CostExact ∧ cost_Source p = "calculated")
     ∧ (unpriced (priced_pairs usage pricing) ≠ 0%nat → p = UnknownCost "missing_rate").
Proof.
  intros Hu Hr. unfold ResolvePricedCost.
  assert (∃ s, SummarizePricedUsage (PricedUsageFrom usage pricing) = Ok s) as [s Hs].
  { unfold SummarizePricedUsage. rewrite NormalizePricedUsage_from by done. cbn [res_bind].
    destruct (foldl _ _ _). by eexists. }
  rewrite Hs. cbn [res_bind]. apply SummarizePricedUsage_ok in Hs as (items & s' & c & Hi & Hinv & ->).
  injection Hi as <-. change (list_to_map _) with (priced_items usage pricing) in *.
  pose proof (all_known_unpriced usage pricing Hr) as Hk. destruct Hinv as [_ Hknown _ _ _].
  destruct (all_known _ _) eqn:E.
  - change (su_CostKnown (s' <| su_TotalCost := Some c |>)) with (su_CostKnown s').
    rewrite Hknown. change (su_TotalCost (s' <| su_TotalCost := Some c |>)) with (Some c).
    eexists. split; [done|]. split; [done|]. intros N. destruct N. by apply Hk.
  - rewrite Hknown. eexists. split; [done|]. split; [|done]. intros H%Hk. done.
Qed.

(** ** Properties *)

(** Normalisation is a projection on its valid inputs: a result has exactly
    the five items of the program, each with a non-negative count and a finite
    non-negative rate, agrees with the input on every item, and normalises to
    itself. *)
Theorem NormalizePricedUsage_canonical usage r :
  NormalizePricedUsage usage = Ok r →
  ∃ items items', pu_Items usage = Some items ∧ pu_Items r = Some items'
    ∧ Normalised items' ∧ (∀ t, item_of items' t = item_of items t)
    ∧ NormalizePricedUsage r = Ok r.
Proof.
  rewrite NormalizePricedUsage_iff. intros (items & items' & Hi & -> & _ & [Hd Hwf] & Hs).
  exists items, items'. do 4 (split; [done|]). apply NormalizePricedUsage_iff.
  exists items', items'. do 2 (split; [done|]). split; [intros t; apply Hd|]. done.
Qed.

Lemma NormalizePricedUsage_canonical_witness :
  ∃ p, NormalizePricedUsage (MkPricedUsage (Some {[ ItemInput := MkItem 3 None ]})) = Ok p
    ∧ NormalizePricedUsage p = Ok p.
Proof.
  assert (∃ p, NormalizePricedUsage (MkPricedUsage (Some {[ ItemInput := MkItem 3 None ]})) = Ok p) as [p Hp]
    by (eexists; reflexivity).
  exists p. split; [exact Hp|]. destruct (NormalizePricedUsage_canonical _ _ Hp) as (_ & _ & _ & _ & _ & _ & H).
  exact H.
Defined.

(** A summary reports a cost as known, per item group and in total, exactly
    when every used item has a rate; a known cost is present and an unknown one
    absent; and while the token total fits in an [int64] the totals are the exact
    sums and the groups partition them. *)
Theorem SummarizePricedUsage_certainty usage summary :
  SummarizePricedUsage usage = Ok summary →
  ∃ items, pu_Items usage = Some items
    ∧ (su_CostKnown summary = true
       ↔ ∀ t, t ∈ itemOrder → it_Tokens (item_of items t) = 0 ∨ is_Some (it_RatePerToken (item_of items t)))
    ∧ (is_Some (su_TotalCost summary) ↔ su_CostKnown summary = true)
    ∧ (∀ g, g ∈ groups → ∃ gs, su_Groups summary !! g = Some gs
         ∧ (gs_CostKnown gs = true ↔ ∀ t, t ∈ in_group g itemOrder →
              it_Tokens (item_of items t) = 0 ∨ is_Some (it_RatePerToken (item_of items t)))
         ∧ (is_Some (gs_Cost gs) ↔ gs_CostKnown gs = true)
         ∧ (tokens_of items itemOrder ≤ int64_max → gs_Tokens gs = tokens_of items (in_group g itemOrder)))
    ∧ (tokens_of items itemOrder ≤ int64_max → su_TotalTokens summary = tokens_of items itemOrder).
Proof.
  intros H. destruct (SummarizePricedUsage_valid _ _ H) as (items & Hi & Hpos).
  apply SummarizePricedUsage_ok in H as (items' & s & c & Hi' & [Ht Hk Hn Hg _] & ->).
  assert (items' = items) as -> by congruence. exists items. split; [done|].
  assert (∀ l, 0 ≤ tokens_of items l) as Hnn.
  { intros l. apply sum_list_nonneg. apply List.Forall_map, Forall_elem. auto. }
  assert (∀ n, 0 ≤ n → n ≤ int64_max → wrap64 n = n) as Hw
    by (intros; apply wrap64_id; unfold in_int64, int64_min; lia).
  pose proof (group_tokens_partition items) as Hp.
  set (summary := if all_known items itemOrder then s <| su_TotalCost := Some c |> else s).
  assert (su_CostKnown summary = all_known items itemOrder ∧ su_Groups summary = su_Groups s
          ∧ su_TotalTokens summary = su_TotalTokens s
          ∧ (is_Some (su_TotalCost summary) ↔ all_known items itemOrder = true)) as (E1 & -> & -> & E4).
  { unfold summary. destruct (all_known items itemOrder) eqn:E; cbn; (split; [done|]); (do 2 (split; [done|])).
    - split; [done|by eexists].
    - rewrite Hn. split; [by intros []|done]. }
  rewrite E1, E4, <- all_known_iff. do 2 (split; [done|]). split.
  - intros g Hin. destruct (Hg g Hin) as (gs & -> & H1 & H2 & H3). exists gs. split; [done|].
    rewrite <- all_known_iff, H2. do 2 (split; [by rewrite <- ?H2|]). intros Hm.
    rewrite H1. apply Hw; [done|]. pose proof (Hnn (in_group "input" itemOrder)).
    pose proof (Hnn (in_group "cache" itemOrder)). pose proof (Hnn (in_group "output" itemOrder)).
    unfold groups in Hin. rewrite !elem_of_cons in Hin. destruct Hin as [->|[->|[->|[]%not_elem_of_nil]]]; lia.
  - intros Hm. rewrite Ht. by apply Hw.
Qed.

Lemma SummarizePricedUsage_certainty_witness :
  ∃ s, SummarizePricedUsage (MkPricedUsage (Some {[ ItemOutput := MkItem 7 None ]})) = Ok s
    ∧ su_TotalTokens s = 7.
Proof.
  assert (∃ s, SummarizePricedUsage (MkPricedUsage (Some {[ ItemOutput := MkItem 7 None ]})) = Ok s) as [s Hs]
    by (eexists; reflexivity).
  exists s. split; [exact Hs|]. destruct (SummarizePricedUsage_certainty _ _ Hs) as (items & Hi & _ & _ & _ & H).
  injection Hi as <-. apply H. vm_compute. discriminate.
Defined.

(** Adding priced usages is exact: it succeeds if and only if both operands
    are valid, every item's sum fits in an [int64] and no item has two different
    rates; the sums do not wrap, and the known rate of either side is kept. *)
Theorem AddPricedUsage_correct left right r :
  AddPricedUsage left right = Ok r
  ↔ ∃ a b c, NormalizePricedUsage left = Ok (MkPricedUsage (Some a))
      ∧ NormalizePricedUsage right = Ok (MkPricedUsage (Some b))
      ∧ r = MkPricedUsage (Some c)
      ∧ (∀ t, t ∈ itemOrder → item_addable (item_of a t) (item_of b t))
      ∧ ∀ t, c !! t = if decide (t ∈ itemOrder) then Some (item_plus (item_of a t) (item_of b t)) else None.
Proof. rewrite AddPricedUsage_iff. naive_solver. Qed.

(** The itemised cost agrees with the runtime's [ResolveCost] on certainty:
    for a valid, available usage whose rates are usable, an exact runtime cost is
    exact when itemised, a partial one is unknown when itemised, and the itemised
    cost is exact without the runtime's only for an unused, unpriced usage. *)
Theorem ResolvePricedCost_agrees usage pricing c :
  usage_Status usage ≠ UsageUnavailable → rates_usable usage pricing →
  ResolveCost usage pricing None = Ok c →
  ∃ p, ResolvePricedCost (PricedUsageFrom usage pricing) None = Ok p
    ∧ (cost_Status c = CostExact → cost_Status p = CostExact)
    ∧ (cost_Status c = CostPartial → p = UnknownCost "missing_rate")
    ∧ (cost_Status p = CostExact → cost_Status c = CostExact
       ∨ (∀ count rate, (count, rate) ∈ priced_pairs usage pricing → count = 0 ∧ rate = None)).
Proof.
  intros Hs Hr H. destruct (ResolveCost_cases _ _ _ H) as (Hv & _ & Hc).
  specialize (Hc Hs). cbn zeta in Hc. destruct Hc as (H00 & Hkn & Hk0 & H0n).
  destruct (ResolvePricedCost_from usage pricing Hv Hr) as (p & Hp & H0 & H1). exists p. split; [done|].
  destruct (decide (unpriced (priced_pairs usage pricing) = 0%nat)) as [Z|N].
  - destruct (H0 Z) as [E _]. destruct (decide (priced (priced_pairs usage pricing) = 0%nat)) as [K|K].
    + rewrite (H00 K Z). destruct (allRatesMissing (rates pricing)) eqn:Em.
      * do 2 (split; [done|]). intros _. right. by apply unused_unpriced.
      * split; [done|]. split; [done|]. by left.
    + rewrite (Hk0 K Z). split; [done|]. split; [done|]. by left.
  - rewrite (H1 N). destruct (decide (priced (priced_pairs usage pricing) = 0%nat)) as [K|K].
    + rewrite (H0n K N). split; [done|]. split; [done|]. done.
    + rewrite (Hkn K N). split; [done|]. split; [done|]. done.
Qed.

Lemma ResolvePricedCost_agrees_witness :
  ∃ p, ResolvePricedCost (PricedUsageFrom (MkUsage 3 0 0 0 0 "complete")
         (MkPricing (Some (f64_of_Z 2)) None None None None)) None = Ok p
     ∧ cost_Status p = CostExact.
Proof.
  destruct (ResolvePricedCost_agrees (MkUsage 3 0 0 0 0 "complete") (MkPricing (Some (f64_of_Z 2)) None None None None)
    (ExactCost (f64_of_Z 6) "profile")) as (p & Hp & He & _).
  - discriminate.
  - intros c r Hin. unfold priced_pairs in Hin. cbn in Hin. rewrite !elem_of_cons in Hin.
    destruct Hin as [[= -> ->]|[Hin|[Hin|[Hin|[Hin|[]%not_elem_of_nil]]]]]; [reflexivity|discriminate..].
  - vm_compute. reflexivity.
  - exists p. split; [exact Hp|]. apply He. reflexivity.
Defined.

(** The token totals of a summary wrap: two valid items whose counts do not fit
    together in an [int64] give a negative total, without an error. *)
Theorem SummarizePricedUsage_total_wraps :
  ∃ s, SummarizePricedUsage (MkPricedUsage (Some
         {[ ItemInput := MkItem int64_max None; ItemOutput := MkItem int64_max None ]})) = Ok s
     ∧ su_TotalTokens s = -2.
Proof. eexists. split; [reflexivity|]. vm_compute. reflexivity. Qed.
