(* ===== verification/CacheKey.v ===== *)
(** * CacheKey: canonical identity of a prepared provider operation

    Models [src/internal/cachekey]: the cache modes, the normalisation of an
    operation, the canonical JSON that is hashed and the hash itself.  SHA-256
    is a parameter, a function from the canonical bytes to the hex digest.
    Payloads and semantic headers are decoded JSON values, for which the
    reflective safety check of the source accepts every value. *)
From Stdlib Require Import Ascii.
From S2P Require Import Prelude Json.

Open Scope string_scope.
Open Scope Z_scope.

Definition OperationSchemaVersion : string := "utility-llm.operation.v1".
Definition DefaultVersion : string := "operation-v2".

Definition Mode : Type := string.
Definition ModeOff : Mode := "off".
Definition ModeCache : Mode := "cache".
Definition ModeRefresh : Mode := "refresh".

Record Endpoint := MkEndpoint { ep_Identity : string; ep_Method : string; ep_Path : string }.
Record ResponseProjection := MkProjection { rj_Provider : string; rj_Kind : string; rj_Version : string }.

Record Operation := MkOperation {
  op_SchemaVersion : string;
  op_CacheDomain : string;
  op_Protocol : string;
  op_Endpoint : Endpoint;
  op_Model : string;
  op_Payload : json;
  op_SemanticHeaders : list (string * json);
  op_ResponseProjection : ResponseProjection;
}.

Inductive cache_error : Type :=
| UnsupportedMode (value : string)
| UnsupportedSchemaVersion (value : string)
| OperationIncomplete
| HeaderMayContainCredentials (header : string).

Definition ResolveMode (value : string) : res cache_error Mode :=
  let mode := ToLower (TrimSpace value) in
  if String.eqb mode "" || String.eqb mode ModeOff then Ok ModeOff
  else if String.eqb mode ModeCache then Ok ModeCache
  else if String.eqb mode ModeRefresh then Ok ModeRefresh
  else Err (UnsupportedMode value).

(** ** Credential headers

    The regular expression [(?i)(^|[-_])(authorization|...)([-_]|$)]: one of the
    words, between separators or the ends of the header. *)

Definition separator (a : ascii) : bool := Ascii.eqb a "-" || Ascii.eqb a "_".

(** The alternatives, with [api[-_]?key] written out. *)
Definition credential_words : list string :=
  ["authorization"; "apikey"; "api-key"; "api_key"; "secret"; "token"; "password"; "credential";
   "cf-access-client-secret"].

Definition ends_here (s : string) : bool :=
  match s with EmptyString => true | String a _ => separator a end.

Definition word_at (s : string) : bool :=
  existsb (fun w => String.prefix w s && ends_here (String.substring (String.length w) (String.length s) s))
    credential_words.

Fixpoint word_after_separator (s : string) : bool :=
  match s with
  | EmptyString => false
  | String a r => (separator a && word_at r) || word_after_separator r
  end.

Definition forbiddenSemanticHeader (header : string) : bool :=
  let s := fold_case header in word_at s || word_after_separator s.

Definition Normalize (operation : Operation) : res cache_error Operation :=
  let? _ := fail_if (negb (String.eqb (TrimSpace (op_SchemaVersion operation)) OperationSchemaVersion))
              (UnsupportedSchemaVersion (op_SchemaVersion operation)) in
  let normalized := {|
    op_SchemaVersion := OperationSchemaVersion;
    op_CacheDomain := TrimSpace (op_CacheDomain operation);
    op_Protocol := TrimSpace (op_Protocol operation);
    op_Endpoint := MkEndpoint (TrimSpace (ep_Identity (op_Endpoint operation)))
                     (ToUpper (TrimSpace (ep_Method (op_Endpoint operation))))
                     (TrimSpace (ep_Path (op_Endpoint operation)));
    op_Model := TrimSpace (op_Model operation);
    op_Payload := op_Payload operation;
    op_SemanticHeaders := op_SemanticHeaders operation;
    op_ResponseProjection := MkProjection (TrimSpace (rj_Provider (op_ResponseProjection operation)))
                     (TrimSpace (rj_Kind (op_ResponseProjection operation)))
                     (TrimSpace (rj_Version (op_ResponseProjection operation))) |} in
  let? _ := fail_if (existsb (String.eqb "")
      [op_Protocol normalized; ep_Identity (op_Endpoint normalized); ep_Method (op_Endpoint normalized);
       ep_Path (op_Endpoint normalized); op_Model normalized; rj_Provider (op_ResponseProjection normalized);
       rj_Kind (op_ResponseProjection normalized); rj_Version (op_ResponseProjection normalized)])
      OperationIncomplete in
  match List.find (fun kv => forbiddenSemanticHeader kv.1) (op_SemanticHeaders normalized) with
  | Some (header, _) => Err (HeaderMayContainCredentials header)
  | None => Ok normalized
  end.

(** ** Canonical JSON *)

Fixpoint decoded (j : json) : json :=
  match j with
  | JStr s => JStr (sanitize s)
  | JArr l => JArr (map decoded l)
  | JObj l => JObj (map (fun kv => (sanitize kv.1, decoded kv.2)) l)
  | _ => j
  end.

(** [writeCanonical]: the members of objects sorted by key, no whitespace. *)
Fixpoint writeCanonical (value : json) : string :=
  match value with
  | JNull => "null"
  | JBool b => if b then "true" else "false"
  | JStr s => marshal_string s
  | JNum n => n
  | JArr l => "[" +:+ join_comma (map writeCanonical l) +:+ "]"
  | JObj l => "{" +:+ join_comma (map marshal_entry (sort_entries (map (fun kv => (kv.1, writeCanonical kv.2)) l))) +:+ "}"
  end.

Definition StableJSON (value : json) : string := writeCanonical (decoded value).

(** The JSON form of an operation, as its struct tags give it. *)
Definition operation_json (o : Operation) : json :=
  JObj (("schemaVersion", JStr (op_SchemaVersion o))
    :: (if String.eqb (op_CacheDomain o) "" then [] else [("cacheDomain", JStr (op_CacheDomain o))])
    ++ [("protocol", JStr (op_Protocol o));
        ("endpoint", JObj [("identity", JStr (ep_Identity (op_Endpoint o))); ("method", JStr (ep_Method (op_Endpoint o)));
                           ("path", JStr (ep_Path (op_Endpoint o)))]);
        ("model", JStr (op_Model o)); ("payload", op_Payload o); ("semanticHeaders", JObj (op_SemanticHeaders o));
        ("responseProjection", JObj [("provider", JStr (rj_Provider (op_ResponseProjection o)));
           ("kind", JStr (rj_Kind (op_ResponseProjection o))); ("version", JStr (rj_Version (op_ResponseProjection o)))])]).

Section Hash.
Variable sha256_hex : string → string.

Definition Hash (operation : Operation) (cacheVersion : string) : res cache_error string :=
    let? normalized := Normalize operation in
    let cacheVersion := TrimSpace cacheVersion in
    let cacheVersion := if String.eqb cacheVersion "" then DefaultVersion else cacheVersion in
    Ok (sha256_hex (StableJSON (JObj [("operation", operation_json normalized); ("cacheVersion", JStr cacheVersion)]))).
End Hash.

(** ** Iteration order does not matter *)

(** Two values that differ only in the iteration order of their objects. *)
Inductive same_value : json → json → Prop :=
| same_refl j : same_value j j
| same_arr l l' : Forall2 same_value l l' → same_value (JArr l) (JArr l')
| same_obj l k l' :
    Forall2 (fun p q => p.1 = q.1 ∧ same_value p.2 q.2) l k → k ≡ₚ l' → same_value (JObj l) (JObj l').

(** Object keys are distinct, at every depth, once sanitised. *)
Inductive distinct_keys : json → Prop :=
| distinct_null : distinct_keys JNull
| distinct_bool b : distinct_keys (JBool b)
| distinct_num n : distinct_keys (JNum n)
| distinct_str s : distinct_keys (JStr s)
| distinct_arr l : Forall distinct_keys l → distinct_keys (JArr l)
| distinct_obj l :
    NoDup (map (fun kv => sanitize kv.1) l) → Forall (fun kv => distinct_keys kv.2) l → distinct_keys (JObj l).

(** The entries of an object, encoded. *)
Definition encoded (l : list (string * json)) : list (string * string) :=
  map (fun kv => (kv.1, writeCanonical kv.2)) (map (fun kv => (sanitize kv.1, decoded kv.2)) l).

Lemma encoded_keys l : map fst (encoded l) = map (fun kv => sanitize kv.1) l.
Proof. unfold encoded. by rewrite !map_map. Qed.

Lemma encoded_same l k :
  Forall (fun kv => ∀ j', same_value kv.2 j' → distinct_keys kv.2 →
    writeCanonical (decoded kv.2) = writeCanonical (decoded j')) l →
  Forall (fun kv => distinct_keys kv.2) l →
  Forall2 (fun p q => p.1 = q.1 ∧ same_value p.2 q.2) l k → encoded l = encoded k.
Proof.
  intros IH Hd H. unfold encoded.
  induction H as [|p q l k [E Hs] _ IHl]; [done|]. cbn.
  apply Forall_cons in IH as [Hp IH], Hd as [Dp Hd].
  rewrite IHl by done. by rewrite E, (Hp q.2).
Qed.

Lemma StableJSON_same j j' : same_value j j' → distinct_keys j → StableJSON j = StableJSON j'.
Proof.
  unfold StableJSON. revert j'.
  induction j as [| | | |l IH|l IH] using json_rec'; intros j' Hs Hd; inversion Hs; subst; try done; cbn.
  - inversion Hd as [| | | |? Hl|]; subst. do 3 f_equal. clear Hs Hd.
    match goal with H : Forall2 _ _ _ |- _ => induction H as [|x y l l' Hxy _ IHl] end; [done|].
    apply Forall_cons in IH as [Hx IH], Hl as [Dx Hl]. cbn.
    rewrite (Hx y) by done. f_equal. by apply IHl.
  - inversion Hd as [| | | | |? Hnd Hl]; subst. do 3 f_equal.
    match goal with H : Forall2 _ _ ?k, P : ?k ≡ₚ ?l' |- _ => rename H into H2; rename P into HP end.
    fold (encoded l). fold (encoded l'). f_equal.
    apply sort_entries_perm; [|by rewrite encoded_keys].
    rewrite (encoded_same _ _ IH Hl H2). unfold encoded. by rewrite HP.
Qed.

Lemma same_obj_keys l l' : same_value (JObj l) (JObj l') → map fst l ≡ₚ map fst l'.
Proof.
  inversion 1 as [| |? k ? H2 HP]; subst; [done|]. rewrite <- HP.
  clear -H2. induction H2 as [|p q l k [E _] _ IH]; cbn; [done|]. by rewrite E, IH.
Qed.

Lemma find_none_keys l l' :
  map fst l ≡ₚ map fst l' →
  List.find (fun kv : string * json => forbiddenSemanticHeader kv.1) l = None →
  List.find (fun kv : string * json => forbiddenSemanticHeader kv.1) l' = None.
Proof.
  intros HP HN. destruct (List.find _ l') as [[h v]|] eqn:E; [|done].
  apply List.find_some in E as [Hin Hf]. cbn in Hf.
  assert (h ∈ map fst l) as Hh.
  { rewrite HP. apply list_elem_of_In. by apply (in_map fst l' (h, v)). }
  apply list_elem_of_In, in_map_iff in Hh as ([h' v'] & E & Hin'). cbn in E. subst h'.
  apply (List.find_none _ _ HN) in Hin'. cbn in Hin'. congruence.
Qed.

(** Normalisation keeps the payload and the headers. *)
Lemma Normalize_with o n payload headers :
  map fst (op_SemanticHeaders o) ≡ₚ map fst headers → Normalize o = Ok n →
  op_Payload n = op_Payload o ∧ op_SemanticHeaders n = op_SemanticHeaders o
  ∧ Normalize (o <| op_Payload := payload |> <| op_SemanticHeaders := headers |>)
    = Ok (n <| op_Payload := payload |> <| op_SemanticHeaders := headers |>).
Proof.
  intros HP. unfold Normalize. rewrite !check_then_ok. cbn zeta.
  intros (H1 & H2 & H). cbn [upd op_SchemaVersion op_SemanticHeaders] in *.
  destruct (List.find _ (op_SemanticHeaders o)) as [[]|] eqn:E; [done|].
  injection H as <-. split; [done|]. split; [done|].
  apply (find_none_keys _ _ HP) in E.
  split; [exact H1|]. split; [exact H2|]. cbn. by rewrite E.
Qed.

Lemma operation_json_same n payload headers :
  same_value (op_Payload n) payload → same_value (JObj (op_SemanticHeaders n)) (JObj headers) →
  same_value (operation_json n)
    (operation_json (n <| op_Payload := payload |> <| op_SemanticHeaders := headers |>)).
Proof.
  intros Hp Hh. unfold operation_json.
  change (op_CacheDomain (n <| op_Payload := payload |> <| op_SemanticHeaders := headers |>)) with (op_CacheDomain n).
  destruct (String.eqb (op_CacheDomain n) ""); cbn;
    (eapply same_obj; [|reflexivity]);
    repeat (apply Forall2_cons_2; [split; [reflexivity|first [exact Hp|exact Hh|apply same_refl]]|]);
    apply Forall2_nil_2.
Qed.

Ltac solve_distinct :=
  repeat first
    [ assumption | apply Forall_nil_2 | apply Forall_cons_2 | progress cbn [snd] | apply distinct_str
    | apply distinct_num | apply distinct_null
    | apply distinct_obj; [apply (bool_decide_unpack _); vm_compute; reflexivity|] ].

Lemma operation_json_distinct n :
  distinct_keys (op_Payload n) → distinct_keys (JObj (op_SemanticHeaders n)) → distinct_keys (operation_json n).
Proof.
  intros Hp Hh. unfold operation_json. destruct (String.eqb (op_CacheDomain n) ""); cbn; solve_distinct.
Qed.

(** ** Properties *)

(** The cache identity of an operation does not depend on the iteration
    order of the maps its payload and its headers are built from. *)
Theorem Hash_order_independent sha256_hex o payload headers version :
  same_value (op_Payload o) payload → distinct_keys (op_Payload o) →
  same_value (JObj (op_SemanticHeaders o)) (JObj headers) → distinct_keys (JObj (op_SemanticHeaders o)) →
  is_ok (Normalize o) = true →
  Hash sha256_hex (o <| op_Payload := payload |> <| op_SemanticHeaders := headers |>) version
  = Hash sha256_hex o version.
Proof.
  intros Hp Dp Hh Dh Hok. unfold Hash.
  destruct (Normalize o) as [n|] eqn:En; [|done].
  destruct (Normalize_with o n payload headers (same_obj_keys _ _ Hh) En) as (E1 & E2 & ->).
  cbn [res_bind]. rewrite <- E1 in *. rewrite <- E2 in *. do 2 f_equal. symmetry. apply StableJSON_same.
  - eapply same_obj; [|reflexivity]. apply Forall2_cons_2.
    { split; [done|]. by apply operation_json_same. }
    apply Forall2_cons_2; [split; [done|apply same_refl]|apply Forall2_nil_2].
  - pose proof (operation_json_distinct n Dp Dh). solve_distinct.
Qed.

Lemma Hash_order_independent_witness :
  let o := MkOperation OperationSchemaVersion "d" "p" (MkEndpoint "i" "post" "/x") "m"
             (JObj [("a", JNum "1"); ("b", JNull)]) [] (MkProjection "r" "k" "v") in
  Hash (fun s => s) (o <| op_Payload := JObj [("b", JNull); ("a", JNum "1")] |>) ""
  = Hash (fun s => s) o "".
Proof.
  cbn zeta.
  refine (Hash_order_independent (fun s => s) (MkOperation OperationSchemaVersion "d" "p" (MkEndpoint "i" "post" "/x") "m"
             (JObj [("a", JNum "1"); ("b", JNull)]) [] (MkProjection "r" "k" "v"))
             (JObj [("b", JNull); ("a", JNum "1")]) [] "" _ _ _ _ _).
  - eapply same_obj; [|apply perm_swap]. repeat constructor.
  - solve_distinct.
  - apply same_refl.
  - solve_distinct.
  - vm_compute; reflexivity.
Defined.
