(* ===== verification/Runtime.v ===== *)
(** * Runtime: the data and the helpers of the execution engine

    Models the types of [src/internal/runtime] (types.go, cache.go, context.go,
    observer.go, search.go) and the helpers of execute.go and
    recovery_execute.go that the two execution loops share.

    The effects the engine is given by its caller are the operations of the
    class [Env] over a world [World]: the clock, the random source, the wait, the
    context, the executor's [Prepare] and [Execute], the cache, the progress
    callback and the observer.  An execution of a provider call that reports
    stream progress is the tree [ExecRun]: each report hands the world to the
    engine's callback and resumes with the world the callback leaves. *)
From Corelib Require Import SpecFloat.
From S2P Require Import Prelude Float64 Json Retry Accounting CacheKey.

Open Scope string_scope.
Open Scope Z_scope.

(** ** Calls *)

Record Connection := MkConnection {
  conn_ID : string;
  conn_Provider : string;
  conn_APIInferenceType : string;
  conn_BaseURL : string;
  conn_CacheDomain : string;
  conn_SupportsWebSearch : bool;
  conn_Pricing : option Pricing;
}.

Record Credential := MkCredential { APIKey : string; Headers : list (string * string) }.

Record ResolvedConnection := MkResolved { rc_Connection : Connection; rc_Credential : Credential }.

Record FunctionCall := MkFunctionCall { fc_Name : string; fc_Arguments : string }.
Record ToolCall := MkToolCall { tc_ID : string; tc_Type : string; tc_Function : FunctionCall; tc_ItemID : string }.
Record Message := MkMessage {
  msg_Role : string;
  msg_Content : option json;
  msg_Name : string;
  msg_ToolCallID : string;
  msg_ToolCalls : list ToolCall;
}.
Record FunctionTool := MkFunctionTool {
  ft_Name : string; ft_Description : string; ft_Parameters : json; ft_Strict : option bool }.
Record ToolChoice := MkToolChoice { tch_Mode : string; tch_Name : string }.

Record ObservabilityContext := MkContext {
  TaskID : string; TaskSlug : string; ItemID : string; RunID : string; OrganizationID : string;
  QuerySetID : string; Environment : string; Release : string;
  PromptLabels : option (list string);
  Tags : option (list (string * string));
  Metadata : option (list (string * string));
}.

Record Origin := MkOrigin {
  or_Client : string; or_Component : string; or_OperationID : string; or_ParentRunID : string;
  or_JobID : string; or_TestRunID : string; or_TestID : string; or_SourceRevision : string;
}.

Record RepairHistoryEntry := MkHistory {
  rh_Stage : string;
  rh_Attempt : Z;
  rh_Output : string;
  rh_ValidationError : string;
}.

Record RepairRequest := MkRepairRequest {
  rq_Attempt : Z;
  rq_MaxAttempts : Z;
  rq_Stage : string;
  rq_Branch : string;
  rq_TargetSchema : option json;
  rq_History : list RepairHistoryEntry;
}.

(** [ValidateStructured], [Observer] and [Progress] may be nil; the search memo
    is the identity of the shared map one logical call owns. *)
Record Call := MkCall {
  call_Connections : list (string * ResolvedConnection);
  call_ModelID : string;
  call_Messages : list Message;
  call_CallType : string;
  call_Schema : option json;
  call_Tools : list FunctionTool;
  call_ToolChoice : ToolChoice;
  call_ReasoningEffort : string;
  call_WebSearch : bool;
  call_SearchMemo : option Z;
  call_ProviderOptions : option (list (string * json));
  call_Context : ObservabilityContext;
  call_Origin : Origin;
  call_ValidateStructured : option (json → option goerror);
  call_Repair : option RepairRequest;
  call_Observer : bool;
  call_Progress : bool;
}.

(** ** Results *)

Record SearchSource := MkSource { src_URL : string; src_Title : string }.
Record SearchCitation := MkCitation {
  cit_URL : string; cit_Title : string; cit_StartIndex : Z; cit_EndIndex : Z }.
Record SearchResult := MkSearch {
  sr_Mode : string;
  sr_Executed : bool;
  sr_Sources : option (list SearchSource);
  sr_Citations : list SearchCitation;
  sr_EntryPointHTML : string;
  sr_CostStatus : string;
}.

Record StreamDiagnostics := MkStream {
  sd_CorrelationID : string;
  sd_HeadersMs : option Z;
  sd_ReceivedBytes : Z;
  sd_EventCount : Z;
  sd_OutputBytes : Z;
  sd_OutputCodePoints : Z;
  sd_FirstEventMs : option Z;
  sd_FirstOutputMs : option Z;
  sd_LastEventAt : option Time;
  sd_LastOutputAt : option Time;
  sd_TerminalState : string;
}.
Definition zeroStream : StreamDiagnostics := MkStream "" None 0 0 0 0 None None None None "".

(** [Output] is nil as [JNull]; tool calls are their JSON form. *)
Record ProviderResult := MkResult {
  pr_AssistantText : string;
  pr_Search : option SearchResult;
  pr_Output : json;
  pr_Accounting : Ledger;
  pr_Stream : StreamDiagnostics;
  pr_ProviderDispatched : bool;
}.

Record PreparedOperation := MkPrepared { po_Operation : Operation; po_Opaque : json }.

Record ExecutionTarget := MkExecTarget {
  et_ConnectionID : string; et_Provider : string; et_Protocol : string; et_Endpoint : string; et_ModelID : string }.

Record CachedResult := MkCached {
  ca_ProviderResult : ProviderResult;
  ca_Producer : ExecutionTarget;
  ca_GenerationTarget : ExecutionTarget;
  ca_CompletedBy : string;
}.

Record WaitDiagnostics := MkWait {
  wd_Reason : string; wd_Planned : Duration; wd_Actual : Duration; wd_RetryAfter : Duration }.

Record AttemptRecord := MkAttempt {
  at_Number : Z;
  at_ConnectionID : string;
  at_Target : ExecutionTarget;
  at_ProviderUsed : bool;
  at_Category : Category;
  at_Status : Z;
  at_Retryable : bool;
  at_Delay : Duration;
  at_Duration : Duration;
  at_Repair : bool;
  at_Code : string;
  at_Type : string;
  at_ProviderRequestID : string;
  at_Stage : string;
  at_Branch : string;
  at_TriggerAttempt : Z;
  at_InputAttempts : list Z;
  at_TransportRetryOf : Z;
  at_StartedAt : option Time;
  at_FinishedAt : option Time;
  at_ReasoningEffort : string;
  at_DispatchObserved : bool;
  at_Stream : option StreamDiagnostics;
  at_WaitDiagnostics : option WaitDiagnostics;
}.

Definition ResultSourceNone : string := "none".
Definition ResultSourceProvider : string := "provider".
Definition ResultSourceCache : string := "cache".
Record ResultSource := MkResultSource { rs_Kind : string; rs_AttemptNumber : Z; rs_Producer : option ExecutionTarget }.

Record CacheFacts := MkCacheFacts {
  cf_Mode : Mode;
  cf_Status : string;
  cf_OperationHash : string;
  cf_OriginalOperationHash : string;
  cf_RerunOperationHash : string;
  cf_Version : string;
  cf_Served : bool;
  cf_Written : bool;
}.

Record BranchCache := MkBranchCache { bc_Branch : string; bc_GenerationTarget : ExecutionTarget; bc_Cache : CacheFacts }.

Record Diagnostics := MkDiagnostics {
  dg_Stage : string;
  dg_Branch : string;
  dg_StopReason : string;
  dg_AttemptsUsed : Z;
  dg_AttemptsRemaining : Z;
  dg_Elapsed : Duration;
  dg_TotalActualWait : Duration;
  dg_ReceivedBytes : Z;
  dg_EventCount : Z;
  dg_OutputBytes : Z;
  dg_OutputCodePoints : Z;
  dg_EffectiveTimeout : option Duration;
  dg_DeadlineAt : option Time;
  dg_BranchCaches : list BranchCache;
}.
Definition zeroDiagnostics : Diagnostics := MkDiagnostics "" "" "" 0 0 0 0 0 0 0 0 None None [].

(** [ParseFailureResponse] is the raw response it wraps, [None] when unset. *)
Record CallRecord := MkRecord {
  cr_AssistantText : string;
  cr_Search : option SearchResult;
  cr_CallID : string;
  cr_TraceID : string;
  cr_Output : json;
  cr_SelectedTarget : ExecutionTarget;
  cr_ResultSource : ResultSource;
  cr_Accounting : Accounting;
  cr_Attempts : list AttemptRecord;
  cr_ParseFailureResponse : option string;
  cr_PreparedOperation : option PreparedOperation;
  cr_GenerationTarget : ExecutionTarget;
  cr_Branch : string;
  cr_StopReason : string;
  cr_Diagnostics : Diagnostics;
  cr_Origin : Origin;
  cr_Cache : CacheFacts;
}.

Record ProgressSnapshot := MkProgress {
  ps_Sequence : Z;
  ps_RunID : string;
  ps_CallID : string;
  ps_TraceID : string;
  ps_Type : string;
  ps_Stage : string;
  ps_Branch : string;
  ps_ConnectionID : string;
  ps_ReasoningEffort : string;
  ps_Attempt : Z;
  ps_AttemptsUsed : Z;
  ps_AttemptsRemaining : Z;
  ps_ElapsedMs : Z;
  ps_DeadlineRemainingMs : option Z;
  ps_ReceivedBytes : Z;
  ps_EventCount : Z;
  ps_OutputBytes : Z;
  ps_OutputCodePoints : Z;
  ps_LastActivity : Time;
  ps_StopReason : string;
  ps_Terminal : bool;
  ps_MaxAttempts : Z;
  ps_EffectiveTimeout : option Duration;
  ps_Origin : Origin;
  ps_Attempts : list AttemptRecord;
  ps_Accounting : option Accounting;
}.

(** ** The environment *)

(** The notifications of the [Observer] interface, start and finish. *)
Inductive ObserverEvent : Type :=
| StartRuntime (connectionID provider modelID callType : string)
| FinishRuntime (err : option goerror)
| StartProvider (target : ExecutionTarget) (callType : string)
| FinishProvider (dispatched : bool) (err : option goerror)
| StartAttempt (target : ExecutionTarget) (callType : string) (attempt : Z)
| FinishAttempt (err : option goerror)
| StartRetry (target : ExecutionTarget) (callType : string) (c : Classification) (delay : Duration)
| FinishRetry (err : option goerror)
| StartValidation (connection : Connection) (repair : bool)
| FinishValidation (err : option goerror)
| StartCache (operation : string)
| FinishCache (status : string) (err : option goerror).

Inductive ExecRun (W : Type) : Type :=
| ExecReport (w : W) (snapshot : StreamDiagnostics) (resume : W → ExecRun W)
| ExecReturn (w : W) (result : ProviderResult) (failure : option goerror).
Global Arguments ExecReport {W} w snapshot resume.
Global Arguments ExecReturn {W} w result failure.

(** What the engine reads of a URL that [net/url] parses. *)
Record ParsedURL := MkURL { url_Scheme : string; url_Hostname : string; url_User : bool }.

Class Env := {
  World : Type;
  env_Now : World → World * Time;
  env_Random : World → World * float64;
  env_Wait : Duration → World → World * option goerror;
  env_ctxErr : World → option goerror;
  env_Deadline : option Time;
  env_NewMemo : World → World * Z;
  env_Prepare : Connection → Credential → Call → World → World * res goerror PreparedOperation;
  env_Execute : PreparedOperation → World → ExecRun World;
  env_CacheGet : string → string → World → World * res goerror (option CachedResult);
  env_CacheSet : string → string → CachedResult → World → World * option goerror;
  env_Progress : ProgressSnapshot → World → World;
  env_Observe : ObserverEvent → World → World;
  env_sha256_hex : string → string;
  env_ParseURL : string → option ParsedURL;
}.

(** ** Context merging *)

Definition mergeScalar (target value : string) : string := if negb (String.eqb value "") then value else target.

(** A map as its entries: the later writes of the loop come first in a lookup. *)
Definition mergeStringMap (base override : option (list (string * string))) : option (list (string * string)) :=
  match base, override with
  | None, None => None
  | _, _ =>
      let put m kv := kv :: List.filter (fun p => negb (String.eqb p.1 kv.1)) m in
      Some (foldl put (foldl put [] (default [] base)) (default [] override))
  end.

(** [append([]string(nil), labels...)] is nil for an empty slice. *)
Definition copyLabels (l : option (list string)) : option (list string) :=
  match l with Some (x :: r) => Some (x :: r) | _ => None end.

Definition context_clone (c : ObservabilityContext) : ObservabilityContext :=
  c <| PromptLabels ::= copyLabels |>
    <| Tags ::= fun t => mergeStringMap None t |>
    <| Metadata ::= fun t => mergeStringMap None t |>.

Definition MergeObservabilityContext (defaults request : ObservabilityContext) : ObservabilityContext :=
  let result := context_clone defaults in
  MkContext (mergeScalar (TaskID result) (TaskID request)) (mergeScalar (TaskSlug result) (TaskSlug request))
    (mergeScalar (ItemID result) (ItemID request)) (mergeScalar (RunID result) (RunID request))
    (mergeScalar (OrganizationID result) (OrganizationID request)) (mergeScalar (QuerySetID result) (QuerySetID request))
    (mergeScalar (Environment result) (Environment request)) (mergeScalar (Release result) (Release request))
    (match PromptLabels request with Some _ => copyLabels (PromptLabels request) | None => PromptLabels result end)
    (mergeStringMap (Tags result) (Tags request))
    (mergeStringMap (Metadata result) (Metadata request)).

Definition MetricLabels (c : ObservabilityContext) : list (string * string) :=
  if negb (String.eqb (Environment c) "") then [("environment", Environment c)] else [].

(** ** Targets *)

Definition targetFromConnection (connection : Connection) (modelID : string) : ExecutionTarget :=
  MkExecTarget (conn_ID connection) (conn_Provider connection) (conn_APIInferenceType connection)
    (conn_BaseURL connection) modelID.

Definition targetFromPrepared (connection : Connection) (prepared : PreparedOperation) : ExecutionTarget :=
  let op := po_Operation prepared in
  let provider := rj_Provider (op_ResponseProjection op) in
  MkExecTarget (conn_ID connection)
    (if negb (String.eqb provider "") then provider else conn_Provider connection)
    (op_Protocol op) (ep_Identity (op_Endpoint op)) (op_Model op).

Definition withCacheDomain (prepared : PreparedOperation) (connection : Connection) : PreparedOperation :=
  let domain := if String.eqb (conn_CacheDomain connection) "" then conn_ID connection else conn_CacheDomain connection in
  prepared <| po_Operation ::= fun op => op <| op_CacheDomain := domain |> |>.

Definition validateCacheProducer (producer expected : ExecutionTarget) : option goerror :=
  if String.eqb (TrimSpace (et_ConnectionID producer)) ""
     || negb (String.eqb (et_Provider producer) (et_Provider expected))
     || negb (String.eqb (et_Protocol producer) (et_Protocol expected))
     || negb (String.eqb (et_Endpoint producer) (et_Endpoint expected))
     || negb (String.eqb (et_ModelID producer) (et_ModelID expected))
  then Some ECacheIntegrity else None.

Definition validateTargetSnapshot (target : ExecutionTarget) : option goerror :=
  if existsb (fun s => String.eqb (TrimSpace s) "")
       [et_ConnectionID target; et_Provider target; et_Protocol target; et_Endpoint target; et_ModelID target]
  then Some ECacheIntegrity else None.

(** ** Failures and accounting *)

Definition provider_failure (cause : string) (code : string) (category : Category) : goerror :=
  EProvider (Some (EText cause)) (MkProviderError category code "" "" "" 0 0).

Definition accountingProviderError : goerror :=
  provider_failure "provider accounting is invalid" "ACCOUNTING_INVALID" CategoryOther.

Definition combineAccountingFailure (existing : option goerror) : option goerror :=
  match existing with
  | None => Some accountingProviderError
  | Some err =>
      if isCanceled err || isDeadline err then Some err
      else match asProvider err with
      | None => Some accountingProviderError
      | Some (_, pe) =>
          if str_in (pe_Code pe) ["ENDPOINT_POLICY"; "TLS_OR_TRANSPORT_CONFIGURATION"; "RESPONSE_TOO_LARGE"]
          then Some err
          else Some (EProvider (Some (EText "provider accounting is invalid"))
                 (MkProviderError CategoryOther "ACCOUNTING_INVALID" (pe_Type pe) (pe_ProviderRequestID pe) ""
                    (pe_Status pe) (pe_RetryAfter pe)))
      end
  end.

Definition normalizedLedger (ledger : Ledger) : Ledger :=
  let ledger := if String.eqb (usage_Status (ledger_Usage ledger)) ""
                then ledger <| ledger_Usage := UnavailableUsage |> else ledger in
  if String.eqb (cost_Status (ledger_Cost ledger)) ""
  then ledger <| ledger_Cost := UnavailableCost |> else ledger.

Definition validateLedger (ledger : Ledger) : option goerror :=
  match usage_Validate (ledger_Usage ledger) with
  | Err _ => Some accountingProviderError
  | Ok _ => match cost_Validate (ledger_Cost ledger) with
            | Err _ => Some accountingProviderError
            | Ok _ => None end
  end.

Definition acceptedOutput (output : json) : bool :=
  match output with
  | JNull => false
  | JStr text => negb (String.eqb (TrimSpace text) "")
  | _ => true
  end.

Definition resolveAttemptCost (ledger : Ledger) (connection : Connection) : res acc_error Cost :=
  match conn_Pricing connection with
  | None => Ok (ledger_Cost ledger)
  | Some pricing =>
      if String.eqb (cost_Source (ledger_Cost ledger)) "reported" then Ok (ledger_Cost ledger)
      else ResolveCost (ledger_Usage ledger) pricing None
  end.

Definition stopReasonFor (err : option goerror) : string :=
  match err with
  | None => "succeeded"
  | Some err =>
      if isCanceled err then "canceled"
      else if isDeadline err then "deadline_exceeded"
      else match asProvider err with
      | Some (_, pe) =>
          if String.eqb (pe_Code pe) "REPAIR_INPUT_LIMIT" then "repair_input_limit_exceeded"
          else if String.eqb (pe_Code pe) "RESPONSE_TOO_LARGE" then "response_limit_exceeded"
          else "terminal_error"
      | None => "terminal_error"
      end
  end.

Definition recordLastStage (attempts : list AttemptRecord) : string :=
  match last attempts with Some a => at_Stage a | None => "" end.

(** The error of [cachekey.Hash]; [%q] is written as plain quotes. *)
Definition cacheKeyError (e : cache_error) : goerror :=
  let quoted s := String quote_char s +:+ String quote_char EmptyString in
  EText match e with
        | UnsupportedMode v => "unsupported cache mode " +:+ quoted v
        | UnsupportedSchemaVersion v => "unsupported operation schema version " +:+ quoted v
        | OperationIncomplete =>
            "operation requires protocol, endpoint identity/method/path, model, and response projection"
        | HeaderMayContainCredentials h => "semantic header " +:+ quoted h +:+ " may contain credentials"
        end.

(** ** Parse failures *)

Definition captureParseFailureResponse (record : CallRecord) (raw : string) : CallRecord :=
  match cr_ParseFailureResponse record with
  | Some _ => record
  | None => if String.eqb raw "" then record else record <| cr_ParseFailureResponse := Some raw |>
  end.

Definition captureProviderParseFailure (record : CallRecord) (err : goerror) (previousOutput : string)
  : CallRecord * string :=
  match asProvider err with
  | Some (_, pe) =>
      if negb (String.eqb (pe_Category pe) CategoryParse) || String.eqb (pe_RawResponse pe) ""
      then (record, previousOutput)
      else (captureParseFailureResponse record (pe_RawResponse pe), pe_RawResponse pe)
  | None => (record, previousOutput)
  end.

Definition encodeRepairOutput (output : json) : string :=
  match output with JNull => "" | _ => Marshal output end.

(** ** Search metadata *)

Fixpoint rune_count_from (fuel : nat) (s : string) : Z :=
  match fuel with
  | O => 0
  | S fuel =>
      match s with
      | EmptyString => 0
      | String _ r =>
          let w := Nat.max 1 (rune_width s) in
          1 + rune_count_from fuel (String.substring w (String.length s - w) s)
      end
  end.
Definition RuneCountInString (s : string) : Z := rune_count_from (String.length s) s.

Definition maxSearchEntryPointCodePoints : Z := 32768.

Section Effects.
Context `{Env}.

Definition ValidSearchURL (raw : string) : bool :=
  match env_ParseURL raw with
  | Some parsed =>
      (String.eqb (url_Scheme parsed) "https" || String.eqb (url_Scheme parsed) "http")
      && negb (String.eqb (url_Hostname parsed) "") && negb (url_User parsed)
  | None => false
  end.

Definition ValidateSearchResult (result : option SearchResult) : res goerror unit :=
  match result with
  | None => Ok tt
  | Some r =>
      let? _ := fail_if (negb (String.eqb (sr_Mode r) "native") && negb (String.eqb (sr_Mode r) "jina"))
                  (EText "runtime: search mode is invalid") in
      let? _ := fail_if (negb (String.eqb (sr_CostStatus r) "unavailable"))
                  (EText "runtime: search cost status is invalid") in
      match sr_Sources r with
      | None => Err (EText "runtime: search source list is invalid")
      | Some sources =>
          let? _ := fail_if (50 <? llen sources) (EText "runtime: search source list is invalid") in
          let? _ := fail_if (existsb (fun s => negb (ValidSearchURL (src_URL s))) sources)
                      (EText "runtime: search source URL is invalid") in
          let? _ := fail_if (existsb (fun c => negb (ValidSearchURL (cit_URL c)) || (cit_StartIndex c <? 0)
                                               || (cit_EndIndex c <=? cit_StartIndex c)) (sr_Citations r))
                      (EText "runtime: search citation is invalid") in
          fail_if (maxSearchEntryPointCodePoints <? RuneCountInString (sr_EntryPointHTML r))
            (EText "runtime: search entry point exceeds 32768 code points")
      end
  end.

(** ** Effects *)

Definition M (A : Type) : Type := World → World * A.
Definition ret {A : Type} (a : A) : M A := fun w => (w, a).
Definition bind {A B : Type} (m : M A) (k : A → M B) : M B := fun w => let '(w, a) := m w in k a w.
Notation "'let!' x ':=' m 'in' k" := (bind m (fun x => k))
  (at level 10, x name, m at level 100, k at level 200).

Definition Now : M Time := env_Now.
Definition ctxErr : M (option goerror) := fun w => (w, env_ctxErr w).

(** A notification to the observer, when the call has one. *)
Definition observe (on : bool) (event : ObserverEvent) : M unit :=
  fun w => (if on then env_Observe event w else w, tt).

Definition executionContextError (now : Time) : M (option goerror) :=
  let! err := ctxErr in
  ret match err with
      | Some err => Some err
      | None => match env_Deadline with
                | Some deadline => if negb (Before now deadline) then Some EDeadlineExceeded else None
                | None => None
                end
      end.

(** [executionContextError(ctx, config.Now())] *)
Definition checkContext : M (option goerror) := let! now := Now in executionContextError now.

Definition validateStructuredValue (observer : bool) (connection : Connection) (repair : bool)
    (validator : option (json → option goerror)) (value : json) : M (option goerror) :=
  match validator with
  | None => ret (Some (EText "runtime structured output validator is required"))
  | Some validator =>
      if negb observer then ret (validator value)
      else
        let! _ := observe true (StartValidation connection repair) in
        let err := validator value in
        let! _ := observe true (FinishValidation err) in
        ret err
  end.

Definition admitResult (result : ProviderResult) (callType : string)
    (validateStructured : json → M (option goerror)) : M (option goerror) :=
  match validateLedger (pr_Accounting result) with
  | Some err => ret (Some err)
  | None =>
      if negb (acceptedOutput (pr_Output result)) then
        ret (Some (provider_failure "provider returned no accepted output" "OUTPUT_REQUIRED" CategoryOther))
      else if negb (is_ok (ValidateSearchResult (pr_Search result))) then
        ret (Some (provider_failure "provider search metadata is invalid" "SEARCH_INVALID" CategoryOther))
      else if String.eqb callType "structured" then validateStructured (pr_Output result)
      else ret None
  end.

Definition admitCachedResult (connection : Connection) (target : ExecutionTarget) (cached : CachedResult) (call : Call)
  : M (option goerror) :=
  match validateCacheProducer (ca_Producer cached) target with
  | Some err => ret (Some err)
  | None => admitResult (ca_ProviderResult cached) (call_CallType call)
              (validateStructuredValue (call_Observer call) connection false (call_ValidateStructured call))
  end.

Definition admitPlannedCachedResult (connection : Connection) (generationTarget : ExecutionTarget)
    (cached : CachedResult) (call : Call) : M (option goerror) :=
  let producerErr :=
    if String.eqb (et_ConnectionID (ca_GenerationTarget cached)) "" then
      validateCacheProducer (ca_Producer cached) generationTarget
    else if String.eqb (ca_CompletedBy cached) "generation" then
      match validateCacheProducer (ca_GenerationTarget cached) generationTarget with
      | Some err => Some err
      | None => validateCacheProducer (ca_Producer cached) (ca_GenerationTarget cached)
      end
    else if String.eqb (ca_CompletedBy cached) "repair" then
      match validateTargetSnapshot (ca_GenerationTarget cached) with
      | Some err => Some err
      | None => validateTargetSnapshot (ca_Producer cached)
      end
    else Some ECacheIntegrity in
  match producerErr with
  | Some err => ret (Some err)
  | None => admitResult (ca_ProviderResult cached) (call_CallType call)
              (validateStructuredValue (call_Observer call) connection false (call_ValidateStructured call))
  end.

Definition waitForRetry (observer : bool) (target : ExecutionTarget) (callType : string) (c : Classification)
    (delay : Duration) : M (option goerror) :=
  let! _ := observe observer (StartRetry target callType c delay) in
  let! err := env_Wait delay in
  let! _ := observe observer (FinishRetry err) in
  ret err.

(** ** Progress *)

Definition buildProgressSnapshot (startedAt : Time) (record : CallRecord)
    (activeStream : option StreamDiagnostics) (event : ProgressSnapshot) : M ProgressSnapshot :=
  let d := cr_Diagnostics record in
  let active f := match activeStream with Some s => f s | None => 0 end in
  let! now1 := Now in
  let! now2 := Now in
  let event :=
    event <| ps_AttemptsUsed := llen (cr_Attempts record) |>
          <| ps_AttemptsRemaining := Z.max (ps_MaxAttempts event - llen (cr_Attempts record)) 0 |>
          <| ps_ElapsedMs := Z.max (Milliseconds (Sub now1 startedAt)) 0 |>
          <| ps_StopReason := cr_StopReason record |>
          <| ps_ReceivedBytes := wrap64 (dg_ReceivedBytes d + active sd_ReceivedBytes) |>
          <| ps_EventCount := wrap64 (dg_EventCount d + active sd_EventCount) |>
          <| ps_OutputBytes := wrap64 (dg_OutputBytes d + active sd_OutputBytes) |>
          <| ps_OutputCodePoints := wrap64 (dg_OutputCodePoints d + active sd_OutputCodePoints) |>
          <| ps_LastActivity := now2 |>
          <| ps_EffectiveTimeout := dg_EffectiveTimeout d |>
          <| ps_Origin := cr_Origin record |>
          <| ps_Attempts := cr_Attempts record |>
          <| ps_Accounting := match cr_Attempts record with [] => None | _ => Some (cr_Accounting record) end |> in
  match env_Deadline with
  | Some deadline =>
      let! now3 := Now in
      ret (event <| ps_DeadlineRemainingMs := Some (Z.max (Milliseconds (Sub deadline now3)) 0) |>)
  | None => ret event
  end.

(** Run a provider execution, calling back for each stream report. *)
Fixpoint runExec {S : Type} (report : StreamDiagnostics → S → World → World * S) (run : ExecRun World) (s : S)
  : World * (S * ProviderResult * option goerror) :=
  match run with
  | ExecReturn w result failure => (w, (s, result, failure))
  | ExecReport w snapshot resume => let '(w, s) := report snapshot s w in runExec report (resume w) s
  end.
End Effects.

Notation "'let!' x ':=' m 'in' k" := (bind m (fun x => k))
  (at level 10, x name, m at level 100, k at level 200) : go_scope.

(** ** Reasoning about effects: what holds of a result in every world *)

Section Always.
Context `{Env}.

Definition always {A : Type} (m : M A) (P : A → Prop) : Prop := ∀ w, P (m w).2.

Lemma always_ret {A : Type} (a : A) (P : A → Prop) : P a → always (ret a) P.
Proof. by intros Ha w. Qed.

Lemma always_bind {A B : Type} (m : M A) (k : A → M B) (P : A → Prop) (Q : B → Prop) :
  always m P → (∀ a, P a → always (k a) Q) → always (bind m k) Q.
Proof.
  intros Hm Hk w. unfold bind. specialize (Hm w). destruct (m w) as [w' a]. by apply Hk.
Qed.

(** Skipping an effect whose result does not matter. *)
Lemma always_skip {A B : Type} (m : M A) (k : A → M B) (Q : B → Prop) :
  (∀ a, always (k a) Q) → always (bind m k) Q.
Proof. intros Hk. by apply (always_bind m k (fun _ => True)). Qed.

Lemma always_and {A : Type} (m : M A) (P Q : A → Prop) :
  always m P → always m Q → always m (fun a => P a ∧ Q a).
Proof. intros HP HQ w. by split. Qed.

Lemma always_mono {A : Type} (m : M A) (P Q : A → Prop) :
  always m P → (∀ a, P a → Q a) → always m Q.
Proof. intros Hm HPQ w. apply HPQ, Hm. Qed.

Lemma observe_always {A : Type} on e (k : unit → M A) (Q : A → Prop) :
  always (k tt) Q → always (let! u := observe on e in k u) Q.
Proof. intros Hk w. unfold bind, observe. cbn. apply Hk. Qed.
End Always.

(** ** What admission promises of a committed result *)

Definition admitted (callType : string) (validator : option (json → option goerror)) (output : json) (ledger : Ledger) : Prop :=
  acceptedOutput output = true ∧ validateLedger ledger = None
  ∧ (callType = "structured" → ∃ f, validator = Some f ∧ f output = None).

Section Admission.
Context `{Env}.

Lemma validateStructuredValue_spec observer connection repair validator value :
  always (validateStructuredValue observer connection repair validator value)
    (fun e => e = None ↔ ∃ f, validator = Some f ∧ f value = None).
Proof.
  unfold validateStructuredValue. destruct validator as [f|]; [|apply always_ret; naive_solver].
  destruct observer; cbn [negb]; [do 2 apply observe_always|]; apply always_ret; naive_solver.
Qed.

Lemma admitResult_spec result callType observer connection repair validator :
  always (admitResult result callType (validateStructuredValue observer connection repair validator))
    (fun e => e = None ↔ admitted callType validator (pr_Output result) (pr_Accounting result)
                         ∧ ValidateSearchResult (pr_Search result) = Ok tt).
Proof.
  unfold admitResult, admitted.
  destruct (validateLedger _) as [e|]; [apply always_ret; naive_solver|].
  destruct (acceptedOutput _); cbn [negb]; [|apply always_ret; naive_solver].
  destruct (ValidateSearchResult _) as [[]|e]; cbn [is_ok negb]; [|apply always_ret; naive_solver].
  destruct (String.eqb_spec callType "structured"); [|apply always_ret; naive_solver].
  eapply always_mono; [apply validateStructuredValue_spec|]. naive_solver.
Qed.

Lemma admitPlannedCachedResult_sound connection target cached call :
  always (admitPlannedCachedResult connection target cached call)
    (fun e => e = None → admitted (call_CallType call) (call_ValidateStructured call)
                (pr_Output (ca_ProviderResult cached)) (pr_Accounting (ca_ProviderResult cached))).
Proof.
  unfold admitPlannedCachedResult. case_match; [by apply always_ret|].
  eapply always_mono; [apply admitResult_spec|]. naive_solver.
Qed.

Lemma admitCachedResult_sound connection target cached call :
  always (admitCachedResult connection target cached call)
    (fun e => e = None → admitted (call_CallType call) (call_ValidateStructured call)
                (pr_Output (ca_ProviderResult cached)) (pr_Accounting (ca_ProviderResult cached))).
Proof.
  unfold admitCachedResult. case_match; [by apply always_ret|].
  eapply always_mono; [apply admitResult_spec|]. naive_solver.
Qed.
End Admission.
