(* ===== verification/Scripted.v ===== *)
(** * Scripted: a concrete environment of the runtime

    The instance of [Env] at which the runtime's theorems are applied to
    concrete runs: the provider answers from a script, the clock advances a
    millisecond per reading, waits succeed, and the cache is empty or holds one
    entry for every key.  It models no source file. *)
From Corelib Require Import SpecFloat.
From S2P Require Import Prelude Float64 Json Retry Accounting CacheKey Runtime.

Open Scope string_scope.
Open Scope list_scope.
Open Scope Z_scope.

Record Script := MkScript {
  sc_clock : Z;
  sc_answers : list (ProviderResult * option goerror);
  sc_cached : option CachedResult;
  sc_events : Z;
}.

Definition script_result (text : string) : ProviderResult :=
  MkResult text None (JStr text) EmptyLedger zeroStream true.

Definition script_prepare (connection : Connection) (c : Call) : PreparedOperation :=
  MkPrepared (MkOperation OperationSchemaVersion "" "chat" (MkEndpoint "host" "POST" "/v1") (call_ModelID c) (JStr "payload") []
                (MkProjection (conn_Provider connection) "chat" "1")) JNull.

Definition script_run (s : Script) : ExecRun Script :=
  match sc_answers s with
  | [] => ExecReturn s (script_result "") (Some (EText "script exhausted"))
  | (r, e) :: rest =>
      ExecReport s (zeroStream <| sd_ReceivedBytes := 1 |>)
        (fun s' => ExecReturn (s' <| sc_answers := rest |>) r e)
  end.

#[export] Instance ScriptEnv : Env := {|
  World := Script;
  env_Now s := (s <| sc_clock ::= Z.add Millisecond |>, sc_clock s);
  env_Random s := (s, fzero);
  env_Wait d s := (s <| sc_clock ::= Z.add d |>, None);
  env_ctxErr s := None;
  env_Deadline := None;
  env_NewMemo s := (s, 1);
  env_Prepare connection credential c s := (s, Ok (script_prepare connection c));
  env_Execute p s := script_run s;
  env_CacheGet h v s := (s, Ok (sc_cached s));
  env_CacheSet h v r s := (s <| sc_cached := Some r |>, None);
  env_Progress e s := s <| sc_events ::= Z.succ |>;
  env_Observe e s := s <| sc_events ::= Z.succ |>;
  env_sha256_hex s := s;
  env_ParseURL s := Some (MkURL "https" s false);
|}.

Definition script_world (answers : list (ProviderResult * option goerror)) : Script := MkScript 1000000 answers None 0.

Definition script_connection : Connection := MkConnection "c1" "openai" "chat" "https://host" "" false None.
Definition script_credential : Credential := MkCredential "key" [].

(** A structured call that accepts only the text [ok]. *)
Definition script_call (callType : string) : Call :=
  {| call_Connections := []; call_ModelID := "m"; call_Messages := []; call_CallType := callType; call_Schema := None;
     call_Tools := []; call_ToolChoice := MkToolChoice "" ""; call_ReasoningEffort := ""; call_WebSearch := false;
     call_SearchMemo := None; call_ProviderOptions := None;
     call_Context := MkContext "" "" "" "r" "" "" "" "" None None None;
     call_Origin := MkOrigin "" "" "" "" "" "" "" "";
     call_ValidateStructured :=
       Some (fun v => match v with JStr "ok" => None | _ => Some (EText "not ok") end);
     call_Repair := None; call_Observer := true; call_Progress := true |}.

Definition script_policy : Policy :=
  MkPolicy 4 (Some [CategoryRateLimit]) (MkBackoff 100 1000)
    (Some (MkRepairPlan (MkTarget "" "generation" "" "" None) None)) None true.

Definition rate_limited : goerror := EProvider None (MkProviderError CategoryRateLimit "" "" "" "" 429 0).
