(* ===== verification/ProviderNormalize.v ===== *)
(** * ProviderNormalize: responses of the providers

    Models [src/internal/providers/normalize.go] and [search_result.go]: what the
    router does with a response that it decoded.  The output is extracted by
    protocol, the completion is checked, usage and cost are normalised
    independently of each other, and search metadata is collected.  A response is
    the JSON value [decodeJSONObject] reads, so a number is a [json.Number]; the
    assistant output, a Go struct, is the JSON value it is encoded as.  The random
    identifiers of Gemini tool calls are a parameter. *)
From Stdlib Require Import Ascii.
From Corelib Require Import SpecFloat.
From S2P Require Import Prelude Float64 Json JsonText FloatText Unicode Schema Retry Accounting CacheKey Runtime.

Open Scope string_scope.
Open Scope list_scope.
Open Scope Z_scope.

(** ** Values *)

(** [object[key]], nil when there is no such member. *)
Definition at_key (key : string) (object : list (string * json)) : json := default JNull (field key object).

Definition objectValue (value : json) : list (string * json) := match value with JObj object => object | _ => [] end.
Definition arrayValue (value : json) : list json := match value with JArr array => array | _ => [] end.
Definition stringValue (value : json) : string := match value with JStr text => text | _ => "" end.
Definition isString (value : json) : bool := match value with JStr _ => true | _ => false end.

(** [value == text] of an [any] and a string. *)
Definition is_text (value : json) (text : string) : bool := match value with JStr s => String.eqb s text | _ => false end.

Definition isNil (value : json) : bool := match value with JNull => true | _ => false end.

(** [strings.TrimSpace(text) == ""] *)
Definition blank (text : string) : bool := String.eqb (TrimSpace text) "".

Definition firstField (object : list (string * json)) (keys : list string) : option json :=
  head (omap (fun key => field key object) keys).

(** A member that is present and neither nil nor a string. *)
Definition bad_text (object : list (string * json)) (key : string) : bool :=
  match field key object with Some value => negb (isNil value) && negb (isString value) | None => false end.

Definition decodeJSONValue (input : string) : option json := decode_one input.
Definition decodeJSONObject (input : string) : option (list (string * json)) :=
  match decodeJSONValue input with Some (JObj object) => Some object | _ => None end.

(** [json.Valid] *)
Definition json_Valid (text : string) : bool := match decode_one text with Some _ => true | None => false end.

(** ** Tool calls *)

Record AssistantToolCall : Type := MkToolCall {
  tc_ID : string; tc_ItemID : string; tc_Type : string; tc_Name : string; tc_Arguments : string }.

Definition omit_empty (key value : string) : list (string * json) :=
  if String.eqb value "" then [] else [(key, JStr value)].

Definition tool_call_json (call : AssistantToolCall) : json :=
  JObj ([("id", JStr (tc_ID call))] ++ omit_empty "item_id" (tc_ItemID call) ++ [("type", JStr (tc_Type call));
        ("function", JObj [("name", JStr (tc_Name call)); ("arguments", JStr (tc_Arguments call))])]).

(** [runtime.AssistantOutput] *)
Definition assistant_output (content : string) (calls : list AssistantToolCall) : json :=
  JObj (omit_empty "content" content ++ [("tool_calls", JArr (map tool_call_json calls))]).

Definition responsesToolCall (message : list (string * json)) : option AssistantToolCall :=
  match field "call_id" message, field "name" message, field "arguments" message with
  | Some (JStr id), Some (JStr name), Some (JStr arguments) =>
      if blank id || blank name || negb (json_Valid arguments) then None
      else Some (MkToolCall id (stringValue (at_key "id" message)) "function" name arguments)
  | _, _, _ => None
  end.

Fixpoint chat_calls (items : list json) : option (list AssistantToolCall) :=
  match items with
  | [] => Some []
  | JObj item :: rest =>
      if negb (String.eqb (stringValue (at_key "type" item)) "function") then None else
      let function := objectValue (at_key "function" item) in
      let name := stringValue (at_key "name" function) in
      let id := stringValue (at_key "id" item) in
      match field "arguments" function with
      | Some (JStr arguments) =>
          if blank id || blank name || negb (json_Valid arguments) then None
          else calls ← chat_calls rest; Some (MkToolCall id "" "function" name arguments :: calls)
      | _ => None
      end
  | _ :: _ => None
  end.
Definition chatToolCalls (value : json) : option (list AssistantToolCall) :=
  match value with
  | JNull => Some []
  | JArr items => chat_calls items
  | _ => None
  end.

Definition genericToolCall (value : json) : option AssistantToolCall :=
  match value with
  | JObj object =>
      let name := stringValue (at_key "name" object) in
      let id := stringValue (at_key "id" object) in
      match (match field "args" object with Some v => Some v | None => field "input" object end) with
      | Some argumentsValue =>
          let arguments := Marshal argumentsValue in
          if blank name || negb (json_Valid arguments) then None
          else Some (MkToolCall id "" "function" name arguments)
      | None => None
      end
  | _ => None
  end.

(** ** Output *)

Record providerOutputExtraction : Type := MkExtraction {
  ex_output : json; ex_text : string; ex_refusal : bool; ex_empty : bool; ex_malformed : bool }.

Definition no_extraction : providerOutputExtraction := MkExtraction JNull "" false false false.
Definition malformed : providerOutputExtraction := no_extraction <| ex_malformed := true |>.
Definition refused : providerOutputExtraction := no_extraction <| ex_refusal := true |>.
Definition emptied : providerOutputExtraction := no_extraction <| ex_empty := true |>.
Definition extracted_output (output : json) : providerOutputExtraction := no_extraction <| ex_output := output |>.
Definition extracted_text (text : string) : providerOutputExtraction := no_extraction <| ex_text := text |>.

(** A loop whose body may return from the function. *)
Fixpoint loop {S X : Type} (body : S → X → providerOutputExtraction + S) (l : list X) (s : S)
  : providerOutputExtraction + S :=
  match l with
  | [] => inr s
  | x :: rest => match body s x with inl r => inl r | inr s' => loop body rest s' end
  end.

(** The end of an extraction: tool calls, text, or nothing. *)
Definition finish (toolCalls : list AssistantToolCall) (text : string) (otherwise : providerOutputExtraction)
  : providerOutputExtraction :=
  match toolCalls with
  | _ :: _ => extracted_output (assistant_output text toolCalls)
  | [] => if negb (blank text) then extracted_text text else otherwise
  end.

(** *** OpenAI Responses *)

Definition valid_part_shape (partValue : json) : bool :=
  match partValue with
  | JObj part => negb (existsb (bad_text part) ["type"; "text"; "content"; "refusal"])
  | _ => false
  end.
Definition valid_item_shape (itemValue : json) : bool :=
  match itemValue with
  | JObj item =>
      negb (bad_text item "type")
      && match field "content" item with
         | None | Some JNull => true
         | Some (JArr content) => forallb valid_part_shape content
         | Some _ => false
         end
  | _ => false
  end.
Definition validResponsesOutputShape (response : list (string * json)) : bool :=
  negb (bad_text response "output_text")
  && match field "output" response with
     | None | Some JNull => true
     | Some (JArr output) => forallb valid_item_shape output
     | Some _ => false
     end.

(** The text of a part: its first of [text] and [content] that is not nil. *)
Definition part_text (part : list (string * json)) : option string :=
  match List.find (fun key => negb (isNil (at_key key part))) ["text"; "content"] with
  | Some key => match at_key key part with JStr text => Some text | _ => None end
  | None => Some ""
  end.

Definition responses_part (contentText : string) (partValue : json) : providerOutputExtraction + string :=
  match partValue with
  | JObj part =>
      if String.eqb (stringValue (at_key "type" part)) "refusal" || negb (blank (stringValue (at_key "refusal" part)))
      then inl refused
      else if negb (isNil (at_key "parsed" part)) then inl (extracted_output (at_key "parsed" part))
      else if negb (isNil (at_key "json" part)) then inl (extracted_output (at_key "json" part))
      else match part_text part with
           | Some text => inr (contentText +:+ text)
           | None => inl malformed
           end
  | _ => inl malformed
  end.

Definition responses_message (s : list AssistantToolCall * string) (messageValue : json)
  : providerOutputExtraction + (list AssistantToolCall * string) :=
  let '(toolCalls, contentText) := s in
  match messageValue with
  | JObj message =>
      let messageType := stringValue (at_key "type" message) in
      if String.eqb messageType "function_call" then
        match responsesToolCall message with
        | Some call => if (length toolCalls =? 128)%nat then inl malformed else inr (toolCalls ++ [call], contentText)
        | None => inl malformed
        end
      else
        match field "content" message with
        | None => if String.eqb messageType "message" then inl malformed else inr s
        | Some JNull => inr s
        | Some (JArr content) =>
            match loop responses_part content contentText with
            | inl r => inl r
            | inr contentText => inr (toolCalls, contentText)
            end
        | Some _ => inl malformed
        end
  | _ => inl malformed
  end.

Definition present (key : string) (object : list (string * json)) : bool :=
  match field key object with Some _ => true | None => false end.

Definition extract_responses (response : list (string * json)) : providerOutputExtraction :=
  if negb (validResponsesOutputShape response) then malformed
  else if is_text (at_key "status" response) "incomplete"
          && String.eqb (stringValue (at_key "reason" (objectValue (at_key "incomplete_details" response)))) "content_filter"
  then refused
  else
    match at_key "output_text" response with
    | JNull | JStr _ =>
        let text := stringValue (at_key "output_text" response) in
        let last := if present "output" response || present "output_text" response then emptied else malformed in
        match at_key "output" response with
        | JNull => finish [] text last
        | JArr outputArray =>
            if (length outputArray =? 0)%nat && present "output_text" response then emptied
            else
              match loop responses_message outputArray ([], "") with
              | inl r => r
              | inr (toolCalls, contentText) => finish toolCalls (if blank text then contentText else text) last
              end
        | _ => malformed
        end
    | _ => malformed
    end.

(** *** Chat completions *)

Definition extract_chat (response : list (string * json)) : providerOutputExtraction :=
  match at_key "choices" response with
  | JArr (JObj choice :: _) =>
      if String.eqb (stringValue (at_key "finish_reason" choice)) "content_filter" then refused
      else
        match at_key "message" choice with
        | JObj message =>
            if negb (blank (stringValue (at_key "refusal" message))) then refused
            else
              match field "content" message with
              | Some JNull | Some (JStr _) =>
                  match chatToolCalls (at_key "tool_calls" message) with
                  | Some toolCalls =>
                      if (128 <? length toolCalls)%nat then malformed
                      else finish toolCalls (stringValue (at_key "content" message)) emptied
                  | None => malformed
                  end
              | _ => malformed
              end
        | _ => malformed
        end
  | _ => malformed
  end.

(** *** Gemini *)

Section Gemini.
(** The random identifier of the tool call at an index, when the random source
    does not fail. *)
Variable random_id : nat → option string.

Definition geminiToolCall (index : nat) (value : json) : option AssistantToolCall :=
  call ← genericToolCall value;
  if String.eqb (tc_ID call) "" then id ← random_id index; Some (call <| tc_ID := "call_" +:+ id |>)
  else Some call.

Definition gemini_part (s : list AssistantToolCall * string) (partValue : json)
  : providerOutputExtraction + (list AssistantToolCall * string) :=
  let '(toolCalls, text) := s in
  match partValue with
  | JObj part =>
      match field "functionCall" part with
      | Some function =>
          match geminiToolCall (length toolCalls) function with
          | Some call =>
              if String.eqb (tc_ID call) "" || (length toolCalls =? 128)%nat then inl malformed
              else inr (toolCalls ++ [call], text)
          | None => inl malformed
          end
      | None =>
          if bad_text part "text" then inl malformed
          else inr (toolCalls, if String.eqb text "" then stringValue (at_key "text" part) else text)
      end
  | _ => inl malformed
  end.

Definition gemini_refusals : list string := ["SAFETY"; "BLOCKED"; "OTHER"; "PROHIBITED_CONTENT"; "SPII"].

Definition extract_gemini (response : list (string * json)) : providerOutputExtraction :=
  if negb (String.eqb (stringValue (at_key "blockReason" (objectValue (at_key "promptFeedback" response)))) "") then refused
  else
    match at_key "candidates" response with
    | JArr [] => emptied
    | JArr (JObj candidate :: _) =>
        if str_in (stringValue (at_key "finishReason" candidate)) gemini_refusals then refused
        else
          match at_key "content" candidate with
          | JObj content =>
              match at_key "parts" content with
              | JArr [] => emptied
              | JArr parts =>
                  match loop gemini_part parts ([], "") with
                  | inl r => r
                  | inr (toolCalls, text) => finish toolCalls text emptied
                  end
              | _ => malformed
              end
          | _ => malformed
          end
    | _ => malformed
    end.

(** *** Anthropic *)

Definition anthropic_part (s : list AssistantToolCall * string) (partValue : json)
  : providerOutputExtraction + (list AssistantToolCall * string) :=
  let '(toolCalls, text) := s in
  match partValue with
  | JObj object =>
      if String.eqb (stringValue (at_key "type" object)) "text" then
        match at_key "text" object with
        | JNull => inr s
        | JStr value => inr (toolCalls, text +:+ value)
        | _ => inl malformed
        end
      else if String.eqb (stringValue (at_key "type" object)) "tool_use" then
        match genericToolCall partValue with
        | Some call =>
            if String.eqb (tc_ID call) "" || (length toolCalls =? 128)%nat then inl malformed
            else inr (toolCalls ++ [call], text)
        | None => inl malformed
        end
      else inr s
  | _ => inl malformed
  end.

Definition extract_anthropic (response : list (string * json)) : providerOutputExtraction :=
  if String.eqb (stringValue (at_key "stop_reason" response)) "refusal" then refused
  else
    match at_key "content" response with
    | JNull => emptied
    | JArr content =>
        match loop anthropic_part content ([], "") with
        | inl r => r
        | inr (toolCalls, text) => finish toolCalls text emptied
        end
    | _ => malformed
    end.

Definition is_chat (protocol : string) : bool :=
  str_in protocol ["openai.chat.completions"; "openai-compatible.chat.completions"].

Definition extractProviderOutputState (protocol : string) (response : list (string * json)) : providerOutputExtraction :=
  if String.eqb protocol "openai.responses" then extract_responses response
  else if is_chat protocol then extract_chat response
  else if String.eqb protocol "google.gemini.generateContent" then extract_gemini response
  else if String.eqb protocol "anthropic.messages" then extract_anthropic response
  else malformed.
End Gemini.

(** ** Completion *)

(** [boundedCode] of router.go. *)
Definition code_rune (c : N) : bool :=
  ((c =? 95) || (c =? 45) || (c =? 46) || ((48 <=? c) && (c <=? 57)) || ((97 <=? c) && (c <=? 122))
   || ((65 <=? c) && (c <=? 90)))%N.
Definition boundedCode (value : string) : string :=
  let value := TrimSpace value in
  let value := if 80 <? slen value then String.substring 0 80 value else value in
  if forallb code_rune (runes value) then value else "provider_error".

Definition completion_other (code : string) : goerror :=
  provider_failure "provider response did not report a supported completion" code CategoryOther.
Definition completion_refusal : goerror :=
  provider_failure "provider refusal or content filter" "PROVIDER_REFUSAL" CategoryRefusal.

(** The category of a failure code. *)
Definition failure_category (code : string) (otherwise : Category) : Category :=
  let code := ToLower code in
  if str_in code ["rate_limit_exceeded"; "rate_limit"] then CategoryRateLimit
  else if str_in code ["server_error"; "server_is_overloaded"; "service_unavailable"] then CategoryServer
  else if String.eqb code "provider_retry" then CategoryProvider
  else if str_in code ["refusal"; "content_filter"] then CategoryRefusal
  else otherwise.

Definition normalizeResponsesFailure (response : list (string * json)) : goerror :=
  let direct := objectValue (at_key "error" response) in
  let errorObject := match direct with
                     | [] => objectValue (at_key "error" (objectValue (at_key "response" response)))
                     | _ => direct
                     end in
  let code := boundedCode (stringValue (at_key "code" errorObject)) in
  let typeName := boundedCode (stringValue (at_key "type" errorObject)) in
  EProvider (Some (EText "provider response reported failure"))
    (MkProviderError (failure_category code CategoryOther) code typeName "" "" 0 0).

(** The reported completion: absent, blank, or a word. *)
Definition completion_word (value : json) : option string :=
  match value with JStr s => if blank s then None else Some (TrimSpace s) | _ => None end.

Definition responses_completion (response : list (string * json)) : option goerror :=
  match completion_word (at_key "status" response) with
  | None => Some (completion_other "COMPLETION_REQUIRED")
  | Some status =>
      let status := ToLower status in
      if String.eqb status "completed" then None
      else if String.eqb status "failed" then Some (normalizeResponsesFailure response)
      else if String.eqb status "incomplete" then
        if String.eqb (fold_case (stringValue (at_key "reason" (objectValue (at_key "incomplete_details" response))))) "content_filter"
        then Some completion_refusal else Some (completion_other "COMPLETION_INCOMPLETE")
      else Some (completion_other "COMPLETION_UNSUPPORTED")
  end.

(** The verdict on a completion word: accepted, refused, cut off, or unsupported. *)
Definition verdict (word : option string) (accepted refusals limits : list string) : option goerror :=
  match word with
  | None => Some (completion_other "COMPLETION_REQUIRED")
  | Some word =>
      if str_in word accepted then None
      else if str_in word refusals then Some completion_refusal
      else if str_in word limits then Some (completion_other "COMPLETION_LIMIT")
      else Some (completion_other "COMPLETION_UNSUPPORTED")
  end.

Definition chat_completion (response : list (string * json)) : option goerror :=
  match arrayValue (at_key "choices" response) with
  | [] => Some (completion_other "COMPLETION_REQUIRED")
  | choice :: _ =>
      verdict (ToLower <$> completion_word (at_key "finish_reason" (objectValue choice)))
        ["stop"; "tool_calls"] ["content_filter"] ["length"]
  end.

Definition gemini_completion (response : list (string * json)) : option goerror :=
  if negb (blank (stringValue (at_key "blockReason" (objectValue (at_key "promptFeedback" response)))))
  then Some completion_refusal
  else
    match arrayValue (at_key "candidates" response) with
    | [] => Some (completion_other "COMPLETION_REQUIRED")
    | candidate :: _ =>
        verdict (ToUpper <$> completion_word (at_key "finishReason" (objectValue candidate)))
          ["STOP"] ["SAFETY"; "BLOCKED"; "PROHIBITED_CONTENT"; "SPII"] ["MAX_TOKENS"]
    end.

Definition anthropic_completion (response : list (string * json)) : option goerror :=
  verdict (ToLower <$> completion_word (at_key "stop_reason" response))
    ["end_turn"; "stop_sequence"; "tool_use"] ["refusal"] ["max_tokens"].

Definition validateCompletion (protocol : string) (response : list (string * json)) : option goerror :=
  if String.eqb protocol "openai.responses" then responses_completion response
  else if is_chat protocol then chat_completion response
  else if String.eqb protocol "google.gemini.generateContent" then gemini_completion response
  else if String.eqb protocol "anthropic.messages" then anthropic_completion response
  else Some (completion_other "COMPLETION_UNSUPPORTED").

(** ** Usage *)

Definition token_error : goerror := EText "token count is not a nonnegative integer".

(** The exponent written in a literal. *)
Definition literal_power (n : string) : option Z :=
  let '(_, s1) := scan_sign n in
  '(_, s2) ← scan_whole s1;
  '(_, s3) ← scan_fraction s2;
  '(power, _) ← scan_exponent s3;
  exponent_value power.

(** [big.Rat.SetString] of a number literal: the integer it denotes, when it is
    one.  An exponent that is no [int64] is an error, and a number other than zero
    with a power of ten beyond a million is refused. *)
Definition rat_integer (text : string) : option Z :=
  power ← literal_power text;
  '(m, e) ← literal_value text;
  if (power <? int64_min) || (int64_max <? power) then None
  else if m =? 0 then Some 0
  else if 1000000 <? Z.abs e then None
  else if 0 <=? e then Some (m * 10 ^ e)
  else if m mod 10 ^ (- e) =? 0 then Some (m / 10 ^ (- e)) else None.

Definition parseToken (value : json) : res goerror Z :=
  match value with
  | JNum text =>
      if (slen text =? 0) || (128 <? slen text) then Err token_error
      else
        match rat_integer text with
        | Some z => if (z <? 0) || (int64_max <? z) then Err token_error else Ok z
        | None => Err token_error
        end
  | _ => Err token_error
  end.

(** [tokenField] on a member that [firstField] found or not. *)
Definition tokenField (value : option json) : res goerror Z :=
  match value with
  | None => Ok 0
  | Some JNull => Err (EText "token count is null")
  | Some value => parseToken value
  end.

Definition is_present (value : option json) : bool := match value with Some _ => true | None => false end.

(** A usage object, [None] when it is absent or empty. *)
Definition usageObject (response : list (string * json)) (key : string) : res goerror (option (list (string * json))) :=
  match field key response with
  | None => Ok None
  | Some JNull => Err (EText "usage is null")
  | Some (JObj []) => Ok None
  | Some (JObj object) => Ok (Some object)
  | Some _ => Err (EText "usage is not an object")
  end.

(** The first of the objects that is neither absent nor nil. *)
Fixpoint optionalObjectStrict (object : list (string * json)) (keys : list string) : res goerror (list (string * json)) :=
  match keys with
  | [] => Ok []
  | key :: rest =>
      match field key object with
      | None | Some JNull => optionalObjectStrict object rest
      | Some (JObj nested) => Ok nested
      | Some _ => Err (EText "usage detail is not an object")
      end
  end.

(** A token count with its presence. *)
Record Count : Type := MkCount { count : Z; counted : bool }.
Definition tokenCount (value : option json) : res goerror Count :=
  let? z := tokenField value in Ok (MkCount z (is_present value)).

Definition lift_accounting {A : Type} (m : res acc_error A) : res goerror A :=
  match m with Ok a => Ok a | Err _ => Err (EText "accounting") end.

Definition usageFromTotals (input cacheRead cacheCreation output reasoning : Count)
    (outputIncludesReasoning inputIncludesCaches : bool) : res goerror Usage :=
  let? input' :=
    (if counted input && inputIncludesCaches then
       if (count input <? count cacheRead) || (wrap64 (count input - count cacheRead) <? count cacheCreation)
       then Err (EText "cache token components exceed input tokens")
       else Ok (wrap64 (count input - wrap64 (count cacheRead + count cacheCreation)))
     else Ok (count input)) in
  let? output' :=
    (if counted output && outputIncludesReasoning then
       if count output <? count reasoning then Err (EText "reasoning token component exceeds output tokens")
       else Ok (wrap64 (count output - count reasoning))
     else Ok (count output)) in
  let known := counted input || counted output || counted cacheRead || counted cacheCreation || counted reasoning in
  if negb known then Ok UnavailableUsage
  else
    let status := if counted input && counted output then UsageComplete else UsagePartial in
    let usage := MkUsage input' (count cacheRead) (count cacheCreation) output' (count reasoning) status in
    let? _ := lift_accounting (usage_Validate usage) in
    Ok usage.

(** The first of two lookups that is present. *)
Definition or_field (value : option json) (otherwise : option json) : option json :=
  match value with Some _ => value | None => otherwise end.

Definition openai_usage (usage : list (string * json)) : res goerror Usage :=
  let? details := optionalObjectStrict usage ["prompt_tokens_details"; "input_tokens_details"] in
  let? cacheRead := tokenCount (or_field (firstField details ["cached_tokens"])
                                  (firstField usage ["cached_tokens"; "cache_read_input_tokens"])) in
  let? cacheCreation := tokenCount (or_field (firstField details ["cache_write_tokens"; "cache_creation_tokens"])
                                      (firstField usage ["cache_creation_input_tokens"])) in
  let? input := tokenCount (firstField usage ["prompt_tokens"; "input_tokens"]) in
  let? outputDetails := optionalObjectStrict usage ["completion_tokens_details"; "output_tokens_details"] in
  let? reasoning := tokenCount (or_field (firstField outputDetails ["reasoning_tokens"])
                                  (firstField usage ["reasoning_tokens"])) in
  let? output := tokenCount (firstField usage ["completion_tokens"; "output_tokens"]) in
  usageFromTotals input cacheRead cacheCreation output reasoning true true.

Definition gemini_usage (usage : list (string * json)) : res goerror Usage :=
  let? input := tokenCount (firstField usage ["promptTokenCount"]) in
  let? cacheRead := tokenCount (firstField usage ["cachedContentTokenCount"]) in
  let? output := tokenCount (firstField usage ["candidatesTokenCount"]) in
  let? reasoning := tokenCount (firstField usage ["thoughtsTokenCount"]) in
  usageFromTotals input cacheRead (MkCount 0 false) output reasoning false true.

Definition anthropic_usage (usage : list (string * json)) : res goerror Usage :=
  let? input := tokenCount (firstField usage ["input_tokens"]) in
  let? cacheRead := tokenCount (firstField usage ["cache_read_input_tokens"]) in
  let? cacheCreation := tokenCount (firstField usage ["cache_creation_input_tokens"]) in
  let? output := tokenCount (firstField usage ["output_tokens"]) in
  usageFromTotals input cacheRead cacheCreation output (MkCount 0 false) false false.

(** An absent usage is unavailable and no error. *)
Definition with_usage (response : list (string * json)) (key : string) (normalize : list (string * json) → res goerror Usage)
  : res goerror Usage :=
  let? usage := usageObject response key in
  match usage with None => Ok UnavailableUsage | Some object => normalize object end.

Definition normalizeOpenAIUsage (response : list (string * json)) : res goerror Usage :=
  with_usage response "usage" openai_usage.
Definition normalizeGeminiUsage (response : list (string * json)) : res goerror Usage :=
  with_usage response "usageMetadata" gemini_usage.
Definition normalizeAnthropicUsage (response : list (string * json)) : res goerror Usage :=
  with_usage response "usage" anthropic_usage.

Definition normalizeUsage (protocol : string) (response : list (string * json)) : res goerror Usage :=
  if String.eqb protocol "openai.responses" || is_chat protocol then normalizeOpenAIUsage response
  else if String.eqb protocol "google.gemini.generateContent" then normalizeGeminiUsage response
  else if String.eqb protocol "anthropic.messages" then normalizeAnthropicUsage response
  else Ok UnavailableUsage.

(** ** Cost *)

Definition nonnegativeFloat (value : json) : option float64 :=
  match value with
  | JNum n => number ← ParseFloat n; if fvalid number then Some number else None
  | _ => None
  end.

Definition parseCost (value : json) : res goerror float64 :=
  let? value := match value with
                | JObj cost =>
                    if is_text (at_key "currency" cost) "USD" then Ok (at_key "total_cost" cost)
                    else Err (EText "reported cost currency must be USD")
                | _ => Ok value
                end in
  match nonnegativeFloat value with
  | Some parsed => Ok parsed
  | None => Err (EText "reported cost is invalid")
  end.

Definition normalizeCost (response : list (string * json)) (usage : Usage) : res goerror Cost :=
  let usageObject := objectValue (at_key "usage" response) in
  match List.find (fun value => negb (isNil value))
          [at_key "cost" usageObject; at_key "total_cost" usageObject; at_key "cost" response; at_key "total_cost" response] with
  | Some value => let? reported := parseCost value in Ok (ExactCost reported "reported")
  | None =>
      if String.eqb (usage_Status usage) UsageUnavailable then Ok UnavailableCost
      else Ok (UnknownCost "missing_rate")
  end.

(** The ledger of a response, with the first error; the other dimension stays. *)
Definition normalizeResponseAccounting (protocol : string) (response : list (string * json)) : Ledger * option goerror :=
  let usageResult := normalizeUsage protocol response in
  let usage := match usageResult with Ok u => u | Err _ => UnavailableUsage end in
  let costResult := normalizeCost response usage in
  let cost := match costResult with Ok c => c | Err _ => UnavailableCost end in
  (MkLedger usage cost,
   match usageResult, costResult with
   | Err e, _ => Some e
   | _, Err e => Some e
   | _, _ => None
   end).

(** ** Search *)

(** The number of bytes of the URL that [searchURLPattern] matches at the front of
    [s]: http or https, and then no white space, angle bracket or quotation mark. *)
Definition url_byte (a : ascii) : bool :=
  let n := nat_of_ascii a in
  negb ((n =? 9)%nat || (n =? 10)%nat || (n =? 12)%nat || (n =? 13)%nat || (n =? 32)%nat
        || (n =? 60)%nat || (n =? 62)%nat || (n =? 34)%nat || (n =? 96)%nat).
Fixpoint url_bytes (s : string) : nat :=
  match s with String a r => if url_byte a then S (url_bytes r) else 0%nat | EmptyString => 0%nat end.
Definition url_match (s : string) : nat :=
  let rest := match strip_prefix "https://" s with Some r => Some (8%nat, r) | None =>
              match strip_prefix "http://" s with Some r => Some (7%nat, r) | None => None end end in
  match rest with
  | Some (n, r) => match url_bytes r with O => 0%nat | k => (n + k)%nat end
  | None => 0%nat
  end.

(** [FindAllString(text, limit)]: [skip] bytes belong to the match before. *)
Fixpoint find_urls (limit skip : nat) (s : string) : list string :=
  match s with
  | EmptyString => []
  | String _ r =>
      match skip with
      | S skip => find_urls limit skip r
      | O =>
          match limit, url_match s with
          | O, _ => []
          | S limit', S k => String.substring 0 (S k) s :: find_urls limit' k r
          | S _, O => find_urls limit 0 r
          end
      end
  end.

(** [strings.TrimRight(raw, ").,;]")] *)
Definition trailing_byte (a : ascii) : bool :=
  let n := nat_of_ascii a in
  (n =? 41)%nat || (n =? 46)%nat || (n =? 44)%nat || (n =? 59)%nat || (n =? 93)%nat.
Fixpoint trim_leading (s : string) : string :=
  match s with String a r => if trailing_byte a then trim_leading r else s | EmptyString => EmptyString end.
Definition trim_url (raw : string) : string := go_string_rev (trim_leading (go_string_rev raw)).

(** [utf8.ValidString] *)
Fixpoint valid_string (fuel : nat) (s : string) : bool :=
  match fuel, s with
  | _, EmptyString => true
  | O, _ => false
  | S fuel, _ =>
      match rune_width s with
      | O => false
      | w => valid_string fuel (String.substring w (String.length s - w) s)
      end
  end.
Definition ValidString (s : string) : bool := valid_string (String.length s) s.

(** The prefixes of [s] from length [n] down, the first that is valid UTF-8. *)
Fixpoint valid_prefix (n : nat) (s : string) : string :=
  let value := String.substring 0 n s in
  if ValidString value then value
  else match n with O => EmptyString | S n' => valid_prefix n' s end.
Definition boundedWebSearchText (value : string) (maximum : Z) : string :=
  if (maximum <=? 0) || (slen value <=? maximum) then value
  else valid_prefix (Z.to_nat maximum) value.

(** [reflect.DeepEqual] of decoded values: objects as maps. *)
Fixpoint DeepEqual (left right : json) : bool :=
  match left, right with
  | JNull, JNull => true
  | JBool a, JBool b => Bool.eqb a b
  | JNum a, JNum b => String.eqb a b
  | JStr a, JStr b => String.eqb a b
  | JArr l, JArr r => zip_all DeepEqual l r
  | JObj l, JObj r =>
      (length l =? length r)%nat
      && forallb (fun kv => match field kv.1 r with Some other => DeepEqual kv.2 other | None => false end) l
  | _, _ => false
  end.

Definition finalResponseOutput (response : list (string * json)) : list json :=
  let output := arrayValue (at_key "output" response) in
  match List.find (fun item => negb (length (arrayValue (at_key "content" (objectValue item))) =? 0)%nat) (rev output) with
  | Some item => [item]
  | None => output
  end.

(** [integerValue] of a decoded number: positive, or 0. *)
Definition float_integer (n : string) : Z :=
  match ParseFloat n with
  | Some x => if fltb fzero x then f64_to_int64 x else 0
  | None => 0
  end.
Definition integerValue (value : json) : Z :=
  match value with
  | JNum n =>
      match ParseInt n with
      | Some z => if 0 <? z then z else float_integer n
      | None => float_integer n
      end
  | _ => 0
  end.

(** What [normalizeSearch] has collected. *)
Section Search.
Context `{Env}.

Record Collected : Type := MkCollected {
  co_Executed : bool; co_Sources : list SearchSource; co_Citations : list SearchCitation; co_HTML : string;
  co_TextSeen : bool }.

(** The closure [add]; the URLs seen are the ones of the sources. *)
Definition seen (c : Collected) (raw : string) : bool := str_in raw (map src_URL (co_Sources c)).
Definition add_source (c : Collected) (raw title : string) : Collected :=
  if negb (ValidSearchURL raw) || seen c raw || (50 <=? llen (co_Sources c)) then c
  else c <| co_Sources ::= fun l => l ++ [MkSource raw (if String.eqb title "" then raw else title)] |>.

Definition add_object (urlKey : string) (c : Collected) (source : json) : Collected :=
  let s := objectValue source in
  add_source c (stringValue (at_key urlKey s)) (stringValue (at_key "title" s)).

Definition set_executed (b : bool) (c : Collected) : Collected := c <| co_Executed ::= orb b |>.

(** The annotations of a content part. *)
Definition add_annotation (callType : string) (firstText : bool) (text : string) (c : Collected) (annotation : json) : Collected :=
  let a := objectValue annotation in
  if is_text (at_key "type" a) "url_citation" then
    let url := stringValue (at_key "url" a) in
    let title := stringValue (at_key "title" a) in
    let c := add_source c url title in
    let start := integerValue (at_key "start_index" a) in
    let end_ := integerValue (at_key "end_index" a) in
    if firstText && String.eqb callType "text" && seen c url && (0 <=? start) && (start <? end_)
       && (end_ <=? llen (runes text))
    then c <| co_Citations ::= fun l => l ++ [MkCitation url title start end_] |>
    else c
  else c.

Definition add_content (callType : string) (isFinal : bool) (c : Collected) (content : json) : Collected :=
  let part := objectValue content in
  let text := stringValue (at_key "text" part) in
  let firstText := negb (co_TextSeen c) && isFinal && negb (blank text) in
  let c := foldl (add_annotation callType firstText text) c (arrayValue (at_key "annotations" part)) in
  c <| co_TextSeen ::= fun b => b || firstText |>.

Definition add_output_item (callType : string) (finalItem : json) (c : Collected) (value : json) : Collected :=
  let item := objectValue value in
  let c := if is_text (at_key "type" item) "web_search_call" then
             foldl (add_object "url") (set_executed (is_text (at_key "status" item) "completed") c)
               (arrayValue (at_key "sources" (objectValue (at_key "action" item))))
           else c in
  let c := if is_text (at_key "type" item) "search_results" then
             foldl (add_object "url") (set_executed true c) (arrayValue (at_key "results" item))
           else c in
  foldl (add_content callType (DeepEqual (JObj item) finalItem)) c (arrayValue (at_key "content" item)).

Definition add_block (c : Collected) (value : json) : Collected :=
  let item := objectValue value in
  let c := if is_text (at_key "type" item) "web_search_tool_result" then set_executed true c else c in
  foldl (fun c citation =>
    if is_text (at_key "type" (objectValue citation)) "web_search_result_location" then add_object "url" c citation else c)
    c (arrayValue (at_key "citations" item)).

Definition add_candidate (c : Collected) (candidate : json) : Collected :=
  let grounding := objectValue (at_key "groundingMetadata" (objectValue candidate)) in
  let html := stringValue (at_key "renderedContent" (objectValue (at_key "searchEntryPoint" grounding))) in
  let c := c <| co_HTML := boundedWebSearchText html 32768 |> in
  let c := set_executed (negb (length (arrayValue (at_key "webSearchQueries" grounding)) =? 0)%nat) c in
  foldl (fun c chunk =>
    let web := objectValue (at_key "web" (objectValue chunk)) in
    add_source c (stringValue (at_key "uri" web)) (stringValue (at_key "title" web)))
    c (arrayValue (at_key "groundingChunks" grounding)).

(** The parts of a [preparedRequest] that normalisation reads; [webSearch] holds
    the text of the searcher's result. *)
Record preparedRequest : Type := MkRequest {
  rq_protocol : string; rq_callType : string; rq_searchMode : string; rq_webSearch : option string }.

Definition normalizeSearch (prepared : preparedRequest) (response : list (string * json)) : option SearchResult :=
  if String.eqb (rq_searchMode prepared) "" then None
  else
    let c := MkCollected false [] [] "" false in
    let c := match rq_webSearch prepared with
             | Some context =>
                 foldl (fun c raw => add_source c (trim_url raw) "")
                   (c <| co_Executed := negb (String.eqb context "") |>) (find_urls 50 0 context)
             | None => c
             end in
    let finalItem := match finalResponseOutput response with item :: _ => item | [] => JNull end in
    let c := foldl (add_output_item (rq_callType prepared) finalItem) c (arrayValue (at_key "output" response)) in
    let c := foldl add_block c (arrayValue (at_key "content" response)) in
    let c := foldl add_candidate c (arrayValue (at_key "candidates" response)) in
    let c := foldl (add_object "url") c (arrayValue (at_key "search_results" response)) in
    let c := foldl (fun c source => add_source c (stringValue source) "") c (arrayValue (at_key "citations" response)) in
    Some (MkSearch (rq_searchMode prepared) (co_Executed c) (Some (co_Sources c)) (co_Citations c) (co_HTML c) "unavailable").

(** ** The response *)

Variable random_id : nat → option string.

(** [cloneMap] with the members replaced and deleted. *)
Definition native_projection (response : list (string * json)) : list (string * json) :=
  List.filter (fun kv => negb (String.eqb kv.1 "output_text"))
    (put response ("output", JArr (finalResponseOutput response))).

Definition search_tool_error (part : json) : bool :=
  let part := objectValue part in
  is_text (at_key "type" part) "web_search_tool_result"
  && is_text (at_key "type" (objectValue (at_key "content" part))) "web_search_tool_result_error".

Definition result_of (ledger : Ledger) (text : string) (output : json) (search : option SearchResult) : ProviderResult :=
  MkResult text search output ledger zeroStream false.

Definition normalizeDecodedResponse (prepared : preparedRequest) (response : list (string * json))
  : ProviderResult * option goerror :=
  let protocol := rq_protocol prepared in
  let native := String.eqb (rq_searchMode prepared) "native" in
  let projection := if native && String.eqb protocol "openai.responses" then native_projection response else response in
  let '(ledger, accountingErr) := normalizeResponseAccounting protocol response in
  let extraction := extractProviderOutputState random_id protocol projection in
  let partial := result_of ledger (ex_text extraction) JNull None in
  match accountingErr, validateCompletion protocol response with
  | Some _, _ => (partial, Some accountingProviderError)
  | None, Some completionErr => (partial, Some completionErr)
  | None, None =>
      if native && String.eqb protocol "anthropic.messages"
         && existsb search_tool_error (arrayValue (at_key "content" response))
      then (partial, Some (provider_failure "native web search tool failed" "WEB_SEARCH_TOOL_ERROR" CategoryOther))
      else if ex_malformed extraction then
        (partial, Some (provider_failure "provider returned a malformed output envelope" "OUTPUT_MALFORMED" CategoryOther))
      else if ex_refusal extraction then
        (partial, Some (provider_failure "provider refusal or content filter" "PROVIDER_REFUSAL" CategoryRefusal))
      else if ex_empty extraction then
        (partial, Some (EProvider (Some (EText "provider returned an empty or null response"))
           (MkProviderError CategoryEmpty "empty_response" "" "" (Marshal (JObj response)) 0 0)))
      else
        let text := ex_text extraction in
        let success output := (result_of ledger text output (normalizeSearch prepared response), None) in
        match ex_output extraction with
        | JNull =>
            if String.eqb (rq_callType prepared) "structured" then
              match decodeOneJSON "" text with
              | Ok parsed => success parsed
              | Err _ =>
                  (partial, Some (EProvider (Some (EText "provider returned malformed structured output"))
                     (MkProviderError CategoryParse "STRUCTURED_PARSE" "" "" text 0 0)))
              end
            else success (JStr text)
        | output => success output
        end
  end.

Definition normalizeResponse (prepared : preparedRequest) (body : string) : ProviderResult * option goerror :=
  match decodeJSONObject body with
  | Some response => normalizeDecodedResponse prepared response
  | None =>
      (result_of EmptyLedger "" JNull None,
       Some (provider_failure "provider returned malformed JSON" "MALFORMED_RESPONSE" CategoryOther))
  end.
End Search.
