(* ===== verification/ProviderProperties.v ===== *)
(** * ProviderProperties: what the runtime may rely on

    Theorems about [ProviderNormalize]: a successful response passes the
    runtime's admission, every response keeps its ledger, and the token counts of
    a usage add up to the totals the provider reported. *)
From Stdlib Require Import Ascii.
From Corelib Require Import SpecFloat.
From S2P Require Import Prelude Float64 Json JsonText FloatText Unicode Schema SchemaContract SchemaNumber Retry Accounting CacheKey Runtime.
From S2P Require Import ProviderNormalize Scripted.

Open Scope string_scope.
Open Scope list_scope.
Open Scope Z_scope.

(** ** Search metadata *)

Lemma foldl_inv {A B : Type} (P : A → Prop) (f : A → B → A) l :
  (∀ a b, P a → P (f a b)) → ∀ a, P a → P (foldl f a l).
Proof. intros Hf. induction l as [|x l IH]; intros a Ha; [done|]. cbn. auto. Qed.

Lemma existsb_none {A : Type} (f : A → bool) l : existsb f l = false ↔ ∀ x, x ∈ l → f x = false.
Proof.
  rewrite <- not_true_iff_false, existsb_elem. split.
  - intros Hn x Hx. destruct (f x) eqn:E; naive_solver.
  - intros Hn (x & Hx & Hf). rewrite Hn in Hf; done.
Qed.

Section Search.
Context `{Env}.

(** What the runtime requires of search metadata. *)
Record SearchInv (c : Collected) : Prop := {
  inv_sources : Forall (fun s => ValidSearchURL (src_URL s) = true) (co_Sources c);
  inv_count : llen (co_Sources c) ≤ 50;
  inv_citations : Forall (fun x => ValidSearchURL (cit_URL x) = true ∧ 0 ≤ cit_StartIndex x < cit_EndIndex x) (co_Citations c);
  inv_html : slen (co_HTML c) ≤ 32768;
}.

Lemma add_source_inv c raw title : SearchInv c → SearchInv (add_source c raw title).
Proof.
  intros [Hs Hn Hc Hh]. unfold add_source. destruct (ValidSearchURL raw) eqn:Ev; [|done]. cbn [negb orb].
  destruct (seen c raw || (50 <=? llen (co_Sources c))) eqn:E; [done|]. apply orb_false_iff in E as [_ E%Z.leb_gt].
  constructor; cbn; try done.
  - apply Forall_app. split; [done|]. by constructor.
  - rewrite llen_app. change (llen [_]) with 1. lia.
Qed.

Lemma add_object_inv key c source : SearchInv c → SearchInv (add_object key c source).
Proof. apply add_source_inv. Qed.

Lemma set_executed_inv b c : SearchInv c → SearchInv (set_executed b c).
Proof. by intros [Hs Hn Hc Hh]. Qed.

(** A URL that was seen is valid. *)
Lemma seen_valid c raw : SearchInv c → seen c raw = true → ValidSearchURL raw = true.
Proof.
  intros [Hs _ _ _] Hin%str_in_spec. apply list_elem_of_fmap in Hin as (s & -> & Hin).
  exact (proj1 (Forall_elem _ _) Hs s Hin).
Qed.

Lemma add_annotation_inv callType firstText text c annotation :
  SearchInv c → SearchInv (add_annotation callType firstText text c annotation).
Proof.
  intros Hi. unfold add_annotation. destruct (is_text _ _); [|done]. cbn zeta.
  set (c1 := add_source c _ _). assert (SearchInv c1) as Hi1 by (by apply add_source_inv).
  destruct (_ && _ && _ && _ && _ && _) eqn:E; [|done]. bool_to_prop.
  destruct Hi1 as [Hs Hn Hc Hh] eqn:Ei. constructor; cbn; try done. apply Forall_app. split; [done|].
  constructor; [|done]. cbn. split; [by eapply seen_valid|lia].
Qed.

Lemma add_content_inv callType isFinal c content : SearchInv c → SearchInv (add_content callType isFinal c content).
Proof.
  intros Hi. unfold add_content. cbn zeta. destruct (foldl_inv SearchInv (add_annotation callType
    (negb (co_TextSeen c) && isFinal && negb (blank (stringValue (at_key "text" (objectValue content)))))
    (stringValue (at_key "text" (objectValue content)))) (arrayValue (at_key "annotations" (objectValue content)))
    (fun a b => add_annotation_inv _ _ _ a b) c Hi) as [Hs Hn Hc Hh]. by constructor.
Qed.

Lemma add_output_item_inv callType finalItem c value : SearchInv c → SearchInv (add_output_item callType finalItem c value).
Proof.
  intros Hi. unfold add_output_item. apply foldl_inv; [intros; by apply add_content_inv|]. cbn zeta.
  repeat case_match; repeat (apply foldl_inv; [intros; by apply add_object_inv|]; apply set_executed_inv); done.
Qed.

Lemma add_block_inv c value : SearchInv c → SearchInv (add_block c value).
Proof.
  intros Hi. unfold add_block. apply foldl_inv.
  - intros a b Ha. case_match; [by apply add_object_inv|done].
  - case_match; [by apply set_executed_inv|done].
Qed.

Lemma valid_prefix_length n s : (String.length (valid_prefix n s) ≤ n)%nat.
Proof.
  induction n as [|n IH]; cbn [valid_prefix]; (destruct (ValidString _); [apply substring_length_le|]); [done|lia].
Qed.

Lemma bounded_length value maximum : 0 < maximum → slen (boundedWebSearchText value maximum) ≤ maximum.
Proof.
  intros Hm. unfold boundedWebSearchText. destruct (Z.leb_spec maximum 0); [lia|]. cbn [orb].
  destruct (Z.leb_spec (slen value) maximum); [done|]. unfold slen. pose proof (valid_prefix_length (Z.to_nat maximum) value). lia.
Qed.

Lemma add_candidate_inv c candidate : SearchInv c → SearchInv (add_candidate c candidate).
Proof.
  intros [Hs Hn Hc Hh]. unfold add_candidate. apply foldl_inv; [intros; by apply add_source_inv|].
  apply set_executed_inv. constructor; try done. cbn. by apply bounded_length.
Qed.

Lemma substring_rest_length w s : (String.length (String.substring w (String.length s - w) s) ≤ String.length s - w)%nat.
Proof.
  revert w. induction s as [|a s IH]; intros [|w]; [by cbn..| |]; cbn [String.substring String.length Nat.sub].
  - specialize (IH 0%nat). rewrite Nat.sub_0_r in *. cbn. lia.
  - apply IH.
Qed.

Lemma rune_count_length fuel : ∀ s, rune_count_from fuel s ≤ slen s.
Proof.
  induction fuel as [|fuel IH]; intros [|a s]; cbn [rune_count_from]; unfold slen in *; try (cbn; lia).
  set (w := Nat.max 1 _). assert (1 ≤ w)%nat by lia.
  specialize (IH (String.substring w (String.length (String a s) - w) (String a s))).
  pose proof (substring_rest_length w (String a s)). cbn [String.length] in *. lia.
Qed.

(** The metadata collected from any response is valid for the runtime. *)
Lemma normalizeSearch_valid prepared response :
  rq_searchMode prepared ∈ [""; "native"; "jina"] → ValidateSearchResult (normalizeSearch prepared response) = Ok tt.
Proof.
  intros Hm. unfold normalizeSearch. destruct (String.eqb_spec (rq_searchMode prepared) "") as [|Hne]; [done|].
  set (c := foldl _ _ (arrayValue (at_key "citations" response))). cbn zeta.
  assert (SearchInv c) as [Hs Hn Hc Hh].
  { unfold c. apply foldl_inv; [intros; by apply add_source_inv|]. apply foldl_inv; [intros; by apply add_object_inv|].
    apply foldl_inv; [intros; by apply add_candidate_inv|]. apply foldl_inv; [intros; by apply add_block_inv|].
    apply foldl_inv; [intros; by apply add_output_item_inv|]. destruct (rq_webSearch prepared).
    - apply foldl_inv; [intros; by apply add_source_inv|]. by constructor.
    - by constructor. }
  unfold ValidateSearchResult. cbn [sr_Mode sr_CostStatus sr_Sources sr_Citations sr_EntryPointHTML].
  rewrite !fail_if_then_ok, fail_if_ok, !existsb_none, !Forall_forall in *. split_and!; try done.
  - rewrite !elem_of_cons in Hm. destruct Hm as [?|[->|[->|Hm]]]; try done. by apply elem_of_nil in Hm.
  - by apply Z.ltb_ge.
  - intros s Hin. apply negb_false_iff. by apply Hs.
  - intros x Hin. destruct (Hc x Hin) as [-> ?]. apply orb_false_iff. cbn. split; [apply Z.ltb_ge|apply Z.leb_gt]; lia.
  - apply Z.ltb_ge. unfold RuneCountInString, maxSearchEntryPointCodePoints.
    pose proof (rune_count_length (String.length (co_HTML c)) (co_HTML c)). lia.
Qed.
End Search.

(** ** Output *)

(** An extraction that is no failure holds an output or a text; an output that the
    runtime refuses can only be a value the provider parsed itself. *)
Definition extraction_ok (parsed : json → Prop) (e : providerOutputExtraction) : Prop :=
  ex_malformed e = false → ex_refusal e = false → ex_empty e = false →
  (ex_output e = JNull ∧ blank (ex_text e) = false)
  ∨ (ex_output e ≠ JNull ∧ (acceptedOutput (ex_output e) = false → parsed (ex_output e))).

(** A value that the provider parsed: the [parsed] or the [json] of a part of the
    response's messages. *)
Definition parsed_part (value : json) (part : list (string * json)) : Prop :=
  value ≠ JNull ∧ (field "parsed" part = Some value ∨ field "json" part = Some value).
Definition parsed_message (value : json) (message : json) : Prop :=
  ∃ members content part, message = JObj members ∧ field "content" members = Some (JArr content) ∧ JObj part ∈ content ∧ parsed_part value part.
Definition provider_parsed (response : list (string * json)) (value : json) : Prop :=
  ∃ output message, field "output" response = Some (JArr output) ∧ message ∈ output ∧ parsed_message value message.

Lemma at_key_some key o v : at_key key o = v → v ≠ JNull → field key o = Some v.
Proof. unfold at_key. destruct (field key o); cbn; congruence. Qed.

Lemma failed_ok parsed e : ex_malformed e || ex_refusal e || ex_empty e = true → extraction_ok parsed e.
Proof. intros Hf Hm Hr He. by rewrite Hm, Hr, He in Hf. Qed.

Lemma finish_ok parsed calls text otherwise :
  extraction_ok parsed otherwise → extraction_ok parsed (finish calls text otherwise).
Proof.
  intros Ho. unfold finish. destruct calls; [|by right].
  destruct (blank text) eqn:E; [exact Ho|]. by left.
Qed.

Lemma loop_ok {S X : Type} parsed (body : S → X → providerOutputExtraction + S) l :
  (∀ s x e, x ∈ l → body s x = inl e → extraction_ok parsed e) → ∀ s e, loop body l s = inl e → extraction_ok parsed e.
Proof.
  induction l as [|x l IH]; intros Hb s e; cbn; [done|]. destruct (body s x) eqn:E.
  - intros [= ->]. eapply Hb; [|exact E]. apply elem_of_cons. by left.
  - apply IH. intros s' y e' Hy. apply Hb. apply elem_of_cons. by right.
Qed.
Lemma extraction_ok_weaken (P Q : json → Prop) e : (∀ v, P v → Q v) → extraction_ok P e → extraction_ok Q e.
Proof. intros HPQ He H1 H2 H3. destruct (He H1 H2 H3) as [?|[? ?]]; [by left|right]. auto. Qed.

(** Destructs a step until it returned one of the failures. *)
Ltac step_fails := intros; repeat (case_match || simplify_eq/=); by apply failed_ok.

Lemma responses_part_ok text part e :
  responses_part text part = inl e → extraction_ok (fun v => ∃ members, part = JObj members ∧ parsed_part v members) e.
Proof.
  unfold responses_part. destruct part as [| | | | |l]; try step_fails. case_match; [step_fails|].
  assert (∀ key, isNil (at_key key l) = false → at_key key l ≠ JNull) as Hnil by (intros key Hk E; by rewrite E in Hk).
  destruct (isNil (at_key "parsed" l)) eqn:Ep; cbn [negb].
  - destruct (isNil (at_key "json" l)) eqn:Ej; cbn [negb]; [step_fails|]. apply Hnil in Ej.
    intros [= <-]. right. cbn. split; [done|]. intros _. exists l. split; [done|]. split; [done|]. right. by apply at_key_some.
  - apply Hnil in Ep. intros [= <-]. right. cbn. split; [done|]. intros _. exists l. split; [done|]. split; [done|]. left. by apply at_key_some.
Qed.

Lemma responses_message_ok s message e : responses_message s message = inl e → extraction_ok (fun v => parsed_message v message) e.
Proof.
  unfold responses_message. destruct s as [calls text]. destruct message as [| | | | |message]; try step_fails.
  case_match; [step_fails|]. destruct (field "content" message) as [[| | | |content|]|] eqn:Ec; try step_fails.
  destruct (loop responses_part content text) eqn:E; [|done]. intros [= <-].
  eapply loop_ok; [|exact E]. intros t part e Hin He. apply responses_part_ok in He. eapply extraction_ok_weaken; [|exact He].
  intros v (members & -> & Hv). by exists message, content, members.
Qed.

Lemma extract_responses_ok response : extraction_ok (provider_parsed response) (extract_responses response).
Proof.
  unfold extract_responses. case_match; [by apply failed_ok|]. case_match; [by apply failed_ok|].
  assert (∀ b, extraction_ok (provider_parsed response) (if b : bool then emptied else malformed)) by (by intros []; apply failed_ok).
  destruct (at_key "output_text" response); try (by apply failed_ok);
    (destruct (at_key "output" response) as [| | | |output|] eqn:Eo; try (by apply failed_ok); [by apply finish_ok|];
     case_match; [by apply failed_ok|];
     destruct (loop responses_message _ _) as [e|[calls text]] eqn:E;
       [eapply loop_ok; [|exact E]; intros ? m ? Hm He; apply responses_message_ok in He; eapply extraction_ok_weaken; [|exact He];
        intros v Hv; exists output, m; split; [by apply at_key_some|done]
       |by apply finish_ok]).
Qed.

Lemma extract_chat_ok P response : extraction_ok P (extract_chat response).
Proof. unfold extract_chat. repeat case_match; try (by apply failed_ok); by apply finish_ok, failed_ok. Qed.

Section Random.
Variable random_id : nat → option string.

Lemma extract_gemini_ok P response : extraction_ok P (extract_gemini random_id response).
Proof.
  unfold extract_gemini. repeat case_match; try (by apply failed_ok).
  - eapply loop_ok; [|eassumption]. unfold gemini_part. step_fails.
  - by apply finish_ok, failed_ok.
Qed.

Lemma extract_anthropic_ok P response : extraction_ok P (extract_anthropic response).
Proof.
  unfold extract_anthropic. repeat case_match; try (by apply failed_ok).
  - eapply loop_ok; [|eassumption]. unfold anthropic_part. step_fails.
  - by apply finish_ok, failed_ok.
Qed.

Lemma extraction_valid protocol response :
  extraction_ok (fun v => protocol = "openai.responses" ∧ provider_parsed response v) (extractProviderOutputState random_id protocol response).
Proof.
  unfold extractProviderOutputState. destruct (String.eqb_spec protocol "openai.responses") as [->|].
  { eapply extraction_ok_weaken; [|apply extract_responses_ok]. by intros v Hv. }
  repeat case_match; try (by apply failed_ok);
  [apply extract_chat_ok|apply extract_gemini_ok|apply extract_anthropic_ok].
Qed.
End Random.

(** ** Usage *)

(** A count that was read: an absent one is 0. *)
Definition wf_count (c : Count) : Prop := 0 ≤ count c ≤ int64_max ∧ (counted c = false → count c = 0).

Lemma parseToken_range value z : parseToken value = Ok z → 0 ≤ z ≤ int64_max.
Proof.
  unfold parseToken. intros. repeat case_match; simplify_eq. bool_to_prop. lia.
Qed.

Lemma tokenCount_wf value c : tokenCount value = Ok c → wf_count c ∧ counted c = is_present value.
Proof.
  unfold tokenCount, wf_count. rewrite res_bind_ok. intros (z & Hz & [= <-]). cbn. split; [|done].
  unfold tokenField in Hz. destruct value as [v|]; [|by simplify_eq/=].
  split; [|done]. destruct v; try done; by eapply parseToken_range.
Qed.

(** The reference over unbounded integers: the inclusive totals without the parts
    that are counted on their own. *)
Definition split_total (total : Count) (inclusive : bool) (parts : Z) : Z :=
  if counted total && inclusive then count total - parts else count total.
Definition usage_of (input cacheRead cacheCreation output reasoning : Count) (oi ii : bool) : Usage :=
  MkUsage (split_total input ii (count cacheRead + count cacheCreation)) (count cacheRead) (count cacheCreation)
    (split_total output oi (count reasoning)) (count reasoning)
    (if counted input && counted output then UsageComplete
     else if counted input || counted output || counted cacheRead || counted cacheCreation || counted reasoning
     then UsagePartial else UsageUnavailable).

Lemma lift_accounting_ok {A} (m : res acc_error A) a : lift_accounting m = Ok a ↔ m = Ok a.
Proof. destruct m; cbn; naive_solver. Qed.

(** The two splits, at the width of the machine. *)
Lemma split_input_iff input (inclusive : bool) a b z :
  wf_count input → 0 ≤ a ≤ int64_max → 0 ≤ b ≤ int64_max →
  (if counted input && inclusive then
     if (count input <? a) || (wrap64 (count input - a) <? b) then Err (EText "cache token components exceed input tokens")
     else Ok (wrap64 (count input - wrap64 (a + b)))
   else Ok (count input)) = Ok z ↔ z = split_total input inclusive (a + b) ∧ 0 ≤ z.
Proof.
  intros [Hc _] Ha Hb. unfold split_total, int64_max in *. destruct (counted input && inclusive).
  - destruct (Z.ltb_spec (count input) a); cbn [orb]; [split; [done|lia]|].
    rewrite (wrap64_id (count input - a)) by (unfold in_int64, int64_min, int64_max; lia).
    destruct (Z.ltb_spec (count input - a) b); [split; [done|lia]|].
    rewrite !wrap64_id by (unfold in_int64, int64_min, int64_max; rewrite ?wrap64_id; unfold in_int64, int64_min, int64_max; lia).
    split; [intros [= <-]; lia|intros [-> _]; done].
  - split; [intros [= <-]; lia|intros [-> _]; done].
Qed.

Lemma split_output_iff output (inclusive : bool) a z :
  wf_count output → 0 ≤ a ≤ int64_max →
  (if counted output && inclusive then
     if count output <? a then Err (EText "reasoning token component exceeds output tokens")
     else Ok (wrap64 (count output - a))
   else Ok (count output)) = Ok z ↔ z = split_total output inclusive a ∧ 0 ≤ z.
Proof.
  intros [Hc _] Ha. unfold split_total, int64_max in *. destruct (counted output && inclusive).
  - destruct (Z.ltb_spec (count output) a); [split; [done|lia]|].
    rewrite wrap64_id by (unfold in_int64, int64_min, int64_max; lia).
    split; [intros [= <-]; lia|intros [-> _]; done].
  - split; [intros [= <-]; lia|intros [-> _]; done].
Qed.

Lemma split_total_absent total inclusive parts : counted total = false → split_total total inclusive parts = count total.
Proof. intros E. unfold split_total. by rewrite E. Qed.

(** The usage of the totals: the reference, when it is well formed. *)
Lemma usageFromTotals_iff input cacheRead cacheCreation output reasoning oi ii u :
  wf_count input → wf_count cacheRead → wf_count cacheCreation → wf_count output → wf_count reasoning →
  usageFromTotals input cacheRead cacheCreation output reasoning oi ii = Ok u
  ↔ u = usage_of input cacheRead cacheCreation output reasoning oi ii ∧ UsageWF u.
Proof.
  intros Hi Hr Hc Ho Hs. unfold usageFromTotals.
  rewrite res_bind_ok. setoid_rewrite res_bind_ok.
  setoid_rewrite split_input_iff; [|apply Hi || apply Hr || apply Hc..].
  setoid_rewrite split_output_iff; [|apply Ho || apply Hs..].
  set (w := usage_of _ _ _ _ _ _ _).
  set (known := counted input || _ || _ || _ || _).
  set (status := if counted input && counted output then _ else _).
  assert (known = true → usage_Status w = status) as Hk by (intros E; subst w status known; cbn; by rewrite E).
  assert (known = false → w = UnavailableUsage) as Hu.
  { subst w known. unfold usage_of. intros E. bool_to_prop. rewrite !split_total_absent by done.
    rewrite (proj2 Hi), (proj2 Hr), (proj2 Hc), (proj2 Ho), (proj2 Hs) by done.
    repeat match goal with H : counted _ = false |- _ => rewrite H; clear H end. done. }
  destruct known; cbn [negb].
  - assert (MkUsage (InputTokens w) (CacheReadTokens w) (CacheCreationTokens w) (OutputTokens w) (ReasoningTokens w) status = w)
      as Hw by (rewrite <- Hk by done; done). cbn in Hw.
    split.
    + intros (i & [-> Hi0] & o & [-> Ho0] & H). rewrite Hw, check_then_ok, lift_accounting_ok, usage_Validate_iff in H.
      destruct H as [Hwf [= <-]]. done.
    + intros [-> Hwf]. do 2 (eexists; split; [split; [done|apply Hwf]|]).
      rewrite Hw. by rewrite check_then_ok, lift_accounting_ok, usage_Validate_iff.
  - rewrite Hu by done. split.
    + intros (i & _ & o & _ & [= <-]). split; [done|]. by apply usage_Validate_iff.
    + intros [-> _]. assert (w = UnavailableUsage) as E by auto.
      exists (InputTokens w). split; [split; [done|by rewrite E]|].
      exists (OutputTokens w). split; [split; [done|by rewrite E]|done].
Qed.

Lemma sum_or_zero_exact values :
  Forall (fun v => 0 ≤ v) values → Accounting.sum_list values ≤ int64_max → sum_or_zero values = Accounting.sum_list values.
Proof. intros Hn Hs. unfold sum_or_zero. by rewrite (proj2 (checkedSum_iff values (Accounting.sum_list values))). Qed.

Lemma usage_sums u :
  UsageWF u →
  PromptTokens u = InputTokens u + (CacheReadTokens u + CacheCreationTokens u)
  ∧ CompletionTokens u = OutputTokens u + ReasoningTokens u.
Proof.
  intros (_ & ? & ? & ? & ? & ? & Ht). unfold total, components in Ht. cbn in Ht.
  unfold PromptTokens, CompletionTokens. rewrite !sum_or_zero_exact; repeat constructor; try done; cbn; lia.
Qed.

(** What the totals of a usage say: an inclusive total is the whole, an exclusive
    one is a part of it. *)
Definition conserves (u : Usage) (input output cacheRead cacheCreation reasoning : Count) (oi ii : bool) : Prop :=
  UsageWF u
  ∧ (counted input = true → PromptTokens u = count input + (if ii then 0 else count cacheRead + count cacheCreation))
  ∧ (counted output = true → CompletionTokens u = count output + (if oi then 0 else count reasoning))
  ∧ (usage_Status u = UsageComplete ↔ counted input = true ∧ counted output = true)
  ∧ CacheReadTokens u = count cacheRead ∧ CacheCreationTokens u = count cacheCreation ∧ ReasoningTokens u = count reasoning.

Lemma usageFromTotals_conserves input cacheRead cacheCreation output reasoning oi ii u :
  wf_count input → wf_count cacheRead → wf_count cacheCreation → wf_count output → wf_count reasoning →
  usageFromTotals input cacheRead cacheCreation output reasoning oi ii = Ok u →
  conserves u input output cacheRead cacheCreation reasoning oi ii.
Proof.
  intros Hi Hr Hc Ho Hs [-> Hw]%usageFromTotals_iff; try done. destruct (usage_sums _ Hw) as [Hp Hq].
  split_and!; [done|..|done|done|done].
  - intros E. rewrite Hp. cbn. unfold split_total. rewrite E. destruct ii; cbn; lia.
  - intros E. rewrite Hq. cbn. unfold split_total. rewrite E. destruct oi; cbn; lia.
  - cbn. destruct (counted input), (counted output); cbn; repeat case_match; naive_solver.
Qed.

(** Reads the counts of a usage object. *)
Ltac read_counts :=
  repeat match goal with
  | H : res_bind _ _ = Ok _ |- _ => let c := fresh "c" in let Hc := fresh "Hc" in apply res_bind_ok in H as (c & Hc & H)
  end.
Ltac wf_counts := solve [by eapply tokenCount_wf | by split].

Lemma usage_totals_wf object v :
  openai_usage object = Ok v ∨ gemini_usage object = Ok v ∨ anthropic_usage object = Ok v → UsageWF v.
Proof.
  unfold openai_usage, gemini_usage, anthropic_usage. intros [H|[H|H]]; read_counts;
    (apply usageFromTotals_conserves in H as [H _]; [exact H|wf_counts..]).
Qed.

(** The token counts of a provider's usage add up to what the provider
    reported.  In the OpenAI format the prompt tokens of the normalised usage are
    the reported input tokens and its completion tokens the reported output
    tokens, cached and reasoning tokens included; Gemini reports its thinking
    tokens, and Anthropic its cached tokens, beside the totals, and they are added.
    The usage is complete exactly when input and output were both reported, and
    it is always one that the accounting accepts. *)
Theorem usage_conserves_totals usage u :
  (openai_usage usage = Ok u → ∃ input output cacheRead cacheCreation reasoning,
     tokenCount (firstField usage ["prompt_tokens"; "input_tokens"]) = Ok input
     ∧ tokenCount (firstField usage ["completion_tokens"; "output_tokens"]) = Ok output
     ∧ conserves u input output cacheRead cacheCreation reasoning true true)
  ∧ (gemini_usage usage = Ok u → ∃ input output cacheRead reasoning,
     tokenCount (firstField usage ["promptTokenCount"]) = Ok input
     ∧ tokenCount (firstField usage ["candidatesTokenCount"]) = Ok output
     ∧ tokenCount (firstField usage ["thoughtsTokenCount"]) = Ok reasoning
     ∧ tokenCount (firstField usage ["cachedContentTokenCount"]) = Ok cacheRead
     ∧ conserves u input output cacheRead (MkCount 0 false) reasoning false true)
  ∧ (anthropic_usage usage = Ok u → ∃ input output cacheRead cacheCreation,
     tokenCount (firstField usage ["input_tokens"]) = Ok input
     ∧ tokenCount (firstField usage ["output_tokens"]) = Ok output
     ∧ tokenCount (firstField usage ["cache_read_input_tokens"]) = Ok cacheRead
     ∧ tokenCount (firstField usage ["cache_creation_input_tokens"]) = Ok cacheCreation
     ∧ conserves u input output cacheRead cacheCreation (MkCount 0 false) false false).
Proof.
  split_and!.
  - unfold openai_usage. intros H. read_counts. do 5 eexists. split_and!; [eassumption..|].
    apply usageFromTotals_conserves in H; [exact H|wf_counts..].
  - unfold gemini_usage. intros H. read_counts. do 4 eexists. split_and!; [eassumption..|].
    apply usageFromTotals_conserves in H; [exact H|wf_counts..].
  - unfold anthropic_usage. intros H. read_counts. do 4 eexists. split_and!; [eassumption..|].
    apply usageFromTotals_conserves in H; [exact H|wf_counts..].
Qed.

(** A usage of the OpenAI format: a prompt of 100 tokens with 30 of them cached, and
    an answer of 50 with 20 of them reasoning. *)
Definition sample_usage : list (string * json) :=
  [("prompt_tokens", JNum "100"); ("completion_tokens", JNum "5e1");
   ("prompt_tokens_details", JObj [("cached_tokens", JNum "30")]);
   ("completion_tokens_details", JObj [("reasoning_tokens", JNum "20.0")])].

Lemma usage_conserves_totals_witness :
  let u := MkUsage 70 30 0 30 20 UsageComplete in
  openai_usage sample_usage = Ok u
  ∧ ∃ input output cacheRead cacheCreation reasoning,
     tokenCount (firstField sample_usage ["prompt_tokens"; "input_tokens"]) = Ok input
     ∧ tokenCount (firstField sample_usage ["completion_tokens"; "output_tokens"]) = Ok output
     ∧ conserves u input output cacheRead cacheCreation reasoning true true.
Proof.
  cbn zeta. assert (openai_usage sample_usage = Ok (MkUsage 70 30 0 30 20 UsageComplete)) as E by (vm_compute; reflexivity).
  split; [exact E|]. exact (proj1 (usage_conserves_totals sample_usage _) E).
Defined.

(** ** Accounting *)

Lemma with_usage_wf response key normalize u :
  (∀ object v, normalize object = Ok v → UsageWF v) → with_usage response key normalize = Ok u → UsageWF u.
Proof.
  intros Hn. unfold with_usage. rewrite res_bind_ok. intros (o & _ & H).
  destruct o; [eauto|]. simplify_eq. by apply usage_Validate_iff.
Qed.

Lemma normalizeUsage_wf protocol response u : normalizeUsage protocol response = Ok u → UsageWF u.
Proof.
  unfold normalizeUsage, normalizeOpenAIUsage, normalizeGeminiUsage, normalizeAnthropicUsage.
  repeat case_match; try (apply with_usage_wf; intros object v Hv; apply (usage_totals_wf object v); auto).
  intros [= <-]. by apply usage_Validate_iff.
Qed.

(** A cost that was normalised is refused by the accounting only for its subtotal,
    which the rounding of a huge reported cost makes infinite. *)
Lemma normalizeCost_valid response usage c :
  normalizeCost response usage = Ok c → cost_Validate c = Ok tt ↔ fvalid (KnownSubtotalUSD c) = true.
Proof.
  unfold normalizeCost. destruct (List.find _ _).
  - rewrite res_bind_ok. intros (v & _ & [= <-]). unfold cost_Validate, fvalid, ExactCost. cbn.
    rewrite negb_true_iff. destruct (_ || _ || _); cbn; naive_solver.
  - case_match; intros [= <-]; done.
Qed.

Lemma accounting_valid protocol response ledger :
  normalizeResponseAccounting protocol response = (ledger, None) →
  validateLedger ledger = None ↔ fvalid (KnownSubtotalUSD (ledger_Cost ledger)) = true.
Proof.
  unfold normalizeResponseAccounting. destruct (normalizeUsage protocol response) as [u|] eqn:Eu; [|done].
  destruct (normalizeCost response u) as [c|] eqn:Ec; [|done]. intros [= <-].
  unfold validateLedger. cbn. apply normalizeUsage_wf, usage_Validate_iff in Eu as ->.
  rewrite <- (normalizeCost_valid _ _ _ Ec). destruct (cost_Validate c) as [[]|]; done.
Qed.

Lemma accounting_usage protocol response : UsageWF (ledger_Usage (normalizeResponseAccounting protocol response).1).
Proof.
  unfold normalizeResponseAccounting. cbn. destruct (normalizeUsage protocol response) eqn:E.
  - by eapply normalizeUsage_wf.
  - by apply usage_Validate_iff.
Qed.

(** ** The response *)

Definition is_provider_error (e : goerror) : bool := match asProvider e with Some _ => true | None => false end.

Lemma completion_provider protocol response e : validateCompletion protocol response = Some e → is_provider_error e = true.
Proof.
  unfold validateCompletion, responses_completion, chat_completion, gemini_completion, anthropic_completion, verdict.
  intros H. repeat (case_match; simplify_eq/=; try done).
Qed.

Section Response.
Context `{Env}.
Variable random_id : nat → option string.

(** The search result keeps the final message of the output. *)
Lemma field_native response : field "output" (native_projection response) = Some (JArr (finalResponseOutput response)).
Proof.
  unfold native_projection, put, field. rewrite List.filter_app. cbn [List.filter negb String.eqb fst].
  set (l := List.filter _ (List.filter _ response)).
  assert (List.find (fun kv : string * json => String.eqb kv.1 "output") l = None) as Hl.
  { destruct (List.find _ l) as [kv|] eqn:E; [|done]. apply List.find_some in E as [Hin Hk]. unfold l in Hin. rewrite !filter_In in Hin.
    destruct Hin as [[_ Hn] _]. cbn in Hn. rewrite Hk in Hn. done. }
  clearbody l. induction l as [|kv l IH]; [done|]. cbn in Hl |- *. destruct (String.eqb kv.1 "output"); [done|]. by apply IH.
Qed.
Lemma native_parsed response value : provider_parsed (native_projection response) value → provider_parsed response value.
Proof.
  intros (output & message & Ho & Hm & Hv). rewrite field_native in Ho. injection Ho as <-.
  assert (message ∈ arrayValue (at_key "output" response)) as Hin.
  { unfold finalResponseOutput in Hm. destruct (List.find _ _) as [item|] eqn:E; [|done]. apply List.find_some in E as [E _].
    apply list_elem_of_singleton in Hm as ->. apply list_elem_of_In. by apply in_rev. }
  destruct (at_key "output" response) as [| | | |l|] eqn:El; try by apply elem_of_nil in Hin.
  exists l, message. split; [by apply at_key_some|done].
Qed.

(** The output of a success that the runtime's acceptance may refuse: the value of the
    text of a structured call, or one that the provider parsed. *)
Definition unaccepted_source (prepared : preparedRequest) (response : list (string * json)) (result : ProviderResult) : Prop :=
  (rq_callType prepared = "structured" ∧ blank (pr_AssistantText result) = false ∧ decode_one (pr_AssistantText result) = Some (pr_Output result))
  ∨ (rq_protocol prepared = "openai.responses" ∧ provider_parsed response (pr_Output result)).

Lemma decodeOneJSON_value prefix raw v : decodeOneJSON prefix raw = Ok v → decode_one raw = Some v.
Proof.
  unfold decodeOneJSON. pose proof (decode_cases raw) as Hd. destruct (decode_one raw) as [w|].
  - destruct Hd as (rest & -> & He). rewrite He. cbn. congruence.
  - destruct (Decode raw) as [| |w rest]; [done..|]. destruct (Hd w rest eq_refl prefix) as (e & ->). done.
Qed.

(** What a decoded response becomes: a failure without output, or a success whose
    output and search come from the response. *)
Lemma normalizeDecodedResponse_cases prepared response result err :
  normalizeDecodedResponse random_id prepared response = (result, err) →
  pr_Accounting result = (normalizeResponseAccounting (rq_protocol prepared) response).1
  ∧ match err with
    | Some e => pr_Output result = JNull ∧ pr_Search result = None ∧ is_provider_error e = true
    | None =>
        (normalizeResponseAccounting (rq_protocol prepared) response).2 = None
        ∧ validateCompletion (rq_protocol prepared) response = None
        ∧ pr_Search result = normalizeSearch prepared response
        ∧ (acceptedOutput (pr_Output result) = false → unaccepted_source prepared response result)
    end.
Proof.
  unfold normalizeDecodedResponse. destruct (normalizeResponseAccounting _ response) as [ledger aerr].
  set (projection := if (_ : bool) then native_projection response else response).
  pose proof (extraction_valid random_id (rq_protocol prepared) projection) as Hx.
  assert (∀ v, provider_parsed projection v → provider_parsed response v) as Hproj.
  { intros v. unfold projection. destruct (_ && _); [apply native_parsed|done]. }
  destruct (extractProviderOutputState random_id (rq_protocol prepared) projection) as [output text refusal empty bad].
  unfold extraction_ok in Hx. cbn [ex_output ex_text ex_refusal ex_empty ex_malformed] in *.
  destruct aerr as [a|]; [by intros [= <- <-]|].
  destruct (validateCompletion _ response) as [e|] eqn:Ec.
  { intros [= <- <-]. apply completion_provider in Ec. done. }
  case_match; [by intros [= <- <-]|]. destruct bad; [by intros [= <- <-]|].
  destruct refusal; [by intros [= <- <-]|]. destruct empty; [by intros [= <- <-]|].
  specialize (Hx eq_refl eq_refl eq_refl). unfold unaccepted_source. destruct Hx as [[-> Hb]|[Hn Ha]].
  - destruct (String.eqb_spec (rq_callType prepared) "structured") as [Es|Es].
    + destruct (decodeOneJSON "" text) as [parsed|] eqn:Ed; intros [= <- <-]; [|done]. apply decodeOneJSON_value in Ed.
      split_and!; try done. by left.
    + intros [= <- <-]. unfold blank in Hb. split_and!; try done. cbn [pr_Output result_of acceptedOutput]. by rewrite Hb.
  - destruct output; try done; intros [= <- <-]; split_and!; try done; cbn in *; intros Hacc; right; destruct (Ha Hacc) as [? ?]; auto.
Qed.

(** C35: What the router hands over as a success is what the runtime admits.  The
    search metadata passes the runtime's check whatever URLs, titles, spans and
    markup the provider sent; the completion was one that the protocol accepts;
    the ledger passes exactly when its cost is a finite amount (the rounding of a
    reported cost near the largest float overflows); and the output is accepted,
    unless it is the value that the text of a structured call denotes, or stands in
    the response as a value that the provider parsed, which only the Responses
    protocol has.  So a text call is admitted, except for such a parsed value. *)
Theorem normalized_response_admitted prepared body result :
  rq_searchMode prepared ∈ [""; "native"; "jina"] →
  normalizeResponse random_id prepared body = (result, None) →
  ∃ response, decodeJSONObject body = Some response
  ∧ ValidateSearchResult (pr_Search result) = Ok tt
  ∧ validateCompletion (rq_protocol prepared) response = None
  ∧ (validateLedger (pr_Accounting result) = None
     ↔ fvalid (KnownSubtotalUSD (ledger_Cost (pr_Accounting result))) = true)
  ∧ (acceptedOutput (pr_Output result) = false → unaccepted_source prepared response result)
  ∧ (rq_callType prepared ≠ "structured" →
     (rq_protocol prepared = "openai.responses" → ¬ provider_parsed response (pr_Output result)) →
     validateLedger (pr_Accounting result) = None →
     ∀ validate w, (admitResult result (rq_callType prepared) validate w).2 = None).
Proof.
  intros Hm. unfold normalizeResponse. destruct (decodeJSONObject body) as [response|]; [|done].
  intros E%normalizeDecodedResponse_cases. destruct E as (Ha & Hn & Hc & Hs & Ho). exists response. split; [done|].
  assert (ValidateSearchResult (pr_Search result) = Ok tt) as Hv by (rewrite Hs; by apply normalizeSearch_valid).
  destruct (normalizeResponseAccounting (rq_protocol prepared) response) as [ledger aerr] eqn:El. cbn in Ha, Hn. subst.
  split_and!; [done|done| | done|].
  - by eapply accounting_valid.
  - intros Hcall Hp Hl validate w. unfold admitResult. rewrite Hl, Hv.
    destruct (acceptedOutput (pr_Output result)); [|destruct (Ho eq_refl) as [[? _]|[? ?]]; naive_solver]. cbn.
    by rewrite (proj2 (String.eqb_neq _ _) Hcall).
Qed.

(** C36: A failure never loses what the call cost.  The result of every response
    carries the ledger of the response, also when the completion is refused, the
    output malformed or the structured text no JSON; the usage in it is always one
    the accounting accepts, and an error in the usage or in the cost leaves the
    other in place.  A failure is a provider error, and hands over neither output
    nor search metadata. *)
Theorem failure_keeps_ledger prepared body :
  let '(result, err) := normalizeResponse random_id prepared body in
  UsageWF (ledger_Usage (pr_Accounting result))
  ∧ match decodeJSONObject body with
    | Some response =>
        (∀ u, normalizeUsage (rq_protocol prepared) response = Ok u → ledger_Usage (pr_Accounting result) = u)
        ∧ (∀ c, normalizeCost response (ledger_Usage (pr_Accounting result)) = Ok c → ledger_Cost (pr_Accounting result) = c)
        ∧ (err = None → is_ok (normalizeUsage (rq_protocol prepared) response) = true)
    | None => err ≠ None ∧ pr_Accounting result = EmptyLedger
    end
  ∧ (∀ e, err = Some e → pr_Output result = JNull ∧ pr_Search result = None ∧ is_provider_error e = true).
Proof.
  unfold normalizeResponse. destruct (decodeJSONObject body) as [response|].
  - destruct (normalizeDecodedResponse random_id prepared response) as [result err] eqn:E.
    apply normalizeDecodedResponse_cases in E as [Ha He]. rewrite Ha. split; [apply accounting_usage|].
    split; [|by intros e ->]. unfold normalizeResponseAccounting in *. cbn in *. split_and!.
    + by intros u ->.
    + by intros c ->.
    + intros ->. destruct He as [He _]. by destruct (normalizeUsage _ response).
  - split; [by apply usage_Validate_iff|]. by split; [|intros e [= <-]].
Qed.
End Response.

(** A chat completion with a text and a usage, and a search that named a
    source twice. *)
Definition sample_body : string :=
  Marshal (JObj [("choices", JArr [JObj [("finish_reason", JStr "stop");
                    ("message", JObj [("content", JStr "the answer")])]]);
                 ("usage", JObj sample_usage);
                 ("citations", JArr [JStr "https://a.example"; JStr "https://a.example"])]).

Definition sample_request : preparedRequest := MkRequest "openai.chat.completions" "text" "native" None.

Lemma normalized_response_admitted_witness :
  ∃ result, normalizeResponse (fun _ => None) sample_request sample_body = (result, None)
    ∧ pr_Output result = JStr "the answer"
    ∧ (sr_Sources <$> pr_Search result) = Some (Some [MkSource "https://a.example" "https://a.example"])
    ∧ ∀ validate w, (admitResult result "text" validate w).2 = None.
Proof.
  eexists. split; [vm_compute; reflexivity|]. split; [reflexivity|]. split; [reflexivity|].
  intros validate w.
  destruct (normalized_response_admitted (fun _ => None) sample_request sample_body _ ltac:(cbn; set_solver) ltac:(vm_compute; reflexivity))
    as (response & _ & _ & _ & _ & _ & Hadmit).
  apply Hadmit; [done|done|vm_compute; reflexivity].
Defined.
