(* ===== verification/PayloadProperties.v ===== *)
(** * PayloadProperties: what the requests contain

    Theorems about [ProviderPayload]: a request asks the provider to search exactly
    when the caller did, and the schema that Gemini is sent holds none of the
    keywords it refuses. *)
From Stdlib Require Import Ascii.
From S2P Require Import Prelude Float64 Json JsonText FloatText Unicode Schema Retry Accounting CacheKey Runtime.
From S2P Require Import ProviderNormalize ProviderPayload Scripted.

Open Scope string_scope.
Open Scope list_scope.
Open Scope Z_scope.

(** ** Maps as entries *)

(** A property of every entry of a map. *)
Definition entries (P : string → json → Prop) (o : object) : Prop := Forall (fun kv => P kv.1 kv.2) o.

Section Entries.
Context (P : string → json → Prop).

Lemma entries_filter f o : entries P o → entries P (List.filter f o).
Proof.
  unfold entries. induction 1 as [|kv o Hkv Ho IH]; cbn; [by constructor|]. destruct (f kv); [by constructor|done].
Qed.

(** A key that is rewritten or deleted needs nothing of its old entries. *)
Lemma entries_del_key o k : entries (fun k' v => k' ≠ k → P k' v) o → entries P (del o k).
Proof.
  unfold entries, del. induction 1 as [|[k' v'] o Hkv Ho IH]; cbn; [by constructor|].
  destruct (String.eqb_spec k' k); cbn; [done|]. constructor; [by apply Hkv|done].
Qed.

Lemma entries_put_key o k v : entries (fun k' v => k' ≠ k → P k' v) o → P k v → entries P (put o (k, v)).
Proof. intros Ho Hv. apply Forall_app. split; [by apply entries_del_key|by constructor]. Qed.

Lemma entries_put o k v : entries P o → P k v → entries P (put o (k, v)).
Proof. intros Ho Hv. apply Forall_app. split; [by apply entries_filter|by constructor]. Qed.

Lemma entries_del o k : entries P o → entries P (del o k).
Proof. apply entries_filter. Qed.

Lemma entries_put_some o k v : entries P o → (∀ x, v = Some x → P k x) → entries P (put_some o k v).
Proof. destruct v; cbn; [|done]. intros Ho Hv. by apply entries_put; [|apply Hv]. Qed.

Lemma entries_put_all o options : entries P o → entries P options → entries P (put_all o options).
Proof.
  intros Ho H. revert o Ho. induction H as [|[k v] options Hv H IH]; intros o Ho; [done|]. cbn. by apply IH, entries_put.
Qed.

Lemma entries_if (b : bool) o k v : entries P o → P k v → entries P (if b then put o (k, v) else o).
Proof. destruct b; [apply entries_put|done]. Qed.

Lemma entries_unless {A : Type} (l : list A) o k v : entries P o → P k v → entries P (match l with [] => o | _ :: _ => put o (k, v) end).
Proof. destruct l; [done|apply entries_put]. Qed.

Lemma entries_field o k v : entries P o → field k o = Some v → P k v.
Proof.
  unfold field. intros H. induction H as [|[k' v'] o Hv H IH]; cbn; [done|].
  destruct (String.eqb_spec k' k) as [->|]; [by intros [= <-]|apply IH].
Qed.
End Entries.

Lemma field_filter_other k f o : (∀ v, f (k, v) = true) → field k (List.filter f o) = field k o.
Proof.
  intros Hf. unfold field. induction o as [|[k' v'] o IH]; cbn; [done|].
  destruct (String.eqb_spec k' k) as [->|Hne].
  - rewrite Hf. cbn. by rewrite String.eqb_refl.
  - destruct (f (k', v')); cbn; [|exact IH]. by rewrite (proj2 (String.eqb_neq k' k) Hne).
Qed.

Lemma field_app k a b : field k (a ++ b) = match field k a with Some v => Some v | None => field k b end.
Proof.
  unfold field. induction a as [|[k' v'] a IH]; cbn; [done|]. destruct (String.eqb k' k); [done|exact IH].
Qed.

Lemma field_del_same k o : field k (del o k) = None.
Proof.
  unfold field, del. induction o as [|[k' v'] o IH]; cbn; [done|].
  destruct (String.eqb_spec k' k) as [->|Hne]; cbn; [exact IH|]. by rewrite (proj2 (String.eqb_neq k' k) Hne).
Qed.

Lemma field_del_other k k' o : k ≠ k' → field k (del o k') = field k o.
Proof. intros Hne. apply field_filter_other. intros v. cbn. by rewrite (proj2 (String.eqb_neq k k') Hne). Qed.

Lemma field_put_same k v o : field k (put o (k, v)) = Some v.
Proof.
  unfold put. rewrite field_app. change (List.filter _ o) with (del o k). rewrite field_del_same.
  unfold field. cbn. by rewrite String.eqb_refl.
Qed.

Lemma field_put_other k k' v o : k ≠ k' → field k (put o (k', v)) = field k o.
Proof.
  intros Hne. unfold put. rewrite field_app. change (List.filter _ o) with (del o k').
  rewrite field_del_other by done. unfold field at 2. cbn. rewrite (proj2 (String.eqb_neq k' k)) by done.
  by destruct (field k o).
Qed.

(** ** Hosted search *)

Definition hosted_tool (tool : json) : bool := hosted_search (objectValue tool).

(** The payload has a tool that searches on the provider's side. *)
Definition searches (payload : object) : bool := existsb hosted_tool (arrayValue (at_key "tools" payload)).

(** No entry of a payload starts a search. *)
Definition quiet (key : string) (value : json) : Prop :=
  (key = "tools" → existsb hosted_tool (arrayValue value) = false) ∧ key ≠ "web_search_options".

Lemma quiet_other key value : key ≠ "tools" → key ≠ "web_search_options" → quiet key value.
Proof. by split. Qed.

Lemma quiet_searches payload : entries quiet payload → searches payload = false.
Proof.
  intros Hq. unfold searches, at_key. destruct (field "tools" payload) eqn:E; [|done].
  by apply (entries_field _ _ _ _ Hq) in E as [E _]; auto.
Qed.

Lemma quiet_no_options payload : entries quiet payload → present "web_search_options" payload = false.
Proof.
  intros Hq. unfold present. destruct (field _ payload) eqn:E; [|done]. by apply (entries_field _ _ _ _ Hq) in E as [_ E].
Qed.

Lemma keep_tools_quiet tools kept : keep_tools tools = Ok kept → existsb hosted_tool kept = false.
Proof.
  revert kept. induction tools as [|[| | | | |tool] tools IH]; cbn; intros kept; try done; [by intros [= <-]|].
  rewrite res_bind_ok. intros (rest & Hr & [= <-]). destruct (hosted_search tool) eqn:E; [by apply IH|].
  cbn. unfold hosted_tool at 1. cbn. rewrite E. by apply IH.
Qed.

Lemma entries_impl (P Q : string → json → Prop) o : (∀ k v, P k v → Q k v) → entries P o → entries Q o.
Proof. intros HPQ Ho. eapply Forall_impl; [exact Ho|]. intros kv. apply HPQ. Qed.

Lemma entries_all (P : string → json → Prop) o : (∀ k v, P k v) → entries P o.
Proof. intros HP. apply Forall_forall. auto. Qed.

(** What is left of the options starts no search. *)
Lemma manageSearchOptions_quiet options out : manageSearchOptions options = Ok out → entries quiet out.
Proof.
  unfold manageSearchOptions. rewrite res_bind_ok. intros (tools & _ & H). revert H.
  rewrite res_bind_ok. intros (kept & Hk%keep_tools_quiet & H). injection H as <-. apply entries_del_key.
  set (o1 := match kept with [] => _ | _ => _ end).
  assert (entries (fun k v => k = "tools" → existsb hosted_tool (arrayValue v) = false) o1) as Ho.
  { unfold o1. destruct kept.
    - apply entries_del, entries_del_key, entries_all. done.
    - apply entries_put_key; [|done]. apply entries_all. done. }
  assert (entries (fun k v => k ≠ "web_search_options" → quiet k v) o1).
  { eapply entries_impl; [|exact Ho]. by split. }
  case_match; [by apply entries_del|done].
Qed.

(** ** Payloads *)

Lemma quiet_tools (tools : list json) : existsb hosted_tool tools = false → quiet "tools" (JArr tools).
Proof. by split. Qed.

(** Tools that the caller declared do not search. *)
Lemma map_quiet {A : Type} (f : A → json) (l : list A) : (∀ x, hosted_tool (f x) = false) → existsb hosted_tool (map f l) = false.
Proof. intros Hf. induction l as [|x l IH]; cbn; [done|]. by rewrite Hf. Qed.

Lemma declared_quiet :
  (∀ tools, existsb hosted_tool (responsesTools tools) = false)
  ∧ (∀ tools, existsb hosted_tool (chatTools tools) = false)
  ∧ (∀ tools, existsb hosted_tool (map anthropic_tool tools) = false).
Proof.
  split_and!; intros tools; apply map_quiet; intros [n d p st];
    unfold anthropic_tool, hosted_tool, describe, strictness, omit_empty; cbn; destruct (String.eqb d ""), st; reflexivity.
Qed.

Lemma put_tools_quiet payload call tools choiceKey choice :
  entries quiet payload → (∀ l, quiet "tools" (tools l)) → choiceKey ∉ ["tools"; "web_search_options"] →
  entries quiet (put_tools payload call tools choiceKey choice).
Proof.
  intros Hp Ht Hc. unfold put_tools. destruct (call_Tools call); [done|]. cbn zeta.
  case_match; [by apply entries_put|]. apply entries_put; [by apply entries_put|].
  apply quiet_other; set_solver.
Qed.

(** A token option is renamed. *)
Lemma token_options_quiet options : entries quiet options → entries quiet (normalizeResponsesTokenOptions options).
Proof.
  intros Ho. unfold normalizeResponsesTokenOptions. cbn.
  assert (∀ o source, entries quiet o → entries quiet (token_option "max_output_tokens" o source)) as Ht.
  { intros o source Hq. unfold token_option. repeat case_match; try done. by apply entries_del, entries_put. }
  by apply Ht, Ht.
Qed.

Lemma add_tool_searches payload tool : hosted_tool tool = true → searches (add_tool payload tool) = true.
Proof.
  intros Ht. unfold searches, add_tool, at_key. rewrite field_put_same. cbn. rewrite existsb_app. cbn. rewrite Ht.
  by rewrite orb_true_r.
Qed.

Lemma searches_put payload k v : k ≠ "tools" → searches (put payload (k, v)) = searches payload.
Proof. intros Hk. unfold searches, at_key. by rewrite field_put_other. Qed.

Lemma sources_searches payload : searches (addWebSearchSources payload) = searches payload.
Proof. unfold addWebSearchSources. repeat case_match; by rewrite ?searches_put. Qed.

(** No entry is a search option, whatever the tools. *)
Definition no_option (key : string) (value : json) : Prop := key ≠ "web_search_options".

Lemma quiet_no_option payload : entries quiet payload → entries no_option payload.
Proof. apply entries_impl. by intros k v []. Qed.

Lemma no_option_absent payload : entries no_option payload → present "web_search_options" payload = false.
Proof.
  intros Hq. unfold present. destruct (field _ payload) eqn:E; [|done]. by apply (entries_field _ _ _ _ Hq) in E.
Qed.

Lemma sources_no_option payload : entries no_option payload → entries no_option (addWebSearchSources payload).
Proof. intros Hp. unfold addWebSearchSources. repeat case_match; try done; by apply entries_put. Qed.

(** What a payload says of searching, when the search is the provider's own or not. *)
Definition search_is (native : bool) (payload : object) : Prop :=
  searches payload = native ∧ present "web_search_options" payload = false.

Lemma quiet_search payload : entries quiet payload → search_is false payload.
Proof. intros Hq. split; [by apply quiet_searches|by apply no_option_absent, quiet_no_option]. Qed.

Lemma responses_search connection call options schema payload :
  entries quiet options → buildResponsesPayload connection call options schema = Ok payload →
  search_is (nativeWebSearchEnabled connection call) payload.
Proof.
  intros Ho. unfold buildResponsesPayload. rewrite res_bind_ok. intros (input & _ & H).
  rewrite check_then_ok in H. destruct H as [_ [= <-]].
  set (p := if is_structured call then _ else _).
  assert (entries quiet p) as Hp.
  { apply entries_if; [|by apply quiet_other]. apply put_tools_quiet; [|intros; apply quiet_tools, declared_quiet|set_solver].
    apply entries_put_all; [|by apply token_options_quiet]. by repeat constructor. }
  destruct (nativeWebSearchEnabled connection call); [|by apply quiet_search].
  unfold addNativeWebSearch. split.
  - rewrite sources_searches, searches_put by done. by apply add_tool_searches.
  - apply no_option_absent, sources_no_option. unfold add_tool. apply entries_put; [apply entries_put; [by apply quiet_no_option|done]|done].
Qed.

Lemma chat_search connection call options schema payload :
  entries quiet options → buildChatPayload connection call options schema = Ok payload → search_is false payload.
Proof.
  intros Ho. unfold buildChatPayload. rewrite res_bind_ok. intros (messages & _ & H).
  rewrite check_then_ok in H. destruct H as [_ [= <-]]. apply quiet_search.
  apply entries_if; [|by apply quiet_other]. apply put_tools_quiet; [|intros; apply quiet_tools, declared_quiet|set_solver].
  apply entries_put_all; [|done]. by repeat constructor.
Qed.

Lemma gemini_search connection call options schema payload :
  entries quiet options → buildGeminiPayload connection call options schema = Ok payload →
  search_is (nativeWebSearchEnabled connection call) payload.
Proof.
  intros Ho. unfold buildGeminiPayload. rewrite res_bind_ok. intros (contents & _ & H).
  rewrite res_bind_ok in H. destruct H as (texts & _ & [= <-]).
  set (p := put_some _ "tools" (field "tools" options)).
  assert (entries quiet p) as Hp.
  { apply entries_put_some; [|intros tools E; by apply (entries_field _ _ _ _ Ho) in E].
    apply entries_unless; [|by apply quiet_other]. apply put_tools_quiet; [by repeat constructor|intros; by apply quiet_tools|set_solver]. }
  destruct (nativeWebSearchEnabled connection call); [|by apply quiet_search]. split.
  - by apply add_tool_searches.
  - apply no_option_absent. apply entries_put; [by apply quiet_no_option|done].
Qed.

Lemma anthropic_stop_quiet o : entries quiet o → entries quiet (anthropic_stop o).
Proof. intros Ho. unfold anthropic_stop. repeat case_match; try done; auto using entries_del, entries_put, quiet_other. Qed.

Lemma anthropic_search connection call options schema payload :
  entries quiet options → buildAnthropicPayload connection call options schema = Ok payload →
  search_is (nativeWebSearchEnabled connection call) payload.
Proof.
  intros Ho. unfold buildAnthropicPayload. rewrite res_bind_ok. intros (messages & _ & H).
  rewrite res_bind_ok in H. destruct H as (system & _ & [= <-]).
  set (p := if is_structured call then _ else _).
  assert (entries quiet p) as Hp.
  { apply entries_if; [|by apply quiet_other]. apply entries_unless; [|by apply quiet_other]. apply put_tools_quiet; [|intros; apply quiet_tools, declared_quiet|set_solver].
    apply entries_put_all; [by repeat constructor|]. apply anthropic_stop_quiet. cbn. by do 4 apply entries_del. }
  destruct (nativeWebSearchEnabled connection call); [|by apply quiet_search]. split.
  - rewrite searches_put by done. by apply add_tool_searches.
  - apply no_option_absent. unfold add_tool. apply entries_put; [apply entries_put; [by apply quiet_no_option|done]|done].
Qed.

Lemma payload_of_search connection call options schema payload :
  entries quiet options → payload_of connection call options schema = Ok payload →
  search_is (nativeWebSearchEnabled connection call) (py_Body payload).
Proof.
  intros Ho. unfold payload_of. intros H.
  destruct (String.eqb_spec (conn_APIInferenceType connection) "responses") as [|N1].
  { apply res_bind_ok in H as (p & Hp & [= <-]). by eapply responses_search. }
  destruct (String.eqb_spec (conn_APIInferenceType connection) "chat-completions") as [Ec|N2].
  { apply res_bind_ok in H as (p & Hp & [= <-]). unfold nativeWebSearchEnabled. rewrite Ec, andb_false_r.
    by eapply chat_search. }
  destruct (String.eqb_spec (conn_APIInferenceType connection) "gemini-generate-content") as [|N3].
  { apply res_bind_ok in H as (p & Hp & [= <-]). by eapply gemini_search. }
  destruct (String.eqb_spec (conn_APIInferenceType connection) "anthropic-messages") as [|N4]; [|done].
  apply res_bind_ok in H as (p & Hp & [= <-]). by eapply anthropic_search.
Qed.

(** A repair never searches. *)
Lemma repaired_native connection call repair call' :
  repairInputs call repair = Ok call' → nativeWebSearchEnabled connection call' = false.
Proof.
  unfold repairInputs. rewrite fail_if_then_ok. intros [_ H]. cbv zeta in H. rewrite fail_if_then_ok in H.
  by destruct H as [_ [= <-]].
Qed.

(** A tool that searches on the provider's side, in any of the protocols. *)
Definition search_tool (tool : json) : Prop :=
  ∃ members, tool = JObj members
    ∧ ((∃ version, field "type" members = Some (JStr ("web_search" +:+ version)))
       ∨ ∃ key, key ∈ ["google_search"; "googleSearch"; "google_search_retrieval"] ∧ is_Some (field key members)).
(** The payload asks the provider to search. *)
Definition asks_search (payload : object) : Prop :=
  ∃ tools tool, field "tools" payload = Some (JArr tools) ∧ tool ∈ tools ∧ search_tool tool.
(** The caller turned search on, the connection supports it, the call is no repair, and
    the protocol can combine it with the call. *)
Record search_wanted (connection : Connection) (call : Call) : Prop := {
  sw_on : call_WebSearch call = true;
  sw_supported : conn_SupportsWebSearch connection = true;
  sw_first : call_Repair call = None;
  sw_protocol : conn_APIInferenceType connection = "responses" ∨ conn_APIInferenceType connection = "gemini-generate-content"
    ∨ (conn_APIInferenceType connection = "anthropic-messages" ∧ call_CallType call ≠ "structured") }.

Lemma has_prefix_spec s prefix : HasPrefix s prefix = true ↔ ∃ rest, s = prefix +:+ rest.
Proof.
  unfold HasPrefix. split.
  - destruct (strip_prefix prefix s) as [rest|] eqn:E; [|done]. intros _. exists rest. by apply strip_prefix_some.
  - intros [rest ->]. by rewrite strip_prefix_app.
Qed.
Lemma present_spec key o : present key o = true ↔ is_Some (field key o).
Proof. unfold present. destruct (field key o); split; first [done | eauto | by intros [? ?]]. Qed.
Lemma type_field prefix o : prefix ≠ "" → (∃ rest, stringValue (at_key "type" o) = prefix +:+ rest) ↔ ∃ rest, field "type" o = Some (JStr (prefix +:+ rest)).
Proof.
  intros Hp. unfold at_key. split; intros [rest H]; exists rest; [|by rewrite H].
  destruct (field "type" o) as [[| | |text| |]|]; cbn in H; try (by destruct prefix); by rewrite H.
Qed.

Lemma search_tool_spec tool : hosted_tool tool = true ↔ search_tool tool.
Proof.
  unfold hosted_tool, hosted_search, search_tool.
  rewrite !orb_true_iff, has_prefix_spec, (type_field "web_search") by done. rewrite !present_spec. split.
  - intros Ht. assert (tool = JObj (objectValue tool)) as E.
    { destruct tool; cbn in Ht |- *; try done; unfold field in Ht; cbn in Ht; destruct Ht as [[[[? Ht]|[? Ht]]|[? Ht]]|[? Ht]]; done. }
    exists (objectValue tool). split; [done|]. destruct Ht as [[[Ht|Ht]|Ht]|Ht]; [by left|right..].
    + exists "google_search". split; [set_solver|done].
    + exists "googleSearch". split; [set_solver|done].
    + exists "google_search_retrieval". split; [set_solver|done].
  - intros (members & -> & [Ht|(key & Hk & Hf)]); cbn [objectValue]; [by auto|].
    rewrite !elem_of_cons, elem_of_nil in Hk. destruct Hk as [->|[->|[->|[]]]]; auto.
Qed.

Lemma searches_spec payload : searches payload = true ↔ asks_search payload.
Proof.
  unfold searches, asks_search. rewrite existsb_exists. unfold at_key. split.
  - intros (tool & Hin & Ht%search_tool_spec). destruct (field "tools" payload) as [[| | | |tools|]|]; try done.
    exists tools, tool. split; [done|]. split; [by apply list_elem_of_In|done].
  - intros (tools & tool & -> & Hin & Ht). exists tool. split; [by apply list_elem_of_In|by apply search_tool_spec].
Qed.

Lemma search_wanted_spec connection call :
  nativeWebSearchEnabled connection call && negb (bool_decide (is_Some (call_Repair call))) = true ↔ search_wanted connection call.
Proof.
  unfold nativeWebSearchEnabled. cbn zeta. rewrite !andb_true_iff, !orb_true_iff, andb_true_iff, !negb_true_iff, !String.eqb_eq, String.eqb_neq, bool_decide_eq_false.
  rewrite <- eq_None_not_Some. split.
  - intros [[[H1 H2] H3] H4]. split; try done. tauto.
  - intros []. tauto.
Qed.

(** C37: A request asks the provider to search exactly when the caller turned search
    on, the connection supports it, the call is no repair, and the protocol is that of
    responses, of Gemini, or of Anthropic for a call without a schema.  To ask is to
    send a tool of a [web_search] type or one with a Google search in any of its
    spellings: whatever tools and search options the caller's provider options hold,
    none gets past the toggle, and the search options of chat completions are never
    sent. *)
Theorem search_only_when_asked connection call payload :
  buildPayload connection call = Ok payload →
  (asks_search (py_Body payload) ↔ search_wanted connection call) ∧ field "web_search_options" (py_Body payload) = None.
Proof.
  unfold buildPayload. rewrite res_bind_ok. intros (call' & Hc & H).
  apply res_bind_ok in H as (options & _ & H). apply res_bind_ok in H as (managed & Hm%manageSearchOptions_quiet & H).
  rewrite check_then_ok in H. destruct H as [_ H].
  apply res_bind_ok in H as (schema & _ & H). apply payload_of_search in H; [|done].
  assert (search_is (nativeWebSearchEnabled connection call && negb (bool_decide (is_Some (call_Repair call)))) (py_Body payload)) as [Hs Hn].
  { destruct (call_Repair call).
    - apply repaired_native with (connection := connection) in Hc. rewrite Hc in H. by rewrite andb_false_r.
    - injection Hc as <-. by rewrite andb_true_r. }
  rewrite <- searches_spec, <- search_wanted_spec, Hs. split; [done|]. unfold present in Hn. by destruct (field _ _).
Qed.

(** Options that try to search in every way. *)
Definition search_options : object :=
  [("tools", JArr [JObj [("type", JStr "web_search_preview")]; JObj [("google_search", JObj [])];
                   JObj [("type", JStr "file_search")]]);
   ("tool_choice", JObj [("type", JStr "web_search")]); ("web_search_options", JObj [])].
Definition search_call (on : bool) : Call :=
  (script_call "text") <| call_Messages := [text_message "user" "who?"] |> <| call_ProviderOptions := Some search_options |>
                     <| call_WebSearch := on |>.
Definition search_connection (protocol : string) : Connection :=
  script_connection <| conn_APIInferenceType := protocol |> <| conn_SupportsWebSearch := true |>.

Lemma search_only_when_asked_witness :
  (∃ p, buildPayload (search_connection "responses") (search_call false) = Ok p ∧ ¬ asks_search (py_Body p)
        ∧ at_key "tools" (py_Body p) = JArr [JObj [("type", JStr "file_search")]])
  ∧ (∃ p, buildPayload (search_connection "gemini-generate-content") (search_call true) = Ok p ∧ asks_search (py_Body p)).
Proof.
  split; eexists.
  - split; [vm_compute; reflexivity|]. split; [|vm_compute; reflexivity]. intros Hs.
    apply (search_only_when_asked (search_connection "responses") (search_call false)) in Hs as [Hon]; [discriminate Hon|]. vm_compute. reflexivity.
  - split; [vm_compute; reflexivity|].
    apply (search_only_when_asked (search_connection "gemini-generate-content") (search_call true)); [vm_compute; reflexivity|].
    split; [reflexivity|reflexivity|reflexivity|right; left; reflexivity].
Defined.
