(* ===== verification/Endpoint.v ===== *)
(** * Endpoint: the egress guard of the providers

    Models [src/internal/providers/endpoint.go]: the check of a URL and of the
    addresses it resolves to, the transports that pin the addresses that were
    checked, and the headers that may leave.  Addresses and prefixes are those of
    [net/netip]: an address is a number of 32 or 128 bits, with a zone when it is
    an IPv6 address.  The URL parser, the parser and printer of addresses and the
    resolver are the class [EndpointEnv].  TLS settings and timeouts are carried
    by the transports and not represented. *)
From Stdlib Require Import Ascii.
From S2P Require Import Prelude Json JsonText Retry Runtime.

Open Scope string_scope.
Open Scope list_scope.
Open Scope Z_scope.

(** ** Addresses *)

(** [netip.Addr]; the zero value is invalid. *)
Inductive Addr : Type :=
| AddrInvalid
| Addr4 (bits : Z)
| Addr6 (bits : Z) (zone : string).

#[export] Instance Addr_eq_dec : EqDecision Addr.
Proof. solve_decision. Defined.

Definition IsValid (a : Addr) : bool := match a with AddrInvalid => false | _ => true end.

(** [::ffff:a.b.c.d] is the IPv4 address it maps. *)
Definition Unmap (a : Addr) : Addr :=
  match a with
  | Addr6 z _ => if Z.shiftr z 32 =? 65535 then Addr4 (Z.land z 4294967295) else a
  | _ => a
  end.

Definition IsUnspecified (a : Addr) : bool :=
  match a with Addr4 z => z =? 0 | Addr6 z zone => (z =? 0) && String.eqb zone "" | AddrInvalid => false end.

Definition IsMulticast (a : Addr) : bool :=
  match Unmap a with
  | Addr4 z => Z.shiftr z 28 =? 14
  | Addr6 z _ => Z.shiftr z 120 =? 255
  | AddrInvalid => false
  end.

Definition IsLoopback (a : Addr) : bool :=
  match Unmap a with
  | Addr4 z => Z.shiftr z 24 =? 127
  | Addr6 z _ => z =? 1
  | AddrInvalid => false
  end.

Definition IsLinkLocalUnicast (a : Addr) : bool :=
  match Unmap a with
  | Addr4 z => Z.shiftr z 16 =? 43518
  | Addr6 z _ => Z.shiftr z 118 =? 1018
  | AddrInvalid => false
  end.

Definition IsLinkLocalMulticast (a : Addr) : bool :=
  match Unmap a with
  | Addr4 z => Z.shiftr z 8 =? 14680064
  | Addr6 z _ => Z.land (Z.shiftr z 112) 65295 =? 65282
  | AddrInvalid => false
  end.

Definition IsPrivate (a : Addr) : bool :=
  match Unmap a with
  | Addr4 z => (Z.shiftr z 24 =? 10) || (Z.shiftr z 20 =? 2753) || (Z.shiftr z 16 =? 49320)
  | Addr6 z _ => Z.shiftr z 121 =? 126
  | AddrInvalid => false
  end.

Definition IsGlobalUnicast (a : Addr) : bool :=
  let b := Unmap a in
  match b with
  | AddrInvalid => false
  | Addr4 z => negb ((z =? 0) || (z =? 4294967295)) && negb (IsLoopback b) && negb (IsMulticast b) && negb (IsLinkLocalUnicast b)
  | Addr6 z zone =>
      negb ((z =? 0) && String.eqb zone "") && negb (IsLoopback b) && negb (IsMulticast b) && negb (IsLinkLocalUnicast b)
  end.

(** [netip.Prefix] *)
Record Prefix : Type := MkPrefix { px_Addr : Addr; px_Bits : Z }.

Definition prefix_IsValid (p : Prefix) : bool :=
  match px_Addr p with
  | AddrInvalid => false
  | Addr4 _ => (0 <=? px_Bits p) && (px_Bits p <=? 32)
  | Addr6 _ zone => (0 <=? px_Bits p) && (px_Bits p <=? 128) && String.eqb zone ""
  end.

(** [Masked]: the bits after the prefix are zero. *)
Definition mask (width bits z : Z) : Z := Z.shiftl (Z.shiftr z (width - bits)) (width - bits).
Definition Masked (p : Prefix) : Prefix :=
  match px_Addr p with
  | Addr4 z => MkPrefix (Addr4 (mask 32 (px_Bits p) z)) (px_Bits p)
  | Addr6 z zone => MkPrefix (Addr6 (mask 128 (px_Bits p) z) zone) (px_Bits p)
  | AddrInvalid => p
  end.

(** [Contains]: of the same family, and without a zone. *)
Definition Contains (p : Prefix) (a : Addr) : bool :=
  prefix_IsValid p
  && match px_Addr p, a with
     | Addr4 n, Addr4 z => Z.shiftr z (32 - px_Bits p) =? Z.shiftr n (32 - px_Bits p)
     | Addr6 n _, Addr6 z zone => String.eqb zone "" && (Z.shiftr z (128 - px_Bits p) =? Z.shiftr n (128 - px_Bits p))
     | _, _ => false
     end.

(** [Compare]: by length, value and zone. *)
Definition addr_less (a b : Addr) : bool :=
  match a, b with
  | AddrInvalid, AddrInvalid => false
  | AddrInvalid, _ => true
  | Addr4 _, AddrInvalid => false
  | Addr4 x, Addr4 y => x <? y
  | Addr4 _, Addr6 _ _ => true
  | Addr6 x s, Addr6 y t => (x <? y) || ((x =? y) && String.ltb s t)
  | Addr6 _ _, _ => false
  end.

Fixpoint insert_addr (a : Addr) (l : list Addr) : list Addr :=
  match l with
  | [] => [a]
  | b :: r => if addr_less a b then a :: l else b :: insert_addr a r
  end.
Definition sort_addrs (l : list Addr) : list Addr := foldr insert_addr [] l.

(** The addresses of a lookup: unmapped, valid and without repetition. *)
Definition add_address (result : list Addr) (address : Addr) : list Addr :=
  let address := Unmap address in
  if negb (IsValid address) || bool_decide (address ∈ result) then result else result ++ [address].
Definition normalizeAddresses (input : list Addr) : list Addr := sort_addrs (foldl add_address [] input).

(** ** Restricted addresses *)

Definition ip4 (a b c d : Z) : Z := a * 16777216 + b * 65536 + c * 256 + d.

Definition restrictedPrefixes : list Prefix :=
  [MkPrefix (Addr4 (ip4 0 0 0 0)) 8; MkPrefix (Addr4 (ip4 100 64 0 0)) 10; MkPrefix (Addr4 (ip4 192 0 0 0)) 24;
   MkPrefix (Addr4 (ip4 192 0 2 0)) 24; MkPrefix (Addr4 (ip4 198 18 0 0)) 15; MkPrefix (Addr4 (ip4 198 51 100 0)) 24;
   MkPrefix (Addr4 (ip4 203 0 113 0)) 24; MkPrefix (Addr4 (ip4 224 0 0 0)) 4; MkPrefix (Addr4 (ip4 240 0 0 0)) 4;
   MkPrefix (Addr6 0 "") 128; MkPrefix (Addr6 (Z.shiftl 256 112) "") 64; MkPrefix (Addr6 (Z.shiftl 536939960 96) "") 32;
   MkPrefix (Addr6 (Z.shiftl 536936464 96) "") 28; MkPrefix (Addr6 (Z.shiftl 65280 112) "") 8].

Definition isRestrictedAddress (address : Addr) : bool :=
  IsPrivate address || IsLoopback address || IsLinkLocalUnicast address || IsLinkLocalMulticast address
  || negb (IsGlobalUnicast address) || existsb (fun prefix => Contains prefix address) restrictedPrefixes.

(** ** The guard *)

(** What [net/url] reads of a URL. *)
Record URL : Type := MkParsedURL {
  u_Scheme : string; u_Opaque : string; u_User : bool; u_Fragment : string; u_Hostname : string; u_Port : string;
  u_RawQuery : string; u_Path : string }.

(** The failure of a lookup: a DNS error with its flags, or another one. *)
Inductive LookupError : Type :=
| DNSError (temporary timeout : bool)
| OtherLookupError.

Class EndpointEnv : Type := {
  ParseURL : string → option URL;
  ParseAddr : string → option Addr;
  AddrString : Addr → string;
}.

Record EndpointPolicy : Type := MkEndpointPolicy {
  ep_AllowedHosts : list string; ep_PrivateAllowedHosts : list string; ep_PrivateAllowlist : list Prefix }.

Record endpointGuard : Type := MkGuard {
  g_allowedHosts : list string; g_privateAllowedHosts : list string; g_privateAllowlist : list Prefix }.

(** The two error types of the guard, and any other. *)
Inductive endpoint_error : Type :=
| PolicyError (message : string)
| ResolutionError (cause : LookupError)
| PlainError (message : string).

Record resolvedEndpoint : Type := MkEndpoint {
  re_origin : string; re_host : string; re_port : string; re_addresses : list Addr }.

Section Guard.
Context `{EndpointEnv}.

(** [strings.TrimSuffix(s, ".")] *)
Definition trim_dot (s : string) : string :=
  match go_string_rev s with
  | String a r => if Ascii.eqb a "." then go_string_rev r else s
  | EmptyString => s
  end.

(** The bytes of "*/\/@:#[]%". *)
Definition special_byte (a : ascii) : bool :=
  existsb (Nat.eqb (nat_of_ascii a)) [42; 47; 92; 64; 58; 35; 91; 93; 37]%nat.
Definition host_byte (a : ascii) : bool :=
  let n := nat_of_ascii a in
  between 97 122 n || between 65 90 n || between 48 57 n || (n =? 46)%nat || (n =? 45)%nat.

(** [strings.Trim(s, "[]")] *)
Definition bracket (a : ascii) : bool := (nat_of_ascii a =? 91)%nat || (nat_of_ascii a =? 93)%nat.
Fixpoint trim_brackets (s : string) : string :=
  match s with String a r => if bracket a then trim_brackets r else s | EmptyString => EmptyString end.
Definition Trim_brackets (s : string) : string := go_string_rev (trim_brackets (go_string_rev (trim_brackets s))).

(** [strings.Split(s, ".")] *)
Fixpoint split_dots (s : string) : list string :=
  match s with
  | EmptyString => [EmptyString]
  | String a r =>
      let rest := split_dots r in
      if Ascii.eqb a "." then EmptyString :: rest
      else match rest with label :: more => String a label :: more | [] => [String a EmptyString] end
  end.

Definition starts_with (c : ascii) (s : string) : bool := match s with String a _ => Ascii.eqb a c | EmptyString => false end.
Definition bad_label (label : string) : bool :=
  String.eqb label "" || (63 <? slen label) || starts_with "-" label || starts_with "-" (go_string_rev label).

Definition string_bytes : string → list ascii :=
  fix go s := match s with String a r => a :: go r | EmptyString => [] end.

Definition host_error : string := "host is malformed".
Definition normalizeHost (value : string) : res string string :=
  let host := trim_dot (ToLower (TrimSpace value)) in
  if String.eqb host "" then Err "host is empty"
  else if existsb special_byte (string_bytes host) then
    match ParseAddr (Trim_brackets host) with
    | Some address => Ok (AddrString (Unmap address))
    | None => Err "host is not an exact hostname or address"
    end
  else if negb (forallb host_byte (string_bytes host)) then Err "host contains unsupported characters"
  else
    match ParseAddr host with
    | Some address => Ok (AddrString (Unmap address))
    | None => if existsb bad_label (split_dots host) then Err host_error else Ok host
    end.

Fixpoint normalizedHostSet (values : list string) : res string (list string) :=
  match values with
  | [] => Ok []
  | value :: rest => let? host := normalizeHost value in let? hosts := normalizedHostSet rest in Ok (host :: hosts)
  end.

Definition newEndpointGuard (policy : EndpointPolicy) : res string endpointGuard :=
  let? allowed := normalizedHostSet (ep_AllowedHosts policy) in
  let? privateAllowed := normalizedHostSet (ep_PrivateAllowedHosts policy) in
  let? _ := fail_if (existsb (fun p => negb (prefix_IsValid p)) (ep_PrivateAllowlist policy))
              "providers: private allowlist contains an invalid prefix" in
  Ok (MkGuard allowed privateAllowed (map Masked (ep_PrivateAllowlist policy))).

Definition validateAddress (guard : endpointGuard) (address : Addr) (privateHostAllowed : bool) : res string unit :=
  if negb (IsValid address) || IsUnspecified address || IsMulticast address then Err "unspecified or multicast address"
  else if negb (isRestrictedAddress address) then Ok tt
  else if privateHostAllowed then Ok tt
  else if existsb (fun prefix => Contains prefix address) (g_privateAllowlist guard) then Ok tt
  else Err "private, loopback, link-local, or reserved address".

Definition policy_error {A : Type} (message : string) : res endpoint_error A := Err (PolicyError message).
Definition check_policy (m : res string unit) : res endpoint_error unit :=
  match m with Ok _ => Ok tt | Err e => policy_error ("providers: endpoint address rejected: " +:+ e) end.

Definition is_ipv6 (host : string) : bool := match ParseAddr host with Some (Addr6 _ _) => true | _ => false end.

(** [strconv.Atoi] of a port that [net/url] accepted: digits. *)
Definition port_number (port : string) : option Z := ParseInt port.

Definition validateURL (guard : endpointGuard) (rawURL : string) : res endpoint_error resolvedEndpoint :=
  match ParseURL rawURL with
  | None => policy_error "providers: invalid endpoint URL"
  | Some parsed =>
      if negb (String.eqb (u_Scheme parsed) "https") || negb (String.eqb (u_Opaque parsed) "")
      then policy_error "providers: endpoint must use HTTPS"
      else if u_User parsed then policy_error "providers: endpoint userinfo is forbidden"
      else if negb (String.eqb (u_Fragment parsed) "") then policy_error "providers: endpoint fragments are forbidden"
      else
        match normalizeHost (u_Hostname parsed) with
        | Err e => policy_error ("providers: invalid endpoint host: " +:+ e)
        | Ok host =>
            if (0 <? llen (g_allowedHosts guard)) && negb (str_in host (g_allowedHosts guard))
            then policy_error "providers: endpoint host is not allowed"
            else
              let? _ := match ParseAddr host with
                        | Some address => check_policy (validateAddress guard address (str_in host (g_privateAllowedHosts guard)))
                        | None => Ok tt
                        end in
              let port := if String.eqb (u_Port parsed) "" then "443" else u_Port parsed in
              let? _ := match port_number port with
                        | Some n => if (n <? 1) || (65535 <? n) then policy_error "providers: endpoint port is invalid" else Ok tt
                        | None => policy_error "providers: endpoint port is invalid"
                        end in
              let originHost := if is_ipv6 host then "[" +:+ host +:+ "]" else host in
              let origin := "https://" +:+ originHost +:+ (if String.eqb port "443" then "" else ":" +:+ port) in
              Ok (MkEndpoint origin host port [])
        end
  end.

(** [resolve], with the answer of the resolver. *)
Definition resolve (guard : endpointGuard) (lookup : string → LookupError + list Addr) (rawURL : string)
  : res endpoint_error resolvedEndpoint :=
  let? endpoint := validateURL guard rawURL in
  let host := re_host endpoint in
  let? addresses := match ParseAddr host with
                    | Some literal => Ok [Unmap literal]
                    | None => match lookup host with inl e => Err (ResolutionError e) | inr l => Ok l end
                    end in
  let? _ := fail_if (llen addresses =? 0) (PolicyError "providers: endpoint host resolved to no addresses") in
  let addresses := normalizeAddresses addresses in
  let? _ := fail_if (llen addresses =? 0) (PolicyError "providers: endpoint host resolved only to invalid addresses") in
  let privateHostAllowed := str_in host (g_privateAllowedHosts guard) in
  let? _ := match List.find (fun a => negb (is_ok (validateAddress guard a privateHostAllowed))) addresses with
            | Some a => check_policy (validateAddress guard a privateHostAllowed)
            | None => Ok tt
            end in
  Ok (endpoint <| re_addresses := addresses |>).

(** ** Transports *)

(** An [http.Transport] that dials the addresses that were checked, from the next
    one on; the cursor is shared by the connections of the transport. *)
Record Transport : Type := MkTransport {
  tr_host : string; tr_port : string; tr_addresses : list Addr; tr_cursor : Z }.

Record safeRoundTripper : Type := MkRoundTripper {
  rt_guard : endpointGuard; rt_transports : list (string * Transport); rt_order : list string }.

Definition maxOriginTransports : Z := 256.

Definition transport_key (endpoint : resolvedEndpoint) : string :=
  re_origin endpoint +:+ "|" +:+ String.concat "," (map AddrString (re_addresses endpoint)).

Definition find_transport (key : string) (transports : list (string * Transport)) : option Transport :=
  snd <$> List.find (fun kv => String.eqb kv.1 key) transports.

(** The oldest transport goes when there are more than the limit. *)
Definition evict (transport : safeRoundTripper) : safeRoundTripper :=
  match rt_order transport with
  | evicted :: rest =>
      if maxOriginTransports <? llen (rt_order transport) then
        transport <| rt_order := rest |>
                  <| rt_transports ::= List.filter (fun kv => negb (String.eqb kv.1 evicted)) |>
      else transport
  | [] => transport
  end.

Definition transportFor (transport : safeRoundTripper) (endpoint : resolvedEndpoint) : safeRoundTripper * Transport :=
  let key := transport_key endpoint in
  match find_transport key (rt_transports transport) with
  | Some existing => (transport, existing)
  | None =>
      let created := MkTransport (re_host endpoint) (re_port endpoint) (re_addresses endpoint) 0 in
      (evict (transport <| rt_transports ::= fun l => put l (key, created) |> <| rt_order ::= fun l => l ++ [key] |>), created)
  end.

Definition normalizeDialHost (value : string) : string :=
  match normalizeHost value with Ok host => host | Err _ => "" end.

(** The addresses tried, in turn from the cursor, until one connects or the
    connect timeout expires. *)
Fixpoint dial_from (connects : Addr → bool) (expired : nat → bool) (addresses : list Addr) (start : Z) (offset : nat) (remaining : nat)
  : list Addr * option Addr :=
  match remaining with
  | O => ([], None)
  | S remaining =>
      match nth_error addresses (Z.to_nat ((start + Z.of_nat offset) mod llen addresses)) with
      | None => ([], None)
      | Some selected =>
          if connects selected then ([selected], Some selected)
          else if expired offset then ([selected], None)
          else let '(tried, connection) := dial_from connects expired addresses start (S offset) remaining in
               (selected :: tried, connection)
      end
  end.

(** [DialContext] of a transport: a host and a port that were not checked are
    refused, and the cursor, which counts connections, advances. *)
Definition DialContext (connects : Addr → bool) (expired : nat → bool) (t : Transport) (host port : string)
  : Transport * (res endpoint_error unit * list Addr * option Addr) :=
  if negb (String.eqb (normalizeDialHost host) (tr_host t)) || negb (String.eqb port (tr_port t))
  then (t, (Err (PlainError "providers: transport attempted an unvalidated dial target"), [], None))
  else
    let t' := t <| tr_cursor ::= Z.succ |> in
    let '(tried, connection) := dial_from connects expired (tr_addresses t) (tr_cursor t) 0 (length (tr_addresses t)) in
    (t', (match connection with
          | Some _ => Ok tt
          | None => Err (PlainError "providers: all validated endpoint addresses failed")
          end, tried, connection)).

(** ** Headers *)

Definition http_Header : Type := list (string * list string).

(** The bytes of a header name. *)
Definition token_byte (a : ascii) : bool :=
  let n := nat_of_ascii a in
  between 97 122 n || between 65 90 n || between 48 57 n
  || existsb (Nat.eqb n) [33; 35; 36; 37; 38; 39; 42; 43; 45; 46; 94; 95; 96; 124; 126]%nat.
Definition upper_byte (a : ascii) : ascii := if between 97 122 (nat_of_ascii a) then byte_of (nat_of_ascii a - 32) else a.
Fixpoint canonical_from (upper : bool) (s : string) : string :=
  match s with
  | EmptyString => EmptyString
  | String a r => String (if upper then upper_byte a else lower_ascii a) (canonical_from (Ascii.eqb a "-") r)
  end.
(** [http.CanonicalHeaderKey] *)
Definition CanonicalHeaderKey (name : string) : string :=
  if forallb token_byte (string_bytes name) then canonical_from true name else name.

Definition Header_Get (h : http_Header) (name : string) : string :=
  match List.find (fun kv => String.eqb kv.1 (CanonicalHeaderKey name)) h with
  | Some (_, value :: _) => value
  | _ => ""
  end.
Definition Header_Del (h : http_Header) (name : string) : http_Header :=
  List.filter (fun kv => negb (String.eqb kv.1 (CanonicalHeaderKey name))) h.
Definition Header_Set (h : http_Header) (name value : string) : http_Header := put h (CanonicalHeaderKey name, [value]).

Fixpoint split_commas (s : string) : list string :=
  match s with
  | EmptyString => [EmptyString]
  | String a r =>
      let rest := split_commas r in
      if Ascii.eqb a "," then EmptyString :: rest
      else match rest with part :: more => String a part :: more | [] => [String a EmptyString] end
  end.

Definition forbiddenHeaders : list string :=
  ["Host"; "Connection"; "Keep-Alive"; "Proxy-Authenticate"; "Proxy-Authorization"; "Proxy-Connection"; "TE"; "Trailer";
   "Transfer-Encoding"; "Upgrade"; "Content-Length"; "Forwarded"; "Via"; "X-Forwarded-For"; "X-Forwarded-Host";
   "X-Forwarded-Port"; "X-Forwarded-Proto"; "X-Real-IP"; "CF-Connecting-IP"; "True-Client-IP"].

Definition prefixed (prefix s : string) : bool := match strip_prefix prefix s with Some _ => true | None => false end.

(** The hop-by-hop headers that [Connection] names, the forbidden ones, and the
    families of [Proxy-] and [X-Forwarded-]. *)
Definition sanitizeHeaders (input : http_Header) : http_Header :=
  let result := foldl (fun h name => Header_Del h (TrimSpace name)) input (split_commas (Header_Get input "Connection")) in
  let result := foldl Header_Del result forbiddenHeaders in
  foldl (fun h name => if prefixed "proxy-" (ToLower name) || prefixed "x-forwarded-" (ToLower name) then Header_Del h name else h)
    result (map fst result).

(** What the guard reads and writes of an [http.Request]: its URL, nil or the text of it,
    its [Host], which replaces the host of the URL unless it is empty, and its headers. *)
Record HTTPRequest : Type := MkHTTPRequest { hq_URL : option string; hq_Host : string; hq_Header : http_Header }.

(** [RoundTrip]: the request is resolved, and a copy of it with clean headers and without
    a [Host] of its own goes through the transport of its addresses. *)
Definition RoundTrip (transport : safeRoundTripper) (lookup : string → LookupError + list Addr) (request : option HTTPRequest)
  : safeRoundTripper * res endpoint_error (Transport * HTTPRequest) :=
  match request ≫= (fun r => (r,.) <$> hq_URL r) with
  | None => (transport, Err (PlainError "providers: HTTP request URL is required"))
  | Some (request, rawURL) =>
      match resolve (rt_guard transport) lookup rawURL with
      | Err e => (transport, Err e)
      | Ok endpoint =>
          let clone := request <| hq_Header := sanitizeHeaders (hq_Header request) |> <| hq_Host := "" |> in
          let '(transport', chosen) := transportFor transport endpoint in
          (transport', Ok (chosen, clone))
      end
  end.
End Guard.
