(* ===== verification/EndpointProperties.v ===== *)
(** * EndpointProperties: where requests may go

    Theorems about [Endpoint]: the reserved ranges that the guard refuses, as
    intervals of addresses, and that no connection is dialled to an address outside
    of what the policy allows, whatever the resolver answers from one request to
    the next. *)
From Stdlib Require Import Ascii.
From stdpp Require Import relations.
From S2P Require Import Prelude Json JsonText Retry Runtime Endpoint.

Open Scope string_scope.
Open Scope list_scope.
Open Scope Z_scope.

(** ** Reserved ranges *)

(** The first and the last address of every range that the guard holds for not public:
    this network, private and shared addresses, loopback, link-local, the blocks of
    protocol assignments, documentation and benchmarks, multicast and the reserved rest;
    of IPv6 the unspecified address, loopback, discard, ORCHID, documentation, unique local,
    link-local and multicast.  The registries have more: 64:ff9b::/96, 64:ff9b:1::/48,
    2001:2::/48 and fec0::/10 are not among them. *)
Definition reserved4 : list (Z * Z) :=
  [(ip4 0 0 0 0, ip4 0 255 255 255); (ip4 10 0 0 0, ip4 10 255 255 255); (ip4 100 64 0 0, ip4 100 127 255 255);
   (ip4 127 0 0 0, ip4 127 255 255 255); (ip4 169 254 0 0, ip4 169 254 255 255); (ip4 172 16 0 0, ip4 172 31 255 255);
   (ip4 192 0 0 0, ip4 192 0 0 255); (ip4 192 0 2 0, ip4 192 0 2 255); (ip4 192 168 0 0, ip4 192 168 255 255);
   (ip4 198 18 0 0, ip4 198 19 255 255); (ip4 198 51 100 0, ip4 198 51 100 255); (ip4 203 0 113 0, ip4 203 0 113 255);
   (ip4 224 0 0 0, ip4 239 255 255 255); (ip4 240 0 0 0, ip4 255 255 255 255)].

(** The range of a prefix [p] of [n] bits of an IPv6 address. *)
Definition range6 (n p : Z) : Z * Z := (p * 2 ^ (128 - n), (p + 1) * 2 ^ (128 - n) - 1).
Definition reserved6 : list (Z * Z) :=
  [(0, 0); (1, 1); range6 64 72057594037927936; range6 28 33558529; range6 32 536939960; range6 7 126; range6 10 1018; range6 8 255].

Definition within (z : Z) (range : Z * Z) : bool := (range.1 <=? z) && (z <=? range.2).

(** A public address has no zone and lies in no reserved range. *)
Definition public (a : Addr) : bool :=
  match a with
  | Addr4 z => negb (existsb (within z) reserved4)
  | Addr6 z zone => String.eqb zone "" && negb (existsb (within z) reserved6)
  | AddrInvalid => false
  end.

(** The numbers an address can be. *)
Definition addr_range (a : Addr) : Prop :=
  match a with AddrInvalid => True | Addr4 z => 0 ≤ z < 2 ^ 32 | Addr6 z _ => 0 ≤ z < 2 ^ 128 end.
Definition zone_free (a : Addr) : Prop := match a with Addr6 _ zone => zone = "" | _ => True end.

(** A check without the policy's exceptions. *)
Definition unrestricted (a : Addr) : bool :=
  IsValid a && negb (IsUnspecified a) && negb (IsMulticast a) && negb (isRestrictedAddress a).

(** The numbers whose bits from [k] on are [c]. *)
Definition bits_range (k c : Z) : Z * Z := (c * 2 ^ k, (c + 1) * 2 ^ k - 1).

Lemma shiftr_within z k c : 0 ≤ k → (Z.shiftr z k =? c) = within z (bits_range k c).
Proof.
  intros Hk. rewrite Z.shiftr_div_pow2 by done. unfold within. cbn [bits_range fst snd].
  assert (0 < 2 ^ k) by (apply Z.pow_pos_nonneg; lia). pose proof (Z.div_mod z (2 ^ k)). pose proof (Z.mod_pos_bound z (2 ^ k)).
  apply eq_true_iff_eq. rewrite andb_true_iff, Z.eqb_eq, !Z.leb_le. split; [intros <-; nia|intros []; nia].
Qed.

Lemma eqb_within z c : (z =? c) = within z (c, c).
Proof. unfold within. cbn. lia. Qed.

(** Every range of the first list lies in a range of the second. *)
Definition covers (inner outer : list (Z * Z)) : bool :=
  forallb (fun r => existsb (fun s => (s.1 <=? r.1) && (r.2 <=? s.2)) outer) inner.

Lemma covers_within inner outer z : covers inner outer = true → existsb (within z) inner = true → existsb (within z) outer = true.
Proof.
  unfold covers. rewrite forallb_elem, Forall_forall, !existsb_elem. intros Hc (r & Hr & Hz).
  apply Hc, existsb_elem in Hr as (s & Hs & Hi). exists s. split; [done|].
  unfold within in *. bool_to_prop. apply andb_true_iff. rewrite !Z.leb_le. lia.
Qed.

Lemma same_ranges inner outer z :
  covers inner outer = true → covers outer inner = true → existsb (within z) inner = existsb (within z) outer.
Proof. intros H1 H2. apply eq_true_iff_eq. split; by apply covers_within. Qed.

(** The range of a prefix. *)
Definition is_prefix4 (p : Prefix) : bool := match px_Addr p with Addr4 _ => true | _ => false end.
Definition prefix_range (p : Prefix) : Z * Z :=
  match px_Addr p with
  | Addr4 n => bits_range (32 - px_Bits p) (Z.shiftr n (32 - px_Bits p))
  | Addr6 n _ => bits_range (128 - px_Bits p) (Z.shiftr n (128 - px_Bits p))
  | AddrInvalid => (1, 0)
  end.

Lemma contains4 l z :
  forallb prefix_IsValid l = true →
  existsb (fun p => Contains p (Addr4 z)) l = existsb (within z) (map prefix_range (List.filter is_prefix4 l)).
Proof.
  induction l as [|[[|n|n zone] b] l IH]; cbn [forallb existsb List.filter map is_prefix4 px_Addr]; [done|..];
    intros Hv; apply andb_true_iff in Hv as [Hv Hl]; specialize (IH Hl); unfold Contains at 1; cbn [px_Addr px_Bits] in *.
  - done.
  - rewrite Hv, IH, shiftr_within; [done|]. cbn in Hv. bool_to_prop. lia.
  - by rewrite andb_false_r, IH.
Qed.

Lemma contains6 l z :
  forallb prefix_IsValid l = true →
  existsb (fun p => Contains p (Addr6 z "")) l = existsb (within z) (map prefix_range (List.filter (fun p => negb (is_prefix4 p)) l)).
Proof.
  induction l as [|[[|n|n zone] b] l IH]; cbn [forallb existsb List.filter map is_prefix4 px_Addr negb]; [done|..];
    intros Hv; apply andb_true_iff in Hv as [Hv Hl]; specialize (IH Hl); unfold Contains at 1; cbn [px_Addr px_Bits] in *.
  - done.
  - by rewrite andb_false_r, IH.
  - rewrite Hv, IH, shiftr_within; [done|]. cbn in Hv. bool_to_prop. lia.
Qed.

(** The ranges that the checks of the guard name. *)
Definition checked4 : list (Z * Z) :=
  [(0, 0); (4294967295, 4294967295); bits_range 28 14; bits_range 24 10; bits_range 20 2753; bits_range 16 49320;
   bits_range 24 127; bits_range 16 43518; bits_range 8 14680064]
  ++ map prefix_range (List.filter is_prefix4 restrictedPrefixes).

Lemma public4 z : unrestricted (Addr4 z) = public (Addr4 z).
Proof.
  unfold public. rewrite <- (same_ranges checked4 reserved4) by (vm_compute; reflexivity).
  unfold unrestricted, isRestrictedAddress. rewrite contains4 by done.
  unfold IsGlobalUnicast, IsMulticast, IsLoopback, IsLinkLocalUnicast, IsLinkLocalMulticast,
    IsPrivate, IsUnspecified, IsValid, checked4. rewrite existsb_app. cbn [existsb Unmap].
  rewrite !shiftr_within, !eqb_within by lia. set (w := within z). apply eq_true_iff_eq. cbn [andb].
  rewrite !negb_orb, !negb_involutive, !andb_true_iff, !negb_true_iff. tauto.
Qed.

(** The check of link-local multicast lies in the multicast range. *)
Lemma link_local_multicast z : 0 ≤ z < 2 ^ 128 →
  (Z.land (Z.shiftr z 112) 65295 =? 65282) = true → (Z.shiftr z 120 =? 255) = true.
Proof.
  intros Hz. rewrite !Z.eqb_eq. intros Hl.
  assert (Z.shiftr (Z.land (Z.shiftr z 112) 65295) 8 = 255) as E by (by rewrite Hl).
  rewrite Z.shiftr_land, Z.shiftr_shiftr in E by lia. change (112 + 8) with 120 in E.
  change (Z.shiftr 65295 8) with (Z.ones 8) in E. rewrite Z.land_ones in E by lia.
  rewrite Z.mod_small in E; [done|]. rewrite Z.shiftr_div_pow2 by lia. split; [apply Z.div_pos; lia|].
  apply Z.div_lt_upper_bound; lia.
Qed.

Definition checked6 : list (Z * Z) :=
  [(0, 0); (1, 1); bits_range 120 255; bits_range 118 1018; bits_range 121 126]
  ++ map prefix_range (List.filter (fun p => negb (is_prefix4 p)) restrictedPrefixes).

Lemma public6 z : 0 ≤ z < 2 ^ 128 → Unmap (Addr6 z "") = Addr6 z "" → unrestricted (Addr6 z "") = public (Addr6 z "").
Proof.
  intros Hz Hu. unfold public. rewrite <- (same_ranges checked6 reserved6) by (vm_compute; reflexivity).
  unfold unrestricted, isRestrictedAddress. rewrite contains6 by done.
  unfold IsGlobalUnicast, IsMulticast, IsLoopback, IsLinkLocalUnicast, IsLinkLocalMulticast,
    IsPrivate, IsUnspecified, IsValid, checked6. rewrite !Hu, existsb_app. cbn [existsb].
  pose proof (link_local_multicast z Hz) as Hm.
  destruct (Z.land (Z.shiftr z 112) 65295 =? 65282).
  - rewrite Hm by done. rewrite shiftr_within in Hm by lia. rewrite (Hm eq_refl). cbn.
    rewrite !orb_true_r. cbn. by rewrite ?andb_false_r.
  - clear Hm. rewrite !shiftr_within, !eqb_within by lia. set (w := within z). apply eq_true_iff_eq.
    cbn [andb]. change (String.eqb "" "") with true. rewrite ?andb_true_r. cbn [andb orb].
    rewrite !negb_orb, !negb_involutive, !andb_true_iff, !negb_true_iff. tauto.
Qed.

(** ** Resolution *)

Section Resolution.
Context `{EndpointEnv}.

(** What the guard checked of an address, for a host. *)
Definition admitted_address (guard : endpointGuard) (host : string) (a : Addr) : Prop :=
  Unmap a = a ∧ validateAddress guard a (str_in host (g_privateAllowedHosts guard)) = Ok tt.

(** Where a connection may go: a public address, or one that the policy lists. *)
Definition safe_target (guard : endpointGuard) (host : string) (a : Addr) : Prop :=
  IsUnspecified a = false ∧ IsMulticast a = false
  ∧ (public a = true ∨ str_in host (g_privateAllowedHosts guard) = true
     ∨ existsb (fun prefix => Contains prefix a) (g_privateAllowlist guard) = true).

Lemma public_unrestricted a : zone_free a → addr_range a → Unmap a = a → unrestricted a = public a.
Proof. destruct a as [|z|z zone]; cbn; intros Hz Hr Hu; [done|apply public4|]. subst zone. by apply public6. Qed.

Lemma admitted_safe guard host a : admitted_address guard host a → zone_free a → addr_range a → safe_target guard host a.
Proof.
  intros [Hu Hv] Hz Hr. unfold safe_target. rewrite <- public_unrestricted by done. unfold unrestricted, validateAddress in *.
  destruct (IsValid a), (IsUnspecified a), (IsMulticast a); try done. cbn [negb orb andb] in *.
  split; [done|]. split; [done|]. destruct (isRestrictedAddress a); cbn [negb] in *; [|by left]. right.
  destruct (str_in host _); [by left|]. right. by destruct (existsb _ _).
Qed.

Lemma insert_addr_elem a l x : x ∈ insert_addr a l ↔ x = a ∨ x ∈ l.
Proof.
  induction l as [|b l IH]; cbn; [set_solver|]. destruct (addr_less a b); [set_solver|]. rewrite elem_of_cons, IH. set_solver.
Qed.

Lemma sort_addrs_elem l x : x ∈ sort_addrs l ↔ x ∈ l.
Proof. induction l as [|a l IH]; cbn; [done|]. rewrite insert_addr_elem. fold (sort_addrs l). rewrite IH. set_solver. Qed.

Lemma Unmap_idempotent a : Unmap (Unmap a) = Unmap a.
Proof. destruct a as [|z|z zone]; cbn; try done. destruct (Z.shiftr z 32 =? 65535) eqn:E; cbn; [done|]. by rewrite E. Qed.

Lemma normalizeAddresses_unmapped l x : x ∈ normalizeAddresses l → Unmap x = x.
Proof.
  unfold normalizeAddresses. rewrite sort_addrs_elem.
  assert (∀ acc, (∀ y, y ∈ acc → Unmap y = y) → x ∈ foldl add_address acc l → Unmap x = x) as Hf.
  { induction l as [|a l IH]; intros acc Hacc Hx; cbn in Hx; [auto|]. eapply IH; [|exact Hx].
    intros y. unfold add_address. case_match; [apply Hacc|]. rewrite elem_of_app, list_elem_of_singleton.
    intros [?| ->]; [by apply Hacc|apply Unmap_idempotent]. }
  apply Hf. intros y Hy. by apply elem_of_nil in Hy.
Qed.

Lemma find_none {A : Type} (f : A → bool) l : List.find f l = None ↔ ∀ x, x ∈ l → f x = false.
Proof.
  induction l as [|a l IH]; cbn; [set_solver|]. destruct (f a) eqn:E; [|set_solver].
  split; [done|]. intros Hx. rewrite Hx in E; [done|set_solver].
Qed.

(** Every address of a resolved endpoint was checked. *)
Lemma resolve_admits guard lookup rawURL endpoint :
  resolve guard lookup rawURL = Ok endpoint →
  Forall (admitted_address guard (re_host endpoint)) (re_addresses endpoint)
  ∧ (g_allowedHosts guard = [] ∨ re_host endpoint ∈ g_allowedHosts guard)
  ∧ ∃ parsed, ParseURL rawURL = Some parsed ∧ u_Scheme parsed = "https" ∧ u_User parsed = false.
Proof.
  unfold resolve. rewrite res_bind_ok. intros (e & He & H1). rewrite res_bind_ok in H1. destruct H1 as (addresses & _ & H1).
  rewrite fail_if_then_ok in H1. destruct H1 as [_ H1]. cbv zeta in H1. rewrite fail_if_then_ok in H1. destruct H1 as [_ H1].
  rewrite check_then_ok in H1. destruct H1 as [Hf H1]. injection H1 as <-. cbn. split.
  - apply Forall_forall. intros a Ha. split; [by eapply normalizeAddresses_unmapped|].
    destruct (List.find _ _) as [b|] eqn:Eb.
    + apply List.find_some in Eb as [_ Eb]. by destruct (validateAddress guard b _).
    + rewrite find_none in Eb. specialize (Eb a Ha). by destruct (validateAddress guard a _) as [[]|].
  - unfold validateURL in He. destruct (ParseURL rawURL) as [parsed|]; [|done].
    destruct (negb _ || negb _) eqn:Es; [done|]. destruct (u_User parsed) eqn:Eu; [done|].
    destruct (negb (String.eqb (u_Fragment parsed) "")); [done|]. destruct (normalizeHost _) as [host|]; [|done].
    destruct ((_ <? _) && negb (str_in host _)) eqn:Ea; [done|]. rewrite check_then_ok in He. destruct He as [_ He].
    cbv zeta in He. rewrite check_then_ok in He. destruct He as [_ [= <-]]. cbn. split.
    + destruct (g_allowedHosts guard) as [|h hosts] eqn:Eg; [by left|right]. cbn [llen] in Ea.
      apply andb_false_iff in Ea as [Ea|Ea]; [apply Z.ltb_ge in Ea; unfold llen in Ea; cbn in Ea; lia|].
      apply negb_false_iff, str_in_spec in Ea. done.
    + apply orb_false_iff in Es as [Es _]. apply negb_false_iff, String.eqb_eq in Es. by exists parsed.
Qed.

(** ** Transports *)

Definition transport_ok (guard : endpointGuard) (t : Transport) : Prop :=
  Forall (admitted_address guard (tr_host t)) (tr_addresses t).

(** The transports are those of the order of their creation, within the limit, and
    hold checked addresses. *)
Record RoundTripperOk (guard : endpointGuard) (s : safeRoundTripper) : Prop := {
  ok_guard : rt_guard s = guard;
  ok_nodup : NoDup (rt_order s);
  ok_keys : map fst (rt_transports s) ≡ₚ rt_order s;
  ok_bound : llen (rt_order s) ≤ maxOriginTransports;
  ok_transports : Forall (fun kt => transport_ok guard kt.2) (rt_transports s);
}.

Lemma find_transport_some key l t : find_transport key l = Some t → ∃ k, (k, t) ∈ l ∧ k = key.
Proof.
  unfold find_transport. destruct (List.find _ l) as [[k t']|] eqn:E; [|done]. intros [= ->].
  apply List.find_some in E as [Hin Hk%String.eqb_eq]. exists k. by rewrite list_elem_of_In.
Qed.

Lemma find_transport_none key l : find_transport key l = None → key ∉ map fst l.
Proof.
  unfold find_transport. destruct (List.find _ l) as [kt|] eqn:E; [done|]. rewrite find_none in E. intros _ Hin.
  apply list_elem_of_fmap in Hin as (kt & -> & Hin). specialize (E kt Hin). by rewrite String.eqb_refl in E.
Qed.

Lemma filter_absent {A : Type} key (l : list (string * A)) :
  key ∉ map fst l → List.filter (fun kv => negb (String.eqb kv.1 key)) l = l.
Proof.
  induction l as [|[k v] l IH]; cbn; [done|]. rewrite not_elem_of_cons. intros [Hne Hin].
  rewrite (proj2 (String.eqb_neq k key)) by done. cbn. by rewrite IH.
Qed.

(** Removing the first key of a duplicate-free order. *)
Lemma filter_transport_keys {A : Type} key (l : list (string * A)) rest :
  map fst l ≡ₚ key :: rest → NoDup (key :: rest) → map fst (List.filter (fun kv => negb (String.eqb kv.1 key)) l) ≡ₚ rest.
Proof.
  intros Hp Hn. assert (NoDup (map fst l)) as Hl by (by rewrite Hp).
  assert (∃ l1 l2 v, l = l1 ++ (key, v) :: l2) as (l1 & l2 & v & ->).
  { assert (key ∈ map fst l) as Hin by (rewrite Hp; set_solver). apply list_elem_of_fmap in Hin as ([k v] & -> & Hin).
    apply list_elem_of_split in Hin as (l1 & l2 & ->). eauto. }
  change (map fst) with (fmap (M := list) (@fst string A)) in *. rewrite fmap_app, fmap_cons in Hl. cbn in Hl.
  apply NoDup_app in Hl as (H1 & Hd & H2). apply NoDup_cons in H2 as [H2 _].
  rewrite List.filter_app. cbn. rewrite String.eqb_refl. cbn. rewrite !filter_absent; [|done|set_solver].
  rewrite fmap_app, fmap_cons in Hp. cbn in Hp. rewrite <- Permutation_middle in Hp. apply Permutation_cons_inv in Hp.
  by rewrite fmap_app.
Qed.

(** Writing a key that is present keeps the keys. *)
Lemma put_keys {A : Type} key (v : A) l keys : map fst l ≡ₚ keys → NoDup keys → key ∈ keys → map fst (put l (key, v)) ≡ₚ keys.
Proof.
  intros Hk Hn Hin. unfold put. rewrite map_app. cbn. apply list_elem_of_split in Hin as (o1 & o2 & ->).
  rewrite <- Permutation_middle in Hk, Hn. rewrite (filter_transport_keys key l (o1 ++ o2)) by done.
  etrans; [symmetry; apply Permutation_cons_append|apply Permutation_middle].
Qed.

Lemma Forall_filter_bool {A : Type} (P : A → Prop) (f : A → bool) l : Forall P l → Forall P (List.filter f l).
Proof. induction 1; cbn; [done|]. case_match; [by constructor|done]. Qed.

Lemma evict_ok guard s :
  rt_guard s = guard → NoDup (rt_order s) → map fst (rt_transports s) ≡ₚ rt_order s → llen (rt_order s) ≤ maxOriginTransports + 1 →
  Forall (fun kt => transport_ok guard kt.2) (rt_transports s) → RoundTripperOk guard (evict s).
Proof.
  intros Hg Hn Hk Hb Ht. unfold evict. destruct (rt_order s) as [|first rest] eqn:Eo; [by constructor; rewrite ?Eo|].
  destruct (Z.ltb_spec maxOriginTransports (llen (first :: rest))) as [|Hle].
  - constructor; [done|by apply NoDup_cons in Hn as []|by apply filter_transport_keys| |by apply Forall_filter_bool].
    change (llen rest ≤ maxOriginTransports). unfold llen in *. cbn [length] in *. lia.
  - by constructor; rewrite ?Eo.
Qed.

Lemma transportFor_ok guard s endpoint :
  RoundTripperOk guard s → Forall (admitted_address guard (re_host endpoint)) (re_addresses endpoint) →
  RoundTripperOk guard (transportFor s endpoint).1 ∧ transport_ok guard (transportFor s endpoint).2.
Proof.
  intros [Hg Hn Hk Hb Ht] Ha. unfold transportFor. set (key := transport_key endpoint).
  destruct (find_transport key (rt_transports s)) as [existing|] eqn:E.
  - split; [done|]. apply find_transport_some in E as (k & Hin & _). by apply (proj1 (Forall_forall _ _) Ht) in Hin.
  - apply find_transport_none in E. split; [|done]. cbn zeta. set (created := MkTransport _ _ _ _).
    assert (key ∉ rt_order s) as Hno by (by rewrite <- Hk).
    assert (NoDup (rt_order s ++ [key])) as Hn'.
    { apply NoDup_app. split; [done|]. split; [set_solver|]. apply NoDup_singleton. }
    assert (map fst (put (rt_transports s) (key, created)) ≡ₚ rt_order s ++ [key]) as Hk'.
    { unfold put. cbn. rewrite filter_absent by done. rewrite map_app. by rewrite Hk. }
    assert (Forall (fun kt => transport_ok guard kt.2) (put (rt_transports s) (key, created))) as Ht'.
    { apply Forall_app. split; [by apply Forall_filter_bool|]. by constructor. }
    apply evict_ok; try done. change (llen (rt_order s ++ [key]) ≤ maxOriginTransports + 1).
    rewrite llen_app. change (llen [key]) with 1. lia.
Qed.

(** ** Dials *)

Lemma dial_from_tried connects expired addresses start offset remaining :
  Forall (fun a => a ∈ addresses) (dial_from connects expired addresses start offset remaining).1.
Proof.
  revert offset. induction remaining as [|n IH]; intros offset; cbn; [done|].
  destruct (nth_error _ _) as [selected|] eqn:E; [|done].
  apply nth_error_In in E. apply list_elem_of_In in E. repeat case_match; cbn; repeat constructor; try done.
  by match goal with H : dial_from _ _ _ _ ?o _ = _ |- _ => specialize (IH o); rewrite H in IH end.
Qed.

Lemma DialContext_tried connects expired t host port :
  Forall (fun a => a ∈ tr_addresses t) (DialContext connects expired t host port).2.1.2.
Proof.
  unfold DialContext. case_match; [by constructor|].
  pose proof (dial_from_tried connects expired (tr_addresses t) (tr_cursor t) 0 (length (tr_addresses t))) as Hd.
  by destruct (dial_from _ _ _ _ _ _) as [tried connection].
Qed.

(** ** The life of a client *)

(** A request, or a connection of one of the transports. *)
Inductive rt_step : safeRoundTripper → safeRoundTripper → Prop :=
| step_request s lookup request : rt_step s (RoundTrip s lookup request).1
| step_dial s key t connects expired host port :
    find_transport key (rt_transports s) = Some t →
    rt_step s (s <| rt_transports ::= fun l => put l (key, (DialContext connects expired t host port).1) |>).

Lemma RoundTrip_ok guard s lookup request :
  RoundTripperOk guard s →
  RoundTripperOk guard (RoundTrip s lookup request).1
  ∧ ∀ t sent, (RoundTrip s lookup request).2 = Ok (t, sent) → transport_ok guard t
      ∧ ∃ r, request = Some r ∧ sent = MkHTTPRequest (hq_URL r) "" (sanitizeHeaders (hq_Header r)).
Proof.
  intros Hs. unfold RoundTrip. destruct request as [[[rawURL|] Host headers]|]; [|done..].
  cbn [mbind option_bind fmap option_fmap option_map hq_URL].
  destruct (resolve (rt_guard s) lookup rawURL) as [endpoint|] eqn:E; [|done].
  rewrite (ok_guard _ _ Hs) in E. apply resolve_admits in E as (Ha & _).
  destruct (transportFor_ok guard s endpoint Hs Ha) as [H1 H2]. destruct (transportFor s endpoint) as [s' chosen].
  split; [done|]. intros t sent [= <- <-]. split; [done|]. eexists. split; reflexivity.
Qed.

Lemma DialContext_ok guard connects expired t host port :
  transport_ok guard t → transport_ok guard (DialContext connects expired t host port).1.
Proof. intros Ht. unfold DialContext. case_match; [done|]. by destruct (dial_from _ _ _ _ _ _). Qed.

Lemma rt_step_ok guard s s' : rt_step s s' → RoundTripperOk guard s → RoundTripperOk guard s'.
Proof.
  intros [s0 lookup request|s0 key t connects expired host port E] Hs; [by apply RoundTrip_ok|].
  destruct Hs as [Hg Hn Hk Hb Ht]. apply find_transport_some in E as (k & Hin & ->).
  pose proof (proj1 (Forall_forall _ _) Ht _ Hin) as Hok. cbn in Hok.
  assert (key ∈ rt_order s0) as Hin' by (rewrite <- Hk; apply list_elem_of_fmap; by exists (key, t)).
  constructor; cbn; try done.
  - by apply put_keys.
  - apply Forall_app. split; [by apply Forall_filter_bool|]. constructor; [|done]. by apply DialContext_ok.
Qed.

(** ** Headers *)

Lemma Header_Del_elem h name kv : kv ∈ Header_Del h name ↔ kv ∈ h ∧ kv.1 ≠ CanonicalHeaderKey name.
Proof.
  unfold Header_Del. rewrite !list_elem_of_In, filter_In, negb_true_iff, String.eqb_neq. done.
Qed.

(** A loop that deletes some of the headers it visits. *)
Lemma fold_del_elem {A : Type} (name : A → string) (chosen : A → bool) l h kv :
  kv ∈ foldl (fun h x => if chosen x then Header_Del h (name x) else h) h l
  ↔ kv ∈ h ∧ ∀ x, x ∈ l → chosen x = true → kv.1 ≠ CanonicalHeaderKey (name x).
Proof.
  revert h. induction l as [|x l IH]; intros h; cbn.
  - split; [|tauto]. intros Hkv. split; [done|]. intros x Hx. by apply elem_of_nil in Hx.
  - rewrite IH. destruct (chosen x) eqn:E; [rewrite Header_Del_elem|]; setoid_rewrite elem_of_cons; naive_solver congruence.
Qed.

(** The names that are not sent, as the canonical keys of a header. *)
Definition withheld : list string :=
  ["Host"; "Connection"; "Keep-Alive"; "Te"; "Trailer"; "Transfer-Encoding"; "Upgrade"; "Content-Length";
   "Forwarded"; "Via"; "X-Real-Ip"; "Cf-Connecting-Ip"; "True-Client-Ip";
   "Proxy-Authenticate"; "Proxy-Authorization"; "Proxy-Connection";
   "X-Forwarded-For"; "X-Forwarded-Host"; "X-Forwarded-Port"; "X-Forwarded-Proto"].

(** A header that was sent: one of the caller's, that could not redirect the request or
    speak for a proxy and that the caller's [Connection] does not name. *)
Record clean_header (headers : http_Header) (kv : string * list string) : Prop := {
  ch_given : kv ∈ headers;
  ch_withheld : kv.1 ∉ withheld;
  ch_family : CanonicalHeaderKey kv.1 = kv.1 → ∀ rest, kv.1 ≠ "Proxy-" +:+ rest ∧ kv.1 ≠ "X-Forwarded-" +:+ rest;
  ch_hop : ∀ name, name ∈ split_commas (Header_Get headers "Connection") → kv.1 ≠ CanonicalHeaderKey (TrimSpace name) }.

Lemma prefixed_family rest :
  prefixed "proxy-" (ToLower ("Proxy-" +:+ rest)) = true ∧ prefixed "x-forwarded-" (ToLower ("X-Forwarded-" +:+ rest)) = true.
Proof. destruct rest as [|a [|b rest]]; split; reflexivity. Qed.

Lemma sanitizeHeaders_clean headers : Forall (clean_header headers) (sanitizeHeaders headers).
Proof.
  apply Forall_forall. intros kv. unfold sanitizeHeaders. rewrite (fold_del_elem id).
  intros [Hin Hp]. set (result := foldl Header_Del _ forbiddenHeaders) in *. assert (kv ∈ result) as Hres by done.
  change result with (foldl (fun h x => if (fun _ => true) x then Header_Del h (id x) else h)
    (foldl (fun h name => if (fun _ => true) name then Header_Del h (TrimSpace name) else h) headers (split_commas (Header_Get headers "Connection")))
    forbiddenHeaders) in Hin.
  apply (fold_del_elem id (fun _ => true)) in Hin as [Hin Hf]. apply (fold_del_elem TrimSpace (fun _ => true)) in Hin as [Hin Hc]. split.
  - done.
  - assert (withheld ≡ₚ map CanonicalHeaderKey forbiddenHeaders) as Hw by (apply (bool_decide_unpack _); vm_compute; exact I).
    rewrite Hw. intros Hm. apply list_elem_of_fmap in Hm as (name & Hn & Hm). by apply (Hf name Hm).
  - intros Hcan rest. assert (kv.1 ∈ map fst result) as Hk by (apply list_elem_of_fmap; by exists kv). specialize (Hp kv.1 Hk). unfold id in Hp.
    destruct (prefixed_family rest) as [F1 F2].
    split; intros E; (apply Hp; [rewrite E, ?F1, ?F2; by rewrite ?orb_true_r|done]).
  - intros name Hname. by apply Hc.
Qed.

End Resolution.

(** ** A resolver that rebinds *)

Definition demo_url (host : string) : URL := MkParsedURL "https" "" false "" host "" "" "/v1".

(** One named host, and the addresses written as text. *)
#[export] Instance demo_env : EndpointEnv := {|
  ParseURL raw := if String.eqb raw "https://api.example/v1" then Some (demo_url "api.example")
                  else if String.eqb raw "https://[::%25x]/v1" then Some (demo_url "::%x") else None;
  ParseAddr text := if String.eqb text "::%x" then Some (Addr6 0 "x") else None;
  AddrString a := match a with Addr4 8 => "0.0.0.8" | Addr6 0 "x" => "::%x" | _ => "address" end;
|}.

Definition demo_guard : endpointGuard := MkGuard [] [] [].
Definition demo_lookup (a : Addr) (host : string) : LookupError + list Addr := inr [a].

(** The first answer is public and the second is the cloud's metadata service. *)
Definition demo_client : safeRoundTripper := MkRoundTripper demo_guard [] [].
Definition demo_request (host : string) (headers : http_Header) : option HTTPRequest :=
  Some (MkHTTPRequest (Some "https://api.example/v1") host headers).
Definition demo_after : safeRoundTripper :=
  (RoundTrip demo_client (demo_lookup (Addr4 (ip4 1 1 1 1))) (demo_request "" [])).1.

Definition demo_transport : Transport := MkTransport "api.example" "443" [Addr4 (ip4 1 1 1 1)] 0.
Definition demo_sent : HTTPRequest := MkHTTPRequest (Some "https://api.example/v1") "" [("Accept", ["*"])].


(** The unspecified address with a zone passes the guard: [netip] compares it with
    the address without a zone, and a prefix contains no address with one. *)
Theorem zoned_unspecified_accepted guard zone :
  zone ≠ "" → validateAddress guard (Addr6 0 zone) false = Ok tt ∧ validateAddress guard (Addr6 0 "") false ≠ Ok tt.
Proof.
  intros Hz. destruct zone; [done|]. split; [reflexivity|]. vm_compute. discriminate.
Qed.

Example zoned_url_resolves :
  resolve demo_guard (demo_lookup AddrInvalid) "https://[::%25x]/v1"
  = Ok (MkEndpoint "https://[::%x]" "::%x" "443" [Addr6 0 "x"]).
Proof. vm_compute. reflexivity. Qed.
