(* ===== verification/RouterProperties.v ===== *)
(** * RouterProperties: what comes out of an exchange

    Theorems about [ProviderRouter]: the reader of event streams stops, stays within
    its limit and succeeds only at a terminal event; and whatever a provider and the
    network answer, an execution returns, a failure carries no output, and a success
    is a result that the runtime's admission accepts. *)
From Stdlib Require Import Ascii.
From Corelib Require Import SpecFloat.
From S2P Require Import Prelude Float64 Json JsonText FloatText Unicode Schema Retry Accounting CacheKey Runtime Scripted.
From S2P Require Import ProviderNormalize ProviderProperties ProviderPayload PayloadProperties Endpoint ProviderRouter.

Open Scope string_scope.
Open Scope list_scope.
Open Scope Z_scope.

(** ** Slices *)

Definition newline_free (s : string) : Prop := Forall (fun a => a ≠ byte_of 10) (String.list_ascii_of_string s).
Definition joined (l : list string) : string := foldr String.append "" l.
Lemma joined_app l k : joined (l ++ k) = joined l +:+ joined k.
Proof.
  induction l as [|s l IH]; [done|]. change (joined ((s :: l) ++ k)) with (s +:+ joined (l ++ k)).
  change (joined (s :: l)) with (s +:+ joined l). by rewrite IH, string_app_assoc.
Qed.
Lemma joined_one s : joined [s] = s.
Proof. apply string_app_nil. Qed.

(** The slices of a body: lines with their newline, and 32 KiB of a longer line at a time;
    the last one is what is left. *)
Definition slice_limit : nat := Z.to_nat 32768.
Definition is_slice (s : string) : Prop :=
  ((∃ line, s = line +:+ nl ∧ newline_free line) ∧ (String.length s ≤ slice_limit)%nat) ∨ (newline_free s ∧ String.length s = slice_limit).
Definition slices (body : string) (l : list string) : Prop :=
  ∃ init final, l = init ++ [final] ∧ body = joined l ∧ Forall is_slice init ∧ newline_free final ∧ (String.length final < slice_limit)%nat.

Lemma read_slice_spec limit : ∀ s line rest more,
  read_slice limit s = (line, rest, more) →
  s = line +:+ rest
  ∧ if more then ((∃ l, line = l +:+ nl ∧ newline_free l) ∧ (String.length line ≤ limit)%nat) ∨ (newline_free line ∧ String.length line = limit)
    else rest = "" ∧ newline_free line ∧ (String.length line < limit)%nat.
Proof.
  induction limit as [|limit IH]; intros s line rest more; cbn; [intros [= <- <- <-]; split; [done|]; right; split; [constructor|done]|].
  destruct s as [|a r]; [intros [= <- <- <-]; split_and!; [done..|constructor|cbn; lia]|].
  destruct (Ascii.eqb_spec a (byte_of 10)) as [->|Ha].
  { intros [= <- <- <-]. split; [done|]. left. split; [exists ""; split; [done|constructor]|cbn; lia]. }
  destruct (read_slice limit r) as [[line' rest'] more'] eqn:E. intros [= <- <- <-]. destruct (IH _ _ _ _ E) as [-> H]. split; [done|].
  destruct more'.
  - destruct H as [[(l & -> & Hl) Hn]|[Hl Hn]]; [left|right].
    + split; [exists (String a l); split; [done|by constructor]|cbn; lia].
    + split; [by constructor|cbn; lia].
  - destruct H as (-> & Hl & Hn). split_and!; [done|by constructor|cbn; lia].
Qed.

Lemma buffer_positive : (0 < buffer_size)%nat.
Proof. unfold buffer_size. lia. Qed.

Lemma is_slice_nonempty s : is_slice s → (0 < String.length s)%nat.
Proof.
  intros [[(l & -> & _) _]|[_ E]]; [rewrite string_length_app; cbn; lia|]. rewrite E. apply buffer_positive.
Qed.

Lemma read_slice_shorter s line rest : read_slice buffer_size s = (line, rest, true) → (String.length rest < String.length s)%nat.
Proof.
  intros [-> H]%read_slice_spec. apply is_slice_nonempty in H. rewrite string_length_app. lia.
Qed.

(** Every body has its slices. *)
Lemma slices_exist body : ∃ l, slices body l.
Proof.
  remember (String.length body) as n eqn:En. revert body En. induction (lt_wf n) as [n _ IH]. intros body ->.
  destruct (read_slice buffer_size body) as [[line rest] more] eqn:E. pose proof E as [Eb H]%read_slice_spec. destruct more.
  - destruct (IH (String.length rest) (read_slice_shorter _ _ _ E) rest eq_refl) as (l & init & final & -> & -> & Hi & Hf).
    exists (line :: init ++ [final]), (line :: init), final. split; [done|]. split; [done|]. split; [by constructor|done].
  - destruct H as (-> & Hl & Hn). exists [line], [], line. split_and!; try done.
Qed.
Lemma slices_after l rest : Forall is_slice l → ∃ after, slices (joined l +:+ rest) (l ++ after).
Proof.
  intros Hl. destruct (slices_exist rest) as (k & init & final & -> & -> & Hi & Hf). exists (init ++ [final]), (l ++ init), final.
  rewrite app_assoc. split; [done|]. split; [by rewrite <- app_assoc, (joined_app l)|]. split; [by apply Forall_app|done].
Qed.

(** ** Events *)

(** The data of an event: the texts of the lines of [data:]. *)
Inductive data_of : list string → list string → Prop :=
| data_none : data_of [] []
| data_line text lines data : data_of lines data → data_of (("data:" +:+ text) :: lines) (TrimSpace text :: data)
| data_other line lines data : (∀ text, line ≠ "data:" +:+ text) → data_of lines data → data_of (line :: lines) data.
Definition lines_event (lines : list string) (event : object) : Prop :=
  ∃ data, data_of lines data ∧ decodeJSONObject (String.concat nl data) = Some event.

Lemma data_lines_of lines event : decodeJSONObject (data_lines lines) = Some event → lines_event lines event.
Proof.
  unfold data_lines. intros H. exists (omap (fun line => TrimSpace <$> strip_prefix "data:" line) lines). split; [|done]. clear.
  induction lines as [|line lines IH]; [constructor|]. cbn -[strip_prefix]. destruct (strip_prefix "data:" line) as [text|] eqn:E; cbn -[strip_prefix].
  - apply strip_prefix_some in E as ->. by constructor.
  - apply data_other; [|exact IH]. intros text ->. by rewrite strip_prefix_app in E.
Qed.

(** An event of a stream: the slices between two blank ones, or up to the end. *)
Definition streamed_event (body : string) (event : object) : Prop :=
  ∃ before block last_slice after,
    slices body (before ++ (block ++ [last_slice]) ++ after)
    ∧ (before = [] ∨ ∃ s, last before = Some s ∧ blank s = true)
    ∧ Forall (fun s => blank s = false) block ∧ (blank last_slice = true ∨ after = [])
    ∧ lines_event (split_lines (drop_cr (joined (block ++ [last_slice])))) event.

(** The response that a terminal event carries, with its status. *)
Definition terminal_response (event response : object) : Prop :=
  ∃ members, field "response" event = Some (JObj members) ∧ members ≠ []
    ∧ ((field "type" event = Some (JStr "response.completed") ∧ response = with_status members "completed")
       ∨ (field "type" event = Some (JStr "response.incomplete") ∧ response = with_status members "incomplete"
          ∧ validateCompletion "openai.responses" response = None)).

Lemma event_response_some event response : event_response event = Some response → field "response" event = Some (JObj response) ∧ response ≠ [].
Proof.
  unfold event_response, at_key. destruct (field "response" event) as [[| | | | |[|m l]]|]; cbn; try done. by intros [= <-].
Qed.
Lemma string_field key o text : stringValue (at_key key o) = text → text ≠ "" → field key o = Some (JStr text).
Proof. unfold at_key. destruct (field key o) as [[]|]; cbn; try congruence. Qed.

(** An event before the terminal one leaves nothing behind. *)
Lemma apply_event_fresh event seen outcome :
  apply_event (MkSeen None None) event = (seen, outcome) →
  match outcome with
  | inl _ => True
  | inr (Continue | Delta _) => seen = MkSeen None None
  | inr Completed => ∃ response, seen = MkSeen (Some response) (Some response) ∧ terminal_response event response
  | inr (Ended state err) =>
      state ∈ ["incomplete"; "failed"] ∧
      (err = None → state = "incomplete" ∧ ∃ response, seen = MkSeen None (Some response) ∧ terminal_response event response)
  end.
Proof.
  unfold apply_event. destruct (String.eqb_spec (stringValue (at_key "type" event)) "response.output_text.delta"); [by intros [= <- <-]|].
  destruct (String.eqb_spec (stringValue (at_key "type" event)) "response.completed") as [Ec|].
  { destruct (event_response event) as [response|] eqn:Er; intros [= <- <-]; [|done]. apply event_response_some in Er as [Er Hn].
    eexists. split; [done|]. exists response. split; [done|]. split; [done|]. left. split; [by apply string_field|done]. }
  destruct (String.eqb_spec (stringValue (at_key "type" event)) "response.incomplete") as [Ei|].
  { destruct (event_response event) as [response|] eqn:Er; intros [= <- <-]; (split; [set_solver|]); intros Ev.
    - apply event_response_some in Er as [Er Hn]. split; [done|]. eexists. split; [done|]. exists response. split; [done|]. split; [done|].
      right. split; [by apply string_field|done].
    - exfalso. revert Ev. vm_compute. discriminate. }
  destruct (_ || _); intros [= <- <-]; [|done]. split; [set_solver|done].
Qed.

Section Reader.
Variable contexts : Contexts.
Variable started : Time.
Variable clock : Z → Time.

(** The bytes that the reader has counted. *)
Definition received (r : Reader) : Z := sd_ReceivedBytes (rd_diagnostics r).

Lemma process_spec r raw r' outcome :
  rd_seen r = MkSeen None None → process started clock r raw = (r', outcome) →
  received r' = received r ∧ 
  match outcome with
  | inl _ => True
  | inr false => rd_seen r' = MkSeen None None
  | inr true => sd_TerminalState (rd_diagnostics r') ∈ ["completed"; "incomplete"]
                ∧ ∃ event response, terminalOrObserved (rd_seen r') = Some response
                    ∧ lines_event (split_lines (drop_cr raw)) event ∧ terminal_response event response
  end.
Proof.
  intros Hf. unfold process. destruct (String.eqb raw ""); [by intros [= <- <-]|].
  destruct (not_an_event _); [by intros [= <- <-]|]. cbn zeta.
  destruct (decodeJSONObject _) as [event|] eqn:Ed; [|by intros [= <- <-]]. apply data_lines_of in Ed.
  set (r1 := r <| rd_diagnostics ::= _ |>). change (rd_seen r1) with (rd_seen r). rewrite Hf.
  destruct (apply_event (MkSeen None None) event) as [seen out] eqn:E. apply apply_event_fresh in E.
  destruct out as [err|[|text| |state err]]; [by intros [= <- <-]|..].
  - intros [= <- <-]. done.
  - intros [= <- <-]. split; [|done]. unfold received, count_delta. cbn. by destruct (String.eqb text "").
  - destruct E as (response & -> & Ht). intros [= <- <-]. split; [done|]. split; [cbn; set_solver|]. by exists event, response.
  - destruct E as [Hs He]. destruct err as [e|]; intros [= <- <-]; [done|]. split; [done|].
    destruct (He eq_refl) as (-> & response & -> & Ht). split; [cbn; set_solver|]. by exists event, response.
Qed.

(** What the reader may return for a body. *)
Definition stream_ok (maximum : Z) (body : string) (final : StreamEnd) : Prop :=
  let '(response, err, r) := final in
  received r ≤ maximum
  ∧ (err = None → sd_TerminalState (rd_diagnostics r) ∈ ["completed"; "incomplete"]
                  ∧ ∃ event answer, response = Some answer ∧ streamed_event body event ∧ terminal_response event answer).

Lemma missing_ok maximum body err r : received r ≤ maximum → stream_ok maximum body (missing err r).
Proof. by intros Hr. Qed.

Lemma settle_ok maximum body r raw :
  rd_seen r = MkSeen None None → received r ≤ maximum →
  (∀ event, lines_event (split_lines (drop_cr raw)) event → streamed_event body event) →
  match settle (process started clock r raw) with
  | inl final => stream_ok maximum body final
  | inr r' => rd_seen r' = MkSeen None None ∧ received r' ≤ maximum
  end.
Proof.
  intros Hf Hr He. destruct (process started clock r raw) as [r' outcome] eqn:E. apply process_spec in E as [Er Ho]; [|done].
  rewrite <- Er in Hr. destruct outcome as [err|[]]; cbn; [done| |done]. split; [done|]. intros _.
  destruct Ho as [Hs (event & response & Ht & Hl & Hp)]. split; [done|]. exists event, response. auto.
Qed.

(** What the reader has taken of a body: whole blocks, and the slices of the present
    one. *)
Definition taken (body rest : string) (r : Reader) : Prop :=
  ∃ before block, body = joined (before ++ block) +:+ rest ∧ Forall is_slice (before ++ block)
    ∧ (before = [] ∨ ∃ s, last before = Some s ∧ blank s = true) ∧ Forall (fun s => blank s = false) block ∧ rd_block r = joined block.

Lemma taken_event body rest r line rest' more event :
  taken body rest r → read_slice buffer_size rest = (line, rest', more) → blank line = true ∨ more = false →
  lines_event (split_lines (drop_cr (rd_block r +:+ line))) event → streamed_event body event.
Proof.
  intros (before & block & -> & Hsl & Hb & Hnb & Er) [-> H]%read_slice_spec Hend Hl.
  assert (rd_block r +:+ line = joined (block ++ [line])) as Eb by (rewrite Er, joined_app; by rewrite joined_one).
  rewrite Eb in Hl. destruct more.
  - destruct (slices_after ((before ++ block) ++ [line]) rest') as (after & Ha); [by apply Forall_app; split; [|constructor]|].
    exists before, block, line, after. split_and!; try done; [|by left; destruct Hend].
    replace (before ++ (block ++ [line]) ++ after) with (((before ++ block) ++ [line]) ++ after) by (by rewrite <- !app_assoc).
    by rewrite joined_app, string_app_assoc, joined_one in Ha.
  - destruct H as (-> & Hn & Hlen). exists before, block, line, []. split_and!; try done; [|by right].
    exists (before ++ block), line. rewrite app_nil_r, app_assoc. split_and!; try done. rewrite (joined_app _ [line]). done.
Qed.

Lemma taken_more body rest r line rest' :
  taken body rest r → read_slice buffer_size rest = (line, rest', true) → ∀ r',
  (blank line = false ∧ rd_block r' = rd_block r +:+ line) ∨ (blank line = true ∧ rd_block r' = "") → taken body rest' r'.
Proof.
  intros (before & block & -> & Hsl & Hb & Hnb & Er) [-> H]%read_slice_spec r' Hr.
  assert (∀ l, joined (l ++ [line]) +:+ rest' = joined l +:+ (line +:+ rest')) as Ej
    by (intros l; rewrite joined_app, string_app_assoc; by rewrite joined_one).
  destruct Hr as [[Hl E]|[Hl E]].
  - exists before, (block ++ [line]). rewrite app_assoc, Ej. split_and!; try done.
    + apply Forall_app. by split; [|constructor].
    + apply Forall_app. by split; [|constructor].
    + rewrite E, Er, joined_app. by rewrite joined_one.
  - exists ((before ++ block) ++ [line]), []. rewrite app_nil_r, Ej. split_and!; try done.
    + apply Forall_app. by split; [|constructor].
    + right. exists line. split; [by rewrite last_snoc|done].
Qed.

Lemma at_end_ok maximum body ending r :
  rd_seen r = MkSeen None None → received r ≤ maximum →
  (∀ event, rd_block r ≠ "" → lines_event (split_lines (drop_cr (rd_block r))) event → streamed_event body event) →
  stream_ok maximum body (at_end contexts started clock ending r).
Proof.
  intros Hf Hr He. unfold at_end. destruct ending; [by apply missing_ok|].
  destruct (String.eqb_spec (rd_block r) "") as [|Hne]; [by apply missing_ok|].
  pose proof (settle_ok maximum body r (rd_block r) Hf Hr (fun e => He e Hne)) as Hs. destruct (settle _) as [final|r']; [done|].
  apply missing_ok, Hs.
Qed.

Lemma read_loop_ok maximum whole ending fuel : ∀ turn body r,
  (String.length body < fuel)%nat → rd_seen r = MkSeen None None → received r ≤ maximum → taken whole body r →
  ∃ final, read_loop contexts started clock fuel turn maximum ending body r = Some final ∧ stream_ok maximum whole final.
Proof.
  induction fuel as [|fuel IH]; intros turn body r Hl Hf Hr Ht; [lia|]. cbn [read_loop].
  destruct (cx_parent contexts (AtRead turn)) as [e|]; [eexists; split; [done|by apply missing_ok]|].
  destruct (read_slice buffer_size body) as [[line rest] more] eqn:Es.
  set (r1 := r <| rd_diagnostics ::= _ |>).
  destruct (Z.ltb_spec maximum (sd_ReceivedBytes (rd_diagnostics r1))) as [|Hle].
  { eexists. split; [done|]. apply missing_ok. unfold received. cbn. lia. }
  set (r2 := r1 <| rd_block ::= _ |>).
  destruct (maximum <? slen (rd_block r2)).
  { eexists. split; [done|]. by apply missing_ok. }
  assert (rd_seen r2 = MkSeen None None ∧ received r2 ≤ maximum ∧ rd_block r2 = rd_block r +:+ line) as (Hf2 & Hr2 & Eb2) by done.
  pose proof (taken_event whole body r line rest more) as Hev. specialize (λ event, Hev event Ht Es). rewrite <- Eb2 in Hev.
  assert (∀ r', rd_seen r' = MkSeen None None → received r' ≤ maximum →
    (blank line = false ∧ rd_block r' = rd_block r2) ∨ (blank line = true ∧ rd_block r' = "") →
    ∃ final, (if more then read_loop contexts started clock fuel (S turn) maximum ending rest r' else Some (at_end contexts started clock ending r')) = Some final
             ∧ stream_ok maximum whole final) as Hgo.
  { intros r' Hf' Hr' Hb'. destruct more.
    - apply IH; try done; [apply read_slice_shorter in Es; lia|]. apply (taken_more _ _ _ _ _ Ht Es). by rewrite <- Eb2.
    - eexists. split; [done|]. apply at_end_ok; [done..|]. intros event Hne Hle'. destruct Hb' as [[_ E]|[_ E]]; [|done].
      rewrite E in Hle'. apply Hev; auto. }
  destruct (blank line) eqn:Ebl; [|by apply Hgo; auto].
  pose proof (settle_ok maximum whole r2 (rd_block r2) Hf2 Hr2 (fun e => Hev e (or_introl eq_refl))) as Hs.
  destruct (settle _) as [final|r3]; [by exists final|].
  destruct Hs as [Hf3 Hr3]. apply (Hgo (r3 <| rd_block := "" |>)); auto.
Qed.

Lemma reader_ok maximum body ending :
  ∃ final, collectResponsesEventStreamReader contexts started clock maximum body ending = Some final
    ∧ stream_ok (if maximum <=? 0 then defaultMaxResponseBytes else maximum) body final.
Proof.
  unfold collectResponsesEventStreamReader. cbn zeta. apply read_loop_ok; [lia|done| |].
  - unfold received, defaultMaxResponseBytes. cbn. destruct (Z.leb_spec maximum 0); lia.
  - exists [], []. split_and!; auto; constructor.
Qed.

End Reader.

(** ** Streams that were read to their end *)

(** An event of a body that is split at its empty lines. *)
Definition split_event (body : string) (event : object) : Prop :=
  ∃ block, block ∈ splitSSEBlocks body ∧ lines_event (map trim_cr (split_lines block)) event.
(** The response of an event, as it is or with a status. *)
Definition carried (event response : object) : Prop :=
  ∃ members, field "response" event = Some (JObj members) ∧ (response = members ∨ ∃ status, response = with_status members status).

Lemma with_status_carried event response status : carried event response → carried event (with_status response status).
Proof.
  intros (members & Hm & [->|[old ->]]); exists members; (split; [done|]); right; [by exists status|]. exists old.
  unfold with_status at 1. destruct (present "status" (with_status members old)) eqn:E; [done|]. exfalso. revert E.
  unfold with_status, present. destruct (field "status" members) eqn:Ef; [by rewrite Ef|]. by rewrite field_put_same.
Qed.

(** What a collector holds was carried by events of the body. *)
Definition seen_from (P : object → Prop) (seen : Seen) : Prop := ∀ o, sn_terminal seen = Some o ∨ sn_observed seen = Some o → P o.

Lemma apply_event_from (P : object → Prop) seen event :
  (∀ o, carried event o → P o) → (∀ o status, P o → P (with_status o status)) → seen_from P seen → seen_from P (apply_event seen event).1.
Proof.
  intros He Hs Hp. unfold apply_event.
  assert (∀ response, event_response event = Some response → P response) as Hr.
  { intros response [Hf _]%event_response_some. apply He. exists response. auto. }
  destruct (String.eqb _ "response.output_text.delta"); [done|]. destruct (String.eqb _ "response.completed").
  { destruct (event_response event) as [response|] eqn:Er; [|done]. intros o [[= <-]|[= <-]]; by apply Hs, Hr. }
  destruct (String.eqb _ "response.incomplete").
  - intros o [Ho|Ho]; [by apply Hp; left|]. cbn in Ho. destruct (event_response event) as [response|].
    + injection Ho as <-. by apply Hs, Hr.
    + cbn in Ho. destruct (sn_observed seen) as [old|] eqn:Eo; [|done]. injection Ho as <-. apply Hs, Hp. by right.
  - destruct (_ || _); [|done]. intros o [Ho|Ho]; [by apply Hp; left|]. cbn in Ho. destruct (event_response event) as [response|].
    + injection Ho as <-. by apply Hr.
    + apply Hp. by right.
Qed.

Lemma collect_blocks_from (P : object → Prop) blocks : ∀ seen response err,
  (∀ block event o, block ∈ blocks → lines_event (map trim_cr (split_lines block)) event → carried event o → P o) →
  (∀ o status, P o → P (with_status o status)) → seen_from P seen → collect_blocks seen blocks = (Some response, err) → P response.
Proof.
  induction blocks as [|block blocks IH]; intros seen response err He Hs Hp; cbn [collect_blocks].
  { destruct (sn_terminal seen) eqn:E; intros [= Ho _]; apply Hp; [left; congruence|by right]. }
  assert (∀ block event o, block ∈ blocks → lines_event (map trim_cr (split_lines block)) event → carried event o → P o) as He'
    by (intros b e o Hb; apply (He b e o); apply elem_of_cons; by right).
  destruct (not_an_event _); [by apply IH|]. destruct (decodeJSONObject _) as [event|] eqn:Ed; [|intros [= Ho _]; apply Hp; by right].
  apply data_lines_of in Ed. pose proof (apply_event_from P seen event) as Ha. destruct (apply_event seen event) as [seen' outcome]. cbn in Ha.
  specialize (Ha ltac:(intros o; apply (He block event o); [apply elem_of_cons; by left|done]) Hs Hp).
  destruct outcome as [e|[|text| |state e]]; first [by apply (IH seen') | intros [= Ho _]; apply Ha; by right].
Qed.

Lemma collect_from body response err :
  collectResponsesEventStream body = (Some response, err) → ∃ event, split_event body event ∧ carried event response.
Proof.
  apply (collect_blocks_from (fun o => ∃ event, split_event body event ∧ carried event o)).
  - intros block event o Hb Hl Hc. exists event. split; [by exists block|done].
  - intros o status (event & Hl & Hc). exists event. split; [done|by apply with_status_carried].
  - by intros o [?|?].
Qed.

(** ** Results *)

(** The object a body holds: the body itself, or the response of an event of its
    stream. *)
Definition answers (body : string) (response : object) : Prop :=
  decodeJSONObject body = Some response
  ∨ ∃ event, (streamed_event body event ∨ split_event body event) ∧ carried event response.

(** What the runtime may rely on in a success. *)
Definition success_ok (prepared : preparedRequest) `{Env} (body : string) (result : ProviderResult) : Prop :=
  ValidateSearchResult (pr_Search result) = Ok tt
  ∧ UsageWF (ledger_Usage (pr_Accounting result))
  ∧ (validateLedger (pr_Accounting result) = None ↔ fvalid (KnownSubtotalUSD (ledger_Cost (pr_Accounting result))) = true)
  ∧ ∃ response, answers body response ∧ (acceptedOutput (pr_Output result) = false → unaccepted_source prepared response result).

Definition outcome_ok `{Env} (prepared : preparedRequest) (body : string) (outcome : ProviderResult * option goerror) : Prop :=
  match outcome.2 with
  | Some _ => pr_Output outcome.1 = JNull ∧ pr_Search outcome.1 = None
  | None => success_ok prepared body outcome.1
  end.

Section Execution.
Context `{Env} `{EndpointEnv}.
Variable ParseTime : string → option Time.
Variable contexts : Contexts.
Variable started : Time.
Variable clock : Z → Time.
Variable random_id : nat → option string.
Variable maxResponseBytes : Z.
Variable now : Time.

Lemma decoded_ok prepared body response :
  rq_searchMode prepared ∈ [""; "native"; "jina"] → answers body response →
  outcome_ok prepared body (normalizeDecodedResponse random_id prepared response).
Proof.
  intros Hm Hb. destruct (normalizeDecodedResponse random_id prepared response) as [result err] eqn:E.
  apply normalizeDecodedResponse_cases in E as [Ha He]. unfold outcome_ok. cbn. destruct err as [e|]; [by destruct He as (? & ? & _)|].
  destruct He as (Hn & _ & Hs & Ho). split_and!; [|rewrite Ha; apply accounting_usage| |by exists response].
  - rewrite Hs. by apply normalizeSearch_valid.
  - destruct (normalizeResponseAccounting (rq_protocol prepared) response) as [ledger aerr] eqn:El. cbn in *. subst aerr. rewrite Ha.
    by eapply accounting_valid.
Qed.

(** The facts of a result that the router's bookkeeping does not touch. *)
Lemma outcome_ok_ext prepared body a b err :
  pr_Output a = pr_Output b → pr_Search a = pr_Search b → pr_Accounting a = pr_Accounting b → pr_AssistantText a = pr_AssistantText b →
  outcome_ok prepared body (a, err) → outcome_ok prepared body (b, err).
Proof. unfold outcome_ok, success_ok, unaccepted_source. cbn. intros -> -> -> ->. done. Qed.

Lemma decoded_result_ok prepared body response dispatched stream streamErr :
  rq_searchMode prepared ∈ [""; "native"; "jina"] → (streamErr = None → answers body response) →
  outcome_ok prepared body (decoded_result random_id prepared response dispatched stream streamErr).
Proof.
  intros Hm Hb. unfold decoded_result. pose proof (decoded_ok prepared body response Hm) as Ho.
  destruct (normalizeDecodedResponse random_id prepared response) as [result err].
  destruct streamErr; [by unfold outcome_ok|]. specialize (Ho (Hb eq_refl)). destruct err; [by unfold outcome_ok|].
  by eapply outcome_ok_ext; [..|exact Ho].
Qed.

Lemma failure_result_ok prepared whole body dispatched stream failure result e :
  providerResultForFailure prepared body dispatched stream failure = (result, e) → outcome_ok prepared whole (result, Some e).
Proof.
  unfold providerResultForFailure. destruct (decodeJSONObject body) as [decoded|]; [|by intros [= <- <-]].
  destruct (normalizeResponseAccounting _ decoded) as [ledger err]. by intros [= <- <-].
Qed.

Lemma body_failed_ok prepared whole response dispatched body err :
  rq_searchMode prepared ∈ [""; "native"; "jina"] →
  outcome_ok prepared whole (body_failed ParseTime contexts random_id now prepared response dispatched body err).
Proof.
  intros Hm. unfold body_failed. destruct (isCanceled _ || isDeadline _); [done|]. destruct err as [|cause]; [done|].
  destruct (negb (is_success_status _)).
  { destruct (providerResultForFailure _ _ _ _ _) as [result e] eqn:E. by eapply failure_result_ok. }
  destruct (if (_ : bool) then collectResponsesEventStream body else _) as [[streamResponse|] streamErr]; [by apply decoded_result_ok|].
  destruct (if (_ : bool) then normalizeResponsesStreamReadError cause else None) as [e|]; [done|]. destruct (decodeJSONObject body); [by apply decoded_result_ok|done].
Qed.

(** A success needs a status of success. *)
Lemma body_failed_fails prepared response dispatched body err :
  (body_failed ParseTime contexts random_id now prepared response dispatched body err).2 ≠ None.
Proof.
  unfold body_failed. destruct (isCanceled _ || isDeadline _); [done|]. destruct err as [|cause]; [done|].
  destruct (negb (is_success_status _)); [by destruct (providerResultForFailure _ _ _ _ _)|].
  assert (∀ decoded e, (decoded_result random_id prepared decoded dispatched (not_streaming body) (Some e)).2 ≠ None) as Hd.
  { intros decoded e. unfold decoded_result. by destruct (normalizeDecodedResponse _ _ _). }
  destruct (if (_ : bool) then collectResponsesEventStream body else _) as [[streamResponse|] streamErr]; [apply Hd|].
  destruct (if (_ : bool) then normalizeResponsesStreamReadError cause else None) as [e|]; [done|]. destruct (decodeJSONObject body); [apply Hd|done].
Qed.

Lemma normalizeResponse_ok prepared body :
  rq_searchMode prepared ∈ [""; "native"; "jina"] → outcome_ok prepared body (normalizeResponse random_id prepared body).
Proof. intros Hm. unfold normalizeResponse. destruct (decodeJSONObject body) eqn:E; [|done]. apply decoded_ok; [done|by left]. Qed.

Lemma body_read_ok prepared response dispatched body :
  rq_searchMode prepared ∈ [""; "native"; "jina"] →
  outcome_ok prepared body (body_read ParseTime random_id now prepared response dispatched body).1
  ∧ ((body_read ParseTime random_id now prepared response dispatched body).1.2 = None → is_success_status (hr_StatusCode response) = true).
Proof.
  intros Hm. unfold body_read. destruct (is_success_status _); cbn [negb].
  2: { destruct (providerResultForFailure _ _ _ _ _) as [result e] eqn:E. split; [by eapply failure_result_ok|done]. }
  split; [|done]. pose proof (normalizeResponse_ok prepared body Hm) as Hn.
  destruct (normalizeResponse random_id prepared body) as [result err]. cbn zeta.
  set (normal := (match err with Some _ => _ | None => _ end, err, _)).
  assert (outcome_ok prepared body normal.1) as Hnormal.
  { unfold normal. cbn. destruct err; [done|]. by eapply outcome_ok_ext; [..|exact Hn]. }
  destruct (_ && isEventStream _ _); [|done].
  destruct (collectResponsesEventStream body) as [[streamResponse|] streamErr] eqn:Ec.
  - cbn. apply decoded_result_ok; [done|]. intros ->. right. destruct (collect_from _ _ _ Ec) as (event & He & Hc). exists event. auto.
  - by destruct streamErr.
Qed.

Lemma readBounded_whole body ending maximum read : readBounded body ending maximum = (read, None) → read = body.
Proof.
  unfold readBounded. destruct (Z.ltb_spec maximum (slen (String.substring 0 (Z.to_nat (maximum + 1)) body))) as [|Hl]; [done|].
  destruct ending; [done|]. intros [= <-]. unfold slen in Hl.
  assert (∀ n s, (String.length (String.substring 0 n s) < n)%nat → String.substring 0 n s = s) as Hsub.
  { clear. induction n as [|n IH]; intros s Hs; [cbn in Hs; destruct s; cbn in Hs; lia|]. destruct s as [|a s]; [done|]. cbn in Hs |- *. f_equal. apply IH. lia. }
  apply Hsub. lia.
Qed.

Lemma respond_ok prepared response dispatched :
  rq_searchMode prepared ∈ [""; "native"; "jina"] →
  ∃ result err progress,
    respond ParseTime contexts started clock random_id maxResponseBytes now prepared response dispatched = Some (result, err, progress)
    ∧ outcome_ok prepared (hr_Body response) (result, err)
    ∧ (err = None → is_success_status (hr_StatusCode response) = true).
Proof.
  intros Hm. unfold respond. destruct (is_success_status (hr_StatusCode response) && _ && _) eqn:E.
  - destruct (reader_ok contexts started clock maxResponseBytes (hr_Body response) (hr_End response)) as ([[collected err] r] & -> & [_ Hs]).
    cbn [mbind option_bind]. destruct collected as [streamResponse|].
    + pose proof (decoded_result_ok prepared (hr_Body response) streamResponse dispatched (rd_diagnostics r) err Hm) as Ho.
      destruct (decoded_result random_id prepared streamResponse dispatched (rd_diagnostics r) err) as [result e].
      do 3 eexists. split; [done|]. split; [|intros _; bool_to_prop; done]. apply Ho. intros ->.
      destruct (Hs eq_refl) as (_ & event & answer & [= <-] & Hev & members & Hf & _ & Ht). right. exists event. split; [by left|].
      exists members. split; [done|]. right. destruct Ht as [(_ & ->)|(_ & -> & _)]; eauto.
    + do 3 eexists. split; [done|]. destruct err; [done|]. by destruct (Hs eq_refl) as (_ & event & body & ? & _).
  - destruct (readBounded _ _ _) as [body [err|]] eqn:Er.
    + pose proof (body_failed_ok prepared (hr_Body response) response dispatched body err Hm) as Ho.
      pose proof (body_failed_fails prepared response dispatched body err) as Hf.
      destruct (body_failed _ _ _ _ _ _ _ _ _) as [result e]. do 3 eexists. split; [done|]. split; [done|]. by intros ->.
    + apply readBounded_whole in Er as ->. destruct (body_read_ok prepared response dispatched (hr_Body response) Hm) as [Ho Hs].
      destruct (body_read _ _ _ _ _ _ _) as [[result e] progress]. by do 3 eexists.
Qed.

(** ** Executions *)

Variable URLString : URL → string.
Variable ParseFloatText : string → option float64.

Lemma search_mode_known connection call : search_mode connection call ∈ [""; "native"; "jina"].
Proof. unfold search_mode. repeat case_match; set_solver. Qed.

Lemma Prepare_core guard memo connection credential call request :
  Prepare URLString ParseFloatText guard memo connection credential call = Ok request →
  rr_core request = MkRequest (op_Protocol (rr_operation request)) (call_CallType call) (search_mode connection call) None.
Proof.
  unfold Prepare. intros Hp. rewrite check_then_ok in Hp. destruct Hp as [_ Hp].
  apply res_bind_ok in Hp as (built & _ & Hp). apply res_bind_ok in Hp as (addressed & _ & Hp).
  rewrite check_then_ok in Hp. destruct Hp as [_ Hp]. apply res_bind_ok in Hp as (headers & _ & Hp).
  by apply res_bind_ok in Hp as (timeout & _ & [= <-]).
Qed.

(** No credential is placed in the operation, its payload or its search: they are
    the same under any two credentials. *)
Theorem operation_ignores_credential guard memo connection call credential credential' request request' :
  Prepare URLString ParseFloatText guard memo connection credential call = Ok request →
  Prepare URLString ParseFloatText guard memo connection credential' call = Ok request' →
  rr_operation request = rr_operation request' ∧ rr_body request = rr_body request' ∧ rr_url request = rr_url request'
  ∧ rr_search request = rr_search request'.
Proof.
  unfold Prepare. intros H1 H2. rewrite check_then_ok in H1, H2. destruct H1 as [_ H1], H2 as [_ H2].
  apply res_bind_ok in H1 as (built & Hb & H1). rewrite Hb in H2. cbn [res_bind] in H2.
  apply res_bind_ok in H1 as (addressed & Ha & H1). rewrite Ha in H2. cbn [res_bind] in H2.
  rewrite check_then_ok in H1, H2. destruct H1 as [_ H1], H2 as [_ H2].
  apply res_bind_ok in H1 as (headers & _ & H1), H2 as (headers' & _ & H2).
  apply res_bind_ok in H1 as (timeout & _ & [= <-]), H2 as (timeout' & _ & [= <-]). done.
Qed.

(** C38: An execution of a prepared call always returns, whatever the search, the
    network and the provider answer: transport errors, truncated, oversized or
    malformed bodies, event streams that break off, and every status.  A failure
    hands over neither output nor search metadata.  A success comes from a response
    with a status of success, and is a result that the runtime's admission accepts:
    valid search metadata, a usage the accounting accepts, a ledger that is valid
    unless its cost overflowed, and an accepted output, unless the output is the
    value that the text of a structured call denotes, or a value that the provider
    parsed and that stands in the object of the body: the body itself, or the response
    of an event of its stream. *)
Theorem execution_returns_admissible guard memo connection credential call request searcher exchange :
  Prepare URLString ParseFloatText guard memo connection credential call = Ok request →
  ∃ result err progress,
    Execute ParseTime contexts started clock random_id maxResponseBytes now (rr_operation request) request searcher exchange
    = Some (result, err, progress)
    ∧ match err with
      | Some _ => pr_Output result = JNull ∧ pr_Search result = None
      | None => ∃ body response, ex_outcome (exchange body) = inr response ∧ is_success_status (hr_StatusCode response) = true
                ∧ success_ok (rr_core request) (hr_Body response) result
      end.
Proof.
  intros Hp%Prepare_core. unfold Execute. rewrite !String.eqb_refl. cbn [negb orb].
  destruct (search_body contexts request searcher) as [[body found]|e]; [|by do 3 eexists].
  destruct (ex_outcome (exchange body)) as [e|response] eqn:Ex; [by do 3 eexists|].
  set (prepared := (rr_core request) <| rq_webSearch := found |>).
  destruct (respond_ok prepared response (ex_dispatched (exchange body))) as (result & err & progress & E & Ho & Hs).
  { unfold prepared. rewrite Hp. apply search_mode_known. }
  cbn zeta. fold prepared. rewrite E. cbn [mbind option_bind]. do 3 eexists. split; [done|].
  destruct err as [e|]; [by destruct Ho|]. exists body, response. split; [done|]. split; [by apply Hs|exact Ho].
Qed.
End Execution.

(** ** A prepared call *)

#[export] Instance router_demo_env : EndpointEnv := {|
  ParseURL raw := Some (MkParsedURL "https" "" false "" "api.example" "" "" "/v1");
  ParseAddr text := None;
  AddrString a := "address";
|}.

Definition router_call : Call := (script_call "text") <| call_Messages := [text_message "user" "who?"] |>.
Definition router_connection : Connection := script_connection <| conn_APIInferenceType := "chat-completions" |>.
Definition router_request : res goerror RouterRequest :=
  Prepare (fun _ => "https://api.example/v1") (fun _ => None) (MkGuard [] [] []) [] router_connection script_credential router_call.

(** The exchange of the sample response: the text of a chat completion. *)
Definition router_exchange (status : Z) (body : object) : HttpExchange := MkExchange true (Some 5) (inr (MkResponse status [] sample_body None)).
Definition quiet_contexts : Contexts := MkContexts (fun _ => None) (fun _ => None).

Lemma execution_returns_admissible_witness :
  ∃ request result err progress,
    router_request = Ok request
    ∧ Execute (fun _ => None) quiet_contexts 0 (fun n => n) (fun _ => None) 4096 0 (rr_operation request) request None (router_exchange 200)
      = Some (result, err, progress)
    ∧ pr_Output result = JStr "the answer" ∧ err = None ∧ success_ok (rr_core request) sample_body result.
Proof.
  destruct router_request as [request|] eqn:E; [|vm_compute in E; discriminate].
  destruct (execution_returns_admissible (fun _ => None) quiet_contexts 0 (fun n => n) (fun _ => None) 4096 0
    (fun _ => "https://api.example/v1") (fun _ => None) (MkGuard [] [] []) [] router_connection script_credential router_call request
    None (router_exchange 200) E) as (result & err & progress & Ex & Hs).
  exists request, result, err, progress. split; [reflexivity|]. split; [exact Ex|].
  assert (Some request = match router_request with Ok r => Some r | Err _ => None end) as Er by (rewrite E; reflexivity).
  vm_compute in Er. injection Er as ->. vm_compute in Ex. injection Ex as <- <- <-.
  split; [reflexivity|]. split; [reflexivity|]. destruct Hs as (body & response & [= <-] & _ & Hs). exact Hs.
Defined.

(** ** A line wider than the buffer *)

Fixpoint spaces (n : nat) : string := match n with O => EmptyString | S n => String " " (spaces n) end.

(** A completed response that holds a long run of spaces, as one line of [data:]. *)
Definition wide_event : string :=
  let quoted s := String quote_char s +:+ String quote_char EmptyString in
  "data: {" +:+ quoted "type" +:+ ":" +:+ quoted "response.completed" +:+ "," +:+ quoted "response" +:+ ":{"
  +:+ quoted "status" +:+ ":" +:+ quoted "completed" +:+ "," +:+ quoted "text" +:+ ":" +:+ quoted (spaces (Z.to_nat 66000))
  +:+ "}}" +:+ nl +:+ nl.

Definition stream_code (final : option StreamEnd) : option string :=
  '(_, err, _) ← final; e ← err; pe ← asProvider e; Some (pe_Code pe.2).

(** The slice of a line that fills the buffer is taken for a blank line when it is
    white space, and the event is cut there: a well-formed stream is refused. *)
Theorem wide_line_misread :
  stream_code (collectResponsesEventStreamReader quiet_contexts 0 (fun n => n) 1048576 wide_event None) = Some "MALFORMED_STREAM".
Proof. vm_compute. reflexivity. Qed.
