(* ===== verification/RecoveryPlan.v ===== *)
(** * RecoveryPlan: staged recovery of structured calls

    Models [src/internal/runtime/recovery_execute.go]: a structured call with an
    explicit recovery plan runs its generation, and on invalid output advances
    through the repair stages and the rerun of the plan, under one global budget
    of attempts shared with transport retries.  [plan_iteration] is one turn of
    the loop of [executeRecoveryPlan]; [plan_loop] bounds the turns by fuel, and
    the theorems show that [MaxAttempts + 1] turns always suffice. *)
From Corelib Require Import SpecFloat.
From S2P Require Import Prelude Float64 Json Retry Accounting CacheKey Runtime Scripted.

Open Scope string_scope.
Open Scope list_scope.
Open Scope Z_scope.

Definition stageOriginalGenerate : string := "original.generate".
Definition stageOriginalRepairInitial : string := "original.repair.initial".
Definition stageOriginalRepairEscalate : string := "original.repair.escalation".
Definition stageRerunGenerate : string := "rerun.generate".
Definition stageRerunRepairInitial : string := "rerun.repair.initial".
Definition stageRerunRepairEscalate : string := "rerun.repair.escalation".

Record plannedWork := MkWork {
  wk_call : Call;
  wk_connection : Connection;
  wk_credential : Credential;
  wk_generationBinding : ResolvedConnection;
  wk_target : ExecutionTarget;
  wk_prepared : PreparedOperation;
  wk_generationCall : Call;
  wk_branch : string;
  wk_stage : string;
  wk_history : list RepairHistoryEntry;
  wk_generationTarget : ExecutionTarget;
  wk_generationHash : string;
}.

Definition zeroOrigin : Origin := MkOrigin "" "" "" "" "" "" "" "".
Definition zeroTarget : ExecutionTarget := MkExecTarget "" "" "" "" "".

(** ** The order of the stages *)

Definition has {A : Type} (o : option A) : bool := match o with Some _ => true | None => false end.

Definition nextPlannedStage (policy : Policy) (branch stage : string) : string :=
  let repair := has (JSONRepair policy) in
  let escalation := match JSONRepair policy with Some r => has (rp_Escalation r) | None => false end in
  let rerun := has (Rerun policy) in
  if String.eqb branch "original" then
    if String.eqb stage stageOriginalGenerate then
      if repair then stageOriginalRepairInitial else if rerun then stageRerunGenerate else ""
    else if String.eqb stage stageOriginalRepairInitial then
      if repair && escalation then stageOriginalRepairEscalate else if rerun then stageRerunGenerate else ""
    else if String.eqb stage stageOriginalRepairEscalate then
      if rerun then stageRerunGenerate else ""
    else ""
  else
    match Rerun policy with
    | None => ""
    | Some r =>
        match rr_JSONRepair r with
        | None => ""
        | Some rr =>
            if String.eqb stage stageRerunGenerate then stageRerunRepairInitial
            else if String.eqb stage stageRerunRepairInitial then
              if has (rp_Escalation rr) then stageRerunRepairEscalate else ""
            else ""
        end
    end.

(** The target of a repair stage; [None] is a nil dereference in the source,
    which the order of the stages rules out. *)
Definition repairTarget (policy : Policy) (branch next : string) : option RecoveryTarget :=
  let pick plan initial :=
    match plan with
    | Some p => if String.eqb next initial then Some (rp_Initial p) else rp_Escalation p
    | None => None
    end in
  if String.eqb branch "original" then pick (JSONRepair policy) stageOriginalRepairInitial
  else match Rerun policy with
       | Some r => pick (rr_JSONRepair r) stageRerunRepairInitial
       | None => None
       end.

Definition triggerAttempt (history : list RepairHistoryEntry) : Z :=
  match history with [] => 0 | e :: _ => rh_Attempt e end.

(** [strings.ToValidUTF8(s, "")]: the bytes that are not UTF-8 removed. *)
Fixpoint to_valid_from (fuel : nat) (s : string) : string :=
  match fuel with
  | O => EmptyString
  | S fuel =>
      match s with
      | EmptyString => EmptyString
      | String a r =>
          match rune_width s with
          | O => to_valid_from fuel r
          | w => String.substring 0 w s +:+ to_valid_from fuel (String.substring w (String.length s - w) s)
          end
      end
  end.

Definition boundedError (err : goerror) : string :=
  let text := errorText err in
  let value := to_valid_from (String.length text) text in
  if 8192 <? slen value then String.substring 0 (Z.to_nat 8192) value else value.

Definition exhaustedRecoveryError (reason : string) : goerror :=
  EProvider (Some (EText ("recovery attempt budget exhausted: " +:+ reason)))
    (MkProviderError CategoryOther "RECOVERY_ATTEMPTS_EXHAUSTED" "" "" "" 0 0).

Definition validateRecoveryTargets (policy : Policy) : res goerror unit :=
  let check role target allowGeneration := target_Validate target ("recoveryPolicy." +:+ role) allowGeneration in
  let check_repair role (r : option RepairPlan) :=
    match r with
    | None => Ok tt
    | Some r =>
        let? _ := check (role +:+ ".initial") (rp_Initial r) true in
        match rp_Escalation r with
        | Some e => check (role +:+ ".escalation") e true
        | None => Ok tt
        end
    end in
  let? _ := check_repair "jsonRepair" (JSONRepair policy) in
  match Rerun policy with
  | None => Ok tt
  | Some r =>
      let? _ := check "rerun.target" (rr_Target r) false in
      check_repair "rerun.jsonRepair" (rr_JSONRepair r)
  end.

Definition lookup_connection (id : string) (l : list (string * ResolvedConnection)) : option ResolvedConnection :=
  snd <$> List.find (fun kv => String.eqb kv.1 id) l.

Section Plan.
Context `{Env}.

(** ** Preparing a stage *)

Definition preparePlannedWork (connection : Connection) (credential : Credential) (baseCall : Call)
    (branch stage : string) (target : option RecoveryTarget) (repair : option RepairRequest)
  : M (res goerror plannedWork) :=
  let call := baseCall <| call_Repair := repair |> in
  let resolved : res goerror (Connection * Credential * Call) :=
    match target with
    | Some t =>
        if String.eqb (rt_Source t) "model" then
          let? binding :=
            if negb (String.eqb (rt_ConnectionID t) "") then
              match lookup_connection (rt_ConnectionID t) (call_Connections baseCall) with
              | Some b => Ok (rc_Connection b, rc_Credential b)
              | None => Err (EText "runtime recovery upstream is not configured")
              end
            else Ok (connection, credential) in
          let call := call <| call_ProviderOptions := rt_ProviderOptions t |>
                           <| call_ReasoningEffort := rt_ReasoningEffort t |> in
          let call := if negb (String.eqb (rt_ModelID t) "") then call <| call_ModelID := rt_ModelID t |> else call in
          Ok (binding.1, binding.2, call)
        else Ok (connection, credential, call)
    | None => Ok (connection, credential, call)
    end in
  match resolved with
  | Err e => ret (Err e)
  | Ok (connection, credential, call) =>
      let! prepared := env_Prepare connection credential call in
      match prepared with
      | Err e => ret (Err e)
      | Ok prepared =>
          let prepared := withCacheDomain prepared connection in
          ret (Ok {| wk_call := call; wk_connection := connection; wk_credential := credential;
                     wk_generationBinding := MkResolved connection credential;
                     wk_target := targetFromPrepared connection prepared;
                     wk_prepared := prepared;
                     wk_generationCall := call <| call_Repair := None |>;
                     wk_branch := branch; wk_stage := stage;
                     wk_history := match repair with Some r => rq_History r | None => [] end;
                     wk_generationTarget := zeroTarget; wk_generationHash := "" |})
      end
  end.

(** [Ok None] is the source's [nil, nil]: the plan has no further stage. *)
Definition prepareNextPlannedWork (selectedConnection : Connection) (credential : Credential) (baseCall : Call)
    (current : plannedWork) (history : list RepairHistoryEntry) (policy : Policy) (attempt : Z)
  : M (res goerror (option plannedWork)) :=
  let next := nextPlannedStage policy (wk_branch current) (wk_stage current) in
  if String.eqb next "" then ret (Ok None)
  else if String.eqb next stageRerunGenerate then
    match Rerun policy with
    | None => ret (Err (EText "nil pointer dereference"))
    | Some rerun =>
        let call := baseCall <| call_Repair := None |> in
        let! work := preparePlannedWork selectedConnection credential call "rerun" next (Some (rr_Target rerun)) None in
        ret match work with Ok work => Ok (Some work) | Err e => Err e end
    end
  else
    match repairTarget policy (wk_branch current) next with
    | None => ret (Err (EText "nil pointer dereference"))
    | Some target =>
        let isGeneration := String.eqb (rt_Source target) "generation" in
        let call := if isGeneration then (wk_generationCall current) <| call_WebSearch := false |>
                    else baseCall <| call_WebSearch := false |> in
        let connection := if isGeneration then rc_Connection (wk_generationBinding current) else selectedConnection in
        let credential := if isGeneration then rc_Credential (wk_generationBinding current) else credential in
        let repair := {| rq_Attempt := attempt + 1; rq_MaxAttempts := MaxAttempts policy; rq_Stage := next;
                         rq_Branch := wk_branch current; rq_TargetSchema := call_Schema baseCall;
                         rq_History := history |} in
        let! work := preparePlannedWork connection credential (call <| call_Repair := Some repair |>)
                       (wk_branch current) next (Some target) (Some repair) in
        ret match work with
            | Err e => Err e
            | Ok work =>
                Ok (Some (work <| wk_generationHash := wk_generationHash current |>
                               <| wk_generationTarget := wk_generationTarget current |>
                               <| wk_generationCall := wk_generationCall current |>
                               <| wk_generationBinding := wk_generationBinding current |>))
            end
    end.

(** ** The loop *)

Record PlanState := MkPlanState {
  pl_record : CallRecord;
  pl_work : plannedWork;
  pl_attempt : Z;
  pl_acc : ProviderAccumulator;
  pl_lastStage : string;
  pl_lastAttempt : Z;
  pl_seq : Z;
}.

(** A [return record, err]: the work and the progress counter the deferred
    function sees. *)
Record PlanExit := MkPlanExit {
  px_record : CallRecord;
  px_err : option goerror;
  px_work : option plannedWork;
  px_seq : Z;
}.

Variable connection : Connection.
Variable credential : Credential.
Variable call : Call.
Variable baseCall : Call.
Variable policy : Policy.
Variable cacheMode : Mode.
Variable cacheVersion : string.
Variable callID : string.
Variable traceID : string.
Variable startedAt : Time.

(** The closure [emit]: nothing without a progress callback or a work. *)
Definition emit (work : option plannedWork) (record : CallRecord) (activeStream : option StreamDiagnostics)
    (eventType : string) (attempt : Z) (terminal : bool) (seq : Z) : M Z :=
  match work with
  | None => ret seq
  | Some work =>
      if negb (call_Progress baseCall) then ret seq
      else
        let seq := (seq + 1) mod 2 ^ 64 in
        let! event := buildProgressSnapshot startedAt record activeStream
          (MkProgress seq (RunID (call_Context baseCall)) callID traceID eventType (wk_stage work) (wk_branch work)
             (conn_ID (wk_connection work)) (call_ReasoningEffort (wk_call work)) attempt 0 0 0 None 0 0 0 0 0 ""
             terminal (MaxAttempts policy) None zeroOrigin [] None) in
        fun w => (env_Progress event w, seq)
  end.

Definition target_of (work : plannedWork) : ExecutionTarget := targetFromPrepared (wk_connection work) (wk_prepared work).

Definition has_stream (s : StreamDiagnostics) : bool :=
  (0 <? sd_ReceivedBytes s) || (0 <? sd_EventCount s) || (0 <? sd_OutputBytes s)
  || (0 <? sd_OutputCodePoints s) || negb (String.eqb (sd_TerminalState s) "").

(** Accounting of an attempt's result: the cost is resolved, the accumulator
    observes the ledger, and an accounting error replaces the failure. *)
Definition accountAttempt (conn : Connection) (acc : ProviderAccumulator) (result : ProviderResult)
    (failure : option goerror) : ProviderResult * ProviderAccumulator * option goerror :=
  let result := result <| pr_Accounting ::= normalizedLedger |> in
  let '(result, failure) :=
    if pr_ProviderDispatched result then
      match resolveAttemptCost (pr_Accounting result) conn with
      | Err _ => (result, combineAccountingFailure failure)
      | Ok cost => (result <| pr_Accounting ::= fun l => l <| ledger_Cost := cost |> |>, failure)
      end
    else (result, failure) in
  let '(acc, accountingErr) := Observe acc (pr_ProviderDispatched result) (pr_Accounting result) in
  (result, acc, if has accountingErr then combineAccountingFailure failure else failure).

(** The stream totals of a result added to the diagnostics. *)
Definition addStream (s : StreamDiagnostics) (d : Diagnostics) : Diagnostics :=
  d <| dg_ReceivedBytes ::= fun v => wrap64 (v + sd_ReceivedBytes s) |>
    <| dg_EventCount ::= fun v => wrap64 (v + sd_EventCount s) |>
    <| dg_OutputBytes ::= fun v => wrap64 (v + sd_OutputBytes s) |>
    <| dg_OutputCodePoints ::= fun v => wrap64 (v + sd_OutputCodePoints s) |>.

(** Admission of a result without failure: a validator rejection of a
    structured output is the semantic failure that advances the plan. *)
Definition admitAttempt (work : plannedWork) (result : ProviderResult) (record : CallRecord) (previousOutput : string)
  : M (CallRecord * option goerror) :=
  let! admissionErr := admitResult result (call_CallType (wk_call work))
    (validateStructuredValue (call_Observer (wk_call work)) (wk_connection work) (has (call_Repair (wk_call work)))
       (call_ValidateStructured (wk_call work))) in
  match admissionErr with
  | None => ret (record, None)
  | Some err =>
      let failure :=
        if String.eqb (call_CallType (wk_call work)) "structured" && negb (has (asProvider err))
        then EProvider (Some err) (MkProviderError CategoryParse "STRUCTURED_SCHEMA" "" "" "" 0 0)
        else err in
      ret (if negb (String.eqb previousOutput "") then captureParseFailureResponse record previousOutput else record,
           Some failure)
  end.

Definition attemptRecordOf (work : plannedWork) (attempt : Z) (result : ProviderResult) (c : Classification)
    (retryable : bool) (started finished ended : Time) (lastStage : string) (lastAttempt : Z) : AttemptRecord :=
  {| at_Number := attempt; at_ConnectionID := conn_ID (wk_connection work); at_Target := target_of work;
     at_ProviderUsed := pr_ProviderDispatched result; at_Category := cl_Category c; at_Status := cl_Status c;
     at_Retryable := retryable; at_Delay := 0; at_Duration := Z.max 0 (Sub ended started);
     at_Repair := has (call_Repair (wk_call work)); at_Code := cl_Code c; at_Type := cl_Type c;
     at_ProviderRequestID := cl_ProviderRequestID c; at_Stage := wk_stage work; at_Branch := wk_branch work;
     at_TriggerAttempt := triggerAttempt (wk_history work); at_InputAttempts := map rh_Attempt (wk_history work);
     at_TransportRetryOf := if String.eqb lastStage (wk_stage work) then lastAttempt else 0;
     at_StartedAt := Some started; at_FinishedAt := Some finished;
     at_ReasoningEffort := call_ReasoningEffort (wk_call work); at_DispatchObserved := pr_ProviderDispatched result;
     at_Stream := if has_stream (pr_Stream result) then Some (pr_Stream result) else None;
     at_WaitDiagnostics := None |}.

(** What one attempt leaves behind for the decisions that follow it. *)
Record AttemptOutcome := MkOutcome {
  ao_state : PlanState;
  ao_result : ProviderResult;
  ao_failure : option goerror;
  ao_classification : Classification;
  ao_previousOutput : string;
}.

(** From [attempt++] to [endAttempt(failure)]. *)
Definition plan_attempt (st : PlanState) : M AttemptOutcome :=
  let work := pl_work st in
  let attempt := pl_attempt st + 1 in
  let observer := call_Observer call in
  let! started := Now in
  let! _ := observe observer (StartAttempt (target_of work) (call_CallType (wk_call work)) attempt) in
  let! _ := observe observer (StartProvider (target_of work) (call_CallType (wk_call work))) in
  let! executed := fun w =>
    runExec (fun snapshot seq => emit (Some work) (pl_record st) (Some snapshot) "run.progress" attempt false seq)
      (env_Execute (wk_prepared work) w) (pl_seq st) in
  let '(seq, result, failure) := executed in
  let record := (pl_record st) <| cr_AssistantText := pr_AssistantText result |> in
  let! finished := Now in
  let record := if has (pr_Search result) then record <| cr_Search := pr_Search result |> else record in
  let record := record <| cr_Diagnostics ::= addStream (pr_Stream result) |> in
  let '(result, acc, failure) := accountAttempt (wk_connection work) (pl_acc st) result failure in
  let record := record <| cr_Accounting ::= fun a => a <| acct_Provider := accumulator_Ledger acc |> |> in
  let previousOutput := encodeRepairOutput (pr_Output result) in
  let! admitted :=
    match failure with
    | None => admitAttempt work result record previousOutput
    | Some _ => ret (record, failure)
    end in
  let '(record, failure) := admitted in
  let '(record, previousOutput) :=
    match failure with
    | Some err => captureProviderParseFailure record err previousOutput
    | None => (record, previousOutput)
    end in
  let! _ := observe observer (FinishProvider (pr_ProviderDispatched result) failure) in
  let c := Classify failure policy in
  let semanticParse := has failure && String.eqb (cl_Category c) CategoryParse in
  let nextSemantic := semanticParse
    && negb (String.eqb (nextPlannedStage policy (wk_branch work) (wk_stage work)) "") in
  let transportRetry := negb semanticParse && cl_Retryable c in
  let retryable := if nextSemantic || transportRetry then true else cl_Retryable c in
  let! ended := Now in
  let attemptRecord := attemptRecordOf work attempt result c retryable started finished ended
                         (pl_lastStage st) (pl_lastAttempt st) in
  let record := record <| cr_Attempts ::= fun l => l ++ [attemptRecord] |> in
  let! seq := emit (Some work) record None "run.progress" attempt false seq in
  let! _ := observe observer (FinishAttempt failure) in
  ret {| ao_state := {| pl_record := record; pl_work := work; pl_attempt := attempt; pl_acc := acc;
                        pl_lastStage := wk_stage work; pl_lastAttempt := attempt; pl_seq := seq |};
         ao_result := result; ao_failure := failure;
         ao_classification := c <| cl_Retryable := retryable |>;
         ao_previousOutput := previousOutput |}.

Definition exit_with (record : CallRecord) (err : option goerror) (st : PlanState) : PlanExit :=
  {| px_record := record; px_err := err; px_work := Some (pl_work st); px_seq := pl_seq st |}.

(** A successful attempt: the result is committed and written to the cache. *)
Definition plan_succeed (o : AttemptOutcome) : M PlanExit :=
  let st := ao_state o in
  let work := pl_work st in
  let result := ao_result o in
  let record := (pl_record st) <| cr_Output := pr_Output result |> in
  let record := if has (pr_Search result) then record <| cr_Search := pr_Search result |> else record in
  let record := record <| cr_Accounting ::= fun a => a <| acct_Result := pr_Accounting result |> |> in
  let producer := target_of work in
  let record := record <| cr_ResultSource := MkResultSource ResultSourceProvider (pl_attempt st) (Some producer) |> in
  if negb (String.eqb cacheMode ModeOff) then
    let cacheResult := if has (pr_Search result) then result else result <| pr_Search := cr_Search record |> in
    let! _ := observe (call_Observer call) (StartCache "write") in
    let! cacheErr := env_CacheSet (wk_generationHash work) cacheVersion
      {| ca_ProviderResult := cacheResult; ca_Producer := producer; ca_GenerationTarget := wk_generationTarget work;
         ca_CompletedBy := if has (call_Repair (wk_call work)) then "repair" else "generation" |} in
    match cacheErr with
    | Some err =>
        let record := record <| cr_Cache ::= fun f => f <| cf_Status := "write_failed" |> |> in
        let! _ := observe (call_Observer call) (FinishCache (cf_Status (cr_Cache record)) (Some err)) in
        ret (exit_with record None st)
    | None =>
        let! _ := observe (call_Observer call) (FinishCache (cf_Status (cr_Cache record)) None) in
        let record := record <| cr_Cache ::= fun f => f <| cf_Written := true |> |> <| cr_StopReason := "succeeded" |> in
        ret (exit_with record None st)
    end
  else ret (exit_with (record <| cr_StopReason := "succeeded" |>) None st).

(** A cached result committed to the record, for the given branch. *)
Definition serve_cached (record : CallRecord) (cached : CachedResult) (branch : string) (target : ExecutionTarget)
    (stage : string) : CallRecord :=
  let result := ca_ProviderResult cached in
  let record := record <| cr_Output := pr_Output result |> <| cr_Search := pr_Search result |>
                       <| cr_AssistantText := pr_AssistantText result |>
                       <| cr_Accounting ::= fun a => a <| acct_Result := pr_Accounting result |> |>
                       <| cr_ResultSource := MkResultSource ResultSourceCache 0 (Some (ca_Producer cached)) |>
                       <| cr_Cache ::= fun f => f <| cf_Status := "hit" |> <| cf_Served := true |> |> in
  record <| cr_Diagnostics ::= fun d =>
             d <| dg_BranchCaches ::= fun l => l ++ [MkBranchCache branch target (cr_Cache record)] |>
               <| dg_Stage := stage |> <| dg_Branch := branch |> |>
         <| cr_StopReason := "succeeded" |>.

Definition add_branch_cache (record : CallRecord) (branch : string) (target : ExecutionTarget) : CallRecord :=
  if negb (String.eqb (cf_Status (cr_Cache record)) "hit")
  then record <| cr_Diagnostics ::= fun d =>
                  d <| dg_BranchCaches ::= fun l => l ++ [MkBranchCache branch target (cr_Cache record)] |> |>
  else record.

(** Entering the rerun branch: its own generation identity and cache lookup. *)
Definition enter_branch (st : PlanState) (next : plannedWork) : M (PlanState + PlanExit) :=
  let next := next <| wk_generationTarget := target_of next |> in
  let record := (pl_record st) <| cr_Branch := wk_branch next |> <| cr_GenerationTarget := wk_generationTarget next |> in
  if String.eqb cacheMode ModeOff then ret (inl (st <| pl_record := record |> <| pl_work := next |>))
  else
    match Hash env_sha256_hex (po_Operation (wk_prepared next)) cacheVersion with
    | Err e => ret (inr (exit_with record (Some (cacheKeyError e)) st))
    | Ok hash =>
        let next := next <| wk_generationHash := hash |> in
        let record := record <| cr_Cache ::= fun f =>
                        f <| cf_OperationHash := hash |> <| cf_RerunOperationHash := hash |> |> in
        let continue record :=
          ret (inl (st <| pl_record := add_branch_cache record "rerun" (wk_generationTarget next) |> <| pl_work := next |>)) in
        if String.eqb cacheMode ModeCache then
          let! got := env_CacheGet hash cacheVersion in
          match got with
          | Err cacheErr => ret (inr (exit_with record (Some cacheErr) st))
          | Ok (Some cached) =>
              let! admission := admitPlannedCachedResult (wk_connection next) (wk_generationTarget next) cached baseCall in
              match admission with
              | Some _ => ret (inr (exit_with record (Some ECacheIntegrity) st))
              | None =>
                  ret (inr (exit_with (serve_cached record cached "rerun" (wk_generationTarget next) (wk_stage next)) None st))
              end
          | Ok None => continue record
          end
        else continue record
    end.

(** Invalid structured output: advance to the next stage of the plan. *)
Definition plan_advance (o : AttemptOutcome) (failure : goerror) : M (PlanState + PlanExit) :=
  let st := ao_state o in
  let work := pl_work st in
  let stop reason err := inr (exit_with ((pl_record st) <| cr_StopReason := reason |>) (Some err) st) in
  if MaxAttempts policy <=? pl_attempt st then ret (stop "attempts_exhausted" failure)
  else
    let entry := MkHistory (wk_stage work) (pl_attempt st) (ao_previousOutput o) (boundedError failure) in
    let! next := prepareNextPlannedWork connection credential baseCall work (wk_history work ++ [entry]) policy (pl_attempt st) in
    match next with
    | Err nextErr => ret (stop "configuration_error" nextErr)
    | Ok None => ret (stop "recovery_exhausted" failure)
    | Ok (Some next) =>
        if negb (String.eqb (wk_branch next) (wk_branch work)) then enter_branch st next
        else ret (inl (st <| pl_work := next |>))
    end.

(** A transport failure: wait and run the same work again. *)
Definition plan_retry (o : AttemptOutcome) (failure : goerror) : M (PlanState + PlanExit) :=
  let st := ao_state o in
  let work := pl_work st in
  let c := ao_classification o in
  let stop reason err := inr (exit_with ((pl_record st) <| cr_StopReason := reason |>) (Some err) st) in
  if MaxAttempts policy <=? pl_attempt st then ret (stop "attempts_exhausted" failure)
  else
    let! random := env_Random in
    let delay := Delay (pl_attempt st) (cl_RetryAfter c) (pol_Backoff policy) random in
    let! late := match env_Deadline with
                 | Some deadline => let! now := Now in ret (Sub deadline now <=? delay)
                 | None => ret false
                 end in
    if late then ret (stop "deadline_exceeded" EDeadlineExceeded)
    else
      let record := (pl_record st) <| cr_Attempts ::= map_last (fun a => a <| at_Delay := delay |>) |> in
      let! waitStarted := Now in
      let! waitErr := waitForRetry (call_Observer call) (target_of work) (call_CallType (wk_call work)) c delay in
      let! waitEnded := Now in
      let actualWait := Z.max 0 (Sub waitEnded waitStarted) in
      let record := record <| cr_Diagnostics ::= fun d => d <| dg_TotalActualWait ::= fun t => wrap64 (t + actualWait) |> |>
                           <| cr_Attempts ::= map_last (fun a => a <| at_WaitDiagnostics :=
                                Some (MkWait (cl_Category c) delay actualWait (cl_RetryAfter c)) |>) |> in
      match waitErr with
      | Some err => ret (inr (exit_with (record <| cr_StopReason := stopReasonFor (Some err) |>) (Some err) st))
      | None => ret (inl (st <| pl_record := record |>))
      end.

(** One turn of the loop. *)
Definition plan_iteration (st : PlanState) : M (PlanState + PlanExit) :=
  let! seq := emit (Some (pl_work st)) (pl_record st) None "run.progress" (pl_attempt st) false (pl_seq st) in
  let st := st <| pl_seq := seq |> in
  let stop reason err := inr (exit_with ((pl_record st) <| cr_StopReason := reason |>) (Some err) st) in
  let! contextErr := checkContext in
  match contextErr with
  | Some err => ret (stop (stopReasonFor (Some err)) err)
  | None =>
      if MaxAttempts policy <=? pl_attempt st
      then ret (stop "attempts_exhausted" (exhaustedRecoveryError "attempts_exhausted"))
      else
        let! o := plan_attempt st in
        match ao_failure o with
        | None => let! exit := plan_succeed o in ret (inr exit)
        | Some failure =>
            let st := ao_state o in
            let! contextErr := checkContext in
            match contextErr with
            | Some err =>
                ret (inr (exit_with ((pl_record st) <| cr_StopReason := stopReasonFor (Some err) |>) (Some err) st))
            | None =>
                if String.eqb (cl_Category (ao_classification o)) CategoryParse then plan_advance o failure
                else if negb (cl_Retryable (ao_classification o)) then
                  ret (inr (exit_with ((pl_record st) <| cr_StopReason := stopReasonFor (Some failure) |>) (Some failure) st))
                else plan_retry o failure
            end
        end
  end.

Fixpoint plan_loop (fuel : nat) (st : PlanState) : M (option PlanExit) :=
  match fuel with
  | O => ret None
  | S fuel =>
      let! r := plan_iteration st in
      match r with
      | inr exit => ret (Some exit)
      | inl st => plan_loop fuel st
      end
  end.

(** The targets of the plan are checked, then the loop runs. [fuel] bounds its turns. *)
Definition plan_start (fuel : nat) (record : CallRecord) (seq : Z) (work : plannedWork) : M (option PlanExit) :=
  let st := {| pl_record := record; pl_work := work; pl_attempt := 0; pl_acc := NewProviderAccumulator;
               pl_lastStage := ""; pl_lastAttempt := 0; pl_seq := seq |} in
  match validateRecoveryTargets policy with
  | Err err => ret (Some (exit_with (record <| cr_StopReason := "configuration_error" |>) (Some err) st))
  | Ok _ => plan_loop fuel st
  end.

(** The lookup of the original generation: a valid entry ends the call. *)
Definition plan_lookup (record : CallRecord) (work : plannedWork) (hash : string) (seq : Z)
  : M (CallRecord + PlanExit) :=
  let exit record err := ret (inr {| px_record := record; px_err := err; px_work := Some work; px_seq := seq |}) in
  let enter status :=
    let record := record <| cr_Cache ::= fun f => f <| cf_Status := status |> |> in
    ret (inl (add_branch_cache record "original" (wk_generationTarget work))) in
  if String.eqb cacheMode ModeCache then
    let! got := env_CacheGet hash cacheVersion in
    match got with
    | Err cacheErr => exit record (Some cacheErr)
    | Ok (Some cached) =>
        let! admission := admitPlannedCachedResult (wk_connection work) (wk_generationTarget work) cached baseCall in
        match admission with
        | Some _ => exit record (Some ECacheIntegrity)
        | None => exit (serve_cached record cached "original" (wk_generationTarget work) (wk_stage work)) None
        end
    | Ok None => enter "miss"
    end
  else enter "refresh".

(** From the preparation of the generation to the end of the loop. *)
Definition plan_body (fuel : nat) (record : CallRecord) : M (option PlanExit) :=
  let! prepared := preparePlannedWork connection credential baseCall "original" stageOriginalGenerate None None in
  match prepared with
  | Err err => ret (Some {| px_record := record; px_err := Some err; px_work := None; px_seq := 0 |})
  | Ok work =>
      let work := work <| wk_generationTarget := target_of work |> in
      let record := record <| cr_GenerationTarget := wk_generationTarget work |> in
      if String.eqb cacheMode ModeOff then
        let! seq := emit (Some work) record None "run.started" 0 false 0 in
        plan_start fuel record seq work
      else
        match Hash env_sha256_hex (po_Operation (wk_prepared work)) cacheVersion with
        | Err e => ret (Some {| px_record := record; px_err := Some (cacheKeyError e); px_work := Some work; px_seq := 0 |})
        | Ok hash =>
            let work := work <| wk_generationHash := hash |> in
            let record := record <| cr_Cache ::= fun f =>
                            f <| cf_OperationHash := hash |> <| cf_OriginalOperationHash := hash |> |> in
            let! seq := emit (Some work) record None "run.started" 0 false 0 in
            let! looked := plan_lookup record work hash seq in
            match looked with
            | inr exit => ret (Some exit)
            | inl record => plan_start fuel record seq work
            end
        end
  end.

(** The deferred function: the stop reason, the diagnostics and the terminal event. *)
Definition plan_finish (exit : PlanExit) : M (CallRecord * option goerror) :=
  let record := px_record exit in
  let record := if String.eqb (cr_StopReason record) ""
                then record <| cr_StopReason := stopReasonFor (px_err exit) |> else record in
  let! now := Now in
  let used := llen (cr_Attempts record) in
  let record := record <| cr_Diagnostics ::= fun d =>
        d <| dg_AttemptsUsed := used |>
          <| dg_AttemptsRemaining := Z.max (MaxAttempts policy - used) 0 |>
          <| dg_Elapsed := Z.max (Sub now startedAt) 0 |>
          <| dg_Stage := recordLastStage (cr_Attempts record) |>
          <| dg_Branch := cr_Branch record |>
          <| dg_StopReason := cr_StopReason record |> |> in
  let! _ := emit (px_work exit) record None "run.terminal" used true (px_seq exit) in
  ret (record, px_err exit).
End Plan.

Definition zeroRecord : CallRecord :=
  MkRecord "" None "" "" JNull zeroTarget (MkResultSource "" 0 None)
    (MkAccounting (MkLedger zeroUsage (MkCost fzero "" "" 0 0)) (MkLedger zeroUsage (MkCost fzero "" "" 0 0)))
    [] None None zeroTarget "" "" zeroDiagnostics zeroOrigin (MkCacheFacts "" "" "" "" "" "" false false).

(** The record both executors start from. *)
Definition initialRecord (connection : Connection) (call : Call) (cacheMode : Mode) (cacheVersion callID traceID : string)
  : CallRecord :=
  let target := targetFromConnection connection (call_ModelID call) in
  {| cr_AssistantText := ""; cr_Search := None; cr_CallID := callID; cr_TraceID := traceID; cr_Output := JNull;
     cr_SelectedTarget := target; cr_ResultSource := MkResultSource ResultSourceNone 0 None;
     cr_Accounting := MkAccounting EmptyLedger EmptyLedger; cr_Attempts := []; cr_ParseFailureResponse := None;
     cr_PreparedOperation := None; cr_GenerationTarget := target; cr_Branch := "original"; cr_StopReason := "";
     cr_Diagnostics := zeroDiagnostics; cr_Origin := call_Origin call;
     cr_Cache := MkCacheFacts cacheMode "skipped" "" "" "" cacheVersion false false |}.

Section Execute.
Context `{Env}.

(** The deadline facts recorded when the execution starts. *)
Definition with_deadline (startedAt : Time) (record : CallRecord) : CallRecord :=
  match env_Deadline with
  | Some deadline =>
      let effective := Z.max (Milliseconds (Sub deadline startedAt)) 0 in
      record <| cr_Diagnostics ::= fun d =>
                 d <| dg_DeadlineAt := Some deadline |> <| dg_EffectiveTimeout := Some (wrap64 (effective * Millisecond)) |> |>
  | None => record
  end.

(** [executeRecoveryPlan]; [None] when [fuel] turns of the loop are not enough. *)
Definition executeRecoveryPlan (fuel : nat) (connection : Connection) (credential : Credential) (call : Call)
    (policy : Policy) (cache : bool) (cacheMode : Mode) (cacheVersion callID traceID : string)
  : M (option (CallRecord * option goerror)) :=
  if negb (String.eqb (call_CallType call) "structured") then
    ret (Some (zeroRecord, Some (EText "runtime explicit recovery plans require structured calls")))
  else
    let cacheVersion := if String.eqb cacheVersion "" then DefaultVersion else cacheVersion in
    if String.eqb (conn_ID connection) "" then
      ret (Some (zeroRecord, Some (EText "runtime connection ID is required")))
    else
      let observer := call_Observer call in
      let finish (r : option (CallRecord * option goerror)) : M (option (CallRecord * option goerror)) :=
        match r with
        | Some (record, err) => let! _ := observe observer (FinishRuntime err) in ret (Some (record, err))
        | None => ret None
        end in
      let! _ := observe observer (StartRuntime (conn_ID connection) (conn_Provider connection) (call_ModelID call) (call_CallType call)) in
      let! baseCall :=
        if call_WebSearch call && negb (has (call_SearchMemo call))
        then let! memo := env_NewMemo in ret (call <| call_SearchMemo := Some memo |>)
        else ret call in
      let record := initialRecord connection call cacheMode cacheVersion callID traceID in
      let! contextErr := checkContext in
      match contextErr with
      | Some err => finish (Some (record <| cr_StopReason := stopReasonFor (Some err) |>, Some err))
      | None =>
          if negb (String.eqb cacheMode ModeOff) && negb cache then
            finish (Some (record, Some (EText "runtime cache is required when cache mode is active")))
          else
            let! startedAt := Now in
            let! exit := plan_body connection credential call baseCall policy cacheMode cacheVersion callID traceID
                           startedAt fuel (with_deadline startedAt record) in
            match exit with
            | None => finish None
            | Some exit =>
                let! r := plan_finish baseCall policy callID traceID startedAt exit in
                finish (Some r)
            end
      end.
End Execute.

(** ** The trace of attempts the plan allows *)

(** What the plan decides about an attempt; delays and timings are left out. *)
Record akey := MkKey {
  k_number : Z; k_stage : string; k_branch : string; k_category : Category; k_retryable : bool; k_retryOf : Z }.

Definition attempt_key (a : AttemptRecord) : akey :=
  MkKey (at_Number a) (at_Stage a) (at_Branch a) (at_Category a) (at_Retryable a) (at_TransportRetryOf a).

Definition keys (r : CallRecord) : list akey := map attempt_key (cr_Attempts r).

Definition branchAfter (branch next : string) : string :=
  if String.eqb next stageRerunGenerate then "rerun" else branch.

(** The abstract machine: a first generation, then either a transport retry of
    the same stage or, after invalid output, the next stage of the plan. *)
Inductive plan_trace (policy : Policy) : list akey → Prop :=
| trace_nil : plan_trace policy []
| trace_first c r : plan_trace policy [MkKey 1 stageOriginalGenerate "original" c r 0]
| trace_retry l a c r :
    plan_trace policy (l ++ [a]) → k_category a ≠ CategoryParse → k_retryable a = true →
    plan_trace policy ((l ++ [a]) ++ [MkKey (k_number a + 1) (k_stage a) (k_branch a) c r (k_number a)])
| trace_advance l a c r :
    plan_trace policy (l ++ [a]) → k_category a = CategoryParse →
    nextPlannedStage policy (k_branch a) (k_stage a) ≠ "" →
    let next := nextPlannedStage policy (k_branch a) (k_stage a) in
    plan_trace policy ((l ++ [a]) ++ [MkKey (k_number a + 1) next (branchAfter (k_branch a) next) c r 0]).

(** The stages in the order of the plan. *)
Definition stageOrder : list string :=
  [stageOriginalGenerate; stageOriginalRepairInitial; stageOriginalRepairEscalate;
   stageRerunGenerate; stageRerunRepairInitial; stageRerunRepairEscalate].

Definition legal (branch stage : string) : Prop :=
  (branch = "original" ∧ stage ∈ [stageOriginalGenerate; stageOriginalRepairInitial; stageOriginalRepairEscalate])
  ∨ (branch = "rerun" ∧ stage ∈ [stageRerunGenerate; stageRerunRepairInitial; stageRerunRepairEscalate]).

Definition rank (stage : string) : Z :=
  if String.eqb stage stageOriginalGenerate then 0
  else if String.eqb stage stageOriginalRepairInitial then 1
  else if String.eqb stage stageOriginalRepairEscalate then 2
  else if String.eqb stage stageRerunGenerate then 3
  else if String.eqb stage stageRerunRepairInitial then 4 else 5.

Lemma nextPlannedStage_forward policy branch stage :
  legal branch stage → let next := nextPlannedStage policy branch stage in
  next ≠ "" → rank stage < rank next ∧ legal (branchAfter branch next) next.
Proof.
  intros HL. cbn zeta. unfold legal, branchAfter.
  destruct HL as [[-> Hs]|[-> Hs]]; rewrite !elem_of_cons in Hs;
    destruct Hs as [->|[->|[->|Hs]]]; try (by apply not_elem_of_nil in Hs);
    unfold nextPlannedStage; cbn [String.eqb Ascii.eqb Bool.eqb];
    repeat case_match; intros Hn; try (by contradict Hn); vm_compute; (split; [done|]); set_solver.
Qed.

Lemma repairTarget_some policy branch stage :
  legal branch stage → let next := nextPlannedStage policy branch stage in
  next ≠ "" → next ≠ stageRerunGenerate → is_Some (repairTarget policy branch next).
Proof.
  intros HL. cbn zeta.
  destruct policy as [ma ro bo [[ini [esc|]]|] [[tg [[ini2 [esc2|]]|]]|] ex];
  destruct HL as [[-> Hs]|[-> Hs]]; rewrite !elem_of_cons in Hs;
    destruct Hs as [->|[->|[->|Hs]]]; try (by apply not_elem_of_nil in Hs);
    vm_compute; intros Hn Hr; eauto; by contradict Hn || by contradict Hr.
Qed.

(** ** The record fields an attempt leaves alone *)

Definition kept (r r' : CallRecord) : Prop :=
  cr_StopReason r' = cr_StopReason r ∧ cr_ResultSource r' = cr_ResultSource r ∧ cr_Attempts r' = cr_Attempts r.

Lemma kept_refl r : kept r r.
Proof. done. Qed.

Lemma captureParseFailureResponse_kept r raw : kept r (captureParseFailureResponse r raw).
Proof. unfold captureParseFailureResponse. destruct (cr_ParseFailureResponse r), (String.eqb raw ""); done. Qed.

Lemma captureProviderParseFailure_kept r err prev : kept r (captureProviderParseFailure r err prev).1.
Proof.
  unfold captureProviderParseFailure. destruct (asProvider err) as [[? pe]|]; [|done].
  destruct (_ || _); [done|]. apply captureParseFailureResponse_kept.
Qed.

Lemma map_last_map {A B : Type} (k : A → B) (f : A → A) (l : list A) :
  (∀ a, k (f a) = k a) → map k (map_last f l) = map k l.
Proof.
  intros Hf. induction l as [|a l IH]; [done|].
  destruct l; cbn in *; [by rewrite Hf|]. by rewrite IH.
Qed.

Lemma llen_map_last {A : Type} (f : A → A) (l : list A) : llen (map_last f l) = llen l.
Proof. unfold llen. by rewrite length_map_last. Qed.

(** What an exit of the loop promises. *)
Record ExitOK (call : Call) (policy : Policy) (record : CallRecord) (err : option goerror) : Prop := {
  exit_trace : plan_trace policy (keys record);
  exit_budget : llen (cr_Attempts record) ≤ MaxAttempts policy;
  exit_failed : err ≠ None → cr_StopReason record ≠ "succeeded" ∧ rs_Kind (cr_ResultSource record) = ResultSourceNone;
  exit_succeeded : err = None →
    (cr_StopReason record = "succeeded" ∨ cr_StopReason record = "")
    ∧ ((rs_Kind (cr_ResultSource record) = ResultSourceProvider
        ∧ rs_AttemptNumber (cr_ResultSource record) = llen (cr_Attempts record)
        ∧ at_Category <$> last (cr_Attempts record) = Some CategorySuccess)
       ∨ (rs_Kind (cr_ResultSource record) = ResultSourceCache ∧ cf_Served (cr_Cache record) = true));
  exit_admitted : err = None →
    admitted "structured" (call_ValidateStructured call) (cr_Output record) (acct_Result (cr_Accounting record));
}.

Section PlanProofs.
Context `{Env}.
Variable connection : Connection.
Variable credential : Credential.
Variable call : Call.
Variable baseCall : Call.
Variable policy : Policy.
Variable cacheMode : Mode.
Variable cacheVersion : string.
Variable callID : string.
Variable traceID : string.
Variable startedAt : Time.

Abbreviation attempt_of := (plan_attempt call baseCall policy callID traceID startedAt).
Abbreviation iteration := (plan_iteration connection credential call baseCall policy cacheMode cacheVersion callID traceID startedAt).
Abbreviation loop := (plan_loop connection credential call baseCall policy cacheMode cacheVersion callID traceID startedAt).

Hypothesis structured : call_CallType baseCall = "structured".

(** The stages of a plan all validate with the caller's validator. *)
Definition validates (c : Call) : Prop :=
  call_CallType c = "structured" ∧ call_ValidateStructured c = call_ValidateStructured baseCall.
Definition work_validates (w : plannedWork) : Prop := validates (wk_call w) ∧ validates (wk_generationCall w).

Lemma preparePlannedWork_spec conn cred c branch stage target repair :
  validates c →
  always (preparePlannedWork conn cred c branch stage target repair)
    (fun r => match r with
              | Ok w => wk_branch w = branch ∧ wk_stage w = stage ∧ work_validates w
              | Err _ => True end).
Proof.
  intros Hv. unfold preparePlannedWork.
  match goal with |- context [match ?r with Ok _ => _ | Err _ => _ end] => set (resolved := r) end.
  assert (match resolved with Ok (_, _, c') => validates c' | Err _ => True end) as Hr.
  { unfold resolved. destruct target as [t|]; [|done]. destruct (String.eqb _ _); [|done].
    match goal with |- context [res_bind ?b _] => destruct b as [b'|] end; cbn [res_bind]; [|done]. by case_match. }
  destruct resolved as [[[conn' cred'] c']|e]; [|by apply always_ret].
  apply always_skip; intros [?|?]; by apply always_ret.
Qed.

Lemma prepareNextPlannedWork_spec conn cred c work history attempt :
  validates c → work_validates work →
  let next := nextPlannedStage policy (wk_branch work) (wk_stage work) in
  always (prepareNextPlannedWork conn cred c work history policy attempt)
    (fun r => match r with
              | Ok (Some w) => next ≠ "" ∧ wk_stage w = next ∧ wk_branch w = branchAfter (wk_branch work) next
                               ∧ work_validates w
              | _ => True end).
Proof.
  intros Hc [Hw1 Hw2]. cbn zeta. unfold prepareNextPlannedWork, branchAfter. set (next := nextPlannedStage _ _ _).
  destruct (String.eqb_spec next "") as [|Hn]; [by apply always_ret|].
  destruct (String.eqb next stageRerunGenerate) eqn:E.
  - destruct (Rerun policy); [|by apply always_ret].
    eapply always_bind; [by apply preparePlannedWork_spec|]. intros [w|e] Hw; apply always_ret; naive_solver.
  - destruct (repairTarget _ _ _) as [t|]; [|by apply always_ret].
    eapply always_bind; [apply preparePlannedWork_spec; by destruct (String.eqb (rt_Source t) "generation")|].
    intros [w|e] Hw; apply always_ret; [|done]. unfold work_validates in *. naive_solver.
Qed.

Lemma admitAttempt_spec work result record previous :
  validates (wk_call work) →
  always (admitAttempt work result record previous) (fun p => kept record p.1
    ∧ (p.2 = None → admitted "structured" (call_ValidateStructured baseCall) (pr_Output result) (pr_Accounting result))).
Proof.
  intros [Hc Hv]. unfold admitAttempt. eapply always_bind; [apply admitResult_spec|].
  intros [err|] He; apply always_ret; cbn.
  - split; [|done]. case_match; [apply captureParseFailureResponse_kept|done].
  - split; [done|]. rewrite Hc, Hv in He. intros _. by apply He.
Qed.

(** One attempt appends one record, consistent with its classification. *)
Lemma plan_attempt_spec st :
  validates (wk_call (pl_work st)) →
  always (attempt_of st) (fun o =>
    let st' := ao_state o in let c := ao_classification o in
    pl_attempt st' = pl_attempt st + 1 ∧ pl_work st' = pl_work st
    ∧ pl_lastStage st' = wk_stage (pl_work st) ∧ pl_lastAttempt st' = pl_attempt st + 1
    ∧ cr_StopReason (pl_record st') = cr_StopReason (pl_record st)
    ∧ cr_ResultSource (pl_record st') = cr_ResultSource (pl_record st)
    ∧ (∃ a, cr_Attempts (pl_record st') = cr_Attempts (pl_record st) ++ [a]
        ∧ attempt_key a = MkKey (pl_attempt st + 1) (wk_stage (pl_work st)) (wk_branch (pl_work st)) (cl_Category c)
            (cl_Retryable c) (if String.eqb (pl_lastStage st) (wk_stage (pl_work st)) then pl_lastAttempt st else 0))
    ∧ (ao_failure o = None → cl_Category c = CategorySuccess
        ∧ admitted "structured" (call_ValidateStructured baseCall) (pr_Output (ao_result o)) (pr_Accounting (ao_result o)))).
Proof.
  intros Hval. unfold plan_attempt. do 3 (apply always_skip; intros ?). apply always_skip. intros [[seq result] failure].
  apply always_skip. intros finished.
  destruct (accountAttempt _ _ _ _) as [[result' acc] failure'].
  set (r1 := (_ <| cr_Accounting ::= _ |>)).
  assert (kept (pl_record st) r1) as H1 by (unfold r1; case_match; done). clearbody r1.
  eapply (always_bind _ _ (fun p => kept r1 p.1 ∧ (p.2 = None → admitted _ _ _ _))).
  { destruct failure'; [by apply always_ret|by apply admitAttempt_spec]. }
  intros [r2 failure2] [H2 Hadm]. cbn in H2, Hadm.
  assert (kept r2 (match failure2 with
      | Some err => captureProviderParseFailure r2 err (encodeRepairOutput (pr_Output result'))
      | None => (r2, encodeRepairOutput (pr_Output result')) end).1) as H3.
  { destruct failure2; [apply captureProviderParseFailure_kept|done]. }
  destruct (match failure2 with Some _ => _ | None => _ end) as [r3 prev]. cbn in H3.
  destruct H1 as (? & ? & ?), H2 as (? & ? & ?), H3 as (? & ? & ?).
  do 4 (apply always_skip; intros ?). apply always_ret. cbn.
  do 6 (split; [congruence|]). split.
  - eexists. split; [apply f_equal2; [congruence|reflexivity]|reflexivity].
  - intros ->. split; [done|]. by apply Hadm.
Qed.

(** The next work continues the last attempt as the plan says. *)
Definition follows (a : akey) (w : plannedWork) : Prop :=
  let next := nextPlannedStage policy (k_branch a) (k_stage a) in
  (k_category a ≠ CategoryParse ∧ k_retryable a = true ∧ wk_stage w = k_stage a ∧ wk_branch w = k_branch a)
  ∨ (k_category a = CategoryParse ∧ next ≠ "" ∧ wk_stage w = next ∧ wk_branch w = branchAfter (k_branch a) next).

Record PlanInv (st : PlanState) : Prop := {
  pi_trace : plan_trace policy (keys (pl_record st));
  pi_count : llen (cr_Attempts (pl_record st)) = pl_attempt st;
  pi_budget : 0 ≤ pl_attempt st ≤ MaxAttempts policy;
  pi_legal : legal (wk_branch (pl_work st)) (wk_stage (pl_work st));
  pi_next : match last (keys (pl_record st)) with
            | None => wk_branch (pl_work st) = "original" ∧ wk_stage (pl_work st) = stageOriginalGenerate
                      ∧ pl_lastStage st = ""
            | Some a => pl_lastStage st = k_stage a ∧ pl_lastAttempt st = k_number a ∧ k_number a = pl_attempt st
                        ∧ legal (k_branch a) (k_stage a) ∧ follows a (pl_work st)
            end;
  pi_validates : work_validates (pl_work st);
  pi_stop : cr_StopReason (pl_record st) = "";
  pi_source : rs_Kind (cr_ResultSource (pl_record st)) = ResultSourceNone;
}.

(** The state right after an attempt. *)
Record Attempted (o : AttemptOutcome) : Prop := {
  am_trace : plan_trace policy (keys (pl_record (ao_state o)));
  am_count : llen (cr_Attempts (pl_record (ao_state o))) = pl_attempt (ao_state o);
  am_budget : 0 ≤ pl_attempt (ao_state o) ≤ MaxAttempts policy;
  am_legal : legal (wk_branch (pl_work (ao_state o))) (wk_stage (pl_work (ao_state o)));
  am_last : ∃ a, last (cr_Attempts (pl_record (ao_state o))) = Some a
    ∧ at_Number a = pl_attempt (ao_state o)
    ∧ at_Stage a = wk_stage (pl_work (ao_state o)) ∧ at_Branch a = wk_branch (pl_work (ao_state o))
    ∧ at_Category a = cl_Category (ao_classification o) ∧ at_Retryable a = cl_Retryable (ao_classification o);
  am_lastStage : pl_lastStage (ao_state o) = wk_stage (pl_work (ao_state o));
  am_lastAttempt : pl_lastAttempt (ao_state o) = pl_attempt (ao_state o);
  am_stop : cr_StopReason (pl_record (ao_state o)) = "";
  am_source : rs_Kind (cr_ResultSource (pl_record (ao_state o))) = ResultSourceNone;
  am_validates : work_validates (pl_work (ao_state o));
  am_success : ao_failure o = None → cl_Category (ao_classification o) = CategorySuccess
    ∧ admitted "structured" (call_ValidateStructured baseCall) (pr_Output (ao_result o)) (pr_Accounting (ao_result o));
}.

Lemma extend_trace st c r :
  PlanInv st →
  plan_trace policy (keys (pl_record st) ++
    [MkKey (pl_attempt st + 1) (wk_stage (pl_work st)) (wk_branch (pl_work st)) c r
       (if String.eqb (pl_lastStage st) (wk_stage (pl_work st)) then pl_lastAttempt st else 0)]).
Proof.
  intros [Ht Hc _ _ Hn _ _ _]. destruct (last (keys (pl_record st))) as [a|] eqn:El.
  - apply last_Some in El as [l El]. rewrite El in *.
    destruct Hn as (-> & -> & <- & HL & [(Hp & Hr & -> & ->)|(Hp & Hne & Es & ->)]).
    + rewrite String.eqb_refl. by apply trace_retry.
    + destruct (nextPlannedStage_forward policy _ _ HL Hne) as [Hlt _].
      rewrite (proj2 (String.eqb_neq (k_stage a) _)); [rewrite Es; by apply trace_advance|].
      intros E. rewrite Es in E. rewrite <- E in Hlt. lia.
  - apply last_None in El. rewrite El. destruct Hn as (-> & -> & ->).
    assert (pl_attempt st = 0) as ->.
    { rewrite <- Hc. unfold keys in El. apply map_eq_nil in El. by rewrite El. }
    apply trace_first.
Qed.

Lemma attempt_inv st :
  PlanInv st → pl_attempt st < MaxAttempts policy → always (attempt_of st) Attempted.
Proof.
  intros HI Hlt. eapply always_mono; [apply plan_attempt_spec, HI|]. cbn zeta.
  intros o (Ea & Ew & Es & El & Est & Esrc & (a & Eat & Ek) & Hsucc).
  destruct HI as [Ht Hc Hb HL Hn Hval Hst Hsrc] eqn:EI.
  pose proof (extend_trace st (cl_Category (ao_classification o)) (cl_Retryable (ao_classification o)) HI) as Htr.
  rewrite <- Ek in Htr. injection Ek as E1 E2 E3 E4 E5 E6.
  constructor; rewrite ?Ew, ?Est, ?Esrc; try done; try congruence.
  - unfold keys. by rewrite Eat, map_app.
  - rewrite Eat, llen_app, Hc, Ea. done.
  - lia.
  - exists a. rewrite Eat, last_snoc, Ea. by rewrite E1, E2, E3, E4, E5.
Qed.

(** Leaving with an error after an attempt. *)
Lemma exit_error record err :
  plan_trace policy (keys record) → llen (cr_Attempts record) ≤ MaxAttempts policy →
  cr_StopReason record ≠ "succeeded" → rs_Kind (cr_ResultSource record) = ResultSourceNone →
  ExitOK baseCall policy record (Some err).
Proof. by constructor. Qed.

Lemma stopReason_error err : stopReasonFor (Some err) ≠ "succeeded".
Proof. unfold stopReasonFor. repeat case_match; done. Qed.

Lemma stop_attempted o reason err :
  Attempted o → reason ≠ "succeeded" →
  ExitOK baseCall policy ((pl_record (ao_state o)) <| cr_StopReason := reason |>) (Some err).
Proof.
  intros HA Hr. pose proof (am_budget _ HA). pose proof (am_count _ HA).
  apply exit_error; [apply HA| |done|apply HA]. cbv [upd]. cbn. lia.
Qed.

Definition exit_ok (x : PlanExit) : Prop := ExitOK baseCall policy (px_record x) (px_err x).

Lemma succeed_exit o :
  Attempted o → ao_failure o = None → always (plan_succeed call cacheMode cacheVersion o) exit_ok.
Proof.
  intros HA Hf. destruct (am_last _ HA) as (a & El & _ & _ & _ & Ec & _).
  destruct (am_success _ HA Hf) as [Es Hadm]. rewrite Es in Ec.
  assert (∀ r, cr_Attempts r = cr_Attempts (pl_record (ao_state o)) →
               rs_Kind (cr_ResultSource r) = ResultSourceProvider →
               rs_AttemptNumber (cr_ResultSource r) = pl_attempt (ao_state o) →
               (cr_StopReason r = "succeeded" ∨ cr_StopReason r = "") →
               cr_Output r = pr_Output (ao_result o) → acct_Result (cr_Accounting r) = pr_Accounting (ao_result o) → ExitOK baseCall policy r None) as Hok.
  { intros r Ea Ek En Esr Eo Eac. constructor; [| |done| |rewrite Eo, Eac; done].
    - unfold keys. rewrite Ea. apply (am_trace _ HA).
    - rewrite Ea, (am_count _ HA). apply (am_budget _ HA).
    - intros _. split; [done|]. left. rewrite Ea, (am_count _ HA), El, <- Ec. done. }
  pose proof (am_stop _ HA) as Hs. unfold plan_succeed.
  destruct (has (pr_Search (ao_result o))), (String.eqb cacheMode ModeOff); cbn [negb];
    try (apply always_ret, Hok; by (left + idtac)).
  all: do 2 (apply always_skip; intros ?); case_match;
    apply always_skip; intros ?; apply always_ret, Hok; try done; by (left + right).
Qed.

(** The next work of a plan turns the state after an attempt into a loop state. *)
Lemma continue_with o st :
  Attempted o → pl_attempt st = pl_attempt (ao_state o) →
  pl_lastStage st = pl_lastStage (ao_state o) → pl_lastAttempt st = pl_lastAttempt (ao_state o) →
  keys (pl_record st) = keys (pl_record (ao_state o)) →
  cr_StopReason (pl_record st) = "" → rs_Kind (cr_ResultSource (pl_record st)) = ResultSourceNone →
  work_validates (pl_work st) →
  (∀ a, k_stage a = wk_stage (pl_work (ao_state o)) → k_branch a = wk_branch (pl_work (ao_state o)) →
        k_category a = cl_Category (ao_classification o) → k_retryable a = cl_Retryable (ao_classification o) →
        follows a (pl_work st)) →
  PlanInv st.
Proof.
  intros HA Ea Es Ela Ek Hs Hsrc Hv Hf.
  destruct (am_last _ HA) as (a & El & E1 & E2 & E3 & E4 & E5).
  assert (follows (attempt_key a) (pl_work st)) as Hfol by (apply Hf; cbn; congruence).
  assert (legal (at_Branch a) (at_Stage a)) as HL by (rewrite E2, E3; apply HA).
  constructor; try done.
  - rewrite Ek. apply HA.
  - rewrite Ea, <- (am_count _ HA). unfold llen, keys in *. f_equal.
    by rewrite <- (length_map attempt_key), Ek, length_map.
  - rewrite Ea. apply HA.
  - destruct Hfol as [(_ & _ & -> & ->)|(_ & Hn & -> & ->)]; [done|].
    by apply nextPlannedStage_forward.
  - rewrite Ek. unfold keys. rewrite fmap_last, El. cbn. rewrite Es, Ela, Ea, (am_lastStage _ HA), (am_lastAttempt _ HA).
    repeat split; congruence || done.
Qed.

(** What a turn of the loop leaves: a state with one more attempt, or an exit. *)
Definition turned (attempt : Z) (r : PlanState + PlanExit) : Prop :=
  match r with
  | inl st => PlanInv st ∧ pl_attempt st = attempt
  | inr x => exit_ok x
  end.

Lemma add_branch_cache_kept r r' branch target : kept r r' → kept r (add_branch_cache r' branch target).
Proof. intros (? & ? & ?). unfold add_branch_cache. by case_match. Qed.

Lemma enter_branch_spec o next :
  Attempted o → cl_Category (ao_classification o) = CategoryParse →
  (let n := nextPlannedStage policy (wk_branch (pl_work (ao_state o))) (wk_stage (pl_work (ao_state o))) in
   n ≠ "" ∧ wk_stage next = n ∧ wk_branch next = branchAfter (wk_branch (pl_work (ao_state o))) n
   ∧ work_validates next) →
  always (enter_branch baseCall cacheMode cacheVersion (ao_state o) next) (turned (pl_attempt (ao_state o))).
Proof.
  intros HA Hc (Hn & Hs & Hb & Hv).
  assert (∀ r w, kept (pl_record (ao_state o)) r → wk_stage w = wk_stage next → wk_branch w = wk_branch next → work_validates w →
            turned (pl_attempt (ao_state o)) (inl ((ao_state o) <| pl_record := r |> <| pl_work := w |>))) as Hgo.
  { intros r w (K1 & K2 & K3) Ws Wb Wv. split; [|done]. apply (continue_with o); try done.
    - unfold keys. cbn. by rewrite K3.
    - cbn. rewrite K1. apply HA.
    - cbn. rewrite K2. apply HA.
    - intros a A1 A2 A3 _. right. cbn. rewrite A1, A2, A3, Ws, Wb. done. }
  assert (∀ r err, kept (pl_record (ao_state o)) r → exit_ok (exit_with r (Some err) (ao_state o))) as Hbad.
  { intros r err (K1 & K2 & K3). pose proof (am_budget _ HA). pose proof (am_count _ HA). apply exit_error; cbn.
    - unfold keys. rewrite K3. apply HA.
    - rewrite K3. lia.
    - by rewrite K1, (am_stop _ HA).
    - rewrite K2. apply HA. }
  unfold enter_branch. repeat case_match; try (apply always_ret; (apply Hgo || apply Hbad); done).
  - apply always_skip. intros [[cached|]|err]; [|apply always_ret, Hgo; [by apply add_branch_cache_kept|done..]
                                                |by apply always_ret, Hbad].
    eapply always_bind; [apply admitPlannedCachedResult_sound|].
    rewrite structured. intros [err|] Hadm; apply always_ret; [by apply Hbad|].
    pose proof (am_budget _ HA). pose proof (am_count _ HA). constructor; cbn; [apply HA|lia|done| |done].
    intros _. split; [by left|by right].
  - apply always_ret, Hgo; [by apply add_branch_cache_kept|done..].
Qed.

Lemma advance_spec o failure :
  Attempted o → cl_Category (ao_classification o) = CategoryParse →
  always (plan_advance connection credential baseCall policy cacheMode cacheVersion o failure)
    (turned (pl_attempt (ao_state o))).
Proof.
  intros HA Hc. unfold plan_advance. case_match; [by apply always_ret, stop_attempted|].
  eapply always_bind; [apply prepareNextPlannedWork_spec; [done|apply HA]|]. intros [[next|]|err] Hn;
    [|by apply always_ret, stop_attempted..].
  destruct (negb _); [by apply enter_branch_spec|].
  apply always_ret. split; [|done]. destruct Hn as (? & ? & ? & ?).
  apply (continue_with o); try apply HA; try done.
  intros a A1 A2 A3 _. right. by rewrite A1, A2, A3.
Qed.

Lemma retry_spec o failure :
  Attempted o → cl_Category (ao_classification o) ≠ CategoryParse → cl_Retryable (ao_classification o) = true →
  always (plan_retry call policy o failure) (turned (pl_attempt (ao_state o))).
Proof.
  intros HA Hc Hr. unfold plan_retry. case_match; [by apply always_ret, stop_attempted|].
  do 2 (apply always_skip; intros ?). case_match; [by apply always_ret, stop_attempted|].
  do 3 (apply always_skip; intros ?).
  assert (∀ f g, (∀ a, attempt_key (f a) = attempt_key a) → (∀ a, attempt_key (g a) = attempt_key a) →
            map attempt_key (map_last g (map_last f (cr_Attempts (pl_record (ao_state o)))))
            = keys (pl_record (ao_state o))) as Hk.
  { intros f g Hf Hg. by rewrite (map_last_map _ _ _ Hg), (map_last_map _ _ _ Hf). }
  pose proof (am_budget _ HA). pose proof (am_count _ HA).
  case_match; apply always_ret.
  - apply exit_error; cbn; [|rewrite llen_map_last, llen_map_last; lia|apply stopReason_error|apply HA].
    unfold keys. cbn. rewrite Hk; [apply HA|done..].
  - split; [|done]. apply (continue_with o); try apply HA; try done.
    + unfold keys at 1. cbn. by apply Hk.
    + intros k A1 A2 A3 A4. left. by rewrite A3, A4.
Qed.

Lemma iteration_spec st :
  PlanInv st → always (iteration st) (turned (pl_attempt st + 1)).
Proof.
  intros HI. unfold plan_iteration. apply always_skip. intros seq.
  assert (PlanInv (st <| pl_seq := seq |>)) as HI' by (destruct HI; by constructor).
  pose proof (pi_budget _ HI). pose proof (pi_count _ HI).
  assert (∀ reason err, reason ≠ "succeeded" →
    ExitOK baseCall policy ((pl_record (st <| pl_seq := seq |>)) <| cr_StopReason := reason |>) (Some err)) as Hstop.
  { intros reason err Hr. apply exit_error; cbn; [apply HI|lia|done|apply HI]. }
  apply always_skip. intros [err|]; [apply always_ret, Hstop, stopReason_error|].
  case_match; [by apply always_ret, Hstop|]. bool_to_prop.
  eapply always_bind.
  { eapply always_mono; [apply (always_and _ _ _ (attempt_inv _ HI' ltac:(done)) (plan_attempt_spec _ (proj1 (pi_validates _ HI'))))|].
    intros o HA. exact HA. }
  intros o [HA (Ea & _)]. change (pl_attempt (ao_state o) = pl_attempt st + 1) in Ea. rewrite <- Ea.
  destruct (ao_failure o) as [failure|] eqn:Ef.
  - apply always_skip. intros [err|]; [apply always_ret, stop_attempted, stopReason_error; done|].
    destruct (String.eqb_spec (cl_Category (ao_classification o)) CategoryParse); [by apply advance_spec|].
    destruct (cl_Retryable _) eqn:Er; [by apply retry_spec|].
    apply always_ret, stop_attempted, stopReason_error; done.
  - eapply always_bind; [by apply succeed_exit|]. intros x Hx. by apply always_ret.
Qed.

(** The loop ends within the attempts left plus one turn. *)
Lemma loop_spec fuel st :
  PlanInv st → MaxAttempts policy - pl_attempt st < Z.of_nat fuel →
  always (loop fuel st) (fun r => ∃ x, r = Some x ∧ exit_ok x).
Proof.
  revert st. induction fuel as [|fuel IH]; intros st HI Hf.
  - pose proof (pi_budget _ HI). lia.
  - cbn [plan_loop]. eapply always_bind; [by apply iteration_spec|].
    intros [st'|x] Ht; [|apply always_ret; eauto]. destruct Ht as [HI' Ea].
    apply IH; [done|]. lia.
Qed.

Definition fresh (r : CallRecord) : Prop :=
  cr_Attempts r = [] ∧ cr_StopReason r = "" ∧ rs_Kind (cr_ResultSource r) = ResultSourceNone.

Lemma fresh_failed r err :
  0 ≤ MaxAttempts policy → cr_Attempts r = [] → cr_StopReason r ≠ "succeeded" →
  rs_Kind (cr_ResultSource r) = ResultSourceNone → ExitOK baseCall policy r (Some err).
Proof.
  intros Hm Ea Hs Hk. apply exit_error; try done; [|by rewrite Ea].
  unfold keys. rewrite Ea. constructor.
Qed.

Lemma start_spec fuel record seq work :
  0 ≤ MaxAttempts policy < Z.of_nat fuel → fresh record →
  wk_branch work = "original" → wk_stage work = stageOriginalGenerate → work_validates work →
  always (plan_start connection credential call baseCall policy cacheMode cacheVersion callID traceID startedAt
            fuel record seq work) (fun r => ∃ x, r = Some x ∧ exit_ok x).
Proof.
  intros Hm (Ra & Rs & Rk) Wb Ws Wv. unfold plan_start. destruct (validateRecoveryTargets policy) as [u|err].
  - apply loop_spec; [|cbn; lia].
    constructor; cbn; unfold keys; rewrite ?Ra, ?Wb, ?Ws; try done; [constructor|lia|left; set_solver].
  - apply always_ret. eexists. split; [done|]. apply fresh_failed; done || lia.
Qed.

Lemma lookup_spec record work hash seq :
  0 ≤ MaxAttempts policy → fresh record →
  always (plan_lookup baseCall cacheMode cacheVersion record work hash seq)
    (fun r => match r with inl record' => fresh record' | inr x => exit_ok x end).
Proof.
  intros Hm (Ra & Rs & Rk).
  assert (∀ err, exit_ok {| px_record := record; px_err := Some err; px_work := Some work; px_seq := seq |}) as Hbad.
  { intros err. apply fresh_failed; try done. cbn. by rewrite Rs. }
  unfold plan_lookup. case_match; [|apply always_ret; unfold add_branch_cache; by case_match].
  apply always_skip. intros [[cached|]|err]; [|apply always_ret; unfold add_branch_cache; by case_match|by apply always_ret].
  eapply always_bind; [apply admitPlannedCachedResult_sound|].
  rewrite structured. intros [err|] Hadm; apply always_ret; [done|].
  constructor; try done.
  - change (plan_trace policy (map attempt_key (cr_Attempts record))). rewrite Ra. constructor.
  - change (llen (cr_Attempts record) ≤ MaxAttempts policy). by rewrite Ra.
  - intros _. split; [by left|by right].
Qed.

Lemma body_spec fuel record :
  0 ≤ MaxAttempts policy < Z.of_nat fuel → fresh record →
  always (plan_body connection credential call baseCall policy cacheMode cacheVersion callID traceID startedAt fuel record)
    (fun r => ∃ x, r = Some x ∧ exit_ok x).
Proof.
  intros Hm HF. destruct HF as (Ha & Hs & Hk) eqn:EF. unfold plan_body.
  assert (∀ r work err seq, fresh r →
    ∃ x, Some {| px_record := r; px_err := Some err; px_work := work; px_seq := seq |} = Some x ∧ exit_ok x) as Hbad.
  { intros r work err seq (Ra & Rs & Rk). eexists. split; [done|]. apply fresh_failed; cbn; try done; [lia|by rewrite Rs]. }
  eapply always_bind; [by apply preparePlannedWork_spec|].
  intros [work|err] Hw; [|by apply always_ret, Hbad]. destruct Hw as (Wb & Ws & Wv).
  case_match; [apply always_skip; intros seq; by apply start_spec|].
  case_match; [|by apply always_ret, Hbad].
  apply always_skip. intros seq. eapply always_bind; [apply lookup_spec; done || lia|].
  intros [r|x] Hx; [by apply start_spec|]. apply always_ret. eauto.
Qed.

(** The deferred function completes the stop reason and the counters. *)
Lemma finish_spec x :
  exit_ok x →
  always (plan_finish baseCall policy callID traceID startedAt x) (fun p =>
    p.2 = px_err x ∧ ExitOK baseCall policy p.1 p.2
    ∧ (p.2 = None ↔ cr_StopReason p.1 = "succeeded")
    ∧ dg_AttemptsUsed (cr_Diagnostics p.1) = llen (cr_Attempts p.1)
    ∧ dg_AttemptsUsed (cr_Diagnostics p.1) + dg_AttemptsRemaining (cr_Diagnostics p.1) = MaxAttempts policy
    ∧ dg_StopReason (cr_Diagnostics p.1) = cr_StopReason p.1).
Proof.
  intros HE. unfold plan_finish.
  match goal with |- context [if String.eqb ?a "" then ?b else ?c] => set (r1 := if String.eqb a "" then b else c) end.
  assert (ExitOK baseCall policy r1 (px_err x) ∧ (px_err x = None ↔ cr_StopReason r1 = "succeeded")) as [HE1 Hiff].
  { unfold r1. destruct (px_err x) as [err|] eqn:Ex.
    - destruct (exit_failed _ _ _ _ HE) as [Hn Hk]; [by rewrite Ex|]. pose proof (stopReason_error err).
      rewrite <- Ex. destruct (String.eqb _ _); rewrite Ex; (split; [|done]); apply exit_error; try done; apply HE.
    - destruct (exit_succeeded _ _ _ _ HE Ex) as [[Es|Es] Hsrc]; rewrite Es; cbn; (split; [|done]);
        [by rewrite <- Ex|].
      constructor; [apply HE|apply HE|done|intros _; split; [by left|done]|intros _; by apply (exit_admitted _ _ _ _ HE)]. }
  clearbody r1. do 2 (apply always_skip; intros ?). apply always_ret. cbn [fst snd].
  pose proof (exit_budget _ _ _ _ HE1) as Hb. destruct HE1. split; [done|]. split; [by constructor|].
  split; [exact Hiff|]. repeat split; try done; cbn; lia.
Qed.
End PlanProofs.

(** ** What the abstract machine implies *)

Lemma plan_trace_pair policy l a b i :
  plan_trace policy l → l !! i = Some a → l !! S i = Some b →
  k_number b = k_number a + 1
  ∧ ((k_stage b = k_stage a ∧ k_branch b = k_branch a ∧ k_category a ≠ CategoryParse ∧ k_retryable a = true
      ∧ k_retryOf b = k_number a)
     ∨ (k_category a = CategoryParse ∧ k_stage b = nextPlannedStage policy (k_branch a) (k_stage a) ∧ k_stage b ≠ ""
        ∧ k_branch b = branchAfter (k_branch a) (k_stage b) ∧ k_retryOf b = 0)).
Proof.
  induction 1 as [|c r|l x c r Ht IH Hc Hr|l x c r Ht IH Hc Hn next]; intros Ha Hb; [done|by destruct i| |].
  all: destruct (decide (S i < length (l ++ [x])))%nat as [Hlt|Hge];
    [rewrite lookup_app_l in Ha, Hb by lia; by apply IH|].
  all: pose proof (lookup_lt_Some _ _ _ Hb) as Hlen; rewrite length_app in Hlen; cbn in Hlen;
    assert (S i = length (l ++ [x])) as Ei by lia.
  all: rewrite Ei, lookup_app_r, Nat.sub_diag in Hb by lia; injection Hb as <-.
  all: rewrite length_app in Ei; cbn in Ei; assert (i = length l) as -> by lia.
  all: rewrite lookup_app_l in Ha by (rewrite length_app; cbn; lia);
    rewrite lookup_app_r, Nat.sub_diag in Ha by lia; injection Ha as <-; cbn; split; [done|].
  - by left.
  - by right.
Qed.

Lemma plan_trace_first policy l a :
  plan_trace policy l → l !! 0%nat = Some a →
  k_number a = 1 ∧ k_stage a = stageOriginalGenerate ∧ k_branch a = "original".
Proof.
  induction 1 as [|c r|l x c r Ht IH Hc Hr|l x c r Ht IH Hc Hn next]; intros Ha; [done|by injection Ha as <-| |].
  all: rewrite lookup_app_l in Ha by (rewrite length_app; cbn; lia); auto.
Qed.

Lemma plan_trace_legal policy l i a :
  plan_trace policy l → l !! i = Some a → legal (k_branch a) (k_stage a) ∧ k_number a = Z.of_nat i + 1.
Proof.
  intros Ht. revert a. induction i as [|i IH]; intros a Ha.
  - destruct (plan_trace_first _ _ _ Ht Ha) as (-> & -> & ->). split; [left; set_solver|done].
  - destruct (lookup_lt_is_Some_2 l i) as [b Hb]; [apply lookup_lt_Some in Ha; lia|].
    destruct (IH b Hb) as [HL Hn].
    destruct (plan_trace_pair _ _ _ _ _ Ht Hb Ha) as (En & [(-> & -> & _)|(_ & Es & Hne & Eb & _)]);
      (split; [|lia]); [done|]. rewrite Es in Hne. rewrite Eb, Es. by apply nextPlannedStage_forward.
Qed.

(** The stages of a trace never go back. *)
Lemma plan_trace_rank policy l i a b :
  plan_trace policy l → l !! i = Some a → l !! S i = Some b →
  rank (k_stage a) ≤ rank (k_stage b) ∧ (k_category a = CategoryParse → rank (k_stage a) < rank (k_stage b)).
Proof.
  intros Ht Ha Hb. destruct (plan_trace_legal _ _ _ _ Ht Ha) as [HL _].
  destruct (plan_trace_pair _ _ _ _ _ Ht Ha Hb) as (_ & [(-> & _ & Hc & _)|(_ & Es & Hne & _)]).
  - split; [lia|done].
  - rewrite Es in Hne. destruct (nextPlannedStage_forward policy _ _ HL Hne) as [Hr _]. rewrite Es. lia.
Qed.

(** ** The whole call *)

(** What the caller of [executeRecoveryPlan] can rely on. *)
Record PlanOutcome (call : Call) (policy : Policy) (record : CallRecord) (err : option goerror) : Prop := {
  out_trace : plan_trace policy (keys record);
  out_budget : llen (cr_Attempts record) ≤ MaxAttempts policy;
  out_stop : err = None ↔ cr_StopReason record = "succeeded";
  out_failed : err ≠ None → str_in (rs_Kind (cr_ResultSource record)) [ResultSourceProvider; ResultSourceCache] = false;
  out_committed : err = None → ExitOK call policy record None
    ∧ dg_AttemptsUsed (cr_Diagnostics record) = llen (cr_Attempts record)
    ∧ dg_AttemptsUsed (cr_Diagnostics record) + dg_AttemptsRemaining (cr_Diagnostics record) = MaxAttempts policy;
}.

Section WholeCall.
Context `{Env}.

Lemma failed_outcome call policy record err :
  0 ≤ MaxAttempts policy → cr_Attempts record = [] → cr_StopReason record ≠ "succeeded" →
  str_in (rs_Kind (cr_ResultSource record)) [ResultSourceProvider; ResultSourceCache] = false →
  PlanOutcome call policy record (Some err).
Proof.
  intros Hm Ha Hs Hk. constructor; unfold keys; rewrite ?Ha; try done. constructor.
Qed.

Lemma executeRecoveryPlan_outcome fuel connection credential call policy cache cacheMode cacheVersion callID traceID :
  0 ≤ MaxAttempts policy < Z.of_nat fuel →
  always (executeRecoveryPlan fuel connection credential call policy cache cacheMode cacheVersion callID traceID)
    (fun r => ∃ record err, r = Some (record, err) ∧ PlanOutcome call policy record err).
Proof.
  intros Hm. unfold executeRecoveryPlan.
  destruct (String.eqb_spec (call_CallType call) "structured") as [Hs|]; cbn [negb];
    [|apply always_ret; do 2 eexists; split; [done|]; apply failed_outcome; done || lia].
  destruct (String.eqb (conn_ID connection) "");
    [apply always_ret; do 2 eexists; split; [done|]; apply failed_outcome; done || lia|].
  apply always_skip. intros _.
  apply (always_bind _ _ (fun b => call_CallType b = "structured"
                                    ∧ call_ValidateStructured b = call_ValidateStructured call)).
  { case_match; [apply always_skip; intros ?|]; by apply always_ret. }
  intros baseCall [Hbs Hbv]. apply always_skip. intros [err|].
  { apply always_skip. intros _. apply always_ret. do 2 eexists. split; [done|].
    apply failed_outcome; try done || lia. apply stopReason_error. }
  case_match.
  { apply always_skip. intros _. apply always_ret. do 2 eexists. split; [done|]. apply failed_outcome; done || lia. }
  apply always_skip. intros startedAt.
  eapply always_bind.
  { apply body_spec; [done|done|]. unfold with_deadline. by case_match. }
  intros ? (x & -> & Hx). eapply always_bind; [by apply finish_spec|].
  intros [record err] (_ & HE & Hiff & Hu & Hr & _). apply always_skip. intros _. apply always_ret.
  exists record, err. split; [done|]. cbn in *. constructor; try apply HE; try done.
  - intros Hn. destruct (exit_failed _ _ _ _ HE Hn) as [_ ->]. done.
  - intros ->. split; [|done]. destruct HE as [? ? ? ? Hadm]. constructor; try done. by rewrite <- Hbv.
Qed.
End WholeCall.

(** ** Properties *)

(** A plan run: a rate limit, an invalid output, then the repair succeeds. *)
Definition plan_script : Script :=
  script_world [(script_result "x", Some rate_limited); (script_result "bad", None); (script_result "ok", None)].

Definition plan_demo : option (CallRecord * option goerror) :=
  (executeRecoveryPlan 5 script_connection script_credential (script_call "structured") script_policy false ModeOff
     "" "call" "trace" plan_script).2.

(** C1: every run of [executeRecoveryPlan] refines the plan: the attempts of
    its record are a trace of the abstract machine [plan_trace], and the retries
    of transport failures and the stages of the plan share one budget. *)
Theorem executeRecoveryPlan_refines_plan `{Env} fuel connection credential call policy cache cacheMode cacheVersion
    callID traceID w :
  0 ≤ MaxAttempts policy < Z.of_nat fuel →
  ∃ record err,
    (executeRecoveryPlan fuel connection credential call policy cache cacheMode cacheVersion callID traceID w).2
      = Some (record, err)
    ∧ plan_trace policy (keys record) ∧ llen (cr_Attempts record) ≤ MaxAttempts policy.
Proof.
  intros Hf. destruct (executeRecoveryPlan_outcome fuel connection credential call policy cache cacheMode
    cacheVersion callID traceID Hf w) as (r & e & -> & HO). exists r, e. split; [done|]. split; apply HO.
Qed.

Lemma executeRecoveryPlan_refines_plan_witness :
  ∃ record err, plan_demo = Some (record, err)
    ∧ plan_trace script_policy (keys record)
    ∧ keys record = [MkKey 1 stageOriginalGenerate "original" CategoryRateLimit true 0;
                     MkKey 2 stageOriginalGenerate "original" CategoryParse true 1;
                     MkKey 3 stageOriginalRepairInitial "original" CategorySuccess false 0].
Proof.
  destruct (executeRecoveryPlan_refines_plan (H := ScriptEnv) 5 script_connection script_credential (script_call "structured")
    script_policy false ModeOff "" "call" "trace" plan_script) as (r & e & E & Ht & _);
    [split; [vm_compute; discriminate|vm_compute; reflexivity]|].
  exists r, e. split; [exact E|]. split; [exact Ht|]. vm_compute in E. injection E as <- _. vm_compute. reflexivity.
Defined.

(** C2: [executeRecoveryPlan] never commits unvalidated output: it returns no
    error exactly when the record says it succeeded, and then the output is
    non-empty, passed the caller's validator, carries a valid ledger, and comes
    from the last, successful attempt or from the cache; on an error no result
    source is recorded. *)
Theorem executeRecoveryPlan_commits_admitted `{Env} fuel connection credential call policy cache cacheMode cacheVersion
    callID traceID w :
  0 ≤ MaxAttempts policy < Z.of_nat fuel →
  ∃ record err,
    (executeRecoveryPlan fuel connection credential call policy cache cacheMode cacheVersion callID traceID w).2
      = Some (record, err)
    ∧ (err = None ↔ cr_StopReason record = "succeeded")
    ∧ match err with
      | Some _ => str_in (rs_Kind (cr_ResultSource record)) [ResultSourceProvider; ResultSourceCache] = false
      | None =>
          admitted "structured" (call_ValidateStructured call) (cr_Output record) (acct_Result (cr_Accounting record))
          ∧ ((rs_Kind (cr_ResultSource record) = ResultSourceProvider
              ∧ rs_AttemptNumber (cr_ResultSource record) = llen (cr_Attempts record)
              ∧ at_Category <$> last (cr_Attempts record) = Some CategorySuccess)
             ∨ (rs_Kind (cr_ResultSource record) = ResultSourceCache ∧ cf_Served (cr_Cache record) = true))
          ∧ dg_AttemptsUsed (cr_Diagnostics record) + dg_AttemptsRemaining (cr_Diagnostics record) = MaxAttempts policy
      end.
Proof.
  intros Hf. destruct (executeRecoveryPlan_outcome fuel connection credential call policy cache cacheMode
    cacheVersion callID traceID Hf w) as (r & e & -> & HO). exists r, e. split; [done|]. split; [apply HO|].
  destruct e as [e|]; [by apply (out_failed _ _ _ _ HO)|].
  destruct (out_committed _ _ _ _ HO eq_refl) as (HE & _ & Hr).
  split; [by apply (exit_admitted _ _ _ _ HE)|]. split; [by apply (exit_succeeded _ _ _ _ HE)|done].
Qed.

Lemma executeRecoveryPlan_commits_admitted_witness :
  ∃ record, plan_demo = Some (record, None) ∧ cr_StopReason record = "succeeded" ∧ cr_Output record = JStr "ok".
Proof.
  destruct (executeRecoveryPlan_commits_admitted (H := ScriptEnv) 5 script_connection script_credential
    (script_call "structured") script_policy false ModeOff "" "call" "trace" plan_script) as (r & e & E & Hiff & _);
    [split; [vm_compute; discriminate|vm_compute; reflexivity]|].
  assert (e = None) as -> by (vm_compute in E; injection E as _ <-; reflexivity).
  exists r. split; [exact E|]. split; [apply Hiff; reflexivity|].
  vm_compute in E. injection E as <-. reflexivity.
Defined.

(** The stages of a plan only move forward: the attempts of any record are
    numbered from 1 without gaps, an attempt after invalid output is at a
    strictly later stage of the plan, and an attempt after any other failure
    retries the same stage, which the failed attempt recorded as retryable. *)
Theorem executeRecoveryPlan_stages_forward `{Env} fuel connection credential call policy cache cacheMode cacheVersion
    callID traceID w record err :
  0 ≤ MaxAttempts policy < Z.of_nat fuel →
  (executeRecoveryPlan fuel connection credential call policy cache cacheMode cacheVersion callID traceID w).2
    = Some (record, err) →
  (∀ i a, cr_Attempts record !! i = Some a → at_Number a = Z.of_nat i + 1 ∧ at_Stage a ∈ stageOrder)
  ∧ ∀ i a b, cr_Attempts record !! i = Some a → cr_Attempts record !! S i = Some b →
      if String.eqb (at_Category a) CategoryParse
      then rank (at_Stage a) < rank (at_Stage b) ∧ at_TransportRetryOf b = 0
      else at_Stage b = at_Stage a ∧ at_Retryable a = true ∧ at_TransportRetryOf b = at_Number a.
Proof.
  intros Hf E. destruct (executeRecoveryPlan_outcome fuel connection credential call policy cache cacheMode
    cacheVersion callID traceID Hf w) as (r & e & E' & HO). rewrite E in E'. injection E' as <- <-.
  pose proof (out_trace _ _ _ _ HO) as Ht.
  assert (∀ i a, cr_Attempts record !! i = Some a → keys record !! i = Some (attempt_key a)) as Hk.
  { intros i a Ha. unfold keys. by rewrite list_lookup_fmap, Ha. }
  split.
  - intros i a Ha%Hk. destruct (plan_trace_legal _ _ _ _ Ht Ha) as [HL Hn]. split; [done|].
    unfold stageOrder. cbn in HL. destruct HL as [[_ HL]|[_ HL]]; set_solver.
  - intros i a b Ha%Hk Hb%Hk. destruct (plan_trace_rank _ _ _ _ _ Ht Ha Hb) as [_ Hr].
    destruct (plan_trace_pair _ _ _ _ _ Ht Ha Hb) as (_ & HP). cbn in HP, Hr.
    destruct (String.eqb_spec (at_Category a) CategoryParse) as [Hc|Hc]; naive_solver.
Qed.

Lemma executeRecoveryPlan_stages_forward_witness :
  ∃ record err, plan_demo = Some (record, err)
    ∧ ∀ i a, cr_Attempts record !! i = Some a → at_Number a = Z.of_nat i + 1 ∧ at_Stage a ∈ stageOrder.
Proof.
  assert (0 ≤ MaxAttempts script_policy < Z.of_nat 5) as Hf by (split; [vm_compute; discriminate|vm_compute; reflexivity]).
  destruct (executeRecoveryPlan_outcome (H := ScriptEnv) 5 script_connection script_credential
    (script_call "structured") script_policy false ModeOff "" "call" "trace" Hf plan_script) as (r & e & E & _).
  exists r, e. split; [exact E|].
  exact (proj1 (executeRecoveryPlan_stages_forward (H := ScriptEnv) 5 script_connection script_credential
    (script_call "structured") script_policy false ModeOff "" "call" "trace" plan_script r e Hf E)).
Defined.
