(* ===== verification/RuntimeExecute.v ===== *)
(** * RuntimeExecute: the entry point of the runtime

    Models [Execute] of [src/internal/runtime/execute.go]: the validation of the
    request, the dispatch of structured calls with an explicit plan to
    [executeRecoveryPlan], and the single-stage loop every other call runs: cache
    lookup, attempts with transport retries, admission and cache write. *)
From Corelib Require Import SpecFloat.
From S2P Require Import Prelude Float64 Json Retry Accounting CacheKey Runtime Scripted RecoveryPlan.

Open Scope string_scope.
Open Scope list_scope.
Open Scope Z_scope.

Definition hasExplicitRecoveryPlan (policy : Policy) : bool := UsesExplicitPlan policy.

Section Execute.
Context `{Env}.

(** The loop's variables: the record, the accumulator, the number of the next
    attempt and the progress counter. *)
Record ExecState := MkExecState {
  ex_record : CallRecord;
  ex_acc : ProviderAccumulator;
  ex_number : Z;
  ex_seq : Z;
}.

(** A [return record, err] and the progress counter the deferred function sees. *)
Record ExecExit := MkExecExit {
  ee_record : CallRecord;
  ee_err : option goerror;
  ee_seq : Z;
}.

Variable connection : Connection.
Variable credential : Credential.
Variable call : Call.
Variable policy : Policy.
Variable cache : bool.
Variable cacheMode : Mode.
Variable cacheVersion : string.
Variable callID : string.
Variable traceID : string.
Variable startedAt : Time.

(** The closure [emitProgress]. *)
Definition emitProgress (record : CallRecord) (activeStream : option StreamDiagnostics) (eventType : string)
    (attempt : Z) (terminal : bool) (seq : Z) : M Z :=
  if negb (call_Progress call) then ret seq
  else
    let seq := (seq + 1) mod 2 ^ 64 in
    let! event := buildProgressSnapshot startedAt record activeStream
      (MkProgress seq (RunID (call_Context call)) callID traceID eventType "original.generate" "original"
         (conn_ID connection) (call_ReasoningEffort call) attempt 0 0 0 None 0 0 0 0 0 ""
         terminal (MaxAttempts policy) None zeroOrigin [] None) in
    fun w => (env_Progress event w, seq).

(** Admission of a result: invalid structured output is a parse failure whose
    response the record keeps. *)
Definition exec_admit (result : ProviderResult) (record : CallRecord)
  : M (CallRecord * option goerror * string) :=
  let! admissionErr := admitResult result (call_CallType call)
    (validateStructuredValue (call_Observer call) connection (has (call_Repair call)) (call_ValidateStructured call)) in
  match admissionErr with
  | None => ret (record, None, "")
  | Some err =>
      if String.eqb (call_CallType call) "structured" && negb (has (asProvider err)) then
        let previousOutput := Marshal (pr_Output result) in
        ret (captureParseFailureResponse record previousOutput,
             Some (EProvider (Some err) (MkProviderError CategoryParse "STRUCTURED_SCHEMA" "" "" "" 0 0)),
             previousOutput)
      else ret (record, Some err, "")
  end.

Record ExecOutcome := MkExecOutcome {
  eo_state : ExecState;
  eo_result : ProviderResult;
  eo_failure : option goerror;
  eo_classification : Classification;
}.

(** From [started := config.Now()] to [endAttempt(failure)]. *)
Definition exec_attempt (prepared : PreparedOperation) (target : ExecutionTarget) (st : ExecState) : M ExecOutcome :=
  let number := ex_number st in
  let observer := call_Observer call in
  let! started := Now in
  let! _ := observe observer (StartAttempt target (call_CallType call) number) in
  let! _ := observe observer (StartProvider target (call_CallType call)) in
  let! executed := fun w =>
    runExec (fun snapshot seq => emitProgress (ex_record st) (Some snapshot) "run.progress" number false seq)
      (env_Execute prepared w) (ex_seq st) in
  let '(seq, result, failure) := executed in
  let record := (ex_record st) <| cr_AssistantText := pr_AssistantText result |> in
  let! finished := Now in
  let record := record <| cr_Diagnostics ::= addStream (pr_Stream result) |> in
  let '(result, acc, failure) := accountAttempt connection (ex_acc st) result failure in
  let record := record <| cr_Accounting ::= fun a => a <| acct_Provider := accumulator_Ledger acc |> |> in
  let! admitted :=
    match failure with
    | None => exec_admit result record
    | Some _ => ret (record, failure, "")
    end in
  let '(record, failure, previousOutput) := admitted in
  let! _ := observe observer (FinishProvider (pr_ProviderDispatched result) failure) in
  let record := match failure with
                | Some err => (captureProviderParseFailure record err previousOutput).1
                | None => record
                end in
  let! contextErr := checkContext in
  let failure := match contextErr with Some err => Some err | None => failure end in
  let c := Classify failure policy in
  let! ended := Now in
  let attemptRecord :=
    {| at_Number := number; at_ConnectionID := conn_ID connection; at_Target := target;
       at_ProviderUsed := pr_ProviderDispatched result; at_Category := cl_Category c; at_Status := cl_Status c;
       at_Retryable := cl_Retryable c; at_Delay := 0; at_Duration := Z.max 0 (Sub ended started);
       at_Repair := has (call_Repair call); at_Code := cl_Code c; at_Type := cl_Type c;
       at_ProviderRequestID := cl_ProviderRequestID c; at_Stage := "original.generate"; at_Branch := "original";
       at_TriggerAttempt := 0; at_InputAttempts := []; at_TransportRetryOf := 0;
       at_StartedAt := Some started; at_FinishedAt := Some finished;
       at_ReasoningEffort := call_ReasoningEffort call; at_DispatchObserved := pr_ProviderDispatched result;
       at_Stream := if has_stream (pr_Stream result) then Some (pr_Stream result) else None;
       at_WaitDiagnostics := None |} in
  let record := record <| cr_Attempts ::= fun l => l ++ [attemptRecord] |> in
  let! seq := emitProgress record None "run.progress" number false seq in
  let! _ := observe observer (FinishAttempt failure) in
  ret {| eo_state := {| ex_record := record; ex_acc := acc; ex_number := number; ex_seq := seq |};
         eo_result := result; eo_failure := failure; eo_classification := c |}.

Definition exec_exit (record : CallRecord) (err : option goerror) (st : ExecState) : ExecExit :=
  {| ee_record := record; ee_err := err; ee_seq := ex_seq st |}.

(** A successful attempt: the result is committed and written to the cache. *)
Definition exec_succeed (target : ExecutionTarget) (o : ExecOutcome) : M ExecExit :=
  let st := eo_state o in
  let result := eo_result o in
  let record := (ex_record st) <| cr_Output := pr_Output result |> in
  let record := if has (pr_Search result) then record <| cr_Search := pr_Search result |> else record in
  let record := record <| cr_Accounting ::= fun a => a <| acct_Result := pr_Accounting result |> |>
                       <| cr_ResultSource := MkResultSource ResultSourceProvider (ex_number st) (Some target) |> in
  if negb (String.eqb cacheMode ModeOff) then
    let cacheResult := if has (pr_Search result) then result else result <| pr_Search := cr_Search record |> in
    let! _ := observe (call_Observer call) (StartCache "write") in
    let! cacheErr := env_CacheSet (cf_OperationHash (cr_Cache record)) cacheVersion
                       (MkCached cacheResult target target "generation") in
    match cacheErr with
    | Some err =>
        let record := record <| cr_Cache ::= fun f => f <| cf_Status := "write_failed" |> |> in
        let! _ := observe (call_Observer call) (FinishCache (cf_Status (cr_Cache record)) (Some err)) in
        ret (exec_exit record None st)
    | None =>
        let! _ := observe (call_Observer call) (FinishCache (cf_Status (cr_Cache record)) None) in
        ret (exec_exit (record <| cr_Cache ::= fun f => f <| cf_Written := true |> |>) None st)
    end
  else ret (exec_exit record None st).

(** A failed attempt: the last one, a permanent one, or one to retry. *)
Definition exec_retry (target : ExecutionTarget) (o : ExecOutcome) (failure : goerror) : M (ExecState + ExecExit) :=
  let st := eo_state o in
  let c := eo_classification o in
  let record := ex_record st in
  if (ex_number st =? MaxAttempts policy) || negb (cl_Retryable c) then ret (inr (exec_exit record (Some failure) st))
  else
    let! random := env_Random in
    let delay := Delay (ex_number st) (cl_RetryAfter c) (pol_Backoff policy) random in
    let! late := match env_Deadline with
                 | Some deadline => let! now := Now in ret (Sub deadline now <=? delay)
                 | None => ret false
                 end in
    if late then ret (inr (exec_exit record (Some EDeadlineExceeded) st))
    else
      let record := record <| cr_Attempts ::= map_last (fun a => a <| at_Delay := delay |>) |> in
      let! waitStarted := Now in
      let! err := waitForRetry (call_Observer call) target (call_CallType call) c delay in
      let! waitEnded := Now in
      let actualWait := Z.max 0 (Sub waitEnded waitStarted) in
      let record := record <| cr_Diagnostics ::= fun d => d <| dg_TotalActualWait ::= fun t => wrap64 (t + actualWait) |> |>
                           <| cr_Attempts ::= map_last (fun a => a <| at_WaitDiagnostics :=
                                Some (MkWait (cl_Category c) delay actualWait (cl_RetryAfter c)) |>) |> in
      match err with
      | Some err => ret (inr (exec_exit record (Some err) st))
      | None =>
          let! contextErr := checkContext in
          match contextErr with
          | Some err => ret (inr (exec_exit record (Some err) st))
          | None => ret (inl (st <| ex_record := record |> <| ex_number ::= Z.succ |>))
          end
      end.

(** One turn of the loop. *)
Definition exec_iteration (prepared : PreparedOperation) (target : ExecutionTarget) (st : ExecState)
  : M (ExecState + ExecExit) :=
  let! contextErr := checkContext in
  match contextErr with
  | Some err => ret (inr (exec_exit (ex_record st) (Some err) st))
  | None =>
      let! o := exec_attempt prepared target st in
      match eo_failure o with
      | None => let! exit := exec_succeed target o in ret (inr exit)
      | Some failure => exec_retry target o failure
      end
  end.

Fixpoint exec_loop (fuel : nat) (prepared : PreparedOperation) (target : ExecutionTarget) (st : ExecState)
  : M (option ExecExit) :=
  match fuel with
  | O => ret None
  | S fuel =>
      let! r := exec_iteration prepared target st in
      match r with
      | inr exit => ret (Some exit)
      | inl st => exec_loop fuel prepared target st
      end
  end.

Definition add_original_cache (record : CallRecord) (target : ExecutionTarget) : CallRecord :=
  record <| cr_Diagnostics ::= fun d =>
              d <| dg_BranchCaches ::= fun l => l ++ [MkBranchCache "original" target (cr_Cache record)] |> |>.

(** A cached result committed to the record. *)
Definition exec_serve (record : CallRecord) (target : ExecutionTarget) (cached : CachedResult) : CallRecord :=
  let result := ca_ProviderResult cached in
  add_original_cache
    (record <| cr_Output := pr_Output result |> <| cr_Search := pr_Search result |>
            <| cr_AssistantText := pr_AssistantText result |>
            <| cr_Accounting ::= fun a => a <| acct_Result := pr_Accounting result |> |>
            <| cr_ResultSource := MkResultSource ResultSourceCache 0 (Some (ca_Producer cached)) |>
            <| cr_Cache ::= fun f => f <| cf_Status := "hit" |> <| cf_Served := true |> |>) target.

(** The [if cacheMode != cachekey.ModeOff] block: the record to go on with, or
    an early return. *)
Definition exec_lookup (record : CallRecord) (prepared : PreparedOperation) (target : ExecutionTarget)
  : M (CallRecord + CallRecord * option goerror) :=
  if String.eqb cacheMode ModeOff then ret (inl record)
  else if negb cache then
    ret (inr (record, Some (EText "runtime cache is required when cache mode is active")))
  else
    match Hash env_sha256_hex (po_Operation prepared) cacheVersion with
    | Err e => ret (inr (record, Some (cacheKeyError e)))
    | Ok hash =>
        let record := record <| cr_Cache ::= fun f => f <| cf_OperationHash := hash |> |> in
        let enter status :=
          inl (add_original_cache (record <| cr_Cache ::= fun f => f <| cf_Status := status |> |>) target) in
        if String.eqb cacheMode ModeCache then
          let! _ := observe (call_Observer call) (StartCache "lookup") in
          let! got := env_CacheGet hash cacheVersion in
          match got with
          | Err cacheErr =>
              let! _ := observe (call_Observer call) (FinishCache "unknown" (Some cacheErr)) in
              ret (inr (record, Some cacheErr))
          | Ok (Some cached) =>
              let! admissionErr := admitCachedResult connection target cached call in
              match admissionErr with
              | Some err =>
                  let! _ := observe (call_Observer call) (FinishCache "unknown" (Some err)) in
                  ret (inr (record, Some ECacheIntegrity))
              | None =>
                  let! _ := observe (call_Observer call) (FinishCache "hit" None) in
                  ret (inr (exec_serve record target cached, None))
              end
          | Ok None =>
              let! _ := observe (call_Observer call) (FinishCache "miss" None) in
              ret (enter "miss")
          end
        else ret (enter "refresh")
    end.

(** From the first progress event to the end of the loop. *)
Definition exec_body (fuel : nat) (record : CallRecord) : M (option ExecExit) :=
  let! seq := emitProgress record None "run.started" 0 false 0 in
  let exit record err := ret (Some {| ee_record := record; ee_err := err; ee_seq := seq |}) in
  let! contextErr := checkContext in
  match contextErr with
  | Some err => exit record (Some err)
  | None =>
      let! prepared := env_Prepare connection credential call in
      match prepared with
      | Err err => exit record (Some err)
      | Ok prepared =>
          let prepared := withCacheDomain prepared connection in
          let record := record <| cr_PreparedOperation := Some prepared |> in
          let target := targetFromPrepared connection prepared in
          let! looked := exec_lookup record prepared target in
          match looked with
          | inr (record, err) => exit record err
          | inl record =>
              exec_loop fuel prepared target
                {| ex_record := record; ex_acc := NewProviderAccumulator; ex_number := 1; ex_seq := seq |}
          end
      end
  end.

(** The deferred function. *)
Definition exec_finish (exit : ExecExit) : M (CallRecord * option goerror) :=
  let record := ee_record exit in
  let record := if String.eqb (cr_StopReason record) ""
                then record <| cr_StopReason := stopReasonFor (ee_err exit) |> else record in
  let! now := Now in
  let used := llen (cr_Attempts record) in
  let record := record <| cr_Diagnostics ::= fun d =>
        d <| dg_AttemptsUsed := used |>
          <| dg_AttemptsRemaining := Z.max (MaxAttempts policy - used) 0 |>
          <| dg_Elapsed := Z.max (Sub now startedAt) 0 |>
          <| dg_Stage := recordLastStage (cr_Attempts record) |>
          <| dg_Branch := "original" |>
          <| dg_StopReason := cr_StopReason record |> |> in
  let! _ := emitProgress record None "run.terminal" used true (ee_seq exit) in
  ret (record, ee_err exit).
End Execute.

(** [Execute]; [hasContext] and [hasExecutor] say that the arguments are not
    nil.  [None] when [fuel] turns of a loop are not enough. *)
Definition ExecuteFuel `{Env} (fuel : nat) (hasContext hasExecutor : bool) (connection : Connection)
    (credential : Credential) (call : Call) (policy : Policy) (cache : bool) (cacheMode : Mode)
    (cacheVersion callID traceID : string) : M (option (CallRecord * option goerror)) :=
  let refuse err := ret (Some (zeroRecord, Some err)) in
  if negb hasContext then refuse (EText "runtime context is required")
  else if negb hasExecutor then refuse (EText "runtime executor is required")
  else match policy_Validate policy with
  | Err err => refuse err
  | Ok _ =>
      if String.eqb (conn_ID connection) "" then refuse (EText "runtime connection ID is required")
      else if String.eqb (call_CallType call) "structured" && negb (has (call_ValidateStructured call)) then
        refuse (EText "structured call validator is required")
      else if String.eqb (call_CallType call) "structured" && hasExplicitRecoveryPlan policy then
        executeRecoveryPlan fuel connection credential call policy cache cacheMode cacheVersion callID traceID
      else
        let! call := if call_WebSearch call
                     then let! memo := env_NewMemo in ret (call <| call_SearchMemo := Some memo |>)
                     else ret call in
        let! _ := observe (call_Observer call)
                    (StartRuntime (conn_ID connection) (conn_Provider connection) (call_ModelID call) (call_CallType call)) in
        let cacheVersion := if String.eqb cacheVersion "" then DefaultVersion else cacheVersion in
        let record := initialRecord connection call cacheMode cacheVersion callID traceID in
        let! startedAt := Now in
        let! exit := exec_body connection credential call policy cache cacheMode cacheVersion callID traceID startedAt
                       fuel (with_deadline startedAt record) in
        match exit with
        | None => ret None
        | Some exit =>
            let! r := exec_finish connection call policy callID traceID startedAt exit in
            let! _ := observe (call_Observer call) (FinishRuntime r.2) in
            ret (Some r)
        end
  end.

(** The fuel is the attempt budget plus one. *)
Definition Execute `{Env} (hasContext hasExecutor : bool) (connection : Connection)
    (credential : Credential) (call : Call) (policy : Policy) (cache : bool) (cacheMode : Mode)
    (cacheVersion callID traceID : string) : M (option (CallRecord * option goerror)) :=
  ExecuteFuel (S (Z.to_nat (MaxAttempts policy))) hasContext hasExecutor connection credential call policy cache
    cacheMode cacheVersion callID traceID.

(** ** The invariant of the loop *)

Definition tkeys (r : CallRecord) : list (Z * bool) := map (fun a => (at_Number a, at_Retryable a)) (cr_Attempts r).

(** Attempts are numbered from 1, and each but the last was retryable. *)
Definition retry_chain (l : list (Z * bool)) : Prop :=
  ∀ i n b, l !! i = Some (n, b) → n = Z.of_nat i + 1 ∧ ((S i < length l)%nat → b = true).
Definition retried (l : list (Z * bool)) : Prop := ∀ i n b, l !! i = Some (n, b) → n = Z.of_nat i + 1 ∧ b = true.

Lemma retried_chain l n b : retried l → n = llen l + 1 → retry_chain (l ++ [(n, b)]).
Proof.
  intros Hl -> i n' b' Hi. rewrite length_app. cbn.
  destruct (decide (i < length l))%nat.
  - rewrite lookup_app_l in Hi by done. destruct (Hl _ _ _ Hi). done.
  - pose proof (lookup_lt_Some _ _ _ Hi) as Hlt. rewrite length_app in Hlt. cbn in Hlt.
    assert (i = length l) as -> by lia. rewrite lookup_app_r, Nat.sub_diag in Hi by lia. injection Hi as <- <-.
    unfold llen. split; lia.
Qed.

Lemma chain_retried l n : retry_chain (l ++ [(n, true)]) → retried (l ++ [(n, true)]).
Proof.
  intros Hl i n' b Hi. destruct (Hl i n' b Hi) as [-> Hb]. split; [done|].
  destruct (decide (S i < length (l ++ [(n, true)])))%nat; [auto|].
  pose proof (lookup_lt_Some _ _ _ Hi) as Hlt. rewrite length_app in *. cbn in *.
  assert (i = length l) as -> by lia. rewrite lookup_app_r, Nat.sub_diag in Hi by lia. by injection Hi.
Qed.

Record ExecOK (call : Call) (policy : Policy) (record : CallRecord) (err : option goerror) : Prop := {
  eok_budget : llen (cr_Attempts record) ≤ MaxAttempts policy;
  eok_chain : retry_chain (tkeys record);
  eok_failed : err ≠ None → rs_Kind (cr_ResultSource record) = ResultSourceNone;
  eok_succeeded : err = None →
    admitted (call_CallType call) (call_ValidateStructured call) (cr_Output record) (acct_Result (cr_Accounting record))
    ∧ ((rs_Kind (cr_ResultSource record) = ResultSourceProvider
        ∧ rs_AttemptNumber (cr_ResultSource record) = llen (cr_Attempts record)
        ∧ at_Category <$> last (cr_Attempts record) = Some CategorySuccess)
       ∨ (rs_Kind (cr_ResultSource record) = ResultSourceCache ∧ cr_Attempts record = []
          ∧ cf_Served (cr_Cache record) = true));
}.

Section ExecProofs.
Context `{Env}.
Variable connection : Connection.
Variable credential : Credential.
Variable call : Call.
Variable policy : Policy.
Variable cache : bool.
Variable cacheMode : Mode.
Variable cacheVersion : string.
Variable callID : string.
Variable traceID : string.
Variable startedAt : Time.

Abbreviation attempt_of := (exec_attempt connection call policy callID traceID startedAt).
Abbreviation iteration := (exec_iteration connection call policy cacheMode cacheVersion callID traceID startedAt).

Record ExecInv (st : ExecState) : Prop := {
  ei_retried : retried (tkeys (ex_record st));
  ei_count : llen (cr_Attempts (ex_record st)) + 1 = ex_number st;
  ei_budget : 1 ≤ ex_number st ≤ MaxAttempts policy;
  ei_stop : cr_StopReason (ex_record st) = "";
  ei_source : rs_Kind (cr_ResultSource (ex_record st)) = ResultSourceNone;
}.

Definition exit_fine (x : ExecExit) : Prop :=
  ExecOK call policy (ee_record x) (ee_err x) ∧ cr_StopReason (ee_record x) = "".

Lemma exec_admit_spec result record :
  always (exec_admit connection call result record) (fun p =>
    kept record p.1.1
    ∧ (p.1.2 = None → admitted (call_CallType call) (call_ValidateStructured call) (pr_Output result) (pr_Accounting result))).
Proof.
  unfold exec_admit. eapply always_bind; [apply admitResult_spec|].
  intros [err|] He; [|apply always_ret; cbn; split; [done|intros _; by apply He]].
  case_match; apply always_ret; cbn; (split; [|done]); [apply captureParseFailureResponse_kept|done].
Qed.

Lemma exec_attempt_spec prepared target st :
  always (attempt_of prepared target st) (fun o =>
    let st' := eo_state o in let c := eo_classification o in
    ex_number st' = ex_number st
    ∧ cr_StopReason (ex_record st') = cr_StopReason (ex_record st)
    ∧ cr_ResultSource (ex_record st') = cr_ResultSource (ex_record st)
    ∧ (∃ a, cr_Attempts (ex_record st') = cr_Attempts (ex_record st) ++ [a]
        ∧ at_Number a = ex_number st ∧ at_Retryable a = cl_Retryable c ∧ at_Category a = cl_Category c)
    ∧ (eo_failure o = None → cl_Category c = CategorySuccess
        ∧ admitted (call_CallType call) (call_ValidateStructured call) (pr_Output (eo_result o)) (pr_Accounting (eo_result o)))).
Proof.
  unfold exec_attempt. do 3 (apply always_skip; intros ?). apply always_skip. intros [[seq result] failure].
  apply always_skip. intros finished.
  destruct (accountAttempt _ _ _ _) as [[result' acc] failure'].
  set (r1 := (_ <| cr_Accounting ::= _ |>)).
  assert (kept (ex_record st) r1) as H1 by done. clearbody r1.
  eapply (always_bind _ _ (fun p => kept r1 p.1.1 ∧ (p.1.2 = None → admitted _ _ _ _))).
  { destruct failure'; [by apply always_ret|apply exec_admit_spec]. }
  intros [[r2 failure2] prev] [H2 Hadm]. cbn in H2, Hadm. apply always_skip. intros _.
  assert (kept r2 (match failure2 with
      | Some err => (captureProviderParseFailure r2 err prev).1
      | None => r2 end)) as H3.
  { destruct failure2; [apply captureProviderParseFailure_kept|done]. }
  set (r3 := match failure2 with Some _ => _ | None => _ end) in *. clearbody r3.
  destruct H1 as (? & ? & ?), H2 as (? & ? & ?), H3 as (? & ? & ?).
  apply always_skip. intros contextErr. do 3 (apply always_skip; intros ?). apply always_ret. cbn.
  do 3 (split; [congruence|]). split.
  - eexists. split; [apply f_equal2; [congruence|reflexivity]|done].
  - destruct contextErr; [done|]. intros ->. split; [done|]. by apply Hadm.
Qed.

Definition exec_turned (number : Z) (r : ExecState + ExecExit) : Prop :=
  match r with
  | inl st => ExecInv st ∧ ex_number st = number
  | inr x => exit_fine x
  end.

(** The state right after an attempt. *)
Record ExecAttempted (o : ExecOutcome) : Prop := {
  ea_keys : ∃ l, tkeys (ex_record (eo_state o)) = l ++ [(ex_number (eo_state o), cl_Retryable (eo_classification o))];
  ea_chain : retry_chain (tkeys (ex_record (eo_state o)));
  ea_count : llen (cr_Attempts (ex_record (eo_state o))) = ex_number (eo_state o);
  ea_budget : 1 ≤ ex_number (eo_state o) ≤ MaxAttempts policy;
  ea_stop : cr_StopReason (ex_record (eo_state o)) = "";
  ea_source : rs_Kind (cr_ResultSource (ex_record (eo_state o))) = ResultSourceNone;
  ea_category : at_Category <$> last (cr_Attempts (ex_record (eo_state o))) = Some (cl_Category (eo_classification o));
  ea_success : eo_failure o = None → cl_Category (eo_classification o) = CategorySuccess
    ∧ admitted (call_CallType call) (call_ValidateStructured call) (pr_Output (eo_result o)) (pr_Accounting (eo_result o));
}.

Lemma exec_attempt_inv prepared target st :
  ExecInv st →
  always (attempt_of prepared target st) (fun o => ExecAttempted o ∧ ex_number (eo_state o) = ex_number st).
Proof.
  intros [Hr Hc Hb Hs Hk]. eapply always_mono; [apply exec_attempt_spec|]. cbn zeta.
  intros o (En & Es & Ek & (a & Ea & E1 & E2 & E3) & Hsucc). split; [|done].
  assert (tkeys (ex_record (eo_state o)) = tkeys (ex_record st) ++ [(ex_number (eo_state o), cl_Retryable (eo_classification o))])
    as Et by (unfold tkeys; rewrite Ea, map_app; cbn; by rewrite E1, E2, En).
  constructor; rewrite ?Es, ?Ek; try done.
  - eauto.
  - rewrite Et. apply retried_chain; [done|]. unfold tkeys, llen in *. rewrite length_map. lia.
  - rewrite Ea, llen_app, En, <- Hc. done.
  - lia.
  - rewrite Ea, last_snoc, <- E3. done.
Qed.

(** An exit with the attempts of the record after an attempt. *)
Lemma exec_fail_fine o r err seq :
  ExecAttempted o → tkeys r = tkeys (ex_record (eo_state o)) → cr_StopReason r = "" →
  rs_Kind (cr_ResultSource r) = ResultSourceNone → exit_fine (MkExecExit r (Some err) seq).
Proof.
  intros HA Et Hs Hk. split; [|done]. constructor; cbn [ee_record ee_err]; try done.
  - pose proof (ea_count _ HA). pose proof (ea_budget _ HA).
    assert (length (cr_Attempts r) = length (cr_Attempts (ex_record (eo_state o)))) as El.
    { apply (f_equal length) in Et. unfold tkeys in Et. by rewrite !length_map in Et. }
    unfold llen in *. lia.
  - rewrite Et. apply HA.
Qed.

Lemma exec_succeed_fine target o :
  ExecAttempted o → eo_failure o = None → always (exec_succeed call cacheMode cacheVersion target o) exit_fine.
Proof.
  intros HA Hf. destruct (ea_success _ HA Hf) as [Ec Hadm].
  pose proof (ea_category _ HA) as Hcat. rewrite Ec in Hcat.
  pose proof (ea_count _ HA) as Hcount. pose proof (ea_budget _ HA).
  assert (∀ r seq, cr_Attempts r = cr_Attempts (ex_record (eo_state o)) →
            cr_ResultSource r = MkResultSource ResultSourceProvider (ex_number (eo_state o)) (Some target) →
            cr_StopReason r = cr_StopReason (ex_record (eo_state o)) → cr_Output r = pr_Output (eo_result o) →
            acct_Result (cr_Accounting r) = pr_Accounting (eo_result o) → exit_fine (MkExecExit r None seq)) as Hok.
  { intros r seq Ea Ek Es Eo Eacc. split; cbn; [|rewrite Es; apply HA]. constructor; unfold tkeys; rewrite ?Ea.
    - lia.
    - apply HA.
    - done.
    - intros _. rewrite Eo, Eacc, Ek, Hcount. split; [done|]. by left. }
  unfold exec_succeed. destruct (has (pr_Search (eo_result o))), (String.eqb cacheMode ModeOff); cbn [negb];
    try (apply always_ret, Hok; reflexivity).
  all: do 2 (apply always_skip; intros ?); case_match; apply always_skip; intros ?; apply always_ret, Hok; reflexivity.
Qed.

Lemma exec_retry_spec target o failure :
  ExecAttempted o → always (exec_retry call policy target o failure) (exec_turned (ex_number (eo_state o) + 1)).
Proof.
  intros HA. pose proof (ea_budget _ HA). pose proof (ea_count _ HA) as Hcount. unfold exec_retry.
  assert (∀ err, exit_fine (exec_exit (ex_record (eo_state o)) (Some err) (eo_state o))) as Hfail.
  { intros err. apply (exec_fail_fine o); try apply HA; done. }
  destruct (Z.eqb_spec (ex_number (eo_state o)) (MaxAttempts policy)) as [|Hne]; [apply always_ret, Hfail|].
  destruct (cl_Retryable (eo_classification o)) eqn:Er; cbn [negb orb]; [|apply always_ret, Hfail].
  do 2 (apply always_skip; intros ?). case_match; [apply always_ret, Hfail|].
  do 3 (apply always_skip; intros ?).
  set (r2 := _ <| cr_Attempts ::= map_last (fun a => a <| at_WaitDiagnostics := _ |>) |>).
  assert (tkeys r2 = tkeys (ex_record (eo_state o))) as Et.
  { unfold tkeys, r2. cbn. rewrite (map_last_map (fun a => (at_Number a, at_Retryable a))) by done.
    by rewrite (map_last_map (fun a => (at_Number a, at_Retryable a))). }
  assert (llen (cr_Attempts r2) = ex_number (eo_state o)) as El.
  { unfold r2. cbn. by rewrite !llen_map_last. }
  assert (cr_StopReason r2 = "" ∧ rs_Kind (cr_ResultSource r2) = ResultSourceNone) as [Es Ek] by (split; apply HA).
  clearbody r2.
  case_match; [apply always_ret; by apply (exec_fail_fine o)|].
  apply always_skip. intros [err|]; apply always_ret; [by apply (exec_fail_fine o)|].
  split; [|done]. constructor; cbn [ex_record ex_number upd]; try done; [|cbn; lia..].
  rewrite Et. destruct (ea_keys _ HA) as [l El']. pose proof (ea_chain _ HA) as Hch. rewrite El', Er in *.
  by apply chain_retried.
Qed.

Lemma exec_iteration_spec prepared target st :
  ExecInv st → always (iteration prepared target st) (exec_turned (ex_number st + 1)).
Proof.
  intros HI. unfold exec_iteration. apply always_skip. intros [err|].
  - destruct HI as [Hr Hc Hb Hs Hk]. apply always_ret. split; [|done]. constructor; try done; cbn [ee_record exec_exit].
    + lia.
    + intros i n b Hi. destruct (Hr _ _ _ Hi). auto.
  - eapply always_bind; [by apply exec_attempt_inv|]. intros o [HA <-].
    destruct (eo_failure o) eqn:Ef; [by apply exec_retry_spec|].
    eapply always_bind; [by apply exec_succeed_fine|]. intros x Hx. by apply always_ret.
Qed.

Lemma exec_loop_spec fuel prepared target st :
  ExecInv st → MaxAttempts policy - ex_number st < Z.of_nat fuel →
  always (exec_loop connection call policy cacheMode cacheVersion callID traceID startedAt fuel prepared target st)
    (fun r => ∃ x, r = Some x ∧ exit_fine x).
Proof.
  revert st. induction fuel as [|fuel IH]; intros st HI Hf.
  - pose proof (ei_budget _ HI). lia.
  - cbn [exec_loop]. eapply always_bind; [by apply exec_iteration_spec|].
    intros [st'|x] Ht; [|apply always_ret; eauto]. destruct Ht as [HI' Ea]. apply IH; [done|]. lia.
Qed.

Lemma fresh_fine r err seq :
  0 ≤ MaxAttempts policy → fresh r → exit_fine (MkExecExit r (Some err) seq).
Proof.
  intros Hm (Ha & Hs & Hk). split; [|done]. constructor; try done; unfold tkeys; cbn [ee_record]; by rewrite Ha.
Qed.

Lemma exec_lookup_spec record prepared target :
  0 ≤ MaxAttempts policy → fresh record →
  always (exec_lookup connection call cache cacheMode cacheVersion record prepared target)
    (fun r => match r with inl r' => fresh r' | inr (r', err) => ∀ seq, exit_fine (MkExecExit r' err seq) end).
Proof.
  intros Hm (Ha & Hs & Hk). unfold exec_lookup.
  case_match; [by apply always_ret|]. case_match; [apply always_ret; intros seq; by apply fresh_fine|].
  case_match; [|apply always_ret; intros seq; by apply fresh_fine].
  case_match; [|by apply always_ret].
  apply always_skip. intros _. apply always_skip. intros [[cached|]|err].
  - eapply always_bind; [apply admitCachedResult_sound|].
    intros [err|] Hadm; apply always_skip; intros _; apply always_ret; intros seq; [by apply fresh_fine|].
    split; [|done]. constructor; try done.
    + change (llen (cr_Attempts record) ≤ MaxAttempts policy). by rewrite Ha.
    + change (retry_chain (map (fun a => (at_Number a, at_Retryable a)) (cr_Attempts record))). by rewrite Ha.
    + intros _. split; [by apply Hadm|]. by right.
  - apply always_skip. intros _. by apply always_ret.
  - apply always_skip. intros _. apply always_ret. intros seq. by apply fresh_fine.
Qed.

Lemma exec_body_spec fuel record :
  1 ≤ MaxAttempts policy ≤ Z.of_nat fuel → fresh record →
  always (exec_body connection credential call policy cache cacheMode cacheVersion callID traceID startedAt fuel record)
    (fun r => ∃ x, r = Some x ∧ exit_fine x).
Proof.
  intros Hm HF. unfold exec_body. apply always_skip. intros seq. apply always_skip.
  intros [err|]; [apply always_ret; eexists; split; [done|]; apply fresh_fine; done || lia|].
  apply always_skip. intros [prepared|err]; [|apply always_ret; eexists; split; [done|]; apply fresh_fine; done || lia].
  eapply always_bind; [apply exec_lookup_spec; [lia|done]|].
  intros [r|[r err]] Hr; [|apply always_ret; eauto].
  destruct Hr as (Ha & Hs & Hk). apply exec_loop_spec; [|cbn; lia].
  constructor; cbn [ex_record ex_number]; try done; [unfold tkeys; by rewrite Ha|by rewrite Ha|lia].
Qed.

Lemma exec_finish_spec x :
  exit_fine x →
  always (exec_finish connection call policy callID traceID startedAt x) (fun p =>
    p.2 = ee_err x ∧ ExecOK call policy p.1 p.2 ∧ cr_StopReason p.1 = stopReasonFor p.2
    ∧ dg_AttemptsUsed (cr_Diagnostics p.1) + dg_AttemptsRemaining (cr_Diagnostics p.1) = MaxAttempts policy).
Proof.
  intros [HE Hs]. unfold exec_finish. rewrite Hs. cbn [String.eqb].
  do 2 (apply always_skip; intros ?). apply always_ret. split; [done|]. cbn [fst snd].
  pose proof (eok_budget _ _ _ _ HE) as Hb. destruct HE. split; [by constructor|]. split; [done|]. cbn. lia.
Qed.
End ExecProofs.

(** ** The whole call *)

(** What every caller of [Execute] can rely on, whichever loop ran. *)
Record ExecuteOutcome (call : Call) (policy : Policy) (record : CallRecord) (err : option goerror) : Prop := {
  xo_budget : llen (cr_Attempts record) ≤ Z.max 0 (MaxAttempts policy);
  xo_bounded : llen (cr_Attempts record) ≤ 10;
  xo_stop : err = None ↔ cr_StopReason record = "succeeded";
  xo_failed : err ≠ None → str_in (rs_Kind (cr_ResultSource record)) [ResultSourceProvider; ResultSourceCache] = false;
  xo_committed : err = None →
    PolicyWF policy
    ∧ admitted (call_CallType call) (call_ValidateStructured call) (cr_Output record) (acct_Result (cr_Accounting record))
    ∧ dg_AttemptsUsed (cr_Diagnostics record) + dg_AttemptsRemaining (cr_Diagnostics record) = MaxAttempts policy;
}.

Section WholeExecute.
Context `{Env}.

Lemma refused_outcome call policy err : ExecuteOutcome call policy zeroRecord (Some err).
Proof. constructor; try done. change (0 ≤ Z.max 0 (MaxAttempts policy)). lia. Qed.

Lemma plan_outcome call policy record err :
  PolicyWF policy → call_CallType call = "structured" → PlanOutcome call policy record err →
  ExecuteOutcome call policy record err.
Proof.
  intros HW Hs HO. pose proof (out_budget _ _ _ _ HO). pose proof (proj1 HW).
  constructor; try apply HO; try lia. intros He. destruct (out_committed _ _ _ _ HO He) as (HE & _ & Hr).
  rewrite Hs. split; [done|]. split; [by apply (exit_admitted _ _ _ _ HE)|done].
Qed.

Lemma loop_outcome call policy record err :
  PolicyWF policy → ExecOK call policy record err → cr_StopReason record = stopReasonFor err →
  dg_AttemptsUsed (cr_Diagnostics record) + dg_AttemptsRemaining (cr_Diagnostics record) = MaxAttempts policy →
  ExecuteOutcome call policy record err.
Proof.
  intros HW HE Hs Hr. pose proof (eok_budget _ _ _ _ HE). pose proof (proj1 HW).
  constructor; try lia.
  - rewrite Hs. destruct err as [err|]; [|done]. split; [done|]. intros E. by apply stopReason_error in E.
  - intros Hn. by rewrite (eok_failed _ _ _ _ HE Hn).
  - intros He. split; [done|]. split; [by apply (eok_succeeded _ _ _ _ HE)|done].
Qed.

Lemma with_deadline_fresh startedAt connection call cacheMode cacheVersion callID traceID :
  fresh (with_deadline startedAt (initialRecord connection call cacheMode cacheVersion callID traceID)).
Proof. unfold with_deadline. by case_match. Qed.

(** The single-stage loop, when the request passes the guards of [Execute]. *)
Lemma single_stage_spec connection credential call policy cache cacheMode cacheVersion callID traceID fuel :
  1 ≤ MaxAttempts policy ≤ Z.of_nat fuel → policy_Validate policy = Ok tt → conn_ID connection ≠ "" →
  (call_CallType call = "structured" → has (call_ValidateStructured call) = true) →
  String.eqb (call_CallType call) "structured" && hasExplicitRecoveryPlan policy = false →
  always (ExecuteFuel fuel true true connection credential call policy cache cacheMode cacheVersion callID traceID)
    (fun r => ∃ record err, r = Some (record, err) ∧ ExecOK call policy record err
       ∧ cr_StopReason record = stopReasonFor err
       ∧ dg_AttemptsUsed (cr_Diagnostics record) + dg_AttemptsRemaining (cr_Diagnostics record) = MaxAttempts policy).
Proof.
  intros Hm Hp Hc Hv He. unfold ExecuteFuel. cbn [negb]. rewrite Hp, (proj2 (String.eqb_neq _ _) Hc), He.
  assert (String.eqb (call_CallType call) "structured" && negb (has (call_ValidateStructured call)) = false) as ->.
  { destruct (String.eqb_spec (call_CallType call) "structured") as [E|]; [|done]. by rewrite (Hv E). }
  apply (always_bind _ _ (fun b => call_CallType b = call_CallType call
                                    ∧ call_ValidateStructured b = call_ValidateStructured call)).
  { case_match; [apply always_skip; intros ?|]; by apply always_ret. }
  intros call' [Ect Evs]. apply always_skip. intros _. apply always_skip. intros startedAt.
  eapply always_bind; [apply exec_body_spec; [done|apply with_deadline_fresh]|].
  intros ? (x & -> & Hx). eapply always_bind; [by apply exec_finish_spec|].
  intros [record err] (_ & HE & Hs & Hr). apply always_skip. intros _. apply always_ret.
  exists record, err. split; [done|]. split; [|done].
  destruct HE as [? ? ? Hsucc]. constructor; try done. by rewrite <- Ect, <- Evs.
Qed.

Lemma Execute_outcome hasContext hasExecutor connection credential call policy cache cacheMode cacheVersion
    callID traceID :
  always (Execute hasContext hasExecutor connection credential call policy cache cacheMode cacheVersion callID traceID)
    (fun r => ∃ record err, r = Some (record, err) ∧ ExecuteOutcome call policy record err).
Proof.
  assert (∀ err, always (ret (Some (zeroRecord, Some err)))
    (fun r => ∃ record err, r = Some (record, err) ∧ ExecuteOutcome call policy record err)) as Hrefuse.
  { intros err. apply always_ret. do 2 eexists. split; [done|]. apply refused_outcome. }
  unfold Execute. set (fuel := S _).
  destruct hasContext; [|apply Hrefuse]. destruct hasExecutor; [|apply Hrefuse].
  destruct (policy_Validate policy) as [[]|e] eqn:Ep;
    [|unfold ExecuteFuel; cbn [negb]; rewrite Ep; apply Hrefuse].
  assert (PolicyWF policy) as HW by by apply policy_Validate_iff. pose proof (proj1 HW) as Hm.
  assert (MaxAttempts policy < Z.of_nat fuel) as Hfuel by (unfold fuel; lia). clearbody fuel.
  destruct (String.eqb_spec (conn_ID connection) "") as [Ec|Hc].
  { unfold ExecuteFuel. cbn [negb]. rewrite Ep, Ec. apply Hrefuse. }
  destruct (String.eqb (call_CallType call) "structured" && negb (has (call_ValidateStructured call))) eqn:Ev.
  { unfold ExecuteFuel. cbn [negb]. rewrite Ep, (proj2 (String.eqb_neq _ _) Hc), Ev. apply Hrefuse. }
  destruct (String.eqb (call_CallType call) "structured" && hasExplicitRecoveryPlan policy) eqn:Ex.
  { unfold ExecuteFuel. cbn [negb]. rewrite Ep, (proj2 (String.eqb_neq _ _) Hc), Ev, Ex.
    eapply always_mono; [apply executeRecoveryPlan_outcome; lia|].
    intros r (record & err & -> & HO). do 2 eexists. split; [done|]. bool_to_prop. by apply plan_outcome. }
  eapply always_mono; [apply single_stage_spec; try done; [lia|]|].
  - intros E. rewrite E in Ev. cbn in Ev. by destruct (has _).
  - intros r (record & err & -> & HE & Hs & Hr). do 2 eexists. split; [done|]. by apply loop_outcome.
Qed.
End WholeExecute.

(** ** Properties *)

(** C4: [Execute] is total and bounded: for every executor, cache, clock and
    context it returns a record and an error after at most [MaxAttempts]
    attempts, and never more than ten. *)
Theorem Execute_total_bounded `{Env} hasContext hasExecutor connection credential call policy cache cacheMode
    cacheVersion callID traceID w :
  ∃ record err,
    (Execute hasContext hasExecutor connection credential call policy cache cacheMode cacheVersion callID traceID w).2
      = Some (record, err)
    ∧ llen (cr_Attempts record) ≤ Z.max 0 (MaxAttempts policy) ∧ llen (cr_Attempts record) ≤ 10.
Proof.
  destruct (Execute_outcome hasContext hasExecutor connection credential call policy cache cacheMode cacheVersion
    callID traceID w) as (record & err & -> & HO). exists record, err. split; [done|]. split; apply HO.
Qed.

(** [Execute] never returns an unchecked result as a success: it returns no
    error exactly when the record says it succeeded; then the policy is
    well-formed, the output is non-empty and carries a valid ledger, a structured
    output passed the caller's validator, and the used and remaining attempts add
    up to the budget; on an error no result source is recorded. *)
Theorem Execute_commits_admitted `{Env} hasContext hasExecutor connection credential call policy cache cacheMode
    cacheVersion callID traceID w :
  ∃ record err,
    (Execute hasContext hasExecutor connection credential call policy cache cacheMode cacheVersion callID traceID w).2
      = Some (record, err)
    ∧ (err = None ↔ cr_StopReason record = "succeeded")
    ∧ match err with
      | Some _ => str_in (rs_Kind (cr_ResultSource record)) [ResultSourceProvider; ResultSourceCache] = false
      | None =>
          PolicyWF policy
          ∧ admitted (call_CallType call) (call_ValidateStructured call) (cr_Output record)
              (acct_Result (cr_Accounting record))
          ∧ dg_AttemptsUsed (cr_Diagnostics record) + dg_AttemptsRemaining (cr_Diagnostics record) = MaxAttempts policy
      end.
Proof.
  destruct (Execute_outcome hasContext hasExecutor connection credential call policy cache cacheMode cacheVersion
    callID traceID w) as (record & err & -> & HO). exists record, err. split; [done|]. split; [apply HO|].
  destruct err; [by apply (xo_failed _ _ _ _ HO)|by apply (xo_committed _ _ _ _ HO)].
Qed.

(** The single-stage loop of [Execute] retries only what it classified as
    retryable: the attempts are numbered from 1 without gaps, every attempt but
    the last was retryable, and a success comes from the last attempt, or from
    the cache without any attempt. *)
Theorem Execute_single_stage_retries `{Env} connection credential call policy cache cacheMode cacheVersion
    callID traceID w :
  policy_Validate policy = Ok tt → conn_ID connection ≠ "" → call_CallType call ≠ "structured" →
  ∃ record err,
    (Execute true true connection credential call policy cache cacheMode cacheVersion callID traceID w).2
      = Some (record, err)
    ∧ retry_chain (tkeys record)
    ∧ (err = None →
        (rs_Kind (cr_ResultSource record) = ResultSourceProvider
         ∧ rs_AttemptNumber (cr_ResultSource record) = llen (cr_Attempts record)
         ∧ at_Category <$> last (cr_Attempts record) = Some CategorySuccess)
        ∨ (rs_Kind (cr_ResultSource record) = ResultSourceCache ∧ cr_Attempts record = []
           ∧ cf_Served (cr_Cache record) = true)).
Proof.
  intros Hp Hc Ht. pose proof (proj1 (proj1 (policy_Validate_iff policy) Hp)) as Hm. unfold Execute. set (fuel := S _).
  assert (1 ≤ MaxAttempts policy ≤ Z.of_nat fuel) as Hfuel by (unfold fuel; lia).
  destruct (single_stage_spec connection credential call policy cache cacheMode cacheVersion callID traceID fuel
    Hfuel Hp Hc ltac:(done) ltac:(by rewrite (proj2 (String.eqb_neq _ _) Ht)) w) as (record & err & -> & HE & _).
  exists record, err. split; [done|]. split; [apply HE|]. intros He. by apply (eok_succeeded _ _ _ _ HE).
Qed.

(** A text call: a rate limit, then an answer. *)
Definition exec_demo : option (CallRecord * option goerror) :=
  (Execute true true script_connection script_credential (script_call "text") script_policy true ModeCache
     "" "call" "trace" (script_world [(script_result "x", Some rate_limited); (script_result "hello", None)])).2.

Lemma Execute_single_stage_retries_witness :
  ∃ record err, exec_demo = Some (record, err) ∧ retry_chain (tkeys record) ∧ tkeys record = [(1, true); (2, false)].
Proof.
  destruct (Execute_single_stage_retries (H := ScriptEnv) script_connection script_credential (script_call "text")
    script_policy true ModeCache "" "call" "trace"
    (script_world [(script_result "x", Some rate_limited); (script_result "hello", None)])) as (r & e & E & Hc & _);
    [vm_compute; reflexivity|vm_compute; discriminate|vm_compute; discriminate|].
  exists r, e. split; [exact E|]. split; [exact Hc|]. vm_compute in E. injection E as <- _. vm_compute. reflexivity.
Defined.
