(* ===== verification/Client.v ===== *)
(** * Client: the stateless client

    Models [src/client.go], connections.go, tools.go, client_cache.go, cache.go and the
    public data of types.go: the catalog of connections, the checks of a request, the
    call of the runtime and the projection of its record, and the adapter between the
    runtime's cache and a store of cache records.

    Values are immutable here, so the copies that detach a call from its caller
    ([cloneAnyMap] and the like) are the values they copy.  A raw message is the JSON
    value it holds; the schema of a request is its text.  The capture of diagnostics,
    which only hands a redacted trace to the caller, is not represented. *)
From stdpp Require Import sorting.
From S2P Require Import Prelude Float64 Json JsonText Unicode Schema SchemaContract SchemaValue Retry RetryJson Accounting CacheKey Runtime RecoveryPlan RuntimeExecute ProviderNormalize ProviderRouter.

Open Scope string_scope.
Open Scope list_scope.
Open Scope Z_scope.

(** ** Connections *)

Record ClientConnection := MkClientConnection {
  cc_ID : string;
  cc_Provider : string;
  cc_Protocol : string;
  cc_BaseURL : string;
  cc_CacheDomain : string;
  cc_APIKey : string;
  cc_Headers : list (string * string);
  cc_SupportsWebSearch : bool;
  cc_Pricing : option Pricing;
}.
(** A map, as its entries in any order. *)
Definition ConnectionCatalog : Type := list (string * ClientConnection).
Definition catalog_lookup (id : string) (catalog : ConnectionCatalog) : option ClientConnection :=
  snd <$> List.find (fun entry => String.eqb entry.1 id) catalog.

(** What [net/url] reads of a base URL. *)
Record BaseURL := MkBaseURL { bu_Scheme : string; bu_Host : string; bu_User : bool; bu_RawQuery : string; bu_Fragment : string }.

(** ** Requests *)

Definition CallTypeText : string := "text".
Definition CallTypeStructured : string := "structured".

Record Request := MkRequest {
  req_ConnectionID : string;
  req_ModelID : string;
  req_Messages : list Message;
  req_CallType : string;
  req_Schema : string;
  req_Tools : list FunctionTool;
  req_ToolChoice : ToolChoice;
  req_ReasoningEffort : string;
  req_WebSearch : bool;
  req_ProviderOptions : option (list (string * json));
  req_Context : ObservabilityContext;
  req_CacheMode : string;
  req_CacheVersion : string;
  req_RecoveryPolicy : Policy;
  req_Origin : Origin;
  req_Progress : bool;
}.

Definition DefaultStructuredRecoveryPolicy : Policy :=
  MkPolicy 6 (Some [CategoryNetwork; CategoryRateLimit; CategoryServer; CategoryEmpty; CategoryProvider]) (MkBackoff 500 8000)
    (Some (MkRepairPlan (MkTarget "" "generation" "" "" None) None)) None false.
Definition DefaultRecoveryPolicy : Policy := DefaultStructuredRecoveryPolicy.

(** ** Results *)

Record PublicUsage := MkPublicUsage {
  us_InputTokens : Z; us_CacheReadTokens : Z; us_CacheCreationTokens : Z; us_OutputTokens : Z; us_ReasoningTokens : Z;
  us_PromptTokens : Z; us_CompletionTokens : Z; us_TotalTokens : Z; us_Status : string }.
Record AccountingLedger := MkPublicLedger { al_Usage : PublicUsage; al_Cost : Cost }.
Record PublicAccounting := MkPublicAccounting { pa_Result : AccountingLedger; pa_Provider : AccountingLedger }.
Record PublicWait := MkPublicWait { pw_Reason : string; pw_PlannedMs : Z; pw_ActualMs : Z; pw_RetryAfterMs : Z }.

Record Attempt := MkPublicAttempt {
  pt_Number : Z;
  pt_ConnectionID : string;
  pt_Target : ExecutionTarget;
  pt_Category : string;
  pt_HTTPStatus : Z;
  pt_Code : string;
  pt_Type : string;
  pt_ProviderRequestID : string;
  pt_Retryable : bool;
  pt_Wait : Duration;
  pt_Duration : Duration;
  pt_Repair : bool;
  pt_ProviderUsed : bool;
  pt_Stage : string;
  pt_Branch : string;
  pt_TriggerAttempt : Z;
  pt_InputAttempts : list Z;
  pt_TransportRetryOf : Z;
  pt_StartedAt : option Time;
  pt_FinishedAt : option Time;
  pt_ReasoningEffort : string;
  pt_DispatchObserved : bool;
  pt_Stream : option StreamDiagnostics;
  pt_WaitDiagnostics : option PublicWait;
}.

Record PublicDiagnostics := MkPublicDiagnostics {
  pd_Stage : string;
  pd_Branch : string;
  pd_StopReason : string;
  pd_AttemptsUsed : Z;
  pd_AttemptsRemaining : Z;
  pd_ElapsedMs : Z;
  pd_TotalActualWaitMs : Z;
  pd_ReceivedBytes : Z;
  pd_EventCount : Z;
  pd_OutputBytes : Z;
  pd_OutputCodePoints : Z;
  pd_EffectiveTimeoutMs : option Z;
  pd_DeadlineAt : option Time;
  pd_BranchCaches : list BranchCache;
}.

Record Result := MkClientResult {
  cres_AssistantText : string;
  cres_Search : option SearchResult;
  cres_Output : json;
  cres_CallID : string;
  cres_TraceID : string;
  cres_Origin : Origin;
  cres_SelectedTarget : ExecutionTarget;
  cres_GenerationTarget : ExecutionTarget;
  cres_Source : ResultSource;
  cres_Accounting : PublicAccounting;
  cres_Attempts : list Attempt;
  cres_Cache : CacheFacts;
  cres_Diagnostics : PublicDiagnostics;
}.

Record ProgressEvent := MkProgressEvent {
  pv_SchemaVersion : Z;
  pv_Sequence : Z;
  pv_RunID : string;
  pv_CallID : string;
  pv_TraceID : string;
  pv_EventType : string;
  pv_Stage : string;
  pv_Branch : string;
  pv_ConnectionID : string;
  pv_ReasoningEffort : string;
  pv_Attempt : Z;
  pv_AttemptsUsed : Z;
  pv_AttemptsRemaining : Z;
  pv_ElapsedMs : Z;
  pv_DeadlineRemainingMs : option Z;
  pv_ReceivedBytes : Z;
  pv_EventCount : Z;
  pv_OutputBytes : Z;
  pv_OutputCodePoints : Z;
  pv_LastActivity : string;
  pv_StopReason : string;
  pv_Terminal : bool;
  pv_MaxAttempts : Z;
  pv_EffectiveTimeoutMs : option Z;
  pv_Origin : option Origin;
  pv_Attempts : list Attempt;
  pv_Accounting : option PublicAccounting;
}.

(** ** Projections *)

(** The totals are derived, and 0 when they overflow. *)
Definition ProjectLedger (ledger : Ledger) : AccountingLedger :=
  let u := ledger_Usage ledger in
  MkPublicLedger (MkPublicUsage (InputTokens u) (CacheReadTokens u) (CacheCreationTokens u) (OutputTokens u) (ReasoningTokens u)
    (PromptTokens u) (CompletionTokens u) (TotalTokens u) (usage_Status u)) (ledger_Cost ledger).
Definition project_accounting (a : Accounting) : PublicAccounting :=
  MkPublicAccounting (ProjectLedger (acct_Result a)) (ProjectLedger (acct_Provider a)).

Definition public_wait (w : WaitDiagnostics) : PublicWait :=
  MkPublicWait (wd_Reason w) (Milliseconds (wd_Planned w)) (Milliseconds (wd_Actual w)) (Milliseconds (wd_RetryAfter w)).
Definition publicAttempt (a : AttemptRecord) : Attempt :=
  MkPublicAttempt (at_Number a) (at_ConnectionID a) (at_Target a) (at_Category a) (at_Status a) (at_Code a) (at_Type a)
    (at_ProviderRequestID a) (at_Retryable a) (at_Delay a) (at_Duration a) (at_Repair a) (at_ProviderUsed a) (at_Stage a) (at_Branch a)
    (at_TriggerAttempt a) (at_InputAttempts a) (at_TransportRetryOf a) (at_StartedAt a) (at_FinishedAt a) (at_ReasoningEffort a)
    (at_DispatchObserved a) (at_Stream a) (public_wait <$> at_WaitDiagnostics a).

Definition durationMillisecondsPointer (d : option Duration) : option Z := Milliseconds <$> d.

Definition public_diagnostics (d : Diagnostics) : PublicDiagnostics :=
  MkPublicDiagnostics (dg_Stage d) (dg_Branch d) (dg_StopReason d) (dg_AttemptsUsed d) (dg_AttemptsRemaining d)
    (Milliseconds (dg_Elapsed d)) (Milliseconds (dg_TotalActualWait d)) (dg_ReceivedBytes d) (dg_EventCount d) (dg_OutputBytes d)
    (dg_OutputCodePoints d) (durationMillisecondsPointer (dg_EffectiveTimeout d)) (dg_DeadlineAt d) (dg_BranchCaches d).

Definition resultFromRecord (record : CallRecord) : Result :=
  MkClientResult (cr_AssistantText record) (cr_Search record) (cr_Output record) (cr_CallID record) (cr_TraceID record) (cr_Origin record)
    (cr_SelectedTarget record) (cr_GenerationTarget record) (cr_ResultSource record) (project_accounting (cr_Accounting record))
    (map publicAttempt (cr_Attempts record)) (cr_Cache record) (public_diagnostics (cr_Diagnostics record)).

Definition zeroOrigin : Origin := MkOrigin "" "" "" "" "" "" "" "".
Definition zeroExecutionTarget : ExecutionTarget := MkExecTarget "" "" "" "" "".
Definition zeroPublicLedger : AccountingLedger := MkPublicLedger (MkPublicUsage 0 0 0 0 0 0 0 0 "") (MkCost fzero "" "" 0 0).
Definition zeroResult : Result :=
  MkClientResult "" None JNull "" "" zeroOrigin zeroExecutionTarget zeroExecutionTarget (MkResultSource "" 0 None)
    (MkPublicAccounting zeroPublicLedger zeroPublicLedger) [] (MkCacheFacts "" "" "" "" "" "" false false)
    (MkPublicDiagnostics "" "" "" 0 0 0 0 0 0 0 0 None None []).

Definition origin_fields (o : Origin) : list (string * string) :=
  [("client", or_Client o); ("component", or_Component o); ("operationId", or_OperationID o); ("parentRunId", or_ParentRunID o);
   ("jobId", or_JobID o); ("testRunId", or_TestRunID o); ("testId", or_TestID o); ("sourceRevision", or_SourceRevision o)].
Definition publicOrigin (o : Origin) : option Origin :=
  if forallb (fun field => String.eqb field.2 "") (origin_fields o) then None else Some o.

(** ** The checks of a request *)

Definition origin_text (o : Origin) : string := Marshal (JObj (concat (map (fun field => omitempty field.1 field.2) (origin_fields o)))).
(** The fields are visited in any order. *)
Definition validateOrigin (o : Origin) : res goerror unit :=
  let? _ := fail_if (2048 <? slen (origin_text o)) (EText "hardenllm: origin exceeds the 2 KiB limit") in
  match List.find (fun field => negb (ValidString field.2) || (256 <? slen field.2)) (origin_fields o) with
  | Some field => Err (EText ("hardenllm: origin." +:+ field.1 +:+ " exceeds the 256-byte limit"))
  | None => Ok tt
  end.

Definition function_character (a : Ascii.ascii) : bool :=
  let n := Ascii.nat_of_ascii a in between 97 122 n || between 65 90 n || between 48 57 n || (n =? 95)%nat || (n =? 45)%nat.
Definition validFunctionName (value : string) : bool :=
  negb (String.eqb value "") && (slen value <=? 64) && ValidString value && forallb function_character (String.list_ascii_of_string value).

Fixpoint check_tools (known : list string) (tools : list FunctionTool) : res goerror (list string) :=
  match tools with
  | [] => Ok known
  | tool :: rest =>
      let? _ := fail_if (negb (validFunctionName (ft_Name tool)) || (1024 <? slen (ft_Description tool)) || negb (ValidString (ft_Description tool)))
                  (EText "hardenllm: function tool name or description is invalid") in
      let? _ := fail_if (str_in (ft_Name tool) known) (EText "hardenllm: function tool names must be unique") in
      let? _ := fail_if (match ft_Parameters tool with JObj _ => false | _ => true end)
                  (EText "hardenllm: function tool parameters must be a JSON object") in
      check_tools (ft_Name tool :: known) rest
  end.

(** The choice among [count] tools, whose names are [known]. *)
Definition check_choice (count : Z) (known : list string) (mode name : string) : res goerror unit :=
  let needs_function := EText "hardenllm: tool choice name requires function mode" in
  if count =? 0 then
    if str_in mode [""; "auto"; "none"] then fail_if (negb (String.eqb name "")) needs_function
    else if str_in mode ["required"; "function"] then Err (EText "hardenllm: tool choice requires function tools")
    else Err (EText "hardenllm: tool choice mode is unsupported")
  else if str_in mode [""; "auto"; "none"; "required"] then fail_if (negb (String.eqb name "")) needs_function
  else if String.eqb mode "function" then
    let? _ := fail_if (negb (validFunctionName name)) (EText "hardenllm: function tool choice requires a valid name") in
    fail_if (negb (str_in name known)) (EText "hardenllm: function tool choice must name a configured tool")
  else Err (EText "hardenllm: tool choice mode is unsupported").

Definition validateTools (tools : list FunctionTool) (choice : ToolChoice) : res goerror unit :=
  let? _ := fail_if (128 <? llen tools) (EText "hardenllm: at most 128 function tools are supported") in
  let? known := check_tools [] tools in
  check_choice (llen tools) known (TrimSpace (tch_Mode choice)) (TrimSpace (tch_Name choice)).

(** The targets of a policy must name configured connections. *)
Definition policy_targets (policy : Policy) : list RecoveryTarget :=
  let of_plan plan := match plan with Some p => rp_Initial p :: option_list (rp_Escalation p) | None => [] end in
  of_plan (JSONRepair policy) ++ match Rerun policy with Some r => rr_Target r :: of_plan (rr_JSONRepair r) | None => [] end.

(** ** The environment of a client *)

Record CacheRecord := MkCacheRecord {
  rec_SchemaVersion : Z; rec_CacheVersion : string; rec_OperationHash : string; rec_ProviderResult : string; rec_CreatedAt : Time }.
Record cachedProviderProjection := MkCachedProjection {
  cp_Search : option SearchResult;
  cp_Output : json;
  cp_Accounting : Ledger;
  cp_Stream : StreamDiagnostics;
  cp_Producer : ExecutionTarget;
  cp_GenerationTarget : ExecutionTarget;
  cp_CompletedBy : string;
}.
Record CallObservation := MkCallObservation { co_ConnectionID : string; co_Provider : string; co_ModelID : string; co_CallType : string }.
Record CallSummary := MkCallSummary {
  cs_CallID : string;
  cs_TraceID : string;
  cs_SelectedTarget : ExecutionTarget;
  cs_GenerationTarget : ExecutionTarget;
  cs_Status : string;
  cs_Duration : Duration;
  cs_WaitDuration : Duration;
  cs_AttemptCount : Z;
  cs_Cache : CacheFacts;
  cs_Accounting : Accounting;
}.

(** What a client is given besides the environment of the runtime: the store of
    cache records, the caller's progress channel, whose full buffer drops an event,
    the observer of calls, the secure random source, the URL parser, [%q], the format
    of instants, the texts of schema errors, and the JSON codec of a projection. *)
Class ClientEnv (base : Env) := {
  store_Get : string → World → World * res goerror (option CacheRecord);
  store_Set : string → CacheRecord → World → World * option goerror;
  deliver : ProgressEvent → World → World;
  start_call : CallObservation → World → World;
  finish_call : CallSummary → option goerror → World → World;
  random_read : World → World * res goerror (list Z);
  parse_base_url : string → option BaseURL;
  quoted : string → string;
  format_rfc3339nano : Time → string;
  schema_text : schema_error → string;
  encode_projection : cachedProviderProjection → res goerror string;
  decode_projection : string → option cachedProviderProjection;
}.

(** ** The catalog *)

Section Client.
Context `{base : Env} `{HC : !ClientEnv base} `{HU : UnicodeTables}.

Definition valid_base_url (raw : string) : bool :=
  match parse_base_url raw with
  | Some u => str_in (bu_Scheme u) ["https"; "http"] && negb (String.eqb (bu_Host u) "") && negb (bu_User u)
              && String.eqb (bu_RawQuery u) "" && String.eqb (bu_Fragment u) ""
  | None => false
  end.

Definition protocols : list string := ["responses"; "chat-completions"; "gemini-generate-content"; "anthropic-messages"].
Definition valid_identifier (s : string) : bool := negb (128 <? slen s) && ValidString s.
Definition valid_pricing (p : Pricing) : bool := forallb (fun rate => match rate with Some r => rate_usable r | None => true end) (rates p).

Definition trimmed_connection (c : ClientConnection) : ClientConnection :=
  let id := TrimSpace (cc_ID c) in
  let domain := TrimSpace (cc_CacheDomain c) in
  c <| cc_ID := id |> <| cc_Provider ::= TrimSpace |> <| cc_Protocol ::= TrimSpace |>
    <| cc_BaseURL ::= fun u => TrimRightSlash (TrimSpace u) |> <| cc_CacheDomain := domain |>.

Definition normalize_connection (known : ConnectionCatalog) (id : string) (connection : ClientConnection) : res goerror ClientConnection :=
  let? _ := fail_if (negb (String.eqb id (TrimSpace (cc_ID connection)))) (EText "hardenllm: catalog key must equal its connection ID") in
  let c := trimmed_connection connection in
  let failed what := EText ("hardenllm: connection " +:+ quoted (cc_ID c) +:+ what) in
  let? _ := fail_if (String.eqb (cc_ID c) "" || negb (valid_identifier (cc_ID c))) (EText "hardenllm: connection ID is invalid") in
  let? _ := fail_if (String.eqb (cc_Provider c) "" || negb (valid_identifier (cc_Provider c))) (failed " provider is invalid") in
  let c := if String.eqb (cc_CacheDomain c) "" then c <| cc_CacheDomain := cc_ID c |> else c in
  let? _ := fail_if (negb (valid_identifier (cc_CacheDomain c))) (failed " cache domain is invalid") in
  let? _ := fail_if (negb (str_in (cc_Protocol c) protocols)) (failed " protocol is unsupported") in
  let? _ := fail_if (negb (valid_base_url (cc_BaseURL c))) (failed " base URL is invalid") in
  let? _ := fail_if (bool_decide (is_Some (catalog_lookup (cc_ID c) known))) (failed " is duplicated") in
  let? _ := fail_if (match cc_Pricing c with Some p => negb (valid_pricing p) | None => false end) (failed " pricing is invalid") in
  Ok c.

Fixpoint normalize_catalog (known input : ConnectionCatalog) : res goerror ConnectionCatalog :=
  match input with
  | [] => Ok known
  | (id, connection) :: rest =>
      let? c := normalize_connection known id connection in
      normalize_catalog ((cc_ID c, c) :: known) rest
  end.

Definition normalizeConnections (input : ConnectionCatalog) (defaultID : string) : res goerror (ConnectionCatalog * string) :=
  let? _ := fail_if (llen input =? 0) (EText "hardenllm: at least one upstream connection is required") in
  let? connections := normalize_catalog [] input in
  let defaultID := TrimSpace defaultID in
  let? defaultID := if String.eqb defaultID "" then
                      match connections with
                      | [(id, _)] => Ok id
                      | _ => Err (EText "hardenllm: default connection is required when multiple connections are configured")
                      end
                    else Ok defaultID in
  let? _ := fail_if (negb (bool_decide (is_Some (catalog_lookup defaultID connections))))
              (EText "hardenllm: configured default connection was not found") in
  Ok (connections, defaultID).

(** [Executor], [Cache] and [Observer] may be nil. *)
Record Options := MkOptions { op_Connections : ConnectionCatalog; op_DefaultConnection : string; op_Executor : bool; op_Cache : bool; op_Observer : bool }.
Record Client := MkClient {
  cl_connections : ConnectionCatalog; cl_defaultConnection : string; cl_executor : bool; cl_cache : bool; cl_observer : bool }.

Definition New (options : Options) : res goerror Client :=
  let? _ := fail_if (negb (op_Executor options)) (EText "hardenllm: an injected executor is required") in
  let? catalog := normalizeConnections (op_Connections options) (op_DefaultConnection options) in
  Ok (MkClient catalog.1 catalog.2 (op_Executor options) (op_Cache options) (op_Observer options)).

Definition connection (client : Client) (connectionID : string) : res goerror ClientConnection :=
  let id := TrimSpace connectionID in
  let id := if String.eqb id "" then cl_defaultConnection client else id in
  match catalog_lookup id (cl_connections client) with
  | Some c => Ok c
  | None => Err (EText ("hardenllm: connection " +:+ quoted id +:+ " was not configured"))
  end.

Definition runtimeConnection (c : ClientConnection) : Connection :=
  MkConnection (cc_ID c) (cc_Provider c) (cc_Protocol c) (cc_BaseURL c) (cc_CacheDomain c) (cc_SupportsWebSearch c) (cc_Pricing c).
Definition credential_of (c : ClientConnection) : Credential := MkCredential (cc_APIKey c) (cc_Headers c).
Definition bindings (client : Client) : list (string * ResolvedConnection) :=
  map (fun entry => (entry.1, MkResolved (runtimeConnection entry.2) (credential_of entry.2))) (cl_connections client).

Definition validateRecoveryConnections (policy : Policy) (bound : list (string * ResolvedConnection)) : res goerror unit :=
  let missing t := negb (String.eqb (rt_ConnectionID t) "") && negb (existsb (fun entry => String.eqb entry.1 (rt_ConnectionID t)) bound) in
  match List.find missing (policy_targets policy) with
  | Some t => Err (EText ("hardenllm: recovery upstream " +:+ quoted (rt_ConnectionID t) +:+ " is not configured"))
  | None => Ok tt
  end.

(** ** Identifiers *)

Definition hex_digit (n : Z) : string :=
  String (Ascii.ascii_of_nat (Z.to_nat (if n <? 10 then 48 + n else 87 + n))) EmptyString.
Definition hex_byte (b : Z) : string := hex_digit (b / 16) +:+ hex_digit (b mod 16).
Definition hex_bytes (l : list Z) : string := String.concat "" (map hex_byte l).
Definition slice_bytes (from to : nat) (l : list Z) : list Z := take (to - from) (drop from l).
(** The version and the variant of the identifier. *)
Definition version4 (value : list Z) : list Z :=
  alter (fun b => Z.lor (Z.land b 63) 128) 8%nat (alter (fun b => Z.lor (Z.land b 15) 64) 6%nat value).
Definition uuid_text (value : list Z) : string :=
  String.concat "-" [hex_bytes (slice_bytes 0 4 value); hex_bytes (slice_bytes 4 6 value); hex_bytes (slice_bytes 6 8 value);
                     hex_bytes (slice_bytes 8 10 value); hex_bytes (slice_bytes 10 16 value)].
Definition runtime_id (value : list Z) : string := uuid_text (version4 value).
Definition newRuntimeID : M (res goerror string) :=
  fun w => let '(w, bytes) := random_read w in
           (w, match bytes with Ok bytes => Ok (runtime_id bytes) | Err e => Err (EWrap "secure random source: " e) end).

(** ** The cache adapter *)

Definition cacheRecordSchemaVersion : Z := 3.

Definition is_null (v : json) : bool := match v with JNull => true | _ => false end.

Definition cached_of (p : cachedProviderProjection) : CachedResult :=
  MkCached (MkResult "" (cp_Search p) (cp_Output p) (cp_Accounting p) (cp_Stream p) false) (cp_Producer p) (cp_GenerationTarget p) (cp_CompletedBy p).
Definition projection_of (c : CachedResult) : cachedProviderProjection :=
  let r := ca_ProviderResult c in
  MkCachedProjection (pr_Search r) (pr_Output r) (pr_Accounting r) (pr_Stream r) (ca_Producer c) (ca_GenerationTarget c) (ca_CompletedBy c).

Definition read_cache_record (operationHash cacheVersion : string) (record : CacheRecord) : res goerror (option CachedResult) :=
  if negb (rec_SchemaVersion record =? cacheRecordSchemaVersion) || negb (String.eqb (rec_OperationHash record) operationHash)
     || negb (String.eqb (rec_CacheVersion record) cacheVersion) then Err ECacheIntegrity
  else match decode_projection (rec_ProviderResult record) with
       | Some p => if is_null (cp_Output p) then Err ECacheIntegrity else Ok (Some (cached_of p))
       | None => Err ECacheIntegrity
       end.
Definition adapter_Get (operationHash cacheVersion : string) : M (res goerror (option CachedResult)) :=
  fun w => let '(w, found) := store_Get operationHash w in
           (w, match found with
               | Err e => Err e
               | Ok None => Ok None
               | Ok (Some record) => read_cache_record operationHash cacheVersion record
               end).

Definition adapter_Set (operationHash cacheVersion : string) (result : CachedResult) : M (option goerror) :=
  if is_null (pr_Output (ca_ProviderResult result)) then ret (Some (EText "hardenllm: cannot cache a provider result without output"))
  else match encode_projection (projection_of result) with
       | Err e => ret (Some (EWrap "hardenllm: encode cached provider result: " e))
       | Ok text =>
           let! now := Now in
           let! err := store_Set operationHash (MkCacheRecord cacheRecordSchemaVersion cacheVersion operationHash text now) in
           ret (match err with Some e => Some (EWrap "hardenllm: write operation cache: " e) | None => None end)
       end.

(** ** Progress *)

Definition progress_event (s : ProgressSnapshot) : ProgressEvent :=
  MkProgressEvent 1 (ps_Sequence s) (ps_RunID s) (ps_CallID s) (ps_TraceID s) (ps_Type s) (ps_Stage s) (ps_Branch s) (ps_ConnectionID s)
    (ps_ReasoningEffort s) (ps_Attempt s) (ps_AttemptsUsed s) (ps_AttemptsRemaining s) (ps_ElapsedMs s) (ps_DeadlineRemainingMs s)
    (ps_ReceivedBytes s) (ps_EventCount s) (ps_OutputBytes s) (ps_OutputCodePoints s) (format_rfc3339nano (ps_LastActivity s))
    (ps_StopReason s) (ps_Terminal s) (ps_MaxAttempts s) (durationMillisecondsPointer (ps_EffectiveTimeout s)) (publicOrigin (ps_Origin s))
    (map publicAttempt (ps_Attempts s)) (project_accounting <$> ps_Accounting s).

(** The environment that the client gives the runtime. *)
Definition client_env : Env := {|
  World := World;
  env_Now := env_Now;
  env_Random := env_Random;
  env_Wait := env_Wait;
  env_ctxErr := env_ctxErr;
  env_Deadline := env_Deadline;
  env_NewMemo := env_NewMemo;
  env_Prepare := env_Prepare;
  env_Execute := env_Execute;
  env_CacheGet := adapter_Get;
  env_CacheSet := adapter_Set;
  env_Progress := fun snapshot => deliver (progress_event snapshot);
  env_Observe := env_Observe;
  env_sha256_hex := env_sha256_hex;
  env_ParseURL := env_ParseURL;
|}.

(** ** The call *)

Definition Summarize (record : CallRecord) (started completed : Time) (err : option goerror) : CallSummary :=
  MkCallSummary (cr_CallID record) (cr_TraceID record) (cr_SelectedTarget record) (cr_GenerationTarget record)
    (match err with Some _ => "failed" | None => "succeeded" end) (Z.max (Sub completed started) 0)
    (dg_TotalActualWait (cr_Diagnostics record)) (llen (cr_Attempts record)) (cr_Cache record) (cr_Accounting record).

(** The checks before the call is observed. *)
Definition check_request (hasContext : bool) (client : Client) (request : Request) : res goerror ClientConnection :=
  let? _ := fail_if (negb hasContext) (EText "hardenllm: context is required") in
  let? _ := fail_if (negb (cl_executor client)) (EText "hardenllm: runtime is not initialized") in
  let? _ := validateOrigin (req_Origin request) in
  let? _ := fail_if (String.eqb (TrimSpace (req_ModelID request)) "" || negb (ValidString (req_ModelID request)) || (512 <? slen (req_ModelID request)))
              (EText "hardenllm: model ID is required and must not exceed 512 UTF-8 bytes") in
  let? c := connection client (req_ConnectionID request) in
  let? _ := fail_if (negb (str_in (req_CallType request) [CallTypeText; CallTypeStructured])) (EText "hardenllm: call type must be text or structured") in
  let? _ := validateTools (req_Tools request) (req_ToolChoice request) in
  let? _ := fail_if (String.eqb (req_CallType request) CallTypeStructured && (0 <? llen (req_Tools request)))
              (EText "hardenllm: structured output and function tools cannot be combined") in
  let? _ := fail_if (req_WebSearch request && (0 <? llen (req_Tools request))) (EText "hardenllm: web search and function tools cannot be combined") in
  Ok c.

(** [ResolveMode] has one error. *)
Definition cache_error_text (e : cache_error) : string :=
  match e with UnsupportedMode v => "unsupported cache mode " +:+ quoted v | _ => "" end.

(** The checks of the policy and of the cache mode. *)
Definition check_policy (client : Client) (request : Request) : res goerror Mode :=
  let? mode := match ResolveMode (req_CacheMode request) with
               | Ok mode => Ok mode
               | Err e => Err (EWrap "hardenllm: " (EText (cache_error_text e)))
               end in
  let? _ := ValidateProviderOptions (default [] (req_ProviderOptions request)) in
  let? _ := policy_Validate (req_RecoveryPolicy request) in
  let? _ := validateRecoveryConnections (req_RecoveryPolicy request) (bindings client) in
  Ok mode.

Definition schema_validator (contract : string) (value : json) : option goerror :=
  match ValidateValue contract value with Ok _ => None | Err e => Some (EText (schema_text e)) end.

(** The schema of the call and its validator. *)
Definition call_contract (request : Request) : res goerror (option json * option (json → option goerror)) :=
  if String.eqb (req_CallType request) CallTypeStructured then
    let? _ := fail_if (slen (req_Schema request) =? 0) (EText "hardenllm: structured calls require a schema") in
    match Schema.Normalize (req_Schema request) with
    | Ok contract => Ok (decode_one contract, Some (schema_validator contract))
    | Err e => Err (EText (schema_text e))
    end
  else Ok (decode_one (req_Schema request), None).

Definition runtimeContext (c : ObservabilityContext) : ObservabilityContext := c <| PromptLabels ::= copyLabels |>.

Definition runtime_call (client : Client) (request : Request) (contract : option json * option (json → option goerror)) : Call :=
  MkCall (bindings client) (req_ModelID request) (req_Messages request) (req_CallType request) contract.1 (req_Tools request)
    (req_ToolChoice request) (req_ReasoningEffort request) (req_WebSearch request) None (req_ProviderOptions request) (runtimeContext (req_Context request))
    (req_Origin request) contract.2 None (cl_observer client) (req_Progress request).

Definition named_id (what : string) : M (res goerror string) :=
  let! id := newRuntimeID in ret (match id with Ok id => Ok id | Err e => Err (EWrap ("hardenllm: generate " +:+ what +:+ " ID: ") e) end).

(** The runtime in the environment of the client. *)
Definition execute_call (client : Client) (request : Request) (c : ClientConnection) (contract : option json * option (json → option goerror))
    (mode : Mode) (callID traceID : string) : M (option (CallRecord * option goerror)) :=
  RuntimeExecute.Execute (H := client_env) true true (runtimeConnection c) (credential_of c) (runtime_call client request contract)
    (req_RecoveryPolicy request) (cl_cache client) mode (req_CacheVersion request) callID traceID.

(** The record of the execution, none when the call was refused before it, and the
    error; nothing when the loop of the runtime was not given enough turns. *)
Definition call_body (client : Client) (request : Request) (c : ClientConnection) : M (option (option CallRecord * option goerror)) :=
  let refused e := ret (Some (None, Some e)) in
  match check_policy client request with
  | Err e => refused e
  | Ok mode =>
      match call_contract request with
      | Err e => refused e
      | Ok contract =>
          let! callID := named_id "call" in
          match callID with
          | Err e => refused e
          | Ok callID =>
              let! traceID := named_id "trace" in
              match traceID with
              | Err e => refused e
              | Ok traceID =>
                  let! executed := execute_call client request c contract mode callID traceID in
                  ret (match executed with Some (record, err) => Some (Some record, err) | None => None end)
              end
          end
      end
  end.

Definition Call (hasContext : bool) (client : Client) (request : Request) : M (option (Result * option goerror)) :=
  match check_request hasContext client request with
  | Err e => ret (Some (zeroResult, Some e))
  | Ok c =>
      let! started := Now in
      let! _ := fun w => (if cl_observer client then start_call (MkCallObservation (cc_ID c) (cc_Provider c) (req_ModelID request) (req_CallType request)) w else w, tt) in
      let! outcome := call_body client request c in
      match outcome with
      | None => ret None
      | Some (record, err) =>
          let! _ := if cl_observer client then
                      let! completed := Now in
                      fun w => (finish_call (Summarize (default zeroRecord record) started completed err) err w, tt)
                    else ret tt in
          ret (Some (match record with Some r => resultFromRecord r | None => zeroResult end, err))
      end
  end.
End Client.
