(* ===== verification/ClientProperties.v ===== *)
(** * ClientProperties: what a caller of the client relies on

    Over [Client]: a call always returns, and a structured result conforms to the
    schema that the caller gave; the checks of tools and of the catalog accept exactly
    what they should; the cache adapter returns what it stored; identifiers are
    version 4 UUIDs. *)
From stdpp Require Import sorting.
From S2P Require Import Prelude Float64 Json JsonText Unicode Schema SchemaContract SchemaValue Retry RetryJson Accounting CacheKey Runtime RecoveryPlan RuntimeExecute Scripted ProviderNormalize ProviderRouter Client.

Open Scope string_scope.
Open Scope list_scope.
Open Scope Z_scope.

Section Calls.
Context `{base : Env} `{HC : !ClientEnv base} `{HU : UnicodeTables}.

(** What a successful record says of the request. *)
Record call_ok (request : Request) (record : CallRecord) : Prop := {
  ck_policy : PolicyWF (req_RecoveryPolicy request);
  ck_output : acceptedOutput (cr_Output record) = true;
  ck_ledger : validateLedger (acct_Result (cr_Accounting record)) = None;
  ck_schema : req_CallType request = CallTypeStructured →
    ∃ contract, Schema.Normalize (req_Schema request) = Ok contract ∧ ValidateValue contract (cr_Output record) = Ok tt;
}.

Lemma call_contract_ok request contract output :
  call_contract request = Ok contract → req_CallType request = CallTypeStructured →
  (∃ f, contract.2 = Some f ∧ f output = None) →
  ∃ text, Schema.Normalize (req_Schema request) = Ok text ∧ ValidateValue text output = Ok tt.
Proof.
  intros E Ht (f & Ef & Hf). unfold call_contract in E. rewrite Ht in E. cbn [String.eqb CallTypeStructured] in E.
  destruct (slen _ =? 0); [done|]. cbn [fail_if res_bind] in E. destruct (Schema.Normalize (req_Schema request)) as [text|e]; [|done].
  injection E as <-. injection Ef as <-. exists text. split; [done|]. unfold schema_validator in Hf. by destruct (ValidateValue text output) as [[]|].
Qed.

(** What the body of a call hands over. *)
Definition body_post (request : Request) (r : option (option CallRecord * option goerror)) : Prop :=
  ∃ record err, r = Some (record, err) ∧ (record = None → err ≠ None)
    ∧ ∀ rec, record = Some rec → llen (cr_Attempts rec) ≤ 10 ∧ (err = None → call_ok request rec)
        ∧ (err ≠ None → str_in (rs_Kind (cr_ResultSource rec)) [ResultSourceProvider; ResultSourceCache] = false).

Lemma execute_call_outcome client request c contract mode callID traceID :
  always (execute_call client request c contract mode callID traceID)
    (fun r => ∃ record err, r = Some (record, err) ∧ ExecuteOutcome (runtime_call client request contract) (req_RecoveryPolicy request) record err).
Proof.
  exact (Execute_outcome (H := client_env) true true (runtimeConnection c) (credential_of c) (runtime_call client request contract)
    (req_RecoveryPolicy request) (cl_cache client) mode (req_CacheVersion request) callID traceID).
Qed.

Lemma call_body_spec client request c : always (call_body client request c) (body_post request).
Proof.
  assert (∀ e, always (ret (Some (None, Some e))) (body_post request)) as Hr.
  { intros e. apply always_ret. by exists None, (Some e). }
  unfold call_body. destruct (check_policy client request) as [mode|e]; [|apply Hr].
  destruct (call_contract request) as [contract|e] eqn:Ec; [|apply Hr].
  apply always_skip. intros [callID|e]; [|apply Hr]. apply always_skip. intros [traceID|e]; [|apply Hr].
  eapply always_bind; [apply execute_call_outcome|]. intros r (record & err & -> & HO). apply always_ret.
  exists (Some record), err. split; [done|]. split; [done|]. intros rec [= <-]. split; [by apply (xo_bounded _ _ _ _ HO)|].
  split; [|by apply (xo_failed _ _ _ _ HO)]. intros Hn. destruct (xo_committed _ _ _ _ HO Hn) as (HW & (Ha & Hl & Hs) & _).
  split; [done|done|done|]. intros Ht. by apply (call_contract_ok request contract), Hs.
Qed.

Lemma valid_totals u : usage_Validate u = Ok tt → PromptTokens u + CompletionTokens u = TotalTokens u ∧ TotalTokens u = total u.
Proof.
  unfold usage_Validate. rewrite !fail_if_then_ok. intros (_ & _ & _ & _ & E). apply res_bind_ok in E as (s & E & _).
  unfold TotalTokens, PromptTokens, CompletionTokens, sum_or_zero. rewrite E. apply checkedSum_iff in E as (F & -> & Hmax). unfold components in F.
  rewrite !Forall_cons in F. destruct F as (F1 & F2 & F3 & F4 & F5 & _). unfold components in Hmax. cbn in Hmax.
  assert (∀ l, Forall (fun v => 0 ≤ v) l → sum_list l ≤ int64_max → checkedSum l = Ok (sum_list l)) as Hs by (intros l F S; by apply checkedSum_iff).
  rewrite !Hs; try (repeat constructor; done); try (cbn; lia).
Qed.

(** The promise of a call. *)
Definition call_post (request : Request) (result : Result) (err : option goerror) : Prop :=
  match err with
  | Some _ => str_in (rs_Kind (cres_Source result)) [ResultSourceProvider; ResultSourceCache] = false
  | None =>
      let u := al_Usage (pa_Result (cres_Accounting result)) in
      PolicyWF (req_RecoveryPolicy request) ∧ acceptedOutput (cres_Output result) = true
      ∧ us_PromptTokens u + us_CompletionTokens u = us_TotalTokens u
      ∧ (req_CallType request = CallTypeStructured →
         ∃ contract node, Schema.Normalize (req_Schema request) = Ok contract ∧ decode_one contract = Some (JObj node) ∧ Contract node
           ∧ ValidateValue contract (cres_Output result) = Ok tt
           ∧ (wf_text (cres_Output result) → Conforms node (cres_Output result)))
  end.

Lemma call_ok_post request record : call_ok request record → call_post request (resultFromRecord record) None.
Proof.
  intros [HW Ho Hl Hs]. split; [done|]. split; [done|]. split.
  - unfold validateLedger in Hl. destruct (usage_Validate _) as [[]|] eqn:Eu; [|done]. by apply valid_totals in Eu as [E _].
  - intros Ht. destruct (Hs Ht) as (contract & En & Ev). pose proof En as En'. apply Normalize_ok in En' as (object & _ & _ & Hv).
    apply ValidateContract_ok in Hv as (node & Hd & Hc & _). exists contract, node. split; [done|]. split; [done|]. split; [done|]. split; [done|].
    intros Hw. by apply (ValidateValue_node contract node).
Qed.

Lemma Call_always hasContext client request :
  always (Call hasContext client request) (fun r => ∃ result err, r = Some (result, err) ∧ llen (cres_Attempts result) ≤ 10 ∧ call_post request result err).
Proof.
  unfold Call. destruct (check_request hasContext client request) as [c|e].
  - apply always_skip. intros started. apply always_skip. intros _. eapply always_bind; [apply call_body_spec|].
    intros r (record & err & -> & Hn & Hr). apply always_skip. intros _. apply always_ret. eexists _, err. split; [done|].
    destruct record as [record|].
    + destruct (Hr record eq_refl) as (Hb & Hok & Hf). split; [unfold llen in *; cbn; by rewrite length_map|].
      destruct err as [e|]; [by apply Hf|]. by apply call_ok_post, Hok.
    + split; [done|]. destruct err as [e|]; [done|]. by destruct Hn.
  - apply always_ret. by exists zeroResult, (Some e).
Qed.

(** C5: Every call of the client returns, with ten attempts at most.  When it returns no
    error, the recovery policy was well-formed, the output is not empty, the token
    totals of the result add up, and a structured output is a value of the schema
    that the caller gave, in its normal form; an error hands over no output as the
    result of a provider or of the cache. *)
Theorem Call_returns_conforming hasContext client request w :
  ∃ result err, (Call hasContext client request w).2 = Some (result, err)
    ∧ llen (cres_Attempts result) ≤ 10 ∧ call_post request result err.
Proof.
  apply Call_always.
Qed.
End Calls.

(** ** Tools *)

Definition FunctionName (s : string) : Prop :=
  1 ≤ slen s ≤ 64 ∧ ValidString s = true ∧ Forall (fun a => function_character a = true) (String.list_ascii_of_string s).
Record ToolWF (t : FunctionTool) : Prop := {
  tw_name : FunctionName (ft_Name t);
  tw_description : slen (ft_Description t) ≤ 1024 ∧ ValidString (ft_Description t) = true;
  tw_parameters : ∃ members, ft_Parameters t = JObj members;
}.
(** A choice of the model, none, one that must be made, or one tool. *)
Definition ChoiceWF (names : list string) (mode name : string) : Prop :=
  name = "" ∧ mode ∈ [""; "auto"; "none"]
  ∨ names ≠ [] ∧ (mode = "required" ∧ name = "" ∨ mode = "function" ∧ name ∈ names).

Lemma validFunctionName_spec s : validFunctionName s = true ↔ FunctionName s.
Proof.
  unfold validFunctionName, FunctionName. rewrite !andb_true_iff, negb_true_iff, String.eqb_neq, Z.leb_le, forallb_elem, Forall_forall.
  assert (s ≠ "" ↔ 1 ≤ slen s) as -> by (destruct s; unfold slen; cbn; split; [done|lia|lia|done]). tauto.
Qed.

Lemma str_in_false s l : str_in s l = false ↔ s ∉ l.
Proof. by rewrite <- str_in_spec, not_true_iff_false. Qed.

Lemma check_tools_ok known tools names :
  check_tools known tools = Ok names ↔
  Forall ToolWF tools ∧ NoDup (map ft_Name tools) ∧ (∀ t, t ∈ tools → ft_Name t ∉ known) ∧ names = rev (map ft_Name tools) ++ known.
Proof.
  revert known. induction tools as [|t tools IH]; intros known; cbn [check_tools].
  - split; [intros [= <-]|intros (_ & _ & _ & ->)]; [|done]. split; [constructor|]. split; [constructor|]. split; [by intros t ?%elem_of_nil|done].
  - rewrite !fail_if_then_ok, IH. cbn [map rev]. rewrite NoDup_cons, Forall_cons, <- app_assoc. cbn [app].
    assert (negb (validFunctionName (ft_Name t)) || (1024 <? slen (ft_Description t)) || negb (ValidString (ft_Description t)) = false
      ∧ match ft_Parameters t with JObj _ => false | _ => true end = false ↔ ToolWF t) as <-.
    { rewrite !orb_false_iff, !negb_false_iff, validFunctionName_spec, Z.ltb_ge. split.
      - intros [[[H1 H2] H3] H4]. split; [done|done|]. destruct (ft_Parameters t); try done. eauto.
      - intros [H1 [H2 H3] [m ->]]. done. }
    rewrite str_in_false. setoid_rewrite not_elem_of_cons. split.
    + intros (H1 & H2 & H3 & H4 & H5 & H6 & H7). split_and!; try done.
      * intros (x & E & Hx)%list_elem_of_fmap_1. by destruct (H6 x Hx).
      * intros x [-> |Hx]%elem_of_cons; [done|]. by apply H6.
    + intros ([[H1 H1'] H2] & [H3 H4] & H5 & H6). split_and!; try done.
      * by apply H5, list_elem_of_here.
      * intros x Hx. split; [|by apply H5, list_elem_of_further]. intros E. apply H3.
        exact (eq_rect _ (fun n => n ∈ map ft_Name tools) (list_elem_of_fmap_2 ft_Name tools x Hx) _ E).
Qed.

Lemma in_rev_elem {A : Type} (l : list A) x : x ∈ l ↔ x ∈ rev l.
Proof. by rewrite !list_elem_of_In, <- in_rev. Qed.

Lemma check_choice_ok tools known mode name :
  Forall ToolWF tools → (∀ x, x ∈ known ↔ x ∈ map ft_Name tools) →
  check_choice (llen tools) known mode name = Ok tt ↔ ChoiceWF (map ft_Name tools) mode name.
Proof.
  intros Hw Hk. unfold check_choice, ChoiceWF. assert (str_in mode [""; "auto"; "none"] = true ↔ mode ∈ [""; "auto"; "none"]) as Hm by apply str_in_spec.
  destruct tools as [|t tools].
  - change (llen [] =? 0) with true. cbv iota. cbn [map]. destruct (str_in mode [_; _; _]) eqn:E.
    + rewrite fail_if_ok, negb_false_iff, String.eqb_eq. naive_solver.
    + destruct (str_in mode ["required"; "function"]); (split; [done|]); intros [[_ H%Hm]|[H _]]; congruence.
  - assert ((llen (t :: tools) =? 0) = false) as -> by (apply Z.eqb_neq; unfold llen; cbn; lia).
    destruct (str_in mode [""; "auto"; "none"; "required"]) eqn:E.
    + rewrite fail_if_ok, negb_false_iff, String.eqb_eq. apply str_in_spec in E. rewrite !elem_of_cons, elem_of_nil in *. set_solver.
    + apply str_in_false in E. destruct (String.eqb_spec mode "function") as [->|Hne]; [|split; [done|]; set_solver].
      rewrite fail_if_then_ok, fail_if_ok, !negb_false_iff, validFunctionName_spec, str_in_spec, Hk. split; [set_solver|].
      intros [[_ H]|[_ [[H _]|[_ H]]]]; [set_solver|done|]. split; [|done]. apply list_elem_of_fmap_1 in H as (x & -> & Hx).
      by apply tw_name, (proj1 (Forall_elem _ _) Hw).
Qed.

(** The check of function tools is exact: it accepts at most 128 tools with
    different, well-formed names, bounded descriptions and object parameters, with a
    choice that needs no name, or that names one of the tools; and nothing else. *)
Theorem validateTools_correct tools choice :
  validateTools tools choice = Ok tt ↔
  llen tools ≤ 128 ∧ Forall ToolWF tools ∧ NoDup (map ft_Name tools)
  ∧ ChoiceWF (map ft_Name tools) (TrimSpace (tch_Mode choice)) (TrimSpace (tch_Name choice)).
Proof.
  unfold validateTools. rewrite fail_if_then_ok, Z.ltb_ge. apply and_iff_compat_l. rewrite res_bind_ok. setoid_rewrite check_tools_ok.
  split.
  - intros (known & (Hw & Hd & _ & ->) & H). split; [done|]. split; [done|]. rewrite app_nil_r in H.
    by apply (check_choice_ok tools) in H; [|done|intros x; rewrite <- in_rev_elem].
  - intros (Hw & Hd & H). exists (rev (map ft_Name tools)). rewrite app_nil_r. split; [split_and!; try done; by intros t _ ?%elem_of_nil|].
    by apply (check_choice_ok tools); [|intros x; rewrite <- in_rev_elem|].
Qed.

(** ** The catalog *)

Section Catalog.
Context `{base : Env} `{HC : !ClientEnv base}.

(** A price is zero or a positive finite number. *)
Definition price_ok (r : float64) : Prop := (∃ sign, r = SpecFloat.S754_zero sign) ∨ ∃ m e, r = SpecFloat.S754_finite false m e.

Record ConnectionWF (id : string) (c : ClientConnection) : Prop := {
  cw_id : cc_ID c = id ∧ id ≠ "" ∧ slen id ≤ 128;
  cw_provider : cc_Provider c ≠ "" ∧ slen (cc_Provider c) ≤ 128;
  cw_domain : cc_CacheDomain c ≠ "" ∧ slen (cc_CacheDomain c) ≤ 128;
  cw_protocol : cc_Protocol c ∈ ["chat-completions"; "responses"; "anthropic-messages"; "gemini-generate-content"];
  cw_url : ∃ u, parse_base_url (cc_BaseURL c) = Some u ∧ (bu_Scheme u = "http" ∨ bu_Scheme u = "https") ∧ bu_Host u ≠ ""
             ∧ bu_User u = false ∧ bu_RawQuery u = "" ∧ bu_Fragment u = "";
  cw_pricing : ∀ p r, cc_Pricing c = Some p →
    Some r ∈ [price_Input p; price_CacheRead p; price_CacheCreation p; price_Output p; price_Reasoning p] → price_ok r;
}.

(** A connection of the catalog and what was configured under its name. *)
Record configured_as (id : string) (raw c : ClientConnection) : Prop := {
  ca_id : id = TrimSpace (cc_ID raw);
  ca_provider : cc_Provider c = TrimSpace (cc_Provider raw);
  ca_protocol : cc_Protocol c = TrimSpace (cc_Protocol raw);
  ca_url : cc_BaseURL c = TrimRightSlash (TrimSpace (cc_BaseURL raw));
  ca_domain : (TrimSpace (cc_CacheDomain raw) = "" → cc_CacheDomain c = id) ∧ (TrimSpace (cc_CacheDomain raw) ≠ "" → cc_CacheDomain c = TrimSpace (cc_CacheDomain raw));
  ca_secret : cc_APIKey c = cc_APIKey raw ∧ cc_Headers c = cc_Headers raw;
  ca_rest : cc_SupportsWebSearch c = cc_SupportsWebSearch raw ∧ cc_Pricing c = cc_Pricing raw;
}.

Lemma valid_identifier_spec s : valid_identifier s = true → slen s ≤ 128.
Proof. unfold valid_identifier. rewrite andb_true_iff, negb_true_iff, Z.ltb_ge. tauto. Qed.

Lemma valid_base_url_spec raw : valid_base_url raw = true →
  ∃ u, parse_base_url raw = Some u ∧ (bu_Scheme u = "http" ∨ bu_Scheme u = "https") ∧ bu_Host u ≠ "" ∧ bu_User u = false ∧ bu_RawQuery u = "" ∧ bu_Fragment u = "".
Proof.
  unfold valid_base_url. destruct (parse_base_url raw) as [u|]; [|done]. rewrite !andb_true_iff, !negb_true_iff, !String.eqb_eq, String.eqb_neq, str_in_spec.
  intros ((((Hs & Hh) & Hu) & Hq) & Hf). exists u. split_and!; try done. set_solver.
Qed.

Lemma rate_usable_spec r : rate_usable r = true → price_ok r.
Proof. destruct r as [s|s| |[] m e]; try done; intros _; [left; by exists s|right; by exists m, e]. Qed.

Lemma valid_pricing_spec p : valid_pricing p = true →
  ∀ r, Some r ∈ [price_Input p; price_CacheRead p; price_CacheCreation p; price_Output p; price_Reasoning p] → price_ok r.
Proof.
  unfold valid_pricing, rates. rewrite forallb_forall. intros H r Hr. apply rate_usable_spec. apply list_elem_of_In in Hr.
  exact (H (Some r) Hr).
Qed.

Lemma normalize_connection_ok known id connection c :
  normalize_connection known id connection = Ok c →
  ConnectionWF id c ∧ catalog_lookup id known = None ∧ configured_as id connection c.
Proof.
  unfold normalize_connection. set (t := trimmed_connection connection). set (d := if String.eqb (cc_CacheDomain t) "" then _ else t).
  rewrite !fail_if_then_ok. intros (H1 & H2 & H3 & H4 & H5 & H6 & H7 & H8 & E). assert (d = c) as Ed by congruence. clear E.
  apply negb_false_iff, String.eqb_eq in H1. apply orb_false_iff in H2 as [H2a H2b], H3 as [H3a H3b].
  rewrite negb_false_iff in H2b, H3b, H4, H5, H6. apply String.eqb_neq in H2a, H3a. apply str_in_spec in H5.
  apply bool_decide_eq_false in H7. rewrite <- eq_None_not_Some in H7. apply valid_identifier_spec in H2b, H3b, H4.
  assert (cc_ID t = id) as Eid by (symmetry; exact H1).
  assert (cc_ID d = cc_ID t ∧ cc_Provider d = cc_Provider t ∧ configured_as id connection d ∧ cc_CacheDomain d ≠ "") as (E1 & E2 & E3 & E5).
  { unfold d. destruct (String.eqb_spec (cc_CacheDomain t) "") as [Et|Et]; (split; [done|]; split; [done|]; split).
    - by split.
    - exact H2a.
    - by split.
    - exact Et. }
  clearbody d. subst d. split; [|split; [by rewrite E1, Eid in H7|done]].
  split; [|by rewrite E2|done| |by apply valid_base_url_spec|].
  - split; [congruence|]. rewrite <- Eid. done.
  - unfold protocols in H5. set_solver.
  - intros p r Hp. rewrite Hp in H8. apply negb_false_iff in H8. by apply valid_pricing_spec.
Qed.

Lemma catalog_lookup_elem id c catalog : catalog_lookup id catalog = Some c → (id, c) ∈ catalog.
Proof.
  unfold catalog_lookup. destruct (List.find _ catalog) as [[i x]|] eqn:E; [|done]. apply find_some in E as [Hi E]. apply String.eqb_eq in E.
  cbn in *. intros [= <-]. subst. by apply list_elem_of_In.
Qed.
Lemma catalog_lookup_none id catalog : catalog_lookup id catalog = None ↔ id ∉ catalog.*1.
Proof.
  unfold catalog_lookup. destruct (List.find _ catalog) as [[i x]|] eqn:E; cbn.
  - apply find_some in E as [Hi E]. apply String.eqb_eq in E. cbn in E. subst i. split; [done|]. intros H. destruct H.
    apply list_elem_of_fmap. exists (id, x). split; [done|]. by apply list_elem_of_In.
  - split; [intros _|done]. intros ([i x] & -> & Hx)%list_elem_of_fmap. apply list_elem_of_In in Hx. apply (find_none _ _ E) in Hx. cbn in Hx. by rewrite String.eqb_refl in Hx.
Qed.

Definition CatalogWF (catalog : ConnectionCatalog) : Prop := NoDup catalog.*1 ∧ ∀ id c, (id, c) ∈ catalog → ConnectionWF id c.

Lemma normalize_catalog_ok known input catalog :
  CatalogWF known → normalize_catalog known input = Ok catalog →
  CatalogWF catalog ∧ catalog.*1 = rev input.*1 ++ known.*1
  ∧ ∀ id c, (id, c) ∈ catalog → (id, c) ∈ known ∨ ∃ raw, (id, raw) ∈ input ∧ configured_as id raw c.
Proof.
  revert known. induction input as [|[id raw] input IH]; intros known HW E; cbn [normalize_catalog] in E.
  - injection E as <-. split; [done|]. split; [done|]. by left.
  - apply res_bind_ok in E as (c & Hc & E). apply normalize_connection_ok in Hc as (Hwf & Hl & Hk). apply catalog_lookup_none in Hl.
    destruct (cw_id _ _ Hwf) as (Eid & _). rewrite Eid in E. destruct (IH ((id, c) :: known)) as (H1 & H2 & H3); [|done|].
    { destruct HW as [N W]. split; [by constructor|]. intros i x [[= -> ->]|Hx]%elem_of_cons; [done|by apply W]. }
    split; [done|]. split.
    + rewrite H2. cbn. by rewrite <- app_assoc.
    + intros i x Hx. destruct (H3 i x Hx) as [[[= -> ->]|Hin]%elem_of_cons|(r & Hr & E1)].
      * right. exists raw. split; [left|done].
      * by left.
      * right. exists r. split; [by right|done].
Qed.

(** C6: A client that was made has a catalog in order: the connections that were
    configured, each under its own identifier, with the texts trimmed, the key and the
    headers unchanged, and the identifier as the cache domain when none was given; each has a
    provider, one of the four protocols, an absolute http or https base URL without user
    information, query or fragment, and prices that are zero or positive and finite.  A
    request without a connection has the default one, which is the one that was named, or
    the only one when none was; one with a name gets the connection of that name, or is
    refused when there is none. *)
Theorem New_catalog_sound options client :
  New options = Ok client →
  CatalogWF (cl_connections client)
  ∧ (∀ id, id ∈ (cl_connections client).*1 ↔ id ∈ (op_Connections options).*1)
  ∧ (∀ id c, (id, c) ∈ cl_connections client → ∃ raw, (id, raw) ∈ op_Connections options ∧ configured_as id raw c)
  ∧ (∃ c, connection client "" = Ok c ∧ (cc_ID c, c) ∈ cl_connections client
        ∧ (TrimSpace (op_DefaultConnection options) = cc_ID c
           ∨ TrimSpace (op_DefaultConnection options) = "" ∧ (op_Connections options).*1 = [cc_ID c]))
  ∧ ∀ name, TrimSpace name ≠ "" →
      (∃ c, connection client name = Ok c ∧ (TrimSpace name, c) ∈ cl_connections client)
      ∨ is_ok (connection client name) = false ∧ TrimSpace name ∉ (op_Connections options).*1.
Proof.
  unfold New. rewrite fail_if_then_ok. intros (_ & E). apply res_bind_ok in E as ([catalog def] & E & [= <-]). cbn.
  unfold normalizeConnections in E. rewrite fail_if_then_ok in E. destruct E as (_ & E). apply res_bind_ok in E as (conns & Hn & E).
  apply res_bind_ok in E as (d & Ed & E). rewrite fail_if_then_ok in E. destruct E as (Hd & [= <- <-]).
  destruct (normalize_catalog_ok [] (op_Connections options) conns) as (HW & Hk & Ho); [by split; [constructor|intros i c ?%elem_of_nil]|done|].
  rewrite app_nil_r in Hk. apply negb_false_iff, bool_decide_eq_true in Hd. split; [done|]. split.
  { intros id. rewrite Hk. symmetry. apply in_rev_elem. }
  split; [intros id c Hc; by destruct (Ho id c Hc) as [?%elem_of_nil|H]|]. split.
  { destruct Hd as [c Hc]. pose proof (catalog_lookup_elem _ _ _ Hc) as Hel. assert (cc_ID c = d) as Eid by (by apply HW in Hel as [[? _] _ _ _ _ _]).
    exists c. split; [unfold connection; change (String.eqb (TrimSpace "") "") with true; cbn [cl_defaultConnection cl_connections]; by rewrite Hc|].
    rewrite Eid. split; [done|]. destruct (String.eqb_spec (TrimSpace (op_DefaultConnection options)) "") as [E0|E0]; [|left; by injection Ed].
    right. split; [done|]. destruct conns as [|[i x] [|? ?]]; try done. injection Ed as <-. cbn in Hk.
    apply (f_equal (@rev string)) in Hk. rewrite rev_involutive in Hk. done. }
  intros name Hname. unfold connection. cbn [cl_defaultConnection cl_connections]. apply String.eqb_neq in Hname. rewrite Hname.
  destruct (catalog_lookup (TrimSpace name) conns) as [c|] eqn:El.
  - left. exists c. split; [done|]. by apply catalog_lookup_elem in El.
  - right. split; [done|]. apply catalog_lookup_none in El. rewrite Hk in El. by rewrite <- in_rev_elem in El.
Qed.
End Catalog.

(** ** The cache adapter *)

Section Adapter.
Context `{base : Env} `{HC : !ClientEnv base}.

(** What a stored result has lost: the text of the assistant and the transport's note. *)
Definition stored_result (c : CachedResult) : CachedResult :=
  c <| ca_ProviderResult ::= fun r => r <| pr_AssistantText := "" |> <| pr_ProviderDispatched := false |> |>.

(** What the adapter has stored, it finds again under the same hash and version,
    apart from the text of the assistant, which is not stored; under another version
    the entry is refused as damaged.  The store is one that returns what was set, and
    the codec reads the projection it wrote. *)
Theorem cache_adapter_roundtrip hash version result w w' :
  (∀ record w w', store_Set hash record w = (w', None) → (store_Get hash w').2 = Ok (Some record)) →
  (∀ text, encode_projection (projection_of result) = Ok text → decode_projection text = Some (projection_of result)) →
  adapter_Set hash version result w = (w', None) →
  (adapter_Get hash version w').2 = Ok (Some (stored_result result))
  ∧ ∀ other, other ≠ version → (adapter_Get hash other w').2 = Err ECacheIntegrity.
Proof.
  intros Hstore Hcodec E. unfold adapter_Set in E. destruct (is_null _) eqn:Eo; [done|].
  destruct (encode_projection (projection_of result)) as [text|e] eqn:Et; [|done]. unfold bind in E. destruct (Now w) as [w1 now].
  set (record := MkCacheRecord _ _ _ _ _) in E. pose proof (Hstore record w1) as Hs. destruct (store_Set hash record w1) as [w2 [e|]]; [done|].
  injection E as <-. specialize (Hs w2 eq_refl). unfold adapter_Get. destruct (store_Get hash w2) as [w3 found]. cbn in Hs |- *. rewrite Hs.
  unfold read_cache_record. cbn [record rec_SchemaVersion rec_OperationHash rec_CacheVersion rec_ProviderResult]. rewrite Z.eqb_refl, String.eqb_refl.
  split.
  - rewrite String.eqb_refl. cbn [negb orb]. rewrite (Hcodec text eq_refl). change (cp_Output (projection_of result)) with (pr_Output (ca_ProviderResult result)).
    by rewrite Eo.
  - intros other Hne. by rewrite (proj2 (String.eqb_neq version other)) by done.
Qed.
End Adapter.

(** ** Identifiers *)

Definition byte (b : Z) : Prop := 0 ≤ b < 256.

Lemma hex_digit_inj m n : 0 ≤ m < 16 → 0 ≤ n < 16 → hex_digit m = hex_digit n → m = n.
Proof.
  unfold hex_digit. intros Hm Hn E. injection E as E. apply (f_equal Ascii.nat_of_ascii) in E.
  assert (∀ x, 0 ≤ x < 16 → (Z.to_nat (if (x <? 10)%Z then (48 + x)%Z else (87 + x)%Z) < 256)%nat) as Hb by (intros x Hx; destruct (x <? 10); lia).
  rewrite !Ascii.nat_ascii_embedding in E by auto.
  destruct (m <? 10) eqn:E1, (n <? 10) eqn:E2; rewrite ?Z.ltb_lt, ?Z.ltb_ge in *; lia.
Qed.
Lemma hex_byte_inj b c r s : byte b → byte c → hex_byte b +:+ r = hex_byte c +:+ s → b = c ∧ r = s.
Proof.
  unfold byte, hex_byte. intros Hb Hc E. unfold hex_digit in E. cbn in E. injection E as E1 E2 Er. split; [|done].
  assert (b / 16 = c / 16) as H1 by (apply hex_digit_inj; [split; [apply Z.div_pos; lia|apply Z.div_lt_upper_bound; lia]..|unfold hex_digit; by f_equal]).
  assert (b mod 16 = c mod 16) as H2 by (apply hex_digit_inj; [apply Z.mod_pos_bound; lia..|unfold hex_digit; by f_equal]).
  rewrite (Z.div_mod b 16), (Z.div_mod c 16) by lia. lia.
Qed.

Lemma uuid_text_inj l l' : length l = 16%nat → length l' = 16%nat → Forall byte l → Forall byte l' → uuid_text l = uuid_text l' → l = l'.
Proof.
  intros Hl Hl' F F' E.
  do 16 (destruct l as [|? l]; [discriminate Hl|]). destruct l; [|discriminate Hl].
  do 16 (destruct l' as [|? l']; [discriminate Hl'|]). destruct l'; [|discriminate Hl'].
  apply (f_equal (fun s => s +:+ "")) in E.
  unfold uuid_text, slice_bytes, hex_bytes in E. cbn [take drop Nat.sub map String.concat] in E. rewrite !string_app_assoc in E.
  rewrite !Forall_cons in F, F'. destruct_and!.
  repeat match type of E with
         | hex_byte _ +:+ _ = _ => let H := fresh in apply hex_byte_inj in E as [H E]; [|done|done]; subst
         | "-" +:+ _ = _ => apply (inj (String.append "-")) in E
         | "" +:+ _ = _ => apply (inj (String.append "")) in E
         end.
  done.
Qed.

(** A fact about bytes, by trying them all. *)
Lemma every_byte (f : Z → bool) : forallb f (map Z.of_nat (seq 0 256)) = true → ∀ b, byte b → f b = true.
Proof.
  intros H b [H0 H1]. rewrite forallb_forall in H. apply H, in_map_iff. exists (Z.to_nat b). split; [lia|]. apply in_seq. lia.
Qed.

Definition version_mask (b : Z) : Z := Z.lor (Z.land b 15) 64.
Definition variant_mask (b : Z) : Z := Z.lor (Z.land b 63) 128.
Definition is_byte (b : Z) : bool := (0 <=? b) && (b <? 256).
Lemma is_byte_spec b : is_byte b = true ↔ byte b.
Proof. unfold is_byte, byte. rewrite andb_true_iff, Z.leb_le, Z.ltb_lt. done. Qed.

Lemma version_mask_spec b : byte b → byte (version_mask b) ∧ version_mask b / 16 = 4 ∧ version_mask b mod 16 = b mod 16.
Proof.
  intros Hb. rewrite <- is_byte_spec, <- !Z.eqb_eq, <- !andb_true_iff. revert b Hb. apply every_byte. vm_compute. reflexivity.
Qed.
Lemma variant_mask_spec b : byte b → byte (variant_mask b) ∧ (8 ≤ variant_mask b / 16 ∧ variant_mask b / 16 ≤ 11) ∧ variant_mask b mod 64 = b mod 64.
Proof.
  intros Hb. rewrite <- is_byte_spec, <- !Z.eqb_eq, <- !Z.leb_le, <- !andb_true_iff. revert b Hb. apply every_byte. vm_compute. reflexivity.
Qed.

Lemma version4_lookup l i : version4 l !! i = (if decide (i = 6%nat) then version_mask else if decide (i = 8%nat) then variant_mask else id) <$> l !! i.
Proof.
  unfold version4. destruct (decide (i = 8%nat)) as [->|H8].
  - rewrite list_lookup_alter_eq, list_lookup_alter_ne by done. done.
  - rewrite list_lookup_alter_ne by done. destruct (decide (i = 6%nat)) as [->|H6]; [by rewrite list_lookup_alter_eq|].
    rewrite list_lookup_alter_ne by done. by rewrite option_fmap_id.
Qed.
Lemma version4_bytes l : length l = 16%nat → Forall byte l → length (version4 l) = 16%nat ∧ Forall byte (version4 l).
Proof.
  intros Hl F. split; [unfold version4; by rewrite !length_alter|]. apply Forall_lookup. intros i b Hb. rewrite version4_lookup in Hb.
  destruct (l !! i) as [c|] eqn:Ec; [|done]. pose proof (proj1 (Forall_lookup _ _) F i c Ec) as Hc. injection Hb as <-.
  repeat case_decide; [by apply version_mask_spec|by apply variant_mask_spec|done].
Qed.

Lemma hex_byte_length b : String.length (hex_byte b) = 2%nat.
Proof. done. Qed.
Lemma uuid_text_length l : length l = 16%nat → slen (uuid_text l) = 36.
Proof.
  intros Hl. do 16 (destruct l as [|? l]; [discriminate Hl|]). destruct l; [|discriminate Hl].
  unfold uuid_text, slice_bytes, hex_bytes, slen. cbn [take drop Nat.sub map String.concat]. rewrite !string_length_app, !hex_byte_length. done.
Qed.

Lemma uuid_text_digits l b6 b8 :
  length l = 16%nat → l !! 6%nat = Some b6 → l !! 8%nat = Some b8 →
  String.substring 14 1 (uuid_text l) = hex_digit (b6 / 16) ∧ String.substring 19 1 (uuid_text l) = hex_digit (b8 / 16).
Proof.
  intros Hl H6 H8. do 16 (destruct l as [|? l]; [discriminate Hl|]). destruct l; [|discriminate Hl]. injection H6 as <-. injection H8 as <-.
  split; reflexivity.
Qed.

(** The identifiers of calls are version 4 UUIDs and keep all the entropy there is:
    36 bytes, the version digit 4 and a variant digit from 8 to b in their places, and
    two sources of 16 random bytes give the same identifier only when they agree on
    every bit but the six that the version and the variant replace. *)
Theorem runtime_id_version4 l :
  length l = 16%nat → Forall byte l →
  slen (runtime_id l) = 36
  ∧ String.substring 14 1 (runtime_id l) = "4" ∧ String.substring 19 1 (runtime_id l) ∈ ["8"; "9"; "a"; "b"]
  ∧ ∀ l', length l' = 16%nat → Forall byte l' → runtime_id l = runtime_id l' →
      ∀ i b b', l !! i = Some b → l' !! i = Some b' →
        if decide (i = 6%nat) then b mod 16 = b' mod 16 else if decide (i = 8%nat) then b mod 64 = b' mod 64 else b = b'.
Proof.
  intros Hl F. destruct (version4_bytes l Hl F) as [Hv Fv]. split; [by apply uuid_text_length|]. apply and_assoc. split.
  - destruct (lookup_lt_is_Some_2 l 6) as [c6 H6]; [lia|]. destruct (lookup_lt_is_Some_2 l 8) as [c8 H8]; [lia|].
    destruct (version_mask_spec c6) as (_ & E6 & _); [by apply (proj1 (Forall_lookup _ _) F 6%nat)|].
    destruct (variant_mask_spec c8) as (_ & [L8 U8] & _); [by apply (proj1 (Forall_lookup _ _) F 8%nat)|].
    destruct (uuid_text_digits (version4 l) (version_mask c6) (variant_mask c8)) as [D6 D8]; [done|by rewrite version4_lookup, H6|by rewrite version4_lookup, H8|].
    unfold runtime_id. rewrite D6, D8, E6. split; [done|].
    assert (variant_mask c8 / 16 = 8 ∨ variant_mask c8 / 16 = 9 ∨ variant_mask c8 / 16 = 10 ∨ variant_mask c8 / 16 = 11) as [-> |[-> |[-> | ->]]] by lia; cbn; set_solver.
  - intros l' Hl' F' E i b b' Hb Hb'. destruct (version4_bytes l' Hl' F') as [Hv' Fv']. apply uuid_text_inj in E; [|done..].
    pose proof (f_equal (lookup i) E) as Ei. rewrite !version4_lookup, Hb, Hb' in Ei. injection Ei as Ei.
    pose proof (proj1 (Forall_lookup _ _) F _ _ Hb) as B. pose proof (proj1 (Forall_lookup _ _) F' _ _ Hb') as B'.
    apply version_mask_spec in B as V. apply version_mask_spec in B' as V'. apply variant_mask_spec in B as W. apply variant_mask_spec in B' as W'.
    repeat case_decide; [destruct V as (_ & _ & <-), V' as (_ & _ & <-); by rewrite Ei|destruct W as (_ & _ & <-), W' as (_ & _ & <-); by rewrite Ei|done].
Qed.

(** ** A run *)

Definition demo_projection : cachedProviderProjection :=
  MkCachedProjection None (JStr "answer") EmptyLedger zeroStream zeroExecutionTarget zeroExecutionTarget "".

#[export] Instance demo_client_env : ClientEnv ScriptEnv := {|
  store_Get h s := (s, Ok None);
  store_Set h r s := (s, None);
  deliver e s := s <| sc_events ::= Z.succ |>;
  start_call o s := s;
  finish_call c e s := s;
  random_read s := (s, Ok (map Z.of_nat (seq 0 16)));
  parse_base_url s := Some (MkBaseURL "https" "host" false "" "");
  quoted s := s;
  format_rfc3339nano t := "";
  schema_text e := "";
  encode_projection p := Ok "stored";
  decode_projection t := Some demo_projection;
|}.

Definition demo_connection : ClientConnection := MkClientConnection " c1" "openai" "responses" "https://host/v1/" "" "key" [] false None.
Definition demo_options : Options := MkOptions [("c1", demo_connection)] "" true false true.
Definition demo_client : Client := MkClient [("c1", (trimmed_connection demo_connection) <| cc_CacheDomain := "c1" |>)] "c1" true false true.

Lemma New_catalog_sound_witness : New demo_options = Ok demo_client ∧ ∃ c, connection demo_client "" = Ok c ∧ (cc_ID c, c) ∈ cl_connections demo_client.
Proof.
  assert (New demo_options = Ok demo_client) as E by (vm_compute; reflexivity). split; [exact E|].
  destruct (proj1 (proj2 (proj2 (proj2 (New_catalog_sound demo_options demo_client E))))) as (c & H1 & H2 & _). exists c. split; [exact H1|exact H2].
Defined.

Lemma runtime_id_version4_witness : slen (runtime_id (map Z.of_nat (seq 0 16))) = 36 ∧ runtime_id (map Z.of_nat (seq 0 16)) = "00010203-0405-4607-8809-0a0b0c0d0e0f".
Proof.
  split; [|vm_compute; reflexivity]. apply (runtime_id_version4 (map Z.of_nat (seq 0 16))); [reflexivity|].
  repeat constructor; vm_compute; done.
Defined.

(** The structured answer is checked against the caller's schema. *)
Definition demo_schema : string :=
  "{" +:+ String quote_char "answer" +:+ String quote_char ":" +:+ String quote_char "string" +:+ String quote_char "}".
Definition demo_structured : Request :=
  MkRequest "" "m" [] CallTypeStructured demo_schema [] (MkToolChoice "" "") "" false None (MkContext "" "" "" "r" "" "" "" "" None None None)
    "" "" DefaultStructuredRecoveryPolicy zeroOrigin true.
Definition demo_answer_value (v : json) : ProviderResult := MkResult "" None v EmptyLedger zeroStream true.
Definition demo_structured_call (answers : list json) : option (json * option goerror) :=
  (fun r => (cres_Output r.1, r.2)) <$>
  (Call (HU := ascii_tables) true demo_client demo_structured (script_world (map (fun v => (demo_answer_value v, None)) answers))).2.
(** The first answer does not conform; its repair does. *)
Example structured_call_repaired :
  demo_structured_call [JObj [("answer", JBool true)]; JObj [("answer", JStr "yes")]] = Some (JObj [("answer", JStr "yes")], None).
Proof. vm_compute. reflexivity. Qed.

(** A store that holds one record for a hash. *)
Definition RecordStore : Type := list (string * CacheRecord).
Definition RecordEnv : Env := {|
  World := RecordStore;
  env_Now s := (s, 1);
  env_Random s := (s, fzero);
  env_Wait d s := (s, None);
  env_ctxErr s := None;
  env_Deadline := None;
  env_NewMemo s := (s, 1);
  env_Prepare connection credential c s := (s, Ok (script_prepare connection c));
  env_Execute p s := ExecReturn s (script_result "") None;
  env_CacheGet h v s := (s, Ok None);
  env_CacheSet h v r s := (s, None);
  env_Progress e s := s;
  env_Observe e s := s;
  env_sha256_hex s := s;
  env_ParseURL s := None;
|}.
Definition record_get (h : string) (s : RecordStore) : RecordStore * res goerror (option CacheRecord) :=
  (s, Ok (snd <$> List.find (fun e => String.eqb e.1 h) s)).
Definition record_set (h : string) (r : CacheRecord) (s : RecordStore) : RecordStore * option goerror := ((h, r) :: s, None).
Definition record_client_env : ClientEnv RecordEnv := {|
  store_Get := (record_get : string → @World RecordEnv → @World RecordEnv * res goerror (option CacheRecord));
  store_Set := (record_set : string → CacheRecord → @World RecordEnv → @World RecordEnv * option goerror);
  deliver e s := s;
  start_call o s := s;
  finish_call c e s := s;
  random_read s := (s, Ok []);
  parse_base_url s := None;
  quoted s := s;
  format_rfc3339nano t := "";
  schema_text e := "";
  encode_projection p := Ok "stored";
  decode_projection t := Some demo_projection;
|}.
Definition demo_cached : CachedResult := cached_of demo_projection.

Lemma cache_adapter_roundtrip_witness :
  ∃ w', adapter_Set (HC := record_client_env) "hash" "v1" demo_cached [] = (w', None)
    ∧ (adapter_Get (HC := record_client_env) "hash" "v1" w').2 = Ok (Some (stored_result demo_cached))
    ∧ (adapter_Get (HC := record_client_env) "hash" "v2" w').2 = Err ECacheIntegrity.
Proof.
  eexists. split; [vm_compute; reflexivity|].
  match goal with |- (adapter_Get _ _ ?w).2 = _ ∧ _ =>
    destruct (cache_adapter_roundtrip (HC := record_client_env) "hash" "v1" demo_cached [] w) as [H1 H2] end.
  - intros record w w' E. cbn in E. injection E as <-. reflexivity.
  - intros text _. reflexivity.
  - vm_compute. reflexivity.
  - split; [exact H1|]. apply H2. discriminate.
Defined.
