(* ===== verification/BatchController.v ===== *)
(** * BatchController: adaptive admission of provider calls

    Models [src/stateful/batch/controller.go]: the policy, the launch pacer with
    its initial burst and its admission window, and the cooldown that a
    throttled provider opens and a single recovery probe closes.  The controller
    holds values only; its clock is an argument of every operation. *)
From stdpp Require Import relations.
From S2P Require Import Prelude.

Open Scope string_scope.
Open Scope list_scope.
Open Scope Z_scope.

Record Policy := MkPolicy {
  Concurrency : Z;
  Burst : Z;
  StartRate : Z;
  MaximumRate : Z;
  RefillEstimate : Duration;
  WindowRequests : Z;
  WindowDuration : Duration;
  RecoveryJitterMS : Z;
}.

Definition DefaultPolicy : Policy := MkPolicy 128 200 100 200 (61 * Second) 200 (61 * Second) 0.

Inductive policy_error : Type := InvalidAdmissionPolicy | InvalidAdmissionWindow.

Definition policy_Validate (p : Policy) : res policy_error unit :=
  let? _ := fail_if ((Concurrency p <? 1) || (1000 <? Concurrency p) || (Burst p <? 1) || (1000 <? Burst p)
                     || (StartRate p <? 1) || (MaximumRate p <? StartRate p) || (1000 <? MaximumRate p)
                     || (RefillEstimate p <? Second) || (Hour <? RefillEstimate p)
                     || (RecoveryJitterMS p <? 0) || (1000 <? RecoveryJitterMS p)) InvalidAdmissionPolicy in
  fail_if ((WindowRequests p <? 0) || (1000 <? WindowRequests p)
           || ((0 <? WindowRequests p) && ((WindowDuration p <? Second) || (Hour <? WindowDuration p))))
    InvalidAdmissionWindow.

Record Controller := MkController {
  ctl_Policy : Policy;
  Rate : Z;
  BurstLeft : Z;
  Successes : Z;
  Epoch : Time;
  NextStart : Time;
  NextEligible : Time;
  Cooling : bool;
  Probing : bool;
  ProbeDelay : Duration;
  Paused : bool;
  WindowStart : Time;
  WindowStarts : Z;
  RefillWindowBurst : bool;
  PacedRecovery : bool;
  AccumulatePace : bool;
  HonorFailureHints : bool;
}.

Definition NewController (p : Policy) : Controller :=
  {| ctl_Policy := p; Rate := StartRate p; BurstLeft := Burst p; Successes := 0; Epoch := time_zero;
     NextStart := time_zero; NextEligible := time_zero; Cooling := false; Probing := false; ProbeDelay := 2 * Second;
     Paused := false; WindowStart := time_zero; WindowStarts := 0; RefillWindowBurst := true; PacedRecovery := true;
     AccumulatePace := true; HonorFailureHints := true |}.

Definition Configure (c : Controller) (p : Policy) : res policy_error Controller :=
  let? _ := policy_Validate p in
  Ok (c <| ctl_Policy := p |> <| Rate := StartRate p |> <| Successes := 0 |>).

(** The end of the current admission window while it is full, else the zero time. *)
Definition WindowWait (c : Controller) (now : Time) : Time :=
  let p := ctl_Policy c in
  if (0 <? WindowRequests p) && (WindowRequests p <=? WindowStarts c)
     && Before now (Add (WindowStart c) (WindowDuration p))
  then Add (WindowStart c) (WindowDuration p) else time_zero.

Definition CanStart (c : Controller) (now : Time) (active : Z) : bool :=
  if Paused c || (Concurrency (ctl_Policy c) <=? active) || Probing c then false
  else if Cooling c then negb (Before now (NextEligible c))
  else if negb (IsZero (WindowWait c now)) then false
  else (0 <? BurstLeft c) || negb (Before now (NextStart c)).

Definition NextAdmission (c : Controller) (now : Time) : Time :=
  if Cooling c then NextEligible c
  else if negb (IsZero (WindowWait c now)) then WindowWait c now
  else if 0 <? BurstLeft c then now
  else NextStart c.

(** [time.Second / time.Duration(c.Rate)] *)
Definition interval (c : Controller) : Duration := Z.quot Second (Rate c).

(** The window part of [Start]. *)
Definition start_window (c : Controller) (now : Time) : Controller :=
  let p := ctl_Policy c in
  if 0 <? WindowRequests p then
    let c :=
      if IsZero (WindowStart c) || negb (Before now (Add (WindowStart c) (WindowDuration p))) then
        let c := if negb (IsZero (WindowStart c)) && RefillWindowBurst c then c <| BurstLeft := Burst p |> else c in
        c <| WindowStart := now |> <| WindowStarts := 0 |>
      else c in
    c <| WindowStarts ::= fun n => n + 1 |>
  else c.

Definition Start (c : Controller) (now : Time) : Controller :=
  let c := start_window c now in
  let c := if IsZero (Epoch c) then c <| Epoch := now |> else c in
  if Cooling c then c <| Probing := true |>
  else if 0 <? BurstLeft c then
    c <| BurstLeft ::= fun n => n - 1 |> <| NextStart := Add now (interval c) |>
  else if AccumulatePace c then
    let oldest := Add now (wrap64 (- (Burst (ctl_Policy c) - 1) * interval c)) in
    let c := if Before (NextStart c) oldest then c <| NextStart := oldest |> else c in
    c <| NextStart ::= fun t => Add t (interval c) |>
  else c <| NextStart := Add now (interval c) |>.

Definition Success (c : Controller) (now : Time) : Controller :=
  let c :=
    if Probing c then
      let c := c <| Cooling := false |> <| Probing := false |> <| Epoch := now |> <| NextEligible := time_zero |>
                 <| BurstLeft := Burst (ctl_Policy c) - 1 |> in
      let c := if PacedRecovery c then c <| BurstLeft := 0 |> else c in
      c <| NextStart := now |> <| ProbeDelay := 2 * Second |> <| Successes := 0 |>
    else c in
  let c := c <| Successes ::= fun n => n + 1 |> in
  if 100 <=? Successes c
  then c <| Rate := Z.min (MaximumRate (ctl_Policy c)) (wrap64 (Rate c * 2)) |> <| Successes := 0 |>
  else c.

Definition Throttle (c : Controller) (now : Time) (delay : Duration) : Controller :=
  let c := if negb (Cooling c) then c <| Rate := Z.max 1 (Z.quot (Rate c) 2) |> <| Successes := 0 |> else c in
  let c := if Probing c
           then c <| Probing := false |> <| ProbeDelay := Z.min Minute (wrap64 (ProbeDelay c * 2)) |> else c in
  let c := c <| Cooling := true |> in
  let next :=
    if delay <=? 0 then
      let next := Add now (ProbeDelay c) in
      let estimate := Add (Epoch c) (RefillEstimate (ctl_Policy c)) in
      if After estimate next then estimate else next
    else Add now delay in
  if After next (NextEligible c) then c <| NextEligible := next |> else c.

Definition completeThrottle (c : Controller) (now dispatched : Time) (probe : bool) (delay : Duration) : Controller :=
  if Before dispatched (Epoch c) then c
  else
    let probing := Probing c in
    let c := if negb probe then c <| Probing := false |> else c in
    let c := Throttle c now delay in
    if negb probe then c <| Probing := probing |> else c.

(** The [switch kind] of [Complete]. *)
Definition complete_kind (c : Controller) (now dispatched reserved : Time) (probe : bool) (kind : string)
    (delay : Duration) : Controller :=
  if String.eqb kind "rejected" then
    let c := if (0 <? WindowRequests (ctl_Policy c)) && negb (Before reserved (WindowStart c)) && (0 <? WindowStarts c)
             then c <| WindowStarts ::= fun n => n - 1 |> else c in
    completeThrottle c now dispatched probe delay
  else if String.eqb kind "terminal_throttle" then completeThrottle c now dispatched probe delay
  else if String.eqb kind "failed" || String.eqb kind "unconfirmed" then
    if HonorFailureHints c && (0 <? delay) then completeThrottle c now dispatched probe delay else c
  else if String.eqb kind "completed" then
    if negb (Cooling c) || probe then
      let c := Success c now in
      if probe then c <| Epoch := dispatched |> else c
    else c
  else if String.eqb kind "policy" then c <| Paused := true |>
  else c.

Definition Complete (c : Controller) (now dispatched reserved : Time) (probe : bool) (kind : string) (delay : Duration)
  : Controller :=
  let c := complete_kind c now dispatched reserved probe kind delay in
  if probe && Probing c && negb (String.eqb kind "completed") && negb (String.eqb kind "rejected")
  then Throttle c now 0 else c.

(** [time.Duration(max(0, ms)) * time.Millisecond], saturated. *)
Definition retryDelay (ms : Z) : Duration :=
  if Z.quot int64_max Millisecond <? ms then int64_max else wrap64 (Z.max 0 ms * Millisecond).

(** [Outcome] of types.go. *)
Record ItemError := MkItemError { ie_Code : string; ie_Message : string; ie_HTTPStatus : Z }.
Record Outcome := MkOutcome {
  out_Kind : string;
  out_Admission : string;
  out_GenerationBudgetMS : Z;
  out_GenerationDeadline : option Time;
  out_Error : option ItemError;
  out_RetryAfterMS : Z;
  out_ArtifactID : string;
  out_Attempt : Z;
  out_QueueMS : Z;
  out_RetryWaitMS : Z;
  out_StartedAt : option Time;
  out_FinishedAt : option Time;
  out_DurationMS : Z;
  out_HeadersMS : option Z;
  out_FirstOutputMS : option Z;
  out_InputTokens : option Z;
  out_OutputTokens : option Z;
  out_ReasoningTokens : option Z;
  out_CachedInputTokens : option Z;
  out_ProviderRequestID : string;
  out_CPAInternalAttempts : option Z;
}.

Definition CompleteOutcome (c : Controller) (now dispatched reserved : Time) (probe : bool) (out : Outcome) : Controller :=
  let kind :=
    if String.eqb (out_Admission out) "restricted" then "policy"
    else if String.eqb (out_Admission out) "throttled" && negb (String.eqb (out_Kind out) "rejected")
    then "terminal_throttle" else out_Kind out in
  Complete c now dispatched reserved probe kind (retryDelay (out_RetryAfterMS out)).

(** ** The invariant *)

Definition PolicyOK (p : Policy) : Prop :=
  1 ≤ Concurrency p ≤ 1000 ∧ 1 ≤ Burst p ≤ 1000 ∧ 1 ≤ StartRate p ≤ MaximumRate p ∧ MaximumRate p ≤ 1000
  ∧ Second ≤ RefillEstimate p ≤ Hour ∧ 0 ≤ RecoveryJitterMS p ≤ 1000 ∧ 0 ≤ WindowRequests p ≤ 1000
  ∧ (0 < WindowRequests p → Second ≤ WindowDuration p ≤ Hour).

Lemma admission_policy_iff p : policy_Validate p = Ok tt ↔ PolicyOK p.
Proof.
  unfold policy_Validate, PolicyOK. rewrite fail_if_then_ok, fail_if_ok, !orb_false_iff, !Z.ltb_ge, andb_false_iff,
    orb_false_iff, !Z.ltb_ge. intuition lia.
Qed.

Record ControllerOK (c : Controller) : Prop := {
  co_policy : PolicyOK (ctl_Policy c);
  co_rate : 1 ≤ Rate c ≤ MaximumRate (ctl_Policy c);
  co_burst : 0 ≤ BurstLeft c ≤ 1000;
  co_successes : 0 ≤ Successes c < 100;
  co_probe : Probing c = true → Cooling c = true;
  co_probeDelay : 2 * Second ≤ ProbeDelay c ≤ Minute;
  co_starts : 0 ≤ WindowStarts c;
  co_eligible : 0 ≤ NextEligible c;
}.

(** The operations, in any order; a start needs the admission test. *)
Inductive ctl_step : Controller → Controller → Prop :=
| step_configure c c' p : Configure c p = Ok c' → ctl_step c c'
| step_start c now active : CanStart c now active = true → ctl_step c (Start c now)
| step_success c now : ctl_step c (Success c now)
| step_throttle c now delay : ctl_step c (Throttle c now delay)
| step_complete c now dispatched reserved probe out :
    ctl_step c (CompleteOutcome c now dispatched reserved probe out)
| step_resume c now :
    Probing c = false →
    ctl_step c (c <| Paused := false |> <| Cooling := true |> <| NextEligible := maxTime (NextEligible c) now |>).

Lemma NewController_ok p : PolicyOK p → ControllerOK (NewController p).
Proof. intros HP. pose proof HP as (? & ? & ? & ? & ?). constructor; cbn; unfold Second, Minute; try done; lia. Qed.

Lemma Configure_ok c p c' : ControllerOK c → Configure c p = Ok c' → ControllerOK c'.
Proof.
  intros [] H. unfold Configure in H. destruct (policy_Validate p) as [[]|] eqn:E; [|done].
  apply admission_policy_iff in E. injection H as <-. pose proof E as (? & ? & ? & ? & ?).
  constructor; cbn; try done; lia.
Qed.

Lemma start_window_ok c now : ControllerOK c → ControllerOK (start_window c now).
Proof.
  intros []. pose proof co_policy0 as (? & ? & _). unfold start_window.
  repeat case_match; constructor; cbn; try done; lia.
Qed.

Lemma Start_ok c now : ControllerOK c → ControllerOK (Start c now).
Proof.
  intros [? ? ? ? ? ? ? ?]%(start_window_ok c now). unfold Start. set (c1 := start_window c now) in *. clearbody c1.
  repeat case_match; bool_to_prop; constructor; cbn in *; try done; lia.
Qed.

Lemma Success_ok c now : ControllerOK c → ControllerOK (Success c now).
Proof.
  intros []. pose proof co_policy0 as (? & ? & ? & ? & _). unfold Success.
  assert (∀ n, 1 ≤ n ≤ 1000 → wrap64 (n * 2) = n * 2) as Hw
    by (intros n ?; apply wrap64_id; unfold in_int64, int64_min, int64_max; lia).
  repeat case_match; bool_to_prop; constructor; cbn in *; try done; try congruence; rewrite ?Hw by lia; unfold Second, Minute in *; lia.
Qed.

Lemma Throttle_facts c now delay :
  let c' := Throttle c now delay in
  ctl_Policy c' = ctl_Policy c ∧ Cooling c' = true ∧ Probing c' = false ∧ Epoch c' = Epoch c
  ∧ NextEligible c ≤ NextEligible c' ∧ WindowStarts c' = WindowStarts c ∧ WindowStart c' = WindowStart c
  ∧ BurstLeft c' = BurstLeft c ∧ Paused c' = Paused c.
Proof.
  cbn zeta. unfold Throttle, After. repeat case_match; bool_to_prop; cbn in *; repeat split; try congruence; lia.
Qed.

Lemma Throttle_ok c now delay : ControllerOK c → ControllerOK (Throttle c now delay).
Proof.
  intros []. pose proof co_policy0 as (? & ? & ? & ? & _).
  assert (∀ n, 2 * Second ≤ n ≤ Minute → wrap64 (n * 2) = n * 2) as Hw
    by (intros n ?; apply wrap64_id; unfold in_int64, int64_min, int64_max, Second, Minute in *; lia).
  assert (Z.max 1 (Rate c ÷ 2) ≤ MaximumRate (ctl_Policy c)).
  { pose proof (Z.quot_le_upper_bound (Rate c) 2 (Rate c)). lia. }
  constructor.
  8: { destruct (Throttle_facts c now delay) as (_ & _ & _ & _ & ? & _). lia. }
  all: unfold Throttle; repeat case_match; bool_to_prop; cbn in *; try done; try congruence; rewrite ?Hw by done;
    unfold Second, Minute in *; lia.
Qed.

Lemma completeThrottle_ok c now dispatched probe delay :
  ControllerOK c → ControllerOK (completeThrottle c now dispatched probe delay).
Proof.
  intros HC. unfold completeThrottle. case_match; [done|]. destruct probe; cbn [negb]; [by apply Throttle_ok|].
  assert (ControllerOK (c <| Probing := false |>)) as HC1 by (destruct HC; by constructor).
  apply (Throttle_ok _ now delay) in HC1. destruct HC1.
  constructor; try done. cbn. intros _. unfold Throttle. repeat case_match; done.
Qed.

Lemma Complete_ok c now dispatched reserved probe kind delay :
  ControllerOK c → ControllerOK (Complete c now dispatched reserved probe kind delay).
Proof.
  intros HC. unfold Complete.
  assert (ControllerOK (complete_kind c now dispatched reserved probe kind delay)) as Hx.
  { unfold complete_kind. repeat case_match; try done; try apply completeThrottle_ok; try done; bool_to_prop.
    - destruct HC; constructor; cbn; try done; lia.
    - destruct (Success_ok c now HC). by constructor.
    - by apply Success_ok.
    - destruct HC; by constructor. }
  case_match; [by apply Throttle_ok|done].
Qed.

Lemma ctl_step_ok c c' : ctl_step c c' → ControllerOK c → ControllerOK c'.
Proof.
  destruct 1 as [? ? p HC|c now active _|c now|c now delay|c now d r probe out|c now Hp]; intros HI.
  - by eapply Configure_ok.
  - by apply Start_ok.
  - by apply Success_ok.
  - by apply Throttle_ok.
  - by apply Complete_ok.
  - destruct HI; constructor; try done. change (0 ≤ maxTime (NextEligible c) now). rewrite maxTime_max. lia.
Qed.

(** ** What a completion changes *)

Lemma Success_facts c now :
  let c' := Success c now in
  ctl_Policy c' = ctl_Policy c ∧ Probing c' = false ∧ WindowStarts c' = WindowStarts c ∧ WindowStart c' = WindowStart c
  ∧ Cooling c' = Cooling c && negb (Probing c) ∧ Epoch c' = (if Probing c then now else Epoch c)
  ∧ NextEligible c' = (if Probing c then time_zero else NextEligible c).
Proof.
  cbn zeta. unfold Success. destruct (Probing c) eqn:E; repeat case_match; cbn in *;
    rewrite ?andb_false_r, ?andb_true_r; repeat split; congruence.
Qed.

Lemma completeThrottle_facts c now dispatched probe delay :
  let c' := completeThrottle c now dispatched probe delay in
  ctl_Policy c' = ctl_Policy c ∧ Epoch c' = Epoch c ∧ NextEligible c ≤ NextEligible c'
  ∧ WindowStarts c' = WindowStarts c ∧ WindowStart c' = WindowStart c
  ∧ (Cooling c = true → Cooling c' = true)
  ∧ Probing c' = (if probe then if Before dispatched (Epoch c) then Probing c else false else Probing c).
Proof.
  cbn zeta. unfold completeThrottle. destruct (Before dispatched (Epoch c)) eqn:E; [by destruct probe|].
  destruct probe; cbn [negb].
  - destruct (Throttle_facts c now delay) as (? & ? & ? & ? & ? & ? & ? & _). by repeat split.
  - destruct (Throttle_facts (c <| Probing := false |>) now delay) as (? & ? & ? & ? & ? & ? & ? & _).
    cbn in *. by repeat split.
Qed.

(** What a completion leaves alone: the policy and the window's start; it
    refunds at most one start and never lowers the deadline of a cooldown. *)
Definition settles (c k : Controller) (probe : bool) (dispatched : Time) : Prop :=
  ctl_Policy k = ctl_Policy c ∧ WindowStart k = WindowStart c ∧ WindowStarts c - 1 ≤ WindowStarts k ≤ WindowStarts c
  ∧ (Cooling k || Probing k = true → NextEligible c ≤ NextEligible k)
  ∧ (Epoch k = Epoch c ∨ (probe = true ∧ Epoch k = dispatched)).

Lemma settles_refl c probe dispatched : settles c c probe dispatched.
Proof. unfold settles. repeat split; auto; lia. Qed.

Lemma completeThrottle_settles c k probe now dispatched delay :
  ctl_Policy k = ctl_Policy c → WindowStart k = WindowStart c → WindowStarts c - 1 ≤ WindowStarts k ≤ WindowStarts c →
  NextEligible k = NextEligible c → Epoch k = Epoch c → Probing k = Probing c → (probe = true → Epoch c ≤ dispatched) →
  settles c (completeThrottle k now dispatched probe delay) probe dispatched
  ∧ Probing (completeThrottle k now dispatched probe delay) = (if probe then false else Probing c).
Proof.
  intros E1 E2 Hs E3 E4 E5 He.
  destruct (completeThrottle_facts k now dispatched probe delay) as (F1 & F2 & F3 & F4 & F5 & _ & F6).
  split; [|rewrite F6; destruct probe; [|done]; unfold Before; rewrite E4, (proj2 (Z.ltb_ge _ _)) by auto; done].
  unfold settles. rewrite F1, F2, F4, F5, E1, E2, E4. repeat split; try done; [lia..|by left].
Qed.

Lemma complete_kind_settles c now dispatched reserved probe kind delay :
  (Probing c = true → Cooling c = true) → (probe = true → Epoch c ≤ dispatched) →
  let k := complete_kind c now dispatched reserved probe kind delay in
  settles c k probe dispatched
  ∧ (Probing k = (if probe then false else Probing c)
     ∨ (kind ≠ "completed" ∧ kind ≠ "rejected" ∧ Probing k = Probing c)).
Proof.
  intros Hpc He. cbn zeta. unfold complete_kind.
  destruct (String.eqb_spec kind "rejected") as [->|].
  { destruct (completeThrottle_settles c (if (0 <? WindowRequests (ctl_Policy c)) && negb (Before reserved (WindowStart c))
      && (0 <? WindowStarts c) then c <| WindowStarts ::= fun n => n - 1 |> else c) probe now dispatched delay);
      try (case_match; cbn; done || lia); auto. }
  assert (∀ P, settles c (completeThrottle c now dispatched probe delay) probe dispatched
    ∧ (Probing (completeThrottle c now dispatched probe delay) = (if probe then false else Probing c) ∨ P)) as Hct.
  { intros P. destruct (completeThrottle_settles c c probe now dispatched delay); try done; try lia. auto. }
  destruct (String.eqb kind "terminal_throttle") eqn:E1; [apply Hct|].
  destruct (String.eqb_spec kind "completed") as [->|].
  - cbn. destruct (negb (Cooling c) || probe) eqn:Ecp.
    + destruct (Success_facts c now) as (S1 & S2 & S3 & S4 & S5 & S6 & S7).
      destruct probe; cbn.
      * split; [|left; exact S2]. split; [exact S1|]. split; [exact S4|].
        split; [change (WindowStarts c - 1 ≤ WindowStarts (Success c now) ≤ WindowStarts c); lia|].
        split; [|by right].
        change (Cooling (Success c now) || Probing (Success c now) = true → NextEligible c ≤ NextEligible (Success c now)).
        rewrite S2, S5, S7. destruct (Probing c); [by rewrite andb_false_r|lia].
      * rewrite orb_false_r in Ecp. apply negb_true_iff in Ecp.
        assert (Probing c = false) as Ep by (destruct (Probing c); [rewrite Hpc in Ecp|]; done).
        rewrite S2, Ep. split; [|by left]. unfold settles. rewrite S1, S2, S3, S4, S5, S6, S7, Ecp, Ep.
        repeat split; try done; try lia; by left.
    + split; [apply settles_refl|]. left. destruct probe; [by rewrite orb_true_r in Ecp|done].
  - destruct (String.eqb kind "failed" || String.eqb kind "unconfirmed").
    + destruct (HonorFailureHints c && (0 <? delay)); [apply Hct|]. split; [apply settles_refl|]. by right.
    + destruct (String.eqb kind "policy"); (split; [exact (settles_refl c probe dispatched)|by right]).
Qed.

(** A completion ends the probe exactly when it is the probe's. *)
Lemma Complete_settles c now dispatched reserved probe kind delay :
  (Probing c = true → Cooling c = true) → (probe = true → Epoch c ≤ dispatched) →
  let k := Complete c now dispatched reserved probe kind delay in
  settles c k probe dispatched ∧ Probing k = (if probe then false else Probing c).
Proof.
  intros Hpc He. cbn zeta. unfold Complete.
  destruct (complete_kind_settles c now dispatched reserved probe kind delay Hpc He) as [HS HP].
  set (k := complete_kind _ _ _ _ _ _ _) in *. clearbody k.
  destruct probe; cbn [andb]; [|destruct HP as [?|(_ & _ & ?)]; done].
  destruct (Probing k) eqn:Ek; cbn [andb].
  - destruct HP as [HP|(H1 & H2 & HP)]; [done|].
    rewrite (proj2 (String.eqb_neq _ _) H1), (proj2 (String.eqb_neq _ _) H2). cbn.
    destruct (Throttle_facts k now 0) as (T1 & T2 & T3 & T4 & T5 & T6 & T7 & _). split; [|done].
    destruct HS as (S1 & S2 & S3 & S4 & S5). unfold settles. rewrite T1, T4, T6, T7.
    repeat split; try done; try lia. intros _. rewrite Ek, orb_true_r in S4. specialize (S4 eq_refl). lia.
  - done.
Qed.

(** ** Pacing *)

(** Starts at the given times, each admitted when [active] calls are running. *)
Fixpoint paced (c : Controller) (starts : list (Time * Z)) : Prop :=
  match starts with
  | [] => True
  | (t, active) :: rest => CanStart c t active = true ∧ paced (Start c t) rest
  end.

(** Times that do not go back, from [t0] on. *)
Fixpoint ascending (t0 : Time) (starts : list (Time * Z)) : Prop :=
  match starts with
  | [] => True
  | (t, _) :: rest => t0 ≤ t ∧ ascending t rest
  end.

Definition last_time (t0 : Time) (starts : list (Time * Z)) : Time :=
  match last starts with Some s => s.1 | None => t0 end.

Lemma last_time_default t u starts : starts ≠ [] → last_time t starts = last_time u starts.
Proof. intros Hn. unfold last_time. destruct (last starts) eqn:E; [done|]. by apply last_None in E. Qed.

(** A controller that only paces: no cooldown. *)
Record Pacing (c : Controller) (burst rate : Z) : Prop := {
  pc_rate : 1 ≤ rate ≤ 1000 ∧ Rate c = rate;
  pc_burst : 1 ≤ burst ≤ 1000 ∧ Burst (ctl_Policy c) = burst;
  pc_left : 0 ≤ BurstLeft c;
  pc_cooling : Cooling c = false;
  pc_accumulate : AccumulatePace c = true;
}.

Lemma interval_pos rate : 1 ≤ rate ≤ 1000 → 1000000 ≤ Z.quot Second rate ≤ Second.
Proof.
  intros Hr. unfold Second. rewrite Z.quot_div_nonneg by lia.
  pose proof (Z.div_le_lower_bound 1000000000 rate 1000000).
  pose proof (Z.div_le_upper_bound 1000000000 rate 1000000000). lia.
Qed.

(** A start opens an admission window: the first one, or one after the last has passed. *)
Definition opens (c : Controller) (u : Time) : bool :=
  (0 <? WindowRequests (ctl_Policy c))
  && (IsZero (WindowStart c) || negb (Before u (Add (WindowStart c) (WindowDuration (ctl_Policy c))))).
Fixpoint openings (c : Controller) (starts : list (Time * Z)) : Z :=
  match starts with [] => 0 | (u, _) :: rest => Z.b2z (opens c u) + openings (Start c u) rest end.
Lemma openings_nonneg c starts : 0 ≤ openings c starts.
Proof. revert c. induction starts as [|[u a] starts IH]; intros c; cbn [openings]; [done|]. specialize (IH (Start c u)). destruct (opens c u); cbn; lia. Qed.

(** What the window part of a start does. *)
Lemma start_window_facts c u :
  let w := start_window c u in
  Rate w = Rate c ∧ ctl_Policy w = ctl_Policy c ∧ Cooling w = Cooling c ∧ AccumulatePace w = AccumulatePace c ∧ NextStart w = NextStart c
  ∧ BurstLeft w = (if opens c u && negb (IsZero (WindowStart c)) && RefillWindowBurst c then Burst (ctl_Policy c) else BurstLeft c)
  ∧ WindowStart w = (if opens c u then u else WindowStart c)
  ∧ (0 < WindowRequests (ctl_Policy c) → WindowStarts w = (if opens c u then 1 else WindowStarts c + 1)).
Proof.
  unfold start_window, opens. destruct (Z.ltb_spec 0 (WindowRequests (ctl_Policy c))) as [Hw|Hw]; [|cbn; split_and!; try done; lia].
  cbn [andb]. destruct (IsZero (WindowStart c)); cbn [orb andb negb].
  - by split_and!.
  - destruct (negb _); cbn [andb]; [|by split_and!]. destruct (RefillWindowBurst c); by split_and!.
Qed.

(** What a start does to the windows. *)
Lemma Start_window c u :
  ctl_Policy (Start c u) = ctl_Policy c ∧ Cooling (Start c u) = Cooling c
  ∧ WindowStart (Start c u) = (if opens c u then u else WindowStart c)
  ∧ (0 < WindowRequests (ctl_Policy c) → WindowStarts (Start c u) = (if opens c u then 1 else WindowStarts c + 1)).
Proof.
  destruct (start_window_facts c u) as (_ & E2 & E3 & _ & _ & _ & E7 & E8). revert E2 E3 E7 E8. unfold Start.
  generalize (start_window c u). intros w E2 E3 E7 E8. repeat case_match; cbn; split_and!; done.
Qed.

(** A start takes from the burst, which a new window may refill, or moves the next one by
    an interval. *)
Lemma Pacing_start c burst rate u active :
  Pacing c burst rate → CanStart c u active = true →
  let i := Z.quot Second rate in let c' := Start c u in
  Pacing c' burst rate ∧ ∃ b, b ≤ BurstLeft c + burst * Z.b2z (opens c u)
    ∧ ((1 ≤ b ∧ BurstLeft c' = b - 1 ∧ NextStart c' = u + i)
       ∨ (b = 0 ∧ BurstLeft c' = 0 ∧ NextStart c ≤ u ∧ NextStart c' = Z.max (NextStart c) (u - (burst - 1) * i) + i)).
Proof.
  intros [[Hr Er] [Hb Eb] Hl Hc Ha] Hcs. cbn zeta. pose proof (interval_pos rate Hr) as Hi.
  destruct (start_window_facts c u) as (E1 & E2 & E3 & E4 & E5 & E6 & _). unfold Start.
  assert (BurstLeft (start_window c u) = 0 → NextStart c ≤ u) as Hn.
  { intros E. rewrite E6 in E. destruct (_ && _); [lia|]. unfold CanStart in Hcs. rewrite Hc, E in Hcs. cbn in Hcs.
    destruct (_ || _); [done|]. destruct (negb (IsZero _)); [done|]. unfold Before in Hcs. bool_to_prop. lia. }
  assert (0 ≤ BurstLeft (start_window c u) ≤ BurstLeft c + burst * Z.b2z (opens c u)) as Hb0.
  { rewrite E6. destruct (opens c u); cbn [andb Z.b2z]; [|lia]. destruct (_ && _); lia. }
  clear E6. revert E1 E2 E3 E4 E5 Hn Hb0. generalize (start_window c u). intros w E1 E2 E3 E4 E5 Hn Hb0. rewrite Er in E1. rewrite Hc in E3. rewrite Ha in E4. rewrite <- E2 in Eb.
  set (c1 := if IsZero (Epoch w) then w <| Epoch := u |> else w).
  assert (Rate c1 = rate ∧ ctl_Policy c1 = ctl_Policy w ∧ Cooling c1 = false ∧ AccumulatePace c1 = true
          ∧ BurstLeft c1 = BurstLeft w ∧ NextStart c1 = NextStart c) as (C1 & C2 & C3 & C4 & C5 & C6)
    by (unfold c1; case_match; split_and!; done).
  clearbody c1. rewrite C3, C5. destruct (Z.ltb_spec 0 (BurstLeft w)) as [Hbl|Hbl].
  - split; [destruct c1; cbn in *; split; cbn; first [done | lia | split; [done|congruence]]|]. exists (BurstLeft w). split; [lia|]. left. cbn. unfold interval, Add. rewrite C1, C5. lia.
  - rewrite C4. assert (BurstLeft w = 0) as Hz by lia. unfold Before, interval, Add. rewrite C2, C1, C6, Eb.
    assert (wrap64 (- (burst - 1) * (Z.quot Second rate)) = - (burst - 1) * Z.quot Second rate) as ->
      by (apply wrap64_id; unfold in_int64, int64_min, int64_max, Second in *; nia).
    split; [case_match; destruct c1; cbn in *; split; cbn; first [done | lia | split; [done|congruence]]|]. exists 0. split; [lia|]. right.
    case_match; bool_to_prop; destruct c1; cbn -[Z.max Z.min] in *; rewrite C1; set (i := Second `quot` rate) in *; clearbody i;
      split_and!; lia.
Qed.

(** Along a run, the next start moves on by an interval for every start that the burst and
    its refills do not pay for. *)
Lemma paced_run c burst rate k t0 t starts :
  Pacing c burst rate → t0 ≤ t → NextStart c ≤ t + Z.quot Second rate → t0 + (k - burst) * Z.quot Second rate ≤ NextStart c →
  paced c starts → ascending t starts → starts ≠ [] →
  t0 + (k + llen starts - 1 - BurstLeft c - burst * openings c starts - burst) * Z.quot Second rate ≤ last_time t starts.
Proof.
  revert c k t. induction starts as [|[u a] starts IH]; intros c k t HP Ht Hn Hx Hp Ha Hne; [done|].
  destruct Hp as [Hcs Hp], Ha as [Htu Ha]. destruct (Pacing_start c burst rate u a HP Hcs) as (HP' & b & Hb & Hcase). cbn zeta in Hcase.
  pose proof (interval_pos rate (proj1 (pc_rate _ _ _ HP))) as Hi. pose proof (proj1 (pc_burst _ _ _ HP)) as Hbu.
  pose proof (openings_nonneg (Start c u) starts) as Ho. cbn [openings]. set (i := Second `quot` rate) in *. clearbody i.
  set (o := Z.b2z (opens c u)) in *. clearbody o. replace (llen ((u, a) :: starts)) with (llen starts + 1) by (unfold llen; cbn; lia).
  destruct starts as [|s starts].
  - change (last_time t [(u, a)]) with u. change (llen []) with 0. cbn [openings]. destruct Hcase as [(H1 & _ & _)|(H1 & _ & H3 & _)]; nia.
  - change (last_time t ((u, a) :: s :: starts)) with (last_time t (s :: starts)). rewrite (last_time_default t u) by done.
    assert (s :: starts ≠ []) as Hne' by done. set (rest := s :: starts) in *. clearbody rest.
    assert (0 ≤ (BurstLeft c + burst * o - b) * i) as Hbi by (apply Z.mul_nonneg_nonneg; lia).
    destruct Hcase as [(H1 & H2 & H3)|(H1 & H2 & H3 & H4)].
    + specialize (IH (Start c u) k u HP' ltac:(lia) ltac:(lia) ltac:(lia) Hp Ha Hne'). rewrite H2 in IH. lia.
    + specialize (IH (Start c u) (k + 1) u HP' ltac:(lia) ltac:(nia) ltac:(lia) Hp Ha Hne'). rewrite H2 in IH. lia.
Qed.

Lemma ascending_last t starts : ascending t starts → t ≤ last_time t starts.
Proof.
  revert t. induction starts as [|[u a] starts IH]; intros t; [done|]. intros [Ht Ha]. specialize (IH u Ha).
  destruct starts as [|s starts]; [done|]. change (last_time t ((u, a) :: s :: starts)) with (last_time t (s :: starts)).
  rewrite (last_time_default t u) by done. lia.
Qed.
Lemma last_time_cons t u a starts : last_time t ((u, a) :: starts) = last_time u starts.
Proof.
  destruct starts as [|s starts]; [done|]. change (last_time t ((u, a) :: s :: starts)) with (last_time t (s :: starts)). by apply last_time_default.
Qed.

(** Windows are opened a duration apart. *)
Lemma openings_after c t starts :
  0 < WindowStart c → 0 < t → 0 ≤ WindowDuration (ctl_Policy c) → ascending t starts →
  openings c starts * WindowDuration (ctl_Policy c) ≤ Z.max 0 (last_time t starts - WindowStart c).
Proof.
  revert c t. induction starts as [|[u a] starts IH]; intros c t Hs Ht Hd Ha; [cbn; lia|]. destruct Ha as [Htu Ha].
  pose proof (ascending_last u starts Ha) as Hl. rewrite last_time_cons. cbn [openings].
  destruct (Start_window c u) as (Ep & _ & Ew & _). specialize (IH (Start c u) u). rewrite Ep, Ew in IH.
  destruct (opens c u) eqn:Eo; cbn [Z.b2z].
  - specialize (IH ltac:(lia) ltac:(lia) Hd Ha). unfold opens, IsZero, time_zero, Before, Add in Eo.
    apply andb_true_iff in Eo as [_ [Eo%Z.eqb_eq|Eo%negb_true_iff%Z.ltb_ge]%orb_true_iff]; lia.
  - specialize (IH Hs ltac:(lia) Hd Ha). lia.
Qed.
Lemma openings_spaced c t starts :
  0 < t → 0 ≤ WindowDuration (ctl_Policy c) → ascending t starts →
  (openings c starts - 1) * WindowDuration (ctl_Policy c) ≤ last_time t starts - t.
Proof.
  revert c t. induction starts as [|[u a] starts IH]; intros c t Ht Hd Ha; [cbn -[Z.mul]; unfold last_time; cbn -[Z.mul]; lia|]. destruct Ha as [Htu Ha].
  pose proof (ascending_last u starts Ha) as Hl. rewrite last_time_cons. cbn [openings].
  destruct (Start_window c u) as (Ep & _ & Ew & _). destruct (opens c u); cbn [Z.b2z].
  - pose proof (openings_after (Start c u) u starts) as H. rewrite Ep, Ew in H. specialize (H ltac:(lia) ltac:(lia) Hd Ha). lia.
  - specialize (IH (Start c u) u). rewrite Ep in IH. specialize (IH ltac:(lia) Hd Ha). lia.
Qed.

(** A window admits its number of starts. *)
Lemma window_starts c t starts :
  let requests := WindowRequests (ctl_Policy c) in
  0 < requests → Cooling c = false → 0 < t → paced c starts → ascending t starts →
  llen starts ≤ Z.max 0 (requests - WindowStarts c) + requests * openings c starts.
Proof.
  cbn zeta. revert c t. induction starts as [|[u a] starts IH]; intros c t Hw Hc Ht Hp Ha; [change (llen []) with 0; cbn [openings]; lia|].
  destruct Hp as [Hcs Hp], Ha as [Htu Ha]. destruct (Start_window c u) as (Ep & Ec & _ & Es). specialize (Es Hw).
  specialize (IH (Start c u) u). rewrite Ep, Ec, Es in IH. specialize (IH Hw Hc ltac:(lia) Hp Ha). cbn [openings].
  replace (llen ((u, a) :: starts)) with (llen starts + 1) by (unfold llen; cbn; lia). destruct (opens c u) eqn:Eo; cbn [Z.b2z]; [lia|].
  assert (WindowStarts c < WindowRequests (ctl_Policy c)); [|lia].
  unfold opens, CanStart, WindowWait in *. rewrite Hc in Hcs. apply Z.ltb_lt in Hw. rewrite Hw in *. cbn [andb] in *.
  apply orb_false_iff in Eo as [_ Eo%negb_false_iff]. rewrite Eo, andb_true_r in Hcs. destruct (_ || _); [done|].
  destruct (Z.leb_spec (WindowRequests (ctl_Policy c)) (WindowStarts c)); [|done]. unfold Before in Eo. apply Z.ltb_lt in Eo.
  unfold IsZero, time_zero in Hcs. rewrite (proj2 (Z.eqb_neq _ 0)) in Hcs by lia. done.
Qed.

(** The windows that a time has room for. *)
Lemma openings_windows c t starts :
  0 < t → (0 < WindowRequests (ctl_Policy c) → Second ≤ WindowDuration (ctl_Policy c) ≤ Hour) → ascending t starts →
  openings c starts ≤ (if 0 <? WindowRequests (ctl_Policy c) then (last_time t starts - t) / WindowDuration (ctl_Policy c) + 1 else 0).
Proof.
  intros Ht Hd Ha. destruct (Z.ltb_spec 0 (WindowRequests (ctl_Policy c))) as [Hw|Hw].
  - specialize (Hd Hw). unfold Second in Hd. pose proof (openings_spaced c t starts Ht ltac:(lia) Ha) as H.
    apply (Z.div_le_mono _ _ (WindowDuration (ctl_Policy c))) in H; [|lia]. rewrite Z.div_mul in H by lia. lia.
  - clear Ht Hd Ha. revert c Hw. induction starts as [|[u a] starts IH]; intros c Hw; [done|]. cbn [openings].
    destruct (Start_window c u) as (Ep & _). specialize (IH (Start c u)). rewrite Ep in IH. specialize (IH Hw).
    unfold opens. rewrite (proj2 (Z.ltb_ge 0 _) Hw). cbn. lia.
Qed.

Lemma paced_bound c burst rate t0 a0 starts :
  Pacing c burst rate → paced c ((t0, a0) :: starts) → ascending t0 starts →
  (llen ((t0, a0) :: starts) - BurstLeft c - burst * openings c ((t0, a0) :: starts) - burst) * Z.quot Second rate ≤ last_time t0 starts - t0.
Proof.
  intros HP [Hcs Hp] Ha. destruct (Pacing_start c burst rate t0 a0 HP Hcs) as (HP' & b & Hb & Hcase). cbn zeta in Hcase.
  pose proof (interval_pos rate (proj1 (pc_rate _ _ _ HP))) as Hi. pose proof (proj1 (pc_burst _ _ _ HP)) as Hbu. pose proof (pc_left _ _ _ HP) as Hl.
  cbn [openings]. replace (llen ((t0, a0) :: starts)) with (llen starts + 1) by (unfold llen; cbn; lia).
  pose proof (paced_run (Start c t0) burst rate (match b with 0 => 2 | _ => 1 end) t0 t0 starts HP' ltac:(lia)) as HR.
  set (i := Second `quot` rate) in *. clearbody i. assert (0 ≤ (BurstLeft c + burst * Z.b2z (opens c t0) - b) * i) as Hbi by (apply Z.mul_nonneg_nonneg; lia).
  destruct starts as [|s starts].
  { change (last_time t0 []) with t0. change (llen []) with 0. cbn [openings]. assert (0 ≤ Z.b2z (opens c t0)) by (by destruct (opens c t0)). nia. }
  set (rest := s :: starts) in *. assert (rest ≠ []) as Hne by done. clearbody rest.
  destruct Hcase as [(H1 & H2 & H3)|(-> & H2 & H3 & H4)].
  - destruct b as [|b|b]; [lia| |lia]. specialize (HR ltac:(lia) ltac:(nia) Hp Ha Hne). rewrite H2 in HR. lia.
  - specialize (HR ltac:(nia) ltac:(nia) Hp Ha Hne). rewrite H2 in HR. lia.
Qed.

(** ** Properties *)

(** Every controller reachable from a valid policy by any interleaving of
    reconfiguration, admitted starts, successes, throttles, completions and
    resumes keeps its invariant: the rate stays within 1 and the policy's
    maximum, so that the pacer's division is defined; the burst and the window
    counters stay non-negative; a probe only runs during a cooldown; and the
    probe's backoff stays between two seconds and a minute. *)
Theorem controller_reachable_ok p c :
  policy_Validate p = Ok tt → rtc ctl_step (NewController p) c → ControllerOK c.
Proof.
  intros HP%admission_policy_iff. intros Hr. remember (NewController p) as c0 eqn:E.
  assert (ControllerOK c0) as H0 by (subst; by apply NewController_ok). clear E.
  induction Hr as [|c c1 c2 Hs Hr IH]; [done|]. apply IH. by eapply ctl_step_ok.
Qed.

Lemma controller_reachable_ok_witness :
  ControllerOK (Throttle (Start (NewController DefaultPolicy) Hour) (2 * Hour) 0).
Proof.
  apply (controller_reachable_ok DefaultPolicy); [reflexivity|].
  eapply rtc_l; [apply (step_start _ Hour 0); vm_compute; reflexivity|].
  eapply rtc_l; [apply step_throttle|]. apply rtc_refl.
Defined.

Lemma bucket_bound n left burst o w paid : n - left - burst * o - burst ≤ paid → o ≤ w → 0 ≤ burst → n ≤ left + burst * (1 + w) + paid.
Proof. nia. Qed.

Lemma window_bound n left requests o w : n ≤ left + requests * o → o ≤ w → 0 ≤ requests → n ≤ left + requests * w.
Proof. nia. Qed.

(** C31: the pacer is a token bucket over an admission window. In a controller that is not
    cooling down and carries its pace forward, as those of the pool do, a run of
    admitted starts between two adaptations of the rate that begins at [t0], after the
    zero time, and ends at
    [t] has at most the burst left, plus the configured burst once for the credit
    carried forward and once more for each admission window the time has room for,
    plus one start per interval of elapsed time. A policy with windows also admits no
    more than what is left of the present window and its number of requests for each
    window the time has room for. *)
Theorem start_rate_bound c t0 a0 starts :
  ControllerOK c → Cooling c = false → AccumulatePace c = true → 0 < t0 →
  paced c ((t0, a0) :: starts) → ascending t0 starts →
  let p := ctl_Policy c in
  let elapsed := last_time t0 starts - t0 in
  let windows := if 0 <? WindowRequests p then elapsed / WindowDuration p + 1 else 0 in
  llen ((t0, a0) :: starts) ≤ BurstLeft c + Burst p * (1 + windows) + elapsed / interval c
  ∧ (0 < WindowRequests p → llen ((t0, a0) :: starts) ≤ Z.max 0 (WindowRequests p - WindowStarts c) + WindowRequests p * windows).
Proof.
  intros [HP Hr Hb _ _ _ _ _] Hc Ha Ht Hp Has. cbn zeta. destruct HP as (_ & ? & ? & ? & _ & _ & Hwr & Hwd).
  assert (Pacing c (Burst (ctl_Policy c)) (Rate c)) as HPc by (constructor; auto; lia).
  pose proof (paced_bound c _ _ t0 a0 starts HPc Hp Has) as HB. pose proof (interval_pos (Rate c) ltac:(lia)) as Hi. unfold interval.
  pose proof (openings_windows c t0 ((t0, a0) :: starts) Ht) as Ho. rewrite last_time_cons in Ho. cbn zeta in Ho.
  set (windows := if 0 <? WindowRequests (ctl_Policy c) then _ else _) in *.
  assert (openings c ((t0, a0) :: starts) ≤ windows) as Hw by (apply Ho; [done|split; [lia|done]]). split.
  - apply (Z.div_le_mono _ _ (Second `quot` Rate c)) in HB; [|lia]. rewrite Z.div_mul in HB by lia. exact (bucket_bound _ _ _ _ _ _ HB Hw ltac:(lia)).
  - intros Hpos. pose proof (window_starts c t0 ((t0, a0) :: starts) Hpos Hc Ht Hp ltac:(split; [lia|done])) as H2. cbn zeta in H2.
    exact (window_bound _ _ _ _ _ H2 Hw ltac:(lia)).
Qed.

(** A window of two requests in ten seconds. *)
Definition windowed : Controller :=
  (NewController (DefaultPolicy <| WindowRequests := 2 |> <| WindowDuration := 10 * Second |>)) <| BurstLeft := 0 |>.
Lemma start_rate_bound_witness :
  llen [(Hour, 0); (Hour, 1); (Hour + 10 * Second, 2)]
  ≤ BurstLeft windowed + Burst (ctl_Policy windowed) * (1 + 2) + 10 * Second / interval windowed
  ∧ llen [(Hour, 0); (Hour, 1); (Hour + 10 * Second, 2)] ≤ 2 + 2 * 2.
Proof.
  destruct (start_rate_bound windowed Hour 0 [(Hour, 1); (Hour + 10 * Second, 2)]) as [H1 H2].
  - constructor; vm_compute; done.
  - reflexivity.
  - reflexivity.
  - vm_compute; reflexivity.
  - split; [vm_compute; reflexivity|]. split; [vm_compute; reflexivity|]. split; [vm_compute; reflexivity|exact I].
  - repeat split; vm_compute; discriminate.
  - split; [exact H1|apply H2; vm_compute; reflexivity].
Defined.

(** [retryDelay] is exact until it would overflow and then saturates: a
    provider's wait never turns negative or wraps, whatever 64-bit number of
    milliseconds it sends. *)
Theorem retryDelay_saturates ms :
  in_int64 ms → retryDelay ms = Z.min int64_max (Z.max 0 ms * Millisecond).
Proof.
  unfold in_int64, retryDelay. intros Hms.
  assert (Z.quot int64_max Millisecond = 9223372036854) as -> by reflexivity.
  unfold Millisecond in *. destruct (Z.ltb_spec 9223372036854 ms).
  - unfold int64_max in *. lia.
  - rewrite wrap64_id; unfold in_int64, int64_min, int64_max in *; lia.
Qed.

Lemma retryDelay_saturates_witness : retryDelay 10000000000000 = int64_max ∧ retryDelay (-5) = 0.
Proof.
  split; [rewrite (retryDelay_saturates 10000000000000)|rewrite (retryDelay_saturates (-5))];
    (reflexivity || (split; vm_compute; discriminate)).
Defined.

(** A straggler cannot reopen admission: no completion of a call that is
    not the recovery probe ends a cooldown, ends or starts a probe, or brings
    the next eligible instant forward; the probe's own completion always ends
    the probe. *)
Theorem only_probe_reopens c now dispatched reserved probe out :
  ControllerOK c → Cooling c = true → Epoch c ≤ dispatched →
  let c' := CompleteOutcome c now dispatched reserved probe out in
  if probe then Probing c' = false
  else Cooling c' = true ∧ Probing c' = Probing c ∧ NextEligible c ≤ NextEligible c'.
Proof.
  intros HC Hcool He. cbn zeta. unfold CompleteOutcome. set (kind := if String.eqb _ "restricted" then _ else _).
  set (delay := retryDelay _). clearbody kind delay.
  destruct (Complete_settles c now dispatched reserved probe kind delay (co_probe _ HC) ltac:(done)) as [HS HP].
  destruct probe; [done|]. destruct HS as (_ & _ & _ & HN & _).
  assert (Cooling (Complete c now dispatched reserved false kind delay) = true) as Hk.
  { unfold Complete. cbn [andb]. unfold complete_kind. rewrite Hcool. cbn [negb orb].
    repeat case_match; try done; apply completeThrottle_facts; done. }
  split; [done|]. split; [done|]. apply HN. by rewrite Hk.
Qed.

Definition throttled_outcome : Outcome :=
  MkOutcome "rejected" "throttled" 0 None None 1500 "" 1 0 0 None None 0 None None None None None None "" None.

Lemma only_probe_reopens_witness :
  let c := Throttle (Start (NewController DefaultPolicy) Hour) (2 * Hour) 0 in
  NextEligible c ≤ NextEligible (CompleteOutcome c (3 * Hour) (2 * Hour) Hour false throttled_outcome).
Proof.
  cbn zeta. apply (only_probe_reopens (Throttle (Start (NewController DefaultPolicy) Hour) (2 * Hour) 0) (3 * Hour)
    (2 * Hour) Hour false throttled_outcome).
  - apply Throttle_ok, Start_ok, NewController_ok, admission_policy_iff. reflexivity.
  - vm_compute; reflexivity.
  - vm_compute; discriminate.
Defined.
