(* ===== verification/BatchPool.v ===== *)
(** * BatchPool: the durable admission state of a provider pool

    Models [src/stateful/batch]: pool_state.go (grants, observations of attempts,
    snapshots), recovery_jitter.go (the padded recovery deadline), the waiting
    reasons of pool_progress.go, budget.go, and the ledger's records.

    The hash functions are operations of [PoolEnv]: the permit identifier
    [uuid.NewSHA1] of an identity string, the canonical text of the UUID a string
    parses to, the first eight bytes of SHA-256 and the RFC 3339 text of an instant. *)
From stdpp Require Import relations pretty.
From S2P Require Import Prelude BatchController.

Open Scope string_scope.
Open Scope list_scope.
Open Scope Z_scope.

(** ** Records of the ledger *)

Record Ref := MkRef { ref_Scope : string; ref_JobID : string; ref_Index : Z }.

Definition ref_eqb (a b : Ref) : bool :=
  String.eqb (ref_Scope a) (ref_Scope b) && String.eqb (ref_JobID a) (ref_JobID b) && (ref_Index a =? ref_Index b).

Record Reservation := MkReservation {
  rs_PermitID : string;
  rs_PoolID : string;
  rs_Generation : Z;
  rs_Sequence : Z;
  rs_Ref : Ref;
  rs_RequestID : string;
  rs_Kind : string;
  rs_WorkflowID : string;
  rs_GrantedAt : Time;
  rs_StartBy : Time;
  rs_Deadline : Time;
  rs_BudgetMS : Z;
  rs_WindowID : Z;
  rs_Epoch : Z;
  rs_PolicyRevision : Z;
  rs_Probe : bool;
}.

Record Counts := MkCounts {
  n_Total : Z; n_Queued : Z; n_Active : Z; n_Waiting : Z; n_Succeeded : Z; n_Failed : Z }.

Definition counts_Done (c : Counts) : bool := (0 <? n_Total c) && (n_Succeeded c + n_Failed c =? n_Total c).

Record AttemptObservation := MkObservation {
  ob_Outcome : Outcome;
  ob_NativeEntered : bool;
  ob_LocalStopped : bool;
  ob_ObservedAt : Time;
}.

Record Attempt := MkAttempt {
  a_Reservation : Reservation;
  a_Ordinal : Z;
  a_State : string;
  a_ClaimID : string;
  a_ClaimedAt : option Time;
  a_DispatchedAt : option Time;
  a_GenerationDeadline : option Time;
  a_StoppedAt : option Time;
  a_SettlementRevision : Z;
  a_Observation : option AttemptObservation;
  a_Counts : Counts;
}.

Definition executionDeadline (a : Attempt) : Time := default (rs_Deadline (a_Reservation a)) (a_GenerationDeadline a).

(** [Kind] is empty for a job item. *)
Record ReadyItem := MkReady {
  ri_Kind : string;
  ri_RequestID : string;
  ri_Ref : Ref;
  ri_BudgetMS : Z;
  ri_Deadline : Time;
  ri_ReadyAt : Time;
}.

Record AttemptStartResult := MkStartResult { sr_PermitID : string; sr_Started : bool; sr_ErrorCode : string }.

Inductive batch_error : Type :=
| ErrNotFound | ErrConflict | ErrUnavailable | ErrGenerationFenced | ErrClaimOwned | ErrClaimUnconfirmed
| ErrSettlementConflict | ErrInvalidTimeout | ErrLegacyExecutionUnresolved.

(** ** Generation budgets *)

Definition LegacyGenerationBudget : Duration := 180 * Second.
Definition DefaultGenerationBudget : Duration := 300 * Second.
Definition MaximumGenerationBudget : Duration := 900 * Second.

Definition generationBudget (timeoutMS : Z) : Duration :=
  if timeoutMS =? 0 then LegacyGenerationBudget
  else if (timeoutMS <? 1) || (Milliseconds MaximumGenerationBudget <? timeoutMS) then 0
  else wrap64 (timeoutMS * Millisecond).

Definition resolveNewGenerationBudget (ms : Z) : res batch_error Z :=
  if (ms <? 0) || (Milliseconds MaximumGenerationBudget <? ms) then Err ErrInvalidTimeout
  else if ms =? 0 then Ok (Milliseconds DefaultGenerationBudget) else Ok ms.

(** The deadline of [generationContext], with [now] its clock. *)
Definition generationDeadline (now : Time) (timeoutMS : Z) (jobDeadline : Time) : Time :=
  let deadline := Add now (generationBudget timeoutMS) in
  if Before jobDeadline deadline then jobDeadline else deadline.

(** ** The pool *)

Definition MaximumItems : Z := 1000.
Definition maximumStartIntents : Z := 64.
Definition pendingClaimLimit : Z := 32.
Definition maximumPoolSnapshot : Z := 262144.

Record PoolPermit := MkPermit {
  pp_ID : string;
  pp_Revision : Z;
  pp_Applied : bool;
  pp_AwaitingStop : bool;
  pp_Claimed : bool;
}.

Record recoveryPadding := MkPadding { pad_Floor : Time; pad_Until : Time }.

Record PoolState := MkPool {
  PoolID : string;
  Generation : Z;
  pool_Controller : Controller;
  Sequence : Z;
  PolicyRevision : Z;
  Episode : Z;
  WindowID : Z;
  WindowAnchored : bool;
  AfterScope : string;
  Outstanding : list PoolPermit;
  StartIntents : list Reservation;
  ProbeID : string;
  ProbeClaimAt : Time;
  DispatchNeedsReady : bool;
  DispatchBlockedUntil : Time;
  DispatchBackoff : Duration;
  Quiescing : bool;
  PersistenceWait : bool;
  PublicationAfter : Z;
  PublicationAt : Time;
  PublicationReason : string;
  PublicationNext : option Time;
  RequestRetirements : list string;
  CoalesceDispatchFailures : bool;
  PendingClaimLimit : Z;
  CoalesceTransientPublication : bool;
  RecoveryJitterVersion : Z;
  RecoveryPadding : option recoveryPadding;
}.

Definition NewPoolState (pool : string) (generation : Z) (policy : Policy) : PoolState :=
  {| PoolID := pool; Generation := generation; pool_Controller := NewController policy; Sequence := 0;
     PolicyRevision := 1; Episode := 1; WindowID := 1; WindowAnchored := false; AfterScope := ""; Outstanding := [];
     StartIntents := []; ProbeID := ""; ProbeClaimAt := time_zero; DispatchNeedsReady := false;
     DispatchBlockedUntil := time_zero; DispatchBackoff := 2 * Second; Quiescing := false; PersistenceWait := false;
     PublicationAfter := 0; PublicationAt := time_zero; PublicationReason := ""; PublicationNext := None;
     RequestRetirements := []; CoalesceDispatchFailures := true; PendingClaimLimit := pendingClaimLimit;
     CoalesceTransientPublication := true; RecoveryJitterVersion := 1; RecoveryPadding := None |}.

Definition pendingClaimsFull (s : PoolState) : bool :=
  if PendingClaimLimit s =? 0 then false
  else PendingClaimLimit s <=? llen (List.filter (fun p => negb (pp_Claimed p)) (Outstanding s)).

(** A new window: its budget, and the burst outside a cooldown. *)
Definition window_reset (c : Controller) : Controller :=
  let c := c <| WindowStart := time_zero |> <| WindowStarts := 0 |> in
  if negb (Cooling c) && RefillWindowBurst c then c <| BurstLeft := Burst (ctl_Policy c) |> else c.

Definition refreshWindow (s : PoolState) (now : Time) : PoolState :=
  let c := pool_Controller s in
  if WindowAnchored s && (0 <? WindowRequests (ctl_Policy c))
     && negb (Before now (Add (WindowStart c) (WindowDuration (ctl_Policy c))))
  then
    s <| WindowID ::= fun n => n + 1 |> <| WindowAnchored := false |>
      <| pool_Controller ::= window_reset |>
  else s.

Definition unresolved (s : PoolState) : bool := existsb pp_AwaitingStop (Outstanding s).

(** The decision of [CanGrant], after the window was refreshed. *)
Definition grantable (s : PoolState) (now : Time) : bool :=
  if Quiescing s || PersistenceWait s || DispatchNeedsReady s || unresolved s || pendingClaimsFull s
     || (maximumStartIntents <=? llen (StartIntents s)) || (1000 <=? llen (RequestRetirements s) + llen (Outstanding s))
  then false
  else
    let c := pool_Controller s in
    if negb (Cooling c) && negb (WindowAnchored s) && (0 <? WindowRequests (ctl_Policy c))
       && (WindowRequests (ctl_Policy c) <=? WindowStarts c)
    then false
    else CanStart c now (llen (Outstanding s)).

Definition CanGrant (s : PoolState) (now : Time) : PoolState * bool :=
  let s := refreshWindow s now in (s, grantable s now).

Definition is_lower_hex (a : Ascii.ascii) : bool :=
  let n := Ascii.nat_of_ascii a in between 48 57 n || between 97 102 n.

Definition validScope (v : string) : bool :=
  (slen v =? 64) && forallb is_lower_hex (String.list_ascii_of_string v).

(** [strings.ContainsAny(id, "\r\n\t\x00")] *)
Definition is_control (a : Ascii.ascii) : bool :=
  let n := Ascii.nat_of_ascii a in ((n =? 13) || (n =? 10) || (n =? 9) || (n =? 0))%nat.

Definition validPool (id : string) : bool :=
  (0 <? slen id) && (slen id <=? 128) && String.eqb (TrimSpace id) id
  && negb (existsb is_control (String.list_ascii_of_string id)).

Fixpoint dropIntent_in (id : string) (l : list Reservation) : list Reservation :=
  match l with
  | [] => []
  | r :: rest => if String.eqb (rs_PermitID r) id then rest else r :: dropIntent_in id rest
  end.
Definition dropIntent (s : PoolState) (id : string) : PoolState := s <| StartIntents ::= dropIntent_in id |>.

Definition AcknowledgeStarts (s : PoolState) (results : list AttemptStartResult) : PoolState :=
  foldl (fun s r => if sr_Started r then dropIntent s (sr_PermitID r) else s) s results.

Definition ReadyRequestExclusions (s : PoolState) : list string :=
  map rs_RequestID (List.filter (fun r => String.eqb (rs_Kind r) "ordinary") (StartIntents s)).
Definition ReadyExclusions (s : PoolState) : list Ref :=
  map rs_Ref (List.filter (fun r => String.eqb (rs_Kind r) "job") (StartIntents s)).

(** The position of a permit, the first one with the identifier. *)
Fixpoint find_permit (id : string) (l : list PoolPermit) : option nat :=
  match l with
  | [] => None
  | p :: rest => if String.eqb (pp_ID p) id then Some O else S <$> find_permit id rest
  end.

Definition NUL : string := String (Ascii.ascii_of_nat 0) EmptyString.

Class PoolEnv := {
  uuid_sha1 : string → string;
  uuid_parse : string → option string;
  sha256_u64 : string → Z;
  rfc3339nano : Time → string;
}.

Section Pool.
Context `{PoolEnv}.

(** [uuid.Nil] as [String] prints it. *)
Definition uuid_nil : string := "00000000-0000-0000-0000-000000000000".

Definition validPermitID (id : string) : bool :=
  match uuid_parse id with
  | Some u => negb (String.eqb u uuid_nil) && String.eqb u id
  | None => false
  end.

(** ** The padded recovery deadline *)

Definition jitter_seed (s : PoolState) (floor : Time) : string :=
  PoolID s +:+ NUL +:+ pretty (Episode s) +:+ NUL +:+ ProbeID s +:+ NUL +:+ pretty (PolicyRevision s) +:+ NUL
  +:+ rfc3339nano floor.

Definition padRecoveryFloor (s : PoolState) (previous : Time) : PoolState :=
  let c := pool_Controller s in
  if negb (Cooling c) || IsZero (NextEligible c) then s <| RecoveryPadding := None |>
  else if match RecoveryPadding s with Some p => time_Equal (NextEligible c) (pad_Until p) | None => false end then s
  else if negb (After (NextEligible c) previous) then s
  else
    let s := s <| RecoveryPadding := None |> in
    let jitter := RecoveryJitterMS (ctl_Policy c) in
    if negb (RecoveryJitterVersion s =? 1) || (jitter <=? 0) || (1000 <? jitter) then s
    else
      let floor := NextEligible c in
      let padding := (sha256_u64 (jitter_seed s floor) mod (jitter + 1)) * Millisecond in
      let until := Add floor padding in
      s <| RecoveryPadding := Some (MkPadding floor until) |>
        <| pool_Controller ::= fun c => c <| NextEligible := until |> |>.

Definition validRecoveryPadding (s : PoolState) : bool :=
  let c := pool_Controller s in
  if (RecoveryJitterVersion s <? 0) || (1 <? RecoveryJitterVersion s)
     || (RecoveryJitterMS (ctl_Policy c) <? 0) || (1000 <? RecoveryJitterMS (ctl_Policy c))
  then false
  else match RecoveryPadding s with
  | None => true
  | Some p =>
      (RecoveryJitterVersion s =? 1) && negb (IsZero (pad_Floor p)) && negb (Before (pad_Until p) (pad_Floor p))
      && (Sub (pad_Until p) (pad_Floor p) <=? Second) && Cooling c && time_Equal (NextEligible c) (pad_Until p)
  end.

(** ** Grants *)

Definition item_kind (item : ReadyItem) : string := if String.eqb (ri_Kind item) "" then "job" else ri_Kind item.

Definition validOwner (item : ReadyItem) : bool :=
  let kind := item_kind item in
  let r := ri_Ref item in
  (String.eqb kind "job" && validPermitID (ref_JobID r) && (0 <=? ref_Index r) && (ref_Index r <? MaximumItems)
   && String.eqb (ri_RequestID item) "")
  || (String.eqb kind "ordinary" && validPermitID (ri_RequestID item) && String.eqb (ref_JobID r) "" && (ref_Index r =? 0)).

Definition grant_identity (s : PoolState) (sequence : Z) (item : ReadyItem) : string :=
  let r := ri_Ref item in
  let identity := PoolID s +:+ NUL +:+ pretty (Generation s) +:+ NUL +:+ pretty sequence +:+ NUL +:+ ref_Scope r
                  +:+ NUL +:+ ref_JobID r +:+ NUL +:+ pretty (ref_Index r) in
  if String.eqb (item_kind item) "ordinary" then identity +:+ NUL +:+ "ordinary" +:+ NUL +:+ ri_RequestID item
  else identity.

Definition grant_reservation (s : PoolState) (now : Time) (item : ReadyItem) (id : string) : Reservation :=
  let ordinary := String.eqb (item_kind item) "ordinary" in
  {| rs_PermitID := id; rs_PoolID := PoolID s; rs_Generation := Generation s; rs_Sequence := Sequence s;
     rs_Ref := ri_Ref item; rs_RequestID := if ordinary then ri_RequestID item else "";
     rs_Kind := if ordinary then item_kind item else "job";
     rs_WorkflowID := (if ordinary then "hllm-cpa-request-v2/" else "hllm-cpa-attempt-v2/") +:+ id;
     rs_GrantedAt := now; rs_StartBy := minTime (Add now (5 * Second)) (ri_Deadline item);
     rs_Deadline := ri_Deadline item; rs_BudgetMS := ri_BudgetMS item; rs_WindowID := WindowID s;
     rs_Epoch := Episode s; rs_PolicyRevision := PolicyRevision s; rs_Probe := Cooling (pool_Controller s) |}.

(** The pacer's start without its window, which the pool anchors itself. *)
Definition grant_start (c : Controller) (now : Time) : Controller :=
  let policy := ctl_Policy c in
  let c := Start (c <| ctl_Policy ::= fun p => p <| WindowRequests := 0 |> |>) now in
  let c := c <| ctl_Policy := policy |> in
  if 0 <? WindowRequests policy then c <| WindowStarts ::= fun n => n + 1 |> else c.

Definition Grant (s : PoolState) (now : Time) (item : ReadyItem) : PoolState * res batch_error Reservation :=
  let kind := item_kind item in
  let '(s, can) := CanGrant s now in
  if negb can || negb (validPool (PoolID s)) || (Generation s <? 1) || (Sequence s =? int64_max)
     || negb (validScope (ref_Scope (ri_Ref item))) || negb (validOwner item) || (ri_BudgetMS item <? 1)
     || (Milliseconds MaximumGenerationBudget <? ri_BudgetMS item) || negb (Before now (ri_Deadline item))
  then (s, Err ErrUnavailable)
  else if existsb (fun r => String.eqb (rs_Kind r) kind
             && ((String.eqb kind "job" && ref_eqb (rs_Ref r) (ri_Ref item))
                 || (String.eqb kind "ordinary" && String.eqb (rs_RequestID r) (ri_RequestID item)))) (StartIntents s)
  then (s, Err ErrConflict)
  else
    let s := s <| Sequence ::= fun n => n + 1 |> in
    let id := uuid_sha1 (grant_identity s (Sequence s) item) in
    let r := grant_reservation s now item id in
    let s := s <| pool_Controller ::= fun c => grant_start c now |> in
    let s := if rs_Probe r then s <| ProbeID := id |> <| ProbeClaimAt := time_zero |> else s in
    (s <| Outstanding ::= fun l => l ++ [MkPermit id 0 false false false] |>
       <| StartIntents ::= fun l => l ++ [r] |>, Ok r).

(** ** Observations *)

Definition refundStart (c : Controller) : Controller :=
  if 0 <? WindowStarts c then c <| WindowStarts ::= fun n => n - 1 |> else c.

(** The [never_dispatched] branch of [applyOutcome]. *)
Definition apply_never_dispatched (s : PoolState) (now : Time) (a : Attempt) (probe currentWindow : bool) : PoolState :=
  let s := if currentWindow then s <| pool_Controller ::= refundStart |> else s in
  let s := if probe then s <| pool_Controller ::= fun c => c <| Probing := false |> |> <| ProbeID := "" |> else s in
  if String.eqb (rs_Kind (a_Reservation a)) "ordinary" then s
  else if CoalesceDispatchFailures s && DispatchNeedsReady s then s
  else
    let s := s <| DispatchNeedsReady := true |> in
    let s := if DispatchBackoff s <? 2 * Second then s <| DispatchBackoff := 2 * Second |> else s in
    s <| DispatchBlockedUntil := Add now (DispatchBackoff s) |>
      <| DispatchBackoff := Z.min (30 * Second) (wrap64 (DispatchBackoff s * 2)) |>.

Definition applyOutcome (s : PoolState) (now : Time) (a : Attempt) (out : Outcome) : PoolState :=
  let c := pool_Controller s in
  let r := a_Reservation a in
  let probe := rs_Probe r && String.eqb (rs_PermitID r) (ProbeID s) in
  let currentWindow := rs_WindowID r =? WindowID s in
  let kind := out_Kind out in
  if String.eqb kind "never_dispatched" then apply_never_dispatched s now a probe currentWindow
  else if String.eqb kind "completed" && negb probe && (Cooling c || negb (rs_Epoch r =? Episode s)) then s
  else
    let restricted := String.eqb kind "policy" || String.eqb (out_Admission out) "restricted" in
    let throttle := String.eqb kind "rejected" || String.eqb (out_Admission out) "throttled" || (0 <? out_RetryAfterMS out) in
    if throttle && negb restricted && (rs_Epoch r <? Episode s) && negb (Cooling c) then
      if String.eqb kind "rejected" && currentWindow then s <| pool_Controller ::= refundStart |> else s
    else if probe && String.eqb kind "completed" && Before now (NextEligible c) then
      s <| pool_Controller ::= fun c => c <| Probing := false |> |> <| ProbeID := "" |>
    else
      let wasCooling := Cooling c in
      let previousEligible := NextEligible c in
      let reserved := if currentWindow then WindowStart c else Add (WindowStart c) (- Nanosecond) in
      let dispatched := if probe && negb (IsZero (ProbeClaimAt s)) then ProbeClaimAt s else Epoch c in
      let s := s <| pool_Controller ::= fun c => CompleteOutcome c now dispatched reserved probe out |> in
      let s := if negb wasCooling && Cooling (pool_Controller s) then s <| Episode ::= fun n => n + 1 |> else s in
      let s := padRecoveryFloor s previousEligible in
      if probe && negb (Probing (pool_Controller s)) then s <| ProbeID := "" |> else s.

(** The effects of a claimed attempt on the slot [index]. *)
Definition observe_claim (s : PoolState) (now : Time) (a : Attempt) (index : nat) (slot : PoolPermit) : PoolState * bool :=
  let r := a_Reservation a in
  let newly := (0 <? PendingClaimLimit s) && negb (pp_Claimed slot) in
  let s := if newly then s <| Outstanding ::= <[index := slot <| pp_Claimed := true |>]> |> else s in
  let s := dropIntent s (rs_PermitID r) in
  let s := s <| DispatchBackoff := 2 * Second |> in
  let s := if String.eqb (rs_PermitID r) (ProbeID s) && IsZero (ProbeClaimAt s) then s <| ProbeClaimAt := now |> else s in
  if (rs_WindowID r =? WindowID s) && negb (WindowAnchored s) then
    (s <| WindowAnchored := true |>
       <| pool_Controller ::= fun c =>
            let c := c <| WindowStart := now |> in
            if negb (Cooling c) then c <| Epoch := now |> else c |>, true)
  else (s, newly).

(** The effects of a settled attempt: its outcome is applied once. *)
Definition observe_settlement (s : PoolState) (now : Time) (a : Attempt) (out : Outcome) (index : nat) (slot : PoolPermit)
  : PoolState :=
  let s := dropIntent s (rs_PermitID (a_Reservation a)) in
  let s := if negb (pp_Applied slot) then applyOutcome s now a out else s in
  match a_StoppedAt a with
  | None =>
      s <| Outstanding ::= <[index := slot <| pp_Applied := true |> <| pp_Revision := a_SettlementRevision a |>
                                           <| pp_AwaitingStop := true |>]> |>
  | Some _ =>
      let s := s <| Outstanding ::= delete index |> in
      if String.eqb (rs_Kind (a_Reservation a)) "ordinary"
      then s <| RequestRetirements ::= fun l => l ++ [rs_PermitID (a_Reservation a)] |> else s
  end.

Definition Observe (s : PoolState) (now : Time) (a : Attempt) : PoolState * bool :=
  let r := a_Reservation a in
  match find_permit (rs_PermitID r) (Outstanding s) with
  | None => (s, false)
  | Some index =>
      if negb (String.eqb (rs_PoolID r) (PoolID s)) || negb (rs_Generation r =? Generation s) then (s, false)
      else
        match Outstanding s !! index with
        | None => (s, false)
        | Some slot =>
            let '(s, changed) :=
              match a_ClaimedAt a with
              | Some _ => observe_claim s now a index slot
              | None => (s, false)
              end in
            match a_Observation a, Outstanding s !! index with
            | Some observation, Some slot =>
                if negb (String.eqb (a_State a) "settled") || (a_SettlementRevision a <? 1)
                   || (a_SettlementRevision a <=? pp_Revision slot)
                then (s, changed)
                else (observe_settlement s now a (ob_Outcome observation) index slot, true)
            | _, _ => (s, changed)
            end
        end
  end.

(** ** Snapshots *)

(** [marshal_len] is the length of the state's JSON text. *)
Definition snapshot_accepts (marshal_len : PoolState → Z) (s : PoolState) : bool :=
  validRecoveryPadding s && negb (PendingClaimLimit s <? 0) && negb (maximumStartIntents <? PendingClaimLimit s)
  && (marshal_len s <? maximumPoolSnapshot) && negb (maximumStartIntents <? llen (StartIntents s))
  && negb (1000 <? llen (Outstanding s) + llen (RequestRetirements s)).
End Pool.

(** ** Waiting reasons and their publication *)

Definition Waiting (s : PoolState) (now : Time) : string * option Time :=
  let c := pool_Controller s in
  if unresolved s then ("unresolved_execution", None)
  else if PersistenceWait s || ((0 <? llen (RequestRetirements s)) && (1000 <=? llen (RequestRetirements s) + llen (Outstanding s)))
  then ("persistence_wait", None)
  else if Quiescing s then ("workflow_rollover", None)
  else if Paused c then ("account_restricted", None)
  else if DispatchNeedsReady s then
    ("worker_unavailable", if After (DispatchBlockedUntil s) now then Some (DispatchBlockedUntil s) else None)
  else if Cooling c then
    ("provider_throttled", if negb (Probing c) && negb (IsZero (NextEligible c)) then Some (NextEligible c) else None)
  else if negb (IsZero (WindowWait c now)) then ("admission_window", Some (WindowWait c now))
  else if negb (WindowAnchored s) && (0 <? WindowRequests (ctl_Policy c)) && (WindowRequests (ctl_Policy c) <=? WindowStarts c)
  then ("admission_window", None)
  else if (0 <? llen (StartIntents s)) || pendingClaimsFull s then ("dispatch_pending", None)
  else if Concurrency (ctl_Policy c) <=? llen (Outstanding s) then ("pool_capacity", None)
  else ("", None).

Definition sameOptionalTime (a b : option Time) : bool :=
  match a, b with
  | None, None => true
  | Some a, Some b => time_Equal a b
  | _, _ => false
  end.

Definition transient_reason (r : string) : bool := str_in r [""; "dispatch_pending"; "pool_capacity"].

Definition coalesciblePublication (s : PoolState) (reason : string) (next : option Time) : bool :=
  CoalesceTransientPublication s && transient_reason (PublicationReason s) && transient_reason reason
  && sameOptionalTime (PublicationNext s) next.

Definition publicationDue (s : PoolState) (now : Time) (reason : string) (next : option Time) : bool :=
  if IsZero (PublicationAt s) || negb (Before now (Add (PublicationAt s) (5 * Second))) then true
  else
    let changed := negb (String.eqb reason (PublicationReason s)) || negb (sameOptionalTime next (PublicationNext s)) in
    changed && negb (coalesciblePublication s reason next).

Definition validWaitingReason (reason : string) : bool :=
  str_in reason [""; "provider_throttled"; "admission_window"; "account_restricted"; "dispatch_pending";
                 "workflow_rollover"; "persistence_wait"; "worker_unavailable"; "unresolved_execution"; "pool_capacity"].

(** ** Properties *)

Lemma NextEligible_add_0 (c : Controller) : c = c <| NextEligible ::= fun t => t + 0 |>.
Proof. destruct c as [? ? ? ? ? ? e]. unfold upd. f_equal. cbn. lia. Qed.

(** Recovery jitter only delays, by at most the configured milliseconds
    (never more than a second), and touches nothing else of the controller. *)
Theorem padRecoveryFloor_bounded `{PoolEnv} s previous :
  0 ≤ RecoveryJitterMS (ctl_Policy (pool_Controller s)) ≤ 1000 →
  let c := pool_Controller s in
  let s' := padRecoveryFloor s previous in
  ∃ d, 0 ≤ d ≤ RecoveryJitterMS (ctl_Policy c) * Millisecond
    ∧ pool_Controller s' = c <| NextEligible ::= fun t => t + d |>.
Proof.
  intros Hj. cbn zeta. set (c := pool_Controller s) in *.
  pose proof (NextEligible_add_0 c) as Ed.
  unfold padRecoveryFloor. fold c.
  destruct (negb (Cooling c) || _); [exists 0; split; [unfold Millisecond; lia|exact Ed]|].
  destruct (match RecoveryPadding s with Some _ => _ | None => _ end); [exists 0; split; [unfold Millisecond; lia|exact Ed]|].
  destruct (negb (After _ _)); [exists 0; split; [unfold Millisecond; lia|exact Ed]|].
  destruct (_ || _ || _) eqn:E; [exists 0; split; [unfold Millisecond; lia|exact Ed]|]. bool_to_prop.
  eexists. split; [|reflexivity].
  pose proof (Z.mod_pos_bound (sha256_u64 (jitter_seed (s <| RecoveryPadding := None |>) (NextEligible c)))
    (RecoveryJitterMS (ctl_Policy c) + 1) ltac:(lia)). unfold Millisecond. lia.
Qed.

(** A concrete environment: identifiers are their identity strings. *)
Definition DemoPoolEnv : PoolEnv := {|
  uuid_sha1 s := "u" +:+ s;
  uuid_parse s := Some s;
  sha256_u64 s := slen s;
  rfc3339nano t := pretty t;
|}.

(** A cooling pool whose recovery is due in an hour. *)
Definition cooling_pool : PoolState :=
  (NewPoolState "pool" 2 (DefaultPolicy <| RecoveryJitterMS := 500 |>))
    <| pool_Controller ::= fun c => c <| Cooling := true |> <| NextEligible := Hour |> |>.

Lemma padRecoveryFloor_bounded_witness :
  ∃ d, 0 ≤ d ≤ 500 * Millisecond
    ∧ pool_Controller (@padRecoveryFloor DemoPoolEnv cooling_pool Second)
      = (pool_Controller cooling_pool) <| NextEligible ::= fun t => t + d |>.
Proof. apply (@padRecoveryFloor_bounded DemoPoolEnv cooling_pool Second). split; vm_compute; discriminate. Defined.

(** A generation's time budget: a new submission resolves to a positive
    budget of at most fifteen minutes that the snapshot reads back exactly, zero
    meaning the five-minute default, and no generation runs past its job's
    deadline. *)
Theorem generation_budget_resolved ms v now jobDeadline :
  resolveNewGenerationBudget ms = Ok v →
  v = (if ms =? 0 then 300000 else ms) ∧ generationBudget v = v * Millisecond
  ∧ 0 < generationBudget v ≤ MaximumGenerationBudget
  ∧ generationDeadline now v jobDeadline ≤ jobDeadline
  ∧ generationDeadline now v jobDeadline ≤ now + v * Millisecond.
Proof.
  unfold resolveNewGenerationBudget. change (Milliseconds MaximumGenerationBudget) with 900000.
  destruct (_ || _) eqn:E; [done|]. bool_to_prop. intros Hv.
  assert (v = (if ms =? 0 then 300000 else ms)) as Ev by (destruct (ms =? 0); by injection Hv as <-).
  assert (1 ≤ v ≤ 900000) as Hr by (rewrite Ev; destruct (Z.eqb_spec ms 0); lia).
  assert (generationBudget v = v * Millisecond) as Eb.
  { unfold generationBudget. change (Milliseconds MaximumGenerationBudget) with 900000.
    rewrite (proj2 (Z.eqb_neq v 0)), (proj2 (Z.ltb_ge v 1)), (proj2 (Z.ltb_ge 900000 v)) by lia. cbn [orb].
    apply wrap64_id. unfold in_int64, int64_min, int64_max, Millisecond. lia. }
  unfold generationDeadline, Before, Add, MaximumGenerationBudget. rewrite Eb. unfold Millisecond, Second.
  split; [done|]. split; [done|]. split; [lia|]. destruct (Z.ltb_spec jobDeadline (now + v * 1000000)); lia.
Qed.

Lemma generation_budget_resolved_witness :
  resolveNewGenerationBudget 0 = Ok 300000 ∧ generationBudget 300000 = 300000 * Millisecond.
Proof.
  split; [reflexivity|]. apply (generation_budget_resolved 0 300000 0 0). reflexivity.
Defined.
