(* ===== verification/PoolWorkflow.v ===== *)
(** * PoolWorkflow: the loop that drives a pool

    Models [PoolWorkflow] of [src/stateful/batch/pool_workflow.go].  The workflow
    suspends only in its selector, so one turn of its loop is a function: the
    signals and the completed activities it finds are its input, and the next
    loop state, the activities it schedules and the timer it sets are its
    output.  A pending activity is the request it was scheduled with. *)
From S2P Require Import Prelude BatchController BatchPool.

Open Scope string_scope.
Open Scope list_scope.
Open Scope Z_scope.

Record PoolPublication := MkPublication {
  pb_PoolID : string;
  pb_Generation : Z;
  pb_Reason : string;
  pb_Next : option Time;
  pb_After : Z;
  pb_Limit : Z;
}.
Record PublicationPage := MkPage { pg_After : Z; pg_More : bool; pg_Updated : Z }.

Record PoolRead := MkRead { rd_PoolID : string; rd_Generation : Z; rd_IDs : list string }.

Record QueueSelection := MkSelection {
  qs_PoolID : string;
  qs_Generation : Z;
  qs_AfterScope : string;
  qs_Limit : Z;
  qs_Exclude : list Ref;
  qs_ExcludeRequests : list string;
}.
Record ReadyPage := MkReadyPage { rp_Items : list ReadyItem; rp_AfterScope : string }.

(** The variables of the workflow; a future is [None] or its pending request. *)
Record PoolLoop := MkLoop {
  pw_state : PoolState;
  pw_starters : list (list Reservation);
  pw_reads : list PoolRead;
  pw_selection : option QueueSelection;
  pw_readiness : bool;
  pw_publication : option PoolPublication;
  pw_retirement : option (list string);
  pw_nextRetirement : Time;
  pw_ready : list ReadyItem;
  pw_nextRead : Time;
  pw_nextQueue : Time;
  pw_nextStart : Time;
  pw_forceContinue : bool;
  pw_urgentRead : bool;
  pw_readFailed : bool;
}.

(** The buffered signals a [drain] receives, in order; a policy as it was sent. *)
Record Signals := MkSignals {
  sg_wakes : Z;
  sg_notices : Z;
  sg_resumes : list bool;
  sg_policies : list Policy;
  sg_continuations : list bool;
  sg_quiesces : list bool;
}.
Definition noSignals : Signals := MkSignals 0 0 [] [] [] [].

(** A completed activity, [None] while it is not ready; the error is not read. *)
Definition Completed (A : Type) : Type := option (res unit A).

Record TurnInput := MkTurn {
  in_now : Time;
  in_signals : Signals;
  in_continueSuggested : bool;
  in_reads : list (Completed (list Attempt));
  in_starters : list (Completed (list AttemptStartResult));
  in_selection : Completed ReadyPage;
  in_readiness : Completed unit;
  in_publication : Completed PublicationPage;
  in_retirement : Completed unit;
  in_lastSignals : Signals;
}.

Inductive Command : Type :=
| CmdRetire (read : PoolRead)
| CmdPublish (p : PoolPublication)
| CmdRead (read : PoolRead)
| CmdProviderReady
| CmdSelect (q : QueueSelection)
| CmdStart (reservations : list Reservation).

Inductive TurnResult : Type :=
| TurnWait (loop : PoolLoop) (commands : list Command) (delay : Duration)
| TurnContinueAsNew (state : PoolState)
| TurnFailed.

Section Workflow.
Context `{PoolEnv}.
Variable marshal_len : PoolState → Z.
Variable publishStatus : bool.

(** ** Signals *)

Definition on_resume (s : PoolState) (now : Time) : PoolState :=
  let s := s <| pool_Controller ::= fun c => c <| Paused := false |> |> in
  if negb (Probing (pool_Controller s)) then
    let previousEligible := NextEligible (pool_Controller s) in
    let s := s <| pool_Controller ::= fun c =>
                    c <| Cooling := true |> <| NextEligible := maxTime (NextEligible c) now |> |>
               <| Episode ::= fun n => n + 1 |> <| ProbeID := "" |> in
    padRecoveryFloor s previousEligible
  else s.

Definition on_policy (s : PoolState) (p : Policy) : PoolState :=
  match Configure (pool_Controller s) p with
  | Ok c => s <| pool_Controller := c |> <| PolicyRevision ::= fun n => n + 1 |>
  | Err _ => s
  end.

(** A policy decoded into a variable: [RecoveryJitterMS] is the member that the text of
    a policy leaves out when it is zero, and a member that is not there keeps its value. *)
Definition decode_policy (variable sent : Policy) : Policy :=
  if RecoveryJitterMS sent =? 0 then sent <| RecoveryJitterMS := RecoveryJitterMS variable |> else sent.
Definition zeroPolicy : Policy := MkPolicy 0 0 0 0 0 0 0 0.
(** [var policy Policy; for policies.ReceiveAsync(&policy)]: one variable for all. *)
Fixpoint decoded_policies (variable : Policy) (sent : list Policy) : list Policy :=
  match sent with
  | [] => []
  | p :: sent => decode_policy variable p :: decoded_policies (decode_policy variable p) sent
  end.

Definition drain (w : PoolLoop) (now : Time) (sg : Signals) : PoolLoop :=
  let w := if 0 <? sg_wakes sg then w <| pw_nextQueue := now |> else w in
  let w := if 0 <? sg_notices sg then w <| pw_urgentRead := true |> else w in
  let w := w <| pw_state ::= fun s => foldl (fun s (b : bool) => if b then on_resume s now else s) s (sg_resumes sg) |> in
  let w := w <| pw_state ::= fun s => foldl on_policy s (decoded_policies zeroPolicy (sg_policies sg)) |> in
  let w := w <| pw_forceContinue ::= fun f => foldl orb f (sg_continuations sg) |> in
  w <| pw_state ::= fun s =>
         foldl (fun s (b : bool) => if b then s <| Quiescing := true |> else s) s (sg_quiesces sg) |>.

(** ** Completed activities *)

Definition observe_all (w : PoolLoop) (now : Time) (attempts : list Attempt) : PoolLoop :=
  foldl (fun w a => let '(s, changed) := Observe (pw_state w) now a in
                    let w := w <| pw_state := s |> in
                    if changed then w <| pw_nextQueue := now |> else w) w attempts.

(** One pending read: kept, failed or observed. *)
Definition on_read (now : Time) (acc : PoolLoop * list PoolRead) (pending : PoolRead * Completed (list Attempt))
  : PoolLoop * list PoolRead :=
  let '(w, kept) := acc in
  match pending.2 with
  | None => (w, kept ++ [pending.1])
  | Some (Err _) => (w <| pw_state ::= fun s => s <| PersistenceWait := true |> |> <| pw_readFailed := true |>, kept)
  | Some (Ok attempts) => (observe_all w now attempts, kept)
  end.

(** Each pending activity with what the turn finds of it. *)
Fixpoint paired {A B : Type} (pending : list A) (found : list (Completed B)) : list (A * Completed B) :=
  match pending with
  | [] => []
  | p :: rest => (p, default None (head found)) :: paired rest (tail found)
  end.

Definition on_reads (w : PoolLoop) (now : Time) (found : list (Completed (list Attempt))) : PoolLoop :=
  let hadReads := 0 <? llen (pw_reads w) in
  let '(w, kept) := foldl (on_read now) (w, []) (paired (pw_reads w) found) in
  let w := w <| pw_reads := kept |> in
  if hadReads && (llen kept =? 0) then
    let w := if negb (pw_readFailed w) then w <| pw_state ::= fun s => s <| PersistenceWait := false |> |> else w in
    w <| pw_readFailed := false |>
  else w.

Definition on_starter (now : Time) (acc : PoolLoop * list (list Reservation))
    (pending : list Reservation * Completed (list AttemptStartResult)) : PoolLoop * list (list Reservation) :=
  let '(w, kept) := acc in
  match pending.2 with
  | None => (w, kept ++ [pending.1])
  | Some (Err _) => (w <| pw_nextStart := Add now (2 * Second) |>, kept)
  | Some (Ok results) =>
      let w := w <| pw_state ::= fun s => AcknowledgeStarts s results |> in
      (if existsb (fun r => negb (sr_Started r)) results then w <| pw_nextStart := Add now (2 * Second) |> else w, kept)
  end.

Definition on_starters (w : PoolLoop) (now : Time) (found : list (Completed (list AttemptStartResult))) : PoolLoop :=
  let '(w, kept) := foldl (on_starter now) (w, []) (paired (pw_starters w) found) in
  w <| pw_starters := kept |>.

Definition on_selection (w : PoolLoop) (now : Time) (found : Completed ReadyPage) : PoolLoop :=
  match pw_selection w, found with
  | Some _, Some result =>
      let w :=
        match result with
        | Err _ => w <| pw_state ::= fun s => s <| PersistenceWait := true |> |> <| pw_nextQueue := Add now (2 * Second) |>
        | Ok page =>
            if 128 <? llen (rp_Items page) then w <| pw_state ::= fun s => s <| PersistenceWait := true |> |>
            else
              let w := w <| pw_ready := rp_Items page |> <| pw_state ::= fun s => s <| AfterScope := rp_AfterScope page |> |> in
              if llen (rp_Items page) =? 0 then w <| pw_nextQueue := Add now (5 * Second) |> else w
        end in
      w <| pw_selection := None |>
  | _, _ => w
  end.

Definition on_readiness (w : PoolLoop) (now : Time) (found : Completed unit) : PoolLoop :=
  match pw_readiness w, found with
  | true, Some result =>
      let w := w <| pw_state ::= fun s =>
        match result with
        | Ok _ => s <| DispatchNeedsReady := false |> <| DispatchBlockedUntil := time_zero |>
        | Err _ => s <| DispatchBlockedUntil := Add now (DispatchBackoff s) |>
                     <| DispatchBackoff := Z.min (30 * Second) (wrap64 (DispatchBackoff s * 2)) |>
        end |> in
      w <| pw_readiness := false |>
  | _, _ => w
  end.

Definition publication_done (s : PoolState) (now : Time) (request : PoolPublication) (result : res unit PublicationPage)
  : PoolState :=
  match result with
  | Err _ => s <| PublicationAt := now |> <| PublicationAfter := 0 |> <| PublicationReason := pb_Reason request |>
               <| PublicationNext := pb_Next request |>
  | Ok page =>
      let '(reason, next) := Waiting s now in
      let s := s <| PublicationReason := pb_Reason request |> <| PublicationNext := pb_Next request |> in
      if (negb (String.eqb reason (pb_Reason request)) || negb (sameOptionalTime next (pb_Next request)))
         && negb (coalesciblePublication s reason next)
      then s <| PublicationAfter := 0 |> <| PublicationAt := time_zero |>
      else if pg_More page then s <| PublicationAfter := pg_After page |> <| PublicationAt := time_zero |>
      else s <| PublicationAfter := 0 |> <| PublicationAt := now |>
  end.

Definition on_publication (w : PoolLoop) (now : Time) (found : Completed PublicationPage) : PoolLoop :=
  match pw_publication w, found with
  | Some request, Some result =>
      w <| pw_state ::= fun s => publication_done s now request result |> <| pw_publication := None |>
  | _, _ => w
  end.

(** [state.RequestRetirements[len(retirementIDs):]]; new settlements are kept. *)
Definition on_retirement (w : PoolLoop) (now : Time) (found : Completed unit) : PoolLoop :=
  match pw_retirement w, found with
  | Some ids, Some result =>
      let w := match result with
               | Ok _ => w <| pw_state ::= fun s => s <| RequestRetirements ::= drop (length ids) |> |>
               | Err _ => w <| pw_nextRetirement := Add now (2 * Second) |>
               end in
      w <| pw_retirement := None |>
  | _, _ => w
  end.

(** ** Scheduling *)

(** A step of the turn: the loop and the commands scheduled so far. *)
Definition schedule_retirement (w : PoolLoop) (now : Time) : PoolLoop * list Command :=
  let s := pw_state w in
  match pw_retirement w with
  | None =>
      if (0 <? llen (RequestRetirements s)) && negb (Before now (pw_nextRetirement w)) then
        let ids := take 128 (RequestRetirements s) in
        (w <| pw_retirement := Some ids |>, [CmdRetire (MkRead (PoolID s) (Generation s) ids)])
      else (w, [])
  | Some _ => (w, [])
  end.

Definition schedule_publication (w : PoolLoop) (now : Time) : PoolLoop * list Command :=
  let s := pw_state w in
  match pw_publication w with
  | None =>
      if publishStatus then
        let '(reason, next) := Waiting s now in
        let changed := negb (String.eqb reason (PublicationReason s)) || negb (sameOptionalTime next (PublicationNext s)) in
        if publicationDue s now reason next then
          let s := if changed && negb (coalesciblePublication s reason next) then s <| PublicationAfter := 0 |> else s in
          let request := MkPublication (PoolID s) (Generation s) reason next (PublicationAfter s) 128 in
          (w <| pw_state := s |> <| pw_publication := Some request |>, [CmdPublish request])
        else (w, [])
      else (w, [])
  | Some _ => (w, [])
  end.

(** The identifiers in pages of 128. *)
Fixpoint pages (fuel : nat) (ids : list string) : list (list string) :=
  match fuel, ids with
  | S fuel, _ :: _ => take 128 ids :: pages fuel (drop 128 ids)
  | _, _ => []
  end.

Definition schedule_reads (w : PoolLoop) (now : Time) : PoolLoop * list Command :=
  let s := pw_state w in
  let '(w, commands) :=
    if (llen (pw_reads w) =? 0) && (0 <? llen (Outstanding s)) && (pw_urgentRead w || negb (Before now (pw_nextRead w))) then
      let ids := map pp_ID (Outstanding s) in
      let reads := map (MkRead (PoolID s) (Generation s)) (pages (length ids) ids) in
      (w <| pw_reads := reads |> <| pw_nextRead := Add now (5 * Second) |> <| pw_urgentRead := false |>
         <| pw_readFailed := false |>, map CmdRead reads)
    else (w, []) in
  if (llen (pw_reads w) =? 0) && (llen (Outstanding s) =? 0) && PersistenceWait s && negb (Before now (pw_nextRead w)) then
    let read := MkRead (PoolID s) (Generation s) [] in
    (w <| pw_reads := pw_reads w ++ [read] |> <| pw_nextRead := Add now (5 * Second) |>, commands ++ [CmdRead read])
  else (w, commands).

Definition schedule_readiness (w : PoolLoop) (now : Time) : PoolLoop * list Command :=
  let s := pw_state w in
  if DispatchNeedsReady s && negb (pw_readiness w) && negb (Before now (DispatchBlockedUntil s))
     && negb (Paused (pool_Controller s))
  then (w <| pw_readiness := true |>, [CmdProviderReady])
  else (w, []).

(** [for len(ready) > 0 && state.CanGrant(now)]: the state, the items left and
    whether a grant was refused. *)
Fixpoint grant_all (s : PoolState) (now : Time) (ready : list ReadyItem) : PoolState * list ReadyItem * bool :=
  match ready with
  | [] => (s, [], false)
  | candidate :: rest =>
      let '(s, can) := CanGrant s now in
      if can then
        let '(s, granted) := Grant s now candidate in
        let '(s, remaining, refused) := grant_all s now rest in
        (s, remaining, refused || negb (is_ok granted))
      else (s, candidate :: rest, false)
  end.

Definition schedule_grants (w : PoolLoop) (now : Time) : PoolLoop :=
  let '(s, remaining, refused) := grant_all (pw_state w) now (pw_ready w) in
  let w := w <| pw_state := s |> <| pw_ready := remaining |> in
  if refused then w <| pw_nextQueue := now |> else w.

Definition schedule_selection (w : PoolLoop) (now : Time) : PoolLoop * list Command :=
  match pw_selection w, pw_ready w with
  | None, [] =>
      let '(s, can) := CanGrant (pw_state w) now in
      let w := w <| pw_state := s |> in
      if can && negb (Before now (pw_nextQueue w)) then
        let q := MkSelection (PoolID s) (Generation s) (AfterScope s) 64 (ReadyExclusions s) (ReadyRequestExclusions s) in
        (w <| pw_selection := Some q |>, [CmdSelect q])
      else (w, [])
  | _, _ => (w, [])
  end.

(** The loop over the start intents: batches of 16, at most four in flight. *)
Fixpoint start_batches (running : list string) (starters : list (list Reservation)) (batch : list Reservation)
    (intents : list Reservation) : list (list Reservation) * list Reservation :=
  match intents with
  | [] => (starters, batch)
  | r :: rest =>
      if str_in (rs_PermitID r) running then start_batches running starters batch rest
      else
        let batch := batch ++ [r] in
        if llen batch =? 16 then
          if llen starters =? 4 then (starters, batch)
          else start_batches running (starters ++ [batch]) [] rest
        else start_batches running starters batch rest
  end.

Definition schedule_starts (w : PoolLoop) (now : Time) : PoolLoop * list Command :=
  if negb (Before now (pw_nextStart w)) then
    let running := map rs_PermitID (concat (pw_starters w)) in
    let '(starters, batch) := start_batches running (pw_starters w) [] (StartIntents (pw_state w)) in
    let starters := if (0 <? llen batch) && (llen starters <? 4) then starters ++ [batch] else starters in
    (w <| pw_starters := starters |>, map CmdStart (drop (length (pw_starters w)) starters))
  else (w, []).

(** The timer of the selector. *)
Definition turn_delay (w : PoolLoop) (now : Time) : Duration :=
  let s := pw_state w in
  let c := pool_Controller s in
  let delay := 5 * Second in
  let delay :=
    if negb (pw_forceContinue w) && negb (Quiescing s) && negb (Paused c) && negb (DispatchNeedsReady s)
       && negb (PersistenceWait s) && negb (unresolved s) && (llen (Outstanding s) <? Concurrency (ctl_Policy c))
       && (llen (StartIntents s) <? maximumStartIntents) && negb (Probing c)
    then
      let eligible := NextAdmission c now in
      if negb (IsZero eligible) && After eligible now then Z.min delay (Sub eligible now) else delay
    else delay in
  if negb (pw_forceContinue w) && (0 <? llen (StartIntents s)) && (llen (pw_starters w) <? 4) && After (pw_nextStart w) now
  then Z.min delay (Sub (pw_nextStart w) now) else delay.

Definition idle (w : PoolLoop) : bool :=
  (llen (pw_starters w) =? 0) && (llen (pw_reads w) =? 0) && negb (bool_decide (is_Some (pw_selection w)))
  && negb (pw_readiness w) && negb (bool_decide (is_Some (pw_publication w)))
  && negb (bool_decide (is_Some (pw_retirement w))).

(** ** One turn of the loop *)

(** The first half: signals and completed activities. *)
Definition turn_collect (w : PoolLoop) (i : TurnInput) : PoolLoop :=
  let now := in_now i in
  let w := drain w now (in_signals i) in
  let w := w <| pw_forceContinue ::= fun f => f || in_continueSuggested i |> in
  let w := on_reads w now (in_reads i) in
  let w := on_starters w now (in_starters i) in
  let w := on_selection w now (in_selection i) in
  let w := on_readiness w now (in_readiness i) in
  let w := on_publication w now (in_publication i) in
  on_retirement w now (in_retirement i).

(** The second half, unless a continue-as-new is pending: new activities. *)
Definition turn_schedule (w : PoolLoop) (now : Time) : PoolLoop * list Command :=
  let '(w, c1) := schedule_retirement w now in
  let '(w, c2) := schedule_publication w now in
  let '(w, c3) := schedule_reads w now in
  let '(w, c4) := schedule_readiness w now in
  let w := schedule_grants w now in
  let '(w, c5) := schedule_selection w now in
  let '(w, c6) := schedule_starts w now in
  (w, c1 ++ c2 ++ c3 ++ c4 ++ c5 ++ c6).

Definition continue_as_new (s : PoolState) : TurnResult :=
  if snapshot_accepts marshal_len s then TurnContinueAsNew s else TurnFailed.

Definition pool_turn (w : PoolLoop) (i : TurnInput) : TurnResult :=
  let now := in_now i in
  let w := turn_collect w i in
  if pw_forceContinue w && idle w then continue_as_new (pw_state (drain w now (in_lastSignals i)))
  else
    let '(w, commands) := if pw_forceContinue w then (w, []) else turn_schedule w now in
    TurnWait w commands (turn_delay w now).

(** ** Starting the workflow *)

(** The recorded versions of a history, which upgrade a carried state. *)
Record Versions := MkVersions {
  v_coalesced : bool;
  v_claims : Z;
  v_publication : bool;
  v_jitter : bool;
}.

Definition upgrade (v : Versions) (s : PoolState) : PoolState :=
  let s := if v_coalesced v then s <| CoalesceDispatchFailures := true |> else s in
  let s := if v_claims v =? 1 then s <| PendingClaimLimit := 16 |>
           else if v_claims v =? 2 then s <| PendingClaimLimit := 32 |> else s in
  let s := if v_publication v then s <| CoalesceTransientPublication := true |> else s in
  if v_jitter v then s <| RecoveryJitterVersion := 1 |> else s.

Definition pool_start (v : Versions) (s : PoolState) (now : Time) : option PoolLoop :=
  if negb (is_ok (policy_Validate (ctl_Policy (pool_Controller s)))) then None
  else if negb (snapshot_accepts marshal_len s) then None
  else Some {| pw_state := upgrade v s; pw_starters := []; pw_reads := []; pw_selection := None; pw_readiness := false;
               pw_publication := None; pw_retirement := None; pw_nextRetirement := time_zero; pw_ready := [];
               pw_nextRead := now; pw_nextQueue := now; pw_nextStart := now; pw_forceContinue := false;
               pw_urgentRead := false; pw_readFailed := false |}.

(** A turn of the loop that waits for [InitializePool]. *)
Definition init_turn (w : PoolLoop) (now : Time) (sg : Signals) (suggested initialized : bool) : PoolLoop + TurnResult :=
  let w := drain w now sg in
  if pw_forceContinue w || suggested then inr (continue_as_new (pw_state w))
  else inl (w <| pw_state ::= fun s => s <| PersistenceWait := negb initialized |> |>).
End Workflow.
