(* ===== verification/PoolInvariant.v ===== *)
(** * PoolInvariant: what every reachable pool state keeps

    The pool of BatchPool.v as a state machine: the operations its workflow
    performs, in any order and interleaved with the observations the claim
    ledger returns, on a clock that does not go back.  The invariant of the
    reachable states, and the properties that follow from it. *)
From stdpp Require Import relations pretty.
From S2P Require Import Prelude BatchController BatchPool PoolWorkflow.

Open Scope string_scope.
Open Scope list_scope.
Open Scope Z_scope.

(** ** Permit identifiers are fresh *)

Fixpoint nul_free (s : string) : Prop :=
  match s with
  | EmptyString => True
  | String a r => a ≠ Ascii.ascii_of_nat 0 ∧ nul_free r
  end.

Lemma nul_free_app s t : nul_free (s +:+ t) ↔ nul_free s ∧ nul_free t.
Proof. induction s as [|a s IH]; cbn; naive_solver. Qed.

Lemma nul_split s s' t t' : nul_free s → nul_free s' → s +:+ NUL +:+ t = s' +:+ NUL +:+ t' → s = s' ∧ t = t'.
Proof.
  revert s'. induction s as [|a s IH]; intros [|a' s'] Hs Hs' E; cbn in *.
  - injection E as E. done.
  - injection E as E _. naive_solver.
  - injection E as E _. naive_solver.
  - injection E as -> E. destruct (IH s') as [-> ->]; naive_solver.
Qed.

Lemma pretty_N_go_nul_free x s : nul_free s → nul_free (pretty_N_go x s).
Proof.
  revert s. induction (N.lt_wf_0 x) as [x _ IH]; intros s Hs.
  assert (x = 0 ∨ 0 < x)%N as [->|Hx] by lia; [by rewrite pretty_N_go_0|].
  rewrite pretty_N_go_step by done. apply IH; [by apply N.div_lt|].
  split; [|done]. unfold pretty_N_char. by repeat case_match.
Qed.

Lemma pretty_Z_nul_free (z : Z) : nul_free (pretty z).
Proof.
  assert (∀ n : N, nul_free (pretty n)) as HN.
  { intros n. unfold pretty, pretty_N. case_decide; [done|]. by apply pretty_N_go_nul_free. }
  destruct z as [|p|p]; [done|apply (HN (Npos p))|].
  change (nul_free ("-" +:+ pretty (Npos p))). apply nul_free_app. split; [done|apply HN].
Qed.

(** The laws of the hash functions the pool relies on: distinct identities have
    distinct identifiers, none of them empty. *)
Class PoolLaws `{PoolEnv} := {
  uuid_inj : ∀ a b, uuid_sha1 a = uuid_sha1 b → a = b;
  uuid_nonempty : ∀ a, uuid_sha1 a ≠ "";
}.

Definition minted `{PoolEnv} (s : PoolState) (k : Z) (id : string) : Prop :=
  ∃ rest, id = uuid_sha1 (PoolID s +:+ NUL +:+ pretty (Generation s) +:+ NUL +:+ pretty k +:+ NUL +:+ rest).

Lemma append_inj_l a b c : a +:+ b = a +:+ c → b = c.
Proof. induction a as [|x a IH]; cbn; [done|]. intros E. injection E as E. auto. Qed.

Lemma append_assoc a b c : (a +:+ b) +:+ c = a +:+ (b +:+ c).
Proof. induction a as [|x a IH]; [done|]. exact (f_equal (String x) IH). Qed.

Lemma minted_inj `{PoolLaws} s s' k k' id :
  PoolID s' = PoolID s → Generation s' = Generation s → minted s k id → minted s' k' id → k = k'.
Proof.
  intros E1 E2 [r ->] [r' E]. apply uuid_inj in E. rewrite E1, E2 in E.
  apply append_inj_l in E. apply (append_inj_l NUL) in E. apply append_inj_l in E. apply (append_inj_l NUL) in E.
  apply nul_split in E as [E _]; [|apply pretty_Z_nul_free..]. by apply (inj pretty).
Qed.

Lemma grant_identity_minted `{PoolEnv} s k item : minted s k (uuid_sha1 (grant_identity s k item)).
Proof.
  unfold minted, grant_identity. case_match; eexists; f_equal; rewrite ?append_assoc; reflexivity.
Qed.

(** ** The padded deadline *)

Definition pad_ok (version : Z) (padding : option recoveryPadding) (cooling : bool) (eligible : Time) : Prop :=
  match padding with
  | None => True
  | Some p =>
      version = 1 ∧ 0 < pad_Floor p ∧ pad_Floor p ≤ pad_Until p ≤ pad_Floor p + Second
      ∧ cooling = true ∧ eligible = pad_Until p
  end.

Definition PadOK (s : PoolState) : Prop :=
  pad_ok (RecoveryJitterVersion s) (RecoveryPadding s) (Cooling (pool_Controller s)) (NextEligible (pool_Controller s)).

Lemma sat64_le z n : in_int64 n → z ≤ n → sat64 z ≤ n.
Proof. unfold in_int64, sat64, int64_min, int64_max. lia. Qed.

Lemma PadOK_valid s :
  ControllerOK (pool_Controller s) → 0 ≤ RecoveryJitterVersion s ≤ 1 → PadOK s → validRecoveryPadding s = true.
Proof.
  intros HC Hv HP. destruct (co_policy _ HC) as (_ & _ & _ & _ & _ & Hj & _). unfold validRecoveryPadding, PadOK, pad_ok in *.
  rewrite !(proj2 (Z.ltb_ge _ _)) by lia. cbn [orb].
  destruct (RecoveryPadding s) as [p|]; [|done]. destruct HP as (-> & Hf & Hr & -> & ->).
  unfold IsZero, Before, time_Equal. rewrite !Z.eqb_refl, (proj2 (Z.eqb_neq (pad_Floor p) time_zero)), (proj2 (Z.ltb_ge _ _)) by (unfold time_zero; lia).
  cbn. rewrite !andb_true_r. apply Z.leb_le, sat64_le; [vm_compute; split; discriminate|]. lia.
Qed.

(** Fields that padding, outcomes and signals leave alone. *)
Definition same_core (s s' : PoolState) : Prop :=
  PoolID s' = PoolID s ∧ Generation s' = Generation s ∧ Sequence s' = Sequence s ∧ Outstanding s' = Outstanding s
  ∧ StartIntents s' = StartIntents s ∧ RequestRetirements s' = RequestRetirements s
  ∧ PendingClaimLimit s' = PendingClaimLimit s ∧ RecoveryJitterVersion s' = RecoveryJitterVersion s
  ∧ ProbeClaimAt s' = ProbeClaimAt s.

(** The fields the lists of the invariant are about. *)
Definition same_lists (s s' : PoolState) : Prop :=
  PoolID s' = PoolID s ∧ Generation s' = Generation s ∧ Sequence s' = Sequence s ∧ Outstanding s' = Outstanding s
  ∧ StartIntents s' = StartIntents s ∧ RequestRetirements s' = RequestRetirements s.

Lemma same_core_lists s s' : same_core s s' → same_lists s s' ∧ PendingClaimLimit s' = PendingClaimLimit s.
Proof. intros (? & ? & ? & ? & ? & ? & ? & _). by repeat split. Qed.

(** A controller whose deadline alone may have moved, later. *)
Definition padded_by (c c' : Controller) (jitter : Z) : Prop :=
  ∃ d, 0 ≤ d ≤ Z.max 0 jitter * Millisecond ∧ c' = c <| NextEligible ::= fun t => t + d |>.

Section Padding.
Context `{PoolEnv}.

Lemma padded_refl c j : padded_by c c j.
Proof.
  exists 0. split; [unfold Millisecond; lia|]. destruct c. unfold upd. cbn. by rewrite Z.add_0_r.
Qed.

Lemma padRecoveryFloor_spec s previous :
  0 ≤ RecoveryJitterMS (ctl_Policy (pool_Controller s)) ≤ 1000 → 0 ≤ NextEligible (pool_Controller s) →
  (∀ p, RecoveryPadding s = Some p → RecoveryJitterVersion s = 1 ∧ 0 < pad_Floor p
     ∧ pad_Floor p ≤ pad_Until p ≤ pad_Floor p + Second ∧ pad_Until p = previous
     ∧ (Cooling (pool_Controller s) = true → previous ≤ NextEligible (pool_Controller s))) →
  let s' := padRecoveryFloor s previous in
  PadOK s' ∧ same_core s s' ∧ ProbeID s' = ProbeID s
  ∧ padded_by (pool_Controller s) (pool_Controller s') (RecoveryJitterMS (ctl_Policy (pool_Controller s))).
Proof.
  intros Hj Hel Hp. cbn zeta. unfold padRecoveryFloor, PadOK, pad_ok, same_core.
  set (c := pool_Controller s) in *.
  destruct (Cooling c) eqn:Ec; cbn [negb orb]; [|repeat split; apply padded_refl].
  destruct (IsZero (NextEligible c)) eqn:Ez; [repeat split; apply padded_refl|].
  destruct (match RecoveryPadding s with Some p => time_Equal (NextEligible c) (pad_Until p) | None => false end) eqn:Eq.
  - destruct (RecoveryPadding s) as [p|]; [|done]. apply Z.eqb_eq in Eq. destruct (Hp p eq_refl) as (? & ? & ? & _).
    fold c. rewrite Ec. repeat split; try done; try lia. apply padded_refl.
  - destruct (After (NextEligible c) previous) eqn:Ea; cbn [negb].
    + destruct (_ || _ || _) eqn:Ej; [repeat split; apply padded_refl|]. bool_to_prop.
      pose proof (Z.mod_pos_bound (sha256_u64 (jitter_seed (s <| RecoveryPadding := None |>) (NextEligible c)))
        (RecoveryJitterMS (ctl_Policy c) + 1) ltac:(lia)) as Hm.
      set (m := _ mod _) in Hm |- *.
      assert (0 ≤ m * Millisecond ≤ Second) as Hms by (unfold Millisecond, Second; lia).
      unfold IsZero, time_zero in Ez. bool_to_prop. unfold Add. cbn [RecoveryPadding pool_Controller upd pad_Floor pad_Until].
      split; [repeat split; try done; cbn; fold c; lia|]. split; [done|]. split; [done|].
      exists (m * Millisecond). split; [unfold Millisecond; lia|done].
    + unfold After in Ea. bool_to_prop. destruct (RecoveryPadding s) as [p|] eqn:Er;
        [|repeat split; try done; apply padded_refl].
      destruct (Hp p eq_refl) as (_ & _ & _ & Eu & Hle). specialize (Hle eq_refl).
      unfold time_Equal in Eq. bool_to_prop. lia.
Qed.
End Padding.

(** ** The admission part of the invariant *)

Record AdmOK (t : Time) (s : PoolState) : Prop := {
  ao_ctl : ControllerOK (pool_Controller s);
  ao_version : 0 ≤ RecoveryJitterVersion s ≤ 1;
  ao_pad : PadOK s;
  ao_probe : Probing (pool_Controller s) = true ↔ ProbeID s ≠ "";
  ao_epoch : Epoch (pool_Controller s) ≤ t;
  ao_claim : ProbeID s ≠ "" → ProbeClaimAt s ≠ time_zero → Epoch (pool_Controller s) ≤ ProbeClaimAt s ≤ t;
}.

Lemma AdmOK_later t t' s : AdmOK t s → t ≤ t' → AdmOK t' s.
Proof. intros [] Ht. constructor; try done; [lia|]. intros Hp Hc. specialize (ao_claim0 Hp Hc). lia. Qed.

(** The admission part sees the controller, the probe and the padding only. *)
Lemma AdmOK_fields t s s' :
  AdmOK t s → pool_Controller s' = pool_Controller s → ProbeID s' = ProbeID s → ProbeClaimAt s' = ProbeClaimAt s →
  RecoveryJitterVersion s' = RecoveryJitterVersion s → RecoveryPadding s' = RecoveryPadding s → AdmOK t s'.
Proof. intros [] E1 E2 E3 E4 E5. constructor; unfold PadOK in *; rewrite ?E1, ?E2, ?E3, ?E4, ?E5; done. Qed.

Lemma same_core_refl s : same_core s s.
Proof. done. Qed.

Lemma same_core_trans s1 s2 s3 : same_core s1 s2 → same_core s2 s3 → same_core s1 s3.
Proof.
  intros (? & ? & ? & ? & ? & ? & ? & ? & ?) (? & ? & ? & ? & ? & ? & ? & ? & ?). unfold same_core. repeat split; congruence.
Qed.

Lemma padded_ok c c' j : padded_by c c' j → ControllerOK c → ControllerOK c'.
Proof. intros (d & Hd & ->) []. constructor; try done. change (0 ≤ NextEligible c + d). lia. Qed.

Lemma ControllerOK_refund c : ControllerOK c → ControllerOK (refundStart c).
Proof. intros []. unfold refundStart. case_match; constructor; bool_to_prop; cbn; try done; lia. Qed.

(** Replacing the controller by one with the same cooldown and epoch. *)
Lemma AdmOK_controller t s c' :
  AdmOK t s → ControllerOK c' → Probing c' = Probing (pool_Controller s) → Cooling c' = Cooling (pool_Controller s) →
  NextEligible c' = NextEligible (pool_Controller s) → Epoch c' = Epoch (pool_Controller s) →
  AdmOK t (s <| pool_Controller := c' |>).
Proof.
  intros [HC Hv Hp Hpr He Hcl] HC' E1 E2 E3 E4. constructor; try done.
  - change (pad_ok (RecoveryJitterVersion s) (RecoveryPadding s) (Cooling c') (NextEligible c')). by rewrite E2, E3.
  - change (Probing c' = true ↔ ProbeID s ≠ ""). by rewrite E1.
  - change (Epoch c' ≤ t). by rewrite E4.
  - change (ProbeID s ≠ "" → ProbeClaimAt s ≠ time_zero → Epoch c' ≤ ProbeClaimAt s ≤ t). by rewrite E4.
Qed.

(** Ending the probe without touching the cooldown. *)
Lemma AdmOK_end_probe t s :
  AdmOK t s → AdmOK t (s <| pool_Controller ::= fun c => c <| Probing := false |> |> <| ProbeID := "" |>).
Proof. intros [[] Hv Hp Hpr He Hcl]. constructor; [by constructor|done|done|by split|done|by intros []]. Qed.

Section Outcome.
Context `{PoolEnv}.

Lemma refund_spec t s :
  AdmOK t s → AdmOK t (s <| pool_Controller ::= refundStart |>).
Proof.
  intros HA. apply (AdmOK_controller t s (refundStart (pool_Controller s)) HA);
    [apply ControllerOK_refund, HA|unfold refundStart; by case_match..].
Qed.

Lemma never_dispatched_spec t s now a probe currentWindow :
  AdmOK t s →
  let s' := apply_never_dispatched s now a probe currentWindow in
  same_core s s' ∧ AdmOK t s' ∧ ProbeID s' = (if probe then "" else ProbeID s).
Proof.
  intros HA. cbn zeta. unfold apply_never_dispatched.
  set (s1 := if currentWindow then s <| pool_Controller ::= refundStart |> else s).
  assert (same_core s s1 ∧ AdmOK t s1 ∧ ProbeID s1 = ProbeID s) as (K1 & A1 & P1)
    by (unfold s1; destruct currentWindow; (split; [done|split; [|done]]); [by apply refund_spec|done]).
  set (s2 := if probe then s1 <| pool_Controller ::= fun c => c <| Probing := false |> |> <| ProbeID := "" |> else s1).
  assert (same_core s s2 ∧ AdmOK t s2 ∧ ProbeID s2 = (if probe then "" else ProbeID s)) as (K2 & A2 & P2)
    by (unfold s2; destruct probe; (split; [exact K1|split; [|done]]); [by apply AdmOK_end_probe|done]).
  clearbody s2. assert (∀ s3, same_core s2 s3 → pool_Controller s3 = pool_Controller s2 → ProbeID s3 = ProbeID s2 →
    RecoveryPadding s3 = RecoveryPadding s2 →
    same_core s s3 ∧ AdmOK t s3 ∧ ProbeID s3 = (if probe then "" else ProbeID s)) as Hgo.
  { intros s3 HK Ec Ep Er. split; [by eapply same_core_trans|]. split; [|by rewrite Ep].
    destruct HK as (? & ? & ? & ? & ? & ? & ? & Ev & Ea). by apply (AdmOK_fields t s2). }
  repeat case_match; by apply Hgo.
Qed.

(** A completion handed to the controller, then the padded deadline. *)
Lemma completed_spec t s now dispatched reserved probe out :
  AdmOK t s → t ≤ now → Epoch (pool_Controller s) ≤ dispatched ≤ now →
  let c := pool_Controller s in
  let s1 := s <| pool_Controller ::= fun c => CompleteOutcome c now dispatched reserved probe out |> in
  let s2 := if negb (Cooling c) && Cooling (pool_Controller s1) then s1 <| Episode ::= fun n => n + 1 |> else s1 in
  let s3 := padRecoveryFloor s2 (NextEligible c) in
  same_core s s3 ∧ ControllerOK (pool_Controller s3) ∧ PadOK s3 ∧ ProbeID s3 = ProbeID s
  ∧ Probing (pool_Controller s3) = (if probe then false else Probing c)
  ∧ (Epoch (pool_Controller s3) = Epoch c ∨ (probe = true ∧ Epoch (pool_Controller s3) = dispatched)).
Proof.
  intros [HC Hv Hp Hpr He Hcl] Ht Hd. cbn zeta. unfold CompleteOutcome.
  set (kind := if String.eqb _ "restricted" then _ else _). set (delay := retryDelay _). clearbody kind delay.
  set (c := pool_Controller s) in *.
  set (s1 := s <| pool_Controller ::= _ |>).
  assert (pool_Controller s1 = Complete c now dispatched reserved probe kind delay) as Ec1 by done.
  destruct (Complete_settles c now dispatched reserved probe kind delay (co_probe _ HC) ltac:(lia)) as [(S1 & _ & _ & S4 & S5) S6].
  pose proof (Complete_ok c now dispatched reserved probe kind delay HC) as HC1. rewrite <- Ec1 in *.
  set (s2 := if negb (Cooling c) && Cooling (pool_Controller s1) then _ else _).
  assert (same_core s s2 ∧ pool_Controller s2 = pool_Controller s1 ∧ ProbeID s2 = ProbeID s
          ∧ RecoveryPadding s2 = RecoveryPadding s) as (K2 & Ec2 & Ep2 & Er2)
    by (unfold s2; destruct (negb (Cooling c) && _); repeat split).
  clearbody s2. rewrite <- Ec2 in *.
  destruct (co_policy _ HC1) as (_ & _ & _ & _ & _ & Hj & _).
  destruct (padRecoveryFloor_spec s2 (NextEligible c) Hj (co_eligible _ HC1)) as (P1 & P2 & P3 & P4).
  { intros p Ep. rewrite Er2 in Ep. unfold PadOK, pad_ok in Hp. rewrite Ep in Hp. destruct Hp as (V & F & R & Cc & N).
    destruct K2 as (_ & _ & _ & _ & _ & _ & _ & -> & _). repeat split; try done; try lia.
    intros Hcool. apply S4. by rewrite Hcool. }
  split; [by eapply same_core_trans|]. split; [by eapply padded_ok|]. split; [done|]. split; [by rewrite P3|].
  destruct P4 as (d & _ & ->). split; [exact S6|exact S5].
Qed.

Lemma applyOutcome_spec t s now a out :
  AdmOK t s → t ≤ now → rs_PermitID (a_Reservation a) ≠ "" →
  let r := a_Reservation a in
  let probe := rs_Probe r && String.eqb (rs_PermitID r) (ProbeID s) in
  let s' := applyOutcome s now a out in
  same_core s s' ∧ AdmOK now s' ∧ ProbeID s' = (if probe then "" else ProbeID s).
Proof.
  intros HA Ht Hid. cbn zeta. unfold applyOutcome.
  set (probe := rs_Probe _ && _). pose proof (AdmOK_later _ now _ HA Ht) as HAn.
  assert (probe = true → ProbeID s ≠ "") as Hprobe.
  { unfold probe. intros E. bool_to_prop. congruence. }
  clearbody probe.
  destruct (String.eqb (out_Kind out) "never_dispatched"); [by apply never_dispatched_spec|].
  destruct (String.eqb (out_Kind out) "completed" && negb probe && _) eqn:E1.
  { bool_to_prop. subst. done. }
  destruct (_ && negb (Cooling (pool_Controller s))) eqn:E2.
  { bool_to_prop. destruct probe.
    - apply (ao_probe _ _ HA), (co_probe _ (ao_ctl _ _ HA)) in Hprobe; [congruence|done].
    - case_match; [|done]. split; [done|]. split; [|done]. by apply refund_spec. }
  destruct (probe && String.eqb (out_Kind out) "completed" && _) eqn:E3.
  { bool_to_prop. subst. split; [done|]. split; [by apply AdmOK_end_probe|done]. }
  set (dispatched := if probe && negb (IsZero (ProbeClaimAt s)) then ProbeClaimAt s else Epoch (pool_Controller s)).
  assert (Epoch (pool_Controller s) ≤ dispatched ≤ now) as Hd.
  { unfold dispatched. pose proof (ao_epoch _ _ HAn). case_match; [|lia]. bool_to_prop.
    subst. apply (ao_claim _ _ HAn); [by apply Hprobe|]. unfold IsZero in *. by bool_to_prop. }
  destruct (completed_spec t s now dispatched
    (if rs_WindowID (a_Reservation a) =? WindowID s then WindowStart (pool_Controller s)
     else Add (WindowStart (pool_Controller s)) (- Nanosecond)) probe out HA Ht Hd) as (K & C & P & Q & R & S).
  set (s3 := padRecoveryFloor _ _) in *. clearbody s3. rewrite R.
  assert (0 ≤ RecoveryJitterVersion s3 ≤ 1) as Hv by (destruct K as (_ & _ & _ & _ & _ & _ & _ & -> & _); apply HA).
  pose proof (ao_epoch _ _ HAn). destruct probe; cbn [andb negb].
  - split; [done|]. split; [|done]. constructor; try done.
    + change (Probing (pool_Controller s3) = true ↔ "" ≠ ""). rewrite R. by split.
    + change (Epoch (pool_Controller s3) ≤ now). destruct S as [->|[_ ->]]; lia.
  - destruct S as [S|[? _]]; [|done]. split; [done|]. split; [|done]. constructor; try done.
    + rewrite R, Q. apply HA.
    + rewrite S. lia.
    + rewrite Q, S. destruct K as (_ & _ & _ & _ & _ & _ & _ & _ & ->). apply HAn.
Qed.
End Outcome.

(** ** The whole invariant *)

(** [granted] are the reservations the pool has made, [t] its clock. *)
Record PoolInv `{PoolEnv} (granted : list Reservation) (t : Time) (s : PoolState) : Prop := {
  pi_adm : AdmOK t s;
  pi_capacity : llen (Outstanding s) + llen (RequestRetirements s) ≤ 1000;
  pi_intents : llen (StartIntents s) ≤ 64;
  pi_limit : 0 ≤ PendingClaimLimit s ≤ 64;
  pi_sequence : 0 ≤ Sequence s;
  pi_permits : ∀ p, p ∈ Outstanding s → ∃ r, r ∈ granted ∧ rs_PermitID r = pp_ID p;
  pi_minted : ∀ r, r ∈ granted → ∃ k, 1 ≤ k ≤ Sequence s ∧ minted s k (rs_PermitID r);
  pi_unique : NoDup (map pp_ID (Outstanding s));
  pi_started : ∀ id, id ∈ map rs_PermitID (StartIntents s) → id ∈ map pp_ID (Outstanding s);
  pi_starts : NoDup (map rs_PermitID (StartIntents s));
  pi_live : ProbeID s ≠ "" → ∃ p, p ∈ Outstanding s ∧ pp_ID p = ProbeID s ∧ pp_Applied p = false;
  pi_flag : ∀ r, r ∈ granted → rs_PermitID r = ProbeID s → rs_Probe r = true;
}.

Lemma elem_of_map {A B : Type} (f : A → B) (l : list A) y : y ∈ map f l ↔ ∃ x, y = f x ∧ x ∈ l.
Proof. apply list_elem_of_fmap. Qed.

(** A step that keeps the lists and the minting, and may end the probe. *)
Lemma PoolInv_admission `{PoolEnv} granted t t' s s' :
  PoolInv granted t s → same_lists s s' → 0 ≤ PendingClaimLimit s' ≤ 64 → AdmOK t' s' →
  (ProbeID s' = ProbeID s ∨ ProbeID s' = "") →
  (∀ r, r ∈ granted → rs_PermitID r ≠ "") → PoolInv granted t' s'.
Proof.
  intros HI (E1 & E2 & E3 & E4 & E5 & E6) HL HA Hp Hid. destruct HI.
  constructor; rewrite ?E3, ?E4, ?E5, ?E6; try done.
  - intros r Hr. destruct (pi_minted0 r Hr) as (k & Hk & rest & Em). exists k. split; [done|]. exists rest.
    by rewrite E1, E2.
  - intros Hn. destruct Hp as [Ep|Ep]; rewrite Ep in *; [|done]. by apply pi_live0.
  - intros r Hr. destruct Hp as [Ep|Ep]; rewrite Ep; [by apply pi_flag0|]. intros E. by destruct (Hid r Hr).
Qed.

Lemma dropIntent_sublist id l : sublist (dropIntent_in id l) l.
Proof.
  induction l as [|r l IH]; [constructor|]. cbn. case_match; [by apply sublist_cons|by apply sublist_skip].
Qed.

Lemma dropIntent_gone id l : NoDup (map rs_PermitID l) → id ∉ map rs_PermitID (dropIntent_in id l).
Proof.
  induction l as [|r l IH]; cbn [dropIntent_in map]; [intros _; apply not_elem_of_nil|]. intros [Hn Hd]%NoDup_cons.
  destruct (String.eqb_spec (rs_PermitID r) id) as [<-|Hne]; [done|]. cbn [map]. rewrite elem_of_cons. naive_solver.
Qed.

(** Fewer start intents. *)
Lemma PoolInv_intents `{PoolEnv} granted t s l :
  PoolInv granted t s → sublist l (StartIntents s) → PoolInv granted t (s <| StartIntents := l |>).
Proof.
  intros HI Hl. destruct HI. constructor; try done.
  - by apply (AdmOK_fields t s).
  - change (llen l ≤ 64). pose proof (sublist_length _ _ Hl). unfold llen in *. lia.
  - intros id (r & -> & Hr)%elem_of_map. apply pi_started0, elem_of_map. exists r. split; [done|].
    by eapply elem_of_sublist.
  - change (NoDup (map rs_PermitID l)). eapply sublist_NoDup; [exact pi_starts0|]. by apply (fmap_sublist rs_PermitID).
Qed.

Lemma find_permit_spec id l i :
  find_permit id l = Some i → ∃ p, l !! i = Some p ∧ pp_ID p = id.
Proof.
  revert i. induction l as [|p l IH]; intros i; cbn [find_permit]; [done|].
  destruct (String.eqb_spec (pp_ID p) id) as [E|]; [intros [= <-]; eauto|].
  destruct (find_permit id l) as [j|]; cbn; [|done]. intros [= <-]. by apply IH.
Qed.

Lemma find_permit_none id l : id ∉ map pp_ID l → find_permit id l = None.
Proof.
  induction l as [|p l IH]; cbn [find_permit map]; [done|]. rewrite elem_of_cons. intros Hn.
  destruct (String.eqb_spec (pp_ID p) id) as [E|]; [naive_solver|]. by rewrite IH by naive_solver.
Qed.

(** Updating a slot without changing its identifier. *)
Lemma map_insert_same {A B : Type} (f : A → B) (l : list A) i x y :
  l !! i = Some x → f y = f x → map f (<[i := y]> l) = map f l.
Proof.
  intros Hi Hf. change (f <$> <[i := y]> l = f <$> l). rewrite list_fmap_insert, Hf.
  apply list_insert_id. by rewrite list_lookup_fmap, Hi.
Qed.

Lemma Start_facts c now :
  WindowRequests (ctl_Policy c) = 0 →
  let c' := Start c now in
  ctl_Policy c' = ctl_Policy c ∧ Cooling c' = Cooling c ∧ Probing c' = (if Cooling c then true else Probing c)
  ∧ NextEligible c' = NextEligible c ∧ Epoch c' = (if IsZero (Epoch c) then now else Epoch c)
  ∧ WindowStarts c' = WindowStarts c ∧ WindowStart c' = WindowStart c ∧ Paused c' = Paused c.
Proof.
  intros Hw. cbn zeta. unfold Start, start_window. rewrite Hw. cbn [Z.ltb Z.compare].
  destruct c. unfold upd. cbn in *. repeat (case_match; cbn in * ); repeat split; done || congruence.
Qed.

Lemma grant_start_facts c now :
  ControllerOK c →
  let c' := grant_start c now in
  ControllerOK c' ∧ ctl_Policy c' = ctl_Policy c ∧ Cooling c' = Cooling c
  ∧ Probing c' = (if Cooling c then true else Probing c) ∧ NextEligible c' = NextEligible c
  ∧ Epoch c' = (if IsZero (Epoch c) then now else Epoch c)
  ∧ WindowStarts c' = WindowStarts c + (if 0 <? WindowRequests (ctl_Policy c) then 1 else 0)
  ∧ WindowStart c' = WindowStart c ∧ Paused c' = Paused c.
Proof.
  intros HC. cbn zeta. unfold grant_start.
  set (c0 := c <| ctl_Policy ::= fun p => p <| WindowRequests := 0 |> |>).
  assert (ControllerOK c0) as HC0.
  { destruct HC as [(? & ? & ? & ? & ? & ? & ? & ?)]. by constructor. }
  destruct (Start_facts c0 now eq_refl) as (_ & S2 & S3 & S4 & S5 & S6 & S7 & S8).
  pose proof (Start_ok c0 now HC0) as HC1.
  assert (Rate (Start c0 now) = Rate c) as Hr.
  { unfold Start, start_window. cbn. repeat case_match; done. }
  set (c1 := Start c0 now) in *. clearbody c1.
  assert (ControllerOK (c1 <| ctl_Policy := ctl_Policy c |>)) as HC2.
  { destruct HC, HC1. constructor; try done. change (1 ≤ Rate c1 ≤ MaximumRate (ctl_Policy c)). by rewrite Hr. }
  destruct (0 <? WindowRequests (ctl_Policy c)).
  - split.
    { destruct HC2 as [H1 H2 H3 H4 H5 H6 Hs H7].
      constructor; [exact H1|exact H2|exact H3|exact H4|exact H5|exact H6| |exact H7].
      change (0 ≤ WindowStarts c1) in Hs. change (0 ≤ WindowStarts c1 + 1). lia. }
    repeat split; try done. change (WindowStarts c1 + 1 = WindowStarts c0 + 1). by rewrite S6.
  - split; [done|]. repeat split; try done. change (WindowStarts c1 = WindowStarts c0 + 0). by rewrite S6, Z.add_0_r.
Qed.

Section Operations.
Context `{PoolLaws}.

Lemma granted_nonempty granted t s r : PoolInv granted t s → r ∈ granted → rs_PermitID r ≠ "".
Proof. intros HI Hr. destruct (pi_minted _ _ _ HI r Hr) as (k & _ & rest & ->). apply uuid_nonempty. Qed.

Lemma PoolInv_later granted t t' s : PoolInv granted t s → t ≤ t' → PoolInv granted t' s.
Proof. intros [] Ht. constructor; try done. by apply (AdmOK_later t). Qed.

Lemma refreshWindow_spec granted t s now :
  PoolInv granted t s → PoolInv granted t (refreshWindow s now) ∧ same_core s (refreshWindow s now).
Proof.
  intros HI. unfold refreshWindow. case_match; [|done]. split; [|done].
  apply (PoolInv_admission granted t t s); try done; [apply HI| |by left|intros r; by eapply granted_nonempty].
  pose proof (pi_adm _ _ _ HI) as HA. set (c' := window_reset (pool_Controller s)).
  assert (ControllerOK c' ∧ Probing c' = Probing (pool_Controller s) ∧ Cooling c' = Cooling (pool_Controller s)
          ∧ NextEligible c' = NextEligible (pool_Controller s) ∧ Epoch c' = Epoch (pool_Controller s)) as (? & ? & ? & ? & ?).
  { unfold c', window_reset. destruct (ao_ctl _ _ HA) as [HP]. pose proof HP as (_ & ? & _).
    case_match; (split; [constructor; try done; cbn; lia|done]). }
  by apply (AdmOK_fields t (s <| pool_Controller := c' |>)); [apply AdmOK_controller|..].
Qed.

(** A fresh permit and its reservation, added to the lists. *)
Lemma PoolInv_granted granted t t' s s2 r id :
  PoolInv granted t s → id ∉ map pp_ID (Outstanding s) → (∀ g, g ∈ granted → rs_PermitID g ≠ id) →
  minted s (Sequence s + 1) id → rs_PermitID r = id →
  PoolID s2 = PoolID s → Generation s2 = Generation s → Sequence s2 = Sequence s + 1 →
  Outstanding s2 = Outstanding s → StartIntents s2 = StartIntents s → RequestRetirements s2 = RequestRetirements s →
  PendingClaimLimit s2 = PendingClaimLimit s → AdmOK t' s2 →
  llen (RequestRetirements s) + llen (Outstanding s) < 1000 → llen (StartIntents s) < 64 →
  ((ProbeID s2 = id ∧ rs_Probe r = true) ∨ ProbeID s2 = "") →
  PoolInv (granted ++ [r]) t'
    (s2 <| Outstanding ::= fun l => l ++ [MkPermit id 0 false false false] |> <| StartIntents ::= fun l => l ++ [r] |>).
Proof.
  intros HI Hnew Hfresh Hm Er F1 F2 F3 F4 F5 F6 F7 HA Hcap Hint Hp.
  set (s' := s2 <| Outstanding ::= _ |> <| StartIntents ::= _ |>).
  assert (Outstanding s' = Outstanding s ++ [MkPermit id 0 false false false]) as Eo by (rewrite <- F4; done).
  assert (StartIntents s' = StartIntents s ++ [r]) as Ei by (rewrite <- F5; done).
  assert (∀ k x, minted s' k x ↔ minted s k x) as Hmint.
  { intros k x. unfold minted. change (PoolID s') with (PoolID s2). change (Generation s') with (Generation s2).
    by rewrite F1, F2. }
  pose proof (uuid_nonempty) as Hne. assert (id ≠ "") as Hid by (destruct Hm as [rest ->]; apply Hne).
  destruct HI as [_ _ _ HL HS HP HM HU HSt HSn HLv HF].
  constructor; rewrite ?Eo, ?Ei, ?llen_app, ?map_app; try done.
  - by apply (AdmOK_fields t' s2).
  - change (RequestRetirements s') with (RequestRetirements s2). rewrite F6. change (llen [_]) with 1. lia.
  - change (llen [_]) with 1. lia.
  - change (PendingClaimLimit s') with (PendingClaimLimit s2). by rewrite F7.
  - change (Sequence s') with (Sequence s2). lia.
  - intros p [Hin| ->%list_elem_of_singleton]%elem_of_app.
    + destruct (HP p Hin) as (g & Hg & E). exists g. split; [|done]. apply elem_of_app. by left.
    + exists r. split; [|done]. apply elem_of_app. right. by apply list_elem_of_singleton.
  - change (Sequence s') with (Sequence s2). intros g [Hg| ->%list_elem_of_singleton]%elem_of_app.
    + destruct (HM g Hg) as (k & Hk & Hmk). exists k. split; [lia|]. by apply Hmint.
    + exists (Sequence s + 1). split; [lia|]. rewrite Er. by apply Hmint.
  - apply NoDup_app. split; [done|]. split; [|apply NoDup_singleton].
    intros x Hx [= ->]%list_elem_of_singleton. done.
  - intros x [Hx|Hx]%elem_of_app; apply elem_of_app; [left; auto|right]. cbn in *. by rewrite <- Er.
  - apply NoDup_app. split; [done|]. split; [|apply NoDup_singleton].
    intros x Hx Ex%list_elem_of_singleton. apply HSt in Hx. assert (x = id) as -> by exact (eq_trans Ex Er). done.
  - change (ProbeID s') with (ProbeID s2). intros Hn. destruct Hp as [[-> _]|Hp]; [|done].
    exists (MkPermit id 0 false false false). split; [|done]. apply elem_of_app. right. by apply list_elem_of_singleton.
  - change (ProbeID s') with (ProbeID s2). intros g Hg Eg. destruct Hp as [[Hp Hr]|Hp].
    + apply elem_of_app in Hg as [Hg| ->%list_elem_of_singleton]; [|done]. rewrite Hp in Eg. by destruct (Hfresh g Hg).
    + rewrite Hp in Eg. apply elem_of_app in Hg as [Hg| ->%list_elem_of_singleton].
      * destruct (HM g Hg) as (k & _ & rest & E). rewrite E in Eg. by destruct (Hne _ Eg).
      * by rewrite Er in Eg.
Qed.

(** A grant keeps the invariant and records its reservation. *)
Lemma Grant_spec granted t s now item s' r :
  PoolInv granted t s → t ≤ now → Grant s now item = (s', Ok r) → PoolInv (granted ++ [r]) now s'.
Proof.
  intros HI0 Ht. unfold Grant, CanGrant.
  destruct (refreshWindow_spec granted t s now HI0) as [HI _]. set (s1 := refreshWindow s now) in *. clearbody s1.
  destruct (grantable s1 now) eqn:Eg; [|done]. destruct (_ || _) eqn:Eguard; [done|]. clear Eguard.
  destruct (existsb _ (StartIntents s1)); [done|].
  set (id := uuid_sha1 _). set (r0 := grant_reservation _ now item id). intros E. injection E as <- <-.
  pose proof (grant_identity_minted (s1 <| Sequence ::= fun n => n + 1 |>) (Sequence s1 + 1) item) as Hm.
  change (minted s1 (Sequence s1 + 1) id) in Hm.
  assert (∀ g, g ∈ granted → rs_PermitID g ≠ id) as Hfresh.
  { intros g Hg Eg'. destruct (pi_minted _ _ _ HI g Hg) as (k & Hk & Hmk). rewrite Eg' in Hmk.
    pose proof (minted_inj s1 s1 k (Sequence s1 + 1) id eq_refl eq_refl Hmk Hm). lia. }
  assert (id ∉ map pp_ID (Outstanding s1)) as Hnew.
  { intros (p & E & Hp)%elem_of_map. destruct (pi_permits _ _ _ HI p Hp) as (g & Hg & Eg'). apply (Hfresh g Hg). congruence. }
  unfold grantable in Eg. destruct (_ || _) eqn:Eg1; [done|]. bool_to_prop.
  assert (Probing (pool_Controller s1) = false) as Hpr.
  { case_match; [done|]. unfold CanStart in Eg. case_match; [done|]. bool_to_prop. done. }
  pose proof (pi_adm _ _ _ HI) as HA. destruct (pi_adm _ _ _ HI) as [HC Hv Hpad Hprobe He Hclaim].
  assert (ProbeID s1 = "") as Hpid.
  { destruct (String.eqb_spec (ProbeID s1) "") as [|Hne]; [done|]. apply Hprobe in Hne. congruence. }
  destruct (grant_start_facts (pool_Controller s1) now HC) as (G1 & G2 & G3 & G4 & G5 & G6 & _).
  assert (Epoch (grant_start (pool_Controller s1) now) ≤ now) as He' by (rewrite G6; case_match; lia).
  set (c' := grant_start (pool_Controller s1) now) in *.
  assert (rs_Probe r0 = Cooling (pool_Controller s1)) as Erp by done.
  assert (rs_PermitID r0 = id) as Erid by done. clearbody r0.
  set (s2 := if Cooling (pool_Controller s1) then _ else _).
  assert (PoolID s2 = PoolID s1 ∧ Generation s2 = Generation s1 ∧ Sequence s2 = Sequence s1 + 1
    ∧ Outstanding s2 = Outstanding s1 ∧ StartIntents s2 = StartIntents s1 ∧ RequestRetirements s2 = RequestRetirements s1
    ∧ PendingClaimLimit s2 = PendingClaimLimit s1 ∧ ProbeID s2 = (if Cooling (pool_Controller s1) then id else "")
    ∧ pool_Controller s2 = c' ∧ RecoveryPadding s2 = RecoveryPadding s1
    ∧ RecoveryJitterVersion s2 = RecoveryJitterVersion s1
    ∧ (ProbeID s2 ≠ "" → ProbeClaimAt s2 = time_zero)) as (F1 & F2 & F3 & F4 & F5 & F6 & F7 & F8 & F9 & F10 & F11 & F12).
  { unfold s2. destruct (Cooling (pool_Controller s1)); do 7 (split; [done|]); repeat split; done. }
  clearbody s2. apply (PoolInv_granted granted t now s1 s2 r0 id); try done.
  - constructor; rewrite ?F9, ?F11; try done.
    + unfold PadOK in *. by rewrite F9, F10, F11, G3, G5.
    + rewrite G4, F8. destruct (Cooling (pool_Controller s1)); [|by rewrite Hpr].
      split; [intros _; apply uuid_nonempty|done].
    + intros Hp Hz. by destruct (Hz (F12 Hp)).
  - rewrite F8, Erp. destruct (Cooling (pool_Controller s1)); [by left|by right].
Qed.

(** A step outside the lists that keeps the probe. *)
Lemma PoolInv_neutral granted t t' s s' :
  PoolInv granted t s → t ≤ t' → same_lists s s' → PendingClaimLimit s' = PendingClaimLimit s →
  pool_Controller s' = pool_Controller s → ProbeID s' = ProbeID s → ProbeClaimAt s' = ProbeClaimAt s →
  RecoveryJitterVersion s' = RecoveryJitterVersion s → RecoveryPadding s' = RecoveryPadding s → PoolInv granted t' s'.
Proof.
  intros HI Ht HL EP E1 E2 E3 E4 E5. apply (PoolInv_admission granted t t' s); try done.
  - rewrite EP. apply HI.
  - apply (AdmOK_fields t' s); try done. by apply (AdmOK_later t), Ht; apply HI.
  - by left.
  - intros r. by eapply granted_nonempty.
Qed.

Lemma unique_slot granted t s i j p q :
  PoolInv granted t s → Outstanding s !! i = Some p → Outstanding s !! j = Some q → pp_ID p = pp_ID q → i = j.
Proof.
  intros HI Hp Hq E. apply (NoDup_lookup (map pp_ID (Outstanding s)) i j (pp_ID p)); [apply HI| |].
  - change ((pp_ID <$> Outstanding s) !! i = Some (pp_ID p)). by rewrite list_lookup_fmap, Hp.
  - change ((pp_ID <$> Outstanding s) !! j = Some (pp_ID p)). by rewrite list_lookup_fmap, Hq, E.
Qed.

(** The slot of the running probe has not been applied. *)
Lemma applied_not_probe granted t s i slot :
  PoolInv granted t s → Outstanding s !! i = Some slot → pp_Applied slot = true → ProbeID s = pp_ID slot → False.
Proof.
  intros HI Hi Ha E. destruct (pi_permits _ _ _ HI slot) as (g & Hg & Eg); [by eapply list_elem_of_lookup_2|].
  pose proof (granted_nonempty _ _ _ _ HI Hg) as Hne. rewrite Eg, <- E in Hne.
  destruct (pi_live _ _ _ HI Hne) as (p & [j Hj]%list_elem_of_lookup & Ep & Hap).
  assert (j = i) as -> by (eapply unique_slot; [exact HI|done..|congruence]). congruence.
Qed.

(** Updating a slot: only a slot that is not the probe's may become applied. *)
Lemma PoolInv_slot granted t s i slot slot' :
  PoolInv granted t s → Outstanding s !! i = Some slot → pp_ID slot' = pp_ID slot →
  (pp_Applied slot' = pp_Applied slot ∨ ProbeID s ≠ pp_ID slot) →
  PoolInv granted t (s <| Outstanding ::= <[i := slot']> |>).
Proof.
  intros HI Hi Eid Hap. pose proof HI as [HA HC HIn HL HS HP HM HU HSt HSn HLv HF].
  assert (map pp_ID (<[i := slot']> (Outstanding s)) = map pp_ID (Outstanding s)) as Em by by eapply map_insert_same.
  constructor; try done; change (Outstanding (s <| Outstanding ::= <[i := slot']> |>)) with (<[i := slot']> (Outstanding s)).
  - by apply (AdmOK_fields t s).
  - unfold llen. rewrite length_insert. exact HC.
  - intros p Hp%(list_elem_of_fmap_2 pp_ID). change (pp_ID p ∈ map pp_ID (<[i := slot']> (Outstanding s))) in Hp.
    rewrite Em in Hp. apply elem_of_map in Hp as (q & -> & Hq). auto.
  - by rewrite Em.
  - by rewrite Em.
  - intros Hn. destruct (HLv Hn) as (p & [j Hj]%list_elem_of_lookup & Ep & Hna).
    destruct (decide (i = j)) as [<-|Hne].
    + exists slot'. assert (p = slot) as -> by congruence. split; [|split; [exact (eq_trans Eid Ep)|]].
      * apply list_elem_of_lookup. exists i. apply list_lookup_insert_eq. by eapply lookup_lt_Some.
      * destruct Hap as [->|Hap]; [done|]. by rewrite Ep in Hap.
    + exists p. split; [|done]. apply list_elem_of_lookup. exists j. by rewrite list_lookup_insert_ne.
Qed.

Lemma elem_of_delete_other granted t s i j slot p :
  PoolInv granted t s → Outstanding s !! i = Some slot → Outstanding s !! j = Some p → pp_ID p ≠ pp_ID slot →
  p ∈ delete i (Outstanding s).
Proof.
  intros HI Hi Hj Hne. assert (i ≠ j) as Hij by (intros ->; congruence).
  rewrite <- (take_drop_middle (Outstanding s) i slot Hi) in Hj. rewrite delete_take_drop. apply elem_of_app.
  pose proof (lookup_lt_Some _ _ _ Hi). destruct (decide (j < i)%nat).
  - left. rewrite lookup_app_l in Hj by (rewrite length_take; lia). by eapply list_elem_of_lookup_2.
  - right. rewrite lookup_app_r in Hj by (rewrite length_take; lia). rewrite length_take in Hj.
    destruct (j - i `min` length (Outstanding s))%nat as [|k] eqn:Ek; [lia|]. by eapply list_elem_of_lookup_2.
Qed.

(** Removing a settled permit, and queueing its retirement. *)
Lemma PoolInv_delete granted t s i slot retire :
  PoolInv granted t s → Outstanding s !! i = Some slot → ProbeID s ≠ pp_ID slot →
  pp_ID slot ∉ map rs_PermitID (StartIntents s) → (length retire ≤ 1)%nat →
  PoolInv granted t (s <| Outstanding ::= delete i |> <| RequestRetirements ::= fun l => l ++ retire |>).
Proof.
  intros HI Hi Hp Hs Hr. pose proof HI as [HA HC HIn HL HS HP HM HU HSt HSn HLv HF].
  set (s' := s <| Outstanding ::= delete i |> <| RequestRetirements ::= _ |>).
  assert (Outstanding s' = delete i (Outstanding s)) as Eo by done.
  assert (∀ p, p ∈ Outstanding s' → p ∈ Outstanding s) as Hsub.
  { intros p Hp'. rewrite Eo in Hp'. eapply elem_of_sublist; [done|]. apply sublist_delete. }
  constructor; try done.
  - by apply (AdmOK_fields t s).
  - rewrite Eo. change (RequestRetirements s') with (RequestRetirements s ++ retire). rewrite llen_app.
    pose proof (lookup_lt_Some _ _ _ Hi). unfold llen in *. rewrite length_delete by eauto. lia.
  - intros p Hp'. apply HP. by apply Hsub.
  - rewrite Eo. eapply sublist_NoDup; [exact HU|]. apply (fmap_sublist pp_ID), sublist_delete.
  - intros id Hid. pose proof (HSt id Hid) as (p & -> & [j Hj]%list_elem_of_lookup)%elem_of_map.
    apply elem_of_map. exists p. split; [done|]. rewrite Eo. eapply elem_of_delete_other; try done.
    intros E. apply Hs. rewrite <- E. exact Hid.
  - intros Hn. destruct (HLv Hn) as (p & [j Hj]%list_elem_of_lookup & Ep & Hna).
    exists p. split; [|done]. rewrite Eo. eapply elem_of_delete_other; try done. congruence.
Qed.

Lemma observe_claim_spec granted t s now a i slot :
  PoolInv granted t s → t ≤ now → Outstanding s !! i = Some slot →
  let s' := (observe_claim s now a i slot).1 in
  PoolInv granted now s'
  ∧ ∃ slot', Outstanding s' !! i = Some slot' ∧ pp_ID slot' = pp_ID slot ∧ PoolID s' = PoolID s
      ∧ pp_Applied slot' = pp_Applied slot ∧ Generation s' = Generation s ∧ ProbeID s' = ProbeID s.
Proof.
  intros HI Ht Hi. cbn zeta. unfold observe_claim.
  set (newly := (0 <? PendingClaimLimit s) && negb (pp_Claimed slot)).
  set (s1 := if newly then s <| Outstanding ::= <[i := slot <| pp_Claimed := true |>]> |> else s).
  assert (PoolInv granted t s1 ∧ ∃ slot', Outstanding s1 !! i = Some slot' ∧ pp_ID slot' = pp_ID slot
    ∧ pp_Applied slot' = pp_Applied slot ∧ PoolID s1 = PoolID s ∧ Generation s1 = Generation s ∧ ProbeID s1 = ProbeID s)
    as (HI1 & slot' & Hi1 & Es1 & Es2 & Ep1 & Eg1 & Eb1).
  { unfold s1. destruct newly; [|split; [done|]; by exists slot]. split; [by eapply PoolInv_slot; [..|left]|].
    exists (slot <| pp_Claimed := true |>). split; [|done].
    apply list_lookup_insert_eq. by eapply lookup_lt_Some. }
  clearbody s1. pose proof (PoolInv_intents _ _ s1 (dropIntent_in (rs_PermitID (a_Reservation a)) (StartIntents s1)) HI1
    (dropIntent_sublist _ _)) as HI2.
  change (PoolInv granted t (dropIntent s1 (rs_PermitID (a_Reservation a)))) in HI2.
  set (s2 := (dropIntent s1 (rs_PermitID (a_Reservation a))) <| DispatchBackoff := 2 * Second |>).
  assert (PoolInv granted now s2) as HI3 by by eapply PoolInv_neutral.
  set (s3 := if _ && IsZero _ then _ else _).
  assert (PoolInv granted now s3 ∧ same_lists s2 s3 ∧ ProbeID s3 = ProbeID s2
          ∧ pool_Controller s3 = pool_Controller s2) as (HI4 & HL & Eb3 & Ec3).
  { unfold s3. case_match; [|done]. split; [|done]. apply (PoolInv_admission granted now now s2); try done; [apply HI3| |by left|].
    - destruct (pi_adm _ _ _ HI3) as [? ? ? ? He ?]. by constructor.
    - intros r. by eapply granted_nonempty. }
  clearbody s3. destruct HL as (L1 & L2 & L3 & L4 & L5 & L6).
  case_match.
  - split.
    + apply (PoolInv_admission granted now now s3); try done; [apply HI4| |by left|intros r; by eapply granted_nonempty].
      destruct (pi_adm _ _ _ HI4) as [HC Hv Hp Hpr He Hcl].
      set (c' := if negb (Cooling (pool_Controller s3)) then (pool_Controller s3) <| WindowStart := now |> <| Epoch := now |>
                 else (pool_Controller s3) <| WindowStart := now |>).
      assert (ControllerOK c' ∧ Probing c' = Probing (pool_Controller s3) ∧ Cooling c' = Cooling (pool_Controller s3)
        ∧ NextEligible c' = NextEligible (pool_Controller s3)
        ∧ Epoch c' = (if Cooling (pool_Controller s3) then Epoch (pool_Controller s3) else now)) as (C1 & C2 & C3 & C4 & C5).
      { unfold c'. pose proof (co_probe _ HC) as Hcp. destruct HC. destruct (Cooling (pool_Controller s3)) eqn:Ecl; cbn [negb]; (split; [|done]).
        - by constructor.
        - constructor; try done. intros Hx. by apply Hcp in Hx. }
      assert (AdmOK now (s3 <| pool_Controller := c' |>)) as HA.
      { constructor; try done.
        - change (pad_ok (RecoveryJitterVersion s3) (RecoveryPadding s3) (Cooling c') (NextEligible c')). by rewrite C3, C4.
        - change (Probing c' = true ↔ ProbeID s3 ≠ ""). by rewrite C2.
        - change (Epoch c' ≤ now). rewrite C5. case_match; [done|lia].
        - change (ProbeID s3 ≠ "" → ProbeClaimAt s3 ≠ time_zero → Epoch c' ≤ ProbeClaimAt s3 ≤ now).
          intros Hn. rewrite C5. rewrite (co_probe _ HC) by by apply Hpr. auto. }
      by apply (AdmOK_fields now (s3 <| pool_Controller := c' |>)).
    + exists slot'. change (Outstanding s3 !! i = Some slot' ∧ pp_ID slot' = pp_ID slot ∧ PoolID s3 = PoolID s
        ∧ pp_Applied slot' = pp_Applied slot ∧ Generation s3 = Generation s ∧ ProbeID s3 = ProbeID s).
      rewrite L4, L1, L2, Eb3. done.
  - split; [done|]. exists slot'. change (fst (s3, newly)) with s3. rewrite L4, L1, L2, Eb3. done.
Qed.

(** A settlement keeps the invariant, ends the probe when it is the probe's,
    and frees the slot when the attempt has stopped. *)
Lemma observe_settlement_spec granted t s now a out i slot :
  PoolInv granted t s → t ≤ now → Outstanding s !! i = Some slot → a_Reservation a ∈ granted →
  pp_ID slot = rs_PermitID (a_Reservation a) →
  let s' := observe_settlement s now a out i slot in
  PoolInv granted now s' ∧ ProbeID s' ≠ pp_ID slot ∧ (ProbeID s' = ProbeID s ∨ ProbeID s' = "")
  ∧ (is_Some (a_StoppedAt a) → pp_ID slot ∉ map pp_ID (Outstanding s')).
Proof.
  intros HI Ht Hi Hg Eid. cbn zeta. unfold observe_settlement. set (r := a_Reservation a) in *.
  pose proof (PoolInv_intents _ _ s (dropIntent_in (rs_PermitID r) (StartIntents s)) HI (dropIntent_sublist _ _)) as HI1.
  change (PoolInv granted t (dropIntent s (rs_PermitID r))) in HI1.
  set (s1 := dropIntent s (rs_PermitID r)) in *.
  assert (pp_ID slot ∉ map rs_PermitID (StartIntents s1)) as Hdrop.
  { rewrite Eid. apply dropIntent_gone, HI. }
  change (Outstanding s1 !! i = Some slot) in Hi. change (ProbeID s) with (ProbeID s1) in *. clearbody s1.
  pose proof (granted_nonempty _ _ _ _ HI Hg) as Hne. fold r in Hne.
  set (s2 := if negb (pp_Applied slot) then applyOutcome s1 now a out else s1).
  assert (PoolInv granted now s2 ∧ same_lists s1 s2 ∧ ProbeID s2 ≠ pp_ID slot
          ∧ (ProbeID s2 = ProbeID s1 ∨ ProbeID s2 = "")) as (HI2 & HL & Hpr & Hor).
  { unfold s2. destruct (pp_Applied slot) eqn:Ea; cbn [negb].
    - split; [by eapply PoolInv_later|]. split; [done|]. split; [|by left]. intros E. by eapply applied_not_probe.
    - destruct (applyOutcome_spec t s1 now a out (pi_adm _ _ _ HI1) Ht Hne) as (K & A & P). fold r in P.
      destruct (same_core_lists _ _ K) as [HL EL].
      assert (ProbeID (applyOutcome s1 now a out) = ProbeID s1 ∨ ProbeID (applyOutcome s1 now a out) = "") as Hkeep
        by (rewrite P; case_match; auto).
      split; [|split; [done|]].
      + apply (PoolInv_admission granted t now s1); try done; [rewrite EL; apply HI1|].
        intros g. by eapply granted_nonempty.
      + split; [|done]. rewrite P, Eid. destruct (String.eqb_spec (rs_PermitID r) (ProbeID s1)) as [E|E].
        * rewrite (pi_flag _ _ _ HI1 r Hg E). done.
        * by rewrite andb_false_r. }
  clearbody s2. destruct HL as (_ & _ & _ & L4 & L5 & L6). rewrite <- L4 in Hi.
  destruct (a_StoppedAt a) as [stopped|].
  - assert (∀ retire, (length retire ≤ 1)%nat →
      PoolInv granted now (s2 <| Outstanding ::= delete i |> <| RequestRetirements ::= fun l => l ++ retire |>)) as Hdel.
    { intros retire Hr. eapply PoolInv_delete; try done. by rewrite L5. }
    assert (pp_ID slot ∉ map pp_ID (delete i (Outstanding s2))) as Hgone.
    { intros (p & E & Hp)%elem_of_map. pose proof (pi_unique _ _ _ HI2) as HU.
      rewrite <- (take_drop_middle _ _ _ Hi), map_app in HU. cbn [map] in HU.
      rewrite delete_take_drop in Hp. apply NoDup_app in HU as (_ & HU1 & HU2). apply NoDup_cons in HU2 as [HU2 _].
      apply elem_of_app in Hp as [Hp|Hp].
      - apply (HU1 (pp_ID slot)); [apply elem_of_map; eauto|left].
      - apply HU2, elem_of_map. eauto. }
    case_match.
    + split; [apply (Hdel [rs_PermitID r]); cbn; lia|]. done.
    + split; [|done]. specialize (Hdel [] ltac:(cbn; lia)).
      assert (s2 <| Outstanding ::= delete i |> <| RequestRetirements ::= fun l => l ++ [] |>
              = s2 <| Outstanding ::= delete i |>) as <- by (unfold upd; cbn; by rewrite app_nil_r). done.
  - split; [by eapply PoolInv_slot; [..|right]|]. split; [done|]. split; [done|]. by intros [? ?].
Qed.

Lemma Observe_spec granted t s now a s' changed :
  PoolInv granted t s → t ≤ now → a_Reservation a ∈ granted → Observe s now a = (s', changed) → PoolInv granted now s'.
Proof.
  intros HI Ht Hg. unfold Observe. pose proof (PoolInv_later _ _ now _ HI Ht) as HIn.
  destruct (find_permit _ _) as [i|] eqn:Ef; [|by intros E; injection E as <- _].
  destruct (_ || _); [by intros E; injection E as <- _|].
  apply find_permit_spec in Ef as (slot & Hi & Eid). rewrite Hi.
  destruct (match a_ClaimedAt a with Some _ => observe_claim s now a i slot | None => (s, false) end) as [s1 ch] eqn:E1.
  assert (PoolInv granted now s1 ∧ ∃ slot', Outstanding s1 !! i = Some slot' ∧ pp_ID slot' = pp_ID slot)
    as (HI1 & slot' & Hi1 & Es).
  { destruct (a_ClaimedAt a).
    - destruct (observe_claim_spec granted t s now a i slot HI Ht Hi) as (? & slot' & ? & ? & _). rewrite E1 in *. eauto.
    - injection E1 as <- <-. eauto. }
  rewrite Hi1. destruct (a_Observation a) as [o|]; [|by intros E; injection E as <- _].
  destruct (negb _ || _ || _); [by intros E; injection E as <- _|]. intros E; injection E as <- _.
  eapply (observe_settlement_spec granted now s1 now a (ob_Outcome o) i slot'); try done; congruence.
Qed.

Lemma resume_spec granted t s now : PoolInv granted t s → t ≤ now → PoolInv granted now (on_resume s now).
Proof.
  intros HI Ht. pose proof (PoolInv_later _ _ now _ HI Ht) as HIn. unfold on_resume.
  pose proof (pi_adm _ _ _ HIn) as HA. pose proof HA as [HC Hv Hp Hpr He Hcl].
  change (Probing (pool_Controller (s <| pool_Controller ::= fun c => c <| Paused := false |> |>)))
    with (Probing (pool_Controller s)).
  destruct (Probing (pool_Controller s)) eqn:Eprobe; cbn [negb].
  - apply (PoolInv_admission granted now now s); try done; [apply HI| |by left|intros r; by eapply granted_nonempty].
    apply (AdmOK_controller now s ((pool_Controller s) <| Paused := false |>) HA); try done. destruct HC. by constructor.
  - assert (ProbeID s = "") as Hpid.
    { destruct (String.eqb_spec (ProbeID s) "") as [|Hne]; [done|]. apply Hpr in Hne. congruence. }
    set (s1 := _ <| Episode ::= _ |> <| ProbeID := "" |>).
    assert (ControllerOK (pool_Controller s1)) as HC1.
    { destruct HC. constructor; try done. change (0 ≤ maxTime (NextEligible (pool_Controller s)) now).
      rewrite maxTime_max. lia. }
    destruct (co_policy _ HC1) as (_ & _ & _ & _ & _ & Hj & _).
    assert (NextEligible (pool_Controller s) ≤ NextEligible (pool_Controller s1)) as Hle.
    { change (NextEligible (pool_Controller s) ≤ maxTime (NextEligible (pool_Controller s)) now). rewrite maxTime_max. lia. }
    destruct (padRecoveryFloor_spec s1 (NextEligible (pool_Controller s)) Hj (co_eligible _ HC1)) as (P1 & P2 & P3 & HP4).
    { intros p Ep. unfold PadOK, pad_ok in Hp. change (RecoveryPadding s = Some p) in Ep. rewrite Ep in Hp.
      destruct Hp as (V & F & R & Cc & N). repeat split; try done; try lia. }
    destruct (same_core_lists _ _ P2) as [HL EL].
    change (PoolInv granted now (padRecoveryFloor s1 (NextEligible (pool_Controller s)))).
    apply (PoolInv_admission granted now now s); try done.
    + rewrite EL. apply HI.
    + pose proof (padded_ok _ _ _ HP4 HC1). destruct HP4 as (d & _ & P4). constructor; try done; rewrite ?P4.
      * destruct P2 as (_ & _ & _ & _ & _ & _ & _ & -> & _). exact Hv.
      * rewrite P3. change (Probing (pool_Controller s) = true ↔ "" ≠ ""). rewrite Eprobe. by split.
      * exact He.
    + right. by rewrite P3.
    + intros r. by eapply granted_nonempty.
Qed.

Lemma policy_spec granted t s p : PoolInv granted t s → PoolInv granted t (on_policy s p).
Proof.
  intros HI. unfold on_policy. destruct (Configure (pool_Controller s) p) as [c|e] eqn:E; [|done].
  pose proof (Configure_ok _ _ _ (ao_ctl _ _ (pi_adm _ _ _ HI)) E) as HC. unfold Configure in E.
  destruct (policy_Validate p); [|done]. injection E as <-.
  apply (PoolInv_admission granted t t s); try done; [apply HI| |by left|intros r; by eapply granted_nonempty].
  set (c' := (pool_Controller s) <| ctl_Policy := p |> <| Rate := StartRate p |> <| Successes := 0 |>) in *.
  by apply (AdmOK_fields t (s <| pool_Controller := c' |>)); [apply AdmOK_controller; [apply HI|..]|..].
Qed.
End Operations.

(** ** The workflow keeps the invariant *)

(** What the pool and its loop keep between turns. *)
Record LoopInv `{PoolEnv} (granted : list Reservation) (t : Time) (w : PoolLoop) : Prop := {
  li_pool : PoolInv granted t (pw_state w);
  li_retire : ∀ ids, pw_retirement w = Some ids → prefix ids (RequestRetirements (pw_state w));
  li_starters : llen (pw_starters w) ≤ 4;
  li_batches : ∀ b, b ∈ pw_starters w → 1 ≤ llen b ≤ 16;
}.

(** The ledger returns attempts of the pool's own reservations. *)
Definition ledger_attempts (granted : list Reservation) (found : list (Completed (list Attempt))) : Prop :=
  ∀ attempts a, Some (Ok attempts) ∈ found → a ∈ attempts → a_Reservation a ∈ granted.

Section Turn.
Context `{PoolLaws}.
Variable marshal_len : PoolState → Z.
Variable publishStatus : bool.

(** An update of the state that keeps the pool's invariant and only appends
    retirements. *)
Lemma LoopInv_state granted t t' w s' :
  LoopInv granted t w → PoolInv granted t' s' → prefix (RequestRetirements (pw_state w)) (RequestRetirements s') →
  LoopInv granted t' (w <| pw_state := s' |>).
Proof. intros [HP HR HS HB] HP' Hpre. constructor; try done. intros ids Hids. etrans; [by apply HR|done]. Qed.

Lemma LoopInv_fields granted t w w' :
  LoopInv granted t w → pw_state w' = pw_state w → pw_retirement w' = pw_retirement w → pw_starters w' = pw_starters w →
  LoopInv granted t w'.
Proof. intros [] E1 E2 E3. constructor; rewrite ?E1, ?E2, ?E3; done. Qed.

Lemma PoolInv_persistence granted t s b :
  PoolInv granted t s → PoolInv granted t (s <| PersistenceWait := b |>).
Proof. intros HI. by apply (PoolInv_neutral granted t t s). Qed.

Lemma fold_pool {A : Type} granted t (f : PoolState → A → PoolState) l s :
  (∀ s a, PoolInv granted t s → PoolInv granted t (f s a) ∧ RequestRetirements (f s a) = RequestRetirements s) →
  PoolInv granted t s →
  PoolInv granted t (foldl f s l) ∧ RequestRetirements (foldl f s l) = RequestRetirements s.
Proof.
  intros Hf. revert s. induction l as [|a l IH]; intros s HI; [done|]. cbn.
  destruct (Hf s a HI) as [HI' E]. destruct (IH _ HI') as [? E']. split; [done|congruence].
Qed.

Lemma drain_spec granted t w now sg :
  LoopInv granted t w → t ≤ now → LoopInv granted now (drain w now sg).
Proof.
  intros HL Ht. unfold drain.
  set (w1 := if 0 <? sg_wakes sg then _ else _). assert (LoopInv granted t w1) as H1
    by (unfold w1; case_match; [by apply (LoopInv_fields granted t w)|done]). clearbody w1.
  set (w2 := if 0 <? sg_notices sg then _ else _). assert (LoopInv granted t w2) as H2
    by (unfold w2; case_match; [by apply (LoopInv_fields granted t w1)|done]). clearbody w2.
  pose proof (PoolInv_later _ _ now _ (li_pool _ _ _ H2) Ht) as HP.
  destruct (fold_pool granted now (fun s (b : bool) => if b then on_resume s now else s) (sg_resumes sg) (pw_state w2))
    as [HP1 E1]; [|done|].
  { intros s [] HI; [|done]. split; [apply (resume_spec granted now); [done|lia]|].
    unfold on_resume, padRecoveryFloor. repeat case_match; done. }
  set (s1 := foldl _ (pw_state w2) (sg_resumes sg)) in *.
  destruct (fold_pool granted now on_policy (decoded_policies zeroPolicy (sg_policies sg)) s1) as [HP2 E2]; [|done|].
  { intros s p HI. split; [by apply policy_spec|]. unfold on_policy. by case_match. }
  set (s2 := foldl on_policy s1 (decoded_policies zeroPolicy (sg_policies sg))) in *.
  destruct (fold_pool granted now (fun s (b : bool) => if b then s <| Quiescing := true |> else s) (sg_quiesces sg) s2)
    as [HP3 E3]; [|done|].
  { intros s [] HI; [|done]. split; [by apply (PoolInv_neutral granted now now s)|done]. }
  set (s3 := foldl _ s2 (sg_quiesces sg)) in *.
  apply (LoopInv_fields granted now (w2 <| pw_state := s3 |>)); try done.
  apply (LoopInv_state granted t); [done|exact HP3|]. by rewrite E3, E2, E1.
Qed.

Lemma Observe_retirements s now a : prefix (RequestRetirements s) (RequestRetirements (Observe s now a).1).
Proof.
  assert (∀ s p, RequestRetirements (padRecoveryFloor s p) = RequestRetirements s) as Hpad
    by (intros s' p; unfold padRecoveryFloor; repeat case_match; done).
  assert (∀ s n a pr cw, RequestRetirements (apply_never_dispatched s n a pr cw) = RequestRetirements s) as Hnd
    by (intros s' n a' pr cw; unfold apply_never_dispatched; destruct cw, pr; repeat case_match; done).
  assert (∀ s n a o, RequestRetirements (applyOutcome s n a o) = RequestRetirements s) as Hap.
  { intros s' n a' o. unfold applyOutcome. repeat (case_match; try done); try apply Hnd; cbn; rewrite ?Hpad; done. }
  assert (∀ i slot, RequestRetirements (observe_claim s now a i slot).1 = RequestRetirements s) as Hcl.
  { intros i slot. unfold observe_claim. repeat case_match; done. }
  unfold Observe. destruct (find_permit _ _) as [i|]; [|done]. destruct (_ || _); [done|].
  destruct (Outstanding s !! i) as [slot|]; [|done].
  set (pr := match a_ClaimedAt a with Some _ => observe_claim s now a i slot | None => (s, false) end).
  assert (RequestRetirements pr.1 = RequestRetirements s) as Epr by (unfold pr; case_match; [apply Hcl|done]).
  destruct pr as [s1 ch]. cbn in Epr. rewrite <- Epr.
  destruct (a_Observation a), (Outstanding s1 !! i) as [slot'|]; try done.
  destruct (_ || _ || _); [done|]. unfold observe_settlement. destruct (a_StoppedAt a).
  - case_match; destruct (negb (pp_Applied slot')); cbn; rewrite ?Hap; done || by eexists.
  - destruct (negb (pp_Applied slot')); cbn; rewrite ?Hap; done.
Qed.

Lemma observe_all_spec granted now w attempts :
  LoopInv granted now w → (∀ a, a ∈ attempts → a_Reservation a ∈ granted) →
  LoopInv granted now (observe_all w now attempts) ∧ pw_reads (observe_all w now attempts) = pw_reads w.
Proof.
  unfold observe_all. revert w. induction attempts as [|a l IH]; intros w HL Hg; [done|]. cbn [foldl].
  pose proof (Observe_retirements (pw_state w) now a) as Hpre.
  destruct (Observe (pw_state w) now a) as [s' ch] eqn:E. cbn in Hpre.
  assert (LoopInv granted now (w <| pw_state := s' |>)) as HL1.
  { apply (LoopInv_state granted now); [done| |done].
    eapply (Observe_spec granted now); [apply HL|lia|apply Hg; left|done]. }
  set (w' := if ch then _ else _).
  assert (LoopInv granted now w' ∧ pw_reads w' = pw_reads w) as [HL2 Er]
    by (unfold w'; destruct ch; (split; [|done]); [by apply (LoopInv_fields granted now (w <| pw_state := s' |>))|done]).
  destruct (IH w' HL2) as [? Er']; [intros x Hx; apply Hg; by right|]. split; [done|congruence].
Qed.

Lemma paired_in {A B : Type} (pending : list A) (found : list (Completed B)) p r :
  (p, Some r) ∈ paired pending found → Some r ∈ found.
Proof.
  revert found. induction pending as [|q l IH]; intros found; cbn; [intros Hn; by apply not_elem_of_nil in Hn|].
  intros [E|Hin]%elem_of_cons.
  - injection E as _ E. destruct found as [|x found]; cbn in E; [done|]. rewrite <- E. left.
  - destruct found as [|x found]; [|right; by apply IH]. by apply IH.
Qed.

Lemma on_reads_spec granted w now found :
  LoopInv granted now w → ledger_attempts granted found → LoopInv granted now (on_reads w now found).
Proof.
  intros HL Hled. unfold on_reads.
  assert (∀ l acc, (∀ p r, (p, Some r) ∈ l → Some r ∈ found) → LoopInv granted now acc.1 →
            LoopInv granted now (foldl (on_read now) acc l).1) as Hfold.
  { induction l as [|[p c] l IH]; intros [w1 kept] Hin HL1; [done|]. cbn [foldl]. apply IH.
    - intros q r Hq. eapply Hin. by right.
    - unfold on_read. cbn [snd fst]. destruct c as [[attempts|e]|]; cbn [fst].
      + apply observe_all_spec; [done|]. intros a Ha. eapply Hled; [|done]. apply (Hin p). left.
      + apply (LoopInv_fields granted now (w1 <| pw_state ::= fun s => s <| PersistenceWait := true |> |>)); try done.
        by apply (LoopInv_state granted now); [|apply PoolInv_persistence, HL1|].
      + done. }
  specialize (Hfold (paired (pw_reads w) found) (w, []) ltac:(intros p r; apply paired_in) HL).
  destruct (foldl _ _ _) as [w1 kept]. cbn in Hfold.
  assert (LoopInv granted now (w1 <| pw_reads := kept |>)) as H1 by by apply (LoopInv_fields granted now w1).
  case_match; [|done].
  set (w2 := if negb _ then _ else _). assert (LoopInv granted now w2) as HL2.
  { unfold w2. case_match; [|done]. by apply (LoopInv_state granted now); [|apply PoolInv_persistence, H1|]. }
  by apply (LoopInv_fields granted now w2).
Qed.

Lemma PoolInv_ack granted t s results :
  PoolInv granted t s →
  PoolInv granted t (AcknowledgeStarts s results)
  ∧ RequestRetirements (AcknowledgeStarts s results) = RequestRetirements s.
Proof.
  intros HI. unfold AcknowledgeStarts. apply fold_pool; [|done]. intros s1 r HI1. case_match; [|done].
  split; [|done]. apply (PoolInv_intents granted t s1); [done|apply dropIntent_sublist].
Qed.

Lemma on_starters_spec granted w now found :
  LoopInv granted now w → LoopInv granted now (on_starters w now found).
Proof.
  intros HL. unfold on_starters.
  assert (∀ l acc, LoopInv granted now acc.1 →
            (∀ b, b ∈ acc.2 ++ map fst l → 1 ≤ llen b ≤ 16) → llen acc.2 + llen l ≤ 4 →
            let r := foldl (on_starter now) acc l in
            LoopInv granted now r.1 ∧ (∀ b, b ∈ r.2 → 1 ≤ llen b ≤ 16) ∧ llen r.2 ≤ 4) as Hfold.
  { induction l as [|[p c] l IH]; intros [w1 kept] HL1 Hb Hn; cbn [foldl fst snd map] in *.
    - rewrite app_nil_r in Hb. change (llen []) with 0 in Hn. split; [done|]. split; [done|lia].
    - replace (llen ((p, c) :: l)) with (llen l + 1) in Hn by (unfold llen; cbn; lia).
      assert (∀ b, b ∈ kept ++ map fst l → 1 ≤ llen b ≤ 16) as Hb'
        by (intros b Hin; apply Hb; set_solver).
      apply IH; unfold on_starter; destruct c as [[results|e]|]; cbn [fst snd]; try done; try lia.
      + destruct (PoolInv_ack granted now (pw_state w1) results) as [HP E]; [apply HL1|].
        assert (LoopInv granted now (w1 <| pw_state ::= fun s => AcknowledgeStarts s results |>)) as HL2.
        { apply (LoopInv_state granted now); [done|done|]. by rewrite E. }
        case_match; [|done]. by apply (LoopInv_fields granted now (w1 <| pw_state ::= fun s => AcknowledgeStarts s results |>)).
      + by apply (LoopInv_fields granted now w1).
      + intros b Hin. apply Hb. set_solver.
      + rewrite llen_app. change (llen [p]) with 1. lia. }
  assert (∀ pending : list (list Reservation), map fst (paired pending found) = pending ∧ llen (paired pending found) = llen pending) as Hpair.
  { intros pending. generalize found. unfold llen. induction pending as [|q l IH]; intros f; [done|]. cbn.
    destruct (IH (tail f)) as [-> ?]. split; [done|lia]. }
  destruct (Hpair (pw_starters w)) as [E1 E2].
  destruct (Hfold (paired (pw_starters w) found) (w, [])) as (H1 & H2 & H3); [done| | |].
  - cbn. rewrite E1. apply HL.
  - cbn [snd]. rewrite E2. apply HL.
  - destruct (foldl _ _ _) as [w1 kept]. cbn in *. destruct H1. by constructor.
Qed.

Lemma on_others_spec granted w now sel rdy pub :
  LoopInv granted now w →
  LoopInv granted now (on_publication (on_readiness (on_selection w now sel) now rdy) now pub).
Proof.
  intros HL.
  assert (∀ w f, LoopInv granted now w → (∀ s, same_lists s (f s) ∧ PendingClaimLimit (f s) = PendingClaimLimit s
      ∧ pool_Controller (f s) = pool_Controller s ∧ ProbeID (f s) = ProbeID s ∧ ProbeClaimAt (f s) = ProbeClaimAt s
      ∧ RecoveryJitterVersion (f s) = RecoveryJitterVersion s ∧ RecoveryPadding (f s) = RecoveryPadding s) →
      LoopInv granted now (w <| pw_state ::= f |>)) as Hneutral.
  { intros w1 f HL1 Hf. destruct (Hf (pw_state w1)) as (F1 & F2 & F3 & F4 & F5 & F6 & F7).
    apply (LoopInv_state granted now); [done| |].
    - eapply (PoolInv_neutral granted now now (pw_state w1)); try done; apply HL1.
    - destruct F1 as (_ & _ & _ & _ & _ & ->). done. }
  assert (LoopInv granted now (on_selection w now sel)) as H1.
  { unfold on_selection. destruct (pw_selection w), sel as [[page|e]|]; try done.
    - case_match.
      + eapply LoopInv_fields; [apply (Hneutral w (fun s => s <| PersistenceWait := true |>)); [done|]|..]; done.
      + assert (LoopInv granted now (w <| pw_state ::= fun s => s <| AfterScope := rp_AfterScope page |> |>)) as HLs
          by (by apply Hneutral).
        destruct (llen (rp_Items page) =? 0); by eapply LoopInv_fields.
    - eapply LoopInv_fields; [apply (Hneutral w (fun s => s <| PersistenceWait := true |>)); [done|]|..]; done. }
  assert (LoopInv granted now (on_readiness (on_selection w now sel) now rdy)) as H2.
  { set (w1 := on_selection w now sel) in *. clearbody w1. unfold on_readiness.
    destruct (pw_readiness w1), rdy as [result|]; try done.
    set (w2 := w1 <| pw_state ::= _ |>). assert (LoopInv granted now w2) as HL2.
    { apply Hneutral; [done|]. intros s. by destruct result. }
    by apply (LoopInv_fields granted now w2). }
  set (w2 := on_readiness _ _ _) in *. clearbody w2. unfold on_publication.
  destruct (pw_publication w2) as [request|], pub as [result|]; try done.
  eapply LoopInv_fields; [apply (Hneutral w2 (fun s => publication_done s now request result)); [done|]|..]; try done.
  intros s. unfold publication_done. destruct result; [|done]. destruct (Waiting s now). repeat case_match; done.
Qed.

Lemma on_retirement_spec granted w now found :
  LoopInv granted now w → LoopInv granted now (on_retirement w now found).
Proof.
  intros HL. unfold on_retirement. destruct (pw_retirement w) as [ids|] eqn:Er; [|done].
  destruct found as [[u|e]|]; [|destruct HL; by constructor|done].
  destruct HL as [HP HR HS HB]. constructor; try done. cbn [pw_state upd].
  destruct HP as [? HC]. constructor; try done.
  - by apply (AdmOK_fields now (pw_state w)).
  - change (llen (Outstanding (pw_state w)) + llen (drop (length ids) (RequestRetirements (pw_state w))) ≤ 1000).
    unfold llen in *. rewrite length_drop. lia.
Qed.

Lemma collect_spec granted t w i :
  LoopInv granted t w → t ≤ in_now i → ledger_attempts granted (in_reads i) →
  LoopInv granted (in_now i) (turn_collect w i).
Proof.
  intros HL Ht Hled. unfold turn_collect.
  apply on_retirement_spec, on_others_spec, on_starters_spec, on_reads_spec; [|done].
  apply (LoopInv_fields granted (in_now i) (drain w (in_now i) (in_signals i))); try done. by apply (drain_spec granted t).
Qed.
End Turn.

(** The reservations a turn makes. *)
Fixpoint granted_in `{PoolEnv} (s : PoolState) (now : Time) (ready : list ReadyItem) : list Reservation :=
  match ready with
  | [] => []
  | candidate :: rest =>
      let '(s, can) := CanGrant s now in
      if can then
        let '(s, granted) := Grant s now candidate in
        match granted with Ok r => r :: granted_in s now rest | Err _ => granted_in s now rest end
      else []
  end.

Section Schedule.
Context `{PoolLaws}.
Variable marshal_len : PoolState → Z.
Variable publishStatus : bool.

Lemma refresh_retirements s now : RequestRetirements (refreshWindow s now) = RequestRetirements s.
Proof. unfold refreshWindow. by case_match. Qed.

Lemma Grant_retirements s now item : RequestRetirements (Grant s now item).1 = RequestRetirements s.
Proof.
  unfold Grant, CanGrant. pose proof (refresh_retirements s now) as E. set (s1 := refreshWindow s now) in *. clearbody s1.
  destruct (_ || _); [done|]. destruct (existsb _ _); [done|]. destruct (rs_Probe _); done.
Qed.

Lemma Grant_refused granted t s now item s' e :
  PoolInv granted t s → t ≤ now → Grant s now item = (s', Err e) → PoolInv granted now s'.
Proof.
  intros HI Ht. unfold Grant, CanGrant. destruct (refreshWindow_spec granted t s now HI) as [HI1 _].
  set (s1 := refreshWindow s now) in *. clearbody s1.
  destruct (_ || _); [intros E; injection E as <- _; by apply (PoolInv_later granted t)|].
  destruct (existsb _ _); [intros E; injection E as <- _; by apply (PoolInv_later granted t)|]. by intros.
Qed.

Lemma grant_all_spec granted s now ready :
  PoolInv granted now s →
  let s' := (grant_all s now ready).1.1 in
  PoolInv (granted ++ granted_in s now ready) now s' ∧ RequestRetirements s' = RequestRetirements s.
Proof.
  cbn zeta. revert granted s. induction ready as [|item rest IH]; intros granted s HI; cbn [grant_all granted_in].
  { by rewrite app_nil_r. }
  unfold CanGrant. destruct (refreshWindow_spec granted now s now HI) as [HI1 _].
  pose proof (refresh_retirements s now) as E1. set (s1 := refreshWindow s now) in *. clearbody s1.
  destruct (grantable s1 now); [|by rewrite app_nil_r].
  pose proof (Grant_retirements s1 now item) as E2. destruct (Grant s1 now item) as [s2 [r|e]] eqn:Eg; cbn [fst] in E2.
  - pose proof (Grant_spec granted now s1 now item s2 r HI1 ltac:(lia) Eg) as HI2.
    destruct (IH _ _ HI2) as [HP E3]. destruct (grant_all s2 now rest) as [[s3 remaining] refused]. cbn [fst] in *.
    replace (granted ++ r :: granted_in s2 now rest) with ((granted ++ [r]) ++ granted_in s2 now rest)
      by by rewrite <- app_assoc. split; [done|congruence].
  - pose proof (Grant_refused granted now s1 now item s2 e HI1 ltac:(lia) Eg) as HI2.
    destruct (IH _ _ HI2) as [HP E3]. destruct (grant_all s2 now rest) as [[s3 remaining] refused]. cbn [fst] in *.
    split; [done|congruence].
Qed.

Lemma start_batches_spec running starters batch intents :
  llen starters ≤ 4 → (∀ b, b ∈ starters → 1 ≤ llen b ≤ 16) → llen batch < 16 →
  let r := start_batches running starters batch intents in
  llen r.1 ≤ 4 ∧ (∀ b, b ∈ r.1 → 1 ≤ llen b ≤ 16) ∧ llen r.2 ≤ 16.
Proof.
  cbn zeta. revert starters batch. induction intents as [|r rest IH]; intros starters batch Hn Hb Hl; cbn [start_batches].
  { cbn [fst snd]. split; [done|]. split; [done|]. lia. }
  case_match; [by apply IH|].
  assert (llen (batch ++ [r]) = llen batch + 1) as El by (rewrite llen_app; done).
  destruct (Z.eqb_spec (llen (batch ++ [r])) 16) as [E16|Hne]; [|apply IH; try done; lia].
  destruct (Z.eqb_spec (llen starters) 4) as [E4|Hn4].
  - split; [done|]. split; [done|]. cbn [snd]. lia.
  - apply IH.
    + rewrite llen_app. change (llen [_]) with 1. lia.
    + intros b [Hin| ->%list_elem_of_singleton]%elem_of_app; [by apply Hb|]. lia.
    + done.
Qed.

Lemma schedule_starts_spec granted t w now :
  LoopInv granted t w → LoopInv granted t (schedule_starts w now).1.
Proof.
  intros HL. unfold schedule_starts. case_match; [|done]. pose proof HL as [HP HR HS HB].
  destruct (start_batches_spec (map rs_PermitID (concat (pw_starters w))) (pw_starters w) [] (StartIntents (pw_state w))
    HS HB ltac:(done)) as (H1' & H2' & H3').
  destruct (start_batches _ _ _ _) as [starters batch]. cbn [fst snd] in *.
  constructor; try done; change (pw_starters (w <| pw_starters := ?x |>)) with x; destruct (_ && _) eqn:E; try done; bool_to_prop.
  - rewrite llen_app. change (llen [batch]) with 1. lia.
  - intros b [Hin| ->%list_elem_of_singleton]%elem_of_app; [by apply H2'|]. lia.
Qed.

(** The activities scheduled before the grants keep the state's invariant. *)
Lemma schedule_before_grants granted now w :
  LoopInv granted now w →
  let w1 := (schedule_retirement w now).1 in
  let w2 := (schedule_publication publishStatus w1 now).1 in
  let w3 := (schedule_reads w2 now).1 in
  let w4 := (schedule_readiness w3 now).1 in
  LoopInv granted now w4.
Proof.
  intros HL. cbn zeta.
  set (w1 := (schedule_retirement w now).1). assert (LoopInv granted now w1) as L1.
  { unfold w1, schedule_retirement. destruct (pw_retirement w) eqn:E; [done|]. case_match; [|done].
    destruct HL as [HP HR HS HB]. constructor; try done. cbn. intros ids [= <-]. by exists (drop 128 (RequestRetirements (pw_state w))); rewrite take_drop. }
  clearbody w1. set (w2 := (schedule_publication publishStatus w1 now).1). assert (LoopInv granted now w2) as L2.
  { unfold w2, schedule_publication. destruct (pw_publication w1); [done|]. destruct publishStatus; [|done].
    destruct (Waiting (pw_state w1) now) as [reason next]. destruct (publicationDue _ _ _ _); [|done].
    set (s' := if _ && _ then _ else _).
    assert (LoopInv granted now (w1 <| pw_state := s' |>)) as HLs.
    { unfold s'. destruct (_ && _); (apply (LoopInv_state granted now); [done| |done]); [|apply L1].
      by apply (PoolInv_neutral granted now now (pw_state w1)); [apply L1|..]. }
    by apply (LoopInv_fields granted now (w1 <| pw_state := s' |>)). }
  clearbody w2. set (w3 := (schedule_reads w2 now).1). assert (LoopInv granted now w3) as L3.
  { unfold w3, schedule_reads. destruct (_ && _ && _); destruct (_ && _ && _ && _); by apply (LoopInv_fields granted now w2). }
  clearbody w3. unfold schedule_readiness. case_match; [|done]. by apply (LoopInv_fields granted now w3).
Qed.

Lemma turn_schedule_spec granted now w :
  LoopInv granted now w →
  let before := (schedule_readiness (schedule_reads (schedule_publication publishStatus (schedule_retirement w now).1 now).1 now).1 now).1 in
  LoopInv (granted ++ granted_in (pw_state before) now (pw_ready before)) now (turn_schedule publishStatus w now).1.
Proof.
  intros HL. pose proof (schedule_before_grants granted now w HL) as HB. cbn zeta in *. unfold turn_schedule.
  destruct (schedule_retirement w now) as [w1 c1]. cbn [fst] in *.
  destruct (schedule_publication publishStatus w1 now) as [w2 c2]. cbn [fst] in *.
  destruct (schedule_reads w2 now) as [w3 c3]. cbn [fst] in *.
  destruct (schedule_readiness w3 now) as [w4 c4]. cbn [fst] in *.
  destruct (grant_all_spec granted (pw_state w4) now (pw_ready w4) (li_pool _ _ _ HB)) as [HP ER].
  set (granted' := granted ++ _) in *. unfold schedule_grants.
  destruct (grant_all (pw_state w4) now (pw_ready w4)) as [[s5 remaining] refused]. cbn [fst] in *.
  assert (LoopInv granted' now (w4 <| pw_state := s5 |>)) as L5.
  { destruct HB as [_ HR HS HBt]. constructor; try done. intros ids Hids. change (pw_state (w4 <| pw_state := s5 |>)) with s5.
    rewrite ER. by apply HR. }
  set (w5 := if refused then _ else _). assert (LoopInv granted' now w5) as L5'.
  { unfold w5. destruct refused; by apply (LoopInv_fields granted' now (w4 <| pw_state := s5 |>)). }
  clearbody w5. assert (LoopInv granted' now (schedule_selection w5 now).1) as L6.
  { unfold schedule_selection. destruct (pw_selection w5); [done|]. destruct (pw_ready w5); [|done]. unfold CanGrant.
    assert (LoopInv granted' now (w5 <| pw_state := refreshWindow (pw_state w5) now |>)) as Lr.
    { apply (LoopInv_state granted' now); [done|by apply refreshWindow_spec, L5'|]. by rewrite refresh_retirements. }
    destruct (_ && _); [|done]. by apply (LoopInv_fields granted' now (w5 <| pw_state := refreshWindow (pw_state w5) now |>)). }
  destruct (schedule_selection w5 now) as [w6 c6]. cbn [fst] in *.
  pose proof (schedule_starts_spec granted' now w6 now L6) as L7. by destruct (schedule_starts w6 now).
Qed.

(** The reservations a whole turn makes. *)
Definition turn_grants (w : PoolLoop) (i : TurnInput) : list Reservation :=
  let now := in_now i in
  let w := turn_collect w i in
  if pw_forceContinue w then []
  else
    let before := (schedule_readiness (schedule_reads (schedule_publication publishStatus (schedule_retirement w now).1 now).1 now).1 now).1 in
    granted_in (pw_state before) now (pw_ready before).

Lemma pool_turn_spec granted t w i :
  LoopInv granted t w → t ≤ in_now i → ledger_attempts granted (in_reads i) →
  match pool_turn marshal_len publishStatus w i with
  | TurnWait w' _ _ => LoopInv (granted ++ turn_grants w i) (in_now i) w'
  | TurnContinueAsNew s' => PoolInv granted (in_now i) s' ∧ turn_grants w i = []
  | TurnFailed => ∃ s', PoolInv granted (in_now i) s' ∧ snapshot_accepts marshal_len s' = false
  end.
Proof.
  intros HL Ht Hled. pose proof (collect_spec granted t w i HL Ht Hled) as HC. unfold pool_turn, turn_grants.
  set (w1 := turn_collect w i) in *. clearbody w1.
  destruct (pw_forceContinue w1) eqn:Ef; cbn [andb].
  - destruct (idle w1); [|by rewrite app_nil_r].
    pose proof (drain_spec granted (in_now i) w1 (in_now i) (in_lastSignals i) HC ltac:(lia)) as HD.
    unfold continue_as_new. destruct (snapshot_accepts _ _) eqn:Es; [split; [apply HD|done]|].
    eexists. split; [apply HD|exact Es].
  - pose proof (turn_schedule_spec granted (in_now i) w1 HC) as HS. by destruct (turn_schedule publishStatus w1 (in_now i)).
Qed.
End Schedule.
