(* ===== verification/PoolProperties.v ===== *)
(** * PoolProperties: the guarantees of a pool over its whole life

    A pool lives through many workflow runs: it is created, started, driven by
    turns, and continued as new.  [reach] are the states and loops of such a
    life, for every order of signals, activity results and ledger observations.
    The theorems hold of all of them. *)
From stdpp Require Import relations pretty.
From S2P Require Import Prelude BatchController BatchPool PoolWorkflow PoolInvariant.

Open Scope string_scope.
Open Scope list_scope.
Open Scope Z_scope.

Section Life.
Context `{PoolEnv}.
Variable marshal_len : PoolState → Z.
Variable publishStatus : bool.

(** The state that a pool starts from when it takes over from a dispatcher: its
    controller, and a sequence that goes on. *)
Definition adopted_state (pool : string) (generation : Z) (c : Controller) (sequence : Z) (after : string) : PoolState :=
  (NewPoolState pool generation (ctl_Policy c)) <| pool_Controller := c |> <| Sequence := sequence |>
    <| WindowAnchored := negb (IsZero (WindowStart c)) |> <| AfterScope := after |>.

(** A pool between two runs ([inl]) or inside one ([inr]), with the
    reservations it has made and its clock. *)
Inductive reach : list Reservation → Time → PoolState + PoolLoop → Prop :=
| reach_new pool generation policy t :
    policy_Validate policy = Ok tt → 0 ≤ t → reach [] t (inl (NewPoolState pool generation policy))
| reach_adopted pool generation c sequence after t :
    ControllerOK c → Probing c = false → Epoch c ≤ t → 0 ≤ sequence → 0 ≤ t →
    reach [] t (inl (adopted_state pool generation c sequence after))
| reach_start granted t s v now w :
    reach granted t (inl s) → t ≤ now → pool_start marshal_len v s now = Some w → reach granted now (inr w)
| reach_init granted t w now sg suggested initialized w' :
    reach granted t (inr w) → t ≤ now →
    init_turn marshal_len w now sg suggested initialized = inl w' → reach granted now (inr w')
| reach_init_continue granted t w now sg suggested initialized s :
    reach granted t (inr w) → t ≤ now →
    init_turn marshal_len w now sg suggested initialized = inr (TurnContinueAsNew s) → reach granted now (inl s)
| reach_turn granted t w i w' commands delay :
    reach granted t (inr w) → t ≤ in_now i → ledger_attempts granted (in_reads i) →
    pool_turn marshal_len publishStatus w i = TurnWait w' commands delay →
    reach (granted ++ turn_grants publishStatus w i) (in_now i) (inr w')
| reach_continue granted t w i s :
    reach granted t (inr w) → t ≤ in_now i → ledger_attempts granted (in_reads i) →
    pool_turn marshal_len publishStatus w i = TurnContinueAsNew s → reach granted (in_now i) (inl s).
End Life.

Definition state_of (x : PoolState + PoolLoop) : PoolState := match x with inl s => s | inr w => pw_state w end.

Section LifeProofs.
Context `{PoolLaws}.
Variable marshal_len : PoolState → Z.
Variable publishStatus : bool.

Lemma NewPoolState_inv pool generation policy t :
  policy_Validate policy = Ok tt → 0 ≤ t → PoolInv [] t (NewPoolState pool generation policy).
Proof.
  intros HP%admission_policy_iff Ht. constructor; try done; try (by intros ? ?%not_elem_of_nil); try (constructor; done).
  constructor; try done. by apply NewController_ok.
Qed.

Lemma adopted_inv pool generation c sequence after t :
  ControllerOK c → Probing c = false → Epoch c ≤ t → 0 ≤ sequence → PoolInv [] t (adopted_state pool generation c sequence after).
Proof.
  intros HC Hp He Hs. constructor; try done; try (by intros ? ?%not_elem_of_nil); try (constructor; done).
  constructor; try done. change (Probing c = true ↔ "" ≠ ""). rewrite Hp. by split.
Qed.

Lemma upgrade_spec granted t s v : PoolInv granted t s → PoolInv granted t (upgrade v s).
Proof.
  intros HI. apply (PoolInv_admission granted t t s); try done.
  - unfold upgrade. by repeat case_match.
  - pose proof (pi_limit _ _ _ HI). unfold upgrade. repeat case_match; cbn; done || lia.
  - pose proof (pi_adm _ _ _ HI) as [HC Hv Hp Hpr He Hcl].
    assert (∀ s', pool_Controller s' = pool_Controller s → ProbeID s' = ProbeID s → ProbeClaimAt s' = ProbeClaimAt s →
      RecoveryPadding s' = RecoveryPadding s → (RecoveryJitterVersion s' = RecoveryJitterVersion s ∨ RecoveryJitterVersion s' = 1) →
      AdmOK t s') as Hgo.
    { intros s' E1 E2 E3 E4 E5. constructor; rewrite ?E1, ?E2, ?E3; try done.
      - destruct E5 as [->| ->]; [done|lia].
      - unfold PadOK, pad_ok in *. rewrite E1, E4. destruct (RecoveryPadding s); [|done].
        destruct E5 as [->| ->]; [done|]. destruct Hp as (_ & ?). by split. }
    apply Hgo; unfold upgrade; repeat case_match; auto.
  - left. unfold upgrade. by repeat case_match.
  - intros r. by eapply granted_nonempty.
Qed.

Lemma reach_inv granted t x :
  reach marshal_len publishStatus granted t x →
  match x with inl s => PoolInv granted t s | inr w => LoopInv granted t w end.
Proof.
  induction 1 as [pool gen policy t HP Ht|pool gen c sequence after t HC Hp He Hs _|granted t s v now w HR IH Ht Hs|granted t w now sg sug ini w' HR IH Ht Hi
    |granted t w now sg sug ini s HR IH Ht Hi|granted t w i w' cmds delay HR IH Ht Hl Hp|granted t w i s HR IH Ht Hl Hp].
  - by apply NewPoolState_inv.
  - by apply adopted_inv.
  - unfold pool_start in Hs. repeat case_match; try done. injection Hs as <-.
    constructor; try done; [|intros b Hb; by apply not_elem_of_nil in Hb].
    apply (PoolInv_later granted t); [by apply upgrade_spec|done].
  - unfold init_turn in Hi. pose proof (drain_spec granted t w now sg IH Ht) as HD.
    case_match; [done|]. injection Hi as <-.
    apply (LoopInv_state granted now); [done|apply PoolInv_persistence, HD|done].
  - unfold init_turn in Hi. pose proof (drain_spec granted t w now sg IH Ht) as HD.
    case_match; [|done]. unfold continue_as_new in Hi. case_match; [|done]. injection Hi as <-. apply HD.
  - pose proof (pool_turn_spec marshal_len publishStatus granted t w i IH Ht Hl) as HT. by rewrite Hp in HT.
  - pose proof (pool_turn_spec marshal_len publishStatus granted t w i IH Ht Hl) as HT. rewrite Hp in HT. apply HT.
Qed.

Lemma reach_state_inv granted t x :
  reach marshal_len publishStatus granted t x → PoolInv granted t (state_of x).
Proof. intros HR. pose proof (reach_inv _ _ _ HR) as HI. destruct x; [done|apply HI]. Qed.

Lemma snapshot_by_size granted t s :
  PoolInv granted t s → snapshot_accepts marshal_len s = (marshal_len s <? maximumPoolSnapshot).
Proof.
  intros HI. unfold snapshot_accepts, maximumStartIntents.
  rewrite (PadOK_valid s); [|apply HI..]. pose proof (pi_limit _ _ _ HI). pose proof (pi_intents _ _ _ HI).
  pose proof (pi_capacity _ _ _ HI).
  rewrite (proj2 (Z.ltb_ge (PendingClaimLimit s) 0)), (proj2 (Z.ltb_ge 64 (PendingClaimLimit s))),
    (proj2 (Z.ltb_ge 64 (llen (StartIntents s)))), (proj2 (Z.ltb_ge 1000 _)) by lia.
  cbn. by rewrite !andb_true_r.
Qed.
End LifeProofs.

(** ** Properties *)

(** C7: over the whole life of a pool, whatever the order of grants, ledger
    reads, signals and rollovers, capacity is bounded and consistent: at most
    1000 permits are outstanding or waiting for retirement and at most 64 starts
    are pending; permit identifiers never repeat, every pending start belongs to
    an outstanding permit, and a running pool keeps at most four start batches
    of at most sixteen reservations in flight. *)
Theorem pool_capacity_bounded `{PoolLaws} marshal_len publishStatus granted t x :
  reach marshal_len publishStatus granted t x →
  let s := state_of x in
  llen (Outstanding s) + llen (RequestRetirements s) ≤ 1000 ∧ llen (StartIntents s) ≤ 64
  ∧ NoDup (map pp_ID (Outstanding s))
  ∧ (∀ id, id ∈ map rs_PermitID (StartIntents s) → id ∈ map pp_ID (Outstanding s))
  ∧ match x with
    | inl _ => True
    | inr w => llen (pw_starters w) ≤ 4 ∧ (∀ b, b ∈ pw_starters w → 1 ≤ llen b ≤ 16)
    end.
Proof.
  intros HR. cbn zeta. pose proof (reach_state_inv _ _ _ _ _ HR) as HI. pose proof (reach_inv _ _ _ _ _ HR) as HL.
  do 4 (split; [apply HI|]). destruct x; [done|]. split; apply HL.
Qed.

(** A rollover never strands a pool on its own invariants: the only
    reachable states a snapshot refuses are those whose JSON text is too large.
    In particular the padded recovery deadline is always valid. *)
Theorem pool_snapshot_refused_only_for_size `{PoolLaws} marshal_len publishStatus granted t x :
  reach marshal_len publishStatus granted t x →
  validRecoveryPadding (state_of x) = true
  ∧ snapshot_accepts marshal_len (state_of x) = (marshal_len (state_of x) <? maximumPoolSnapshot).
Proof.
  intros HR. pose proof (reach_state_inv _ _ _ _ _ HR) as HI.
  split; [apply PadOK_valid; apply HI|]. by eapply snapshot_by_size.
Qed.

Section Observations.
Context `{PoolLaws}.

Lemma find_permit_lookup granted t s i p :
  PoolInv granted t s → Outstanding s !! i = Some p → find_permit (pp_ID p) (Outstanding s) = Some i.
Proof.
  intros HI Hi. destruct (find_permit (pp_ID p) (Outstanding s)) as [j|] eqn:E.
  - apply find_permit_spec in E as (q & Hq & Eq). f_equal. by eapply unique_slot.
  - assert (pp_ID p ∈ map pp_ID (Outstanding s)) as Hin
      by (apply elem_of_map; exists p; split; [done|by eapply list_elem_of_lookup_2]).
    exfalso. clear HI Hi. revert E Hin. induction (Outstanding s) as [|q l IH]; cbn [find_permit map].
    + intros _ Hn. by apply not_elem_of_nil in Hn.
    + destruct (String.eqb_spec (pp_ID q) (pp_ID p)) as [Eq|Hne]; [done|].
      destruct (find_permit (pp_ID p) l); [done|]. intros _ [E|Hin]%elem_of_cons; [by destruct Hne|]. by apply IH.
Qed.

(** A settlement the ledger reports for an outstanding permit. *)
Definition settles_permit (s : PoolState) (a : Attempt) (p : PoolPermit) : Prop :=
  rs_PermitID (a_Reservation a) = pp_ID p ∧ rs_PoolID (a_Reservation a) = PoolID s
  ∧ rs_Generation (a_Reservation a) = Generation s ∧ a_State a = "settled" ∧ is_Some (a_Observation a)
  ∧ 1 ≤ a_SettlementRevision a ∧ pp_Revision p < a_SettlementRevision a.

Lemma observe_claim_slot s now a i slot :
  Outstanding s !! i = Some slot →
  ∃ slot', Outstanding (observe_claim s now a i slot).1 !! i = Some slot' ∧ pp_Revision slot' = pp_Revision slot
    ∧ pp_ID slot' = pp_ID slot ∧ pp_Applied slot' = pp_Applied slot.
Proof.
  intros Hi. unfold observe_claim. destruct (_ && negb (pp_Claimed slot)).
  - exists (slot <| pp_Claimed := true |>). split; [|done]. destruct (_ && IsZero _), (_ && negb (WindowAnchored _)); cbn;
      apply list_lookup_insert_eq; by eapply lookup_lt_Some.
  - exists slot. split; [|done]. by destruct (_ && IsZero _), (_ && negb (WindowAnchored _)).
Qed.

(** Observing a settlement is [observe_settlement] after the claim's effects. *)
Lemma Observe_settles granted t s now a i p :
  PoolInv granted t s → t ≤ now → a_Reservation a ∈ granted → Outstanding s !! i = Some p → settles_permit s a p →
  let s' := (Observe s now a).1 in
  (Observe s now a).2 = true ∧ PoolInv granted now s' ∧ ProbeID s' ≠ pp_ID p
  ∧ (ProbeID s' = ProbeID s ∨ ProbeID s' = "")
  ∧ (is_Some (a_StoppedAt a) → find_permit (pp_ID p) (Outstanding s') = None).
Proof.
  intros HI Ht Hg Hi (Eid & Ep & Egen & Est & [o Eo] & Hr1 & Hr2). cbn zeta. unfold Observe.
  rewrite Eid, (find_permit_lookup granted t s i p HI Hi), Ep, Egen, String.eqb_refl, Z.eqb_refl, Hi. cbn [negb orb].
  set (pr := match a_ClaimedAt a with Some _ => observe_claim s now a i p | None => (s, false) end).
  assert (PoolInv granted now pr.1 ∧ ∃ slot', Outstanding pr.1 !! i = Some slot' ∧ pp_Revision slot' = pp_Revision p
    ∧ pp_ID slot' = pp_ID p ∧ ProbeID pr.1 = ProbeID s) as (HI1 & slot' & Hi1 & Er1 & Eid1 & Epr).
  { unfold pr. destruct (a_ClaimedAt a).
    - destruct (observe_claim_spec granted t s now a i p HI Ht Hi) as (? & ? & _ & _ & _ & _ & _ & Eprobe).
      split; [done|]. destruct (observe_claim_slot s now a i p Hi) as (q & ? & ? & ? & _). by exists q.
    - split; [by eapply PoolInv_later|by exists p]. }
  destruct pr as [s1 ch]. cbn [fst] in *. rewrite Eo, Hi1, Est. cbn [String.eqb Ascii.eqb Bool.eqb negb orb].
  rewrite (proj2 (Z.ltb_ge (a_SettlementRevision a) 1)), (proj2 (Z.leb_gt _ (pp_Revision slot'))) by lia. cbn [orb fst snd].
  split; [done|].
  destruct (observe_settlement_spec granted now s1 now a (ob_Outcome o) i slot' HI1 ltac:(lia) Hi1 Hg ltac:(congruence))
    as (HI2 & Hpr & Hor & Hgone).
  rewrite Eid1, Epr in *. split; [done|]. split; [done|]. split; [done|]. intros Hs. by apply find_permit_none, Hgone.
Qed.
End Observations.

(** C9: a recovery probe never deadlocks the pool: while a pool is probing, and
    so grants nothing, the probe's permit is outstanding and its outcome not yet
    applied, and the first settlement the ledger reports for it ends the probe. *)
Theorem pool_probe_is_live `{PoolLaws} marshal_len publishStatus granted t x now a :
  reach marshal_len publishStatus granted t x → t ≤ now → a_Reservation a ∈ granted →
  Probing (pool_Controller (state_of x)) = true →
  ∃ p, p ∈ Outstanding (state_of x) ∧ pp_ID p = ProbeID (state_of x) ∧ pp_Applied p = false
    ∧ (settles_permit (state_of x) a p → Probing (pool_Controller (Observe (state_of x) now a).1) = false).
Proof.
  intros HR Ht Hg Hp. pose proof (reach_state_inv _ _ _ _ _ HR) as HI. set (s := state_of x) in *. clearbody s.
  pose proof (proj1 (ao_probe _ _ (pi_adm _ _ _ HI)) Hp) as Hn.
  destruct (pi_live _ _ _ HI Hn) as (p & Hin & Ep & Ha). exists p. do 3 (split; [done|]). intros Hs.
  apply list_elem_of_lookup in Hin as [i Hi].
  destruct (Observe_settles granted t s now a i p HI Ht Hg Hi Hs) as (_ & HI' & Hne & Hor & _).
  destruct (Probing (pool_Controller (Observe s now a).1)) eqn:E; [|done].
  apply (ao_probe _ _ (pi_adm _ _ _ HI')) in E. destruct Hor as [Hor|Hor]; [|done]. by rewrite Hor, Ep in Hne.
Qed.

Section Outcomes.
Context `{PoolLaws}.

(** What an outcome may change: the pacer, the episode, the probe, the block on
    dispatching and the recovery deadline.  [kept] says that all of it was left alone; the
    claim of an attempt may still have anchored the window. *)
Record kept (s s' : PoolState) : Prop := {
  kp_controller : ∃ start epoch, pool_Controller s' = (pool_Controller s) <| WindowStart := start |> <| Epoch := epoch |>;
  kp_anchored : WindowAnchored s = true → pool_Controller s' = pool_Controller s;
  kp_episode : Episode s' = Episode s;
  kp_probe : ProbeID s' = ProbeID s;
  kp_dispatch : DispatchNeedsReady s' = DispatchNeedsReady s ∧ DispatchBlockedUntil s' = DispatchBlockedUntil s;
  kp_padding : RecoveryPadding s' = RecoveryPadding s;
}.

Lemma kept_same s s' : pool_Controller s' = pool_Controller s → Episode s' = Episode s → ProbeID s' = ProbeID s →
  DispatchNeedsReady s' = DispatchNeedsReady s → DispatchBlockedUntil s' = DispatchBlockedUntil s → RecoveryPadding s' = RecoveryPadding s → kept s s'.
Proof. intros E ?????. split; try done. rewrite E. by exists (WindowStart (pool_Controller s)), (Epoch (pool_Controller s)). Qed.

Lemma observe_claim_kept s now a i slot : kept s (observe_claim s now a i slot).1.
Proof.
  unfold observe_claim. set (s1 := if (0 <? _) && _ then _ else s). assert (kept s s1 ∧ pool_Controller s1 = pool_Controller s ∧ WindowAnchored s1 = WindowAnchored s) as (K & Ec & Ea).
  { unfold s1. destruct (_ && _); split; try done; by apply kept_same. }
  clearbody s1. set (s2 := if _ && IsZero _ then _ else _).
  assert (kept s s2 ∧ pool_Controller s2 = pool_Controller s ∧ WindowAnchored s2 = WindowAnchored s) as (K2 & Ec2 & Ea2).
  { destruct K as [K1 K2 K3 K4 [K5 K5'] K6]. unfold s2. destruct (_ && IsZero _); (split; [by apply kept_same|done]). }
  clearbody s2. destruct (_ && negb (WindowAnchored s2)) eqn:E; [|done]. apply andb_true_iff in E as [_ E%negb_true_iff].
  destruct K2 as [_ _ K3 K4 K5 K6]. split; [|intros Ha; congruence|done..]. rewrite <- Ec2.
  set (c := (pool_Controller s2) <| WindowStart := now |>). change (∃ start epoch, (if negb (Cooling c) then c <| Epoch := now |> else c)
    = (pool_Controller s2) <| WindowStart := start |> <| Epoch := epoch |>).
  exists now. destruct (negb (Cooling c)); [by exists now|by exists (Epoch c)].
Qed.

(** A permit whose outcome was applied before: the slot is all that changes. *)
Lemma Observe_applied granted t s now a i p :
  PoolInv granted t s → Outstanding s !! i = Some p → rs_PermitID (a_Reservation a) = pp_ID p → pp_Applied p = true →
  kept s (Observe s now a).1 ∧ (pp_ID p ∈ map pp_ID (Outstanding (Observe s now a).1) ∨ is_Some (a_StoppedAt a)).
Proof.
  intros HI Hi Eid Hp. assert (pp_ID p ∈ map pp_ID (Outstanding s)) as Hin by (apply elem_of_map; exists p; split; [done|by eapply list_elem_of_lookup_2]).
  unfold Observe. rewrite Eid, (find_permit_lookup granted t s i p HI Hi). destruct (_ || _); [by split; [apply kept_same|left]|]. rewrite Hi.
  set (pr := match a_ClaimedAt a with Some _ => _ | None => _ end).
  assert (kept s pr.1 ∧ ∃ slot', Outstanding pr.1 !! i = Some slot' ∧ pp_ID slot' = pp_ID p ∧ pp_Applied slot' = true) as (K & q & Hq & Eq & Aq).
  { unfold pr. destruct (a_ClaimedAt a).
    - split; [apply observe_claim_kept|]. destruct (observe_claim_slot s now a i p Hi) as (q & ? & ? & ? & ?). exists q. split_and!; congruence.
    - split; [by apply kept_same|]. by exists p. }
  destruct pr as [s1 ch]. cbn [fst] in *. rewrite Hq.
  assert (pp_ID p ∈ map pp_ID (Outstanding s1)) as Hin1 by (apply elem_of_map; exists q; split; [done|by eapply list_elem_of_lookup_2]).
  destruct (a_Observation a) as [o|]; [|by split; [|left]]. destruct (negb _ || _ || _); [by split; [|left]|]. cbn [fst].
  unfold observe_settlement. rewrite Aq. cbn [negb]. destruct (a_StoppedAt a).
  - split; [|by right]. destruct K as [K1 K2 K3 K4 K5 K6]. destruct (String.eqb _ _); by split.
  - split; [destruct K as [K1 K2 K3 K4 K5 K6]; by split|]. left. apply elem_of_map. exists (q <| pp_Applied := true |> <| pp_Revision := a_SettlementRevision a |> <| pp_AwaitingStop := true |>).
    split; [symmetry; exact Eq|]. eapply list_elem_of_lookup_2.
    cbn. apply list_lookup_insert_eq. by eapply lookup_lt_Some.
Qed.

(** The two outcomes that stop admission. *)
Lemma CompleteOutcome_paused c now dispatched reserved probe out :
  out_Kind out = "policy" → out_Admission out ≠ "throttled" → Paused (CompleteOutcome c now dispatched reserved probe out) = true.
Proof.
  intros Ek Ea. unfold CompleteOutcome. rewrite Ek. assert ((if String.eqb (out_Admission out) "restricted" then "policy"
    else if String.eqb (out_Admission out) "throttled" && negb (String.eqb "policy" "rejected") then "terminal_throttle" else "policy") = "policy") as ->.
  { destruct (String.eqb _ _); [done|]. by rewrite (proj2 (String.eqb_neq _ _) Ea). }
  unfold Complete, complete_kind. cbn. destruct (_ && _); [|done]. unfold Throttle. cbn. repeat (case_match; cbn; try done).
Qed.

Lemma Throttle_cools c now delay : Cooling (Throttle c now delay) = true.
Proof. unfold Throttle. cbn zeta. destruct (After _ _); done. Qed.
Lemma completeThrottle_cools c now dispatched probe delay :
  (Before dispatched (Epoch c) = true → Cooling c = true) → Cooling (completeThrottle c now dispatched probe delay) = true.
Proof. intros Hc. unfold completeThrottle. destruct (Before _ _); [by apply Hc|]. destruct probe; apply Throttle_cools. Qed.

Lemma CompleteOutcome_cools c now dispatched reserved probe out :
  out_Kind out = "rejected" → out_Admission out ≠ "restricted" → (Before dispatched (Epoch c) = true → Cooling c = true) →
  Cooling (CompleteOutcome c now dispatched reserved probe out) = true.
Proof.
  intros Ek Ea Hc. unfold CompleteOutcome. rewrite Ek, (proj2 (String.eqb_neq _ _) Ea), andb_false_r. unfold Complete, complete_kind. cbn.
  assert (∀ d, Cooling (if probe && Probing d && true && false then Throttle d now 0 else d) = Cooling d) as E by (intros d; by rewrite andb_false_r).
  rewrite andb_false_r. apply completeThrottle_cools. destruct (_ && _ && _); done.
Qed.

Lemma applyOutcome_outstanding s now a out : Outstanding (applyOutcome s now a out) = Outstanding s.
Proof. unfold applyOutcome, apply_never_dispatched, padRecoveryFloor. repeat (case_match; cbn; try done). Qed.

Lemma padRecoveryFloor_stops s previous :
  Paused (pool_Controller (padRecoveryFloor s previous)) = Paused (pool_Controller s) ∧ Cooling (pool_Controller (padRecoveryFloor s previous)) = Cooling (pool_Controller s).
Proof. unfold padRecoveryFloor. repeat (case_match; try done). Qed.

(** The end of [applyOutcome] keeps what the pacer decided. *)
Lemma outcome_end s c (b : bool) (probe : bool) previous :
  let s1 := s <| pool_Controller := c |> in
  let s2 := if b then s1 <| Episode ::= fun n => n + 1 |> else s1 in
  let s3 := padRecoveryFloor s2 previous in
  let s4 := if probe && negb (Probing (pool_Controller s3)) then s3 <| ProbeID := "" |> else s3 in
  Paused (pool_Controller s4) = Paused c ∧ Cooling (pool_Controller s4) = Cooling c.
Proof.
  intros s1 s2 s3 s4. assert (pool_Controller s2 = c) as E by (unfold s2; by destruct b).
  destruct (padRecoveryFloor_stops s2 previous) as [H1 H2]. fold s3 in H1, H2. rewrite E in H1, H2.
  assert (pool_Controller s4 = pool_Controller s3) as -> by (unfold s4; by destruct (probe && _)). done.
Qed.

(** A permit of the pool that an account was refused, or that the provider turned away. *)
Definition stops_admission (s : PoolState) (a : Attempt) (o : AttemptObservation) (s' : PoolState) : Prop :=
  (out_Kind (ob_Outcome o) = "policy" → out_Admission (ob_Outcome o) ≠ "throttled" → Paused (pool_Controller s') = true)
  ∧ (out_Kind (ob_Outcome o) = "rejected" → out_Admission (ob_Outcome o) ≠ "restricted" →
     (Episode s ≤ rs_Epoch (a_Reservation a) ∨ Cooling (pool_Controller s) = true) → Cooling (pool_Controller s') = true).

Lemma applyOutcome_stops s now a o :
  (rs_PermitID (a_Reservation a) = ProbeID s → Cooling (pool_Controller s) = true) →
  stops_admission s a o (applyOutcome s now a (ob_Outcome o)).
Proof.
  intros Hprobe. set (out := ob_Outcome o). unfold stops_admission, applyOutcome. fold out. set (r := a_Reservation a) in *. set (probe := rs_Probe r && _). split.
  - intros Ek Ea. rewrite Ek. cbn [String.eqb Ascii.eqb Bool.eqb andb orb negb]. rewrite ?andb_false_r, ?andb_true_r. cbn [negb orb andb].
    etrans; [exact (proj1 (outcome_end s _ _ probe _))|]. by apply CompleteOutcome_paused.
  - intros Ek Ea Hep. rewrite Ek. cbn [String.eqb Ascii.eqb Bool.eqb andb orb negb]. rewrite (proj2 (String.eqb_neq _ _) Ea). cbn [negb andb].
    assert ((rs_Epoch r <? Episode s) && negb (Cooling (pool_Controller s)) = false) as ->
      by (destruct Hep as [He| ->]; [by rewrite (proj2 (Z.ltb_ge _ _) He)|apply andb_false_r]).
    rewrite ?andb_false_r.
    assert (∀ reserved, Cooling (CompleteOutcome (pool_Controller s) now (if probe && negb (IsZero (ProbeClaimAt s)) then ProbeClaimAt s else Epoch (pool_Controller s)) reserved probe out) = true) as Hc.
    { intros reserved. apply CompleteOutcome_cools; [done..|]. destruct (probe && negb _) eqn:E.
      - intros _. apply Hprobe. apply andb_true_iff in E as [E _]. unfold probe in E. by apply andb_true_iff in E as [_ E%String.eqb_eq].
      - unfold Before. by rewrite Z.ltb_irrefl. }
    etrans; [exact (proj2 (outcome_end s _ _ probe _))|]. apply Hc.
Qed.

(** The first settlement of a permit. *)
Lemma Observe_first granted t s now a o i p :
  PoolInv granted t s → t ≤ now → a_Reservation a ∈ granted → Outstanding s !! i = Some p → settles_permit s a p → a_Observation a = Some o → pp_Applied p = false →
  let s' := (Observe s now a).1 in
  stops_admission s a o s'
  ∧ (a_StoppedAt a = None → ∃ q, q ∈ Outstanding s' ∧ pp_ID q = pp_ID p ∧ pp_Applied q = true ∧ pp_AwaitingStop q = true ∧ pp_Revision q = a_SettlementRevision a).
Proof.
  intros HI Ht Hg Hi (Eid & Ep & Egen & Est & _ & Hr1 & Hr2) Eo Ha. cbn zeta. unfold Observe.
  rewrite Eid, (find_permit_lookup granted t s i p HI Hi), Ep, Egen, String.eqb_refl, Z.eqb_refl, Hi. cbn [negb orb].
  set (pr := match a_ClaimedAt a with Some _ => observe_claim s now a i p | None => (s, false) end).
  assert (PoolInv granted now pr.1 ∧ kept s pr.1 ∧ ∃ slot', Outstanding pr.1 !! i = Some slot' ∧ pp_Revision slot' = pp_Revision p
    ∧ pp_ID slot' = pp_ID p ∧ pp_Applied slot' = false) as (HI1 & K & q & Hq & Er & Eq & Aq).
  { unfold pr. destruct (a_ClaimedAt a).
    - destruct (observe_claim_spec granted t s now a i p HI Ht Hi) as (? & _). split; [done|]. split; [apply observe_claim_kept|].
      destruct (observe_claim_slot s now a i p Hi) as (q & ? & ? & ? & ?). exists q. split_and!; congruence.
    - split; [by eapply PoolInv_later|]. split; [by apply kept_same|]. by exists p. }
  destruct pr as [s1 ch]. cbn [fst] in *. rewrite Eo, Hq, Est. cbn [String.eqb Ascii.eqb Bool.eqb negb orb].
  rewrite (proj2 (Z.ltb_ge (a_SettlementRevision a) 1)), (proj2 (Z.leb_gt _ (pp_Revision q))) by lia. cbn [orb fst snd].
  unfold observe_settlement. rewrite Aq. cbn [negb]. set (s2 := dropIntent s1 _).
  assert (stops_admission s a o (applyOutcome s2 now a (ob_Outcome o))) as HS.
  { destruct K as [(w & e & Kc) _ Ke _ _ _]. destruct (applyOutcome_stops s2 now a o) as [H1 H2].
    - intros Epr. apply (co_probe _ (ao_ctl _ _ (pi_adm _ _ _ HI1))). apply (ao_probe _ _ (pi_adm _ _ _ HI1)). change (ProbeID s2) with (ProbeID s1) in Epr.
      rewrite <- Epr. by eapply granted_nonempty.
    - split; [exact H1|]. intros Hk Hna He. apply H2; [done..|]. change (Episode s2) with (Episode s1). change (pool_Controller s2) with (pool_Controller s1).
      rewrite Ke, Kc. exact He. }
  split.
  - destruct HS as [H1 H2]. destruct (a_StoppedAt a); [destruct (String.eqb _ _)|]; (split; [exact H1|exact H2]).
  - intros ->. eexists. split; [eapply list_elem_of_lookup_2; cbn; apply list_lookup_insert_eq|].
    + eapply lookup_lt_Some. rewrite (applyOutcome_outstanding s2 now a (ob_Outcome o)). exact Hq.
    + done.
Qed.

End Outcomes.

(** C8: The outcome of an attempt counts once. The first settlement that the ledger reports
    of an outstanding permit is applied: a policy outcome that is no throttling pauses the
    pool, and a rejection that is no restriction, of the current episode or while the pool
    cools, leaves it cooling. While the call has not stopped the permit stays outstanding and
    is marked, and no further report of it moves the pacer (apart from the start of a window
    that was not anchored yet), the episode, the probe, the block on dispatching or the
    recovery deadline again. When the call has settled and stopped the permit is freed, and
    any later report of it changes nothing. *)
Theorem pool_settles_once `{PoolLaws} marshal_len publishStatus granted t x now a o p :
  reach marshal_len publishStatus granted t x → t ≤ now → a_Reservation a ∈ granted →
  p ∈ Outstanding (state_of x) → rs_PermitID (a_Reservation a) = pp_ID p → a_Observation a = Some o →
  let s := state_of x in
  let s' := (Observe s now a).1 in
  (settles_permit s a p → pp_Applied p = false →
     stops_admission s a o s'
     ∧ (a_StoppedAt a = None → ∃ q, q ∈ Outstanding s' ∧ pp_ID q = pp_ID p ∧ pp_Applied q = true ∧ pp_AwaitingStop q = true ∧ pp_Revision q = a_SettlementRevision a))
  ∧ (pp_Applied p = true → kept s s')
  ∧ (settles_permit s a p → is_Some (a_StoppedAt a) →
     (Observe s now a).2 = true ∧ (pp_ID p ∉ map pp_ID (Outstanding s'))
     ∧ (∀ now' a', rs_PermitID (a_Reservation a') = pp_ID p → Observe s' now' a' = (s', false))).
Proof.
  intros HR Ht Hg Hin Eid Eo. cbn zeta. pose proof (reach_state_inv _ _ _ _ _ HR) as HI. set (s := state_of x) in *. clearbody s.
  apply list_elem_of_lookup in Hin as [i Hi]. split; [intros Hs Ha; by apply (Observe_first granted t s now a o i p)|].
  split; [intros Ha; by apply (Observe_applied granted t s now a i p)|]. intros Hs Hstop.
  destruct (Observe_settles granted t s now a i p HI Ht Hg Hi Hs) as (Hch & HI' & _ & _ & Hgone).
  specialize (Hgone Hstop). split; [done|]. set (s' := (Observe s now a).1) in *. split.
  - intros (q & Eq & Hq)%elem_of_map. apply list_elem_of_lookup in Hq as [j Hj].
    pose proof (find_permit_lookup _ _ _ _ _ HI' Hj) as Hf.
    assert (pp_ID p = pp_ID q) as Eq' by exact Eq. rewrite <- Eq' in Hf. congruence.
  - intros now' a' Ea. unfold Observe. by rewrite Ea, Hgone.
Qed.

Lemma reach_clock `{PoolEnv} marshal_len publishStatus granted t x :
  reach marshal_len publishStatus granted t x → 0 ≤ t.
Proof. induction 1; lia. Qed.

Lemma refreshWindow_facts s now :
  let s1 := refreshWindow s now in
  Outstanding s1 = Outstanding s ∧ Quiescing s1 = Quiescing s ∧ PersistenceWait s1 = PersistenceWait s
  ∧ ctl_Policy (pool_Controller s1) = ctl_Policy (pool_Controller s)
  ∧ Cooling (pool_Controller s1) = Cooling (pool_Controller s) ∧ Probing (pool_Controller s1) = Probing (pool_Controller s)
  ∧ Paused (pool_Controller s1) = Paused (pool_Controller s)
  ∧ NextEligible (pool_Controller s1) = NextEligible (pool_Controller s)
  ∧ (WindowAnchored s1 = true → 0 < WindowRequests (ctl_Policy (pool_Controller s1)) →
     now < WindowStart (pool_Controller s1) + WindowDuration (ctl_Policy (pool_Controller s1))).
Proof.
  cbn zeta. unfold refreshWindow, Before, Add.
  destruct (WindowAnchored s) eqn:Ea; cbn [andb].
  - destruct (_ && _) eqn:E.
    + repeat split; try done; cbn; unfold window_reset; by case_match.
    + repeat split; try done. intros _ Hw. rewrite (proj2 (Z.ltb_lt _ _) Hw) in E. cbn in E. by bool_to_prop.
  - repeat split; try done. by rewrite Ea.
Qed.

(** The admission window is not full when a grant outside a cooldown passes. *)
Lemma grantable_window s now :
  0 ≤ now → grantable s now = true → Cooling (pool_Controller s) = false →
  (WindowAnchored s = true → 0 < WindowRequests (ctl_Policy (pool_Controller s)) →
   now < WindowStart (pool_Controller s) + WindowDuration (ctl_Policy (pool_Controller s))) →
  0 < WindowRequests (ctl_Policy (pool_Controller s)) →
  WindowStarts (pool_Controller s) < WindowRequests (ctl_Policy (pool_Controller s)).
Proof.
  intros Hnow Hg Hc Ha Hw. unfold grantable in Hg. destruct (_ || _); [done|]. rewrite Hc in Hg. cbn [negb andb] in Hg.
  destruct (WindowAnchored s) eqn:Ea; cbn [negb andb] in Hg.
  - specialize (Ha eq_refl Hw). unfold CanStart, WindowWait, IsZero, Before, Add, time_zero in Hg. rewrite Hc in Hg.
    destruct (_ || _ || _); [done|]. rewrite (proj2 (Z.ltb_lt _ _) Hw), (proj2 (Z.ltb_lt _ _) Ha), andb_true_r in Hg. cbn [andb] in Hg.
    destruct (Z.leb_spec (WindowRequests (ctl_Policy (pool_Controller s))) (WindowStarts (pool_Controller s))); [|lia].
    rewrite (proj2 (Z.eqb_neq _ 0)) in Hg by lia. done.
  - rewrite (proj2 (Z.ltb_lt _ _) Hw) in Hg. cbn [andb] in Hg.
    destruct (Z.leb_spec (WindowRequests (ctl_Policy (pool_Controller s))) (WindowStarts (pool_Controller s))); [done|lia].
Qed.

(** What a grant promises: it happens only when the pool is neither paused,
    probing, quiescing nor waiting for its ledger and has fewer permits
    outstanding than its concurrency; during a cooldown it happens only after the
    recovery deadline and becomes the one probe; outside a cooldown it fits the
    admission window; and its reservation is given at most five seconds to start,
    before its deadline, with a budget of at most fifteen minutes. *)
Theorem Grant_admits `{PoolLaws} marshal_len publishStatus granted t x now item s' r :
  reach marshal_len publishStatus granted t x → t ≤ now → Grant (state_of x) now item = (s', Ok r) →
  let s := state_of x in
  let c := pool_Controller s in
  Paused c = false ∧ Probing c = false ∧ Quiescing s = false ∧ PersistenceWait s = false
  ∧ llen (Outstanding s) < Concurrency (ctl_Policy c)
  ∧ Outstanding s' = Outstanding s ++ [MkPermit (rs_PermitID r) 0 false false false]
  ∧ (if Cooling c
     then NextEligible c ≤ now ∧ rs_Probe r = true ∧ Probing (pool_Controller s') = true ∧ ProbeID s' = rs_PermitID r
     else rs_Probe r = false ∧ Probing (pool_Controller s') = false
          ∧ (0 < WindowRequests (ctl_Policy c) →
             WindowStarts (pool_Controller s') ≤ WindowRequests (ctl_Policy (pool_Controller s'))))
  ∧ now < rs_StartBy r ≤ now + 5 * Second ∧ rs_StartBy r ≤ rs_Deadline r ∧ 1 ≤ rs_BudgetMS r ≤ 900000.
Proof.
  intros HR Ht. cbn zeta. pose proof (reach_clock _ _ _ _ _ HR) as H0'. pose proof (reach_state_inv _ _ _ _ _ HR) as HI.
  set (s := state_of x) in *. clearbody s. unfold Grant, CanGrant.
  destruct (refreshWindow_spec granted t s now HI) as [HI1 _].
  destruct (refreshWindow_facts s now) as (R1 & R2 & R3 & R4 & R5 & R6 & R7 & R8 & R9).
  set (s1 := refreshWindow s now) in *. clearbody s1. rewrite <- R1, <- R2, <- R3, <- R4, <- R5, <- R6, <- R7, <- R8.
  pose proof (grantable_window s1 now ltac:(lia)) as Hwin.
  destruct (grantable s1 now) eqn:Eg; [|done]. cbn [negb orb].
  destruct (_ || _) eqn:Eguard; [done|]. destruct (existsb _ (StartIntents s1)); [done|].
  set (id := uuid_sha1 _). set (r0 := grant_reservation _ now item id).
  assert (rs_Probe r0 = Cooling (pool_Controller s1) ∧ rs_PermitID r0 = id ∧ rs_Deadline r0 = ri_Deadline item
          ∧ rs_BudgetMS r0 = ri_BudgetMS item ∧ rs_StartBy r0 = minTime (now + 5 * Second) (ri_Deadline item))
    as (P1 & P2 & P3 & P4 & P5) by done. clearbody r0. rewrite P1.
  intros E. injection E as <- <-. bool_to_prop.
  unfold grantable in Eg. destruct (_ || _) eqn:Eg1; [done|]. bool_to_prop.
  destruct (negb (Cooling (pool_Controller s1)) && _ && _ && _); [done|].
  pose proof Eg as Ecan. unfold CanStart in Ecan. destruct (_ || _ || _) eqn:Ecs; [done|]. bool_to_prop.
  destruct (grant_start_facts (pool_Controller s1) now (ao_ctl _ _ (pi_adm _ _ _ HI1))) as (_ & G2 & G3 & G4 & G5 & _ & G7 & _).
  set (c' := grant_start (pool_Controller s1) now) in *.
  do 5 (split; [done|]). split; [rewrite P2; by destruct (Cooling (pool_Controller s1))|]. split.
  - destruct (Cooling (pool_Controller s1)) eqn:Ec.
    + unfold Before in Ecan. bool_to_prop. split; [done|]. split; [done|]. split; [exact G4|]. by rewrite P2.
    + split; [done|]. split; [change (Probing c' = false); congruence|]. intros Hw.
      change (WindowStarts c' ≤ WindowRequests (ctl_Policy c')). rewrite G7, G2, (proj2 (Z.ltb_lt _ _) Hw).
      specialize (Hwin eq_refl eq_refl R9 Hw). lia.
  - rewrite P3, P4, P5, minTime_min. unfold Before in *. unfold Second.
    change (Milliseconds MaximumGenerationBudget) with 900000 in *. bool_to_prop. lia.
Qed.

(** A selected recovery deadline is immutable: in every reachable state with
    a padded deadline, padding again, after any other response, reconfiguration
    or rollover, leaves the state as it is. *)
Theorem selected_deadline_immutable `{PoolLaws} marshal_len publishStatus granted t x p previous :
  reach marshal_len publishStatus granted t x → RecoveryPadding (state_of x) = Some p →
  padRecoveryFloor (state_of x) previous = state_of x.
Proof.
  intros HR Ep. pose proof (ao_pad _ _ (pi_adm _ _ _ (reach_state_inv _ _ _ _ _ HR))) as HP.
  unfold PadOK, pad_ok in HP. rewrite Ep in HP. destruct HP as (_ & Hf & Hr & Hc & Hn).
  unfold padRecoveryFloor. rewrite Hc, Ep, Hn. unfold IsZero, time_Equal. rewrite Z.eqb_refl. cbn [negb orb].
  by rewrite (proj2 (Z.eqb_neq _ _)) by (unfold time_zero; lia).
Qed.

(** A published reason that is not the empty one. *)
Ltac reason := split; [reflexivity | discriminate].

(** The waiting reason a pool publishes is exact: it is always one the store
    accepts, and it is empty only when nothing but the launch pacer holds back a
    grant. *)
Theorem Waiting_exact `{PoolLaws} marshal_len publishStatus granted t x now :
  reach marshal_len publishStatus granted t x →
  let s := state_of x in
  validWaitingReason (Waiting s now).1 = true
  ∧ ((Waiting s now).1 = "" →
     grantable s now = (0 <? BurstLeft (pool_Controller s)) || negb (Before now (NextStart (pool_Controller s)))).
Proof.
  intros HR. cbn zeta. pose proof (reach_state_inv _ _ _ _ _ HR) as HI. set (s := state_of x) in *. clearbody s.
  unfold Waiting, grantable. set (c := pool_Controller s).
  destruct (unresolved s); [reason|]. destruct (PersistenceWait s); cbn [orb]; [reason|].
  destruct (_ && (1000 <=? _)) eqn:E1; [reason|]. destruct (Quiescing s); [reason|]. destruct (Paused c) eqn:Epa; [reason|].
  destruct (DispatchNeedsReady s); [reason|]. destruct (Cooling c) eqn:Ec; [reason|].
  destruct (IsZero (WindowWait c now)) eqn:Ew; cbn [negb]; [|reason].
  destruct (negb (WindowAnchored s) && _ && _) eqn:Ea; [reason|].
  destruct ((0 <? llen (StartIntents s)) || _) eqn:Ei; [reason|].
  destruct (Z.leb_spec (Concurrency (ctl_Policy c)) (llen (Outstanding s))) as [|Hlt]; [reason|].
  split; [done|]. intros _. apply orb_false_iff in Ei as [Ei Ef]. rewrite Ef. cbn [orb andb].
  pose proof (co_policy _ (ao_ctl _ _ (pi_adm _ _ _ HI))) as (Hcc & _). fold c in Hcc.
  pose proof (llen_nonneg (RequestRetirements s)). bool_to_prop.
  rewrite (proj2 (Z.leb_gt maximumStartIntents (llen (StartIntents s)))) by (unfold maximumStartIntents; lia).
  destruct (Z.leb_spec 1000 (llen (RequestRetirements s) + llen (Outstanding s))) as [Hge|_].
  { rewrite (proj2 (Z.ltb_lt 0 _)) in E1 by lia. cbn in E1. bool_to_prop. lia. }
  cbn [orb andb negb]. rewrite Ea. unfold CanStart. rewrite Epa, Ec, Ew, (proj2 (Z.leb_gt _ _) Hlt). cbn [orb negb].
  destruct (Probing c) eqn:Ep; [|done]. apply (co_probe _ (ao_ctl _ _ (pi_adm _ _ _ HI))) in Ep. fold c in Ep. congruence.
Qed.

(** ** A concrete life: a resumed pool grants its recovery probe *)

#[export] Existing Instance DemoPoolEnv.

#[export] Instance DemoPoolLaws : PoolLaws.
Proof. split; [intros a b E; by injection E|done]. Qed.

Definition demo_scope : string := "aaaaaaaaaaaaaaaabbbbbbbbbbbbbbbbccccccccccccccccdddddddddddddddd".
Definition demo_item : ReadyItem := MkReady "" "" (MkRef demo_scope "job-1" 0) 60000 (2 * Hour) Hour.
Definition demo_pool : PoolState := NewPoolState "pool" 2 (DefaultPolicy <| RecoveryJitterMS := 500 |>).
Definition demo_versions : Versions := MkVersions true 2 true true.
Definition demo_len (s : PoolState) : Z := 1024.

Definition demo_loop0 : PoolLoop :=
  MkLoop demo_pool [] [] None false None None time_zero [] Hour Hour Hour false false false.
Definition demo_turn1 : TurnInput :=
  MkTurn Hour (MkSignals 0 0 [true] [] [] []) false [] [] None None None None noSignals.
Definition demo_turn2 : TurnInput := MkTurn (Hour + Second) noSignals false [] [] None None None None noSignals.
Definition demo_turn3 : TurnInput :=
  MkTurn (Hour + 2 * Second) noSignals false [] [] (Some (Ok (MkReadyPage [demo_item] demo_scope))) None None None noSignals.

Definition loop_after (w : PoolLoop) (i : TurnInput) : PoolLoop :=
  match pool_turn demo_len true w i with TurnWait w' _ _ => w' | _ => w end.
Definition demo_loop1 : PoolLoop := Eval vm_compute in loop_after demo_loop0 demo_turn1.
Definition demo_loop2 : PoolLoop := Eval vm_compute in loop_after demo_loop1 demo_turn2.
Definition demo_loop3 : PoolLoop := Eval vm_compute in loop_after demo_loop2 demo_turn3.
Definition demo_granted : list Reservation := Eval vm_compute in turn_grants true demo_loop2 demo_turn3.
Definition demo_time : Time := Hour + 2 * Second.

Lemma demo_no_reads w : ledger_attempts w [].
Proof. intros l a Hin. by apply not_elem_of_nil in Hin. Qed.

(** A turn of the demo without ledger reads. *)
Lemma demo_step granted t w i granted' w' :
  reach demo_len true granted t (inr w) → t ≤ in_now i → in_reads i = [] →
  granted' = granted ++ turn_grants true w i →
  (∃ commands delay, pool_turn demo_len true w i = TurnWait w' commands delay) →
  reach demo_len true granted' (in_now i) (inr w').
Proof.
  intros HR Ht Hr -> (commands & delay & E). eapply reach_turn; [exact HR|done| |exact E].
  rewrite Hr. apply demo_no_reads.
Qed.

(** The resumed pool waits for its padded deadline. *)
Lemma demo_reach2 : reach demo_len true [] (Hour + Second) (inr demo_loop2).
Proof.
  assert (reach demo_len true [] Hour (inr demo_loop0)) as H0.
  { eapply (reach_start _ _ [] Hour demo_pool demo_versions Hour); [apply reach_new; [reflexivity|vm_compute; discriminate]| |].
    - vm_compute; discriminate.
    - vm_compute. reflexivity. }
  assert (reach demo_len true [] Hour (inr demo_loop1)) as H1.
  { apply (demo_step [] Hour demo_loop0 demo_turn1 [] demo_loop1 H0);
      [vm_compute; discriminate|reflexivity|vm_compute; reflexivity|do 2 eexists; vm_compute; reflexivity]. }
  apply (demo_step [] Hour demo_loop1 demo_turn2 [] demo_loop2 H1);
    [vm_compute; discriminate|reflexivity|vm_compute; reflexivity|do 2 eexists; vm_compute; reflexivity].
Qed.

(** Its next turn grants the recovery probe. *)
Lemma demo_reach : reach demo_len true demo_granted demo_time (inr demo_loop3).
Proof.
  apply (demo_step [] (Hour + Second) demo_loop2 demo_turn3 demo_granted demo_loop3 demo_reach2);
    [vm_compute; discriminate|reflexivity|vm_compute; reflexivity|do 2 eexists; vm_compute; reflexivity].
Qed.

Lemma pool_capacity_bounded_witness : llen (Outstanding (pw_state demo_loop3)) + 0 ≤ 1000 ∧ llen (Outstanding (pw_state demo_loop3)) = 1.
Proof.
  split; [|vm_compute; reflexivity].
  exact (proj1 (pool_capacity_bounded demo_len true demo_granted demo_time (inr demo_loop3) demo_reach)).
Defined.

Lemma pool_snapshot_refused_only_for_size_witness : snapshot_accepts demo_len (pw_state demo_loop3) = (1024 <? maximumPoolSnapshot).
Proof.
  exact (proj2 (pool_snapshot_refused_only_for_size demo_len true demo_granted demo_time (inr demo_loop3) demo_reach)).
Defined.

Definition demo_reservation : Reservation := Eval vm_compute in default
  (MkReservation "" "" 0 0 (MkRef "" "" 0) "" "" "" 0 0 0 0 0 0 0 false) (head demo_granted).

(** The ledger's report of the demo probe: claimed, completed and stopped. *)
Definition demo_attempt : Attempt :=
  MkAttempt demo_reservation 1 "settled" "claim" (Some Hour) (Some Hour) None (Some (Hour + 2 * Second)) 1
    (Some (MkObservation (throttled_outcome <| out_Kind := "completed" |> <| out_Admission := "" |>) true true Hour))
    (MkCounts 1 0 0 0 1 0).

Definition demo_permit : PoolPermit := MkPermit (rs_PermitID demo_reservation) 0 false false false.

Lemma demo_in_granted : a_Reservation demo_attempt ∈ demo_granted.
Proof. vm_compute. left. Qed.

Lemma demo_settles : settles_permit (pw_state demo_loop3) demo_attempt demo_permit.
Proof. repeat split; try reflexivity; try (vm_compute; discriminate). by eexists. Qed.

Lemma pool_probe_is_live_witness :
  Probing (pool_Controller (pw_state demo_loop3)) = true
  ∧ Probing (pool_Controller (Observe (pw_state demo_loop3) (Hour + 3 * Second) demo_attempt).1) = false.
Proof.
  split; [vm_compute; reflexivity|].
  destruct (pool_probe_is_live demo_len true demo_granted demo_time (inr demo_loop3) (Hour + 3 * Second) demo_attempt
    demo_reach) as (p & Hin & Ep & _ & Hs); [vm_compute; discriminate|exact demo_in_granted|vm_compute; reflexivity|].
  apply Hs. apply list_elem_of_singleton in Hin. subst p. exact demo_settles.
Defined.

Lemma pool_settles_once_witness :
  let s' := (Observe (pw_state demo_loop3) (Hour + 3 * Second) demo_attempt).1 in
  Observe s' (Hour + 4 * Second) demo_attempt = (s', false).
Proof.
  intros s'. destruct (pool_settles_once demo_len true demo_granted demo_time (inr demo_loop3)
    (Hour + 3 * Second) demo_attempt _ demo_permit demo_reach ltac:(vm_compute; discriminate) demo_in_granted
    ltac:(vm_compute; left) eq_refl eq_refl) as (_ & _ & H3).
  exact (proj2 (proj2 (H3 demo_settles ltac:(by eexists))) (Hour + 4 * Second) demo_attempt eq_refl).
Defined.

Lemma Grant_admits_witness :
  ∃ s' r, Grant (pw_state demo_loop2) demo_time demo_item = (s', Ok r) ∧ 1 ≤ rs_BudgetMS r ≤ 900000 ∧ rs_Probe r = true.
Proof.
  eexists _, _. split; [vm_compute; reflexivity|]. split; [|reflexivity].
  refine (proj2 (proj2 (proj2 (proj2 (proj2 (proj2 (proj2 (proj2 (proj2
    (Grant_admits demo_len true [] (Hour + Second) (inr demo_loop2) demo_time demo_item _ _ demo_reach2 _ _)))))))))).
  - vm_compute; discriminate.
  - vm_compute. reflexivity.
Defined.

Lemma selected_deadline_immutable_witness :
  padRecoveryFloor (pw_state demo_loop2) Hour = pw_state demo_loop2.
Proof.
  eapply (selected_deadline_immutable demo_len true [] (Hour + Second) (inr demo_loop2) _ Hour demo_reach2).
  vm_compute. reflexivity.
Defined.

Lemma Waiting_exact_witness : validWaitingReason (Waiting (pw_state demo_loop3) demo_time).1 = true.
Proof. exact (proj1 (Waiting_exact demo_len true demo_granted demo_time (inr demo_loop3) demo_time demo_reach)). Defined.
