(* ===== verification/Ledger.v ===== *)
(** * Ledger: the transactions of the execution ledger

    Models [src/stateful/batch]: ledger_store.go and ledger_claim.go (pools,
    reservations, claims, dispatch, settlement), request_queue.go (waiters of
    ordinary requests), the items and jobs of store.go, and the fences of
    handoff.go and queue.go.

    The database is a value of [DB], with the tables of ledger_schema.sql and
    schema.sql keyed by their primary keys.  A transaction is a function of the
    database that returns an error or a result with the new database.  The rows a
    transaction reads are locked until it ends, so transactions are atomic here;
    the one read that finds nothing to lock, of a permit that is not reserved yet,
    is told by [missed] whether another transaction came in between.  What the
    connection makes of a transaction is its [fate].  A [timestamptz] has
    microseconds. *)
From stdpp Require Import gmap pretty sorting.
From S2P Require Import Prelude Json BatchController BatchPool.

Open Scope string_scope.
Open Scope list_scope.
Open Scope Z_scope.

(** ** Tables *)

Record PoolGeneration := MkPoolGeneration {
  pg_PoolID : string; pg_Generation : Z; pg_Mode : string; pg_Revision : Z }.

(** The request of an item, [Generation]: the members that the ledger reads, and the
    others as they are encoded. *)
Record Snapshot := MkSnapshot {
  sn_ConnectionID : string;
  sn_ModelID : string;
  sn_ReasoningEffort : string;
  sn_Rest : list (string * json);
  sn_TimeoutMS : Z;
  sn_TimeoutDefaulted : bool;
}.
Record Item := MkItem { im_CustomID : string; im_Generation : Snapshot }.

Record JobRow := MkJobRow {
  jb_IdempotencyHash : string;
  jb_InputDigest : string;
  jb_ItemCount : Z;
  jb_WorkflowID : string;
  jb_CreatedAt : Time;
  jb_PoolID : string;
  jb_Deadline : Time;
  jb_EnqueueSequence : Z;
  jb_LastHeartbeat : option Time;
  jb_LastProgress : option Time;
  jb_WaitingReason : string;
  jb_NextAttemptAt : option Time;
}.

Record ItemRow := MkItemRow {
  it_CustomID : string;
  it_Request : Snapshot;
  it_State : string;
  it_Attempts : Z;
  it_QueuedAt : Time;
  it_Outcome : Outcome;
  it_ReservationOrdinal : Z;
  it_CurrentPermit : option string;
}.

Record RequestWaiter := MkWaiter {
  w_WaitingReason : string;
  w_NextAttemptAt : option Time;
  w_PoolHeartbeatAt : option Time;
  w_RequestID : string;
  w_PoolID : string;
  w_Scope : string;
  w_OwnerID : string;
  w_ExecutionID : string;
  w_Generation : Z;
  w_Ordinal : Z;
  w_Sequence : Z;
  w_CreatedAt : Time;
  w_Deadline : Time;
  w_LiveUntil : Time;
  w_RetentionUntil : Time;
  w_BudgetMS : Z;
  w_ClosedAt : option Time;
  w_PoolObservedAt : option Time;
  w_PermitID : string;
}.

Definition JobKey : Type := string * string.
Definition ItemKey : Type := string * string * Z.
Definition item_key (r : Ref) : ItemKey := (ref_Scope r, ref_JobID r, ref_Index r).
Definition job_key (r : Ref) : JobKey := (ref_Scope r, ref_JobID r).

Record DB := MkDB {
  db_pools : gmap string PoolGeneration;
  db_jobs : gmap JobKey JobRow;
  db_items : gmap ItemKey ItemRow;
  db_waiters : gmap string RequestWaiter;
  db_attempts : gmap string Attempt;
  db_cursors : gmap (string * string) Z;
  db_sequence : Z;
}.

(** ** Transactions *)

Inductive tx_error : Type :=
| TxKnown (e : batch_error)
| TxNoRows
| TxOther.

Definition ledgerError (e : tx_error) : batch_error :=
  match e with
  | TxKnown ErrInvalidTimeout | TxKnown ErrUnavailable | TxOther => ErrUnavailable
  | TxKnown e => e
  | TxNoRows => ErrNotFound
  end.

Definition Tx (A : Type) : Type := DB → res tx_error (A * DB).

#[export] Instance tx_ret : MRet Tx := fun A a db => Ok (a, db).
#[export] Instance tx_bind : MBind Tx := fun A B k m db =>
  match m db with Ok (a, db) => k a db | Err e => Err e end.

Definition fail {A : Type} (e : tx_error) : Tx A := fun _ => Err e.
Definition guard {A : Type} (refuse : bool) (e : batch_error) (k : Tx A) : Tx A :=
  if refuse then fail (TxKnown e) else k.
Definition ask {A : Type} (f : DB → A) : Tx A := fun db => Ok (f db, db).
Definition write (f : DB → DB) : Tx unit := fun db => Ok (tt, f db).
(** [QueryRow(...).Scan]: a row, or [pgx.ErrNoRows]. *)
Definition row {A : Type} (f : DB → option A) : Tx A := fun db =>
  match f db with Some a => Ok (a, db) | None => Err TxNoRows end.
(** A statement that the database refuses when a constraint fails. *)
Definition constraint (c : bool) : Tx unit := if c then mret tt else fail TxOther.

(** What becomes of a transaction: a commit, a failure before its writes, a
    failure after them with a rollback, or a commit whose acknowledgement is lost. *)
Inductive fate : Type := Committed | Refused | RolledBack | AckLost.

(** The new database, the answer, and whether the writes had been made. *)
Definition ledgerTx {A : Type} (f : fate) (fn : Tx A) (db : DB) : DB * res tx_error A * bool :=
  match f with
  | Refused => (db, Err TxOther, false)
  | _ =>
      match fn db with
      | Err e => (db, Err e, false)
      | Ok (a, db') =>
          match f with
          | Committed => (db', Ok a, true)
          | AckLost => (db', Err TxOther, true)
          | _ => (db, Err TxOther, true)
          end
      end
  end.

Definition answered {A : Type} (r : res tx_error A) : res batch_error A :=
  match r with Ok a => Ok a | Err e => Err (ledgerError e) end.

(** [ledgerError(s.ledgerTx(...))], the end of most operations. *)
Definition ledger {A : Type} (f : fate) (fn : Tx A) (db : DB) : DB * res batch_error A :=
  let '(db', r, _) := ledgerTx f fn db in (db', answered r).

(** The readings of [time.Now] in an operation, in order, and [now()] of its
    transaction. *)
Record Clock := MkClock { readings : nat → Time; sql_now : Time }.

Definition Truncate (t : Time) (d : Duration) : Time := t - t mod d.
(** A [timestamptz] column. *)
Definition stamp (t : Time) : Time := Truncate t Microsecond.

(** Some row of a table satisfies a condition. *)
Definition exists_row {K V : Type} `{Countable K} (f : K → V → bool) (m : gmap K V) : bool :=
  existsb (fun kv => f kv.1 kv.2) (map_to_list m).

(** [ORDER BY sequence] *)
Definition by_sequence (a b : Attempt) : Prop := rs_Sequence (a_Reservation a) ≤ rs_Sequence (a_Reservation b).
#[export] Instance by_sequence_dec : RelDecision by_sequence.
Proof. intros a b. apply Z_le_dec. Defined.

#[export] Instance ref_eq_dec : EqDecision Ref.
Proof. solve_decision. Defined.
#[export] Instance reservation_eq_dec : EqDecision Reservation.
Proof. solve_decision. Defined.

(** ** The text of an observation

    The encoder writes the members of a struct in the order of its fields, and
    leaves out the empty ones that are marked [omitempty]. *)

Definition struct_text (members : list (list (string * string))) : string :=
  "{" +:+ join_comma (map marshal_entry (concat members)) +:+ "}".
Definition always (key text : string) : list (string * string) := [(key, text)].
Definition unless_empty (key s : string) : list (string * string) :=
  if String.eqb s "" then [] else [(key, marshal_string s)].
Definition unless_zero (key : string) (z : Z) : list (string * string) := if z =? 0 then [] else [(key, pretty z)].
Definition unless_nil {A : Type} (key : string) (text : A → string) (o : option A) : list (string * string) :=
  match o with Some a => [(key, text a)] | None => [] end.
Definition bool_text (b : bool) : string := if b then "true" else "false".

Definition item_error_text (e : ItemError) : string :=
  struct_text [always "code" (marshal_string (ie_Code e)); always "message" (marshal_string (ie_Message e));
               unless_zero "http_status" (ie_HTTPStatus e)].

(** What the decoder makes of the text: strings with their invalid bytes replaced. *)
Definition read_item_error (e : ItemError) : ItemError :=
  MkItemError (sanitize (ie_Code e)) (sanitize (ie_Message e)) (ie_HTTPStatus e).
Definition read_outcome (o : Outcome) : Outcome :=
  o <| out_Kind ::= sanitize |> <| out_Admission ::= sanitize |> <| out_Error ::= fmap read_item_error |>
    <| out_ArtifactID ::= sanitize |> <| out_ProviderRequestID ::= sanitize |>.
Definition read_observation (o : AttemptObservation) : AttemptObservation := o <| ob_Outcome ::= read_outcome |>.

(** [pg_uuid] is the identifier that the text of an argument denotes, in canonical
    form; [jsonb_accepts] tells whether the column takes a JSON text, which it
    refuses for a NUL character or for its size, and [jsonb_members] is the form in
    which it keeps the members of an object.  [input_digest] is the SHA-256 of the
    JSON text of a submission. *)
Class LedgerEnv := {
  pg_uuid : string → option string;
  jsonb_accepts : string → bool;
  jsonb_members : list (string * json) → list (string * json);
  sha256_hex : string → string;
  input_digest : list Item → string;
}.

Section Store.
Context `{PoolEnv} `{LedgerEnv}.

Definition time_text (t : Time) : string := String quote_char (rfc3339nano t) +:+ String quote_char EmptyString.

Definition outcome_text (o : Outcome) : string :=
  struct_text
    [always "kind" (marshal_string (out_Kind o)); unless_empty "admission" (out_Admission o);
     unless_zero "generationBudgetMs" (out_GenerationBudgetMS o); unless_nil "generationDeadlineAt" time_text (out_GenerationDeadline o);
     unless_nil "error" item_error_text (out_Error o); unless_zero "retryAfterMs" (out_RetryAfterMS o);
     unless_empty "artifactId" (out_ArtifactID o); always "attempt" (pretty (out_Attempt o));
     always "queueMs" (pretty (out_QueueMS o)); always "retryWaitMs" (pretty (out_RetryWaitMS o));
     unless_nil "startedAt" time_text (out_StartedAt o); unless_nil "finishedAt" time_text (out_FinishedAt o);
     always "durationMs" (pretty (out_DurationMS o)); unless_nil "headersMs" pretty (out_HeadersMS o);
     unless_nil "firstOutputMs" pretty (out_FirstOutputMS o); unless_nil "inputTokens" pretty (out_InputTokens o);
     unless_nil "outputTokens" pretty (out_OutputTokens o); unless_nil "reasoningTokens" pretty (out_ReasoningTokens o);
     unless_nil "cachedInputTokens" pretty (out_CachedInputTokens o); unless_empty "providerRequestId" (out_ProviderRequestID o);
     always "cpaInternalAttempts" (match out_CPAInternalAttempts o with Some n => pretty n | None => "null" end)].

Definition observation_text (o : AttemptObservation) : string :=
  struct_text [always "outcome" (outcome_text (ob_Outcome o)); always "native_entered" (bool_text (ob_NativeEntered o));
               always "local_stopped" (bool_text (ob_LocalStopped o)); always "observed_at" (time_text (ob_ObservedAt o))].

Definition canonical (o : AttemptObservation) : AttemptObservation :=
  o <| ob_ObservedAt ::= stamp |>
    <| ob_Outcome ::= fun out => out <| out_StartedAt ::= fmap stamp |> <| out_FinishedAt ::= fmap stamp |>
                                     <| out_GenerationDeadline ::= fmap stamp |> |>.

Definition sameObservation (a b : AttemptObservation) : bool :=
  String.eqb (observation_text (canonical a)) (observation_text (canonical b)).

Definition sameTerminalObservation (a b : AttemptObservation) : bool :=
  sameObservation (a <| ob_LocalStopped := false |>) (b <| ob_LocalStopped := false |>).

(** The column after a write of the text of an observation or of an outcome. *)
Definition jsonb_observation (o : AttemptObservation) : Tx AttemptObservation :=
  if jsonb_accepts (observation_text o) then mret (read_observation o) else fail TxOther.
Definition jsonb_outcome (o : Outcome) : Tx Outcome :=
  if jsonb_accepts (outcome_text o) then mret (read_outcome o) else fail TxOther.

(** ** Generations of a pool *)

Definition poolRow (pool : string) : Tx PoolGeneration := row (fun db => db_pools db !! pool).

Definition guardPool (pool : string) (generation : Z) : Tx unit :=
  p ← poolRow pool;
  guard (negb (pg_Generation p =? generation) || negb (String.eqb (pg_Mode p) "active")) ErrGenerationFenced (mret tt).

(** The generation and the revision of a row are positive [bigint]s. *)
Definition set_pool (p : PoolGeneration) : Tx unit :=
  _ ← constraint ((0 <? pg_Generation p) && (pg_Generation p <=? int64_max) && (0 <? pg_Revision p) && (pg_Revision p <=? int64_max));
  write (fun db => db <| db_pools ::= insert (pg_PoolID p) p |>).

Definition EnsurePool (f : fate) (id : string) (generation : Z) (db : DB) : DB * res batch_error unit :=
  if negb (validPool id) || (generation <? 1) then (db, Err ErrGenerationFenced)
  else ledger f (
    known ← ask (fun db => db_pools db !! id);
    _ ← match known with Some _ => mret tt | None => set_pool (MkPoolGeneration id generation "active" 1) end;
    guardPool id generation) db.

Definition read_generation (f : fate) (id : string) (db : DB) : DB * res batch_error PoolGeneration :=
  ledger f (poolRow id) db.

Definition QuiescePool (f : fate) (id : string) (generation : Z) (db : DB) : DB * res batch_error unit :=
  ledger f (
    p ← poolRow id;
    guard (negb (pg_Generation p =? generation)) ErrGenerationFenced (
      if String.eqb (pg_Mode p) "active" then set_pool (p <| pg_Mode := "quiescing" |> <| pg_Revision ::= Z.succ |>)
      else mret tt)) db.

(** An attempt of the pool that has not ended. *)
Definition unfinished (pool : string) (a : Attempt) : bool :=
  String.eqb (rs_PoolID (a_Reservation a)) pool
  && (negb (String.eqb (a_State a) "settled") || negb (bool_decide (is_Some (a_StoppedAt a)))).
(** An item of one of the pool's jobs, or of a job that no pool has taken. *)
Definition pool_item (pool : string) (db : DB) (key : ItemKey) (cond : ItemRow → bool) (i : ItemRow) : bool :=
  match db_jobs db !! key.1 with
  | Some j => cond i && (String.eqb (jb_PoolID j) pool || String.eqb (jb_PoolID j) "")
  | None => false
  end.
Definition is_active (i : ItemRow) : bool := String.eqb (it_State i) "active".
Definition outstanding (pool : string) (db : DB) : bool :=
  exists_row (fun _ => unfinished pool) (db_attempts db)
  || exists_row (fun key => pool_item pool db key is_active) (db_items db).

Definition AdvancePool (f : fate) (id : string) (from to : Z) (db : DB) : DB * res batch_error unit :=
  if negb (to =? wrap64 (from + 1)) then (db, Err ErrGenerationFenced)
  else ledger f (
    p ← poolRow id;
    if (pg_Generation p =? to) && String.eqb (pg_Mode p) "active" then mret tt
    else guard (negb (pg_Generation p =? from) || negb (String.eqb (pg_Mode p) "quiescing")) ErrGenerationFenced (
      busy ← ask (outstanding id);
      guard busy ErrGenerationFenced (
        set_pool (p <| pg_Generation := to |> <| pg_Mode := "active" |> <| pg_Revision ::= Z.succ |>)))) db.

(** The code of the error that an outcome holds. *)
Definition lost_activity (i : ItemRow) : bool :=
  match out_Error (it_Outcome i) with Some e => String.eqb (ie_Code e) "activity_failed" | None => false end.

Definition last_sequence (pool : string) (db : DB) : Z :=
  foldr (fun kv acc => if String.eqb (rs_PoolID (a_Reservation kv.2)) pool then Z.max (rs_Sequence (a_Reservation kv.2)) acc else acc)
    0 (map_to_list (db_attempts db)).

Record PoolFence := MkFence { fe_PoolID : string; fe_Generation : Z; fe_Sequence : Z }.

Definition AdoptLegacyPool (f : fate) (pool : string) (db : DB) : DB * res batch_error PoolFence :=
  if negb (validPool pool) then (db, Err ErrGenerationFenced)
  else ledger f (
    p ← poolRow pool;
    if (pg_Generation p =? 2) && String.eqb (pg_Mode p) "active"
    then sequence ← ask (last_sequence pool); mret (MkFence pool 2 sequence)
    else guard (negb (pg_Generation p =? 1) || (negb (String.eqb (pg_Mode p) "active") && negb (String.eqb (pg_Mode p) "quiescing")))
      ErrGenerationFenced (
      busy ← ask (outstanding pool);
      unknown ← ask (fun db => exists_row (fun key => pool_item pool db key lost_activity) (db_items db));
      guard unknown ErrLegacyExecutionUnresolved (
      guard busy ErrGenerationFenced (
        _ ← set_pool (p <| pg_Generation := 2 |> <| pg_Mode := "active" |> <| pg_Revision ::= Z.succ |>);
        sequence ← ask (last_sequence pool); mret (MkFence pool 2 sequence))))) db.

Definition CheckEmptyPoolBootstrap (f : fate) (db : DB) : DB * res batch_error unit :=
  ledger f (
    known ← ask (fun db => exists_row (fun _ _ => true) (db_pools db) || exists_row (fun _ _ => true) (db_jobs db)
                           || exists_row (fun _ _ => true) (db_attempts db));
    guard known ErrConflict (mret tt)) db.

(** ** Attempts *)

(** The row of a permit; [pgx.ErrNoRows] is an error of [readAttempt]. *)
Definition find_attempt (id : string) : Tx (option Attempt) :=
  match pg_uuid id with
  | None => fail TxOther
  | Some permit => ask (fun db => db_attempts db !! permit)
  end.
Definition readAttempt (id : string) : Tx Attempt :=
  found ← find_attempt id;
  match found with Some a => mret a | None => fail TxNoRows end.

(** The row checks of [batch_attempts] that an update can break. *)
Definition attempt_checks (a : Attempt) : bool :=
  ((String.eqb (a_ClaimID a) "" && negb (bool_decide (is_Some (a_ClaimedAt a))) && negb (bool_decide (is_Some (a_DispatchedAt a))))
   || (negb (String.eqb (a_ClaimID a) "") && bool_decide (is_Some (a_ClaimedAt a))))
  && (negb (String.eqb (a_State a) "reserved") || String.eqb (a_ClaimID a) "")
  && (negb (String.eqb (a_State a) "settled") || ((0 <? a_SettlementRevision a) && bool_decide (is_Some (a_Observation a)))).

(** [UPDATE batch_attempts ... WHERE permit_id=$1 AND ...] *)
Definition update_attempt (id : string) (cond : Attempt → bool) (set : Attempt → Attempt) : Tx unit :=
  match pg_uuid id with
  | None => fail TxOther
  | Some permit =>
      found ← ask (fun db => db_attempts db !! permit);
      match found with
      | Some a =>
          if cond a then
            _ ← constraint (attempt_checks (set a));
            write (fun db => db <| db_attempts ::= insert permit (set a) |>)
          else mret tt
      | None => mret tt
      end
  end.

Definition ReadAttempts (f : fate) (pool : string) (ids : list string) (db : DB) : DB * res batch_error (list Attempt) :=
  if negb (validPool pool) || (1000 <? llen ids) || negb (forallb validPermitID ids) then (db, Err ErrUnavailable)
  else ledger f (ask (fun db =>
    merge_sort by_sequence
      (List.filter (fun a => String.eqb (rs_PoolID (a_Reservation a)) pool && str_in (rs_PermitID (a_Reservation a)) ids)
        (map snd (map_to_list (db_attempts db)))))) db.

(** The instants of a reservation as the columns hold them. *)
Definition stored_reservation (r : Reservation) : Reservation :=
  r <| rs_GrantedAt ::= stamp |> <| rs_StartBy ::= stamp |> <| rs_Deadline ::= stamp |>.

Definition sameReservation (a b : Reservation) : bool := bool_decide (stored_reservation a = stored_reservation b).

Definition reservationMatchesSnapshot (r : Reservation) (timeoutMS : Z) (jobDeadline : Time) : bool :=
  (0 <? generationBudget timeoutMS) && (rs_BudgetMS r =? Milliseconds (generationBudget timeoutMS))
  && negb (IsZero (rs_Deadline r)) && negb (After (rs_Deadline r) jobDeadline).

Definition zeroCounts : Counts := MkCounts 0 0 0 0 0 0.
Definition zeroOutcome : Outcome :=
  MkOutcome "" "" 0 None None 0 "" 0 0 0 None None 0 None None None None None None "" None.

Definition reserved_attempt (r : Reservation) (ordinal : Z) : Attempt :=
  MkAttempt (stored_reservation r) ordinal "reserved" "" None None None None 0 None zeroCounts.

Definition same_item (a b : Reservation) : bool := ref_eqb (rs_Ref a) (rs_Ref b).
(** A row that stands in the way of another one: the unique keys and indexes. *)
Definition collides (a : Attempt) (permit : string) (b : Attempt) : bool :=
  let r := a_Reservation a in
  let r' := a_Reservation b in
  String.eqb permit (rs_PermitID r) || String.eqb (rs_WorkflowID r') (rs_WorkflowID r)
  || (String.eqb (rs_PoolID r') (rs_PoolID r) && (rs_Sequence r' =? rs_Sequence r))
  || (String.eqb (rs_Kind r) "job" && String.eqb (rs_Kind r') "job" && same_item r r'
      && ((a_Ordinal b =? a_Ordinal a) || negb (String.eqb (a_State b) "settled")))
  || (String.eqb (rs_Kind r) "ordinary" && String.eqb (rs_Kind r') "ordinary" && String.eqb (rs_PoolID r') (rs_PoolID r)
      && String.eqb (ref_Scope (rs_Ref r')) (ref_Scope (rs_Ref r)) && String.eqb (rs_RequestID r') (rs_RequestID r)).

(** [INSERT INTO batch_attempts]; the remaining checks of the table. *)
Definition insert_attempt (a : Attempt) : Tx unit :=
  let r := a_Reservation a in
  _ ← constraint ((0 <=? rs_Epoch r) && (0 <=? rs_WindowID r) && (0 <? a_Ordinal a));
  collision ← ask (fun db => exists_row (collides a) (db_attempts db));
  pool ← ask (fun db => db_pools db !! rs_PoolID r);
  item ← ask (fun db => db_items db !! item_key (rs_Ref r));
  _ ← constraint (negb collision && bool_decide (is_Some pool)
                  && (negb (String.eqb (rs_Kind r) "job") || bool_decide (is_Some item)));
  write (fun db => db <| db_attempts ::= insert (rs_PermitID r) a |>).

Definition update_item (r : Ref) (set : ItemRow → ItemRow) : Tx unit :=
  write (fun db => db <| db_items ::= alter set (item_key r) |>).
Definition update_job (r : Ref) (set : JobRow → JobRow) : Tx unit :=
  write (fun db => db <| db_jobs ::= alter set (job_key r) |>).

(** ** Waiters of ordinary requests *)

Definition requestLiveness : Duration := 10 * Second.
Definition maximumRequestWaiters : Z := 10000.

Definition readRequestWaiter (id : string) : Tx RequestWaiter :=
  match pg_uuid id with
  | None => fail TxOther
  | Some request => row (fun db => db_waiters db !! request)
  end.
Definition update_waiter (id : string) (set : RequestWaiter → RequestWaiter) : Tx unit :=
  write (fun db => db <| db_waiters ::= alter set id |>).

Definition requestMatchesReservation (w : RequestWaiter) (r : Reservation) : bool :=
  String.eqb (w_PoolID w) (rs_PoolID r) && (w_Generation w =? rs_Generation r) && String.eqb (w_Scope w) (ref_Scope (rs_Ref r))
  && String.eqb (w_RequestID w) (rs_RequestID r) && (w_BudgetMS w =? rs_BudgetMS r)
  && time_Equal (w_Deadline w) (stamp (rs_Deadline r)).

Definition guardRequestClaim (now : Time) (a : Attempt) (nonce : string) : Tx unit :=
  let r := a_Reservation a in
  if negb (String.eqb (rs_Kind r) "ordinary") then mret tt
  else
    w ← readRequestWaiter (rs_RequestID r);
    guard (negb (requestMatchesReservation w r) || negb (String.eqb (w_OwnerID w) nonce)
           || negb (String.eqb (w_PermitID w) (rs_PermitID r)) || bool_decide (is_Some (w_ClosedAt w))
           || negb (Before now (w_LiveUntil w)) || negb (Before now (w_Deadline w))) ErrClaimOwned (mret tt).

(** [COALESCE(column, value)] *)
Definition coalesce (value : Time) (o : option Time) : option Time := Some (default value o).

(** ** Reservations *)

Definition valid_reservation (r : Reservation) : bool :=
  validPermitID (rs_PermitID r) && validPool (rs_PoolID r) && validScope (ref_Scope (rs_Ref r))
  && negb (rs_Generation r <? 1) && negb (rs_Sequence r <? 1) && negb (slen (rs_WorkflowID r) =? 0)
  && negb (256 <? slen (rs_WorkflowID r)) && negb (rs_BudgetMS r <? 1) && negb (900000 <? rs_BudgetMS r)
  && negb (rs_PolicyRevision r <? 1)
  && (String.eqb (rs_Kind r) "job" || String.eqb (rs_Kind r) "ordinary")
  && (negb (String.eqb (rs_Kind r) "job")
      || (validPermitID (ref_JobID (rs_Ref r)) && negb (ref_Index (rs_Ref r) <? 0) && (ref_Index (rs_Ref r) <? 1000)
          && String.eqb (rs_RequestID r) ""))
  && (negb (String.eqb (rs_Kind r) "ordinary")
      || (validPermitID (rs_RequestID r) && String.eqb (ref_JobID (rs_Ref r)) "" && (ref_Index (rs_Ref r) =? 0))).

(** An attempt that was reserved before, when it is the same reservation. *)
Definition same_attempt (old : Attempt) (r : Reservation) : Tx Attempt :=
  guard (negb (sameReservation (a_Reservation old) r)) ErrConflict (mret old).

Definition reserve_job (r : Reservation) : Tx Attempt :=
  i ← row (fun db => db_items db !! item_key (rs_Ref r));
  j ← row (fun db => db_jobs db !! job_key (rs_Ref r));
  guard (negb (reservationMatchesSnapshot r (sn_TimeoutMS (it_Request i)) (jb_Deadline j))) ErrConflict (
  if bool_decide (it_CurrentPermit i = Some (rs_PermitID r))
  then existing ← readAttempt (rs_PermitID r); same_attempt existing r
  else guard ((negb (String.eqb (jb_PoolID j) "") && negb (String.eqb (jb_PoolID j) (rs_PoolID r)))
              || bool_decide (is_Some (it_CurrentPermit i))
              || (negb (String.eqb (it_State i) "queued") && negb (String.eqb (it_State i) "waiting"))) ErrConflict (
    let ordinal := it_ReservationOrdinal i + 1 in
    _ ← (if String.eqb (jb_PoolID j) "" then update_job (rs_Ref r) (fun j => j <| jb_PoolID := rs_PoolID r |>) else mret tt);
    _ ← insert_attempt (reserved_attempt r ordinal);
    _ ← update_item (rs_Ref r) (fun i => i <| it_CurrentPermit := Some (rs_PermitID r) |>
                                           <| it_ReservationOrdinal := ordinal |> <| it_State := "active" |>);
    readAttempt (rs_PermitID r))).

(** The observation of a permit that was positively never sent. *)
Definition never_sent (now : Time) : AttemptObservation :=
  MkObservation (zeroOutcome <| out_Kind := "never_dispatched" |>) false true now.

(** [SET state='settled',observation=$2,settlement_revision=1,local_stopped_at=$3] *)
Definition settled_never_sent (o : AttemptObservation) (now : Time) (a : Attempt) : Attempt :=
  a <| a_State := "settled" |> <| a_Observation := Some o |> <| a_SettlementRevision := 1 |> <| a_StoppedAt := Some (stamp now) |>.

Definition set_waiter_permit (request permit : string) : Tx unit :=
  taken ← ask (fun db => exists_row (fun id w => negb (String.eqb id request) && String.eqb (w_PermitID w) permit) (db_waiters db));
  _ ← constraint (negb taken);
  update_waiter request (fun w => w <| w_PermitID := permit |>).

Definition reserve_request (c : Clock) (r : Reservation) : Tx Attempt :=
  w ← readRequestWaiter (rs_RequestID r);
  guard (negb (requestMatchesReservation w r) || negb (String.eqb (w_PermitID w) "")) ErrConflict (
    let now := readings c 0 in
    let requestExpired := bool_decide (is_Some (w_ClosedAt w)) || negb (Before now (w_LiveUntil w)) || negb (Before now (w_Deadline w)) in
    _ ← insert_attempt (reserved_attempt r (w_Ordinal w));
    _ ← set_waiter_permit (w_RequestID w) (rs_PermitID r);
    _ ← (if requestExpired then
           let now := readings c 1 in
           o ← jsonb_observation (never_sent now);
           _ ← update_attempt (rs_PermitID r) (fun _ => true) (settled_never_sent o now);
           update_waiter (w_RequestID w) (fun w => w <| w_ClosedAt ::= coalesce (stamp now) |>)
         else mret tt);
    readAttempt (rs_PermitID r)).

(** [missed] is true when the row of the permit appeared after the first read. *)
Definition ReserveAttempt (f : fate) (c : Clock) (missed : bool) (r : Reservation) (db : DB) : DB * res batch_error Attempt :=
  if negb (valid_reservation r) then (db, Err ErrUnavailable)
  else ledger f (
    _ ← guardPool (rs_PoolID r) (rs_Generation r);
    old ← (if missed then mret None else find_attempt (rs_PermitID r));
    match old with
    | Some old => same_attempt old r
    | None => if String.eqb (rs_Kind r) "job" then reserve_job r else reserve_request c r
    end) db.

(** ** Claims and dispatch *)

(** A later transaction of the same operation: its fate, its clock, the database it
    finds, and whether its context has ended. *)
Record Round := MkRound { rd_fate : fate; rd_clock : Clock; rd_db : DB; rd_done : bool }.

(** What a confirmation reads, before the guards. *)
Definition unconfirmed_claim (now : Time) (nonce : string) (a : Attempt) : bool :=
  negb (String.eqb (a_State a) "dispatching") || negb (String.eqb (a_ClaimID a) nonce) || negb (bool_decide (is_Some (a_ClaimedAt a)))
  || bool_decide (is_Some (a_StoppedAt a)) || bool_decide (is_Some (a_Observation a))
  || negb (Before now (rs_StartBy (a_Reservation a))) || negb (Before now (executionDeadline a)).

Definition confirm_read (c : Clock) (id nonce : string) (accepts : Attempt → bool) : Tx Attempt :=
  a ← readAttempt id;
  guard (unconfirmed_claim (readings c 0) nonce a || negb (accepts a)) ErrClaimUnconfirmed (
    _ ← guardPool (rs_PoolID (a_Reservation a)) (rs_Generation (a_Reservation a));
    _ ← guardRequestClaim (readings c 1) a nonce;
    mret a).

(** The errors that end the confirmation, with the context. *)
Definition final_error (e : tx_error) : bool :=
  match e with TxNoRows | TxKnown ErrClaimUnconfirmed | TxKnown ErrClaimOwned | TxKnown ErrGenerationFenced => true | _ => false end.

Fixpoint confirm_rounds (rounds : list Round) (id nonce : string) (accepts : Attempt → bool) : res batch_error Attempt :=
  match rounds with
  | [] => Err ErrClaimUnconfirmed
  | r :: rest =>
      let c := rd_clock r in
      match (ledgerTx (rd_fate r) (confirm_read c id nonce accepts) (rd_db r)).1.2 with
      | Ok a =>
          if negb (rd_done r) && Before (readings c 2) (rs_StartBy (a_Reservation a)) && Before (readings c 3) (executionDeadline a)
          then Ok a else Err ErrClaimUnconfirmed
      | Err e => if rd_done r || final_error e then Err ErrClaimUnconfirmed else confirm_rounds rest id nonce accepts
      end
  end.
(** At most two reads; the database is not changed. *)
Definition confirmAttemptWrite (rounds : Round * Round) : string → string → (Attempt → bool) → res batch_error Attempt :=
  confirm_rounds [rounds.1; rounds.2].

(** The deadline of a claim at [now]. *)
Definition claim_deadline (now : Time) (a : Attempt) : Time :=
  minTime (rs_Deadline (a_Reservation a)) (Add now (wrap64 (rs_BudgetMS (a_Reservation a) * Millisecond))).

Definition claim_set (nonce : string) (now deadline : Time) (a : Attempt) : Attempt :=
  a <| a_State := "dispatching" |> <| a_ClaimID := nonce |> <| a_ClaimedAt := Some (stamp now) |>
    <| a_GenerationDeadline := Some (stamp deadline) |>.

Definition is_reserved (a : Attempt) : bool := String.eqb (a_State a) "reserved".

(** The attempt as it was read, its claim, and the attempt as it is now. *)
Definition claim_tx (c : Clock) (id nonce : string) : Tx (Attempt * Attempt) :=
  a ← readAttempt id;
  guard (negb (is_reserved a) || negb (String.eqb (a_ClaimID a) "")) ErrClaimOwned (
    _ ← guardPool (rs_PoolID (a_Reservation a)) (rs_Generation (a_Reservation a));
    _ ← guardRequestClaim (readings c 0) a nonce;
    let now := readings c 1 in
    guard (negb (Before now (rs_StartBy (a_Reservation a))) || negb (Before now (rs_Deadline (a_Reservation a)))) ErrClaimOwned (
      _ ← update_attempt id is_reserved (claim_set nonce now (claim_deadline now a));
      result ← readAttempt id;
      mret (a, result))).

(** The write that a confirmation of the claim looks for. *)
Definition claim_accepts (c : Clock) (before : Attempt) (a : Attempt) : bool :=
  let now := readings c 1 in
  sameReservation (a_Reservation a) (a_Reservation before) && bool_decide (a_ClaimedAt a = Some (stamp now))
  && bool_decide (a_GenerationDeadline a = Some (stamp (claim_deadline now before)))
  && negb (bool_decide (is_Some (a_DispatchedAt a))).

(** The answer of a write and, when it was not acknowledged, of its confirmation;
    [again] reads with the attempt that the write found. *)
Definition confirmed (f : fate) (fn : Tx (Attempt * Attempt)) (again : Attempt → res batch_error Attempt) (db : DB)
  : DB * res batch_error Attempt :=
  let '(db', r, changed) := ledgerTx f fn db in
  (db', match r with
        | Ok (_, result) => Ok result
        | Err e => match fn db with
                   | Ok (before, _, _) => if changed then again before else Err (ledgerError e)
                   | Err _ => Err (ledgerError e)
                   end
        end).

Definition ClaimAttempt (f : fate) (c : Clock) (rounds : Round * Round) (id nonce : string) (db : DB) : DB * res batch_error Attempt :=
  if negb (validPermitID id) || negb (validPermitID nonce) then (db, Err ErrClaimUnconfirmed)
  else confirmed f (claim_tx c id nonce) (fun before => confirmAttemptWrite rounds id nonce (claim_accepts c before)) db.

(** [UPDATE batch_items SET attempts=attempts+1 WHERE ...], which must change a row. *)
Definition count_dispatch (id : string) (r : Ref) : Tx unit :=
  match pg_uuid id with
  | None => fail TxOther
  | Some permit =>
      found ← ask (fun db => db_items db !! item_key r);
      match found with
      | Some i =>
          guard (negb (bool_decide (it_CurrentPermit i = Some permit)) || negb (is_active i) || negb (it_Attempts i <? 16)) ErrClaimOwned (
            update_item r (fun i => i <| it_Attempts ::= Z.succ |>))
      | None => fail (TxKnown ErrClaimOwned)
      end
  end.

Definition dispatch_tx (c : Clock) (id nonce : string) : Tx (Attempt * Attempt) :=
  a ← readAttempt id;
  guard (negb (String.eqb (a_ClaimID a) nonce) || negb (String.eqb (a_State a) "dispatching")
         || bool_decide (is_Some (a_StoppedAt a)) || bool_decide (is_Some (a_Observation a))) ErrClaimOwned (
  guard (bool_decide (is_Some (a_DispatchedAt a))) ErrClaimOwned (
    _ ← guardPool (rs_PoolID (a_Reservation a)) (rs_Generation (a_Reservation a));
    _ ← guardRequestClaim (readings c 0) a nonce;
    let now := readings c 1 in
    guard (negb (Before now (rs_StartBy (a_Reservation a))) || negb (Before now (executionDeadline a))) ErrClaimOwned (
      _ ← (if String.eqb (rs_Kind (a_Reservation a)) "job" then count_dispatch id (rs_Ref (a_Reservation a)) else mret tt);
      _ ← update_attempt id (fun _ => true) (fun a => a <| a_DispatchedAt := Some (stamp now) |>);
      result ← readAttempt id;
      mret (a, result)))).

Definition dispatch_accepts (c : Clock) (before : Attempt) (a : Attempt) : bool :=
  sameReservation (a_Reservation a) (a_Reservation before) && sameOptionalTime (a_ClaimedAt a) (a_ClaimedAt before)
  && sameOptionalTime (a_GenerationDeadline a) (a_GenerationDeadline before)
  && bool_decide (a_DispatchedAt a = Some (stamp (readings c 1))).

Definition MarkDispatch (f : fate) (c : Clock) (rounds : Round * Round) (id nonce : string) (db : DB) : DB * res batch_error Attempt :=
  confirmed f (dispatch_tx c id nonce) (fun before => confirmAttemptWrite rounds id nonce (dispatch_accepts c before)) db.

(** ** Settlement *)

Definition validObservation (o : AttemptObservation) : bool :=
  let kind := out_Kind (ob_Outcome o) in
  str_in kind ["completed"; "failed"; "rejected"; "policy"; "unconfirmed"; "never_dispatched"]
  && negb (IsZero (ob_ObservedAt o))
  && negb (String.eqb kind "completed" && negb (ob_NativeEntered o))
  && negb (String.eqb kind "never_dispatched" && (ob_NativeEntered o || negb (ob_LocalStopped o)))
  && (slen (observation_text o) <=? 60000).

Definition observationMatchesOwner (a : Attempt) (o : AttemptObservation) : bool :=
  if String.eqb (rs_Kind (a_Reservation a)) "ordinary" then String.eqb (out_ArtifactID (ob_Outcome o)) ""
  else negb (String.eqb (out_Kind (ob_Outcome o)) "completed") || negb (String.eqb (out_ArtifactID (ob_Outcome o)) "").

(** [CASE WHEN $4 THEN $5 ELSE local_stopped_at END] *)
Definition stop_evidence (o : AttemptObservation) (old : option Time) : option Time :=
  if ob_LocalStopped o then Some (stamp (ob_ObservedAt o)) else old.

Definition claimed_by (nonce : string) (a : Attempt) : bool := String.eqb (a_ClaimID a) nonce.
(** The owner's test of [StageAttempt] and [SettleAttempt]. *)
Definition owned (nonce : string) (a : Attempt) : bool := claimed_by nonce a && negb (is_reserved a).

Definition StageAttempt (f : fate) (id nonce : string) (o : AttemptObservation) (db : DB) : DB * res batch_error Attempt :=
  if negb (validObservation o) then (db, Err ErrSettlementConflict)
  else ledger f (
    a ← readAttempt id;
    guard (negb (owned nonce a)) ErrClaimOwned (
    guard (negb (observationMatchesOwner a o)) ErrSettlementConflict (
    match a_Observation a with
    | Some old => guard (negb (sameTerminalObservation old o)) ErrSettlementConflict (mret a)
    | None =>
        stored ← jsonb_observation o;
        _ ← update_attempt id (claimed_by nonce)
              (fun a => a <| a_Observation := Some stored |> <| a_StoppedAt ::= stop_evidence o |>);
        readAttempt id
    end))) db.

Definition in_state (state : string) (key : ItemKey) (scope job : string) (i : ItemRow) : bool :=
  String.eqb key.1.1 scope && String.eqb key.1.2 job && (String.eqb state "" || String.eqb (it_State i) state).
Definition count_rows (f : ItemKey → ItemRow → bool) (db : DB) : Z :=
  llen (List.filter (fun kv => f kv.1 kv.2) (map_to_list (db_items db))).
Definition counts (scope job : string) (db : DB) : Counts :=
  let n state := count_rows (fun key => in_state state key scope job) db in
  MkCounts (n "") (n "queued") (n "active") (n "waiting") (n "succeeded") (n "failed").

Definition fillAttemptCounts (a : Attempt) : Tx Attempt :=
  let r := a_Reservation a in
  if negb (String.eqb (rs_Kind r) "job") then mret a
  else c ← ask (counts (ref_Scope (rs_Ref r)) (ref_JobID (rs_Ref r))); mret (a <| a_Counts := c |>).

Definition refusal_exhausted : ItemError := MkItemError "refusal_budget_exhausted" "The item reached its refusal budget." 0.
Definition deadline_before_dispatch : ItemError := MkItemError "job_deadline_exceeded" "The job deadline expired before dispatch." 0.

(** The next state, the outcome and the attempts of an item, with the two readings
    of the clock. *)
Definition item_after (now1 now2 : Time) (dispatched : bool) (attempts : Z) (deadline : Time) (out : Outcome) : string * Outcome * Z :=
  let kind := out_Kind out in
  let state := if String.eqb kind "completed" then "succeeded" else "failed" in
  if String.eqb kind "rejected" then
    if attempts <? 16 then (if Before now1 deadline then "waiting" else state, out, attempts)
    else (state, out <| out_Kind := "failed" |> <| out_Error := Some refusal_exhausted |>, attempts)
  else if String.eqb kind "never_dispatched" then
    let attempts := if dispatched then Z.max 0 (attempts - 1) else attempts in
    if Before now2 deadline then ("queued", out, attempts)
    else (state, out <| out_Kind := "failed" |> <| out_Error := Some deadline_before_dispatch |>, attempts)
  else (state, out, attempts).

Definition requeued (state : string) : bool := str_in state ["queued"; "waiting"].
Definition terminal (state : string) : bool := str_in state ["succeeded"; "failed"].

Definition item_settled (state : string) (out : Outcome) (attempts : Z) (now : Time) (i : ItemRow) : ItemRow :=
  i <| it_State := state |> <| it_Outcome := out |> <| it_CurrentPermit := None |> <| it_Attempts := attempts |>
    <| it_QueuedAt ::= fun old => if requeued state then stamp now else old |>.

(** [now1] and [now2] are its readings of the clock. *)
Definition applyAttemptItem (now1 now2 sql : Time) (a : Attempt) (o : AttemptObservation) : Tx unit :=
  let r := a_Reservation a in
  if String.eqb (rs_Kind r) "ordinary" then
    write (fun db => db <| db_waiters ::= alter (fun w =>
      if String.eqb (w_PermitID w) (rs_PermitID r) then w <| w_ClosedAt ::= coalesce (stamp sql) |> else w) (rs_RequestID r) |>)
  else
    i ← row (fun db => db_items db !! item_key (rs_Ref r));
    j ← row (fun db => db_jobs db !! job_key (rs_Ref r));
    guard (negb (bool_decide (it_CurrentPermit i = Some (rs_PermitID r))) || terminal (it_State i)) ErrSettlementConflict (
      let '(state, out, attempts) := item_after now1 now2 (bool_decide (is_Some (a_DispatchedAt a))) (it_Attempts i) (jb_Deadline j) (ob_Outcome o) in
      stored ← jsonb_outcome out;
      _ ← update_item (rs_Ref r) (item_settled state stored attempts sql);
      update_job (rs_Ref r) (fun j => j <| jb_LastProgress := Some (stamp sql) |> <| jb_LastHeartbeat := Some (stamp sql) |>)).

Definition settle_set (stored o : AttemptObservation) (a : Attempt) : Attempt :=
  a <| a_State := "settled" |> <| a_Observation := Some stored |> <| a_SettlementRevision := 1 |> <| a_StoppedAt ::= stop_evidence o |>.

(** A terminal observation that contradicts what the row holds. *)
Definition contradicts (a : Attempt) (o : AttemptObservation) : bool :=
  match a_Observation a with Some old => negb (sameTerminalObservation old o) | None => false end.
(** A completion needs a finish within the deadline of the attempt. *)
Definition late_completion (a : Attempt) (o : AttemptObservation) : bool :=
  String.eqb (out_Kind (ob_Outcome o)) "completed"
  && match out_FinishedAt (ob_Outcome o) with Some finished => After finished (executionDeadline a) | None => true end.

Definition is_settled (a : Attempt) : bool := String.eqb (a_State a) "settled".

Definition settle_tx (c : Clock) (id nonce : string) (o : AttemptObservation) : Tx Attempt :=
  a ← readAttempt id;
  guard (negb (owned nonce a)) ErrClaimOwned (
  guard (negb (observationMatchesOwner a o)) ErrSettlementConflict (
  if is_settled a then
    guard (negb (bool_decide (is_Some (a_Observation a))) || contradicts a o) ErrSettlementConflict (fillAttemptCounts a)
  else
    guard (contradicts a o) ErrSettlementConflict (
    guard (ob_NativeEntered o && negb (bool_decide (is_Some (a_DispatchedAt a)))) ErrSettlementConflict (
    guard (late_completion a o) ErrSettlementConflict (
      _ ← applyAttemptItem (readings c 0) (readings c 1) (sql_now c) a o;
      stored ← jsonb_observation o;
      _ ← update_attempt id (claimed_by nonce) (settle_set stored o);
      result ← readAttempt id;
      fillAttemptCounts result))))).

(** The readback of a settlement that was not acknowledged. *)
Definition settled_by (nonce : string) (o : AttemptObservation) (a : Attempt) : bool :=
  is_settled a && claimed_by nonce a && bool_decide (is_Some (a_Observation a)) && negb (contradicts a o).

Definition SettleAttempt (f : fate) (c : Clock) (again : Round) (id nonce : string) (o : AttemptObservation) (db : DB)
  : DB * res batch_error Attempt :=
  if negb (validObservation o) then (db, Err ErrSettlementConflict)
  else
    let '(db', r, _) := ledgerTx f (settle_tx c id nonce o) db in
    (db', match r with
          | Ok a => Ok a
          | Err (TxKnown ErrClaimOwned) => Err ErrClaimOwned
          | Err (TxKnown ErrSettlementConflict) => Err ErrSettlementConflict
          | Err e =>
              match (ledgerTx (rd_fate again) (a ← readAttempt id; fillAttemptCounts a) (rd_db again)).1.2 with
              | Ok a => if settled_by nonce o a then Ok a else Err (ledgerError e)
              | Err _ => Err (ledgerError e)
              end
          end).

Definition ExpireReservation (f : fate) (c : Clock) (id : string) (db : DB) : DB * res batch_error Attempt :=
  ledger f (
    a ← readAttempt id;
    if is_settled a then fillAttemptCounts a
    else guard (negb (is_reserved a) || negb (String.eqb (a_ClaimID a) "")) ErrClaimOwned (
    guard (Before (readings c 0) (rs_StartBy (a_Reservation a))) ErrClaimOwned (
      let now := readings c 1 in
      let o := never_sent now in
      _ ← applyAttemptItem (readings c 2) (readings c 3) (sql_now c) a o;
      stored ← jsonb_observation o;
      _ ← update_attempt id is_reserved (settled_never_sent stored now);
      result ← readAttempt id;
      fillAttemptCounts result))) db.

Definition stop_set (at_ : Time) (a : Attempt) : Attempt :=
  a <| a_StoppedAt := Some (stamp at_) |>
    <| a_SettlementRevision ::= fun n => if is_settled a then n + 1 else n |>.

Definition MarkLocalStop (f : fate) (id nonce : string) (at_ : Time) (db : DB) : DB * res batch_error Attempt :=
  ledger f (
    a ← readAttempt id;
    guard (negb (claimed_by nonce a) || String.eqb (a_ClaimID a) "") ErrClaimOwned (
      _ ← (if bool_decide (is_Some (a_StoppedAt a)) then mret tt else update_attempt id (claimed_by nonce) (stop_set at_));
      readAttempt id)) db.

(** ** The queue of ordinary requests *)

Definition same_waiter (old w : RequestWaiter) : bool :=
  String.eqb (w_PoolID old) (w_PoolID w) && (w_Generation old =? w_Generation w) && String.eqb (w_Scope old) (w_Scope w)
  && String.eqb (w_OwnerID old) (w_OwnerID w) && String.eqb (w_ExecutionID old) (w_ExecutionID w) && (w_Ordinal old =? w_Ordinal w)
  && (w_BudgetMS old =? w_BudgetMS w) && time_Equal (w_Deadline old) (stamp (w_Deadline w)).

(** A caller that still waits. *)
Definition pending (pool : string) (now : Time) (w : RequestWaiter) : bool :=
  String.eqb (w_PoolID w) pool && negb (bool_decide (is_Some (w_ClosedAt w))) && After (w_LiveUntil w) now.

(** The row of [INSERT INTO batch_request_waiters]. *)
Definition new_waiter (w : RequestWaiter) (now : Time) (sequence : Z) : RequestWaiter :=
  {| w_WaitingReason := "dispatch_pending"; w_NextAttemptAt := None; w_PoolHeartbeatAt := None; w_RequestID := w_RequestID w;
     w_PoolID := w_PoolID w; w_Scope := w_Scope w; w_OwnerID := w_OwnerID w; w_ExecutionID := w_ExecutionID w;
     w_Generation := w_Generation w; w_Ordinal := w_Ordinal w; w_Sequence := sequence; w_CreatedAt := stamp now;
     w_Deadline := stamp (w_Deadline w); w_LiveUntil := stamp (minTime (Add now requestLiveness) (w_Deadline w));
     w_RetentionUntil := Add (stamp (w_Deadline w)) (24 * Hour); w_BudgetMS := w_BudgetMS w; w_ClosedAt := None;
     w_PoolObservedAt := None; w_PermitID := "" |}.

Definition same_dispatch (w w' : RequestWaiter) : bool :=
  String.eqb (w_PoolID w') (w_PoolID w) && String.eqb (w_Scope w') (w_Scope w) && String.eqb (w_ExecutionID w') (w_ExecutionID w)
  && (w_Ordinal w' =? w_Ordinal w).

Definition valid_waiter (w : RequestWaiter) : bool :=
  validPermitID (w_RequestID w) && validPool (w_PoolID w) && validScope (w_Scope w) && validPermitID (w_OwnerID w)
  && validPermitID (w_ExecutionID w) && negb (w_Generation w <? 2) && negb (w_Ordinal w <? 1) && negb (1024 <? w_Ordinal w)
  && negb (w_BudgetMS w <? 1) && negb (900000 <? w_BudgetMS w).

Definition EnqueueRequest (f : fate) (c : Clock) (w : RequestWaiter) (db : DB) : DB * res batch_error RequestWaiter :=
  if negb (valid_waiter w) then (db, Err ErrConflict)
  else ledger f (
    _ ← guardPool (w_PoolID w) (w_Generation w);
    old ← match pg_uuid (w_RequestID w) with None => fail TxOther | Some id => ask (fun db => db_waiters db !! id) end;
    match old with
    | Some old => guard (negb (same_waiter old w)) ErrConflict (mret old)
    | None =>
        let now := readings c 0 in
        guard (negb (Before now (w_Deadline w)) || After (w_Deadline w) (Add now MaximumGenerationBudget)) ErrConflict (
          waiting ← ask (fun db => llen (List.filter (fun kv => pending (w_PoolID w) now kv.2) (map_to_list (db_waiters db))));
          guard (maximumRequestWaiters <=? waiting) ErrUnavailable (
            sequence ← ask db_sequence;
            let row := new_waiter w now sequence in
            taken ← ask (fun db => exists_row (fun _ => same_dispatch w) (db_waiters db));
            _ ← constraint (negb taken && (w_CreatedAt row <? w_Deadline row));
            _ ← write (fun db => db <| db_waiters ::= insert (w_RequestID w) row |> <| db_sequence ::= Z.succ |>);
            readRequestWaiter (w_RequestID w)))
    end) db.

Definition ReadRequest (f : fate) (c : Clock) (scope id owner : string) (refresh : bool) (db : DB) : DB * res batch_error RequestWaiter :=
  if negb (validScope scope) || negb (validPermitID id) || negb (validPermitID owner) then (db, Err ErrNotFound)
  else ledger f (
    w ← readRequestWaiter id;
    guard (negb (String.eqb (w_Scope w) scope) || negb (String.eqb (w_OwnerID w) owner)) ErrNotFound (
      let now := readings c 0 in
      if refresh && negb (bool_decide (is_Some (w_ClosedAt w))) && Before now (w_LiveUntil w) && Before now (w_Deadline w)
         && Before (w_LiveUntil w) (minTime (Add now (5 * Second)) (w_Deadline w))
      then
        let live := minTime (Add now requestLiveness) (w_Deadline w) in
        _ ← update_waiter (w_RequestID w) (fun w => w <| w_LiveUntil := stamp live |>);
        mret (w <| w_LiveUntil := live |>)
      else mret w)) db.

Definition CancelRequest (f : fate) (c : Clock) (scope id owner : string) (db : DB) : DB * res batch_error unit :=
  if negb (validScope scope) || negb (validPermitID id) || negb (validPermitID owner) then (db, Err ErrNotFound)
  else ledger f (
    found ← match pg_uuid id with None => fail TxOther | Some id => ask (fun db => db_waiters db !! id) end;
    match found with
    | Some w =>
        guard (negb (String.eqb (w_Scope w) scope) || negb (String.eqb (w_OwnerID w) owner)) ErrNotFound (
          update_waiter (w_RequestID w) (fun w => w <| w_ClosedAt ::= coalesce (stamp (sql_now c)) |>))
    | None => fail (TxKnown ErrNotFound)
    end) db.

(** A settled ordinary attempt with evidence that it stopped. *)
Definition retired (a : Attempt) : bool :=
  String.eqb (rs_Kind (a_Reservation a)) "ordinary" && is_settled a && bool_decide (is_Some (a_StoppedAt a)).

Definition acknowledged (pool : string) (generation : Z) (ids : list string) (db : DB) (w : RequestWaiter) : bool :=
  match db_attempts db !! w_PermitID w with
  | Some a =>
      String.eqb (rs_PoolID (a_Reservation a)) pool && (rs_Generation (a_Reservation a) =? generation)
      && str_in (w_PermitID w) ids && retired a
  | None => false
  end.

Definition AcknowledgeRequests (f : fate) (c : Clock) (pool : string) (generation : Z) (ids : list string) (db : DB)
  : DB * res batch_error unit :=
  if negb (validPool pool) || (generation <? 2) || (128 <? llen ids) || negb (forallb validPermitID ids) then (db, Err ErrConflict)
  else ledger f (
    _ ← guardPool pool generation;
    write (fun db => db <| db_waiters ::= fmap (fun w =>
      if acknowledged pool generation ids db w then w <| w_PoolObservedAt ::= coalesce (stamp (sql_now c)) |> else w) |>)) db.

(** [ORDER BY retention_until,request_id] *)
Definition by_retention (v w : RequestWaiter) : Prop :=
  w_RetentionUntil v < w_RetentionUntil w
  ∨ (w_RetentionUntil v = w_RetentionUntil w ∧ string_ltb (w_RequestID w) (w_RequestID v) = false).
#[export] Instance by_retention_dec : RelDecision by_retention.
Proof. intros v w. unfold by_retention. apply _. Defined.

Definition prunable (pool : string) (now : Time) (w : RequestWaiter) : bool :=
  String.eqb (w_PoolID w) pool && Before (w_RetentionUntil w) now
  && (String.eqb (w_PermitID w) "" || bool_decide (is_Some (w_PoolObservedAt w))).

(** One row: the attempt goes first, and when it may not go the waiter stays. *)
Definition prune_row (pool : string) (acc : DB * Z) (w : RequestWaiter) : DB * Z :=
  let '(db, deleted) := acc in
  let gone := (db <| db_waiters ::= delete (w_RequestID w) |>, deleted + 1) in
  if String.eqb (w_PermitID w) "" then gone
  else match db_attempts db !! w_PermitID w with
       | Some a =>
           if String.eqb (rs_PoolID (a_Reservation a)) pool && retired a
           then (db <| db_attempts ::= delete (w_PermitID w) |> <| db_waiters ::= delete (w_RequestID w) |>, deleted + 1)
           else acc
       | None => acc
       end.

(** [locked] holds of the rows that another transaction has locked and that are
    skipped. *)
Definition PruneRequests (f : fate) (c : Clock) (locked : string → bool) (pool : string) (limit : Z) (db : DB) : DB * res batch_error Z :=
  if negb (validPool pool) || (limit <? 1) || (128 <? limit) then (db, Err ErrConflict)
  else ledger f (fun db =>
    let rows := merge_sort by_retention
      (List.filter (fun w => prunable pool (sql_now c) w && negb (locked (w_RequestID w))) (map snd (map_to_list (db_waiters db)))) in
    let '(db, deleted) := foldl (prune_row pool) (db, 0) (take (Z.to_nat limit) rows) in
    Ok (deleted, db)) db.

(** ** Jobs and items *)

Record JobRef := MkJobRef {
  jr_Scope : string; jr_JobID : string; jr_Count : Z; jr_CreatedAt : Time; jr_Deadline : Time; jr_WorkflowID : string }.

Definition AttachJob (f : fate) (pool : string) (generation : Z) (job : JobRef) (db : DB) : DB * res batch_error unit :=
  if negb (validPool pool) || negb (validScope (jr_Scope job)) || negb (validPermitID (jr_JobID job)) then (db, Err ErrConflict)
  else ledger f (
    _ ← guardPool pool generation;
    found ← match pg_uuid (jr_JobID job) with None => fail TxOther | Some id => ask (fun db => db_jobs db !! (jr_Scope job, id)) end;
    match found with
    | Some j =>
        guard (negb (String.eqb (jb_PoolID j) "") && negb (String.eqb (jb_PoolID j) pool)) ErrConflict (
          update_job (MkRef (jr_Scope job) (jr_JobID job) 0) (fun j => j <| jb_PoolID := pool |>))
    | None => fail (TxKnown ErrConflict)
    end) db.

Definition job_expired : Outcome :=
  zeroOutcome <| out_Kind := "failed" |>
    <| out_Error := Some (MkItemError "job_deadline_exceeded" "The job deadline expired before this item completed." 0) |>.

(** An item of the job that no permit holds and that has not ended. *)
Definition expirable (scope job : string) (key : ItemKey) (i : ItemRow) : bool :=
  in_state "" key scope job i && negb (terminal (it_State i)) && negb (bool_decide (is_Some (it_CurrentPermit i))).

Definition Expire (f : fate) (c : Clock) (j : JobRef) (db : DB) : DB * res tx_error unit :=
  let '(db', r, _) := ledgerTx f (
    _ ← row (fun db => db_jobs db !! (jr_Scope j, jr_JobID j));
    stored ← jsonb_outcome job_expired;
    _ ← write (fun db => db <| db_items ::= map_imap (fun key i =>
          Some (if expirable (jr_Scope j) (jr_JobID j) key i then i <| it_State := "failed" |> <| it_Outcome := stored |> else i)) |>);
    update_job (MkRef (jr_Scope j) (jr_JobID j) 0) (fun j =>
      j <| jb_LastProgress := Some (stamp (sql_now c)) |> <| jb_WaitingReason := "" |> <| jb_NextAttemptAt := None |>)) db in
  (db', r).

Definition Heartbeat (f : fate) (c : Clock) (r : Ref) (progress : bool) (db : DB) : DB * res tx_error unit :=
  let '(db', a, _) := ledgerTx f (
    let now := Some (stamp (sql_now c)) in
    update_job r (fun j => j <| jb_LastHeartbeat := now |> <| jb_LastProgress ::= fun old => if progress then now else old |>)) db in
  (db', a).

(** The legacy dispatcher's start and end of an item.  [StoredItem] has the columns
    of the item and of its job. *)
Record StoredItem := MkStored {
  si_Item : Item; si_State : string; si_Attempt : Z; si_CreatedAt : Time; si_ReadyAt : Time; si_WasWaiting : bool; si_Deadline : Time;
  si_Outcome : Outcome }.

Definition load (r : Ref) : Tx StoredItem := fun db =>
  match db_items db !! item_key r, db_jobs db !! job_key r with
  | Some i, Some j =>
      Ok (MkStored (MkItem (it_CustomID i) (it_Request i)) (it_State i) (it_Attempts i) (jb_CreatedAt j) (it_QueuedAt i) false
            (jb_Deadline j) (it_Outcome i), db)
  | _, _ => Err (TxKnown ErrNotFound)
  end.

Definition Load (f : fate) (r : Ref) (db : DB) : DB * res tx_error StoredItem :=
  let '(db', v, _) := ledgerTx f (
    match pg_uuid (ref_JobID r) with None => fail TxOther | Some id => load (MkRef (ref_Scope r) id (ref_Index r)) end) db in
  (db', v).

Definition Begin (f : fate) (c : Clock) (r : Ref) (db : DB) : DB * res tx_error StoredItem :=
  let '(db', v, _) := ledgerTx f (
    _ ← row (fun db => db_jobs db !! job_key r);
    v ← load r;
    if terminal (si_State v) then mret v
    else guard (String.eqb (si_State v) "active") ErrConflict (
      _ ← update_item r (fun i => i <| it_State := "active" |> <| it_Attempts ::= Z.succ |>);
      let now := Some (stamp (sql_now c)) in
      _ ← update_job r (fun j => j <| jb_LastHeartbeat := now |> <| jb_LastProgress := now |>);
      mret (v <| si_WasWaiting := String.eqb (si_State v) "waiting" |> <| si_State := "active" |> <| si_Attempt ::= Z.succ |>))) db in
  (db', v).

Definition recorded_state (kind : string) : string :=
  if String.eqb kind "rejected" then "waiting" else if String.eqb kind "completed" then "succeeded" else "failed".

Definition Record_ (f : fate) (c : Clock) (r : Ref) (o : Outcome) (db : DB) : DB * res tx_error Counts :=
  let state := recorded_state (out_Kind o) in
  let '(db', v, _) := ledgerTx f (
    _ ← row (fun db => db_jobs db !! job_key r);
    stored ← jsonb_outcome o;
    _ ← update_item r (fun i =>
          if terminal (it_State i) then i
          else i <| it_State := state |> <| it_Outcome := stored |>
                 <| it_QueuedAt ::= fun old => if String.eqb state "waiting" then stamp (sql_now c) else old |>);
    let now := Some (stamp (sql_now c)) in
    _ ← update_job r (fun j => j <| jb_LastHeartbeat := now |> <| jb_LastProgress := now |>);
    ask (counts (ref_Scope r) (ref_JobID r))) db in
  (db', v).

Definition Cooldown (f : fate) (c : Clock) (jobs : list JobRef) (reason : string) (next : option Time) (db : DB) : DB * res tx_error unit :=
  let '(db', v, _) := ledgerTx f (write (fun db =>
    foldl (fun db j => db <| db_jobs ::= alter (fun row => row <| jb_LastHeartbeat := Some (stamp (sql_now c)) |>
      <| jb_WaitingReason := reason |> <| jb_NextAttemptAt := stamp <$> next |>) (jr_Scope j, jr_JobID j) |>) db jobs)) db in
  (db', v).
End Store.
