(* ===== verification/LedgerQueue.v ===== *)
(** * LedgerQueue: submissions, the ready page and publications

    Models the rest of the store in [src/stateful/batch]: [Create] and [Status] of
    store.go with [Submit] of types.go, [SelectReady] of queue.go, and
    [PublishPool] and [HeartbeatAttempt] of pool_progress.go.  A query is a function
    of the tables; [ORDER BY] is a sort and [row_number] the position in one. *)
From stdpp Require Import gmap pretty sorting.
From S2P Require Import Prelude Json BatchController BatchPool PoolWorkflow Ledger.

Open Scope string_scope.
Open Scope list_scope.
Open Scope Z_scope.

(** ** Orders *)

(** A sort key of integers, the most significant first. *)
Fixpoint key_leb (a b : list Z) : bool :=
  match a, b with
  | x :: a, y :: b => if x =? y then key_leb a b else x <? y
  | _, _ => true
  end.
Definition key_order {A : Type} (key : A → list Z) (a b : A) : Prop := key_leb (key a) (key b) = true.
#[export] Instance key_order_dec {A : Type} (key : A → list Z) : RelDecision (key_order key).
Proof. intros a b. apply bool_eq_dec. Defined.

Section Queue.
Context `{PoolEnv} `{LedgerEnv}.

(** ** Submissions *)

(** The JSON object of a snapshot as [map[string]any], without [timeout_defaulted]. *)
Definition snapshot_object (g : Snapshot) : json :=
  JObj ([("upstream", JStr (sn_ConnectionID g)); ("model", JStr (sn_ModelID g)); ("reasoning_effort", JStr (sn_ReasoningEffort g));
         ("timeout_ms", JNum (pretty (sn_TimeoutMS g)))] ++ sn_Rest g).

(** The request column of a new item, and the text that it has to take, up to the
    order of the members. *)
Definition stored_snapshot (g : Snapshot) : Snapshot :=
  g <| sn_ConnectionID ::= sanitize |> <| sn_ModelID ::= sanitize |> <| sn_ReasoningEffort ::= sanitize |> <| sn_Rest ::= jsonb_members |>.
Definition request_text (g : Snapshot) : string := Marshal (snapshot_object g).

(** A [text] column takes UTF-8 without NUL; [length] counts characters. *)
Definition pg_text (s : string) : bool := String.eqb (sanitize s) s && negb (existsb (Ascii.eqb Ascii.zero) (String.list_ascii_of_string s)).
Definition pg_length (s : string) : Z :=
  llen (List.filter (fun b => negb (between 128 191 (Ascii.nat_of_ascii b))) (String.list_ascii_of_string s)).

Definition same_request (accepted requested : Snapshot) : bool :=
  let requested := if sn_TimeoutDefaulted requested then requested <| sn_TimeoutMS := sn_TimeoutMS accepted |> else requested in
  String.eqb (Marshal (snapshot_object accepted)) (Marshal (snapshot_object requested)).

(** The rows of a job in the order of their index. *)
Definition job_items (scope job : string) (db : DB) : list (Z * ItemRow) :=
  merge_sort (key_order (fun row => [row.1]))
    (omap (fun kv => if String.eqb kv.1.1.1 scope && String.eqb kv.1.1.2 job then Some (kv.1.2, kv.2) else None) (map_to_list (db_items db))).

(** The columns [item_index,custom_id,request] of the job. *)
Definition accepted_rows (scope job : string) (db : DB) : list (Z * string * Snapshot) :=
  map (fun row => (row.1, it_CustomID row.2, it_Request row.2)) (job_items scope job db).

Fixpoint same_rows (n : Z) (rows : list (Z * string * Snapshot)) (items : list Item) : bool :=
  match rows, items with
  | [], [] => true
  | (index, custom, request) :: rows, item :: items =>
      (index =? n) && String.eqb custom (im_CustomID item) && same_request request (im_Generation item) && same_rows (n + 1) rows items
  | _, _ => false
  end.
Definition sameAcceptedSubmission (scope id : string) (items : list Item) (db : DB) : bool := same_rows 0 (accepted_rows scope id db) items.

Definition new_item (now : Time) (item : Item) : ItemRow :=
  MkItemRow (im_CustomID item) (stored_snapshot (im_Generation item)) "queued" 0 (stamp now) zeroOutcome 0 None.

Fixpoint insert_items (scope id : string) (now : Time) (n : Z) (items : list Item) (db : DB) : DB :=
  match items with
  | [] => db
  | item :: items => insert_items scope id now (n + 1) items (db <| db_items ::= insert (scope, id, n) (new_item now item) |>)
  end.

(** The checks and keys of [batch_items]. *)
Definition items_fit (items : list Item) : bool :=
  forallb (fun item => pg_text (im_CustomID item) && (1 <=? pg_length (im_CustomID item)) && (pg_length (im_CustomID item) <=? 128)
                       && jsonb_accepts (request_text (im_Generation item))) items
  && bool_decide (NoDup (map im_CustomID items)).

(** The row that holds the idempotency key, by the unique index. *)
Definition job_with_key (scope keyHash : string) (db : DB) : option (string * JobRow) :=
  match List.filter (fun kv => String.eqb kv.1.1 scope && String.eqb (jb_IdempotencyHash kv.2) keyHash) (map_to_list (db_jobs db)) with
  | (k, j) :: _ => Some (k.2, j)
  | [] => None
  end.

Definition Create (f : fate) (c : Clock) (scope key : string) (items : list Item) (duration : Duration) (db : DB) : DB * res tx_error JobRef :=
  if negb (validScope scope) || String.eqb key "" || (llen items <? 1) || (MaximumItems <? llen items) || (duration <=? 0) then (db, Err TxOther)
  else
    let digest := input_digest items in
    let keyHash := sha256_hex key in
    let id := uuid_sha1 (scope +:+ NUL +:+ key) in
    let now := readings c 0 in
    let ref := MkJobRef scope id (llen items) now (Add now duration) ("hllm-batch-v1/" +:+ id) in
    let '(db', r, _) := ledgerTx f (
      prior ← ask (job_with_key scope keyHash);
      match prior with
      | Some (priorID, j) =>
          let ref := MkJobRef scope priorID (jb_ItemCount j) (jb_CreatedAt j) (jb_Deadline j) (jb_WorkflowID j) in
          if String.eqb (jb_InputDigest j) digest then mret ref
          else guard (negb (jb_ItemCount j =? llen items)) ErrConflict (
            same ← ask (sameAcceptedSubmission scope priorID items);
            guard (negb same) ErrConflict (mret ref))
      | None =>
          taken ← ask (fun db => db_jobs db !! (scope, id));
          _ ← constraint (negb (bool_decide (is_Some taken)) && items_fit items);
          sequence ← ask db_sequence;
          _ ← write (fun db => (insert_items scope id (sql_now c) 0 items db)
                 <| db_jobs ::= insert (scope, id) (MkJobRow keyHash digest (llen items) (jr_WorkflowID ref) (stamp now) "" (stamp (jr_Deadline ref))
                                                    sequence None None "" None) |> <| db_sequence ::= Z.succ |>);
          mret ref
      end) db in
    (db', r).

(** ** The status of a job *)

Definition attemptFinalizationGrace : Duration := 30 * Second.

Record Status := MkStatus {
  st_JobID : string;
  st_Status : string;
  st_Counts : Counts;
  st_CreatedAt : Time;
  st_Deadline : Time;
  st_ExecutionDeadline : option Time;
  st_FinalizationDeadline : option Time;
  st_ObservedAt : Time;
  st_LastWorkerHeartbeat : option Time;
  st_LastProgressAt : option Time;
  st_WaitingReason : string;
  st_NextAttemptAt : option Time;
  st_StatusURL : string;
  st_ResultURL : string;
}.

(** What the row of the job and the states of its items say. *)
Definition read_status (scope id : string) (db : DB) : option Status :=
  j ← db_jobs db !! (scope, id);
  let generation := default 1 (pg_Generation <$> db_pools db !! jb_PoolID j) in
  let staged := 2 <=? generation in
  Some {| st_JobID := id; st_Status := ""; st_Counts := counts scope id db; st_CreatedAt := jb_CreatedAt j; st_Deadline := jb_Deadline j;
          st_ExecutionDeadline := if staged then Some (jb_Deadline j) else None;
          st_FinalizationDeadline := if staged then Some (Add (jb_Deadline j) attemptFinalizationGrace) else None;
          st_ObservedAt := time_zero; st_LastWorkerHeartbeat := jb_LastHeartbeat j; st_LastProgressAt := jb_LastProgress j;
          st_WaitingReason := jb_WaitingReason j; st_NextAttemptAt := jb_NextAttemptAt j; st_StatusURL := ""; st_ResultURL := "" |}.

(** The word for the state of the job, at [now]. *)
Definition status_at (now : Time) (v : Status) : Status :=
  let n := st_Counts v in
  let word := if (0 <? n_Active n) || (0 <? n_Succeeded n + n_Failed n) then "running" else "queued" in
  let word := if negb (String.eqb (st_WaitingReason v) "") && (n_Active n =? 0) then "waiting" else word in
  let v := v <| st_Status := word |> in
  let v := if match st_ExecutionDeadline v with Some t => negb (Before now t) | None => false end && negb (counts_Done n)
           then v <| st_WaitingReason := "persistence_wait" |> <| st_NextAttemptAt := None |> else v in
  if counts_Done n then
    v <| st_Status := (if 0 <? n_Failed n then "completed_with_errors" else "completed") |> <| st_WaitingReason := "" |>
      <| st_NextAttemptAt := None |>
  else v.

Definition store_Status (f : fate) (c : Clock) (scope id : string) (db : DB) : res tx_error Status :=
  if negb (validScope scope) then Err (TxKnown ErrNotFound)
  else match uuid_parse id with
  | None => Err (TxKnown ErrNotFound)
  | Some _ =>
      match (ledgerTx f (
        match pg_uuid id with
        | None => fail TxOther
        | Some id =>
            found ← ask (read_status scope id);
            match found with Some v => mret v | None => fail (TxKnown ErrNotFound) end
        end) db).1.2 with
      | Ok v => Ok (status_at (readings c 0) v)
      | Err e => Err e
      end
  end.

(** [Service.Status] *)
Definition service_Status (f : fate) (c : Clock) (scope id : string) (db : DB) : res tx_error Status :=
  if negb (validScope scope) then Err (TxKnown ErrUnavailable)
  else
    let? v := store_Status f c scope id db in
    let url := "/v1/jobs/" +:+ st_JobID v in
    Ok (v <| st_ObservedAt := readings c 1 |> <| st_StatusURL := url |> <| st_ResultURL := url +:+ "/result" |>).

(** ** Acceptance *)
Definition accept_item (upstream : string) (item : Item) : res tx_error Item :=
  let g := im_Generation item in
  if (slen (im_CustomID item) <? 1) || (128 <? slen (im_CustomID item)) || negb (String.eqb (sn_ConnectionID g) upstream)
     || negb (String.eqb (sn_ModelID g) "gpt-6-luna") || negb (String.eqb (sn_ReasoningEffort g) "low") then Err TxOther
  else
    match resolveNewGenerationBudget (sn_TimeoutMS g) with
    | Err e => Err (TxKnown e)
    | Ok resolved =>
        Ok (item <| im_Generation := (if sn_TimeoutMS g =? 0 then g <| sn_TimeoutDefaulted := true |> else g) <| sn_TimeoutMS := resolved |> |>)
    end.

Fixpoint accept_items (upstream : string) (seen : list string) (items : list Item) : res tx_error (list Item) :=
  match items with
  | [] => Ok []
  | item :: items =>
      if str_in (im_CustomID item) seen then Err TxOther
      else
        let? accepted := accept_item upstream item in
        let? rest := accept_items upstream (im_CustomID item :: seen) items in
        Ok (accepted :: rest)
  end.

(** [starts] is the answer of the workflow service, [f'] and [c'] those of the last
    read. *)
Definition Submit (f f' : fate) (c c' : Clock) (starts : JobRef → bool) (upstream : string) (timeout : Duration) (scope key : string)
    (items : list Item) (db : DB) : DB * res tx_error Status :=
  if negb (validScope scope) || (slen key <? 1) || (128 <? slen key) || (llen items <? 1) || (MaximumItems <? llen items) then (db, Err TxOther)
  else
    match accept_items upstream [] items with
    | Err e => (db, Err e)
    | Ok items =>
        let '(db, r) := Create f c scope key items (if timeout =? 0 then 2 * Hour else timeout) db in
        (db, let? ref := r in
             if negb (starts ref) then Err (TxKnown ErrUnavailable) else service_Status f' c' scope (jr_JobID ref) db)
    end.

(** ** The ready page *)

(** A row of [candidates]. *)
Record Candidate := MkCandidate {
  cd_Scope : string;
  cd_ID : string;
  cd_Sequence : Z;
  cd_Deadline : Time;
  cd_Kind : string;
  cd_Index : Z;
  cd_QueuedAt : Time;
  cd_TimeoutMS : option Z;
  cd_BudgetMS : option Z;
  cd_ItemTurn : Z;
}.

(** [row_number] over the rows in order. *)
Fixpoint numbered {A : Type} (n : Z) (l : list A) : list (Z * A) :=
  match l with [] => [] | a :: l => (n, a) :: numbered (n + 1) l end.

Definition available (excluded : list Ref) (scope job : string) (row : Z * ItemRow) : bool :=
  let '(index, i) := row in
  str_in (it_State i) ["queued"; "waiting"] && negb (bool_decide (is_Some (it_CurrentPermit i)))
  && negb (existsb (fun r => ref_eqb r (MkRef scope job index)) excluded).

(** The first items of a job that wait, the oldest first. *)
Definition job_candidates (excluded : list Ref) (limit : Z) (scope job : string) (j : JobRow) (db : DB) : list Candidate :=
  let rows := merge_sort (key_order (fun row => [it_QueuedAt row.2; row.1])) (List.filter (available excluded scope job) (job_items scope job db)) in
  map (fun row => let '(turn, (index, i)) := row in
         MkCandidate scope job (jb_EnqueueSequence j) (jb_Deadline j) "job" index (it_QueuedAt i) (Some (sn_TimeoutMS (it_Request i))) None turn)
      (numbered 1 (take (Z.to_nat limit) rows)).

Definition live_waiter (pool : string) (generation : Z) (now : Time) (excluded : list string) (w : RequestWaiter) : bool :=
  String.eqb (w_PoolID w) pool && (w_Generation w =? generation) && After (w_Deadline w) now && After (w_LiveUntil w) now
  && negb (bool_decide (is_Some (w_ClosedAt w))) && String.eqb (w_PermitID w) "" && negb (str_in (w_RequestID w) excluded).
Definition waiter_candidate (w : RequestWaiter) : Candidate :=
  MkCandidate (w_Scope w) (w_RequestID w) (w_Sequence w) (w_Deadline w) "ordinary" 0 (w_CreatedAt w) None (Some (w_BudgetMS w)) 1.

Definition candidates (q : QueueSelection) (now : Time) (db : DB) : list Candidate :=
  flat_map (fun kv => let '((scope, job), j) := kv in
              if String.eqb (jb_PoolID j) (qs_PoolID q) && After (jb_Deadline j) now
              then job_candidates (qs_Exclude q) (qs_Limit q) scope job j db else []) (map_to_list (db_jobs db))
  ++ map waiter_candidate (List.filter (live_waiter (qs_PoolID q) (qs_Generation q) now (qs_ExcludeRequests q)) (map snd (map_to_list (db_waiters db)))).

(** The rows of a scope in the order of their turns, the owners after the cursor
    first. *)
Definition scope_turns (cursor : string → Z) (rows : list Candidate) (scope : string) : list (Z * Candidate) :=
  numbered 1 (merge_sort (key_order (fun q => [cd_ItemTurn q; Z.b2z (cd_Sequence q <=? cursor (cd_Scope q)); cd_Sequence q]))
    (List.filter (fun q => String.eqb (cd_Scope q) scope) rows)).
Definition turns (cursor : string → Z) (rows : list Candidate) : list (Z * Candidate) :=
  flat_map (scope_turns cursor rows) (remove_dups (map cd_Scope rows)).

(** [ORDER BY scope_turn,(api_key_hash<=$2),api_key_hash] *)
Definition page_leb (after : string) (a b : Z * Candidate) : bool :=
  let key (x : Z * Candidate) := [x.1; Z.b2z (negb (string_ltb after (cd_Scope x.2)))] in
  if bool_decide (key a = key b) then negb (string_ltb (cd_Scope b.2) (cd_Scope a.2)) else key_leb (key a) (key b).
Definition page_order (after : string) (a b : Z * Candidate) : Prop := page_leb after a b = true.
#[export] Instance page_order_dec after : RelDecision (page_order after).
Proof. intros a b. apply bool_eq_dec. Defined.

Definition ready_rows (q : QueueSelection) (now : Time) (db : DB) : list (Z * Candidate) :=
  let cursor scope := default 0 (db_cursors db !! (qs_PoolID q, scope)) in
  take (Z.to_nat (qs_Limit q)) (merge_sort (page_order (qs_AfterScope q)) (turns cursor (candidates q now db))).

(** A row as an item that is ready; a budget out of range is a conflict. *)
Definition ready_item (x : Candidate) : option ReadyItem :=
  let budget := generationBudget (default 0 (cd_TimeoutMS x)) in
  if budget <=? 0 then None
  else if String.eqb (cd_Kind x) "ordinary" then
    match cd_BudgetMS x with
    | Some b => if (b <? 1) || (900000 <? b) then None
                else Some (MkReady "ordinary" (cd_ID x) (MkRef (cd_Scope x) "" (cd_Index x)) b (cd_Deadline x) (cd_QueuedAt x))
    | None => None
    end
  else Some (MkReady "" "" (MkRef (cd_Scope x) (cd_ID x) (cd_Index x)) (Milliseconds budget) (cd_Deadline x) (cd_QueuedAt x)).

(** The rows are read in order: the items, the scope of the last one, and the
    cursor of each scope at its last owner. *)
Fixpoint read_rows (rows : list Candidate) (page : ReadyPage) (cursors : gmap string Z) : option (ReadyPage * gmap string Z) :=
  match rows with
  | [] => Some (page, cursors)
  | x :: rows =>
      match ready_item x with
      | Some item => read_rows rows (MkReadyPage (rp_Items page ++ [item]) (cd_Scope x)) (<[cd_Scope x := cd_Sequence x]> cursors)
      | None => None
      end
  end.

Definition move_cursors (pool : string) (cursors : gmap string Z) (m : gmap (string * string) Z) : gmap (string * string) Z :=
  foldr (fun kv => insert (pool, kv.1) kv.2) m (map_to_list cursors).

Definition valid_selection (q : QueueSelection) : bool :=
  validPool (qs_PoolID q) && negb (qs_Limit q <? 1) && negb (128 <? qs_Limit q)
  && negb (128 <? llen (qs_Exclude q) + llen (qs_ExcludeRequests q))
  && (String.eqb (qs_AfterScope q) "" || validScope (qs_AfterScope q))
  && forallb validPermitID (qs_ExcludeRequests q)
  && forallb (fun r => validScope (ref_Scope r) && validPermitID (ref_JobID r) && negb (ref_Index r <? 0) && (ref_Index r <? MaximumItems))
       (qs_Exclude q).

Definition SelectReady (f : fate) (c : Clock) (q : QueueSelection) (db : DB) : DB * res batch_error ReadyPage :=
  if negb (valid_selection q) then (db, Err ErrUnavailable)
  else ledger f (
    _ ← guardPool (qs_PoolID q) (qs_Generation q);
    rows ← ask (ready_rows q (stamp (readings c 0)));
    match read_rows (map snd rows) (MkReadyPage [] (qs_AfterScope q)) ∅ with
    | None => fail (TxKnown ErrConflict)
    | Some (page, cursors) =>
        _ ← constraint (forallb (fun kv => 0 <=? kv.2) (map_to_list cursors));
        _ ← write (fun db => db <| db_cursors ::= move_cursors (qs_PoolID q) cursors |>);
        mret page
    end) db.

(** ** Publications *)

(** Five seconds since the last time, on the clock of the database. *)
Definition due (now : Time) (last : option Time) : bool :=
  match last with Some t => t <=? Add now (- (5 * Second)) | None => true end.
Definition beat (now : Time) (last : option Time) : option Time := if due now last then Some now else last.

Definition unfinished_job (k : JobKey) (db : DB) : bool :=
  exists_row (fun key i => bool_decide (key.1 = k) && negb (terminal (it_State i))) (db_items db).
Definition published_job (pool : string) (k : JobKey) (j : JobRow) (db : DB) : bool :=
  String.eqb (jb_PoolID j) pool && unfinished_job k db.
Definition published_waiter (pool : string) (now : Time) (w : RequestWaiter) : bool :=
  pending pool now w && String.eqb (w_PermitID w) "".

Definition pending_sequences (pool : string) (after : Z) (now : Time) (db : DB) : list Z :=
  merge_sort Z.le (List.filter (fun n => after <? n) (
    map (fun kv => jb_EnqueueSequence kv.2) (List.filter (fun kv => published_job pool kv.1 kv.2 db) (map_to_list (db_jobs db)))
    ++ map w_Sequence (List.filter (published_waiter pool now) (map snd (map_to_list (db_waiters db)))))).

(** The [UPDATE]s: the rows they change and what becomes of them. *)
Definition publishes_job (p : PoolPublication) (sequences : list Z) (now : Time) (db : DB) (k : JobKey) (j : JobRow) : bool :=
  published_job (pb_PoolID p) k j db && bool_decide (jb_EnqueueSequence j ∈ sequences)
  && (due now (jb_LastHeartbeat j) || negb (String.eqb (jb_WaitingReason j) (pb_Reason p))
      || negb (bool_decide (jb_NextAttemptAt j = stamp <$> pb_Next p))).
Definition publish_job (p : PoolPublication) (now : Time) (j : JobRow) : JobRow :=
  j <| jb_LastHeartbeat ::= beat now |> <| jb_WaitingReason := pb_Reason p |> <| jb_NextAttemptAt := stamp <$> pb_Next p |>.
Definition publishes_waiter (p : PoolPublication) (sequences : list Z) (now : Time) (w : RequestWaiter) : bool :=
  published_waiter (pb_PoolID p) now w && bool_decide (w_Sequence w ∈ sequences)
  && (due now (w_PoolHeartbeatAt w) || negb (String.eqb (w_WaitingReason w) (pb_Reason p))
      || negb (bool_decide (w_NextAttemptAt w = stamp <$> pb_Next p))).
Definition publish_waiter (p : PoolPublication) (now : Time) (w : RequestWaiter) : RequestWaiter :=
  w <| w_PoolHeartbeatAt ::= beat now |> <| w_WaitingReason := pb_Reason p |> <| w_NextAttemptAt := stamp <$> pb_Next p |>.

Definition store_PublishPool (f : fate) (c : Clock) (p : PoolPublication) (db : DB) : DB * res batch_error PublicationPage :=
  if negb (validPool (pb_PoolID p)) || (pb_Limit p <? 1) || (128 <? pb_Limit p) || (pb_After p <? 0) || negb (validWaitingReason (pb_Reason p))
  then (db, Err ErrUnavailable)
  else ledger f (
    g ← poolRow (pb_PoolID p);
    guard (negb (pg_Generation g =? pb_Generation p)) ErrGenerationFenced (
      let now := stamp (sql_now c) in
      found ← ask (pending_sequences (pb_PoolID p) (pb_After p) now);
      let more := pb_Limit p <? llen found in
      let sequences := take (Z.to_nat (pb_Limit p)) found in
      match last sequences with
      | None => mret (MkPage (pb_After p) false 0)
      | Some after =>
          jobs ← ask (fun db => llen (List.filter (fun kv => publishes_job p sequences now db kv.1 kv.2) (map_to_list (db_jobs db))));
          waiters ← ask (fun db => llen (List.filter (fun kv => publishes_waiter p sequences now kv.2) (map_to_list (db_waiters db))));
          _ ← write (fun db => db
                <| db_jobs ::= map_imap (fun k j => Some (if publishes_job p sequences now db k j then publish_job p now j else j)) |>
                <| db_waiters ::= fmap (fun w => if publishes_waiter p sequences now w then publish_waiter p now w else w) |>);
          mret (MkPage after more (jobs + waiters))
      end)) db.

(** The job of an attempt that its claim still executes. *)
Definition heartbeat_job (permit claim : string) (db : DB) : option JobKey :=
  a ← db_attempts db !! permit;
  if String.eqb (a_ClaimID a) claim && String.eqb (a_State a) "dispatching" && String.eqb (rs_Kind (a_Reservation a)) "job"
  then Some (job_key (rs_Ref (a_Reservation a))) else None.

Definition HeartbeatAttempt (f : fate) (c : Clock) (a : Attempt) (changed : bool) (db : DB) : DB * res batch_error unit :=
  let permit := rs_PermitID (a_Reservation a) in
  if negb (validPermitID permit) || negb (validPermitID (a_ClaimID a)) then (db, Err ErrClaimOwned)
  else ledger f (
    job ← ask (heartbeat_job permit (a_ClaimID a));
    let now := stamp (sql_now c) in
    match job with
    | Some k => write (fun db => db <| db_jobs ::= alter (fun j =>
                  j <| jb_LastHeartbeat ::= beat now |> <| jb_LastProgress ::= fun old => if changed then beat now old else old |>) k |>)
    | None => mret tt
    end) db.
End Queue.
