(* ===== verification/LedgerInvariant.v ===== *)
(** * LedgerInvariant: what every transaction of the ledger keeps

    The invariant of the ledger's tables, how a row may evolve, and that each
    operation of [Ledger] keeps the one and respects the other, whatever becomes of
    its transaction. *)
From stdpp Require Import gmap sorting.
From S2P Require Import Prelude Json BatchController BatchPool PoolWorkflow Ledger LedgerQueue.

Open Scope string_scope.
Open Scope list_scope.
Open Scope Z_scope.

(** ** Inversion of transactions *)

Lemma tx_bind_ok {A B : Type} (m : Tx A) (k : A → Tx B) db b db' :
  (m ≫= k) db = Ok (b, db') ↔ ∃ a db1, m db = Ok (a, db1) ∧ k a db1 = Ok (b, db').
Proof.
  unfold mbind, tx_bind. destruct (m db) as [[a db1]|e].
  - split; [by intros H; exists a, db1 | by intros (a' & db2 & [= <- <-] & H)].
  - split; [done | by intros (a & db1 & [=] & _)].
Qed.
Lemma tx_ret_ok {A : Type} (a b : A) db db' : (mret a : Tx A) db = Ok (b, db') ↔ a = b ∧ db = db'.
Proof. unfold mret, tx_ret. split; [by intros [= <- <-] | by intros [-> ->]]. Qed.
Lemma guard_ok {A : Type} c e (k : Tx A) db b db' : guard c e k db = Ok (b, db') ↔ c = false ∧ k db = Ok (b, db').
Proof. unfold guard. destruct c; naive_solver. Qed.
Lemma fail_ok {A : Type} e db (b : A) db' : fail e db = Ok (b, db') ↔ False.
Proof. done. Qed.
Lemma ask_ok {A : Type} (f : DB → A) db b db' : ask f db = Ok (b, db') ↔ f db = b ∧ db = db'.
Proof. unfold ask. split; [by intros [= <- <-] | by intros [<- <-]]. Qed.
Lemma write_ok f db (b : unit) db' : write f db = Ok (b, db') ↔ f db = db'.
Proof. unfold write. destruct b. split; [by intros [= <-] | by intros <-]. Qed.
Lemma row_ok {A : Type} (f : DB → option A) db b db' : row f db = Ok (b, db') ↔ f db = Some b ∧ db = db'.
Proof. unfold row. destruct (f db); naive_solver. Qed.
Lemma constraint_ok c db (b : unit) db' : constraint c db = Ok (b, db') ↔ c = true ∧ db = db'.
Proof. unfold constraint. destruct c, b; [rewrite tx_ret_ok|]; naive_solver. Qed.

Create Rewrite HintDb tx.
#[export] Hint Rewrite @tx_bind_ok @tx_ret_ok @guard_ok @fail_ok @ask_ok write_ok @row_ok constraint_ok : tx.

(** Takes the successful run of a transaction apart. *)
Ltac tx_inv H :=
  autorewrite with tx in H;
  repeat match type of H with
  | _ ∧ _ => let H1 := fresh H in destruct H as [H1 H]; try subst; autorewrite with tx in H; autorewrite with tx in H1; try tx_inv H1
  | ∃ _, _ => let x := fresh "x" in destruct H as [x H]
  | _ = _ => progress subst
  | False => destruct H
  end.

(** A database is unchanged, or a transaction ran to its end. *)
Lemma ledgerTx_run {A : Type} f (fn : Tx A) db :
  (ledgerTx f fn db).1.1 = db ∨ ∃ a db', fn db = Ok (a, db') ∧ (ledgerTx f fn db).1.1 = db'.
Proof. unfold ledgerTx. destruct f; try by left. all: destruct (fn db) as [[a db']|e]; naive_solver. Qed.

Lemma ledger_run {A : Type} f (fn : Tx A) db :
  (ledger f fn db).1 = db ∨ ∃ a db', fn db = Ok (a, db') ∧ (ledger f fn db).1 = db'.
Proof. unfold ledger. pose proof (ledgerTx_run f fn db) as H. by destruct (ledgerTx f fn db) as [[d r] ch]. Qed.

(** A result is the answer of a transaction that was committed. *)
Lemma ledger_ok {A : Type} f (fn : Tx A) db a :
  (ledger f fn db).2 = Ok a → ∃ db', fn db = Ok (a, db') ∧ (ledger f fn db).1 = db'.
Proof.
  unfold ledger, ledgerTx. destruct f; [|done|..]; destruct (fn db) as [[b db']|e]; cbn; intros H; try done. injection H as <-. eauto.
Qed.

Lemma exists_row_none {K V : Type} `{Countable K} (f : K → V → bool) (m : gmap K V) k v :
  exists_row f m = false → m !! k = Some v → f k v = false.
Proof.
  unfold exists_row. intros He Hv. apply not_true_iff_false. intros Hf. apply not_true_iff_false in He. apply He.
  apply existsb_exists. exists (k, v). split; [|done]. apply list_elem_of_In. by apply elem_of_map_to_list.
Qed.

Lemma alter_some {K V : Type} `{Countable K} (m : gmap K V) k v (f : V → V) : m !! k = Some v → alter f k m = <[k:=f v]> m.
Proof.
  intros Hv. apply map_eq. intros k'. destruct (decide (k = k')) as [<-|Hne].
  - by rewrite lookup_alter_eq, lookup_insert_eq, Hv.
  - by rewrite lookup_alter_ne, lookup_insert_ne.
Qed.

(** ** The invariant *)

(** A canonical identifier denotes itself, and the empty text is no identifier. *)
Class LedgerLaws `{PoolEnv} `{LedgerEnv} : Prop := {
  pg_uuid_valid id : validPermitID id = true → pg_uuid id = Some id;
  uuid_parse_empty : uuid_parse "" = None;
}.

Definition job_attempt (a : Attempt) : Prop := rs_Kind (a_Reservation a) = "job".
Definition ordinary_attempt (a : Attempt) : Prop := rs_Kind (a_Reservation a) = "ordinary".
Definition settled (a : Attempt) : Prop := a_State a = "settled".
Definition attempt_key (a : Attempt) : ItemKey := item_key (rs_Ref (a_Reservation a)).

(** A row of [batch_attempts]: an unclaimed reservation has no evidence, only a
    settlement has a revision, and stop evidence is kept. *)
Record RowOK (p : string) (a : Attempt) : Prop := {
  ro_permit : p ≠ "";
  ro_id : rs_PermitID (a_Reservation a) = p;
  ro_checks : attempt_checks a = true;
  ro_state : a_State a = "reserved" ∨ a_State a = "dispatching" ∨ settled a;
  ro_kind : job_attempt a ∨ ordinary_attempt a;
  ro_reserved : a_State a = "reserved" → a_ClaimID a = "" ∧ a_Observation a = None ∧ a_StoppedAt a = None;
  ro_dispatching : a_State a = "dispatching" → a_ClaimID a ≠ "";
  ro_revision : ¬ settled a → a_SettlementRevision a = 0;
  ro_stopped : ∀ o, a_Observation a = Some o → ob_LocalStopped o = true → is_Some (a_StoppedAt a);
}.

Definition keys_unique (jobs : gmap JobKey JobRow) : Prop :=
  ∀ scope id id' j j', jobs !! (scope, id) = Some j → jobs !! (scope, id') = Some j' → jb_IdempotencyHash j = jb_IdempotencyHash j' → id = id'.

Record LedgerOK (db : DB) : Prop := {
  lk_rows : ∀ p a, db_attempts db !! p = Some a → RowOK p a;
  lk_pool_id : ∀ k g, db_pools db !! k = Some g → pg_PoolID g = k ∧ 0 < pg_Generation g ≤ int64_max;
  lk_waiter_id : ∀ k w, db_waiters db !! k = Some w → w_RequestID w = k;
  (** the generations before the current one have ended *)
  lk_fence : ∀ p a, db_attempts db !! p = Some a → ∃ g, db_pools db !! rs_PoolID (a_Reservation a) = Some g
    ∧ rs_Generation (a_Reservation a) ≤ pg_Generation g
    ∧ (rs_Generation (a_Reservation a) < pg_Generation g → settled a ∧ is_Some (a_StoppedAt a));
  (** the permit that an item names is its one unsettled attempt *)
  lk_current : ∀ k i p, db_items db !! k = Some i → it_CurrentPermit i = Some p →
    it_State i = "active" ∧ ∃ a, db_attempts db !! p = Some a ∧ job_attempt a ∧ ¬ settled a ∧ attempt_key a = k
                               ∧ a_Ordinal a = it_ReservationOrdinal i;
  lk_item : ∀ p a, db_attempts db !! p = Some a → job_attempt a → ∃ i, db_items db !! attempt_key a = Some i
    ∧ a_Ordinal a ≤ it_ReservationOrdinal i ∧ (¬ settled a → it_CurrentPermit i = Some p);
  lk_job : ∀ k i, db_items db !! k = Some i → is_Some (db_jobs db !! k.1);
  (** an idempotency key of a scope belongs to one job *)
  lk_key : keys_unique (db_jobs db);
  (** a waiter and its attempt name each other *)
  lk_waiter : ∀ k w, db_waiters db !! k = Some w → w_PermitID w ≠ "" →
    ∃ a, db_attempts db !! w_PermitID w = Some a ∧ ordinary_attempt a ∧ rs_RequestID (a_Reservation a) = k;
  lk_request : ∀ p a, db_attempts db !! p = Some a → ordinary_attempt a →
    ∃ w, db_waiters db !! rs_RequestID (a_Reservation a) = Some w ∧ w_PermitID w = p;
}.

(** ** How rows evolve *)

(** A claim, a dispatch and a settlement are written once. *)
Record RowLe (a b : Attempt) : Prop := {
  le_reservation : a_Reservation b = a_Reservation a;
  le_ordinal : a_Ordinal b = a_Ordinal a;
  le_claim : a_ClaimID a ≠ "" → a_ClaimID b = a_ClaimID a ∧ a_ClaimedAt b = a_ClaimedAt a ∧ a_GenerationDeadline b = a_GenerationDeadline a;
  le_unreserved : a_State a ≠ "reserved" → a_State b ≠ "reserved" ∧ a_ClaimID b = a_ClaimID a;
  le_dispatch : ∀ t, a_DispatchedAt a = Some t → a_DispatchedAt b = Some t;
  le_stopped : is_Some (a_StoppedAt a) → is_Some (a_StoppedAt b);
  le_settled : settled a → settled b ∧ a_Observation b = a_Observation a ∧ a_DispatchedAt b = a_DispatchedAt a
                         ∧ a_SettlementRevision a ≤ a_SettlementRevision b;
}.

(** An item keeps its request, and what has ended stays as it ended. *)
Record ItemLe (i j : ItemRow) : Prop := {
  ile_custom : it_CustomID j = it_CustomID i;
  ile_request : it_Request j = it_Request i;
  ile_ordinal : it_ReservationOrdinal i ≤ it_ReservationOrdinal j;
  ile_terminal : terminal (it_State i) = true → j = i;
}.

(** What a job keeps. *)
Definition job_core (j : JobRow) : string * string * Z * string * Time * Time * Z :=
  (jb_IdempotencyHash j, jb_InputDigest j, jb_ItemCount j, jb_WorkflowID j, jb_CreatedAt j, jb_Deadline j, jb_EnqueueSequence j).
Definition jobs_same (m m' : gmap JobKey JobRow) : Prop := ∀ k, job_core <$> m' !! k = job_core <$> m !! k.

Record Evolves (db db' : DB) : Prop := {
  ev_rows : ∀ p a, db_attempts db !! p = Some a →
    (∃ b, db_attempts db' !! p = Some b ∧ RowLe a b) ∨ (db_attempts db' !! p = None ∧ retired a = true);
  ev_items : ∀ k i, db_items db !! k = Some i → ∃ j, db_items db' !! k = Some j ∧ ItemLe i j;
  ev_pools : ∀ k g, db_pools db !! k = Some g → ∃ g', db_pools db' !! k = Some g' ∧ pg_Generation g ≤ pg_Generation g';
  ev_jobs : ∀ k j, db_jobs db !! k = Some j → ∃ j', db_jobs db' !! k = Some j' ∧ job_core j' = job_core j;
  (** a job has the items that it was accepted with *)
  ev_new : ∀ k, is_Some (db_jobs db !! k.1) → is_Some (db_items db' !! k) → is_Some (db_items db !! k);
}.

Lemma RowLe_refl a : RowLe a a.
Proof. split; naive_solver lia. Qed.
Lemma ItemLe_refl i : ItemLe i i.
Proof. split; naive_solver lia. Qed.
(** An item that has not ended may change its state. *)
Lemma open_ItemLe i j :
  terminal (it_State i) = false → it_CustomID j = it_CustomID i → it_Request j = it_Request i → it_ReservationOrdinal j = it_ReservationOrdinal i → ItemLe i j.
Proof. intros Ht E0 E1 E2. split; [done|done|lia|congruence]. Qed.

Lemma jobs_same_refl m : jobs_same m m.
Proof. by intros k. Qed.
Lemma fmap_lookup_some {A B : Type} (f : A → B) (o o' : option A) a :
  f <$> o = f <$> o' → o = Some a → ∃ b, o' = Some b ∧ f b = f a.
Proof. destruct o' as [b|]; intros H ->; [|done]. cbn in H. exists b. naive_solver. Qed.
Lemma jobs_same_fwd m m' k j : jobs_same m m' → m !! k = Some j → ∃ j', m' !! k = Some j' ∧ job_core j' = job_core j.
Proof. intros H Hj. by apply (fmap_lookup_some _ _ _ _ (eq_sym (H k))). Qed.
Lemma jobs_same_some m m' k : jobs_same m m' → is_Some (m !! k) → is_Some (m' !! k).
Proof. intros H [j Hj]. destruct (jobs_same_fwd _ _ _ _ H Hj) as (j' & Hj' & _). eauto. Qed.
Lemma jobs_same_keys m m' : jobs_same m m' → keys_unique m → keys_unique m'.
Proof.
  intros H Hk scope id id' j1 j2 H1 H2 E. destruct (fmap_lookup_some _ _ _ _ (H _) H1) as (i1 & I1 & E1).
  destruct (fmap_lookup_some _ _ _ _ (H _) H2) as (i2 & I2 & E2). apply (Hk scope id id' i1 i2 I1 I2).
  injection E1 as E1 _ _ _ _ _ _. injection E2 as E2 _ _ _ _ _ _. congruence.
Qed.
Lemma jobs_same_alter m k set : (∀ j, job_core (set j) = job_core j) → jobs_same m (alter set k m).
Proof.
  intros Hs k'. destruct (decide (k = k')) as [->|Hne]; [rewrite lookup_alter_eq|by rewrite lookup_alter_ne].
  destruct (m !! k'); [cbn; by rewrite Hs|done].
Qed.

Lemma Evolves_refl db : Evolves db db.
Proof.
  split.
  - intros p a H. left. exists a. split; [done|apply RowLe_refl].
  - intros k i H. exists i. split; [done|apply ItemLe_refl].
  - intros k g H. by exists g.
  - intros k j H. by exists j.
  - done.
Qed.

Lemma Evolves_same db db' :
  db_attempts db' = db_attempts db → db_items db' = db_items db → db_pools db' = db_pools db → jobs_same (db_jobs db) (db_jobs db') → Evolves db db'.
Proof.
  destruct (Evolves_refl db) as [E1 E2 E3 E4 E5]. intros Ea Ei Ep Ej. split; [rewrite Ea|rewrite Ei|rewrite Ep| |rewrite Ei]; try done.
  intros k j. by apply jobs_same_fwd.
Qed.

Lemma RowLe_trans a b c : RowLe a b → RowLe b c → RowLe a c.
Proof.
  intros [R1 O1 C1 U1 D1 S1 T1] [R2 O2 C2 U2 D2 S2 T2]. split.
  - congruence.
  - congruence.
  - intros H. destruct (C1 H) as (E1 & E2 & E3). destruct C2 as (F1 & F2 & F3); [congruence|]. repeat split; congruence.
  - intros H. destruct (U1 H) as [E1 E2]. destruct (U2 E1) as [F1 F2]. split; congruence.
  - auto.
  - auto.
  - intros H. destruct (T1 H) as (E1 & E2 & E3 & E4). destruct (T2 E1) as (F1 & F2 & F3 & F4).
    split; [done|]. split; [congruence|]. split; [congruence|lia].
Qed.

Lemma ItemLe_trans i j k : ItemLe i j → ItemLe j k → ItemLe i k.
Proof.
  intros [C1 T1 O1 E1] [C2 T2 O2 E2]. split; [congruence|congruence|lia|]. intros H. pose proof (E1 H) as ->. by apply E2.
Qed.

Lemma is_settled_spec a : is_settled a = true ↔ settled a.
Proof. apply String.eqb_eq. Qed.

Lemma retired_spec a : retired a = true ↔ ordinary_attempt a ∧ settled a ∧ is_Some (a_StoppedAt a).
Proof. unfold retired. rewrite !andb_true_iff, is_settled_spec, bool_decide_eq_true. unfold ordinary_attempt. rewrite String.eqb_eq. tauto. Qed.

Lemma Evolves_rows_job db db' p a :
  Evolves db db' → db_attempts db !! p = Some a → job_attempt a → ∃ b, db_attempts db' !! p = Some b ∧ RowLe a b.
Proof.
  intros E Ha Hj. destruct (ev_rows _ _ E p a Ha) as [H|[_ H]]; [done|]. apply retired_spec in H as [H _].
  unfold job_attempt, ordinary_attempt in *. congruence.
Qed.

(** What an operation does to a database that satisfies the invariant. *)
Definition Kept (db db' : DB) : Prop := LedgerOK db → LedgerOK db' ∧ Evolves db db'.

Lemma Kept_refl db : Kept db db.
Proof. split; [done|apply Evolves_refl]. Qed.

Lemma ledger_Kept {A : Type} f (fn : Tx A) db :
  (∀ a db', fn db = Ok (a, db') → Kept db db') → Kept db (ledger f fn db).1.
Proof. intros H. destruct (ledger_run f fn db) as [->|(a & db' & E & ->)]; [apply Kept_refl|eauto]. Qed.
Lemma ledgerTx_Kept {A : Type} f (fn : Tx A) db :
  (∀ a db', fn db = Ok (a, db') → Kept db db') → Kept db (ledgerTx f fn db).1.1.
Proof. intros H. destruct (ledgerTx_run f fn db) as [->|(a & db' & E & ->)]; [apply Kept_refl|eauto]. Qed.

(** ** Changes of one table *)

Lemma Kept_jobs (db : DB) (f : gmap JobKey JobRow → gmap JobKey JobRow) :
  jobs_same (db_jobs db) (f (db_jobs db)) → Kept db (db <| db_jobs ::= f |>).
Proof.
  intros Hf [R P W F C I J K X Y]. split; [|by apply Evolves_same; try apply jobs_same_refl]. split; try done.
  - intros k i Hi. cbn. eapply jobs_same_some; [exact Hf|]. by eapply J.
  - by apply (jobs_same_keys (db_jobs db)).
Qed.

(** What the invariant sees of a waiter. *)
Definition waiter_core (w : RequestWaiter) : string * string := (w_RequestID w, w_PermitID w).

Lemma Kept_waiters (db : DB) (f : gmap string RequestWaiter → gmap string RequestWaiter) :
  (∀ k, waiter_core <$> f (db_waiters db) !! k = waiter_core <$> db_waiters db !! k) → Kept db (db <| db_waiters ::= f |>).
Proof.
  intros Hf [R P W F C I J K X Y]. split; [|by apply Evolves_same; try apply jobs_same_refl]. split; try done.
  - intros k w Hw. destruct (fmap_lookup_some _ _ _ _ (Hf k) Hw) as (w' & Hw' & [= <- _]). by apply W.
  - intros k w Hw. destruct (fmap_lookup_some _ _ _ _ (Hf k) Hw) as (w' & Hw' & [= _ <-]). by apply X.
  - intros p a Ha Ho. destruct (Y p a Ha Ho) as (w & Hw & <-).
    destruct (fmap_lookup_some _ _ _ _ (eq_sym (Hf _)) Hw) as (w' & Hw' & [= _ Ew]). by exists w'.
Qed.

Lemma Kept_update_waiter (db : DB) k (set : RequestWaiter → RequestWaiter) :
  (∀ w, waiter_core (set w) = waiter_core w) → Kept db (db <| db_waiters ::= alter set k |>).
Proof.
  intros Hs. apply Kept_waiters. intros k'. destruct (decide (k = k')) as [->|Hne].
  - rewrite lookup_alter_eq. destruct (db_waiters db !! k'); [cbn; by rewrite Hs|done].
  - by rewrite lookup_alter_ne.
Qed.

(** A change of an item that leaves its owner alone. *)
Record item_same (i j : ItemRow) : Prop := {
  is_le : ItemLe i j;
  is_permit : it_CurrentPermit j = it_CurrentPermit i;
  is_ordinal : it_ReservationOrdinal j = it_ReservationOrdinal i;
  is_owned : is_Some (it_CurrentPermit i) → it_State j = it_State i;
}.

Lemma Kept_items (db : DB) (f : gmap ItemKey ItemRow → gmap ItemKey ItemRow) :
  (∀ k, option_Forall2 item_same (db_items db !! k) (f (db_items db) !! k)) → Kept db (db <| db_items ::= f |>).
Proof.
  intros Hf [R P W F C I J K X Y].
  assert (∀ k j, f (db_items db) !! k = Some j → ∃ i, db_items db !! k = Some i ∧ item_same i j) as Hb.
  { intros k j Hj. specialize (Hf k). rewrite Hj in Hf. inversion Hf; subst. eauto. }
  assert (∀ k i, db_items db !! k = Some i → ∃ j, f (db_items db) !! k = Some j ∧ item_same i j) as Hw.
  { intros k i Hi. specialize (Hf k). rewrite Hi in Hf. inversion Hf; subst. eauto. }
  split.
  - split; try done.
    + intros k j p Hj Hp. destruct (Hb k j Hj) as (i & Hi & [_ E1 E2 E3]). rewrite E1 in Hp.
      destruct (C k i p Hi Hp) as (Hs & a & Ha). rewrite E2, E3 by (rewrite Hp; eauto). eauto.
    + intros p a Ha Hk. destruct (I p a Ha Hk) as (i & Hi & Ho & Hc). destruct (Hw _ i Hi) as (j & Hj & [_ E1 E2 E3]).
      exists j. split; [done|]. rewrite E1, E2. done.
    + intros k j Hj. destruct (Hb k j Hj) as (i & Hi & _). by eapply J.
  - destruct (Evolves_refl db) as [E1 _ E3 E4 _]. split; try done.
    + intros k i Hi. destruct (Hw k i Hi) as (j & Hj & [Hl _ _ _]). eauto.
    + intros k _ [j Hj]. destruct (Hb k j Hj) as (i & Hi & _). eauto.
Qed.

Lemma Kept_update_item (db : DB) k (set : ItemRow → ItemRow) :
  (∀ i, db_items db !! k = Some i → item_same i (set i)) → Kept db (db <| db_items ::= alter set k |>).
Proof.
  intros Hs. apply Kept_items. intros k'. destruct (decide (k = k')) as [<-|Hne].
  - rewrite lookup_alter_eq. destruct (db_items db !! k) as [i|]; constructor. by apply Hs.
  - rewrite lookup_alter_ne by done. destruct (db_items db !! k') as [i|]; constructor. by split; try apply ItemLe_refl.
Qed.

(** Two changes, of which one leaves the attempts alone. *)
Lemma Kept_then db1 db2 db3 :
  db_attempts db2 = db_attempts db1 ∨ db_attempts db3 = db_attempts db2 → Kept db1 db2 → Kept db2 db3 → Kept db1 db3.
Proof.
  intros Hs H1 H2 H. destruct (H1 H) as [O2 E2]. destruct (H2 O2) as [O3 E3]. split; [done|]. split.
  - destruct Hs as [Hs|Hs].
    + intros p a Ha. rewrite <- Hs in Ha. by apply E3.
    + rewrite Hs. by apply E2.
  - intros k i Hi. destruct (ev_items _ _ E2 k i Hi) as (j & Hj & L1). destruct (ev_items _ _ E3 k j Hj) as (l & Hl & L2).
    exists l. split; [done|]. by eapply ItemLe_trans.
  - intros k g Hg. destruct (ev_pools _ _ E2 k g Hg) as (g' & Hg' & L1). destruct (ev_pools _ _ E3 k g' Hg') as (g2 & Hg2 & L2).
    exists g2. split; [done|lia].
  - intros k j Hj. destruct (ev_jobs _ _ E2 k j Hj) as (j' & Hj' & L1). destruct (ev_jobs _ _ E3 k j' Hj') as (j2 & Hj2 & L2).
    exists j2. split; [done|congruence].
  - intros k [j Hj] Hi. destruct (ev_jobs _ _ E2 _ j Hj) as (j' & Hj' & _). apply (ev_new _ _ E2); [eauto|]. apply (ev_new _ _ E3); eauto.
Qed.

Lemma Kept_jobs_waiters (db : DB) f g :
  jobs_same (db_jobs db) (f (db_jobs db)) → (∀ k, waiter_core <$> g (db_waiters db) !! k = waiter_core <$> db_waiters db !! k) →
  Kept db (db <| db_jobs ::= f |> <| db_waiters ::= g |>).
Proof.
  intros Hf Hg. apply (Kept_then db (db <| db_jobs ::= f |>)); [by right|by apply Kept_jobs|by apply (Kept_waiters (db <| db_jobs ::= f |>))].
Qed.

Lemma insert_known {K V : Type} `{Countable K} (m : gmap K V) k v k' : is_Some (m !! k) → is_Some (<[k:=v]> m !! k') → is_Some (m !! k').
Proof. intros Hk. destruct (decide (k = k')) as [<-|]; [done|by rewrite lookup_insert_ne]. Qed.

(** ** Changes of attempts *)

(** A row that stays open, or stays settled. *)
Lemma Kept_row (db : DB) p a b :
  db_attempts db !! p = Some a → RowLe a b → RowOK p b → (settled b → job_attempt a → settled a) →
  Kept db (db <| db_attempts ::= insert p b |>).
Proof.
  intros Ha L Hb Hs [R P W F C I J K X Y]. pose proof L as [Lr Lo Lc Lu Ld Lp Lt].
  assert (∀ q c, db_attempts db !! q = Some c → ∃ c', <[p:=b]> (db_attempts db) !! q = Some c' ∧ RowLe c c' ∧ (settled c' → job_attempt c → settled c)) as Hw.
  { intros q c Hc. destruct (decide (q = p)) as [->|]; [rewrite lookup_insert_eq|rewrite lookup_insert_ne by done].
    - replace c with a by congruence. eauto.
    - exists c. split; [done|]. split; [apply RowLe_refl|done]. }
  split.
  - split; try done; cbn.
    + intros q c Hc. apply lookup_insert_Some in Hc as [[<- <-]|[_ Hc']]; [done|by apply R].
    + intros q c Hc. apply lookup_insert_Some in Hc as [[<- <-]|[_ Hc']]; [|by eapply F].
      rewrite Lr. destruct (F p a Ha) as (g & Hg & Hl & Hf). exists g. split; [done|]. split; [done|].
      intros Hlt. destruct (Hf Hlt) as [E1 E2]. split; [by apply Lt|by apply Lp].
    + intros k i q Hi Hc. destruct (C k i q Hi Hc) as (Es & c & Hcq & Hj & Hn & Hk & Ho). split; [done|].
      destruct (Hw q c Hcq) as (c' & Hc' & Lc' & Hs'). exists c'. destruct Lc' as [Er Eo _ _ _ _ _].
      unfold job_attempt, attempt_key. rewrite Er, Eo. naive_solver.
    + intros q c Hc Hj. apply lookup_insert_Some in Hc as [[<- <-]|[_ Hc']]; [|by eapply I].
      unfold job_attempt in Hj. unfold attempt_key. rewrite Lr in *. destruct (I p a Ha Hj) as (i & Hi & Ho & Hu).
      exists i. split; [done|]. split; [lia|]. intros Hn. apply Hu. intros Hsa. apply Hn. by apply Lt.
    + intros k w Hk Hp. destruct (X k w Hk Hp) as (c & Hc & Ho & Hr). destruct (Hw _ c Hc) as (c' & Hc' & [Er _ _ _ _ _ _] & _).
      exists c'. unfold ordinary_attempt. rewrite Er. done.
    + intros q c Hc Ho. apply lookup_insert_Some in Hc as [[<- <-]|[_ Hc']]; [|by eapply Y].
      unfold ordinary_attempt in Ho. rewrite Lr in *. by apply (Y p a).
  - destruct (Evolves_refl db) as [_ E2 E3 E4 E5]. split; try done. intros q c Hc. left.
    destruct (Hw q c Hc) as (c' & Hc' & Lc' & _). eauto.
Qed.

(** The end of a job's attempt frees its item. *)
Lemma Kept_close (db db' : DB) p a b i j :
  db_attempts db' = <[p:=b]> (db_attempts db) → db_items db' = <[attempt_key a:=j]> (db_items db) →
  db_pools db' = db_pools db → db_waiters db' = db_waiters db → jobs_same (db_jobs db) (db_jobs db') →
  db_attempts db !! p = Some a → job_attempt a → RowLe a b → RowOK p b → settled b →
  db_items db !! attempt_key a = Some i → it_CurrentPermit i = Some p →
  it_CurrentPermit j = None → it_ReservationOrdinal j = it_ReservationOrdinal i → it_Request j = it_Request i → it_CustomID j = it_CustomID i →
  Kept db db'.
Proof.
  intros Ea Ei Ep Ew Ej Ha Hj L Hb Hsb Hi Hp Jp Jo Jt Jc [R P W F C I J K X Y]. pose proof L as [Lr Lo Lc Lu Ld Lp Lt].
  destruct (C _ i p Hi Hp) as (Hact & a' & Ha' & _ & _ & _ & Hord). replace a' with a in * by congruence. clear a' Ha'.
  assert (attempt_key b = attempt_key a) as Ek by (unfold attempt_key; by rewrite Lr).
  split.
  - split; rewrite ?Ea, ?Ei, ?Ep, ?Ew; try done.
    + intros q c Hc. apply lookup_insert_Some in Hc as [[<- <-]|[_ Hc']]; [done|by apply R].
    + intros q c Hc. apply lookup_insert_Some in Hc as [[<- <-]|[_ Hc']]; [|by eapply F].
      rewrite Lr. destruct (F p a Ha) as (g & Hg & Hl & Hf). exists g. split; [done|]. split; [done|].
      intros Hlt. destruct (Hf Hlt) as [E1 E2]. split; [done|by apply Lp].
    + intros k i' q Hi' Hc. destruct (decide (k = attempt_key a)) as [->|Hne].
      { rewrite lookup_insert_eq in Hi'. injection Hi' as <-. congruence. }
      rewrite lookup_insert_ne in Hi' by done. destruct (C k i' q Hi' Hc) as (Es & c & Hcq & H1 & H2 & H3 & H4).
      split; [done|]. exists c. split; [|done]. rewrite lookup_insert_ne; [done|]. intros <-. congruence.
    + intros q c Hc Hjc. apply lookup_insert_Some in Hc as [[<- <-]|[Hne Hc']].
      * exists j. rewrite Ek, lookup_insert_eq. split; [done|]. split; [lia|done].
      * destruct (I q c Hc' Hjc) as (i' & Hi' & Ho & Hu). destruct (decide (attempt_key c = attempt_key a)) as [E|E].
        -- rewrite E in *. replace i' with i in * by congruence. exists j. rewrite lookup_insert_eq. split; [done|]. split; [lia|].
           intros Hn. specialize (Hu Hn). congruence.
        -- exists i'. by rewrite lookup_insert_ne.
    + intros k i' Hi'. eapply jobs_same_some; [exact Ej|]. destruct (decide (k = attempt_key a)) as [->|Hne]; [by eapply J|].
      rewrite lookup_insert_ne in Hi' by done. by eapply J.
    + by eapply jobs_same_keys.
    + intros k w Hk Hpw. destruct (X k w Hk Hpw) as (c & Hc & Ho & Hr). exists c. split; [|done].
      rewrite lookup_insert_ne; [done|]. intros E. rewrite <- E in Hc. unfold job_attempt, ordinary_attempt in *. congruence.
    + intros q c Hc Ho. apply lookup_insert_Some in Hc as [[<- <-]|[_ Hc']]; [|by eapply Y].
      unfold job_attempt, ordinary_attempt in *. congruence.
  - destruct (Evolves_refl db) as [E1 E2 E3 E4 E5]. split; rewrite ?Ea, ?Ei, ?Ep; try done.
    + intros q c Hc. left. destruct (decide (q = p)) as [->|]; [rewrite lookup_insert_eq|rewrite lookup_insert_ne by done].
      * exists b. split; [done|]. congruence.
      * exists c. split; [done|apply RowLe_refl].
    + intros k i' Hi'. destruct (decide (k = attempt_key a)) as [->|Hne].
      * exists j. rewrite lookup_insert_eq. split; [done|]. replace i' with i by congruence.
        split; [done|done|lia|]. rewrite Hact. done.
      * exists i'. rewrite lookup_insert_ne by done. split; [done|apply ItemLe_refl].
    + intros k jk. by apply jobs_same_fwd.
    + intros k _. apply insert_known. eauto.
Qed.

(** The new attempt of a generation that is current. *)
Definition current_generation (db : DB) (a : Attempt) : Prop :=
  ∃ g, db_pools db !! rs_PoolID (a_Reservation a) = Some g ∧ pg_Generation g = rs_Generation (a_Reservation a).

Lemma insert_Evolves (db db' : DB) p b :
  db_attempts db' = <[p:=b]> (db_attempts db) → db_attempts db !! p = None → db_pools db' = db_pools db →
  jobs_same (db_jobs db) (db_jobs db') → (∀ k, is_Some (db_items db' !! k) → is_Some (db_items db !! k)) →
  (∀ k i, db_items db !! k = Some i → ∃ j, db_items db' !! k = Some j ∧ ItemLe i j) → Evolves db db'.
Proof.
  intros Ea Hp Ep Ej En Hi. destruct (Evolves_refl db) as [_ _ E3 _ _]. split; rewrite ?Ea, ?Ep; try done; [|intros k j; by apply jobs_same_fwd|by auto].
  intros q c Hc. left. exists c. split; [|apply RowLe_refl]. rewrite lookup_insert_ne; [done|]. intros <-. congruence.
Qed.

Lemma insert_fence (db : DB) p b : LedgerOK db → current_generation db b →
  ∀ q c, <[p:=b]> (db_attempts db) !! q = Some c → ∃ g, db_pools db !! rs_PoolID (a_Reservation c) = Some g
    ∧ rs_Generation (a_Reservation c) ≤ pg_Generation g
    ∧ (rs_Generation (a_Reservation c) < pg_Generation g → settled c ∧ is_Some (a_StoppedAt c)).
Proof.
  intros H (g & Hg & Eg) q c Hc. apply lookup_insert_Some in Hc as [[<- <-]|[_ Hc]]; [|by eapply lk_fence].
  exists g. split; [done|]. split; [lia|]. lia.
Qed.

Lemma requeued_open state : requeued state = true → terminal state = false.
Proof. intros H. apply str_in_spec in H. rewrite !elem_of_cons in H. by destruct H as [->|[->|H%elem_of_nil]]. Qed.

Lemma Kept_open (db db' : DB) p b i j :
  db_attempts db' = <[p:=b]> (db_attempts db) → db_items db' = <[attempt_key b:=j]> (db_items db) →
  db_pools db' = db_pools db → db_waiters db' = db_waiters db → jobs_same (db_jobs db) (db_jobs db') →
  db_attempts db !! p = None → job_attempt b → RowOK p b → ¬ settled b → current_generation db b →
  db_items db !! attempt_key b = Some i → it_CurrentPermit i = None → requeued (it_State i) = true →
  it_CurrentPermit j = Some p → it_State j = "active" → it_Request j = it_Request i → it_CustomID j = it_CustomID i →
  it_ReservationOrdinal j = it_ReservationOrdinal i + 1 → a_Ordinal b = it_ReservationOrdinal j →
  Kept db db'.
Proof.
  intros Ea Ei Ep Ew Ej Hp Hj Hb Hn Hg Hi Ip Is Jp Js Jt Jc Jo Hord H. pose proof H as [R P W F C I J K X Y]. split.
  - split; rewrite ?Ea, ?Ei, ?Ep, ?Ew; try done.
    + intros q c Hc. apply lookup_insert_Some in Hc as [[<- <-]|[_ Hc]]; [done|by apply R].
    + by apply insert_fence.
    + intros k i' q Hi' Hc. apply lookup_insert_Some in Hi' as [[<- <-]|[Hne Hi']].
      { split; [done|]. exists b. rewrite Jp in Hc. injection Hc as <-. by rewrite lookup_insert_eq. }
      destruct (C k i' q Hi' Hc) as (Es & c & Hcq & H1). split; [done|]. exists c. split; [|done].
      rewrite lookup_insert_ne; [done|]. intros <-. congruence.
    + intros q c Hc Hjc. apply lookup_insert_Some in Hc as [[<- <-]|[Hne Hc]].
      { exists j. rewrite lookup_insert_eq. split; [done|]. split; [lia|done]. }
      destruct (I q c Hc Hjc) as (i' & Hi' & Ho & Hu). destruct (decide (attempt_key c = attempt_key b)) as [E|E].
      * rewrite E in *. replace i' with i in * by congruence. exists j. rewrite lookup_insert_eq. split; [done|]. split; [lia|].
        intros Hs. specialize (Hu Hs). congruence.
      * exists i'. by rewrite lookup_insert_ne.
    + intros k i' Hi'. eapply jobs_same_some; [exact Ej|]. apply lookup_insert_Some in Hi' as [[<- <-]|[Hne Hi']]; by eapply J.
    + by eapply jobs_same_keys.
    + intros k w Hk Hpw. destruct (X k w Hk Hpw) as (c & Hc & Ho). exists c. split; [|done].
      rewrite lookup_insert_ne; [done|]. intros E. rewrite <- E in Hc. congruence.
    + intros q c Hc Ho. apply lookup_insert_Some in Hc as [[<- <-]|[_ Hc]]; [|by eapply Y].
      unfold job_attempt, ordinary_attempt in *. congruence.
  - eapply insert_Evolves; [done..| |]; [intros k; rewrite Ei; apply insert_known; eauto|]. intros k i' Hi'. rewrite Ei. destruct (decide (attempt_key b = k)) as [<-|Hne].
    + exists j. rewrite lookup_insert_eq. split; [done|]. replace i' with i by congruence. split; [done|done|lia|].
      intros Ht. by rewrite (requeued_open _ Is) in Ht.
    + exists i'. rewrite lookup_insert_ne by done. split; [done|apply ItemLe_refl].
Qed.

Lemma Kept_open_request (db db' : DB) p b w w' :
  db_attempts db' = <[p:=b]> (db_attempts db) → db_waiters db' = <[rs_RequestID (a_Reservation b):=w']> (db_waiters db) →
  db_pools db' = db_pools db → db_items db' = db_items db → db_jobs db' = db_jobs db →
  db_attempts db !! p = None → ordinary_attempt b → RowOK p b → current_generation db b →
  db_waiters db !! rs_RequestID (a_Reservation b) = Some w → w_PermitID w = "" →
  w_PermitID w' = p → w_RequestID w' = w_RequestID w →
  Kept db db'.
Proof.
  intros Ea Ew Ep Ei Ej Hp Ho Hb Hg Hw Wp Wp' Wr H. pose proof H as [R P W F C I J K X Y]. split.
  - split; rewrite ?Ea, ?Ei, ?Ep, ?Ew, ?Ej; try done.
    + intros q c Hc. apply lookup_insert_Some in Hc as [[<- <-]|[_ Hc]]; [done|by apply R].
    + intros k v Hv. apply lookup_insert_Some in Hv as [[<- <-]|[_ Hv]]; [rewrite Wr|]; by apply W.
    + by apply insert_fence.
    + intros k i' q Hi' Hc. destruct (C k i' q Hi' Hc) as (Es & c & Hcq & H1). split; [done|]. exists c. split; [|done].
      rewrite lookup_insert_ne; [done|]. intros <-. congruence.
    + intros q c Hc Hjc. apply lookup_insert_Some in Hc as [[<- <-]|[Hne Hc]]; [|by eapply I].
      unfold job_attempt, ordinary_attempt in *. congruence.
    + intros k v Hk Hpw. apply lookup_insert_Some in Hk as [[<- <-]|[_ Hk]].
      { exists b. by rewrite Wp', lookup_insert_eq. }
      destruct (X k v Hk Hpw) as (c & Hc & Hoc). exists c. split; [|done].
      rewrite lookup_insert_ne; [done|]. intros E. rewrite <- E in Hc. congruence.
    + intros q c Hc Hoc. apply lookup_insert_Some in Hc as [[<- <-]|[Hne Hc]].
      { exists w'. by rewrite lookup_insert_eq. }
      destruct (Y q c Hc Hoc) as (v & Hv & Hq). exists v. split; [|done]. rewrite lookup_insert_ne; [done|].
      intros E. rewrite <- E in Hv. pose proof (ro_permit _ _ (R q c Hc)). congruence.
  - eapply insert_Evolves; [done..| | |]; [rewrite Ej; apply jobs_same_refl|by rewrite Ei|]. rewrite Ei. intros k i Hi. exists i. split; [done|apply ItemLe_refl].
Qed.

(** A waiter leaves with its retired attempt, or without one. *)
Lemma Kept_prune (db : DB) w a :
  db_waiters db !! w_RequestID w = Some w → db_attempts db !! w_PermitID w = Some a → retired a = true →
  Kept db (db <| db_attempts ::= delete (w_PermitID w) |> <| db_waiters ::= delete (w_RequestID w) |>).
Proof.
  intros Hw Ha Hr [R P W F C I J K X Y]. apply retired_spec in Hr as Hr'. destruct Hr' as (Hro & Hrs & _).
  assert (w_PermitID w ≠ "") as Hne by (by apply (ro_permit _ _ (R _ a Ha))).
  split.
  - split; cbn; try done.
    + intros q c Hc. apply lookup_delete_Some in Hc as [_ Hc]. by apply R.
    + intros k v Hv. apply lookup_delete_Some in Hv as [_ Hv]. by apply W.
    + intros q c Hc. apply lookup_delete_Some in Hc as [_ Hc]. by eapply F.
    + intros k i q Hi Hc. destruct (C k i q Hi Hc) as (Es & c & Hcq & H1 & H2). split; [done|]. exists c. split; [|done].
      rewrite lookup_delete_ne; [done|]. intros E. rewrite <- E in Hcq. naive_solver congruence.
    + intros q c Hc. apply lookup_delete_Some in Hc as [_ Hc]. by apply I.
    + intros k v Hv Hpv. apply lookup_delete_Some in Hv as [Hk Hv]. destruct (X k v Hv Hpv) as (c & Hc & Ho & Hreq).
      exists c. split; [|done]. rewrite lookup_delete_ne; [done|]. intros E. rewrite <- E in Hc.
      destruct (X _ w Hw Hne) as (c' & Hc' & _ & Hreq'). congruence.
    + intros q c Hc Ho. apply lookup_delete_Some in Hc as [Hq Hc]. destruct (Y q c Hc Ho) as (v & Hv & Hpv). exists v.
      split; [|done]. rewrite lookup_delete_ne; [done|]. intros E. rewrite <- E in Hv. congruence.
  - destruct (Evolves_refl db) as [E1 E2 E3 E4 E5]. split; try done. intros q c Hc. cbn. destruct (decide (w_PermitID w = q)) as [<-|Hq].
    + right. rewrite lookup_delete_eq. split; [done|]. congruence.
    + left. exists c. rewrite lookup_delete_ne by done. split; [done|apply RowLe_refl].
Qed.

Lemma Kept_prune_idle (db : DB) w :
  db_waiters db !! w_RequestID w = Some w → w_PermitID w = "" → Kept db (db <| db_waiters ::= delete (w_RequestID w) |>).
Proof.
  intros Hw Hp [R P W F C I J K X Y]. split; [|by apply Evolves_same; try apply jobs_same_refl]. split; cbn; try done.
  - intros k v Hv. apply lookup_delete_Some in Hv as [_ Hv]. by apply W.
  - intros k v Hv Hpv. apply lookup_delete_Some in Hv as [Hk Hv]. by apply X.
  - intros q c Hc Ho. destruct (Y q c Hc Ho) as (v & Hv & Hpv). exists v. split; [|done].
    rewrite lookup_delete_ne; [done|]. intros E. rewrite <- E in Hv. pose proof (ro_permit _ _ (R q c Hc)). congruence.
Qed.

(** A pool moves on when its attempts have ended. *)
Lemma Kept_pool (db : DB) k g :
  pg_PoolID g = k → 0 < pg_Generation g ≤ int64_max →
  (∀ g0, db_pools db !! k = Some g0 → pg_Generation g0 ≤ pg_Generation g) →
  (∀ p a g0, db_attempts db !! p = Some a → rs_PoolID (a_Reservation a) = k → db_pools db !! k = Some g0 →
     pg_Generation g0 < pg_Generation g → settled a ∧ is_Some (a_StoppedAt a)) →
  Kept db (db <| db_pools ::= insert k g |>).
Proof.
  intros Hk Hpos Hg Hf [R P W F C I J K X Y]. split.
  - split; cbn; try done.
    + intros k' v Hv. apply lookup_insert_Some in Hv as [[<- <-]|[_ Hv]]; [done|by apply P].
    + intros p a Ha. destruct (F p a Ha) as (g0 & Hg0 & Hl & He).
      destruct (decide (k = rs_PoolID (a_Reservation a))) as [E|E]; [|exists g0; by rewrite lookup_insert_ne].
      exists g. rewrite E, lookup_insert_eq. split; [done|]. rewrite <- E in Hg0. pose proof (Hg g0 Hg0). split; [lia|]. intros Hlt.
      destruct (decide (pg_Generation g0 < pg_Generation g)); [by eapply Hf|]. apply He. lia.
  - destruct (Evolves_refl db) as [E1 E2 E3 E4 E5]. split; try done. intros k' v Hv. cbn.
    destruct (decide (k = k')) as [<-|E]; [exists g; rewrite lookup_insert_eq; eauto|].
    exists v. rewrite lookup_insert_ne by done. split; [done|lia].
Qed.

(** ** The statements of the operations *)

Section Operations.
Context `{HP : PoolEnv} `{HL : LedgerEnv} `{Laws : !LedgerLaws}.

Lemma readAttempt_ok id db a db' :
  readAttempt id db = Ok (a, db') ↔ ∃ p, pg_uuid id = Some p ∧ db_attempts db !! p = Some a ∧ db' = db.
Proof.
  unfold readAttempt, find_attempt. rewrite tx_bind_ok. destruct (pg_uuid id) as [p|]; [|naive_solver].
  setoid_rewrite ask_ok. split.
  - intros (o & db1 & [<- <-] & E). destruct (db_attempts db !! p) as [b|] eqn:Eb; [|done]. apply tx_ret_ok in E as [<- <-]. eauto.
  - intros (p' & [= <-] & E & ->). exists (Some a), db. by rewrite E, tx_ret_ok.
Qed.

Lemma update_attempt_ok id cond set db u db' :
  update_attempt id cond set db = Ok (u, db') →
  db' = db ∨ ∃ p a, pg_uuid id = Some p ∧ db_attempts db !! p = Some a ∧ cond a = true ∧ attempt_checks (set a) = true
                  ∧ db' = db <| db_attempts ::= insert p (set a) |>.
Proof.
  unfold update_attempt. destruct (pg_uuid id) as [p|] eqn:Ep; [|done]. rewrite tx_bind_ok. intros (o & db1 & [<- <-]%ask_ok & E).
  destruct (db_attempts db !! p) as [a|] eqn:Ea; [|apply tx_ret_ok in E as [_ <-]; by left].
  destruct (cond a) eqn:Ec; [|apply tx_ret_ok in E as [_ <-]; by left].
  apply tx_bind_ok in E as ([] & db2 & [Hc <-]%constraint_ok & <-%write_ok). right. by exists p, a.
Qed.

Lemma guardPool_ok pool generation db u db' :
  guardPool pool generation db = Ok (u, db') →
  db' = db ∧ ∃ g, db_pools db !! pool = Some g ∧ pg_Generation g = generation ∧ pg_Mode g = "active".
Proof.
  unfold guardPool, poolRow. rewrite tx_bind_ok. intros (g & db1 & [Hg <-]%row_ok & E). rewrite guard_ok, tx_ret_ok in E.
  destruct E as (E & _ & <-). bool_to_prop. eauto.
Qed.

Lemma guardRequestClaim_ok now a nonce db u db' : guardRequestClaim now a nonce db = Ok (u, db') → db' = db.
Proof.
  unfold guardRequestClaim, readRequestWaiter. destruct (negb _); [by intros [_ <-]%tx_ret_ok|].
  rewrite tx_bind_ok. intros (w & db1 & Hw & E). rewrite guard_ok, tx_ret_ok in E. destruct E as (_ & _ & <-).
  destruct (pg_uuid _); [|done]. by apply row_ok in Hw as [_ <-].
Qed.

Lemma fillAttemptCounts_ok a db b db' : fillAttemptCounts a db = Ok (b, db') → db' = db.
Proof.
  unfold fillAttemptCounts. destruct (negb _); [by intros [_ <-]%tx_ret_ok|]. rewrite tx_bind_ok.
  intros (c & db1 & [_ <-]%ask_ok & [_ <-]%tx_ret_ok). done.
Qed.

Lemma jsonb_observation_ok o db stored db' :
  jsonb_observation o db = Ok (stored, db') → stored = read_observation o ∧ db' = db.
Proof. unfold jsonb_observation. destruct (jsonb_accepts _); [by intros [<- <-]%tx_ret_ok|done]. Qed.
Lemma jsonb_outcome_ok o db stored db' : jsonb_outcome o db = Ok (stored, db') → stored = read_outcome o ∧ db' = db.
Proof. unfold jsonb_outcome. destruct (jsonb_accepts _); [by intros [<- <-]%tx_ret_ok|done]. Qed.

(** An update of a row that is left open or settled, as it was. *)
Lemma update_attempt_Kept id cond set db u db' :
  update_attempt id cond set db = Ok (u, db') →
  (∀ p a, pg_uuid id = Some p → db_attempts db !! p = Some a → RowOK p a → cond a = true → attempt_checks (set a) = true →
     RowLe a (set a) ∧ RowOK p (set a) ∧ (settled (set a) → job_attempt a → settled a)) →
  Kept db db'.
Proof.
  intros [->|(p & a & Hp & Ha & Hc & Hk & ->)]%update_attempt_ok Hs; [apply Kept_refl|].
  intros O. destruct (Hs p a Hp Ha (lk_rows _ O p a Ha) Hc Hk) as (H1 & H2 & H3). by eapply Kept_row.
Qed.

(** ** Pools *)

Lemma set_pool_ok g k db u db' :
  set_pool g db = Ok (u, db') → pg_PoolID g = k → 0 < pg_Generation g ≤ int64_max ∧ db' = db <| db_pools ::= insert k g |>.
Proof.
  unfold set_pool. rewrite tx_bind_ok. intros ([] & db1 & [E <-]%constraint_ok & <-%write_ok) <-. bool_to_prop. split; [lia|done].
Qed.

Lemma EnsurePool_Kept f id generation db : Kept db (EnsurePool f id generation db).1.
Proof.
  unfold EnsurePool. destruct (_ || _) eqn:E; [apply Kept_refl|]. apply ledger_Kept. intros a db' T.
  apply tx_bind_ok in T as (known & db1 & [Hk <-]%ask_ok & T). apply tx_bind_ok in T as (u & db2 & T & [-> _]%guardPool_ok).
  destruct known as [g|]; [apply tx_ret_ok in T as [_ <-]; apply Kept_refl|]. apply (set_pool_ok _ id) in T as [Hpos ->]; [|done].
  apply Kept_pool; [done..| |]; intros *; rewrite Hk; done.
Qed.

(** A row that moves on, when it must with no attempt outstanding. *)
Lemma set_pool_Kept g g' k db u db' :
  set_pool g' db = Ok (u, db') → db_pools db !! k = Some g → pg_PoolID g' = pg_PoolID g →
  (0 < pg_Generation g ≤ int64_max → 0 < pg_Generation g' → pg_Generation g ≤ pg_Generation g') →
  (pg_Generation g' = pg_Generation g ∨ outstanding k db = false) → Kept db db'.
Proof.
  intros T Hg Eg Hle Ho O. destruct (lk_pool_id _ O _ _ Hg) as [Ek Hr].
  destruct (set_pool_ok _ k _ _ _ T) as [Hpos ->]; [congruence|]. specialize (Hle Hr (proj1 Hpos)).
  refine (Kept_pool _ _ _ _ _ _ _ O); [congruence|done|rewrite Hg; by intros ? [= <-]|].
  intros p a g0 Ha Hp. rewrite Hg. intros [= <-] Hlt. destruct Ho as [Ho|Ho]; [lia|]. apply orb_false_iff in Ho as [Ho _].
  pose proof (exists_row_none _ _ p a Ho Ha) as Hu. unfold unfinished in Hu. rewrite Hp, String.eqb_refl in Hu. cbn in Hu.
  apply orb_false_iff in Hu as [Hu1 Hu2]. apply negb_false_iff in Hu1, Hu2. apply bool_decide_eq_true in Hu2. by apply is_settled_spec in Hu1.
Qed.

Lemma QuiescePool_Kept f id generation db : Kept db (QuiescePool f id generation db).1.
Proof.
  unfold QuiescePool, poolRow. apply ledger_Kept. intros a db' T. apply tx_bind_ok in T as (g & db1 & [Hg <-]%row_ok & T).
  apply guard_ok in T as [_ T]. destruct (String.eqb _ _); [|apply tx_ret_ok in T as [_ <-]; apply Kept_refl].
  eapply (set_pool_Kept g); [exact T|done..|by left].
Qed.

Lemma wrap64_next n : 0 < n ≤ int64_max → 0 < wrap64 (n + 1) → n ≤ wrap64 (n + 1).
Proof.
  intros Hn Hw. destruct (decide (n < int64_max)).
  - rewrite wrap64_id; unfold in_int64, int64_min in *; lia.
  - exfalso. replace n with int64_max in Hw by lia. vm_compute in Hw. done.
Qed.

Lemma AdvancePool_Kept f id from to db : Kept db (AdvancePool f id from to db).1.
Proof.
  unfold AdvancePool, poolRow. destruct (negb _) eqn:Eto; [apply Kept_refl|]. apply ledger_Kept. intros a db' T.
  apply tx_bind_ok in T as (g & db1 & [Hg <-]%row_ok & T). destruct (_ && _); [apply tx_ret_ok in T as [_ <-]; apply Kept_refl|].
  apply guard_ok in T as [Ef T]. apply tx_bind_ok in T as (busy & db1 & [<- <-]%ask_ok & T). apply guard_ok in T as [Hb T].
  eapply (set_pool_Kept g); [exact T|done..| |by right]. bool_to_prop. cbn. rewrite Eto. subst from. apply wrap64_next.
Qed.

Lemma AdoptLegacyPool_Kept f pool db : Kept db (AdoptLegacyPool f pool db).1.
Proof.
  unfold AdoptLegacyPool, poolRow. destruct (negb _); [apply Kept_refl|]. apply ledger_Kept. intros a db' T.
  apply tx_bind_ok in T as (g & db1 & [Hg <-]%row_ok & T). destruct (_ && _).
  { apply tx_bind_ok in T as (n & db1 & [_ <-]%ask_ok & [_ <-]%tx_ret_ok). apply Kept_refl. }
  apply guard_ok in T as [Ef T]. apply tx_bind_ok in T as (busy & db1 & [<- <-]%ask_ok & T).
  apply tx_bind_ok in T as (unknown & db1 & [<- <-]%ask_ok & T). apply guard_ok in T as [_ T]. apply guard_ok in T as [Hb T].
  apply tx_bind_ok in T as (u & db2 & T & T2). apply tx_bind_ok in T2 as (n & db3 & [_ <-]%ask_ok & [_ <-]%tx_ret_ok).
  eapply (set_pool_Kept g); [exact T|done..| |by right]. bool_to_prop. cbn. lia.
Qed.

(** ** Claims, dispatch and evidence *)

Lemma attempt_checks_spec a :
  attempt_checks a = true ↔
  (a_ClaimID a = "" ∧ a_ClaimedAt a = None ∧ a_DispatchedAt a = None ∨ a_ClaimID a ≠ "" ∧ is_Some (a_ClaimedAt a))
  ∧ (a_State a = "reserved" → a_ClaimID a = "") ∧ (settled a → 0 < a_SettlementRevision a ∧ is_Some (a_Observation a)).
Proof.
  unfold attempt_checks, settled. rewrite !andb_true_iff, !orb_true_iff, !andb_true_iff, !negb_true_iff, !bool_decide_eq_true, !bool_decide_eq_false,
    !String.eqb_eq, !String.eqb_neq, Z.ltb_lt, <- !eq_None_not_Some.
  destruct (decide (a_State a = "reserved")), (decide (a_State a = "settled")); naive_solver.
Qed.

Lemma confirmed_db f fn again db : (confirmed f fn again db).1 = (ledgerTx f fn db).1.1.
Proof. unfold confirmed. by destruct (ledgerTx f fn db) as [[d r] ch]. Qed.

Lemma claim_tx_Kept c id nonce db x db' : claim_tx c id nonce db = Ok (x, db') → Kept db db'.
Proof.
  unfold claim_tx. intros T. apply tx_bind_ok in T as (a & db1 & (p & Hp & Ha & ->)%readAttempt_ok & T). apply guard_ok in T as [Hr T].
  apply tx_bind_ok in T as (u & db1 & [-> _]%guardPool_ok & T). apply tx_bind_ok in T as (u' & db1 & ->%guardRequestClaim_ok & T).
  apply guard_ok in T as [_ T]. apply tx_bind_ok in T as (v & db1 & T & T2).
  apply tx_bind_ok in T2 as (b & db2 & (q & _ & _ & ->)%readAttempt_ok & [_ <-]%tx_ret_ok).
  eapply update_attempt_Kept; [exact T|]. intros p' b' Hq Hb [] Hc Hk. unfold is_reserved in Hc. apply String.eqb_eq in Hc.
  destruct (ro_reserved0 Hc) as (E1 & E2 & E3). apply attempt_checks_spec in Hk as Hk'. apply attempt_checks_spec in ro_checks0. split_and!.
  - split; cbn; unfold settled; naive_solver congruence.
  - cbn in Hk'. split; cbn; unfold job_attempt, ordinary_attempt, settled in *; naive_solver congruence.
  - unfold settled. cbn. done.
Qed.

Lemma ClaimAttempt_Kept f c rounds id nonce db : Kept db (ClaimAttempt f c rounds id nonce db).1.
Proof.
  unfold ClaimAttempt. destruct (_ || _); [apply Kept_refl|]. rewrite confirmed_db. apply ledgerTx_Kept. intros. by eapply claim_tx_Kept.
Qed.

Lemma update_item_Kept r set db u db' :
  update_item r set db = Ok (u, db') → (∀ i, db_items db !! item_key r = Some i → item_same i (set i)) →
  Kept db db' ∧ db_attempts db' = db_attempts db.
Proof. intros <-%write_ok Hs. split; [by apply Kept_update_item|done]. Qed.

Lemma update_job_Kept r set db u db' :
  update_job r set db = Ok (u, db') → (∀ j, job_core (set j) = job_core j) → Kept db db' ∧ db_attempts db' = db_attempts db.
Proof. intros <-%write_ok Hs. split; [|done]. apply Kept_jobs. by apply jobs_same_alter. Qed.

Lemma count_dispatch_Kept id r db u db' :
  count_dispatch id r db = Ok (u, db') → Kept db db' ∧ db_attempts db' = db_attempts db.
Proof.
  unfold count_dispatch. destruct (pg_uuid id) as [p|]; [|done]. rewrite tx_bind_ok. intros (o & db1 & [<- <-]%ask_ok & T).
  destruct (db_items db !! item_key r) as [i|] eqn:Hi; [|done]. apply guard_ok in T as [G T].
  apply (update_item_Kept r _ _ _ _ T). rewrite Hi. intros ? [= <-]. apply orb_false_iff in G as [G _]. apply orb_false_iff in G as [_ G].
  apply negb_false_iff, String.eqb_eq in G. split; cbn; try done. split; cbn; [done|done|lia|]. rewrite G. done.
Qed.

Lemma dispatch_tx_Kept c id nonce db x db' : dispatch_tx c id nonce db = Ok (x, db') → Kept db db'.
Proof.
  unfold dispatch_tx. intros T. apply tx_bind_ok in T as (a & db1 & (p & Hp & Ha & ->)%readAttempt_ok & T).
  apply guard_ok in T as [Hr T]. apply guard_ok in T as [Hd T].
  apply tx_bind_ok in T as (u & db1 & [-> _]%guardPool_ok & T). apply tx_bind_ok in T as (u' & db1 & ->%guardRequestClaim_ok & T).
  apply guard_ok in T as [_ T]. apply tx_bind_ok in T as (v & db1 & T1 & T). apply tx_bind_ok in T as (v' & db2 & T & T2).
  apply tx_bind_ok in T2 as (b & db3 & (q & _ & _ & ->)%readAttempt_ok & [_ <-]%tx_ret_ok).
  assert (Kept db db1 ∧ db_attempts db1 = db_attempts db) as [K1 E1].
  { destruct (String.eqb (rs_Kind _) _); [exact (count_dispatch_Kept _ _ _ _ _ T1)|]. apply tx_ret_ok in T1 as [_ <-]. split; [apply Kept_refl|done]. }
  eapply Kept_then; [by left|exact K1|]. eapply update_attempt_Kept; [exact T|]. rewrite E1. intros p' a' Hp' Ha' O Hc Hk.
  replace p' with p in * by congruence. replace a' with a in * by congruence. clear p' a' Hp' Ha'. destruct O.
  rewrite !orb_false_iff, !negb_false_iff, !bool_decide_eq_false, !String.eqb_eq in Hr. rewrite bool_decide_eq_false in Hd.
  rewrite <- eq_None_not_Some in Hd. destruct Hr as [[[Hr1 Hr2] Hr3] Hr4].
  split_and!; [split; cbn; unfold settled; naive_solver congruence|split; cbn; done|done].
Qed.

Lemma MarkDispatch_Kept f c rounds id nonce db : Kept db (MarkDispatch f c rounds id nonce db).1.
Proof. unfold MarkDispatch. rewrite confirmed_db. apply ledgerTx_Kept. intros. by eapply dispatch_tx_Kept. Qed.

Lemma stop_evidence_keeps o old : is_Some old → is_Some (stop_evidence o old).
Proof. unfold stop_evidence. destruct (ob_LocalStopped o); eauto. Qed.
Lemma stop_evidence_new o old : ob_LocalStopped o = true → is_Some (stop_evidence o old).
Proof. unfold stop_evidence. intros ->. eauto. Qed.

Lemma owned_spec nonce a : owned nonce a = true ↔ a_ClaimID a = nonce ∧ a_State a ≠ "reserved".
Proof. unfold owned, claimed_by, is_reserved. rewrite andb_true_iff, negb_true_iff, String.eqb_eq, String.eqb_neq. done. Qed.

(** An attempt that holds no evidence yet is not settled. *)
Lemma unobserved_open p a : RowOK p a → a_Observation a = None → ¬ settled a.
Proof. intros O E S. apply ro_checks, attempt_checks_spec in O as (_ & _ & O). destruct (O S) as [_ [? ?]]. congruence. Qed.

Lemma StageAttempt_Kept f id nonce o db : Kept db (StageAttempt f id nonce o db).1.
Proof.
  unfold StageAttempt. destruct (negb _); [apply Kept_refl|]. apply ledger_Kept. intros x db' T.
  apply tx_bind_ok in T as (a & db1 & (p & Hp & Ha & ->)%readAttempt_ok & T). apply guard_ok in T as [Hw T].
  apply negb_false_iff, owned_spec in Hw as [Hw Hr]. apply guard_ok in T as [_ T]. destruct (a_Observation a) as [old|] eqn:Eo.
  { apply guard_ok in T as [_ T]. apply tx_ret_ok in T as [_ <-]. apply Kept_refl. }
  apply tx_bind_ok in T as (stored & db1 & [-> ->]%jsonb_observation_ok & T). apply tx_bind_ok in T as (u & db1 & T & T2).
  apply readAttempt_ok in T2 as (q & _ & _ & ->). eapply update_attempt_Kept; [exact T|]. intros p' a' Hp' Ha' O Hc Hk.
  replace p' with p in * by congruence. replace a' with a in * by congruence. clear p' a' Hp' Ha'.
  pose proof (unobserved_open _ _ O Eo) as Hn. destruct O. unfold settled in *. split_and!.
  - split; cbn; unfold settled; try done. apply stop_evidence_keeps.
  - split; cbn; unfold job_attempt, ordinary_attempt, settled in *; try done. intros ? [= <-] Hl. by apply stop_evidence_new.
  - done.
Qed.

Lemma MarkLocalStop_Kept f id nonce at_ db : Kept db (MarkLocalStop f id nonce at_ db).1.
Proof.
  unfold MarkLocalStop. apply ledger_Kept. intros x db' T.
  apply tx_bind_ok in T as (a & db1 & (p & Hp & Ha & ->)%readAttempt_ok & T). apply guard_ok in T as [Hw T].
  apply orb_false_iff in Hw as [_ Hw]. apply String.eqb_neq in Hw.
  apply tx_bind_ok in T as (u & db1 & T & (q & _ & _ & ->)%readAttempt_ok).
  destruct (bool_decide _); [apply tx_ret_ok in T as [_ <-]; apply Kept_refl|].
  eapply update_attempt_Kept; [exact T|]. intros p' a' Hp' Ha' O Hc Hk.
  replace p' with p in * by congruence. replace a' with a in * by congruence. clear p' a' Hp' Ha'. destruct O. split_and!.
  - split; cbn; unfold settled in *; try done. intros S. rewrite (proj2 (is_settled_spec a) S). naive_solver lia.
  - split; cbn; unfold job_attempt, ordinary_attempt, settled in *; try done; [naive_solver congruence|].
    intros S. destruct (is_settled a) eqn:E; [by apply is_settled_spec in E|by apply ro_revision0].
  - done.
Qed.

(** ** Settlement *)

Lemma update_attempt_run id cond set db u db' p a :
  update_attempt id cond set db = Ok (u, db') → pg_uuid id = Some p → db_attempts db !! p = Some a → cond a = true →
  attempt_checks (set a) = true ∧ db' = db <| db_attempts ::= insert p (set a) |>.
Proof.
  unfold update_attempt. intros T Hp Ha Hc. rewrite Hp in T. apply tx_bind_ok in T as (o & db1 & [<- <-]%ask_ok & T).
  rewrite Ha, Hc in T. by apply tx_bind_ok in T as ([] & db2 & [Hk <-]%constraint_ok & <-%write_ok).
Qed.

Definition request_closed (a : Attempt) (sql : Time) (w : RequestWaiter) : RequestWaiter :=
  if String.eqb (w_PermitID w) (rs_PermitID (a_Reservation a)) then w <| w_ClosedAt ::= coalesce (stamp sql) |> else w.

Lemma applyAttemptItem_ok now1 now2 sql a o db u db' :
  applyAttemptItem now1 now2 sql a o db = Ok (u, db') →
  (ordinary_attempt a ∧ db' = db <| db_waiters ::= alter (request_closed a sql) (rs_RequestID (a_Reservation a)) |>)
  ∨ (¬ ordinary_attempt a ∧ ∃ i j state out attempts, db_items db !! attempt_key a = Some i ∧ db_jobs db !! job_key (rs_Ref (a_Reservation a)) = Some j
      ∧ it_CurrentPermit i = Some (rs_PermitID (a_Reservation a)) ∧ terminal (it_State i) = false
      ∧ item_after now1 now2 (bool_decide (is_Some (a_DispatchedAt a))) (it_Attempts i) (jb_Deadline j) (ob_Outcome o) = (state, out, attempts)
      ∧ jsonb_accepts (outcome_text out) = true
      ∧ db_items db' = <[attempt_key a := item_settled state (read_outcome out) attempts sql i]> (db_items db)
      ∧ db_attempts db' = db_attempts db ∧ db_pools db' = db_pools db ∧ db_waiters db' = db_waiters db
      ∧ jobs_same (db_jobs db) (db_jobs db')).
Proof.
  unfold applyAttemptItem, ordinary_attempt. destruct (String.eqb_spec (rs_Kind (a_Reservation a)) "ordinary") as [E|E].
  { intros <-%write_ok. by left. }
  rewrite tx_bind_ok. intros (i & db1 & [Hi <-]%row_ok & T). apply tx_bind_ok in T as (j & db1 & [Hj <-]%row_ok & T).
  apply guard_ok in T as [G T]. apply orb_false_iff in G as [G1 G2]. apply negb_false_iff, bool_decide_eq_true in G1.
  destruct (item_after _ _ _ _ _ _) as [[state out] attempts] eqn:Ea.
  apply tx_bind_ok in T as (stored & db1 & Hs & T). unfold jsonb_outcome in Hs. destruct (jsonb_accepts _) eqn:Hjs; [|done].
  apply tx_ret_ok in Hs as [<- <-]. apply tx_bind_ok in T as (v & db1 & <-%write_ok & T).
  right. split; [done|]. exists i, j, state, out, attempts. split_and!; try done.
  - apply write_ok in T as <-. cbn. by apply alter_some.
  - by apply write_ok in T as <-.
  - by apply write_ok in T as <-.
  - by apply write_ok in T as <-.
  - apply write_ok in T as <-. by apply jobs_same_alter.
Qed.

Lemma request_closed_core a sql w : waiter_core (request_closed a sql w) = waiter_core w.
Proof. unfold request_closed. by destruct (String.eqb _ _). Qed.

(** The end of an attempt: its item or waiter, and then its row. *)
Lemma end_Kept now1 now2 sql a o id cond set p db u db1 u' db2 :
  applyAttemptItem now1 now2 sql a o db = Ok (u, db1) → update_attempt id cond set db1 = Ok (u', db2) →
  pg_uuid id = Some p → db_attempts db !! p = Some a → cond a = true →
  (RowOK p a → attempt_checks (set a) = true → RowLe a (set a) ∧ RowOK p (set a) ∧ settled (set a)) →
  Kept db db2.
Proof.
  intros T1 T2 Hp Ha Hc Hs O. pose proof (lk_rows _ O p a Ha) as Hr.
  apply applyAttemptItem_ok in T1 as [(Ho & ->)|(Ho & i & j & state & out & n & Hi & _ & Ip & _ & _ & _ & Ei & Ea & Ep & Ew & Ej)].
  - destruct (update_attempt_run _ _ _ _ _ _ _ _ T2 Hp Ha Hc) as [Hk ->]. destruct (Hs Hr Hk) as (L & R & S).
    refine (Kept_then _ _ _ (or_introl _) (Kept_update_waiter db _ _ (request_closed_core a sql)) _ O); [done|].
    eapply Kept_row; [exact Ha|done..|]. unfold job_attempt, ordinary_attempt in *. congruence.
  - rewrite <- Ea in Ha. destruct (update_attempt_run _ _ _ _ _ _ _ _ T2 Hp Ha Hc) as [Hk ->]. rewrite Ea in Ha.
    destruct (Hs Hr Hk) as (L & R & S). pose proof (ro_id _ _ Hr) as Eid.
    assert (job_attempt a) as Hj by (destruct (ro_kind _ _ Hr); [done|by destruct Ho]).
    rewrite Eid in Ip. eapply (Kept_close db _ p a (set a) i); [|exact Ei|exact Ep|exact Ew|exact Ej|done..].
    cbn. by rewrite Ea.
Qed.

Lemma settle_tx_Kept c id nonce o db x db' : settle_tx c id nonce o db = Ok (x, db') → Kept db db'.
Proof.
  unfold settle_tx. intros T. apply tx_bind_ok in T as (a & db1 & (p & Hp & Ha & ->)%readAttempt_ok & T).
  apply guard_ok in T as [Hw T]. apply negb_false_iff, owned_spec in Hw as [Hw Hr]. apply guard_ok in T as [_ T].
  destruct (is_settled a) eqn:Es.
  { apply guard_ok in T as [_ T]. apply fillAttemptCounts_ok in T as ->. apply Kept_refl. }
  apply guard_ok in T as [_ T]. apply guard_ok in T as [_ T]. apply guard_ok in T as [_ T].
  apply tx_bind_ok in T as (u & db1 & T1 & T). apply tx_bind_ok in T as (stored & db2 & [-> ->]%jsonb_observation_ok & T).
  apply tx_bind_ok in T as (u' & db2 & T2 & T). apply tx_bind_ok in T as (b & db3 & (q & _ & _ & ->)%readAttempt_ok & ->%fillAttemptCounts_ok).
  eapply end_Kept; [exact T1|exact T2|done|done|by apply String.eqb_eq|]. intros O Hk. apply attempt_checks_spec in Hk as Hk'.
  assert (¬ settled a) as Hn by (rewrite <- is_settled_spec; congruence). destruct O. split_and!; [..|done].
  - split; cbn; try done. apply stop_evidence_keeps.
  - cbn in Hk'. split; cbn; unfold settled; try done; [by right; right|]. intros ? [= <-] Hl. by apply stop_evidence_new.
Qed.

Lemma SettleAttempt_Kept f c again id nonce o db : Kept db (SettleAttempt f c again id nonce o db).1.
Proof.
  unfold SettleAttempt. destruct (negb _); [apply Kept_refl|].
  pose proof (ledgerTx_Kept f (settle_tx c id nonce o) db (fun x db' => settle_tx_Kept c id nonce o db x db')) as K.
  by destruct (ledgerTx _ _ _) as [[d r] ch].
Qed.

(** An observation that was never sent ends an attempt nobody claimed. *)
Lemma settled_never_sent_ok p a stored now :
  RowOK p a → a_State a = "reserved" → attempt_checks (settled_never_sent stored now a) = true →
  RowLe a (settled_never_sent stored now a) ∧ RowOK p (settled_never_sent stored now a) ∧ settled (settled_never_sent stored now a).
Proof.
  intros [] Hs Hk. destruct (ro_reserved0 Hs) as (E1 & E2 & E3). unfold settled in *. split_and!; [..|done].
  - split; cbn; unfold settled; first [done | congruence | eauto].
  - split; cbn; unfold settled; first [done | tauto | eauto].
Qed.

Lemma ExpireReservation_Kept f c id db : Kept db (ExpireReservation f c id db).1.
Proof.
  unfold ExpireReservation. apply ledger_Kept. intros x db' T.
  apply tx_bind_ok in T as (a & db1 & (p & Hp & Ha & ->)%readAttempt_ok & T).
  destruct (is_settled a); [apply fillAttemptCounts_ok in T as ->; apply Kept_refl|].
  apply guard_ok in T as [G T]. apply orb_false_iff in G as [G _]. apply negb_false_iff in G. apply guard_ok in T as [_ T].
  apply tx_bind_ok in T as (u & db1 & T1 & T). apply tx_bind_ok in T as (stored & db2 & [-> ->]%jsonb_observation_ok & T).
  apply tx_bind_ok in T as (u' & db2 & T2 & T). apply tx_bind_ok in T as (b & db3 & (q & _ & _ & ->)%readAttempt_ok & ->%fillAttemptCounts_ok).
  eapply end_Kept; [exact T1|exact T2|done..|]. intros O. by apply settled_never_sent_ok; [|apply String.eqb_eq].
Qed.

(** ** Reservations *)

Lemma insert_attempt_ok a db u db' :
  insert_attempt a db = Ok (u, db') →
  db_attempts db !! rs_PermitID (a_Reservation a) = None
  ∧ (∀ q b, db_attempts db !! q = Some b → collides a q b = false)
  ∧ db' = db <| db_attempts ::= insert (rs_PermitID (a_Reservation a)) a |>.
Proof.
  unfold insert_attempt. rewrite tx_bind_ok. intros ([] & db1 & [_ <-]%constraint_ok & T).
  apply tx_bind_ok in T as (col & db1 & [<- <-]%ask_ok & T). apply tx_bind_ok in T as (pl & db1 & [_ <-]%ask_ok & T).
  apply tx_bind_ok in T as (it & db1 & [_ <-]%ask_ok & T). apply tx_bind_ok in T as ([] & db1 & [G <-]%constraint_ok & T).
  apply write_ok in T as <-. apply andb_true_iff in G as [G _]. apply andb_true_iff in G as [G _]. apply negb_true_iff in G.
  assert (∀ q b, db_attempts db !! q = Some b → collides a q b = false) as Hcol by (intros q b; by apply exists_row_none).
  split; [|done]. destruct (db_attempts db !! rs_PermitID (a_Reservation a)) as [b|] eqn:E; [|done].
  specialize (Hcol _ b E). unfold collides in Hcol. rewrite String.eqb_refl in Hcol. done.
Qed.

Lemma validPermitID_nonempty id : validPermitID id = true → id ≠ "".
Proof. intros Hv ->. unfold validPermitID in Hv. by rewrite uuid_parse_empty in Hv. Qed.

Lemma reserved_attempt_ok r ordinal :
  validPermitID (rs_PermitID r) = true → rs_Kind r = "job" ∨ rs_Kind r = "ordinary" → RowOK (rs_PermitID r) (reserved_attempt r ordinal).
Proof. intros Hp Hk. split; cbn; try done; [by apply validPermitID_nonempty|by left]. Qed.

Lemma same_attempt_ok old r db a db' : same_attempt old r db = Ok (a, db') → db' = db.
Proof. unfold same_attempt. rewrite guard_ok, tx_ret_ok. by intros (_ & _ & <-). Qed.

Lemma reserve_job_Kept r db a db' :
  reserve_job r db = Ok (a, db') → validPermitID (rs_PermitID r) = true → rs_Kind r = "job" →
  (∃ g, db_pools db !! rs_PoolID r = Some g ∧ pg_Generation g = rs_Generation r) → Kept db db'.
Proof.
  unfold reserve_job. intros T Hv Hk Hg. apply tx_bind_ok in T as (i & db1 & [Hi <-]%row_ok & T).
  apply tx_bind_ok in T as (j & db1 & [Hj <-]%row_ok & T). apply guard_ok in T as [_ T]. destruct (bool_decide _).
  { apply tx_bind_ok in T as (b & db1 & (q & _ & _ & ->)%readAttempt_ok & ->%same_attempt_ok). apply Kept_refl. }
  apply guard_ok in T as [G T]. rewrite !orb_false_iff, bool_decide_eq_false, <- eq_None_not_Some in G. destruct G as [[_ Ip] Is].
  assert (requeued (it_State i) = true) as Hq.
  { unfold requeued, str_in. cbn. apply andb_false_iff in Is. rewrite !negb_false_iff in Is. destruct Is as [->| ->]; [done|by rewrite orb_true_r]. }
  apply tx_bind_ok in T as (u & db1 & T1 & T). apply tx_bind_ok in T as (v & db2 & T2 & T).
  apply tx_bind_ok in T as (w & db3 & T3 & (q & _ & _ & ->)%readAttempt_ok).
  assert (db_attempts db1 = db_attempts db ∧ db_items db1 = db_items db ∧ db_pools db1 = db_pools db ∧ db_waiters db1 = db_waiters db
          ∧ jobs_same (db_jobs db) (db_jobs db1)) as (Ea & Ei & Ep & Ew & Ej).
  { destruct (String.eqb (jb_PoolID j) ""); [|by apply tx_ret_ok in T1 as [_ <-]]. apply write_ok in T1 as <-. split_and!; try done.
    by apply jobs_same_alter. }
  apply insert_attempt_ok in T2 as (Hnone & _ & ->). apply write_ok in T3 as <-.
  pose proof (reserved_attempt_ok r (it_ReservationOrdinal i + 1) Hv (or_introl Hk)) as Hrow.
  eapply (Kept_open db _ (rs_PermitID r) (reserved_attempt r (it_ReservationOrdinal i + 1)) i
    (i <| it_CurrentPermit := Some (rs_PermitID r) |> <| it_ReservationOrdinal := it_ReservationOrdinal i + 1 |> <| it_State := "active" |>));
    cbn; try done.
  - by rewrite Ea.
  - exact (eq_trans (f_equal (alter _ _) Ei) (alter_some _ _ _ _ Hi)).
  - rewrite <- Ea. exact Hnone.
Qed.

Lemma readRequestWaiter_ok id db w db' :
  readRequestWaiter id db = Ok (w, db') → ∃ k, pg_uuid id = Some k ∧ db_waiters db !! k = Some w ∧ db' = db.
Proof. unfold readRequestWaiter. destruct (pg_uuid id) as [k|]; [|done]. intros [Hw <-]%row_ok. eauto. Qed.

Lemma reserve_request_Kept c r db a db' :
  reserve_request c r db = Ok (a, db') → validPermitID (rs_PermitID r) = true → validPermitID (rs_RequestID r) = true → rs_Kind r = "ordinary" →
  (∃ g, db_pools db !! rs_PoolID r = Some g ∧ pg_Generation g = rs_Generation r) → Kept db db'.
Proof.
  unfold reserve_request. intros T Hv Hr Hk Hg. apply tx_bind_ok in T as (w & db1 & (k & Hkk & Hw & ->)%readRequestWaiter_ok & T).
  rewrite (pg_uuid_valid _ Hr) in Hkk. injection Hkk as <-. apply guard_ok in T as [G T]. apply orb_false_iff in G as [_ Gp].
  apply negb_false_iff, String.eqb_eq in Gp. apply tx_bind_ok in T as (u & db1 & T1 & T). apply tx_bind_ok in T as (v & db2 & T2 & T).
  apply tx_bind_ok in T as (x & db3 & T3 & (q & _ & _ & ->)%readAttempt_ok). apply insert_attempt_ok in T1 as (Hnone & _ & ->).
  unfold set_waiter_permit in T2. apply tx_bind_ok in T2 as (taken & db1 & [_ <-]%ask_ok & T2).
  apply tx_bind_ok in T2 as ([] & db1 & [_ <-]%constraint_ok & <-%write_ok).
  pose proof (reserved_attempt_ok r (w_Ordinal w) Hv (or_intror Hk)) as Hrow. intros O.
  rewrite (lk_waiter_id _ O _ _ Hw) in T3.
  destruct (_ || _ || _).
  - apply tx_bind_ok in T3 as (o & db1 & [-> ->]%jsonb_observation_ok & T3). apply tx_bind_ok in T3 as (y & db1 & T3 & <-%write_ok).
    apply (update_attempt_run _ _ _ _ _ _ (rs_PermitID r) (reserved_attempt r (w_Ordinal w))) in T3 as [Hc ->];
      [|by apply pg_uuid_valid|by apply lookup_insert_eq|done].
    destruct (settled_never_sent_ok _ _ _ _ Hrow eq_refl Hc) as (_ & Hrow' & _).
    eapply (Kept_open_request db _ (rs_PermitID r) (settled_never_sent (read_observation (never_sent (readings c 1))) (readings c 1)
        (reserved_attempt r (w_Ordinal w))) w (w <| w_PermitID := rs_PermitID r |> <| w_ClosedAt ::= coalesce (stamp (readings c 1)) |>));
      [..|exact O]; cbn; try done.
    + by rewrite insert_insert_eq.
    + rewrite alter_alter_eq. by apply (alter_some (db_waiters db) _ w).
  - apply tx_ret_ok in T3 as [_ <-].
    eapply (Kept_open_request db _ (rs_PermitID r) (reserved_attempt r (w_Ordinal w)) w (w <| w_PermitID := rs_PermitID r |>));
      [..|exact O]; cbn; try done. by apply (alter_some (db_waiters db) _ w).
Qed.

Lemma valid_reservation_spec r :
  valid_reservation r = true → validPermitID (rs_PermitID r) = true
  ∧ (rs_Kind r = "job" ∨ (rs_Kind r = "ordinary" ∧ validPermitID (rs_RequestID r) = true)).
Proof.
  unfold valid_reservation. rewrite !andb_true_iff, !orb_true_iff, !andb_true_iff, !negb_true_iff, !String.eqb_eq, !String.eqb_neq.
  naive_solver.
Qed.

Lemma ReserveAttempt_Kept f c missed r db : Kept db (ReserveAttempt f c missed r db).1.
Proof.
  unfold ReserveAttempt. destruct (valid_reservation r) eqn:V; cbn [negb]; [|apply Kept_refl]. apply ledger_Kept. intros a db' T.
  apply valid_reservation_spec in V as [Hv Hk]. apply tx_bind_ok in T as (u & db1 & [-> (g & Hg & Eg & _)]%guardPool_ok & T).
  apply tx_bind_ok in T as (old & db1 & T1 & T). assert (db1 = db) as ->.
  { destruct missed; [by apply tx_ret_ok in T1 as [_ <-]|]. unfold find_attempt in T1. destruct (pg_uuid _); [|done].
    by apply ask_ok in T1 as [_ <-]. }
  destruct old as [old|]; [apply same_attempt_ok in T as ->; apply Kept_refl|].
  destruct Hk as [Hk|[Hk Hr]].
  - rewrite Hk in T. eapply reserve_job_Kept; [exact T|done..|]. by exists g.
  - rewrite Hk in T. eapply reserve_request_Kept; [exact T|done..|]. by exists g.
Qed.

(** ** Waiters *)

Lemma Kept_enqueue (db : DB) k w sequence :
  db_waiters db !! k = None → w_RequestID w = k → w_PermitID w = "" →
  Kept db (db <| db_waiters ::= insert k w |> <| db_sequence := sequence |>).
Proof.
  intros Hk Hr Hp [R P W F C I J K X Y]. split; [|by apply Evolves_same; try apply jobs_same_refl]. split; cbn; try done.
  - intros k' v Hv. apply lookup_insert_Some in Hv as [[<- <-]|[_ Hv]]; [done|by apply W].
  - intros k' v Hv Hpv. apply lookup_insert_Some in Hv as [[<- <-]|[_ Hv]]; [done|by apply X].
  - intros p a Ha Ho. destruct (Y p a Ha Ho) as (v & Hv & Hpv). exists v. split; [|done]. rewrite lookup_insert_ne; [done|].
    intros E. rewrite <- E in Hv. congruence.
Qed.

Lemma EnqueueRequest_Kept f c w db : Kept db (EnqueueRequest f c w db).1.
Proof.
  unfold EnqueueRequest. destruct (valid_waiter w) eqn:V; cbn [negb]; [|apply Kept_refl]. apply ledger_Kept. intros x db' T.
  assert (validPermitID (w_RequestID w) = true) as Hv by (unfold valid_waiter in V; rewrite !andb_true_iff in V; tauto).
  apply tx_bind_ok in T as (u & db1 & [-> _]%guardPool_ok & T). apply tx_bind_ok in T as (old & db1 & T1 & T).
  rewrite (pg_uuid_valid _ Hv) in T1. apply ask_ok in T1 as [Eo <-]. destruct old as [old|].
  { apply guard_ok in T as [_ T]. apply tx_ret_ok in T as [_ <-]. apply Kept_refl. }
  apply guard_ok in T as [_ T]. apply tx_bind_ok in T as (n & db1 & [_ <-]%ask_ok & T). apply guard_ok in T as [_ T].
  apply tx_bind_ok in T as (s & db1 & [<- <-]%ask_ok & T). apply tx_bind_ok in T as (taken & db1 & [_ <-]%ask_ok & T).
  apply tx_bind_ok in T as ([] & db1 & [_ <-]%constraint_ok & T).
  apply tx_bind_ok in T as ([] & db1 & <-%write_ok & (k & _ & _ & ->)%readRequestWaiter_ok).
  by apply (Kept_enqueue db (w_RequestID w) (new_waiter w (readings c 0) (db_sequence db)) (Z.succ (db_sequence db))).
Qed.

Lemma ReadRequest_Kept f c scope id owner refresh db : Kept db (ReadRequest f c scope id owner refresh db).1.
Proof.
  unfold ReadRequest. destruct (_ || _ || _); [apply Kept_refl|]. apply ledger_Kept. intros x db' T.
  apply tx_bind_ok in T as (w & db1 & (k & _ & _ & ->)%readRequestWaiter_ok & T). apply guard_ok in T as [_ T].
  destruct (_ && _); [|apply tx_ret_ok in T as [_ <-]; apply Kept_refl].
  apply tx_bind_ok in T as ([] & db1 & <-%write_ok & [_ <-]%tx_ret_ok). by apply Kept_update_waiter.
Qed.

Lemma CancelRequest_Kept f c scope id owner db : Kept db (CancelRequest f c scope id owner db).1.
Proof.
  unfold CancelRequest. destruct (_ || _ || _); [apply Kept_refl|]. apply ledger_Kept. intros x db' T.
  apply tx_bind_ok in T as (o & db1 & T1 & T). destruct (pg_uuid id) as [k|]; [|done]. apply ask_ok in T1 as [<- <-].
  destruct (db_waiters db !! k) as [w|]; [|done]. apply guard_ok in T as [_ T]. apply write_ok in T as <-. by apply Kept_update_waiter.
Qed.

Lemma AcknowledgeRequests_Kept f c pool generation ids db : Kept db (AcknowledgeRequests f c pool generation ids db).1.
Proof.
  unfold AcknowledgeRequests. destruct (_ || _ || _ || _); [apply Kept_refl|]. apply ledger_Kept. intros x db' T.
  apply tx_bind_ok in T as (u & db1 & [-> _]%guardPool_ok & <-%write_ok). apply Kept_waiters. intros k. rewrite lookup_fmap.
  destruct (db_waiters db !! k) as [w|]; [|done]. cbn. by destruct (acknowledged _ _ _ _ _).
Qed.

Lemma prune_row_Kept pool db n w :
  db_waiters db !! w_RequestID w = Some w → Kept db (prune_row pool (db, n) w).1.
Proof.
  intros Hw. unfold prune_row. destruct (String.eqb_spec (w_PermitID w) "") as [E|E]; [by apply Kept_prune_idle|].
  destruct (db_attempts db !! w_PermitID w) as [a|] eqn:Ha; [|apply Kept_refl].
  destruct (_ && _) eqn:G; [|apply Kept_refl]. apply andb_true_iff in G as [_ G]. by eapply Kept_prune.
Qed.

(** Only retired rows go. *)
Definition Shrinks (db db' : DB) : Prop :=
  db_items db' = db_items db ∧ db_pools db' = db_pools db ∧ db_jobs db' = db_jobs db ∧ db_attempts db' ⊆ db_attempts db
  ∧ ∀ p a, db_attempts db !! p = Some a → db_attempts db' !! p = Some a ∨ (db_attempts db' !! p = None ∧ retired a = true).

Lemma Shrinks_Evolves db db' : Shrinks db db' → Evolves db db'.
Proof.
  intros (Ei & Ep & Ej & _ & Ha). destruct (Evolves_refl db) as [_ E2 E3 E4 E5]. split; rewrite ?Ei, ?Ep, ?Ej; try done.
  intros p a H. destruct (Ha p a H) as [H'|H']; [left; exists a; split; [done|apply RowLe_refl]|by right].
Qed.

Lemma prune_row_shrinks pool db n w :
  let db' := (prune_row pool (db, n) w).1 in
  Shrinks db db' ∧ ∀ k, k ≠ w_RequestID w → db_waiters db' !! k = db_waiters db !! k.
Proof.
  cbn zeta. unfold prune_row. assert (∀ d, d = db → Shrinks db d) as Hs by (intros ? ->; split_and!; try done; by left).
  destruct (String.eqb (w_PermitID w) "").
  { split; [split_and!; try done; by left|]. intros k Hk. cbn. by rewrite lookup_delete_ne. }
  destruct (db_attempts db !! w_PermitID w) as [a|] eqn:Ha; [|by split; [apply Hs|]].
  destruct (_ && _) eqn:G; [|by split; [apply Hs|]]. apply andb_true_iff in G as [_ G]. split.
  - split_and!; try done; [apply delete_subseteq|]. intros p b Hb. cbn. destruct (decide (w_PermitID w = p)) as [<-|Hne].
    + right. rewrite lookup_delete_eq. split; [done|congruence].
    + left. by rewrite lookup_delete_ne.
  - intros k Hk. cbn. by rewrite lookup_delete_ne.
Qed.

Lemma prune_rows_Kept pool rows db n :
  NoDup (map w_RequestID rows) → Forall (fun w => db_waiters db !! w_RequestID w = Some w) rows →
  LedgerOK db → LedgerOK (foldl (prune_row pool) (db, n) rows).1 ∧ Shrinks db (foldl (prune_row pool) (db, n) rows).1.
Proof.
  revert db n. induction rows as [|w rows IH]; intros db n Hd Hw O; cbn [foldl].
  { split; [done|]. split_and!; try done. by left. }
  inversion Hd as [|? ? Hnot Hd']; subst. inversion Hw as [|? ? Hw1 Hw2]; subst.
  destruct (prune_row_Kept pool db n w Hw1 O) as [O1 _]. destruct (prune_row_shrinks pool db n w) as [(S1 & S2 & S0 & S3 & S4) Hk].
  destruct (prune_row pool (db, n) w) as [db1 n1]. cbn in O1, S1, S2, S0, S3, S4, Hk.
  destruct (IH db1 n1) as [O2 (T1 & T2 & T0 & T3 & T4)]; [done| |done|].
  { apply Forall_forall. intros v Hv. rewrite Hk; [by eapply Forall_forall in Hw2|]. intros E. apply Hnot, list_elem_of_In, in_map_iff.
    exists v. split; [exact E|by apply list_elem_of_In]. }
  split; [done|]. split_and!; [congruence..|by etrans|]. intros p a Ha. destruct (S4 p a Ha) as [H|[H Hr]]; [by apply T4|].
  right. split; [|done]. by eapply lookup_weaken_None.
Qed.

Lemma waiter_rows_distinct db : LedgerOK db → NoDup (map w_RequestID (map snd (map_to_list (db_waiters db)))).
Proof.
  intros O. replace (map w_RequestID (map snd (map_to_list (db_waiters db)))) with (map fst (map_to_list (db_waiters db))).
  - apply NoDup_fst_map_to_list.
  - rewrite map_map. apply map_ext_in. intros [k w] Hin%list_elem_of_In%elem_of_map_to_list. symmetry. by apply (lk_waiter_id _ O).
Qed.

Lemma filter_map_NoDup {A B : Type} (f : A → B) (g : A → bool) l : NoDup (map f l) → NoDup (map f (List.filter g l)).
Proof.
  induction l as [|x l IH]; [done|]. cbn [map List.filter]. intros [Hx Hd]%NoDup_cons. destruct (g x); [|auto]. cbn [map]. apply NoDup_cons.
  split; [|auto]. intros (y & Ey & Hy%filter_In)%list_elem_of_In%in_map_iff. apply Hx, list_elem_of_In, in_map_iff. naive_solver.
Qed.

Lemma PruneRequests_Kept f c locked pool limit db : Kept db (PruneRequests f c locked pool limit db).1.
Proof.
  unfold PruneRequests. destruct (_ || _ || _); [apply Kept_refl|]. apply ledger_Kept. intros n db' T O.
  set (found := List.filter _ _) in T. set (rows := take _ _) in T.
  assert (NoDup (map w_RequestID rows)) as Hd.
  { unfold rows. rewrite <- firstn_map. refine (sublist_NoDup _ _ _ (sublist_take _ _)).
    rewrite (Permutation_map _ (merge_sort_Permutation _ found)). apply filter_map_NoDup. by apply waiter_rows_distinct. }
  assert (Forall (fun w => db_waiters db !! w_RequestID w = Some w) rows) as Hf.
  { apply Forall_forall. intros w Hw. unfold rows in Hw. apply elem_of_take in Hw as (m & Hw & _). apply list_elem_of_lookup_2 in Hw.
    rewrite merge_sort_Permutation in Hw. apply list_elem_of_In, filter_In in Hw as [Hw _].
    apply in_map_iff in Hw as ([k v] & E & Hw%list_elem_of_In%elem_of_map_to_list). cbn in E. subst v.
    by rewrite (lk_waiter_id _ O _ _ Hw). }
  destruct (prune_rows_Kept pool rows db 0 Hd Hf O) as [O' S].
  destruct (foldl _ _ _) as [d m]. injection T as <- <-. split; [done|by apply Shrinks_Evolves].
Qed.

(** ** Jobs *)

Lemma store_Kept {A : Type} f (fn : Tx A) db :
  (∀ a db', fn db = Ok (a, db') → Kept db db') → Kept db (let '(db', v, _) := ledgerTx f fn db in (db', v)).1.
Proof. intros H. pose proof (ledgerTx_Kept f fn db H) as K. by destruct (ledgerTx f fn db) as [[d r] ch]. Qed.

Lemma AttachJob_Kept f pool generation job db : Kept db (AttachJob f pool generation job db).1.
Proof.
  unfold AttachJob. destruct (_ || _ || _); [apply Kept_refl|]. apply ledger_Kept. intros x db' T.
  apply tx_bind_ok in T as (u & db1 & [-> _]%guardPool_ok & T). apply tx_bind_ok in T as (o & db1 & T1 & T).
  destruct (pg_uuid _) as [k|]; [|done]. apply ask_ok in T1 as [<- <-]. destruct (db_jobs db !! _); [|done].
  apply guard_ok in T as [_ T]. apply update_job_Kept in T as [K _]; [done|]. by intros ?.
Qed.

Lemma Expire_Kept f c j db : Kept db (Expire f c j db).1.
Proof.
  apply store_Kept. intros x db' T. apply tx_bind_ok in T as (r & db1 & [_ <-]%row_ok & T).
  apply tx_bind_ok in T as (o & db1 & [-> ->]%jsonb_outcome_ok & T). apply tx_bind_ok in T as (u & db1 & <-%write_ok & T).
  apply update_job_Kept in T as [K E]; [|done].
  eapply Kept_then; [right; exact E| |exact K]. apply Kept_items. intros k. rewrite map_lookup_imap.
  destruct (db_items db !! k) as [i|]; cbn; constructor. destruct (expirable _ _ _ _) eqn:G; [|by split; try apply ItemLe_refl].
  unfold expirable in G. rewrite !andb_true_iff, !negb_true_iff, bool_decide_eq_false, <- eq_None_not_Some in G. destruct G as [[_ G1] G2].
  split; try done; [by apply open_ItemLe|]. rewrite G2. by intros [? ?].
Qed.

Lemma Heartbeat_Kept f c r progress db : Kept db (Heartbeat f c r progress db).1.
Proof. apply store_Kept. intros x db' T. apply update_job_Kept in T as [K _]; [done|]. by intros j. Qed.

Lemma Cooldown_Kept f c jobs reason next db : Kept db (Cooldown f c jobs reason next db).1.
Proof.
  apply store_Kept. intros x db' <-%write_ok.
  assert (∀ d, Kept db d → db_attempts d = db_attempts db → Kept db (foldl (fun (db : DB) j => db <| db_jobs ::= alter (fun row =>
    row <| jb_LastHeartbeat := Some (stamp (sql_now c)) |> <| jb_WaitingReason := reason |> <| jb_NextAttemptAt := stamp <$> next |>)
    (jr_Scope j, jr_JobID j) |>) d jobs)) as Hf; [|apply Hf; [apply Kept_refl|done]].
  induction jobs as [|j jobs IH]; intros d K E; cbn [foldl]; [done|]. apply IH; [|done].
  apply (Kept_then db d); [by right|exact K|]. apply Kept_jobs. by apply jobs_same_alter.
Qed.

Lemma Begin_Kept f c r db : Kept db (Begin f c r db).1.
Proof.
  apply store_Kept. intros x db' T. apply tx_bind_ok in T as (j & db1 & [_ <-]%row_ok & T).
  apply tx_bind_ok in T as (v & db1 & T1 & T). unfold load in T1. destruct (db_items db !! item_key r) as [i|] eqn:Hi; [|done].
  destruct (db_jobs db !! job_key r) as [j'|]; [|done]. injection T1 as <- <-. cbn [si_State] in T.
  destruct (terminal (it_State i)) eqn:Et; [apply tx_ret_ok in T as [_ <-]; apply Kept_refl|]. apply guard_ok in T as [G T].
  apply tx_bind_ok in T as (u & db1 & T1 & T). apply tx_bind_ok in T as (w & db2 & T2 & [_ <-]%tx_ret_ok). apply update_job_Kept in T2 as [K2 E2]; [|done]. intros O.
  refine (Kept_then _ _ _ (or_intror E2) _ K2 O).
  apply (update_item_Kept _ _ _ _ _ T1). rewrite Hi. intros ? [= <-]. split; try done.
  - by apply open_ItemLe.
  - intros [p Hp]. destruct (lk_current _ O _ _ _ Hi Hp) as [Ea _]. by rewrite Ea.
Qed.

(** The legacy dispatcher records the items that no permit holds. *)
Lemma Record_Kept f c r o db :
  (∀ i, db_items db !! item_key r = Some i → it_CurrentPermit i = None) → Kept db (Record_ f c r o db).1.
Proof.
  intros Hn. apply store_Kept. intros x db' T. apply tx_bind_ok in T as (j & db1 & [_ <-]%row_ok & T).
  apply tx_bind_ok in T as (stored & db1 & [-> ->]%jsonb_outcome_ok & T). apply tx_bind_ok in T as (u & db1 & T1 & T).
  apply tx_bind_ok in T as (w & db2 & T2 & [_ <-]%ask_ok). apply update_job_Kept in T2 as [K2 E2]; [|done].
  refine (Kept_then _ _ _ (or_intror E2) _ K2). apply (update_item_Kept _ _ _ _ _ T1). intros i Hi. specialize (Hn i Hi).
  destruct (terminal (it_State i)) eqn:Et; [by split; try apply ItemLe_refl|]. split; try done.
  - by apply open_ItemLe.
  - rewrite Hn. by intros [? ?].
Qed.

(** ** Submissions *)

Lemma job_with_key_none scope hash db id j :
  job_with_key scope hash db = None → db_jobs db !! (scope, id) = Some j → jb_IdempotencyHash j ≠ hash.
Proof.
  unfold job_with_key. destruct (List.filter _ _) as [|[k j'] l] eqn:El; [|done]. intros _ Hj E.
  assert ((scope, id, j) ∈ ([] : list (string * string * JobRow))) as Hin.
  { rewrite <- El. apply list_elem_of_In, filter_In. split; [apply list_elem_of_In; by apply elem_of_map_to_list|]. cbn. by rewrite E, !String.eqb_refl. }
  by apply elem_of_nil in Hin.
Qed.

Lemma job_with_key_some scope hash db id j :
  job_with_key scope hash db = Some (id, j) → db_jobs db !! (scope, id) = Some j ∧ jb_IdempotencyHash j = hash.
Proof.
  unfold job_with_key. destruct (List.filter _ _) as [|[[s i] j'] l] eqn:El; [done|]. intros [= <- <-].
  assert ((s, i, j') ∈ (s, i, j') :: l) as Hin by (apply elem_of_cons; by left). rewrite <- El in Hin.
  apply list_elem_of_In, filter_In in Hin as [Hin E]. apply list_elem_of_In, elem_of_map_to_list in Hin.
  apply andb_true_iff in E as [E1%String.eqb_eq E2%String.eqb_eq]. cbn in E1, E2. by rewrite <- E1.
Qed.

Lemma insert_items_tables scope id now items n db :
  let db' := insert_items scope id now n items db in
  db_pools db' = db_pools db ∧ db_jobs db' = db_jobs db ∧ db_waiters db' = db_waiters db ∧ db_attempts db' = db_attempts db
  ∧ db_cursors db' = db_cursors db ∧ db_sequence db' = db_sequence db.
Proof. revert n db. induction items as [|item items IH]; intros n db; [done|]. exact (IH (n + 1) (db <| db_items ::= insert (scope, id, n) (new_item now item) |>)). Qed.

(** The rows of the job, in order from [n]. *)
Lemma insert_items_lookup scope id now items n db k :
  db_items (insert_items scope id now n items db) !! k
  = if bool_decide (k.1 = (scope, id) ∧ n ≤ k.2 < n + llen items)
    then new_item now <$> items !! Z.to_nat (k.2 - n) else db_items db !! k.
Proof.
  revert n db. induction items as [|item items IH]; intros n db; cbn [insert_items].
  { rewrite bool_decide_eq_false_2; [done|]. unfold llen. cbn. lia. }
  rewrite IH. cbn [db_items]. unfold llen. rewrite length_cons. destruct k as [k1 k2]. cbn [fst snd].
  case_bool_decide as H1; case_bool_decide as H2.
  - replace (Z.to_nat (k2 - n)) with (S (Z.to_nat (k2 - (n + 1)))) by lia. done.
  - destruct H2. destruct H1. split; [done|lia].
  - destruct H2 as [-> H2]. assert (k2 = n) as -> by (destruct (decide (k2 = n)); [done|]; destruct H1; split; [done|lia]).
    rewrite Z.sub_diag. cbn. by rewrite lookup_insert_eq.
  - cbn. rewrite lookup_insert_ne; [done|]. intros [= <- <-]. apply H2. split; [done|lia].
Qed.

Lemma Kept_accept (db db' : DB) scope id now items j :
  db_pools db' = db_pools db → db_waiters db' = db_waiters db → db_attempts db' = db_attempts db →
  db_jobs db' = <[(scope, id):=j]> (db_jobs db) → db_items db' = db_items (insert_items scope id now 0 items db) →
  db_jobs db !! (scope, id) = None → job_with_key scope (jb_IdempotencyHash j) db = None → Kept db db'.
Proof.
  intros Ep Ew Ea Ej Ei Hn Hk [R P W F C I J K X Y].
  assert (∀ k i, db_items db !! k = Some i → db_items db' !! k = Some i) as Hold.
  { intros k i Hi. rewrite Ei, insert_items_lookup, bool_decide_eq_false_2; [done|]. intros [E _]. destruct (J k i Hi) as [? E']. congruence. }
  assert (∀ k i, db_items db' !! k = Some i → db_items db !! k = Some i ∨ (k.1 = (scope, id) ∧ it_CurrentPermit i = None)) as Hnew.
  { intros k i. rewrite Ei, insert_items_lookup. case_bool_decide as E; [|by left]. intros Hi. right. split; [by destruct E|].
    apply fmap_Some in Hi as (item & _ & ->). done. }
  split.
  - split; rewrite ?Ep, ?Ew, ?Ea, ?Ej; try done.
    + intros k i p Hi Hp. destruct (Hnew k i Hi) as [Hi'|[_ E]]; [by eapply C|congruence].
    + intros p a Ha Hj. destruct (I p a Ha Hj) as (i & Hi & H2). exists i. split; [by apply Hold|done].
    + intros k i Hi. destruct (decide (k.1 = (scope, id))) as [->|Hne]; [rewrite lookup_insert_eq; eauto|].
      rewrite lookup_insert_ne by done. destruct (Hnew k i Hi) as [Hi'|[E _]]; [by eapply J|done].
    + intros s i1 i2 j1 j2 H1 H2 E. apply lookup_insert_Some in H1 as [[[= <- <-] <-]|[N1 H1]];
        apply lookup_insert_Some in H2 as [[E2 <-]|[N2 H2]].
      * by injection E2.
      * destruct (job_with_key_none _ _ _ _ _ Hk H2). exact (eq_sym E).
      * injection E2 as <- <-. destruct (job_with_key_none _ _ _ _ _ Hk H1). exact E.
      * by eapply K.
  - destruct (Evolves_refl db) as [E1 E2 E3 E4 E5]. split; rewrite ?Ep, ?Ea, ?Ej; try done.
    + intros k i Hi. exists i. split; [by apply Hold|apply ItemLe_refl].
    + intros k j' Hj'. exists j'. rewrite lookup_insert_ne; [done|]. intros <-. discriminate (eq_trans (eq_sym Hn) Hj').
    + intros k Hj [i Hi]. destruct (Hnew k i Hi) as [Hi'|[E _]]; [eauto|]. destruct k as [kk n]. cbn in E. subst kk. destruct Hj as [? Hj]. discriminate (eq_trans (eq_sym Hn) Hj).
Qed.

Lemma Create_Kept f c scope key items duration db : Kept db (Create f c scope key items duration db).1.
Proof.
  unfold Create. destruct (_ || _ || _ || _ || _); [apply Kept_refl|]. apply store_Kept. intros x db' T.
  apply tx_bind_ok in T as (prior & db1 & [<- <-]%ask_ok & T). destruct (job_with_key _ _ db) as [[id j]|] eqn:Ek.
  - destruct (String.eqb _ _); [apply tx_ret_ok in T as [_ <-]; apply Kept_refl|]. apply guard_ok in T as [_ T].
    apply tx_bind_ok in T as (same & db1 & [_ <-]%ask_ok & T). apply guard_ok in T as [_ [_ <-]%tx_ret_ok]. apply Kept_refl.
  - apply tx_bind_ok in T as (taken & db1 & [Et <-]%ask_ok & T). apply tx_bind_ok in T as (u & db1 & [G <-]%constraint_ok & T).
    apply tx_bind_ok in T as (n & db1 & [<- <-]%ask_ok & T). apply tx_bind_ok in T as (v & db1 & <-%write_ok & [_ <-]%tx_ret_ok).
    apply andb_true_iff in G as [G _]. apply negb_true_iff, bool_decide_eq_false in G.
    destruct (insert_items_tables scope (uuid_sha1 (scope +:+ NUL +:+ key)) (sql_now c) items 0 db) as (Ep & Ej & Ew & Ea & _).
    eapply Kept_accept; [exact Ep|exact Ew|exact Ea|exact (f_equal (insert _ _) Ej)|done| |exact Ek].
    rewrite Et. by apply eq_None_not_Some.
Qed.

(** ** The ready page and publications *)

Lemma SelectReady_Kept f c q db : Kept db (SelectReady f c q db).1.
Proof.
  unfold SelectReady. destruct (negb _); [apply Kept_refl|]. apply ledger_Kept. intros x db' T.
  apply tx_bind_ok in T as (u & db1 & [-> _]%guardPool_ok & T). apply tx_bind_ok in T as (rows & db1 & [_ <-]%ask_ok & T).
  destruct (read_rows _ _ _) as [[page cursors]|]; [|done]. apply tx_bind_ok in T as (v & db1 & [_ <-]%constraint_ok & T).
  apply tx_bind_ok in T as (w & db1 & <-%write_ok & [_ <-]%tx_ret_ok). intros O.
  split; [|by apply Evolves_same; try apply jobs_same_refl]. by destruct O; split.
Qed.

Lemma store_PublishPool_Kept f c p db : Kept db (store_PublishPool f c p db).1.
Proof.
  unfold store_PublishPool. destruct (_ || _); [apply Kept_refl|]. apply ledger_Kept. intros x db' T.
  unfold poolRow in T. apply tx_bind_ok in T as (g & db1 & [_ <-]%row_ok & T). apply guard_ok in T as [_ T].
  apply tx_bind_ok in T as (found & db1 & [_ <-]%ask_ok & T). destruct (last _) as [after|]; [|apply tx_ret_ok in T as [_ <-]; apply Kept_refl].
  apply tx_bind_ok in T as (jobs & db1 & [_ <-]%ask_ok & T). apply tx_bind_ok in T as (waiters & db1 & [_ <-]%ask_ok & T).
  apply tx_bind_ok in T as (u & db1 & <-%write_ok & [_ <-]%tx_ret_ok).
  apply Kept_jobs_waiters.
  - intros k. rewrite map_lookup_imap. destruct (db_jobs db !! k); [|done]. cbn. by destruct (publishes_job _ _ _ _ _ _).
  - intros k. cbn. rewrite lookup_fmap. destruct (db_waiters db !! k); [|done]. cbn.
    by destruct (publishes_waiter _ _ _ _).
Qed.

Lemma HeartbeatAttempt_Kept f c a changed db : Kept db (HeartbeatAttempt f c a changed db).1.
Proof.
  unfold HeartbeatAttempt. destruct (_ || _); [apply Kept_refl|]. apply ledger_Kept. intros x db' T.
  apply tx_bind_ok in T as (job & db1 & [_ <-]%ask_ok & T). destruct job as [k|]; [|apply tx_ret_ok in T as [_ <-]; apply Kept_refl].
  apply write_ok in T as <-. apply Kept_jobs. by apply jobs_same_alter.
Qed.

(** ** The life of a ledger *)

(** A transaction of any operation, at any time, with any arguments and any fate.  There
    is one restriction: [Record_] is the write of the legacy dispatcher, and is used on an
    item that no permit owns.  The SQL has no such condition; the rule stands for the
    deployment, in which the items of a pool that gives permits are not those of a
    dispatcher. *)
Inductive ledger_step (db : DB) : DB → Prop :=
| st_ensure f id generation : ledger_step db (EnsurePool f id generation db).1
| st_quiesce f id generation : ledger_step db (QuiescePool f id generation db).1
| st_advance f id from to : ledger_step db (AdvancePool f id from to db).1
| st_adopt f pool : ledger_step db (AdoptLegacyPool f pool db).1
| st_reserve f c missed r : ledger_step db (ReserveAttempt f c missed r db).1
| st_claim f c rounds id nonce : ledger_step db (ClaimAttempt f c rounds id nonce db).1
| st_dispatch f c rounds id nonce : ledger_step db (MarkDispatch f c rounds id nonce db).1
| st_stage f id nonce o : ledger_step db (StageAttempt f id nonce o db).1
| st_settle f c again id nonce o : ledger_step db (SettleAttempt f c again id nonce o db).1
| st_expire_reservation f c id : ledger_step db (ExpireReservation f c id db).1
| st_stop f id nonce at_ : ledger_step db (MarkLocalStop f id nonce at_ db).1
| st_enqueue f c w : ledger_step db (EnqueueRequest f c w db).1
| st_read_request f c scope id owner refresh : ledger_step db (ReadRequest f c scope id owner refresh db).1
| st_cancel f c scope id owner : ledger_step db (CancelRequest f c scope id owner db).1
| st_acknowledge f c pool generation ids : ledger_step db (AcknowledgeRequests f c pool generation ids db).1
| st_prune f c locked pool limit : ledger_step db (PruneRequests f c locked pool limit db).1
| st_attach f pool generation job : ledger_step db (AttachJob f pool generation job db).1
| st_expire f c j : ledger_step db (Expire f c j db).1
| st_heartbeat f c r progress : ledger_step db (Heartbeat f c r progress db).1
| st_cooldown f c jobs reason next : ledger_step db (Cooldown f c jobs reason next db).1
| st_begin f c r : ledger_step db (Begin f c r db).1
| st_record f c r o : (∀ i, db_items db !! item_key r = Some i → it_CurrentPermit i = None) → ledger_step db (Record_ f c r o db).1
| st_create f c scope key items duration : ledger_step db (Create f c scope key items duration db).1
| st_select f c q : ledger_step db (SelectReady f c q db).1
| st_publish f c p : ledger_step db (store_PublishPool f c p db).1
| st_beat f c a changed : ledger_step db (HeartbeatAttempt f c a changed db).1.

Lemma ledger_step_Kept db db' : ledger_step db db' → Kept db db'.
Proof.
  intros [].
  - apply EnsurePool_Kept.
  - apply QuiescePool_Kept.
  - apply AdvancePool_Kept.
  - apply AdoptLegacyPool_Kept.
  - apply ReserveAttempt_Kept.
  - apply ClaimAttempt_Kept.
  - apply MarkDispatch_Kept.
  - apply StageAttempt_Kept.
  - apply SettleAttempt_Kept.
  - apply ExpireReservation_Kept.
  - apply MarkLocalStop_Kept.
  - apply EnqueueRequest_Kept.
  - apply ReadRequest_Kept.
  - apply CancelRequest_Kept.
  - apply AcknowledgeRequests_Kept.
  - apply PruneRequests_Kept.
  - apply AttachJob_Kept.
  - apply Expire_Kept.
  - apply Heartbeat_Kept.
  - apply Cooldown_Kept.
  - apply Begin_Kept.
  - by apply Record_Kept.
  - apply Create_Kept.
  - apply SelectReady_Kept.
  - apply store_PublishPool_Kept.
  - apply HeartbeatAttempt_Kept.
Qed.
End Operations.
