(* ===== verification/LedgerProperties.v ===== *)
(** * LedgerProperties: what the ledger promises

    Theorems about every run of the operations of [Ledger], interleaved in any way
    and with any failures: who owns an item, that a permit is dispatched once, that
    outcomes are final, and that a generation is fenced when the next one starts. *)
From stdpp Require Import gmap relations pretty.
From S2P Require Import Prelude Json BatchController BatchPool Ledger LedgerInvariant.

Open Scope string_scope.
Open Scope list_scope.
Open Scope Z_scope.

(** A ledger before its first attempt: jobs with items that nobody holds. *)
Record fresh_ledger (db : DB) : Prop := {
  fl_pools : db_pools db = ∅;
  fl_attempts : db_attempts db = ∅;
  fl_waiters : db_waiters db = ∅;
  fl_items : ∀ k i, db_items db !! k = Some i → it_CurrentPermit i = None ∧ is_Some (db_jobs db !! k.1);
  fl_keys : keys_unique (db_jobs db);
}.

Lemma fresh_ok db : fresh_ledger db → LedgerOK db.
Proof.
  intros [P A W I K]. split; rewrite ?P, ?A, ?W; try done.
  - intros k i p Hi Hp. destruct (I k i Hi) as [E _]. congruence.
  - intros k i Hi. by apply I in Hi as [_ ?].
Qed.

Section Runs.
Context `{HP : PoolEnv} `{HL : LedgerEnv} `{Laws : !LedgerLaws}.

Lemma run_ok db db' : rtc ledger_step db db' → LedgerOK db → LedgerOK db'.
Proof. induction 1 as [|db db1 db' S _ IH]; [done|]. intros O. apply IH. by apply (ledger_step_Kept _ _ S). Qed.

(** Over a run an attempt of a job stays, and evolves. *)
Lemma run_row db db' p a :
  rtc ledger_step db db' → LedgerOK db → db_attempts db !! p = Some a → job_attempt a →
  ∃ b, db_attempts db' !! p = Some b ∧ RowLe a b.
Proof.
  intros R. revert a. induction R as [db|db db1 db' S _ IH]; intros a O Ha Hj; [exists a; split; [done|apply RowLe_refl]|].
  destruct (ledger_step_Kept _ _ S O) as [O1 E]. destruct (Evolves_rows_job _ _ _ _ E Ha Hj) as (b & Hb & L).
  destruct (IH b O1 Hb) as (c & Hc & L2); [unfold job_attempt; by rewrite (le_reservation _ _ L)|].
  exists c. split; [done|]. by eapply RowLe_trans.
Qed.

Lemma run_item db db' k i :
  rtc ledger_step db db' → LedgerOK db → db_items db !! k = Some i → ∃ j, db_items db' !! k = Some j ∧ ItemLe i j.
Proof.
  intros R. revert i. induction R as [db|db db1 db' S _ IH]; intros i O Hi; [exists i; split; [done|apply ItemLe_refl]|].
  destruct (ledger_step_Kept _ _ S O) as [O1 E]. destruct (ev_items _ _ E k i Hi) as (j & Hj & L).
  destruct (IH j O1 Hj) as (l & Hl & L2). exists l. split; [done|]. by eapply ItemLe_trans.
Qed.

Lemma run_pool db db' k g :
  rtc ledger_step db db' → LedgerOK db → db_pools db !! k = Some g → ∃ g', db_pools db' !! k = Some g' ∧ pg_Generation g ≤ pg_Generation g'.
Proof.
  intros R. revert g. induction R as [db|db db1 db' S _ IH]; intros g O Hg; [exists g; split; [done|lia]|].
  destruct (ledger_step_Kept _ _ S O) as [O1 E]. destruct (ev_pools _ _ E k g Hg) as (g1 & Hg1 & L).
  destruct (IH g1 O1 Hg1) as (g2 & Hg2 & L2). exists g2. split; [done|lia].
Qed.

(** ** Ownership *)

(** C10: In every state that the transactions of the ledger can reach, in any order
    and with any of them refused, rolled back or committed without an answer, where the
    record of the first generation is written for items that no permit owns, as its
    dispatcher does: an item that names a permit is active and the permit is its one attempt
    that has not been settled, with the item's reservation ordinal; an attempt that has not
    been settled is named by its item, and no attempt has a higher ordinal than its item; and
    an ordinary request has one attempt at most, which its waiter names, and a waiter that
    names a permit names the attempt of its request. *)
Theorem ledger_owners_exact db0 db :
  fresh_ledger db0 → rtc ledger_step db0 db →
  (∀ k i p, db_items db !! k = Some i →
     it_CurrentPermit i = Some p ↔ ∃ a, db_attempts db !! p = Some a ∧ job_attempt a ∧ ¬ settled a ∧ attempt_key a = k ∧ a_Ordinal a = it_ReservationOrdinal i)
  ∧ (∀ k i, db_items db !! k = Some i → is_Some (it_CurrentPermit i) → it_State i = "active")
  ∧ (∀ p a, db_attempts db !! p = Some a → job_attempt a →
       ∃ i, db_items db !! attempt_key a = Some i ∧ a_Ordinal a ≤ it_ReservationOrdinal i ∧ (¬ settled a → it_CurrentPermit i = Some p))
  ∧ (∀ p a q b, db_attempts db !! p = Some a → db_attempts db !! q = Some b → job_attempt a → job_attempt b →
       attempt_key a = attempt_key b → ¬ settled a → ¬ settled b → p = q)
  ∧ (∀ p a, db_attempts db !! p = Some a → ordinary_attempt a →
       ∃ w, db_waiters db !! rs_RequestID (a_Reservation a) = Some w ∧ w_PermitID w = p)
  ∧ (∀ k w, db_waiters db !! k = Some w → w_PermitID w ≠ "" →
       ∃ a, db_attempts db !! w_PermitID w = Some a ∧ ordinary_attempt a ∧ rs_RequestID (a_Reservation a) = k)
  ∧ (∀ p a q b, db_attempts db !! p = Some a → db_attempts db !! q = Some b → ordinary_attempt a → ordinary_attempt b →
       rs_RequestID (a_Reservation a) = rs_RequestID (a_Reservation b) → p = q).
Proof.
  intros F R. pose proof (run_ok _ _ R (fresh_ok _ F)) as O. split_and!.
  - intros k i p Hi. split.
    + intros Hp. by destruct (lk_current _ O k i p Hi Hp) as (_ & a).
    + intros (a & Ha & Hj & Hn & <- & _). destruct (lk_item _ O p a Ha Hj) as (i' & Hi' & _ & Hc). rewrite Hi in Hi'. injection Hi' as <-. auto.
  - intros k i Hi [p Hp]. by destruct (lk_current _ O k i p Hi Hp).
  - apply (lk_item _ O).
  - intros p a q b Ha Hb Hja Hjb E Hna Hnb. destruct (lk_item _ O p a Ha Hja) as (i & Hi & _ & Hp), (lk_item _ O q b Hb Hjb) as (j & Hj & _ & Hq).
    rewrite E, Hj in Hi. injection Hi as <-. specialize (Hp Hna). specialize (Hq Hnb). congruence.
  - apply (lk_request _ O).
  - apply (lk_waiter _ O).
  - intros p a q b Ha Hb Hoa Hob E. destruct (lk_request _ O p a Ha Hoa) as (w & Hw & <-), (lk_request _ O q b Hb Hob) as (w' & Hw' & <-).
    rewrite E in Hw. congruence.
Qed.

(** ** Dispatch *)

(** What a successful dispatch found, and what it left. *)
Lemma dispatch_tx_spec c id nonce db before after db' :
  dispatch_tx c id nonce db = Ok (before, after, db') →
  ∃ p, pg_uuid id = Some p ∧ db_attempts db !! p = Some before ∧ a_ClaimID before = nonce ∧ a_State before = "dispatching"
     ∧ a_StoppedAt before = None ∧ a_Observation before = None ∧ a_DispatchedAt before = None
     ∧ after = before <| a_DispatchedAt := Some (stamp (readings c 1)) |> ∧ db_attempts db' !! p = Some after
     ∧ readings c 1 < rs_StartBy (a_Reservation before) ∧ readings c 1 < executionDeadline before
     ∧ ∃ g, db_pools db !! rs_PoolID (a_Reservation before) = Some g ∧ pg_Generation g = rs_Generation (a_Reservation before).
Proof.
  unfold dispatch_tx. intros T. apply tx_bind_ok in T as (a & db1 & (p & Hp & Ha & ->)%readAttempt_ok & T).
  apply guard_ok in T as [Hr T]. apply guard_ok in T as [Hd T].
  apply tx_bind_ok in T as (u & db1 & [-> (g & Hg & Eg & _)]%guardPool_ok & T). apply tx_bind_ok in T as (u' & db1 & ->%guardRequestClaim_ok & T).
  apply guard_ok in T as [Ht T]. apply tx_bind_ok in T as (v & db1 & T1 & T). apply tx_bind_ok in T as (v' & db2 & T & T2).
  apply tx_bind_ok in T2 as (b & db3 & (q & Hq & Hb & ->)%readAttempt_ok & [E <-]%tx_ret_ok). injection E as <- <-.
  rewrite !orb_false_iff, !negb_false_iff, !bool_decide_eq_false, !String.eqb_eq, <- !eq_None_not_Some in Hr.
  rewrite bool_decide_eq_false, <- eq_None_not_Some in Hd. apply orb_false_iff in Ht as [Ht1 Ht2]. apply negb_false_iff, Z.ltb_lt in Ht1, Ht2.
  assert (db_attempts db1 = db_attempts db) as E1.
  { destruct (String.eqb (rs_Kind _) _); [exact (proj2 (count_dispatch_Kept _ _ _ _ _ T1))|by apply tx_ret_ok in T1 as [_ <-]]. }
  rewrite <- E1 in Ha. destruct (update_attempt_run _ _ _ _ _ _ _ _ T Hp Ha eq_refl) as [_ ->]. rewrite E1 in Ha.
  rewrite Hp in Hq. injection Hq as <-. cbn in Hb. rewrite lookup_insert_eq in Hb. injection Hb as <-.
  exists p. destruct Hr as [[[Hr1 Hr2] Hr3] Hr4]. split_and!; first [done | by cbn; rewrite lookup_insert_eq | eauto].
Qed.

(** An answer of [MarkDispatch] that allows the call is the answer of a transaction
    that could be made. *)
Lemma MarkDispatch_ran f c rounds id nonce db a :
  (MarkDispatch f c rounds id nonce db).2 = Ok a →
  f ≠ Refused ∧ ∃ before after db', dispatch_tx c id nonce db = Ok (before, after, db')
    ∧ (f = RolledBack ∧ (MarkDispatch f c rounds id nonce db).1 = db ∨ f ≠ RolledBack ∧ (MarkDispatch f c rounds id nonce db).1 = db').
Proof.
  unfold MarkDispatch, confirmed, ledgerTx. destruct f.
  2: by destruct (dispatch_tx c id nonce db) as [[[before after] db']|e].
  all: destruct (dispatch_tx c id nonce db) as [[[before after] db']|e]; cbn; intros H; try done; (split; [done|]); exists before, after, db'; naive_solver.
Qed.

(** C11: No permit of a job is dispatched twice.  If one invocation was allowed to call
    the provider, whether by an acknowledged write or by the confirmation of one
    that was not, then any later call of [MarkDispatch] for the permit is refused,
    whoever makes it.  The one exception is a second call by the same owner after the
    transaction of the first was rolled back, and an owner's nonce belongs to one
    invocation, which calls it once. *)
Theorem permit_dispatched_once db0 db db2 f1 c1 rounds1 id1 n1 a1 f2 c2 rounds2 id2 n2 a2 p a :
  fresh_ledger db0 → rtc ledger_step db0 db →
  pg_uuid id1 = Some p → pg_uuid id2 = Some p → db_attempts db !! p = Some a → job_attempt a →
  (MarkDispatch f1 c1 rounds1 id1 n1 db).2 = Ok a1 → rtc ledger_step (MarkDispatch f1 c1 rounds1 id1 n1 db).1 db2 →
  (MarkDispatch f2 c2 rounds2 id2 n2 db2).2 = Ok a2 → f1 = RolledBack ∧ n1 = n2.
Proof.
  intros F R Hp1 Hp2 Ha Hj H1 R2 H2. pose proof (run_ok _ _ R (fresh_ok _ F)) as O.
  destruct (MarkDispatch_ran _ _ _ _ _ _ _ H1) as (_ & b1 & e1 & db1 & T1 & D1).
  destruct (MarkDispatch_ran _ _ _ _ _ _ _ H2) as (_ & b2 & e2 & db3 & T2 & _).
  destruct (dispatch_tx_spec _ _ _ _ _ _ _ T1) as (p1 & Hq1 & Hb1 & Hn1 & Hs1 & _ & _ & _ & -> & He1 & _).
  destruct (dispatch_tx_spec _ _ _ _ _ _ _ T2) as (p2 & Hq2 & Hb2 & Hn2 & Hs2 & _ & _ & Hd2 & _).
  assert (p1 = p) as -> by congruence. assert (p2 = p) as -> by congruence. rewrite Ha in Hb1. injection Hb1 as <-.
  destruct D1 as [[-> Ed]|[Hf Ed]].
  - split; [done|]. rewrite Ed in R2. destruct (run_row _ _ _ _ R2 O Ha Hj) as (b & Hb & L). rewrite Hb2 in Hb. injection Hb as <-.
    destruct (le_claim _ _ L) as [E _]; [by apply (ro_dispatching _ _ (lk_rows _ O p a Ha))|]. congruence.
  - exfalso. rewrite Ed in R2. assert (LedgerOK db1) as O1 by (by apply (dispatch_tx_Kept _ _ _ _ _ _ T1)).
    destruct (run_row _ _ _ _ R2 O1 He1 Hj) as (b & Hb & L). rewrite Hb2 in Hb. injection Hb as <-.
    rewrite (le_dispatch _ _ L _ eq_refl) in Hd2. done.
Qed.

(** ** Settlement *)

(** A settlement that finds the attempt settled answers with what is retained. *)
Lemma settle_tx_again c id nonce o db p a r db' :
  pg_uuid id = Some p → db_attempts db !! p = Some a → settled a → settle_tx c id nonce o db = Ok (r, db') →
  db' = db ∧ a_Observation r = a_Observation a ∧ ∃ old, a_Observation a = Some old ∧ sameTerminalObservation old o = true.
Proof.
  intros Hp Ha Hs T. unfold settle_tx in T. apply tx_bind_ok in T as (b & db1 & (q & Hq & Hb & ->)%readAttempt_ok & T).
  rewrite Hp in Hq. injection Hq as <-. rewrite Ha in Hb. injection Hb as <-. apply guard_ok in T as [_ T]. apply guard_ok in T as [_ T].
  rewrite (proj2 (is_settled_spec a) Hs) in T. apply guard_ok in T as [G T]. apply orb_false_iff in G as [G1 G2].
  apply negb_false_iff, bool_decide_eq_true in G1 as [old Eo]. unfold contradicts in G2. rewrite Eo in G2. apply negb_false_iff in G2.
  unfold fillAttemptCounts in T. destruct (negb _).
  - apply tx_ret_ok in T as [<- <-]. eauto.
  - apply tx_bind_ok in T as (n & db1 & [_ <-]%ask_ok & [<- <-]%tx_ret_ok). eauto.
Qed.

(** C12: Outcomes are final.  Once an attempt of a job is settled, no later run of the
    ledger, with any interleaving of operations and failures, changes its
    observation, its claim or its dispatch, or lowers its revision, and stop
    evidence is never lost; a settlement that is tried again is answered with the
    retained observation, and only when it agrees with it.  An item that has
    succeeded or failed keeps its row as it is. *)
Theorem outcomes_are_final db0 db db' :
  fresh_ledger db0 → rtc ledger_step db0 db → rtc ledger_step db db' →
  (∀ p a, db_attempts db !! p = Some a → job_attempt a → settled a →
     ∃ b, db_attempts db' !! p = Some b ∧ settled b ∧ a_Observation b = a_Observation a ∧ a_DispatchedAt b = a_DispatchedAt a
        ∧ a_ClaimID b = a_ClaimID a ∧ a_SettlementRevision a ≤ a_SettlementRevision b
        ∧ (is_Some (a_StoppedAt a) → is_Some (a_StoppedAt b))
        ∧ ∀ c id nonce o r db1, pg_uuid id = Some p → settle_tx c id nonce o db' = Ok (r, db1) →
            db1 = db' ∧ a_Observation r = a_Observation a
            ∧ ∃ old, a_Observation a = Some old ∧ sameTerminalObservation old o = true)
  ∧ (∀ k i, db_items db !! k = Some i → terminal (it_State i) = true → db_items db' !! k = Some i).
Proof.
  intros F R R'. pose proof (run_ok _ _ R (fresh_ok _ F)) as O. split.
  - intros p a Ha Hj Hs. destruct (run_row _ _ _ _ R' O Ha Hj) as (b & Hb & L). exists b.
    destruct (le_settled _ _ L Hs) as (Hsb & Eo & Ed & Er). destruct (le_unreserved _ _ L) as [_ Ec]; [by rewrite Hs|].
    split_and!; try done; [apply L|]. intros c id nonce o r db1 Hp T. rewrite <- Eo. by eapply settle_tx_again.
  - intros k i Hi Ht. destruct (run_item _ _ _ _ R' O Hi) as (j & Hj & L). by rewrite (ile_terminal _ _ L Ht) in Hj.
Qed.

(** ** Generations *)

(** A claim that is granted, or confirmed, was made on a reservation. *)
Lemma claim_tx_spec c id nonce db before after db' :
  claim_tx c id nonce db = Ok (before, after, db') →
  ∃ p, pg_uuid id = Some p ∧ db_attempts db !! p = Some before ∧ a_State before = "reserved"
     ∧ after = claim_set nonce (readings c 1) (claim_deadline (readings c 1) before) before ∧ db_attempts db' !! p = Some after
     ∧ ∃ g, db_pools db !! rs_PoolID (a_Reservation before) = Some g ∧ pg_Generation g = rs_Generation (a_Reservation before).
Proof.
  unfold claim_tx. intros T. apply tx_bind_ok in T as (a & db1 & (p & Hp & Ha & ->)%readAttempt_ok & T). apply guard_ok in T as [Hr T].
  apply tx_bind_ok in T as (u & db1 & [-> (g & Hg & Eg & _)]%guardPool_ok & T). apply tx_bind_ok in T as (u' & db1 & ->%guardRequestClaim_ok & T).
  apply guard_ok in T as [_ T]. apply tx_bind_ok in T as (v & db1 & T & T2).
  apply tx_bind_ok in T2 as (b & db2 & (q & Hq & Hb & ->)%readAttempt_ok & [E <-]%tx_ret_ok). injection E as <- <-.
  apply orb_false_iff in Hr as [Hr _]. apply negb_false_iff in Hr. destruct (update_attempt_run _ _ _ _ _ _ _ _ T Hp Ha Hr) as [_ ->].
  rewrite Hp in Hq. injection Hq as <-. cbn in Hb. rewrite lookup_insert_eq in Hb. injection Hb as <-. apply String.eqb_eq in Hr.
  exists p. split_and!; first [done | by cbn; rewrite lookup_insert_eq | eauto].
Qed.

Lemma confirmed_ok f fn again db a : (confirmed f fn again db).2 = Ok a → ∃ before after db', fn db = Ok (before, after, db').
Proof.
  unfold confirmed, ledgerTx. destruct f, (fn db) as [[[before after] db']|e]; cbn; intros H; try done; eauto.
Qed.

(** C13: A generation is fenced.  When the pool has moved to a generation, in every state
    the ledger can reach then or later, each attempt of an earlier generation is
    settled with evidence that it stopped, so nothing of it runs any more, and no
    reservation, claim or dispatch of another generation than the current one is
    granted. *)
Theorem generations_are_fenced db0 db db' pool g :
  fresh_ledger db0 → rtc ledger_step db0 db → db_pools db !! pool = Some g → rtc ledger_step db db' →
  ∃ g', db_pools db' !! pool = Some g' ∧ pg_Generation g ≤ pg_Generation g'
  ∧ (∀ p a, db_attempts db' !! p = Some a → rs_PoolID (a_Reservation a) = pool →
       rs_Generation (a_Reservation a) ≤ pg_Generation g'
       ∧ (rs_Generation (a_Reservation a) < pg_Generation g' → settled a ∧ is_Some (a_StoppedAt a)))
  ∧ (∀ f c missed r a, rs_PoolID r = pool → (ReserveAttempt f c missed r db').2 = Ok a → rs_Generation r = pg_Generation g')
  ∧ (∀ id nonce p a b, pg_uuid id = Some p → db_attempts db' !! p = Some a → rs_PoolID (a_Reservation a) = pool →
       (∃ f c rounds, (ClaimAttempt f c rounds id nonce db').2 = Ok b ∨ (MarkDispatch f c rounds id nonce db').2 = Ok b) →
       rs_Generation (a_Reservation a) = pg_Generation g' ∧ ¬ settled a).
Proof.
  intros F R Hg R'. pose proof (run_ok _ _ R (fresh_ok _ F)) as O. destruct (run_pool _ _ _ _ R' O Hg) as (g' & Hg' & Hle).
  pose proof (run_ok _ _ R' O) as O'. exists g'. split; [done|]. split; [done|]. split_and!.
  - intros p a Ha Hp. destruct (lk_fence _ O' p a Ha) as (g2 & Hg2 & H1 & H2). rewrite Hp, Hg' in Hg2. injection Hg2 as <-. done.
  - intros f c missed r a Hp H. unfold ReserveAttempt in H. destruct (negb _); [done|]. apply ledger_ok in H as (db1 & T & _).
    apply tx_bind_ok in T as (u & db2 & [_ (g2 & Hg2 & E & _)]%guardPool_ok & _). rewrite Hp, Hg' in Hg2. congruence.
  - intros id nonce p a b Hp Ha Hpool (f & c & rounds & [H|H]).
    + unfold ClaimAttempt in H. destruct (_ || _); [done|]. apply confirmed_ok in H as (before & after & db1 & T).
      apply claim_tx_spec in T as (p' & Hp' & Ha' & Hs & _ & _ & g2 & Hg2 & E). assert (p' = p) as -> by congruence.
      rewrite Ha in Ha'. injection Ha' as <-. rewrite Hpool, Hg' in Hg2. split; [congruence|]. unfold settled. by rewrite Hs.
    + apply confirmed_ok in H as (before & after & db1 & T).
      apply dispatch_tx_spec in T as (p' & Hp' & Ha' & _ & Hs & _ & _ & _ & _ & _ & _ & _ & g2 & Hg2 & E). assert (p' = p) as -> by congruence.
      rewrite Ha in Ha'. injection Ha' as <-. rewrite Hpool, Hg' in Hg2. split; [congruence|]. unfold settled. by rewrite Hs.
Qed.
End Runs.

(** ** A run of the ledger *)

(** The last [n] decimal digits of an instant. *)
Fixpoint instant_digits (n : nat) (t : Time) : string :=
  match n with
  | O => ""
  | S n => instant_digits n (t / 10) +:+ String (Ascii.ascii_of_nat (48 + Z.to_nat (t mod 10))) ""
  end.
Lemma instant_digits_length n t : String.length (instant_digits n t) = n.
Proof. revert t. induction n as [|n IH]; intros t; [done|]. cbn [instant_digits]. rewrite string_length_app, IH. cbn. lia. Qed.

(** Identifiers are their own canonical form, and every text is stored. *)
#[export] Instance ledger_demo_pool : PoolEnv := {|
  uuid_sha1 s := "u" +:+ s;
  uuid_parse s := if String.eqb s "" then None else Some s;
  sha256_u64 s := slen s;
  rfc3339nano := instant_digits 20;
|}.
#[export] Instance ledger_demo_env : LedgerEnv := {| pg_uuid s := Some s; jsonb_accepts _ := true; jsonb_members l := l; sha256_hex s := s; input_digest items := pretty (llen items) |}.
#[export] Instance ledger_demo_laws : LedgerLaws.
Proof. split; done. Qed.

Definition demo_scope : string := "0123456789abcdef0123456789abcdef0123456789abcdef0123456789abcdef".
Definition demo_ref : Ref := MkRef demo_scope "job" 0.
Definition demo_reservation : Reservation :=
  MkReservation "permit" "pool" 1 1 demo_ref "" "job" "workflow" Second (10 * Second) Hour 60000 1 1 1 false.
Definition demo_clock (t : Time) : Clock := MkClock (fun _ => t) t.
(** An item of a job with an hour, whose generation may take a minute. *)
Definition demo_request : Snapshot := MkSnapshot "cpa" "gpt-6-luna" "low" [] 60000 false.
Definition demo_item : ItemRow := MkItemRow "first" demo_request "queued" 0 0 zeroOutcome 0 None.
Definition demo_ledger0 : DB :=
  MkDB ∅ {[ (demo_scope, "job") := MkJobRow "key" "digest" 1 "hllm-batch-v1/job" 0 "" Hour 1 None None "" None ]} {[ item_key demo_ref := demo_item ]} ∅ ∅ ∅ 2.
Definition demo_round (db : DB) : Round := MkRound Committed (demo_clock (3 * Second)) db false.

Definition demo_reserved : DB :=
  (ReserveAttempt Committed (demo_clock (2 * Second)) false demo_reservation (EnsurePool Committed "pool" 1 demo_ledger0).1).1.
Definition demo_claimed : DB :=
  (ClaimAttempt Committed (demo_clock (2 * Second)) (demo_round demo_ledger0, demo_round demo_ledger0) "permit" "nonce" demo_reserved).1.
Definition demo_call (f : fate) (db seen : DB) : DB * res batch_error Attempt :=
  MarkDispatch f (demo_clock (3 * Second)) (demo_round seen, demo_round seen) "permit" "nonce" db.
Definition demo_dispatched : DB := (demo_call Committed demo_claimed demo_claimed).1.
Definition demo_observation : AttemptObservation :=
  MkObservation (zeroOutcome <| out_Kind := "completed" |> <| out_ArtifactID := "artifact" |> <| out_FinishedAt := Some (2 * Second) |>)
    true true (3 * Second).
Definition demo_settled : DB :=
  (SettleAttempt AckLost (demo_clock (3 * Second)) (demo_round demo_dispatched) "permit" "nonce" demo_observation demo_dispatched).1.
Definition demo_next : DB := (AdvancePool Committed "pool" 1 2 (QuiescePool Committed "pool" 1 demo_settled).1).1.

Lemma demo_fresh : fresh_ledger demo_ledger0.
Proof.
  split; [done..| |].
  - intros k i. unfold demo_ledger0. cbn. intros [<- <-]%lookup_singleton_Some. split; [done|]. by rewrite lookup_singleton_eq.
  - intros scope id id' j j'. cbn. intros [[= _ <-] _]%lookup_singleton_Some [[= _ <-] _]%lookup_singleton_Some. done.
Qed.

Lemma demo_run_claimed : rtc ledger_step demo_ledger0 demo_claimed.
Proof. eapply rtc_l; [apply st_ensure|]. eapply rtc_l; [apply st_reserve|]. apply rtc_once. apply st_claim. Qed.
Lemma demo_run_settled : rtc ledger_step demo_ledger0 demo_settled.
Proof. etrans; [apply demo_run_claimed|]. eapply rtc_l; [apply st_dispatch|]. apply rtc_once. apply st_settle. Qed.
Lemma demo_run_next : rtc ledger_step demo_settled demo_next.
Proof. eapply rtc_l; [apply st_quiesce|]. apply rtc_once. apply st_advance. Qed.

Lemma ledger_owners_exact_witness :
  ∃ i a, db_items demo_claimed !! item_key demo_ref = Some i ∧ db_attempts demo_claimed !! "permit" = Some a ∧ job_attempt a ∧ ¬ settled a
    ∧ attempt_key a = item_key demo_ref ∧ a_Ordinal a = it_ReservationOrdinal i.
Proof.
  destruct (ledger_owners_exact demo_ledger0 demo_claimed demo_fresh demo_run_claimed) as (H & _).
  destruct (db_items demo_claimed !! item_key demo_ref) as [i|] eqn:E; [|vm_compute in E; discriminate].
  destruct (proj1 (H _ i "permit" E)) as [a Ha]; [vm_compute in E; injection E as <-; reflexivity|]. exists i, a. split; [reflexivity|exact Ha].
Defined.

(** The first call was rolled back; the same owner's second call was committed. *)
Lemma permit_dispatched_once_witness :
  is_ok (demo_call RolledBack demo_claimed demo_dispatched).2 = true ∧ is_ok (demo_call Committed demo_claimed demo_claimed).2 = true
  ∧ RolledBack = RolledBack ∧ "nonce" = "nonce".
Proof.
  split; [vm_compute; reflexivity|]. split; [vm_compute; reflexivity|].
  destruct (demo_call RolledBack demo_claimed demo_dispatched).2 as [a1|] eqn:E1; [|vm_compute in E1; discriminate].
  destruct (demo_call Committed demo_claimed demo_claimed).2 as [a2|] eqn:E2; [|vm_compute in E2; discriminate].
  destruct (db_attempts demo_claimed !! "permit") as [a|] eqn:Ea; [|vm_compute in Ea; discriminate].
  apply (permit_dispatched_once demo_ledger0 demo_claimed demo_claimed RolledBack (demo_clock (3 * Second))
    (demo_round demo_dispatched, demo_round demo_dispatched) "permit" "nonce" a1 Committed (demo_clock (3 * Second))
    (demo_round demo_claimed, demo_round demo_claimed) "permit" "nonce" a2 "permit" a demo_fresh demo_run_claimed eq_refl eq_refl Ea).
  - vm_compute in Ea. injection Ea as <-. reflexivity.
  - exact E1.
  - replace (MarkDispatch RolledBack _ _ _ _ _).1 with demo_claimed by (vm_compute; reflexivity). apply rtc_refl.
  - exact E2.
Defined.

Lemma outcomes_are_final_witness :
  ∃ a b, db_attempts demo_settled !! "permit" = Some a ∧ db_attempts demo_next !! "permit" = Some b
    ∧ a_Observation a = Some demo_observation ∧ a_Observation b = a_Observation a
    ∧ ∃ i, db_items demo_next !! item_key demo_ref = Some i ∧ it_State i = "succeeded".
Proof.
  destruct (outcomes_are_final demo_ledger0 demo_settled demo_next demo_fresh demo_run_settled demo_run_next)
    as [H1 H2].
  destruct (db_attempts demo_settled !! "permit") as [a|] eqn:Ea; [|vm_compute in Ea; discriminate].
  destruct (db_items demo_settled !! item_key demo_ref) as [i|] eqn:Ei; [|vm_compute in Ei; discriminate].
  assert (job_attempt a ∧ settled a ∧ a_Observation a = Some demo_observation) as (Hj & Hs & Ho)
    by (vm_compute in Ea; injection Ea as <-; repeat split; reflexivity).
  assert (terminal (it_State i) = true ∧ it_State i = "succeeded") as [Ht Es] by (vm_compute in Ei; injection Ei as <-; split; reflexivity).
  destruct (H1 "permit" a Ea Hj Hs) as (b & Hb & _ & Eo & _). exists a, b. split; [reflexivity|]. split; [exact Hb|]. split; [exact Ho|].
  split; [exact Eo|]. exists i. split; [exact (H2 _ i Ei Ht)|exact Es].
Defined.

Lemma generations_are_fenced_witness :
  ∃ g a, db_pools demo_next !! "pool" = Some g ∧ pg_Generation g = 2 ∧ db_attempts demo_next !! "permit" = Some a
    ∧ rs_Generation (a_Reservation a) = 1 ∧ settled a ∧ is_Some (a_StoppedAt a).
Proof.
  destruct (db_pools demo_settled !! "pool") as [g0|] eqn:Eg; [|vm_compute in Eg; discriminate].
  destruct (generations_are_fenced demo_ledger0 demo_settled demo_next "pool" g0 demo_fresh
    demo_run_settled Eg demo_run_next) as (g & Hg & _ & H & _).
  destruct (db_attempts demo_next !! "permit") as [a|] eqn:Ea; [|vm_compute in Ea; discriminate].
  assert (rs_PoolID (a_Reservation a) = "pool" ∧ rs_Generation (a_Reservation a) = 1) as [Ep E1]
    by (vm_compute in Ea; injection Ea as <-; split; reflexivity).
  assert (pg_Generation g = 2) as E2 by (vm_compute in Hg; injection Hg as <-; reflexivity).
  exists g, a. destruct (H "permit" a Ea Ep) as [_ Hf]. split; [exact Hg|]. split; [exact E2|]. split; [reflexivity|]. split; [exact E1|].
  apply Hf. rewrite E1, E2. lia.
Defined.
