(* ===== verification/QueueProperties.v ===== *)
(** * QueueProperties: submissions and the ready page

    Theorems about [LedgerQueue]: an idempotency key belongs to one job for ever, and
    the page of ready items is fair to the scopes. *)
From stdpp Require Import gmap relations pretty sorting.
From S2P Require Import Prelude Json BatchController BatchPool PoolWorkflow Ledger LedgerQueue LedgerInvariant LedgerProperties.

Open Scope string_scope.
Open Scope list_scope.
Open Scope Z_scope.

Section Submissions.
Context `{HP : PoolEnv} `{HL : LedgerEnv} `{Laws : !LedgerLaws}.

(** ** The rows of an accepted job *)

Lemma job_items_elem scope job db n i : (n, i) ∈ job_items scope job db ↔ db_items db !! (scope, job, n) = Some i.
Proof.
  unfold job_items. rewrite merge_sort_Permutation, list_elem_of_omap. split.
  - intros ([[[s j] m] i'] & Hin & E). cbn in E. destruct (String.eqb_spec s scope) as [->|]; [|done].
    destruct (String.eqb_spec j job) as [->|]; [|done]. injection E as -> ->. by apply elem_of_map_to_list in Hin.
  - intros Hi. exists ((scope, job, n), i). split; [by apply elem_of_map_to_list|]. cbn. by rewrite !String.eqb_refl.
Qed.

Lemma key_leb_single a b : key_leb [a] [b] = (a <=? b).
Proof. cbn. destruct (Z.eqb_spec a b), (Z.ltb_spec a b), (Z.leb_spec a b); lia. Qed.

#[local] Instance by_index_total : Total (key_order (fun row : Z * ItemRow => [row.1])).
Proof. intros a b. unfold key_order. rewrite !key_leb_single, !Z.leb_le. lia. Qed.
#[local] Instance by_index_trans : Transitive (key_order (fun row : Z * ItemRow => [row.1])).
Proof. intros a b c. unfold key_order. rewrite !key_leb_single, !Z.leb_le. lia. Qed.

Definition row_index_le (a b : Z * string * Snapshot) : Prop := a.1.1 ≤ b.1.1.

Lemma accepted_rows_sorted scope job db : StronglySorted row_index_le (accepted_rows scope job db).
Proof.
  unfold accepted_rows, job_items. pose proof (StronglySorted_merge_sort (key_order (fun row : Z * ItemRow => [row.1]))
    (omap (fun kv => if String.eqb kv.1.1.1 scope && String.eqb kv.1.1.2 job then Some (kv.1.2, kv.2) else None) (map_to_list (db_items db)))) as S.
  revert S. generalize (merge_sort (key_order (fun row : Z * ItemRow => [row.1]))
    (omap (fun kv => if String.eqb kv.1.1.1 scope && String.eqb kv.1.1.2 job then Some (kv.1.2, kv.2) else None) (map_to_list (db_items db)))).
  intros l S. induction S as [|a l S IH Ha]; cbn; constructor; [done|]. apply Forall_map. eapply Forall_impl; [exact Ha|].
  intros b Hb. unfold key_order in Hb. rewrite key_leb_single, Z.leb_le in Hb. exact Hb.
Qed.

Lemma accepted_rows_elem scope job db n custom request :
  (n, custom, request) ∈ accepted_rows scope job db ↔
  ∃ i, db_items db !! (scope, job, n) = Some i ∧ it_CustomID i = custom ∧ it_Request i = request.
Proof.
  unfold accepted_rows. rewrite list_elem_of_fmap. split.
  - intros ([m i] & [= -> -> ->] & Hin). apply job_items_elem in Hin. eauto.
  - intros (i & Hi & <- & <-). exists (n, i). split; [done|]. by apply job_items_elem.
Qed.

Lemma omap_map_NoDup {A B C : Type} (f : A → option B) (g : B → C) (l : list A) :
  NoDup l → (∀ a a' b b', a ∈ l → a' ∈ l → f a = Some b → f a' = Some b' → g b = g b' → a = a') → NoDup (map g (omap f l)).
Proof.
  induction 1 as [|a l Ha Hl IH]; intros Hinj; cbn; [constructor|].
  assert (NoDup (map g (omap f l))) as IH' by (apply IH; intros; eapply Hinj; eauto; by apply elem_of_cons; right).
  destruct (f a) as [b|] eqn:Ef; [|done]. cbn. constructor; [|done]. intros Hin. apply list_elem_of_fmap in Hin as (b' & Eb & Hin).
  apply list_elem_of_omap in Hin as (a' & Ha' & Ef'). apply Ha. rewrite (Hinj a a' b b'); try done; apply elem_of_cons; eauto.
Qed.

Lemma accepted_rows_NoDup scope job db : NoDup (accepted_rows scope job db).
Proof.
  apply (NoDup_fmap_1 (fun r : Z * string * Snapshot => r.1.1)). unfold accepted_rows. rewrite <- list_fmap_compose.
  unfold job_items. erewrite (fmap_Permutation _ _ _ (merge_sort_Permutation _ _)).
  apply (omap_map_NoDup _ (fun row : Z * ItemRow => row.1)); [apply NoDup_map_to_list|].
  intros [[[s j] n] i] [[[s' j'] n'] i'] b b' H1 H2 E1 E2 E. cbn in E1, E2.
  destruct (String.eqb_spec s scope) as [->|]; [|done]. destruct (String.eqb_spec j job) as [->|]; [|done].
  destruct (String.eqb_spec s' scope) as [->|]; [|done]. destruct (String.eqb_spec j' job) as [->|]; [|done].
  injection E1 as <-. injection E2 as <-. cbn in E. subst n'. apply elem_of_map_to_list in H1, H2. congruence.
Qed.

(** What a job was accepted with does not change. *)
Lemma step_accepted_rows db db' scope job :
  ledger_step db db' → LedgerOK db → is_Some (db_jobs db !! (scope, job)) → accepted_rows scope job db' = accepted_rows scope job db.
Proof.
  intros S O Hj. destruct (ledger_step_Kept _ _ S O) as [O' E].
  assert (∀ x, x ∈ accepted_rows scope job db' ↔ x ∈ accepted_rows scope job db) as Hx.
  { intros [[n custom] request]. rewrite !accepted_rows_elem. split.
    - intros (i' & Hi' & <- & <-). destruct (ev_new _ _ E (scope, job, n)) as [i Hi]; [done|eauto|].
      destruct (ev_items _ _ E _ i Hi) as (j & Hj' & L). pose proof (eq_trans (eq_sym Hi') Hj') as [= <-]. exists i.
      split; [done|]. split; symmetry; apply L.
    - intros (i & Hi & <- & <-). destruct (ev_items _ _ E _ i Hi) as (j & Hj' & L). exists j. split; [done|]. split; apply L. }
  apply (StronglySorted_unique_strong row_index_le); [|apply accepted_rows_sorted..|].
  - intros [[n1 c1] r1] [[n2 c2] r2] H1 H2 L1 L2. apply Hx in H1. apply accepted_rows_elem in H1 as (i1 & I1 & <- & <-).
    apply accepted_rows_elem in H2 as (i2 & I2 & <- & <-). unfold row_index_le in L1, L2. cbn in L1, L2. assert (n1 = n2) as -> by lia. congruence.
  - apply NoDup_Permutation; [apply accepted_rows_NoDup..|exact Hx].
Qed.

(** ** One key, one job *)

Lemma job_with_key_found scope hash db id j :
  LedgerOK db → db_jobs db !! (scope, id) = Some j → jb_IdempotencyHash j = hash → job_with_key scope hash db = Some (id, j).
Proof.
  intros O Hj E. destruct (job_with_key scope hash db) as [[id' j']|] eqn:Ek.
  - apply job_with_key_some in Ek as [Hj' E']. assert (id' = id) as -> by (apply (lk_key _ O scope id' id j' j Hj' Hj); congruence).
    pose proof (eq_trans (eq_sym Hj') Hj) as [= ->]. done.
  - by destruct (job_with_key_none _ _ _ _ _ Ek Hj).
Qed.

Lemma run_key db db' scope hash id j :
  rtc ledger_step db db' → LedgerOK db → job_with_key scope hash db = Some (id, j) →
  (∃ j', job_with_key scope hash db' = Some (id, j') ∧ job_core j' = job_core j) ∧ accepted_rows scope id db' = accepted_rows scope id db.
Proof.
  intros R. revert j. induction R as [db|db db1 db' S _ IH]; intros j O Hk; [split; [by exists j|done]|].
  destruct (ledger_step_Kept _ _ S O) as [O1 E]. destruct (job_with_key_some _ _ _ _ _ Hk) as [Hj Eh].
  destruct (ev_jobs _ _ E _ _ Hj) as (j1 & Hj1 & Ec). pose proof Ec as Ec'. injection Ec' as Eh1 _ _ _ _ _ _.
  destruct (IH j1 O1) as [(j2 & Hk2 & Ec2) Er]; [apply job_with_key_found; [done|done|congruence]|].
  split; [exists j2; split; [done|congruence]|]. rewrite Er. apply step_accepted_rows; [done|done|eauto].
Qed.

(** The answer to a submission under a key that has a job. *)
Definition job_ref (scope id : string) (j : JobRow) : JobRef :=
  MkJobRef scope id (jb_ItemCount j) (jb_CreatedAt j) (jb_Deadline j) (jb_WorkflowID j).
Definition agrees (scope id : string) (j : JobRow) (items : list Item) (db : DB) : bool :=
  String.eqb (jb_InputDigest j) (input_digest items) || ((jb_ItemCount j =? llen items) && sameAcceptedSubmission scope id items db).
Definition valid_submission (scope key : string) (items : list Item) (duration : Duration) : bool :=
  validScope scope && negb (String.eqb key "") && (1 <=? llen items) && (llen items <=? MaximumItems) && (0 <? duration).

Definition known_answer (f : fate) (valid same : bool) (ref : JobRef) : res tx_error JobRef :=
  if valid then
    match f with
    | Refused => Err TxOther
    | Committed => if same then Ok ref else Err (TxKnown ErrConflict)
    | _ => if same then Err TxOther else Err (TxKnown ErrConflict)
    end
  else Err TxOther.

Lemma Create_known f c scope key items duration db id j :
  job_with_key scope (sha256_hex key) db = Some (id, j) →
  Create f c scope key items duration db
  = (db, known_answer f (valid_submission scope key items duration) (agrees scope id j items db) (job_ref scope id j)).
Proof.
  intros Hk. unfold Create.
  assert (negb (validScope scope) || String.eqb key "" || (llen items <? 1) || (MaximumItems <? llen items) || (duration <=? 0)
          = negb (valid_submission scope key items duration)) as ->.
  { unfold valid_submission. rewrite !negb_andb, negb_involutive, <- !Z.ltb_antisym, <- Z.leb_antisym. done. }
  destruct (valid_submission scope key items duration); cbn [negb]; [|done].
  unfold ledgerTx, mbind, tx_bind, ask, known_answer. rewrite Hk. unfold agrees, job_ref.
  destruct (String.eqb (jb_InputDigest j) (input_digest items)); cbn [orb]; [by destruct f|].
  unfold guard. destruct (jb_ItemCount j =? llen items); cbn [negb andb]; [|by destruct f].
  by destruct (sameAcceptedSubmission scope id items db), f.
Qed.

Lemma known_answer_ok f valid same ref ref' : known_answer f valid same ref = Ok ref' → ref' = ref ∧ same = true ∧ valid = true.
Proof. unfold known_answer. destruct f, valid, same; naive_solver. Qed.

(** A submission that is accepted has the job of its key. *)
Lemma Create_accepts f c scope key items duration db ref :
  LedgerOK db → (Create f c scope key items duration db).2 = Ok ref →
  let db' := (Create f c scope key items duration db).1 in
  ∃ j, job_with_key scope (sha256_hex key) db' = Some (jr_JobID ref, j) ∧ jr_WorkflowID ref = jb_WorkflowID j ∧ jr_Count ref = jb_ItemCount j
     ∧ agrees scope (jr_JobID ref) j items db' = true ∧ valid_submission scope key items duration = true.
Proof.
  intros O H. cbn zeta. pose proof (Create_Kept f c scope key items duration db O) as [O' _].
  assert (valid_submission scope key items duration = true) as Hv.
  { unfold Create in H. destruct (_ || _ || _ || _ || _) eqn:G; [done|]. unfold valid_submission.
    rewrite !orb_false_iff, negb_false_iff, Z.ltb_ge, Z.ltb_ge, Z.leb_gt in G. destruct G as [[[[-> ->] G1] G2] G3].
    by rewrite (proj2 (Z.leb_le _ _) G1), (proj2 (Z.leb_le _ _) G2), (proj2 (Z.ltb_lt _ _) G3). }
  destruct (job_with_key scope (sha256_hex key) db) as [[id j]|] eqn:Ek.
  - rewrite (Create_known f c scope key items duration db id j Ek) in *. cbn [fst snd] in *.
    apply known_answer_ok in H as (-> & Ha & _). by exists j.
  - revert H O'. unfold Create. destruct (_ || _ || _ || _ || _); [done|]. set (id := uuid_sha1 (scope +:+ NUL +:+ key)).
    destruct f; unfold ledgerTx.
    2: done.
    all: destruct ((_ : Tx JobRef) db) as [[r db']|e] eqn:T; cbn [fst snd]; [|done]; intros H O'; try done.
    injection H as <-. apply tx_bind_ok in T as (prior & db1 & [<- <-]%ask_ok & T). rewrite Ek in T.
    apply tx_bind_ok in T as (taken & db1 & [_ <-]%ask_ok & T). apply tx_bind_ok in T as (u & db1 & [_ <-]%constraint_ok & T).
    apply tx_bind_ok in T as (n & db1 & [<- <-]%ask_ok & T). apply tx_bind_ok in T as (v & db1 & <-%write_ok & [<- <-]%tx_ret_ok).
    eexists. split.
    + apply job_with_key_found; [exact O'|apply lookup_insert_eq|done].
    + split; [done|]. split; [done|]. split; [|done]. unfold agrees. cbn. by rewrite String.eqb_refl.
Qed.

(** C30: One idempotency key, one job.  After a submission has been accepted, a second
    one under its key never changes the ledger, at any later time and whatever has
    happened to the job since; when it is answered, the answer is the accepted job
    with its workflow and its size.  Whether other items are taken for a repetition
    or are a conflict does not depend on the progress of the job, and a repetition
    of the items is always answered with the job. *)
Theorem submission_idempotent db0 db db2 f c scope key items duration ref f' c' items' duration' :
  fresh_ledger db0 → rtc ledger_step db0 db →
  let first := Create f c scope key items duration db in
  let again := Create f' c' scope key items' duration' in
  first.2 = Ok ref → rtc ledger_step first.1 db2 →
  (again db2).1 = db2
  ∧ (∀ ref', (again db2).2 = Ok ref' → jr_JobID ref' = jr_JobID ref ∧ jr_WorkflowID ref' = jr_WorkflowID ref ∧ jr_Count ref' = jr_Count ref)
  ∧ (again db2).2 = (again first.1).2
  ∧ (f' = Committed → 0 < duration' → items' = items → ∃ ref', (again db2).2 = Ok ref' ∧ jr_JobID ref' = jr_JobID ref).
Proof.
  intros F R first again H R2. pose proof (run_ok _ _ R (fresh_ok _ F)) as O. pose proof (Create_Kept f c scope key items duration db O) as [O1 _].
  destruct (Create_accepts f c scope key items duration db ref O H) as (j & Hk & Ew & En & Ha & Hv). fold first in Hk, Ha, O1.
  destruct (run_key _ _ _ _ _ _ R2 O1 Hk) as [(j2 & Hk2 & Ec) Er].
  assert (job_ref scope (jr_JobID ref) j2 = job_ref scope (jr_JobID ref) j) as Ej.
  { unfold job_ref. injection Ec as E1 E3 E4 E5 E6 E7 E8. rewrite E4, E5, E6, E7. done. }
  assert (∀ l, agrees scope (jr_JobID ref) j2 l db2 = agrees scope (jr_JobID ref) j l first.1) as Eg.
  { intros l. unfold agrees, sameAcceptedSubmission. rewrite Er. injection Ec as E1 E3 E4 E5 E6 E7 E8. by rewrite E3, E4. }
  unfold again. rewrite (Create_known f' c' scope key items' duration' first.1 _ _ Hk), (Create_known f' c' scope key items' duration' db2 _ _ Hk2).
  cbn [fst snd]. rewrite Ej, Eg. split_and!; [done| |done|].
  - intros ref' (-> & _)%known_answer_ok. done.
  - intros -> Hd ->. exists (job_ref scope (jr_JobID ref) j). split; [|done]. rewrite Ha.
    replace (valid_submission scope key items duration') with true; [done|]. symmetry. revert Hv. unfold valid_submission.
    rewrite !andb_true_iff, !Z.ltb_lt. naive_solver.
Qed.
End Submissions.

(** ** Rounds of turns *)

#[export] Instance llen_Permutation {A : Type} : Proper (Permutation ==> eq) (@llen A).
Proof. intros l k P. unfold llen. by rewrite P. Qed.

Section Turns.
Context {A : Type} (scope_of : A → string).

(** The rows of one scope. *)
Definition of_scope (s : string) (l : list (Z * A)) : list (Z * A) := List.filter (fun x => String.eqb (scope_of x.2) s) l.

Lemma of_scope_app s l k : of_scope s (l ++ k) = of_scope s l ++ of_scope s k.
Proof. apply List.filter_app. Qed.
Lemma of_scope_perm s l k : l ≡ₚ k → of_scope s l ≡ₚ of_scope s k.
Proof.
  unfold of_scope. induction 1 as [|x l k _ IH|x y l|l1 l2 l3 _ IH1 _ IH2]; cbn; [done| | |by etrans].
  - destruct (String.eqb _ _); [by constructor|done].
  - destruct (String.eqb _ _), (String.eqb _ _); try done. constructor.
Qed.
Lemma of_scope_elem s l x : x ∈ of_scope s l ↔ x ∈ l ∧ scope_of x.2 = s.
Proof. unfold of_scope. rewrite !list_elem_of_In, List.filter_In, String.eqb_eq. done. Qed.

Lemma NoDup_subset_length {B : Type} (l k : list B) : NoDup l → (∀ x, x ∈ l → x ∈ k) → (length l ≤ length k)%nat.
Proof. intros Hn Hs. apply submseteq_length. by apply NoDup_submseteq. Qed.

Lemma elem_of_seqZ_1 n x : x ∈ seqZ 1 n ↔ 1 ≤ x ≤ n.
Proof. rewrite elem_of_seqZ. lia. Qed.

(** Each scope has the turns 1, 2, ... up to the number of its rows. *)
Definition rounds (l : list (Z * A)) : Prop := ∀ s, map fst (of_scope s l) ≡ₚ seqZ 1 (llen (of_scope s l)).

Lemma rounds_perm l k : l ≡ₚ k → rounds l → rounds k.
Proof. intros P R s. rewrite <- (of_scope_perm s _ _ P) at 1. rewrite (R s). unfold llen. by rewrite (of_scope_perm s _ _ P). Qed.

(** In rows that are sorted by turn, the first ones are shared evenly. *)
Lemma take_fair l n : rounds l → Sorted (fun x y : Z * A => x.1 ≤ y.1) l →
  ∀ s t, llen (of_scope s (take n l)) ≤ llen (of_scope t (take n l)) + 1 ∨ of_scope t (drop n l) = [].
Proof.
  intros R S s t. destruct (of_scope t (drop n l)) as [|y0 r] eqn:Er; [by right|left].
  assert (StronglySorted (fun x y : Z * A => x.1 ≤ y.1) l) as SS.
  { apply Sorted_StronglySorted; [|done]. intros x y z ? ?. lia. }
  rewrite <- (take_drop n l) in SS, R. set (p := take n l) in *. set (c := llen (of_scope t p)).
  assert (∀ x y, x ∈ p → y ∈ drop n l → x.1 ≤ y.1) as Hle by (intros x y; by apply (StronglySorted_app_1_elem_of (fun x y : Z * A => x.1 ≤ y.1))).
  assert (∃ y, y ∈ drop n l ∧ y.1 ≤ c + 1) as (y & Hy & Hc).
  { destruct (decide (Exists (fun y : Z * A => y.1 ≤ c + 1) (of_scope t (drop n l)))) as [He|He].
    { apply Exists_exists in He as (y & Hy & Hc). apply of_scope_elem in Hy as [Hy _]. eauto. }
    exfalso. rewrite <- Forall_Exists_neg, Forall_forall in He.
    assert (length (seqZ 1 (c + 1)) ≤ length (map fst (of_scope t p)))%nat as Hl; [|rewrite length_seqZ, length_map in Hl; unfold c, llen in Hl; lia].
    apply NoDup_subset_length; [apply NoDup_seqZ|]. intros x Hx. apply elem_of_seqZ_1 in Hx.
    assert (x ∈ map fst (of_scope t (p ++ drop n l))) as Hin.
    { rewrite (R t). apply elem_of_seqZ_1. rewrite of_scope_app, llen_app, Er. unfold llen at 2. cbn [length]. unfold c in Hx. lia. }
    rewrite of_scope_app, map_app in Hin. apply elem_of_app in Hin as [Hin|Hin]; [done|].
    apply list_elem_of_fmap in Hin as (y & -> & Hy). specialize (He y Hy). lia. }
  pose proof (R s) as Rs. rewrite of_scope_app, map_app in Rs.
  assert (length (map fst (of_scope s p)) ≤ length (seqZ 1 (c + 1)))%nat as Hl.
  { apply NoDup_subset_length.
    - assert (NoDup (map fst (of_scope s p) ++ map fst (of_scope s (drop n l)))) as Hn by (rewrite Rs; apply NoDup_seqZ).
      by apply NoDup_app in Hn as [? _].
    - intros x Hx. apply elem_of_seqZ_1. split.
      + assert (x ∈ map fst (of_scope s p) ++ map fst (of_scope s (drop n l))) as Hx' by (apply elem_of_app; by left).
        rewrite Rs in Hx'. apply elem_of_seqZ_1 in Hx'. lia.
      + apply list_elem_of_fmap in Hx as (z & -> & Hz). apply of_scope_elem in Hz as [Hz _]. specialize (Hle z y Hz Hy). lia. }
  rewrite length_seqZ, length_map in Hl. unfold c, llen in *. lia.
Qed.
End Turns.

(** ** The ready page *)

Section Ready.
Context `{HP : PoolEnv} `{HL : LedgerEnv}.

Lemma numbered_fst {A : Type} (l : list A) n : map fst (numbered n l) = seqZ n (llen l).
Proof.
  revert n. induction l as [|a l IH]; intros n; [done|]. unfold llen. cbn [numbered map length fst]. rewrite IH.
  rewrite (seqZ_cons n) by lia. f_equal. unfold llen. f_equal; lia.
Qed.
Lemma numbered_snd {A : Type} (l : list A) n : map snd (numbered n l) = l.
Proof. revert n. induction l as [|a l IH]; intros n; [done|]. cbn. by rewrite IH. Qed.

Definition scope_of (q : Candidate) : string := cd_Scope q.

Lemma scope_turns_scope cursor rows s x : x ∈ scope_turns cursor rows s → scope_of x.2 = s ∧ x.2 ∈ rows.
Proof.
  unfold scope_turns. intros Hx. assert (x.2 ∈ map snd (numbered 1 (merge_sort (key_order (fun q =>
    [cd_ItemTurn q; Z.b2z (cd_Sequence q <=? cursor (cd_Scope q)); cd_Sequence q])) (List.filter (fun q => String.eqb (cd_Scope q) s) rows)))) as H.
  { apply list_elem_of_fmap. eauto. }
  rewrite numbered_snd, merge_sort_Permutation in H. apply list_elem_of_In, filter_In in H as [H E]. apply String.eqb_eq in E.
  split; [done|by apply list_elem_of_In].
Qed.

Lemma share_scope_turns cursor rows s t :
  of_scope scope_of t (scope_turns cursor rows s) = if decide (s = t) then scope_turns cursor rows s else [].
Proof.
  unfold of_scope. pose proof (scope_turns_scope cursor rows s) as Hs. induction (scope_turns cursor rows s) as [|x l IH]; [by case_decide|].
  cbn. destruct (Hs x) as [Ex _]; [apply elem_of_cons; by left|]. rewrite IH by (intros y Hy; apply Hs, elem_of_cons; by right).
  rewrite Ex. case_decide as E; [subst; by rewrite String.eqb_refl|]. by rewrite (proj2 (String.eqb_neq s t)).
Qed.

Lemma share_turns cursor rows t : of_scope scope_of t (turns cursor rows) = scope_turns cursor rows t.
Proof.
  unfold turns. assert (∀ l, NoDup l → of_scope scope_of t (flat_map (scope_turns cursor rows) l) = if decide (t ∈ l) then scope_turns cursor rows t else []) as Hl.
  { induction 1 as [|s l Hs Hl IH]; [done|]. cbn [flat_map]. rewrite of_scope_app, IH. rewrite share_scope_turns.
    destruct (decide (s = t)) as [->|Hne].
    - rewrite (decide_False _ _ Hs), (decide_True (P := t ∈ t :: l)) by (apply elem_of_cons; by left). apply app_nil_r.
    - cbn. destruct (decide (t ∈ l)) as [H|H]; [rewrite decide_True by (apply elem_of_cons; by right); done|].
      rewrite decide_False; [done|]. rewrite elem_of_cons. naive_solver. }
  rewrite Hl by apply NoDup_remove_dups. case_decide as H; [done|]. rewrite elem_of_remove_dups in H.
  unfold scope_turns. replace (List.filter (fun q => String.eqb (cd_Scope q) t) rows) with (@nil Candidate); [done|].
  symmetry. apply elem_of_nil_inv. intros q Hq. apply list_elem_of_In, filter_In in Hq as [Hq E]. apply String.eqb_eq in E.
  apply H, list_elem_of_fmap. exists q. split; [done|by apply list_elem_of_In].
Qed.

Lemma turns_rounds cursor rows : rounds scope_of (turns cursor rows).
Proof. intros s. rewrite share_turns. unfold scope_turns. rewrite numbered_fst. unfold llen. by rewrite <- (length_map snd (numbered _ _)), numbered_snd. Qed.

Lemma turns_elem cursor rows q : q ∈ rows → ∃ n, (n, q) ∈ turns cursor rows.
Proof.
  intros Hq. assert (q ∈ map snd (scope_turns cursor rows (cd_Scope q))) as H.
  { unfold scope_turns. rewrite numbered_snd, merge_sort_Permutation. apply list_elem_of_In, filter_In. split; [by apply list_elem_of_In|].
    apply String.eqb_refl. }
  apply list_elem_of_fmap in H as ([n q'] & -> & H). exists n. rewrite <- share_turns in H. by apply of_scope_elem in H as [H _].
Qed.

#[local] Instance page_order_total after : Total (page_order after).
Proof.
  intros a b. unfold page_order, page_leb. set (ka := [a.1; _]). set (kb := [b.1; _]).
  destruct (decide (ka = kb)) as [E|E].
  - rewrite !bool_decide_eq_true_2 by done. destruct (decide (cd_Scope a.2 = cd_Scope b.2)) as [->|Hne]; [left; by rewrite string_ltb_irrefl|].
    rewrite (string_ltb_total _ _ Hne). destruct (string_ltb (cd_Scope b.2) (cd_Scope a.2)); auto.
  - rewrite !bool_decide_eq_false_2 by done. unfold ka, kb. cbn.
    destruct (Z.eqb_spec a.1 b.1), (Z.eqb_spec b.1 a.1), (Z.ltb_spec a.1 b.1), (Z.ltb_spec b.1 a.1); try lia; auto.
    destruct (string_ltb after (cd_Scope a.2)), (string_ltb after (cd_Scope b.2)); cbn; auto.
Qed.

Lemma page_order_turn after a b : page_order after a b → a.1 ≤ b.1.
Proof.
  unfold page_order, page_leb. case_bool_decide as E; [injection E as -> _; lia|]. cbn.
  destruct (Z.eqb_spec a.1 b.1), (Z.ltb_spec a.1 b.1); try done; lia.
Qed.

Lemma page_sorted after l : Sorted (fun x y : Z * Candidate => x.1 ≤ y.1) (merge_sort (page_order after) l).
Proof.
  pose proof (Sorted_merge_sort (page_order after) l) as S. induction S as [|x k S IH H]; constructor; [done|].
  inversion H; subst; constructor. by eapply page_order_turn.
Qed.

(** What can be ready: an item of a job, or an ordinary request. *)
Inductive owner : Type := JobItem (r : Ref) | Request (scope id : string).
Definition owner_scope (o : owner) : string := match o with JobItem r => ref_Scope r | Request scope _ => scope end.
Definition item_owner (i : ReadyItem) : owner :=
  if String.eqb (ri_Kind i) "ordinary" then Request (ref_Scope (ri_Ref i)) (ri_RequestID i) else JobItem (ri_Ref i).
Definition cand_owner (x : Candidate) : owner :=
  if String.eqb (cd_Kind x) "ordinary" then Request (cd_Scope x) (cd_ID x) else JobItem (MkRef (cd_Scope x) (cd_ID x) (cd_Index x)).

(** An item of a job waits for the pool: its job belongs to the pool and has time, its
    state is one of waiting, no permit owns it and it is not excluded. *)
Record item_waits (q : QueueSelection) (now : Time) (r : Ref) (j : JobRow) (i : ItemRow) : Prop := {
  iw_pool : jb_PoolID j = qs_PoolID q;
  iw_time : now < jb_Deadline j;
  iw_state : it_State i = "queued" ∨ it_State i = "waiting";
  iw_unowned : it_CurrentPermit i = None;
  iw_excluded : r ∉ qs_Exclude q }.
(** A request waits for the generation: it has time, its caller has been heard of, it has
    not been closed, no permit serves it and it is not excluded. *)
Record request_waits (q : QueueSelection) (now : Time) (w : RequestWaiter) : Prop := {
  rw_pool : w_PoolID w = qs_PoolID q ∧ w_Generation w = qs_Generation q;
  rw_time : now < w_Deadline w;
  rw_live : now < w_LiveUntil w;
  rw_open : w_ClosedAt w = None;
  rw_unowned : w_PermitID w = "";
  rw_excluded : w_RequestID w ∉ qs_ExcludeRequests q }.
Definition waits (q : QueueSelection) (now : Time) (db : DB) (o : owner) : Prop :=
  match o with
  | JobItem r => ∃ j i, db_jobs db !! job_key r = Some j ∧ db_items db !! item_key r = Some i ∧ item_waits q now r j i
  | Request scope id => ∃ k w, db_waiters db !! k = Some w ∧ w_RequestID w = id ∧ w_Scope w = scope ∧ request_waits q now w
  end.

Lemma excluded_spec (l : list Ref) r : existsb (fun r' => ref_eqb r' r) l = false ↔ r ∉ l.
Proof.
  rewrite <- not_true_iff_false. apply not_iff_compat. rewrite existsb_exists, list_elem_of_In. split.
  - intros (x & Hx & E). unfold ref_eqb in E. rewrite !andb_true_iff, !String.eqb_eq, Z.eqb_eq in E.
    destruct x, r, E as [[E1 E2] E3]; cbn in *; by subst.
  - intros Hx. exists r. split; [done|]. unfold ref_eqb. by rewrite !String.eqb_refl, Z.eqb_refl.
Qed.
Lemma not_str_in s l : str_in s l = false ↔ s ∉ l.
Proof. rewrite <- not_true_iff_false. apply not_iff_compat, str_in_spec. Qed.
Lemma not_some {A : Type} (o : option A) : negb (bool_decide (is_Some o)) = true ↔ o = None.
Proof. destruct o; [|done]. by rewrite bool_decide_eq_true_2 by eauto. Qed.

Lemma item_waits_spec q now r j i :
  item_waits q now r j i ↔ jb_PoolID j = qs_PoolID q ∧ now < jb_Deadline j
    ∧ available (qs_Exclude q) (ref_Scope r) (ref_JobID r) (ref_Index r, i) = true.
Proof.
  unfold available. rewrite !andb_true_iff, not_some, str_in_spec, negb_true_iff, excluded_spec, !elem_of_cons, elem_of_nil.
  replace (MkRef (ref_Scope r) (ref_JobID r) (ref_Index r)) with r by (by destruct r). split.
  - intros []. tauto.
  - intros (? & ? & (Hs & ?) & ?). split; try done. tauto.
Qed.
Lemma request_waits_spec q now w :
  request_waits q now w ↔ live_waiter (qs_PoolID q) (qs_Generation q) now (qs_ExcludeRequests q) w = true.
Proof.
  unfold live_waiter, After. rewrite !andb_true_iff, not_some, negb_true_iff, not_str_in, !String.eqb_eq, !Z.ltb_lt, Z.eqb_eq. split.
  - intros [[] ? ? ? ? ?]. tauto.
  - intros ((((((? & ?) & ?) & ?) & ?) & ?) & ?). by split.
Qed.

Lemma numbered_elem {A : Type} (l : list A) n x : x ∈ numbered n l → x.2 ∈ l.
Proof. intros H. rewrite <- (numbered_snd l n). apply list_elem_of_fmap. eauto. Qed.
Lemma numbered_has {A : Type} (l : list A) n a : a ∈ l → ∃ m, (m, a) ∈ numbered n l.
Proof. intros H. rewrite <- (numbered_snd l n) in H. apply list_elem_of_fmap in H as ([m b] & -> & H). eauto. Qed.

Definition job_rows (q : QueueSelection) (scope job : string) (db : DB) : list (Z * ItemRow) :=
  merge_sort (key_order (fun row => [it_QueuedAt row.2; row.1])) (List.filter (available (qs_Exclude q) scope job) (job_items scope job db)).

Lemma job_rows_elem q scope job db n i :
  (n, i) ∈ job_rows q scope job db ↔ db_items db !! (scope, job, n) = Some i ∧ available (qs_Exclude q) scope job (n, i) = true.
Proof. unfold job_rows. rewrite merge_sort_Permutation, list_elem_of_In, filter_In, <- list_elem_of_In, job_items_elem. done. Qed.

Lemma job_candidates_elem q scope job j db x :
  x ∈ job_candidates (qs_Exclude q) (qs_Limit q) scope job j db →
  ∃ n i, cand_owner x = JobItem (MkRef scope job n) ∧ cd_Scope x = scope ∧ (n, i) ∈ job_rows q scope job db.
Proof.
  unfold job_candidates. intros H. apply list_elem_of_fmap in H as ([turn [n i]] & -> & H). apply numbered_elem in H. cbn [snd] in H.
  exists n, i. split; [done|]. split; [done|]. apply elem_of_take in H as (k & H & _). by apply list_elem_of_lookup_2 in H.
Qed.

Lemma candidates_wait q now db x : x ∈ candidates q now db → waits q now db (cand_owner x).
Proof.
  unfold candidates. intros [H|H]%elem_of_app.
  - apply list_elem_of_In, in_flat_map in H as ([[scope job] j] & Hj & H). apply list_elem_of_In, elem_of_map_to_list in Hj.
    destruct (_ && _) eqn:G; [|done]. apply andb_true_iff in G as [G1%String.eqb_eq G2%Z.ltb_lt].
    apply list_elem_of_In, job_candidates_elem in H as (n & i & -> & _ & [Hi Ha]%job_rows_elem). exists j, i. split; [done|]. split; [done|]. by apply item_waits_spec.
  - apply list_elem_of_fmap in H as (w & -> & H). apply list_elem_of_In, filter_In in H as [H Hl]. apply in_map_iff in H as ([k w'] & <- & H).
    apply list_elem_of_In, elem_of_map_to_list in H. exists k, w'. split; [done|]. split; [done|]. split; [done|]. by apply request_waits_spec.
Qed.

(** A job whose items do not all fit fills the page. *)
Lemma job_candidates_full q scope job j db n i :
  (n, i) ∈ job_rows q scope job db →
  (∃ x, x ∈ job_candidates (qs_Exclude q) (qs_Limit q) scope job j db ∧ cand_owner x = JobItem (MkRef scope job n))
  ∨ qs_Limit q ≤ llen (job_candidates (qs_Exclude q) (qs_Limit q) scope job j db).
Proof.
  intros Hin. unfold job_candidates. fold (job_rows q scope job db).
  destruct (decide (length (job_rows q scope job db) ≤ Z.to_nat (qs_Limit q))%nat) as [Hl|Hl].
  - left. rewrite take_ge by done. destruct (numbered_has _ 1 _ Hin) as (m & Hm).
    eexists. split; [apply list_elem_of_fmap; exists (m, (n, i)); split; [done|exact Hm]|done].
  - right. unfold llen. rewrite length_map, <- (length_map snd (numbered _ _)), numbered_snd, length_take. lia.
Qed.

Definition scope_count (s : string) (l : list Candidate) : Z := llen (List.filter (fun q => String.eqb (scope_of q) s) l).

Lemma scope_count_app s l k : scope_count s (l ++ k) = scope_count s l + scope_count s k.
Proof. unfold scope_count. by rewrite List.filter_app, llen_app. Qed.
Lemma scope_count_nonneg s l : 0 ≤ scope_count s l.
Proof. apply llen_nonneg. Qed.
Lemma scope_count_all s l : (∀ x, x ∈ l → cd_Scope x = s) → scope_count s l = llen l.
Proof.
  intros H. unfold scope_count. f_equal. induction l as [|x l IH]; [done|]. cbn. rewrite IH by (intros y Hy; apply H, elem_of_cons; by right).
  assert (scope_of x = s) as -> by (apply H, elem_of_cons; by left). by rewrite String.eqb_refl.
Qed.

Lemma waits_candidate q now db o :
  waits q now db o → (∃ x, x ∈ candidates q now db ∧ cand_owner x = o) ∨ qs_Limit q ≤ scope_count (owner_scope o) (candidates q now db).
Proof.
  destruct o as [[scope job n]|scope id]; cbn [waits].
  - intros (j & i & Hj & Hi & (Hp & Hd & Ha)%item_waits_spec). assert ((n, i) ∈ job_rows q scope job db) as Hin by (by apply job_rows_elem).
    assert (((scope, job), j) ∈ map_to_list (db_jobs db)) as Hm by (by apply elem_of_map_to_list).
    apply list_elem_of_split in Hm as (l1 & l2 & El). unfold candidates. rewrite El, flat_map_app. cbn [flat_map].
    replace (String.eqb (jb_PoolID j) (qs_PoolID q) && After (jb_Deadline j) now) with true
      by (symmetry; apply andb_true_iff; split; [by apply String.eqb_eq|by apply Z.ltb_lt]).
    destruct (job_candidates_full q scope job j db n i Hin) as [(x & Hx & Ex)|Hf].
    + left. exists x. split; [|done]. rewrite !elem_of_app. auto.
    + right. cbn [owner_scope ref_Scope]. rewrite !scope_count_app.
      rewrite (scope_count_all scope (job_candidates _ _ _ _ _ _)) by (intros y Hy; by apply job_candidates_elem in Hy as (? & ? & _ & ? & _)).
      pose proof (scope_count_nonneg scope). etrans; [exact Hf|]. match goal with |- _ ≤ ?a + (_ + ?b) + ?c => assert (0 ≤ a ∧ 0 ≤ b ∧ 0 ≤ c) by auto end. lia.
  - intros (k & w & Hw & <- & <- & Hl%request_waits_spec). left. exists (waiter_candidate w). split; [|done]. unfold candidates. apply elem_of_app. right.
    apply list_elem_of_fmap. exists w. split; [done|]. apply list_elem_of_In, filter_In. split; [|done]. apply in_map_iff. exists (k, w).
    split; [done|]. apply list_elem_of_In. by apply elem_of_map_to_list.
Qed.

Lemma ready_item_owner x item : ready_item x = Some item → item_owner item = cand_owner x ∧ ref_Scope (ri_Ref item) = cd_Scope x.
Proof.
  unfold ready_item, cand_owner. destruct (generationBudget _ <=? 0); [done|]. destruct (String.eqb (cd_Kind x) "ordinary").
  - destruct (cd_BudgetMS x) as [b|]; [|done]. destruct (_ || _); [done|]. by intros [= <-].
  - by intros [= <-].
Qed.

Lemma read_rows_items rows page cursors page' cursors' :
  read_rows rows page cursors = Some (page', cursors') → ∃ items, rp_Items page' = rp_Items page ++ items ∧ map ready_item rows = map Some items.
Proof.
  revert page cursors. induction rows as [|x rows IH]; intros page cursors; cbn [read_rows].
  { intros [= <- _]. exists []. by rewrite app_nil_r. }
  destruct (ready_item x) as [item|] eqn:Ex; [|done]. intros H. destruct (IH _ _ H) as (items & E1 & E2). exists (item :: items).
  split; [rewrite E1; cbn; by rewrite <- app_assoc|]. cbn. by rewrite Ex, E2.
Qed.

(** The items of a scope on a page. *)
Definition page_share (s : string) (page : ReadyPage) : Z :=
  llen (List.filter (fun item => String.eqb (ref_Scope (ri_Ref item)) s) (rp_Items page)).

Lemma read_items_owners rows items :
  map ready_item rows = map Some items → map item_owner items = map cand_owner rows ∧ length items = length rows
  ∧ ∀ s, llen (List.filter (fun item => String.eqb (ref_Scope (ri_Ref item)) s) items) = scope_count s rows.
Proof.
  revert items. induction rows as [|x rows IH]; intros [|item items] H; try done. cbn in H. injection H as Hx H.
  destruct (IH items H) as (E1 & E2 & E3). destruct (ready_item_owner x item Hx) as [Eo Es]. split; [cbn; by rewrite Eo, E1|].
  split; [cbn; by rewrite E2|]. intros s. specialize (E3 s). unfold scope_count, llen in *. cbn.
  assert (scope_of x = ref_Scope (ri_Ref item)) as -> by done. destruct (String.eqb _ s); cbn; lia.
Qed.

Lemma scope_count_rows s (rows : list (Z * Candidate)) : scope_count s (map snd rows) = llen (of_scope scope_of s rows).
Proof.
  unfold scope_count, of_scope, llen. f_equal. induction rows as [|x rows IH]; [done|]. cbn. destruct (String.eqb _ _); cbn; by rewrite IH.
Qed.

Lemma turns_count cursor rows s : llen (of_scope scope_of s (turns cursor rows)) = scope_count s rows.
Proof.
  rewrite share_turns. unfold scope_turns, scope_count, llen.
  by rewrite <- (length_map snd (numbered _ _)), numbered_snd, merge_sort_Permutation.
Qed.

(** The rows of the page, before they are read. *)
Lemma ready_rows_fair q now db o :
  let rows := ready_rows q now db in
  waits q now db o → 1 ≤ qs_Limit q →
  o ∈ map cand_owner (map snd rows)
  ∨ (llen rows = qs_Limit q ∧ ∀ s, scope_count s (map snd rows) ≤ scope_count (owner_scope o) (map snd rows) + 1).
Proof.
  cbn zeta. intros Hw Hpos. unfold ready_rows. set (cursor := fun scope => _). set (cands := candidates q now db).
  set (sorted := merge_sort (page_order (qs_AfterScope q)) (turns cursor cands)). set (n := Z.to_nat (qs_Limit q)).
  assert (sorted ≡ₚ turns cursor cands) as P by apply merge_sort_Permutation.
  pose proof (take_fair scope_of sorted n (rounds_perm _ _ _ (symmetry P) (turns_rounds cursor cands)) (page_sorted _ _)) as Hf.
  setoid_rewrite scope_count_rows.
  assert (drop n sorted ≠ [] → llen (take n sorted) = qs_Limit q) as Hfull.
  { intros Hd. unfold llen. rewrite length_take. destruct (decide (length sorted ≤ n)%nat) as [Hl|Hl]; [by rewrite drop_ge in Hd|]. unfold n. lia. }
  destruct (waits_candidate q now db o Hw) as [(x & Hx & Ex)|Hc].
  - destruct (turns_elem cursor cands x Hx) as (m & Hm). rewrite <- P, <- (take_drop n sorted) in Hm. apply elem_of_app in Hm as [Hm|Hm].
    { left. apply list_elem_of_fmap. exists x. split; [done|]. apply list_elem_of_fmap. by exists (m, x). }
    right. split; [apply Hfull; intros E; rewrite E in Hm; by apply elem_of_nil in Hm|]. intros s.
    destruct (Hf s (owner_scope o)) as [H|H]; [done|]. exfalso.
    assert ((m, x) ∈ of_scope scope_of (owner_scope o) (drop n sorted)) as Hin.
    { apply of_scope_elem. split; [done|]. rewrite <- Ex. unfold cand_owner. by destruct (String.eqb _ _). }
    rewrite H in Hin. by apply elem_of_nil in Hin.
  - right. fold cands in Hc. rewrite <- (turns_count cursor), <- (of_scope_perm scope_of (owner_scope o) _ _ P) in Hc.
    assert (∀ l, llen (of_scope scope_of (owner_scope o) l) ≤ llen l) as Hsub by (intros l; unfold llen, of_scope; apply inj_le, List.filter_length_le).
    assert (llen (take n sorted) = qs_Limit q) as El.
    { pose proof (Hsub sorted). unfold llen in *. rewrite length_take. unfold n. lia. }
    split; [done|]. intros s. destruct (Hf s (owner_scope o)) as [H|H]; [done|].
    assert (of_scope scope_of (owner_scope o) sorted = of_scope scope_of (owner_scope o) (take n sorted)) as E
      by (rewrite <- (take_drop n sorted) at 1; by rewrite of_scope_app, H, app_nil_r).
    rewrite E in Hc. assert (llen (of_scope scope_of s (take n sorted)) ≤ llen (take n sorted)) by (unfold llen, of_scope; apply inj_le, List.filter_length_le). lia.
Qed.

(** C29: The ready page is sound, fair and full.  It has no more items than were asked
    for, and each of them waits: an item is queued or waiting, no permit owns it, its
    job is one of the pool's and has time left; a request is one of the generation's,
    open, unserved, with time left and a caller that is still heard of; and neither
    is excluded.  An item or a request that waits and is not on the page was
    left out because the page is full, and then no scope has more than one item
    more on the page than the scope that was left waiting. *)
Theorem ready_page_fair f c q db page :
  (SelectReady f c q db).2 = Ok page →
  let now := stamp (readings c 0) in
  llen (rp_Items page) ≤ qs_Limit q
  ∧ (∀ item, item ∈ rp_Items page → waits q now db (item_owner item))
  ∧ (∀ o, waits q now db o →
       o ∈ map item_owner (rp_Items page)
       ∨ (llen (rp_Items page) = qs_Limit q ∧ ∀ s, page_share s page ≤ page_share (owner_scope o) page + 1)).
Proof.
  unfold SelectReady. destruct (negb (valid_selection q)) eqn:Hv; [done|]. intros H. cbn zeta. apply ledger_ok in H as (db' & T & _).
  apply tx_bind_ok in T as (u & db1 & [-> _]%guardPool_ok & T). apply tx_bind_ok in T as (rows & db1 & [<- <-]%ask_ok & T).
  destruct (read_rows _ _ _) as [[page' cursors]|] eqn:Er; [|done]. apply tx_bind_ok in T as (v & db1 & _ & T).
  apply tx_bind_ok in T as (w & db2 & _ & [<- _]%tx_ret_ok). apply read_rows_items in Er as (items & Ei & Em). cbn in Ei. rewrite Ei.
  destruct (read_items_owners _ _ Em) as (Eo & El & Es). set (now := stamp (readings c 0)) in *.
  assert (1 ≤ qs_Limit q) as Hpos.
  { unfold valid_selection in Hv. apply negb_false_iff in Hv. rewrite !andb_true_iff, !negb_true_iff, !Z.ltb_ge in Hv. naive_solver. }
  split_and!.
  - unfold llen. rewrite El, length_map. unfold ready_rows. rewrite length_take. lia.
  - intros item Hin. assert (item_owner item ∈ map cand_owner (map snd (ready_rows q now db))) as Hin'.
    { rewrite <- Eo. apply list_elem_of_fmap. eauto. }
    apply list_elem_of_fmap in Hin' as (x & -> & Hx). apply candidates_wait. apply list_elem_of_fmap in Hx as (y & -> & Hy).
    unfold ready_rows in Hy. apply elem_of_take in Hy as (k & Hy & _). apply list_elem_of_lookup_2 in Hy. rewrite merge_sort_Permutation in Hy.
    unfold turns in Hy. apply list_elem_of_In, in_flat_map in Hy as (scope & _ & Hy). by apply list_elem_of_In, scope_turns_scope in Hy as [_ ?].
  - intros o Hw. destruct (ready_rows_fair q now db o Hw Hpos) as [H|[Hl Hs]]; [left; by rewrite Eo|right].
    split; [unfold llen in *; by rewrite El, length_map|]. intros s. unfold page_share. rewrite Ei, !Es. apply Hs.
Qed.
End Ready.

(** ** A queue of two scopes *)

Definition queue_scope : string := "fedcba9876543210fedcba9876543210fedcba9876543210fedcba9876543210".
Definition queue_item (name : string) : Item := MkItem name demo_request.
Definition queue_empty : DB := MkDB ∅ ∅ ∅ ∅ ∅ ∅ 1.
Definition queue_many (db : DB) : DB * res tx_error JobRef :=
  Create Committed (demo_clock Second) demo_scope "many" [queue_item "a"; queue_item "b"; queue_item "c"] Hour db.
Definition queue_one (db : DB) : DB * res tx_error JobRef :=
  Create Committed (demo_clock Second) queue_scope "one" [queue_item "a"] Hour db.
Definition queue_attach (r : DB * res tx_error JobRef) : DB :=
  match r.2 with Ok job => (AttachJob Committed "pool" 1 job r.1).1 | Err _ => r.1 end.
Definition queue_db : DB := queue_attach (queue_one (queue_attach (queue_many (EnsurePool Committed "pool" 1 queue_empty).1))).
Definition queue_selection : QueueSelection := MkSelection "pool" 1 "" 3 [] [].
Definition queue_page : res batch_error ReadyPage := (SelectReady Committed (demo_clock (2 * Second)) queue_selection queue_db).2.
(** The third item of the larger job. *)
Definition queue_last : owner := JobItem (MkRef demo_scope ("u" +:+ demo_scope +:+ NUL +:+ "many") 2).

Lemma ready_page_fair_witness :
  ∃ page, queue_page = Ok page ∧ llen (rp_Items page) = 3 ∧ page_share demo_scope page = 2 ∧ page_share queue_scope page = 1
    ∧ ∀ s, page_share s page ≤ page_share demo_scope page + 1.
Proof.
  destruct queue_page as [page|e] eqn:E; [|vm_compute in E; discriminate]. exists page. split; [reflexivity|].
  destruct (ready_page_fair _ _ _ _ _ E) as (_ & _ & H).
  assert (llen (rp_Items page) = 3 ∧ page_share demo_scope page = 2 ∧ page_share queue_scope page = 1
          ∧ map item_owner (rp_Items page) = [JobItem (MkRef demo_scope ("u" +:+ demo_scope +:+ NUL +:+ "many") 0);
              JobItem (MkRef queue_scope ("u" +:+ queue_scope +:+ NUL +:+ "one") 0); JobItem (MkRef demo_scope ("u" +:+ demo_scope +:+ NUL +:+ "many") 1)])
    as (E1 & E2 & E3 & E4) by (vm_compute in E; injection E as <-; vm_compute; repeat split; reflexivity).
  split; [exact E1|]. split; [exact E2|]. split; [exact E3|]. destruct (H queue_last) as [Hin|[_ Hs]]; [| |exact Hs].
  - unfold queue_last, waits.
    destruct (db_jobs queue_db !! (demo_scope, "u" +:+ demo_scope +:+ NUL +:+ "many")) as [j|] eqn:Ej; [|vm_compute in Ej; discriminate].
    destruct (db_items queue_db !! (demo_scope, "u" +:+ demo_scope +:+ NUL +:+ "many", 2)) as [i|] eqn:Ei; [|vm_compute in Ei; discriminate].
    exists j, i. split; [exact Ej|]. split; [exact Ei|]. vm_compute in Ej. injection Ej as <-. vm_compute in Ei. injection Ei as <-.
    split; [reflexivity|vm_compute; reflexivity|left; reflexivity|reflexivity|apply not_elem_of_nil].
  - exfalso. rewrite E4 in Hin. rewrite !elem_of_cons, elem_of_nil in Hin. unfold queue_last in Hin.
    destruct Hin as [Hin|[Hin|[Hin|[]]]]; vm_compute in Hin; discriminate.
Defined.

Lemma submission_idempotent_witness :
  ∃ ref ref', (queue_many demo_ledger0).2 = Ok ref
    ∧ (queue_many (Expire Committed (demo_clock Hour) ref (queue_many demo_ledger0).1).1).2 = Ok ref' ∧ jr_JobID ref' = jr_JobID ref.
Proof.
  destruct (queue_many demo_ledger0).2 as [ref|e] eqn:E; [|vm_compute in E; discriminate].
  destruct (submission_idempotent demo_ledger0 demo_ledger0 (Expire Committed (demo_clock Hour) ref (queue_many demo_ledger0).1).1
    Committed (demo_clock Second) demo_scope "many" [queue_item "a"; queue_item "b"; queue_item "c"] Hour ref
    Committed (demo_clock Second) [queue_item "a"; queue_item "b"; queue_item "c"] Hour demo_fresh (rtc_refl _ _) E) as (_ & _ & _ & H).
  - apply rtc_once. apply st_expire.
  - destruct (H eq_refl) as (ref' & H1 & H2); [vm_compute; reflexivity|reflexivity|]. exists ref, ref'. split; [reflexivity|]. split; [exact H1|exact H2].
Defined.
