(* ===== verification/AttemptFlow.v ===== *)
(** * AttemptFlow: the execution of an attempt

    Models [src/stateful/batch]: attempt_execution.go (the invocation of a provider
    under a claim), attempt_workflow.go (settlement, reconciliation and the workflow
    of an attempt), attempt_starter.go, provider_observation.go, the error
    classification of activities.go, and the pool's activities of pool_workflow.go.

    An activity is a [prog]: a tree of its interactions with the environment, each
    with the continuation of its answer.  A transaction of the ledger is one
    interaction, so that others may come in between; a write that is not
    acknowledged and the reads that confirm it are separate ones.  The nonce of an
    invocation, a new UUID, is an argument.  What only bounds a wait (the deadlines
    of clean-up contexts), logs and heartbeats have no node of their own: a
    transaction may fail at any time, and heartbeats are transactions of others. *)
From stdpp Require Import gmap pretty sorting.
From S2P Require Import Prelude Json JsonText Retry Runtime BatchController BatchPool PoolWorkflow Ledger LedgerQueue.

Open Scope string_scope.
Open Scope list_scope.
Open Scope Z_scope.

(** ** Programs *)

Inductive prog (E : Type → Type) (R : Type) : Type :=
| Ret (r : R)
| Do {A : Type} (e : E A) (k : A → prog E R).
Arguments Ret {E R}.
Arguments Do {E R A}.

Fixpoint prog_bind {E : Type → Type} {R S : Type} (p : prog E R) (k : R → prog E S) : prog E S :=
  match p with Ret r => k r | Do e c => Do e (fun a => prog_bind (c a) k) end.
#[export] Instance prog_mret {E : Type → Type} : MRet (prog E) := @Ret E.
#[export] Instance prog_mbind {E : Type → Type} : MBind (prog E) := fun A B k p => prog_bind p k.
#[export] Instance prog_fmap {E : Type → Type} : FMap (prog E) := fun A B f p => prog_bind p (fun a => Ret (f a)).
Definition trigger {E : Type → Type} {A : Type} (e : E A) : prog E A := Do e Ret.

(** ** Results of a call *)

(** What the batch code reads of [hardenllm.Result]. *)
Record CallUsage := MkCallUsage {
  cu_Status : string; cu_PromptTokens : Z; cu_CompletionTokens : Z; cu_ReasoningTokens : Z; cu_CacheReadTokens : Z }.
Record CallResult := MkCallResult {
  xr_AssistantText : string;
  xr_OutputBytes : Z;
  xr_OutputCodePoints : Z;
  xr_Attempts : list (option StreamDiagnostics);
  xr_Usage : CallUsage;
}.

(** [a.Execute] and [a.Encode] may panic. *)
Inductive execution : Type := ExecutePanicked | Executed (r : CallResult) (err : option goerror).
Inductive encoding : Type := EncodePanicked | Encoded (raw : option string).

(** ** Errors of a call *)

Definition safe_byte (a : Ascii.ascii) : bool :=
  let n := Ascii.nat_of_ascii a in between 48 57 n || between 65 90 n || between 97 122 n || (n =? 95)%nat || (n =? 45)%nat.
Definition safeErrorCode (s : string) : bool :=
  (1 <=? slen s) && (slen s <=? 128) && forallb safe_byte (String.list_ascii_of_string s).

Definition policy_code (code : string) : bool :=
  str_in code ["account_deactivated"; "policy_violation"; "insufficient_quota"; "billing_hard_limit_reached"; "billing_not_active"].
Definition throttle_code (code : string) : bool := str_in code ["rate_limit_exceeded"; "model_cooldown"; "auth_unavailable"].

Definition attempt_kind (p : ProviderError) (code : string) : string :=
  let status := pe_Status p in
  if (status =? 401) || (status =? 403) || policy_code code then "policy"
  else if String.eqb code "auth_unavailable" && (pe_RetryAfter p <=? 0) then "policy"
  else if (status =? 429) || throttle_code code then "rejected"
  else "failed".

(** Milliseconds, rounded up. *)
Definition retry_delay (d : Duration) : Z :=
  if 0 <? d then (if Z.rem d Millisecond =? 0 then Milliseconds d else Milliseconds d + 1) else 0.

Definition classifyAttemptError (err : goerror) : string * ItemError * Z :=
  let '(kind, code, status, delay) :=
    match asProvider err with
    | Some (_, p) =>
        let code := if safeErrorCode (pe_Code p) then pe_Code p else "upstream_error" in
        (attempt_kind p code, code, pe_Status p, retry_delay (pe_RetryAfter p))
    | None => ("failed", "upstream_error", 0, 0)
    end in
  let code := if isDeadline err then "provider_timeout" else code in
  (kind, MkItemError code "The provider request did not produce a validated result." status, delay).

Definition partial_output (r : CallResult) : bool :=
  negb (String.eqb (xr_AssistantText r) "") || (0 <? xr_OutputBytes r) || (0 <? xr_OutputCodePoints r)
  || existsb (fun s => match s with Some s => (0 <? sd_OutputBytes s) || (0 <? sd_OutputCodePoints s) | None => false end) (xr_Attempts r).

Definition classifyGenerationError (err : goerror) (r : CallResult) : string * ItemError * Z :=
  let '(kind, problem, delay) := classifyAttemptError err in
  (if String.eqb kind "rejected" && partial_output r then "unconfirmed" else kind, problem, delay).

Definition admission (base : string) : string :=
  if String.eqb base "rejected" then "throttled" else if String.eqb base "policy" then "restricted" else "".

(** ** Diagnostics *)

Definition plain_id (id : string) : bool :=
  (slen id <=? 256) && forallb (fun a => let n := Ascii.nat_of_ascii a in negb ((n <? 32)%nat || (n =? 127)%nat)) (String.list_ascii_of_string id).

Definition copy_stream (out : Outcome) (s : option StreamDiagnostics) : Outcome :=
  match s with
  | Some s => out <| out_HeadersMS := sd_HeadersMs s |> <| out_FirstOutputMS := sd_FirstOutputMs s |>
                  <| out_ProviderRequestID := if plain_id (sd_CorrelationID s) then sd_CorrelationID s else "" |>
  | None => out
  end.
Definition copy_usage (u : CallUsage) (out : Outcome) : Outcome :=
  if String.eqb (cu_Status u) "complete" then
    out <| out_InputTokens := Some (cu_PromptTokens u) |> <| out_OutputTokens := Some (cu_CompletionTokens u) |>
        <| out_ReasoningTokens := Some (cu_ReasoningTokens u) |> <| out_CachedInputTokens := Some (cu_CacheReadTokens u) |>
  else out.
Definition copyAttemptDiagnostics (out : Outcome) (r : CallResult) : Outcome :=
  copy_usage (xr_Usage r) (foldl copy_stream out (xr_Attempts r)).

(** ** Artifacts *)

Definition maximumResultArtifact : Z := 16777216.

Record attemptArtifact := MkArtifact {
  aa_Version : Z;
  aa_PermitID : string;
  aa_PoolID : string;
  aa_ClaimID : string;
  aa_Ref : Ref;
  aa_Observation : AttemptObservation;
  aa_Response : string;
}.

Definition attemptArtifactID (id : string) : string := "attempt-" +:+ id +:+ ".json".

(** A raw message as the encoder writes it: without spaces, and safe in HTML. *)
Fixpoint compact (instr esc : bool) (s : string) : string :=
  match s with
  | EmptyString => EmptyString
  | String a r =>
      let n := Ascii.nat_of_ascii a in
      let instr' := if instr then negb (Ascii.eqb a quote_char && negb esc) else Ascii.eqb a quote_char in
      let esc' := instr && negb esc && Ascii.eqb a backslash in
      if Ascii.eqb a (byte_of 60) then "\u003c" +:+ compact instr' esc' r
      else if Ascii.eqb a (byte_of 62) then "\u003e" +:+ compact instr' esc' r
      else if Ascii.eqb a (byte_of 38) then "\u0026" +:+ compact instr' esc' r
      else if (n =? 226)%nat then
        match r with
        | String b (String c r2) =>
            if (Ascii.nat_of_ascii b =? 128)%nat && between 168 169 (Ascii.nat_of_ascii c)
            then (if (Ascii.nat_of_ascii c =? 168)%nat then "\u2028" else "\u2029") +:+ compact instr' false r2
            else String a (compact instr' esc' r)
        | _ => String a (compact instr' esc' r)
        end
      else if negb instr && str_in (String a EmptyString) [" "; String (Ascii.ascii_of_nat 9) EmptyString; String (Ascii.ascii_of_nat 10) EmptyString; String (Ascii.ascii_of_nat 13) EmptyString]
      then compact instr' esc' r
      else String a (compact instr' esc' r)
  end.

Definition json_Valid (raw : string) : bool := bool_decide (is_Some (decode_one raw)).

(** [decode_artifact] is the strict decoder of one envelope, with nothing behind it;
    [decode_header] reads its pool and its permit. *)
Class ArtifactEnv := {
  decode_artifact : string → option attemptArtifact;
  decode_header : string → option (string * string);
}.

(** ** The environment of an activity *)

Record Result := MkResultLine {
  rl_CustomID : string; rl_Response : option string; rl_Error : option ItemError; rl_Diagnostics : Outcome }.

Inductive start_answer : Type := StartOk | AlreadyStarted | StartFailed.
Record SettlementNotice := MkNotice { sn_PermitID : string; sn_Revision : Z }.

Inductive event : Type → Type :=
(** [time.Now], [ctx.Err() != nil] and [ctx.Deadline()] *)
| Now : event Time
| Done : event bool
| CtxDeadline : event (option Time)
(** an operation on the ledger, with what becomes of its transaction and its clock *)
| Store {A : Type} (op : fate → Clock → DB → DB * A) : event A
(** [a.Execute]: the call under a deadline, and its return *)
| Enter (scope : string) (g : Snapshot) (deadline : Time) : event unit
| Await : event execution
| Encode (g : Snapshot) (r : CallResult) (at_ : Time) : event encoding
(** the object store: whether the write was acknowledged, and what a read finds *)
| Put (scope job id text : string) : event bool
| Open (scope job id : string) : event (option string)
(** the workflow service *)
| StartWorkflow (id queue : string) (r : Reservation) (providerQueue : string) : event start_answer
| Signal (pool : string) (notice : SettlementNotice) : event bool
| CoalescedSignal (pool : string) (notice : SettlementNotice) : event bool
| Enqueued (pool name : string) (job : JobRef) : event (option batch_error)
(** a line of the result stream, and whether it could be written *)
| Emit (r : Result) : event bool.

Abbreviation activity := (prog event).

Record Activities := MkActivities {
  ac_PoolID : string;
  ac_TaskQueue : string;
  ac_Temporal : bool;
  ac_Execute : bool;
  ac_Encode : bool;
  ac_Artifacts : bool;
}.

Section Activity.
Context `{PoolEnv} `{LedgerEnv} `{ArtifactEnv}.

(** The text of an envelope. *)
Definition ref_text (r : Ref) : string :=
  struct_text [always "Scope" (marshal_string (ref_Scope r)); always "JobID" (marshal_string (ref_JobID r)); always "Index" (pretty (ref_Index r))].
Definition artifact_text (a : attemptArtifact) : string :=
  struct_text [always "attempt_artifact_version" (pretty (aa_Version a)); always "permit_id" (marshal_string (aa_PermitID a));
               always "pool_id" (marshal_string (aa_PoolID a)); always "claim_id" (marshal_string (aa_ClaimID a));
               always "ref" (ref_text (aa_Ref a)); always "observation" (observation_text (aa_Observation a));
               always "response" (compact false false (aa_Response a))].

Definition artifact_belongs (artifact : attemptArtifact) (a : Attempt) : bool :=
  let r := a_Reservation a in
  (aa_Version artifact =? 1) && String.eqb (aa_PoolID artifact) (rs_PoolID r) && String.eqb (aa_PermitID artifact) (rs_PermitID r)
  && String.eqb (aa_ClaimID artifact) (a_ClaimID a) && ref_eqb (aa_Ref artifact) (rs_Ref r) && validPermitID (aa_ClaimID artifact).
Definition artifact_outcome (o : AttemptObservation) (a : Attempt) : bool :=
  let out := ob_Outcome o in
  String.eqb (out_Kind out) "completed" && String.eqb (out_ArtifactID out) (attemptArtifactID (rs_PermitID (a_Reservation a)))
  && ob_LocalStopped o && ob_NativeEntered o && validObservation o
  && match out_FinishedAt out, out_StartedAt out with
     | Some finished, Some started =>
         negb (After finished (executionDeadline a)) && negb (Before finished started) && negb (Before (ob_ObservedAt o) finished)
         && match a_ClaimedAt a with Some claimed => negb (Before started claimed) | None => true end
     | _, _ => false
     end.

Definition decodeAttemptArtifact (raw : string) (a : Attempt) : res batch_error attemptArtifact :=
  if maximumResultArtifact <? slen raw then Err ErrSettlementConflict
  else match decode_artifact raw with
       | Some artifact =>
           if artifact_belongs artifact a && artifact_outcome (aa_Observation artifact) a && json_Valid (aa_Response artifact)
           then Ok artifact else Err ErrSettlementConflict
       | None => Err ErrSettlementConflict
       end.

(** [None] when the artifact cannot be read. *)
Definition readAttemptArtifact (a : Attempt) : activity (option attemptArtifact) :=
  let r := a_Reservation a in
  raw ← trigger (Open (ref_Scope (rs_Ref r)) (ref_JobID (rs_Ref r)) (attemptArtifactID (rs_PermitID r)));
  mret (match raw with
        | Some raw => match decodeAttemptArtifact raw a with Ok artifact => Some artifact | Err _ => None end
        | None => None
        end).

(** ** Claims and dispatches, with their confirmations *)

(** A write: its answer and, when the writes were made, the attempt it found and its
    clock. *)
Definition write_op (fn : Clock → Tx (Attempt * Attempt)) (f : fate) (c : Clock) (db : DB)
  : DB * (res tx_error (Attempt * Attempt) * option (Clock * Attempt)) :=
  let '(db', r, changed) := ledgerTx f (fn c) db in
  (db', (r, if changed then match fn c db with Ok (before, _, _) => Some (c, before) | Err _ => None end else None)).

Definition confirm_op (id nonce : string) (accepts : Attempt → bool) (f : fate) (c : Clock) (db : DB) : DB * (Clock * res tx_error Attempt) :=
  (db, (c, (ledgerTx f (confirm_read c id nonce accepts) db).1.2)).

Fixpoint confirm (n : nat) (id nonce : string) (accepts : Attempt → bool) : activity (res batch_error Attempt) :=
  match n with
  | O => mret (Err ErrClaimUnconfirmed)
  | S n =>
      '(c, r) ← trigger (Store (confirm_op id nonce accepts));
      done ← trigger Done;
      match r with
      | Ok a =>
          mret (if negb done && Before (readings c 2) (rs_StartBy (a_Reservation a)) && Before (readings c 3) (executionDeadline a)
                then Ok a else Err ErrClaimUnconfirmed)
      | Err e => if done || final_error e then mret (Err ErrClaimUnconfirmed) else confirm n id nonce accepts
      end
  end.

Definition confirmed_write (fn : Clock → Tx (Attempt * Attempt)) (accepts : Clock → Attempt → Attempt → bool) (id nonce : string)
  : activity (res batch_error Attempt) :=
  '(r, seen) ← trigger (Store (write_op fn));
  match r, seen with
  | Ok (_, result), _ => mret (Ok result)
  | Err _, Some (c, before) => confirm 2 id nonce (accepts c before)
  | Err e, None => mret (Err (ledgerError e))
  end.

Definition claim_attempt (id nonce : string) : activity (res batch_error Attempt) :=
  if negb (validPermitID id) || negb (validPermitID nonce) then mret (Err ErrClaimUnconfirmed)
  else confirmed_write (fun c => claim_tx c id nonce) claim_accepts id nonce.

Definition mark_dispatch (id nonce : string) : activity (res batch_error Attempt) :=
  confirmed_write (fun c => dispatch_tx c id nonce) dispatch_accepts id nonce.

Definition settle_attempt (id nonce : string) (o : AttemptObservation) : activity (res batch_error Attempt) :=
  if negb (validObservation o) then mret (Err ErrSettlementConflict)
  else
    r ← trigger (Store (fun f c db => (ledgerTx f (settle_tx c id nonce o) db).1));
    match r with
    | Ok a => mret (Ok a)
    | Err (TxKnown ErrClaimOwned) => mret (Err ErrClaimOwned)
    | Err (TxKnown ErrSettlementConflict) => mret (Err ErrSettlementConflict)
    | Err e =>
        again ← trigger (Store (fun f _ db => (db, (ledgerTx f (a ← readAttempt id; fillAttemptCounts a) db).1.2)));
        mret (match again with
              | Ok a => if settled_by nonce o a then Ok a else Err (ledgerError e)
              | Err _ => Err (ledgerError e)
              end)
    end.

(** The other operations of the ledger are single transactions. *)
Definition read_attempts (pool : string) (ids : list string) : activity (res batch_error (list Attempt)) :=
  trigger (Store (fun f _ => ReadAttempts f pool ids)).
Definition expire_reservation (id : string) : activity (res batch_error Attempt) := trigger (Store (fun f c => ExpireReservation f c id)).
Definition mark_local_stop (id nonce : string) (at_ : Time) : activity (res batch_error Attempt) :=
  trigger (Store (fun f _ => MarkLocalStop f id nonce at_)).
Definition stage_attempt (id nonce : string) (o : AttemptObservation) : activity (res batch_error Attempt) :=
  trigger (Store (fun f _ => StageAttempt f id nonce o)).
Definition load_item (r : Ref) : activity (res tx_error StoredItem) := trigger (Store (fun f _ => Load f r)).

(** ** The invocation of a provider *)

Record InvocationResult := MkInvocation {
  iv_Disposition : string; iv_ClaimID : string; iv_Observation : option AttemptObservation }.
Definition disposed (disposition : string) : InvocationResult := MkInvocation disposition "" None.

Definition item_error (code message : string) : option ItemError := Some (MkItemError code message 0).

(** A claim whose acknowledgement was lost: the invocation has not entered the
    provider, and says so when the claim turns out to be its own. *)
Definition claim_lost (now : Time) : AttemptObservation :=
  MkObservation (zeroOutcome <| out_Kind := "never_dispatched" |>
    <| out_Error := item_error "claim_acknowledgement_lost" "The invocation did not enter the provider path." |>) false true now.
Definition confirmNeverEnteredClaim (id nonce : string) : activity (option InvocationResult) :=
  now ← trigger Now;
  retained ← mark_local_stop id nonce now;
  match retained with
  | Ok a =>
      if negb (String.eqb (a_ClaimID a) nonce) || String.eqb (a_State a) "reserved" || String.eqb (a_State a) "settled"
         || bool_decide (is_Some (a_DispatchedAt a)) then mret None
      else
        _ ← stage_attempt id nonce (claim_lost now);
        mret (Some (MkInvocation "observed" nonce (Some (claim_lost now))))
  | Err _ => mret None
  end.

(** The variables of the invocation when its deferred function runs. *)
Record Body := MkBody { bd_Observation : AttemptObservation; bd_NativeEntered : bool; bd_Panicked : bool }.
Definition stopped (o : AttemptObservation) (native : bool) : Body := MkBody o native false.

Definition initial_observation (now : Time) : AttemptObservation :=
  MkObservation (zeroOutcome <| out_Kind := "unconfirmed" |>
    <| out_Error := item_error "execution_unconfirmed" "The invocation outcome is unconfirmed." |>) false false now.

Definition neverSent (o : AttemptObservation) (code : string) : Body :=
  stopped (o <| ob_Outcome := zeroOutcome <| out_Kind := "never_dispatched" |>
                 <| out_Error := item_error code "The invocation did not enter the provider path." |> |>
             <| ob_LocalStopped := true |>) false.

(** [ctx.Err() != nil || !now.Before(StartBy) || !now.Before(Deadline)], from left to
    right. *)
Definition too_late (a : Attempt) : activity bool :=
  done ← trigger Done;
  if (done : bool) then mret true else
    now ← trigger Now;
    if negb (Before now (rs_StartBy (a_Reservation a))) then mret true else
      now ← trigger Now;
      mret (negb (Before now (rs_Deadline (a_Reservation a)))).

(** The outcome when the provider is entered. *)
Definition entered_outcome (item : StoredItem) (a : Attempt) (started deadline : Time) : Outcome :=
  let queue := Z.max 0 (Milliseconds (Sub started (si_ReadyAt item))) in
  let rejected := String.eqb (out_Kind (si_Outcome item)) "rejected" in
  zeroOutcome <| out_Kind := "unconfirmed" |> <| out_Attempt := si_Attempt item + 1 |> <| out_StartedAt := Some started |>
    <| out_QueueMS := if rejected then 0 else queue |> <| out_RetryWaitMS := if rejected then queue else 0 |>
    <| out_GenerationBudgetMS := rs_BudgetMS (a_Reservation a) |> <| out_GenerationDeadline := Some deadline |>.

(** The outcome of a call that returned an error. *)
Definition failed_outcome (err : goerror) (r : CallResult) (out : Outcome) : Outcome :=
  let '(kind, problem, delay) := classifyGenerationError err r in
  let '(base, _, _) := classifyAttemptError err in
  let unsure := match asProvider err with Some (_, p) => pe_Status p =? 0 | None => true end || isCanceled err || isDeadline err in
  out <| out_Kind := if unsure then "unconfirmed" else kind |> <| out_Error := Some problem |> <| out_RetryAfterMS := delay |>
      <| out_Admission := admission base |>.

(** Storing the result of a call that finished in time. *)
Definition store_result (id nonce : string) (a : Attempt) (o : AttemptObservation) (finished : Time) (raw : string) : activity Body :=
  let fail_encoding message o := stopped (o <| ob_Outcome ::= fun out => out <| out_Kind := "failed" |> <| out_ArtifactID := "" |>
    <| out_Error := item_error "result_encoding_failed" message |> |>) true in
  let r := a_Reservation a in
  let o := o <| ob_Outcome ::= fun out => out <| out_Kind := "completed" |> <| out_ArtifactID := attemptArtifactID id |> |>
             <| ob_NativeEntered := true |> <| ob_ObservedAt := finished |> in
  let encoded := artifact_text (MkArtifact 1 id (rs_PoolID r) nonce (rs_Ref r) o raw) in
  if maximumResultArtifact <? slen encoded then mret (fail_encoding "The result exceeded its artifact limit." o)
  else
    stored ← trigger (Put (ref_Scope (rs_Ref r)) (ref_JobID (rs_Ref r)) (attemptArtifactID id) encoded);
    if (stored : bool) then mret (stopped o true)
    else
      recovered ← readAttemptArtifact a;
      mret (stopped (if match recovered with Some artifact => sameTerminalObservation (aa_Observation artifact) o | None => false end then o
                     else o <| ob_Outcome ::= fun out => out <| out_Kind := "unconfirmed" |> <| out_ArtifactID := "" |>
                       <| out_Error := item_error "result_storage_unconfirmed" "The generated result's persistence is unconfirmed." |> |>) true).

Definition returned_observation (o : AttemptObservation) (finished : Time) (duration : Duration) (r : CallResult) : AttemptObservation :=
  o <| ob_LocalStopped := true |>
    <| ob_Outcome ::= fun out => copyAttemptDiagnostics (out <| out_FinishedAt := Some finished |> <| out_DurationMS := Milliseconds duration |>) r |>.

(** After the provider was entered. *)
Definition after_execution (id nonce : string) (a : Attempt) (item : StoredItem) (started deadline : Time) (o : AttemptObservation)
    (x : execution) : activity Body :=
  match x with
  | ExecutePanicked => mret (MkBody o true true)
  | Executed r err =>
      finished ← trigger Now;
      later ← trigger Now;
      let o := returned_observation o finished (Sub later started) r in
      match err with
      | Some err => mret (stopped (o <| ob_Outcome ::= failed_outcome err r |>) true)
      | None =>
          if After finished deadline then
            mret (stopped (o <| ob_Outcome ::= fun out => out <| out_Kind := "unconfirmed" |>
              <| out_Error := item_error "generation_deadline_exceeded" "The invocation returned after its generation deadline." |> |>) true)
          else
            raw ← trigger (Encode (im_Generation (si_Item item)) r finished);
            match raw with
            | EncodePanicked => mret (MkBody o true true)
            | Encoded raw =>
                let raw := match raw with Some raw => if json_Valid raw && (slen raw <=? maximumResultArtifact) then Some raw else None | None => None end in
                match raw with
                | None => mret (stopped (o <| ob_Outcome ::= fun out => out <| out_Kind := "failed" |>
                            <| out_Error := item_error "result_encoding_failed" "The result could not be encoded." |> |>) true)
                | Some raw => store_result id nonce a o finished raw
                end
            end
      end
  end.

(** From the claim to the deferred function. *)
Definition invocation_body (id nonce : string) (claimed : Attempt) (o : AttemptObservation) : activity Body :=
  let r := a_Reservation claimed in
  if negb (String.eqb (rs_Kind r) "job") then mret (neverSent o "invalid_attempt_kind")
  else
    item ← load_item (rs_Ref r);
    match item with
    | Err _ => mret (neverSent o "item_unavailable")
    | Ok item =>
        if negb (reservationMatchesSnapshot r (sn_TimeoutMS (im_Generation (si_Item item))) (si_Deadline item)) then mret (neverSent o "snapshot_conflict")
        else
          late ← too_late claimed;
          if (late : bool) then mret (neverSent o "dispatch_deadline_exceeded")
          else
            dispatched ← mark_dispatch id nonce;
            match dispatched with
            | Err _ => mret (neverSent o "dispatch_not_confirmed")
            | Ok a =>
                late ← too_late a;
                if (late : bool) then mret (neverSent o "dispatch_deadline_exceeded")
                else
                  parent ← trigger CtxDeadline;
                  started ← trigger Now;
                  let deadline := match parent with Some t => minTime t (executionDeadline a) | None => executionDeadline a end in
                  let o := o <| ob_Outcome := entered_outcome item a started deadline |> in
                  _ ← trigger (Enter (ref_Scope (rs_Ref (a_Reservation a))) (im_Generation (si_Item item)) deadline);
                  x ← trigger Await;
                  after_execution id nonce a item started deadline o x
            end
    end.

(** What the deferred function makes of a panic. *)
Definition after_panic (b : Body) : AttemptObservation :=
  let o := bd_Observation b in
  if bd_Panicked b then
    (if bd_NativeEntered b then o else o <| ob_LocalStopped := true |>)
      <| ob_Outcome ::= fun out => out <| out_Kind := if bd_NativeEntered b then "unconfirmed" else "never_dispatched" |>
           <| out_ArtifactID := "" |>
           <| out_Error := item_error "invocation_panicked" "The invocation stopped reporting a confirmed result." |> |>
  else o.

Definition finish_invocation (id nonce : string) (b : Body) : activity InvocationResult :=
  now ← trigger Now;
  let o := (after_panic b) <| ob_NativeEntered := bd_NativeEntered b |> <| ob_ObservedAt := now |> in
  _ ← (if ob_LocalStopped o then (_ ← mark_local_stop id nonce now; mret tt) else mret tt);
  _ ← stage_attempt id nonce o;
  mret (MkInvocation "observed" nonce (Some o)).

Definition InvokeAttempt (act : Activities) (nonce id : string) : activity (res batch_error InvocationResult) :=
  if negb (ac_Execute act) || negb (ac_Encode act) || negb (ac_Artifacts act) then mret (Err ErrUnavailable)
  else
    claimed ← claim_attempt id nonce;
    match claimed with
    | Err ErrClaimOwned => mret (Ok (disposed "claim_owned_elsewhere"))
    | Err ErrClaimUnconfirmed =>
        recovered ← confirmNeverEnteredClaim id nonce;
        mret (Ok (default (disposed "claim_unconfirmed") recovered))
    | Err e => mret (Err e)
    | Ok claimed =>
        now ← trigger Now;
        body ← invocation_body id nonce claimed (initial_observation now);
        Ok <$> finish_invocation id nonce body
    end.

(** ** Settlement and reconciliation *)

Record AttemptReference := MkAttemptRef { ar_PoolID : string; ar_PermitID : string }.
Record KnownSettlement := MkKnown { ks_Reference : AttemptReference; ks_ClaimID : string; ks_Observation : AttemptObservation }.

Definition lookupAttempt (ref : AttemptReference) : activity (res batch_error Attempt) :=
  attempts ← read_attempts (ar_PoolID ref) [ar_PermitID ref];
  mret (match attempts with Ok [a] => Ok a | Ok _ => Err ErrNotFound | Err e => Err e end).

Definition SettleKnownAttempt (known : KnownSettlement) : activity (res batch_error Attempt) :=
  retained ← lookupAttempt (ks_Reference known);
  match retained with
  | Err e => mret (Err e)
  | Ok a => if is_settled a then mret (Ok a)
            else settle_attempt (ar_PermitID (ks_Reference known)) (ks_ClaimID known) (ks_Observation known)
  end.

(** What is settled when nothing was retained in time. *)
Definition unconfirmed_observation (a : Attempt) (now : Time) : AttemptObservation :=
  MkObservation (zeroOutcome <| out_Kind := "unconfirmed" |>
    <| out_Error := item_error "execution_unconfirmed" "No authoritative invocation outcome was retained before finalization." |>)
    (bool_decide (is_Some (a_DispatchedAt a))) (bool_decide (is_Some (a_StoppedAt a))) now.

Definition finalize_overdue (a : Attempt) : activity (res batch_error Attempt) :=
  now ← trigger Now;
  if Before now (Add (executionDeadline a) attemptFinalizationGrace) then mret (Ok a)
  else
    now ← trigger Now;
    settle_attempt (rs_PermitID (a_Reservation a)) (a_ClaimID a) (unconfirmed_observation a now).

Definition ReconcileAttempt (act : Activities) (ref : AttemptReference) : activity (res batch_error Attempt) :=
  retained ← lookupAttempt ref;
  match retained with
  | Err e => mret (Err e)
  | Ok a =>
      let id := rs_PermitID (a_Reservation a) in
      if is_settled a then mret (Ok a)
      else if is_reserved a then
        now ← trigger Now;
        if negb (Before now (rs_StartBy (a_Reservation a))) then expire_reservation id else mret (Ok a)
      else
        match a_Observation a with
        | Some o => settle_attempt id (a_ClaimID a) o
        | None =>
            if String.eqb (rs_Kind (a_Reservation a)) "job" && bool_decide (is_Some (a_DispatchedAt a)) && ac_Artifacts act then
              recovered ← readAttemptArtifact a;
              match recovered with
              | Some artifact => settle_attempt id (a_ClaimID a) (aa_Observation artifact)
              | None => finalize_overdue a
              end
            else finalize_overdue a
        end
  end.

(** A success that has stopped may join a batch of wake-ups. *)
Definition coalescible (a : Attempt) : bool :=
  String.eqb (rs_Kind (a_Reservation a)) "job" && bool_decide (is_Some (a_StoppedAt a))
  && match a_Observation a with
     | Some o => ob_LocalStopped o && String.eqb (out_Kind (ob_Outcome o)) "completed" && String.eqb (out_Admission (ob_Outcome o)) ""
                 && (out_RetryAfterMS (ob_Outcome o) =? 0)
     | None => false
     end.
Definition coalescePoolRead (act : Activities) (pool : string) (notice : SettlementNotice) : activity bool :=
  if negb (ac_Temporal act) || String.eqb pool "" || (negb (String.eqb (ac_PoolID act) "") && negb (String.eqb pool (ac_PoolID act)))
  then mret false else trigger (CoalescedSignal pool notice).
Definition NotifySettlement (act : Activities) (a : Attempt) : activity bool :=
  let pool := rs_PoolID (a_Reservation a) in
  let notice := MkNotice (rs_PermitID (a_Reservation a)) (a_SettlementRevision a) in
  if negb (ac_Temporal act) || negb (is_settled a) || (a_SettlementRevision a <? 1) then mret false
  else if coalescible a then coalescePoolRead act pool notice
  else trigger (Signal pool notice).

Definition FinalizeAttempt (act : Activities) (known : KnownSettlement) : activity (res batch_error Attempt) :=
  retained ← (if String.eqb (ks_ClaimID known) "" then ReconcileAttempt act (ks_Reference known) else SettleKnownAttempt known);
  match retained with
  | Err e => mret (Err e)
  | Ok a =>
      if negb (is_settled a) || negb (ac_Temporal act) then mret (Ok a)
      else _ ← NotifySettlement act a; mret (Ok a)
  end.

(** ** The starter *)

Definition start_attempt (act : Activities) (missed : bool) (r : Reservation) : activity AttemptStartResult :=
  let result started code := MkStartResult (rs_PermitID r) started code in
  if negb (String.eqb (rs_PoolID r) (ac_PoolID act)) then mret (result false "pool_mismatch")
  else
    reserved ← trigger (Store (fun f c db => ReserveAttempt f c missed r db));
    match reserved with
    | Err _ => mret (result false "reservation_unconfirmed")
    | Ok _ =>
        if String.eqb (rs_Kind r) "ordinary" then mret (result true "")
        else
          started ← trigger (StartWorkflow (rs_WorkflowID r) (ac_TaskQueue act) r (ac_TaskQueue act +:+ "/provider"));
          mret (match started with StartOk | AlreadyStarted => result true "" | StartFailed => result false "start_unconfirmed" end)
    end.
(** One goroutine for each reservation. *)
Definition StartAttempts (act : Activities) (missed : bool) (reservations : list Reservation) : res batch_error (list (activity AttemptStartResult)) :=
  if negb (ac_Temporal act) || String.eqb (ac_TaskQueue act) "" || (llen reservations <? 1) || (16 <? llen reservations) then Err ErrUnavailable
  else Ok (map (start_attempt act missed) reservations).

(** ** The activities of the pool *)

Record PoolIdentity := MkIdentity { pi_PoolID : string; pi_Generation : Z }.

Definition InitializePool (act : Activities) (identity : PoolIdentity) : activity (res batch_error unit) :=
  if negb (String.eqb (pi_PoolID identity) (ac_PoolID act)) || (pi_Generation identity <? 2) then mret (Err ErrGenerationFenced)
  else
    current ← trigger (Store (fun f _ => read_generation f (pi_PoolID identity)));
    match current with
    | Err ErrNotFound => trigger (Store (fun f _ => EnsurePool f (pi_PoolID identity) (pi_Generation identity)))
    | Err e => mret (Err e)
    | Ok g => mret (if pg_Generation g =? pi_Generation identity then Ok tt else Err ErrGenerationFenced)
    end.

Definition SelectPoolReady (act : Activities) (q : QueueSelection) : activity (res batch_error ReadyPage) :=
  if negb (String.eqb (qs_PoolID q) (ac_PoolID act)) then mret (Err ErrUnavailable)
  else trigger (Store (fun f c => SelectReady f c q)).

(** One attempt of the page as it is read back: expired, reconciled or as it is. *)
Definition refresh_attempt (act : Activities) (pool : string) (generation : Z) (a : Attempt) : activity (res batch_error Attempt) :=
  let id := rs_PermitID (a_Reservation a) in
  if negb (rs_Generation (a_Reservation a) =? generation) then mret (Err ErrGenerationFenced)
  else
    expired ← (if is_reserved a then now ← trigger Now; mret (negb (Before now (rs_StartBy (a_Reservation a)))) else mret false);
    if (expired : bool) then
      updated ← expire_reservation id;
      mret (match updated with Ok b => Ok b | Err ErrClaimOwned => Ok a | Err e => Err e end)
    else if String.eqb (a_State a) "dispatching" then
      overdue ← (if bool_decide (is_Some (a_Observation a)) then mret true
                 else now ← trigger Now; mret (negb (Before now (Add (executionDeadline a) attemptFinalizationGrace))));
      if (overdue : bool) then ReconcileAttempt act (MkAttemptRef pool id) else mret (Ok a)
    else mret (Ok a).

Fixpoint refresh_all (act : Activities) (pool : string) (generation : Z) (l : list Attempt) : activity (res batch_error (list Attempt)) :=
  match l with
  | [] => mret (Ok [])
  | a :: l =>
      updated ← refresh_attempt act pool generation a;
      match updated with
      | Err e => mret (Err e)
      | Ok b => rest ← refresh_all act pool generation l; mret (match rest with Ok rest => Ok (b :: rest) | Err e => Err e end)
      end
  end.

(** [page_bytes] is the length of the JSON text of a page. *)
Definition ReadPool (act : Activities) (page_bytes : list Attempt → Z) (read : PoolRead) : activity (res batch_error (list Attempt)) :=
  if negb (String.eqb (rd_PoolID read) (ac_PoolID act)) || (128 <? llen (rd_IDs read)) then mret (Err ErrUnavailable)
  else
    generation ← trigger (Store (fun f _ => read_generation f (rd_PoolID read)));
    match generation with
    | Err e => mret (Err e)
    | Ok g =>
        if negb (pg_Generation g =? rd_Generation read) then mret (Err ErrGenerationFenced)
        else
          attempts ← read_attempts (rd_PoolID read) (rd_IDs read);
          match attempts with
          | Err e => mret (Err e)
          | Ok attempts =>
              page ← refresh_all act (rd_PoolID read) (rd_Generation read) attempts;
              mret (match page with
                    | Ok page => if 1048576 <? page_bytes page then Err ErrUnavailable else Ok page
                    | Err e => Err e
                    end)
          end
    end.

Definition RetireRequests (act : Activities) (read : PoolRead) : activity (res batch_error unit) :=
  if negb (String.eqb (rd_PoolID read) (ac_PoolID act)) then mret (Err ErrUnavailable)
  else trigger (Store (fun f c => AcknowledgeRequests f c (rd_PoolID read) (rd_Generation read) (rd_IDs read))).

(** The publication, and then the pruning of requests, whose failure is not told. *)
Definition PublishPool (act : Activities) (locked : string → bool) (p : PoolPublication) : activity (res batch_error PublicationPage) :=
  if negb (String.eqb (pb_PoolID p) (ac_PoolID act)) then mret (Err ErrUnavailable)
  else
    page ← trigger (Store (fun f c => store_PublishPool f c p));
    match page with
    | Ok page => _ ← trigger (Store (fun f c => PruneRequests f c locked (pb_PoolID p) 128)); mret (Ok page)
    | Err e => mret (Err e)
    end.

(** A job joins the pool: the generation of the pool, which is created when there is
    none, the attachment of the job, and the signal to the pool's workflow. *)
Definition DispatcherWorkflowName : string := "HLLMCPADispatcherV1".
Definition PoolWorkflowName : string := "HLLMCPAPoolV2".
Definition Enqueue (act : Activities) (j : JobRef) : activity (res batch_error unit) :=
  let pool := ac_PoolID act in
  let read := trigger (Store (fun f _ => read_generation f pool)) in
  if negb (ac_Temporal act) then mret (Err ErrUnavailable)
  else
    marker ← read;
    marker ← match marker with
             | Err ErrNotFound =>
                 ensured ← trigger (Store (fun f _ => EnsurePool f pool 1));
                 match ensured with Err e => mret (Err e) | Ok _ => read end
             | marker => mret marker
             end;
    match marker with
    | Err e => mret (Err e)
    | Ok g =>
        attached ← trigger (Store (fun f _ => AttachJob f pool (pg_Generation g) j));
        match attached with
        | Err e => mret (Err e)
        | Ok _ =>
            refused ← trigger (Enqueued pool (if 2 <=? pg_Generation g then PoolWorkflowName else DispatcherWorkflowName) j);
            mret (match refused with Some e => Err e | None => Ok tt end)
        end
    end.

(** ** The legacy activity *)

(** [%04d] *)
Definition pad4 (n : Z) : string :=
  let digits := pretty n in String.concat "" (repeat "0" (Z.to_nat (4 - slen digits))) +:+ digits.
Definition batchArtifactID (index attempt : Z) : string := "batch-" +:+ pad4 index +:+ "-" +:+ pad4 attempt +:+ ".json".

(** The last stream wins; the identifier is not checked here. *)
Definition legacy_stream (out : Outcome) (s : option StreamDiagnostics) : Outcome :=
  match s with
  | Some s => out <| out_FirstOutputMS := sd_FirstOutputMs s |> <| out_HeadersMS := sd_HeadersMs s |> <| out_ProviderRequestID := sd_CorrelationID s |>
  | None => out
  end.

Definition legacy_failure (err : goerror) (r : CallResult) (out : Outcome) : Outcome :=
  let '(kind, problem, delay) := classifyGenerationError err r in
  let '(base, _, _) := classifyAttemptError err in
  out <| out_Kind := kind |> <| out_Error := Some problem |> <| out_RetryAfterMS := delay |> <| out_Admission := admission base |>.

Definition legacy_result (r : Ref) (item : StoredItem) (out : Outcome) (result : CallResult) : activity Outcome :=
  now ← trigger Now;
  encoded ← trigger (Encode (im_Generation (si_Item item)) result now);
  match encoded with
  | Encoded (Some raw) =>
      if negb (json_Valid raw) then mret (out <| out_Error := item_error "result_encoding_failed" "The result could not be encoded." |>)
      else
        let id := batchArtifactID (ref_Index r) (si_Attempt item) in
        stored ← trigger (Put (ref_Scope r) (ref_JobID r) id raw);
        mret (if (stored : bool) then out <| out_Kind := "completed" |> <| out_ArtifactID := id |>
              else out <| out_Error := item_error "result_storage_failed" "The generated result could not be stored." |>)
  | _ => mret (out <| out_Error := item_error "result_encoding_failed" "The result could not be encoded." |>)
  end.

(** A panic is the failure of the activity: [None]. *)
Definition Generate (r : Ref) : activity (option Outcome) :=
  started ← trigger Now;
  begun ← trigger (Store (fun f c => Begin f c r));
  match begun with
  | Err _ => mret (Some (zeroOutcome <| out_Kind := "failed" |>
               <| out_Error := item_error "item_unavailable" "Could not start the stored item." |>))
  | Ok item =>
      if terminal (si_State item) then mret (Some (si_Outcome item))
      else
        let queue := Z.max 0 (Milliseconds (Sub started (si_ReadyAt item))) in
        let out := zeroOutcome <| out_Kind := "failed" |> <| out_Attempt := si_Attempt item |>
          <| out_QueueMS := if si_WasWaiting item then 0 else queue |> <| out_RetryWaitMS := if si_WasWaiting item then queue else 0 |> in
        let timeout := sn_TimeoutMS (im_Generation (si_Item item)) in
        if negb (Before started (si_Deadline item)) then
          mret (Some (out <| out_Error := item_error "job_deadline_exceeded" "The job deadline expired." |>))
        else if generationBudget timeout <=? 0 then
          mret (Some (out <| out_Error := item_error "invalid_generation_budget" "The stored generation budget is invalid." |>))
        else
          parent ← trigger CtxDeadline;
          now ← trigger Now;
          let limit := generationDeadline now timeout (si_Deadline item) in
          let deadline := match parent with Some t => minTime t limit | None => limit end in
          at_ ← trigger Now;
          let out := out <| out_GenerationBudgetMS := Milliseconds (generationBudget timeout) |> <| out_GenerationDeadline := Some deadline |>
                         <| out_StartedAt := Some at_ |> in
          _ ← trigger (Enter (ref_Scope r) (im_Generation (si_Item item)) deadline);
          x ← trigger Await;
          match x with
          | ExecutePanicked => mret None
          | Executed result err =>
              finished ← trigger Now;
              later ← trigger Now;
              let out := copy_usage (xr_Usage result) (foldl legacy_stream
                (out <| out_FinishedAt := Some finished |> <| out_DurationMS := Milliseconds (Sub later at_) |>) (xr_Attempts result)) in
              match err with
              | Some err => mret (Some (legacy_failure err result out))
              | None => Some <$> legacy_result r item out result
              end
          end
  end.

(** ** The delivery of results *)

Definition attemptResponse (raw : string) (ref : Ref) (outcome : Outcome) : activity (res batch_error string) :=
  match decode_header raw with
  | None => mret (Err ErrSettlementConflict)
  | Some (pool, permit) =>
      if negb (validPool pool) || negb (validPermitID permit) || negb (String.eqb (attemptArtifactID permit) (out_ArtifactID outcome))
      then mret (Err ErrSettlementConflict)
      else
        attempts ← read_attempts pool [permit];
        mret (match attempts with
              | Err e => Err e
              | Ok [a] =>
                  if negb (ref_eqb (rs_Ref (a_Reservation a)) ref) || negb (String.eqb (rs_Kind (a_Reservation a)) "job") || negb (is_settled a)
                     || negb (bool_decide (is_Some (a_Observation a))) then Err ErrSettlementConflict
                  else
                    let? artifact := decodeAttemptArtifact raw a in
                    if sameObservation (MkObservation (ob_Outcome (aa_Observation artifact)) false false time_zero) (MkObservation outcome false false time_zero)
                    then Ok (aa_Response artifact) else Err ErrSettlementConflict
              | Ok _ => Err ErrSettlementConflict
              end)
  end.

Definition succeeded_response (ref : Ref) (v : StoredItem) : activity (res unit string) :=
  let id := out_ArtifactID (si_Outcome v) in
  found ← trigger (Open (ref_Scope ref) (ref_JobID ref) id);
  match found with
  | None => mret (Err tt)
  | Some raw =>
      if (maximumResultArtifact <? slen raw) || negb (json_Valid raw) then mret (Err tt)
      else if String.prefix "attempt-" id then
        response ← attemptResponse raw ref (si_Outcome v);
        mret (match response with Ok response => Ok response | Err _ => Err tt end)
      else mret (Ok raw)
  end.

(** The lines from [index] on; false when an item stops the delivery. *)
Fixpoint write_lines (n : nat) (scope id : string) (index : Z) : activity bool :=
  match n with
  | O => mret true
  | S n =>
      let ref := MkRef scope id index in
      loaded ← load_item ref;
      match loaded with
      | Err _ => mret false
      | Ok v =>
          let line response := MkResultLine (im_CustomID (si_Item v)) response (out_Error (si_Outcome v)) (si_Outcome v) in
          response ← (if String.eqb (si_State v) "succeeded" then
                        r ← succeeded_response ref v; mret (match r with Ok raw => Ok (Some raw) | Err _ => Err tt end)
                      else mret (Ok None));
          match response with
          | Err _ => mret false
          | Ok response =>
              written ← trigger (Emit (line response));
              if (written : bool) then write_lines n scope id (index + 1) else mret false
          end
      end
  end.

Definition WriteResults (scope id : string) : activity bool :=
  status ← trigger (Store (fun f c db => (db, service_Status f c scope id db)));
  match status with
  | Err _ => mret false
  | Ok v => if negb (counts_Done (st_Counts v)) then mret false else write_lines (Z.to_nat (n_Total (st_Counts v))) scope id 0
  end.
End Activity.

(** ** The workflow of an attempt *)

(** What the workflow schedules, and the answer it gets; [None] is a failure, a
    timeout or an answer that was lost. *)
Inductive scheduled : Type → Type :=
| DoInvoke (id : string) : scheduled (option InvocationResult)
| DoFinalize (known : KnownSettlement) : scheduled (option Attempt)
| DoSettleKnown (known : KnownSettlement) : scheduled (option Attempt)
| DoReconcile (ref : AttemptReference) : scheduled (option Attempt)
| DoNotify (a : Attempt) : scheduled unit
| DoSleep : scheduled bool.

Record AttemptInput := MkAttemptInput { ai_Reservation : Reservation; ai_ProviderTaskQueue : string }.

(** An empty observation for the reconciliation of a reference. *)
Definition no_observation : AttemptObservation := MkObservation zeroOutcome false false time_zero.

Section Workflow.
(** [combined-settlement-notice] *)
Variable combined : bool.

Definition reconcile_step (ref : AttemptReference) : prog scheduled (option Attempt) :=
  if combined then trigger (DoFinalize (MkKnown ref "" no_observation)) else trigger (DoReconcile ref).
Definition settle_step (ref : AttemptReference) (invoked : option InvocationResult) : prog scheduled (option Attempt) :=
  match invoked with
  | Some (MkInvocation _ claim (Some o)) =>
      if String.eqb claim "" then reconcile_step ref
      else if combined then trigger (DoFinalize (MkKnown ref claim o)) else trigger (DoSettleKnown (MkKnown ref claim o))
  | _ => reconcile_step ref
  end.
Definition observed (invoked : option InvocationResult) : bool :=
  match invoked with Some (MkInvocation _ _ (Some _)) => true | _ => false end.
(** The end, when the attempt is settled. *)
Definition ended (retained : option Attempt) : prog scheduled bool :=
  match retained with
  | Some a => if is_settled a then (if combined then mret true else _ ← trigger (DoNotify a); mret true) else mret false
  | None => mret false
  end.

(** [None] when the rounds have run out, [Some false] when a sleep was cancelled. *)
Fixpoint attempt_rounds (n : nat) (ref : AttemptReference) (invoked : option InvocationResult) : prog scheduled (option bool) :=
  match n with
  | O => mret None
  | S n =>
      retained ← settle_step ref invoked;
      finished ← ended retained;
      if (finished : bool) then mret (Some true)
      else
        finished ← (if negb (bool_decide (is_Some retained)) && observed invoked then current ← reconcile_step ref; ended current else mret false);
        if (finished : bool) then mret (Some true)
        else
          slept ← trigger DoSleep;
          if (slept : bool) then attempt_rounds n ref invoked else mret (Some false)
  end.

Definition AttemptWorkflow (n : nat) (input : AttemptInput) : prog scheduled (option bool) :=
  let r := ai_Reservation input in
  if String.eqb (ai_ProviderTaskQueue input) "" || (rs_BudgetMS r <? 1) || IsZero (rs_Deadline r) then mret (Some false)
  else
    invoked ← trigger (DoInvoke (rs_PermitID r));
    attempt_rounds n (MkAttemptRef (rs_PoolID r) (rs_PermitID r)) invoked.
End Workflow.

(** ** Ordinary dispatches *)

(** An error, and whether it is marked as [InferenceUnconfirmed], which wraps it. *)
Definition dispatch_error : Type := goerror * bool.
Definition unconfirmedDispatchError (err : goerror) : dispatch_error := (EWrap (errorText err) err, true).

Definition ObserveProviderDispatch (r : ProviderResult) (err : option goerror) : Outcome * option dispatch_error :=
  let s := pr_Stream r in
  let u := Accounting.ledger_Usage (pr_Accounting r) in
  let o := zeroOutcome <| out_Kind := "completed" |> <| out_HeadersMS := sd_HeadersMs s |> <| out_FirstOutputMS := sd_FirstOutputMs s |>
             <| out_ProviderRequestID := sd_CorrelationID s |> in
  let o := copy_usage (MkCallUsage (Accounting.usage_Status u) (Accounting.PromptTokens u) (Accounting.CompletionTokens u)
                         (Accounting.ReasoningTokens u) (Accounting.CacheReadTokens u)) o in
  match err with
  | None => (o, None)
  | Some err =>
      let '(kind, problem, delay) := classifyGenerationError err
        (MkCallResult (pr_AssistantText r) (sd_OutputBytes s) (sd_OutputCodePoints s) [] (MkCallUsage "" 0 0 0 0)) in
      let '(base, _, _) := classifyAttemptError err in
      let network := match asProvider err with Some (_, p) => String.eqb (pe_Category p) CategoryNetwork | None => false end in
      let kind := if isCanceled err || isDeadline err || network then "unconfirmed" else kind in
      let o := o <| out_Kind := kind |> <| out_Error := Some problem |> <| out_RetryAfterMS := delay |> <| out_Admission := admission base |> in
      if String.eqb kind "unconfirmed" then
        (o, Some (unconfirmedDispatchError
                    match asProvider err with
                    | Some (cause, p) => EProvider cause (p <| pe_Category := CategoryOther |>)
                    | None => err
                    end))
      else (o, Some (err, false))
  end.
