(* ===== verification/AttemptSystem.v ===== *)
(** * AttemptSystem: invocations that run side by side

    Any number of invocations of [AttemptFlow], interleaved with each other and with
    every other transaction of the ledger, stopping anywhere.  Theorems about who
    enters the provider, and what the invocations say about it. *)
From stdpp Require Import gmap relations.
From S2P Require Import Prelude Json Retry Runtime BatchController BatchPool PoolWorkflow Ledger LedgerQueue LedgerInvariant LedgerProperties AttemptFlow.

Open Scope string_scope.
Open Scope list_scope.
Open Scope Z_scope.

(** What an event may be answered, and what it leaves of the ledger. *)
Definition answers {A : Type} (e : event A) (db : DB) (a : A) (db' : DB) : Prop :=
  match e in event A return A → Prop with
  | Store op => fun a => ∃ f c, op f c db = (db', a)
  | _ => fun _ => db' = db
  end a.

(** Where an invocation stands: it has not entered the provider, it may be executing
    there, or the provider has returned. *)
Inductive phase : Type := Outside | Inside | Left_.
#[export] Instance phase_eq_dec : EqDecision phase.
Proof. solve_decision. Defined.

Definition enters {A : Type} (e : event A) : bool := match e with Enter _ _ _ => true | _ => false end.
Definition next_phase {A : Type} (e : event A) (a : A) (ph : phase) : phase :=
  match e in event A return A → phase with
  | Enter _ _ _ => fun _ => Inside
  | Await => fun x => match x, ph with Executed _ _, Inside => Left_ | _, _ => ph end
  | _ => fun _ => ph
  end a.

Record invocation := MkRunning {
  in_Permit : string; in_Nonce : string; in_Phase : phase; in_Prog : activity (res batch_error InvocationResult) }.

Record system := MkSystem {
  sy_db : DB;
  sy_running : list invocation;
  sy_entered : list (string * string);
}.

Section System.
Context `{HP : PoolEnv} `{HL : LedgerEnv} `{HA : ArtifactEnv} `{Laws : !LedgerLaws}.

(** A transaction of somebody else, a new invocation with a nonce of its own, or an
    interaction of a running one. *)
Inductive system_step (act : Activities) : system → system → Prop :=
| sys_ledger db db' running entered :
    ledger_step db db' → system_step act (MkSystem db running entered) (MkSystem db' running entered)
| sys_start db running entered id nonce :
    nonce ∉ in_Nonce <$> running →
    system_step act (MkSystem db running entered)
      (MkSystem db (running ++ [MkRunning id nonce Outside (InvokeAttempt act nonce id)]) entered)
| sys_run db db' running entered i id nonce ph A (e : event A) k (a : A) :
    running !! i = Some (MkRunning id nonce ph (Do e k)) → answers e db a db' →
    system_step act (MkSystem db running entered)
      (MkSystem db' (<[i := MkRunning id nonce (next_phase e a ph) (k a)]> running)
                (if enters e then (id, nonce) :: entered else entered)).

(** ** What an invocation knows *)

(** Facts that no transaction takes away. *)
Definition stable (K : DB → Prop) : Prop := ∀ db db', LedgerOK db → Evolves db db' → K db → K db'.

(** The ledger shows the dispatch of a job's permit under the nonce. *)
Definition dispatched (id nonce : string) (db : DB) : Prop :=
  nonce ≠ "" ∧ ∃ row, db_attempts db !! id = Some row ∧ job_attempt row ∧ a_ClaimID row = nonce ∧ is_Some (a_DispatchedAt row).

Definition lawful {A : Type} (e : event A) : Prop := ∀ db a db', answers e db a db' → Kept db db'.

(** [wp id nonce p K ph Q]: knowing [K] and in phase [ph], the program enters the
    provider only when the ledger shows its dispatch and it has not entered before,
    and its result satisfies [Q]. *)
Fixpoint wp {R : Type} (id nonce : string) (p : activity R) (K : DB → Prop) (ph : phase) (Q : R → (DB → Prop) → phase → Prop) : Prop :=
  match p with
  | Ret r => Q r K ph
  | Do e k =>
      lawful e ∧ (enters e = true → ph = Outside ∧ ∀ db, LedgerOK db → K db → dispatched id nonce db)
      ∧ ∀ a, ∃ K', stable K' ∧ (∀ db db', LedgerOK db → K db → answers e db a db' → K' db') ∧ wp id nonce (k a) K' (next_phase e a ph) Q
  end.

Lemma wp_bind {R S : Type} id nonce (p : activity R) (f : R → activity S) K ph Q :
  wp id nonce p K ph (fun r K' ph' => wp id nonce (f r) K' ph' Q) → wp id nonce (p ≫= f) K ph Q.
Proof.
  revert K ph. induction p as [r|A e k IH]; intros K ph; [done|]. intros (L & E & H). split; [done|]. split; [done|].
  intros a. destruct (H a) as (K' & Hs & Hk & Hw). exists K'. split; [done|]. split; [done|]. by apply IH.
Qed.
Lemma wp_fmap {R S : Type} id nonce (p : activity R) (f : R → S) K ph Q :
  wp id nonce p K ph (fun r => Q (f r)) → wp id nonce (f <$> p) K ph Q.
Proof. exact (wp_bind id nonce p (fun r => Ret (f r)) K ph Q). Qed.

Lemma wp_mono {R : Type} id nonce (p : activity R) K ph Q Q' :
  wp id nonce p K ph Q → (∀ r K ph, Q r K ph → Q' r K ph) → wp id nonce p K ph Q'.
Proof.
  intros H HQ. revert K ph H. induction p as [r|A e k IH]; intros K ph; [apply HQ|]. intros (L & E & H). split; [done|]. split; [done|].
  intros a. destruct (H a) as (K' & Hs & Hk & Hw). exists K'. split; [done|]. split; [done|]. by apply IH.
Qed.

(** ** Programs that stay outside *)

Definition quiet_event {A : Type} (e : event A) : bool := match e with Enter _ _ _ | Await => false | _ => true end.

Fixpoint calm {R : Type} (p : activity R) : Prop :=
  match p with Ret _ => True | Do e k => quiet_event e = true ∧ lawful e ∧ ∀ a, calm (k a) end.

Lemma calm_bind {R S : Type} (p : activity R) (f : R → activity S) : calm p → (∀ r, calm (f r)) → calm (p ≫= f).
Proof. induction p as [r|A e k IH]; intros Hp Hf; [apply Hf|]. destruct Hp as (Hq & L & Hk). split; [done|]. split; [done|]. intros a. by apply IH. Qed.

Lemma wp_calm {R : Type} id nonce (p : activity R) K ph Q :
  stable K → calm p → (∀ r, Q r K ph) → wp id nonce p K ph Q.
Proof.
  intros Hs. revert ph. induction p as [r|A e k IH]; intros ph Hc HQ; [apply HQ|]. destruct Hc as (Hq & L & Hk). split; [done|].
  split; [by destruct e|]. intros a. exists K. split; [done|]. split.
  - intros db db' O HK Ha. apply (Hs db db'); [done| |done]. by apply (L _ _ _ Ha).
  - replace (next_phase e a ph) with ph by (by destruct e). by apply IH.
Qed.

Lemma lawful_pure {A : Type} (e : event A) : (∀ db a db', answers e db a db' → db' = db) → lawful e.
Proof. intros H db a db' Ha. rewrite (H _ _ _ Ha). apply Kept_refl. Qed.
Lemma lawful_store {A : Type} (op : fate → Clock → DB → DB * A) : (∀ f c db, Kept db (op f c db).1) → lawful (Store op).
Proof. intros H db a db' (f & c & E). specialize (H f c db). by rewrite E in H. Qed.

Lemma calm_trigger {A : Type} (e : event A) : quiet_event e = true → lawful e → calm (trigger e).
Proof. intros Hq L. split; [done|]. split; [done|]. done. Qed.

(** One interaction, and what its answer teaches. *)
Lemma wp_trigger {A : Type} id nonce (e : event A) K ph Q :
  lawful e → enters e = false →
  (∀ a, ∃ K', stable K' ∧ (∀ db db', LedgerOK db → K db → answers e db a db' → K' db') ∧ Q a K' (next_phase e a ph)) →
  wp id nonce (trigger e) K ph Q.
Proof. intros L He H. split; [done|]. split; [by rewrite He|]. done. Qed.

Lemma wp_calm_bind {R S : Type} id nonce (p : activity R) (f : R → activity S) K ph Q :
  stable K → calm p → (∀ r, wp id nonce (f r) K ph Q) → wp id nonce (p ≫= f) K ph Q.
Proof. intros Hs Hp Hf. by apply wp_bind, wp_calm. Qed.

Lemma stable_and (K : DB → Prop) {A : Type} (r : res tx_error A) (G : A → DB → Prop) :
  stable K → (∀ a, stable (G a)) → stable (fun db => K db ∧ ∀ a, r = Ok a → G a db).
Proof. intros Hs HG db db' O E [HK Hr]. split; [by eapply Hs|]. intros a Ha. eapply HG; [done|done|]. by apply Hr. Qed.

(** ** The operations of an invocation *)

Lemma ledgerTx_ok {A : Type} f (fn : Tx A) db a : (ledgerTx f fn db).1.2 = Ok a → ∃ db', fn db = Ok (a, db') ∧ (ledgerTx f fn db).1.1 = db'.
Proof. unfold ledgerTx. destruct f; [|done|..]; destruct (fn db) as [[b db']|e]; cbn; intros H; try done. injection H as <-. eauto. Qed.

Lemma lawful_write fn : (∀ c db x db', fn c db = Ok (x, db') → Kept db db') → lawful (Store (write_op fn)).
Proof.
  intros H. apply lawful_store. intros f c db. unfold write_op. pose proof (ledgerTx_Kept f (fn c) db (H c db)) as K.
  by destruct (ledgerTx f (fn c) db) as [[d r] ch].
Qed.
Lemma lawful_confirm id nonce accepts : lawful (Store (confirm_op id nonce accepts)).
Proof. apply lawful_store. intros. apply Kept_refl. Qed.

(** A confirmation that succeeds has read what it confirms. *)
Lemma wp_confirm n id nonce accepts i m K ph G Q :
  stable K → (∀ a, stable (G a)) →
  (∀ c db a db', LedgerOK db → K db → confirm_read c id nonce accepts db = Ok (a, db') → G a db) →
  (∀ r K', stable K' → (∀ a db, r = Ok a → K' db → G a db) → Q r K' ph) → wp i m (confirm n id nonce accepts) K ph Q.
Proof.
  intros Hs HG. revert K Hs. induction n as [|n IH]; intros K Hs Hc HQ; [by apply (HQ _ K)|]. cbn [confirm].
  apply wp_bind, wp_trigger; [apply lawful_confirm|done|]. intros [c r]. exists (fun db => K db ∧ ∀ a, r = Ok a → G a db).
  pose proof (stable_and K r G Hs HG) as HsK. split; [done|]. split.
  - intros db db' O HK (f & c' & E). unfold confirm_op in E. injection E as <- <- Er. split; [done|]. intros a ->.
    apply ledgerTx_ok in Er as (db2 & T & _). by eapply Hc.
  - apply wp_calm_bind; [done|by apply calm_trigger, lawful_pure|]. intros done_. destruct r as [a|e].
    + apply HQ; [done|]. intros b db. destruct (_ && _); [|done]. intros [= <-] [_ Hr]. by apply Hr.
    + destruct (done_ || final_error e); [by apply HQ|]. apply IH; [done| |done]. intros c2 db a db' O [HK _]. by apply Hc.
Qed.

Lemma wp_confirmed_write fn accepts id nonce i m K ph G Q :
  stable K → (∀ a, stable (G a)) → (∀ c db x db', fn c db = Ok (x, db') → Kept db db') →
  (∀ c db before a db', LedgerOK db → K db → fn c db = Ok (before, a, db') → G a db') →
  (∀ c c' before db a db', LedgerOK db → K db → confirm_read c id nonce (accepts c' before) db = Ok (a, db') → G a db) →
  (∀ r K', stable K' → (∀ a db, r = Ok a → K' db → G a db) → Q r K' ph) → wp i m (confirmed_write fn accepts id nonce) K ph Q.
Proof.
  intros Hs HG HK Hf Hc HQ. apply wp_bind, wp_trigger; [by apply lawful_write|done|]. intros [r seen].
  exists (fun db => K db ∧ ∀ x, r = Ok x → G x.2 db). pose proof (stable_and K r (fun x => G x.2) Hs (fun x => HG x.2)) as HsK.
  split; [done|]. split.
  - intros db db' O HKd (f & c & E). pose proof (lawful_write fn HK db (r, seen) db' (ex_intro _ f (ex_intro _ c E)) O) as [_ Ev].
    split; [by apply (Hs db db')|]. intros [before a] ->. unfold write_op in E. destruct (ledgerTx f (fn c) db) as [[d r'] ch] eqn:Et.
    injection E as <- -> _. destruct (ledgerTx_ok f (fn c) db (before, a)) as (d' & T & Ed); [by rewrite Et|].
    rewrite Et in Ed. cbn in Ed. subst d'. by apply (Hf c db before a d).
  - destruct r as [[before a]|e].
    + apply HQ; [done|]. intros b db [= <-] [_ H]. by apply (H _ eq_refl).
    + destruct seen as [[c before]|]; [|by apply HQ]. apply (wp_confirm _ _ _ _ _ _ _ _ G); [done|done| |done].
      intros c' db a db' O [HKd _]. by apply Hc.
Qed.

(** ** Claims and dispatches *)

Definition claimed_job (id nonce : string) (db : DB) : Prop :=
  nonce ≠ "" ∧ ∃ row, db_attempts db !! id = Some row ∧ job_attempt row ∧ a_ClaimID row = nonce.

Lemma claimed_job_stable id nonce : stable (claimed_job id nonce).
Proof.
  intros db db' O E (Hn & row & Hr & Hj & Hc). split; [done|]. destruct (Evolves_rows_job _ _ _ _ E Hr Hj) as (b & Hb & L).
  exists b. split; [done|]. unfold job_attempt. rewrite (le_reservation _ _ L). split; [done|]. destruct (le_claim _ _ L); congruence.
Qed.
Lemma dispatched_stable id nonce : stable (dispatched id nonce).
Proof.
  intros db db' O E (Hn & row & Hr & Hj & Hc & t & Ht). split; [done|]. destruct (Evolves_rows_job _ _ _ _ E Hr Hj) as (b & Hb & L).
  exists b. split; [done|]. unfold job_attempt. rewrite (le_reservation _ _ L). split; [done|]. destruct (le_claim _ _ L); [congruence|].
  split; [congruence|]. rewrite (le_dispatch _ _ L _ Ht). done.
Qed.
(** The owner of a permit is one. *)
Lemma dispatched_owner id n n' db : dispatched id n db → dispatched id n' db → n = n'.
Proof. intros (_ & r & Hr & _ & <- & _) (_ & r' & Hr' & _ & <- & _). congruence. Qed.

Lemma confirm_read_ok c id nonce accepts db a db' :
  confirm_read c id nonce accepts db = Ok (a, db') →
  ∃ p, pg_uuid id = Some p ∧ db_attempts db !! p = Some a ∧ a_ClaimID a = nonce ∧ accepts a = true.
Proof.
  unfold confirm_read. intros T. apply tx_bind_ok in T as (b & db1 & (p & Hp & Ha & ->)%readAttempt_ok & T). apply guard_ok in T as [G T].
  apply tx_bind_ok in T as (u & db1 & [-> _]%guardPool_ok & T). apply tx_bind_ok in T as (u' & db1 & ->%guardRequestClaim_ok & T).
  apply tx_ret_ok in T as [<- _]. apply orb_false_iff in G as [G Ga]. apply negb_false_iff in Ga. exists p. unfold unconfirmed_claim in G.
  rewrite !orb_false_iff, !negb_false_iff, !String.eqb_eq in G. destruct G as [[[[[[_ G] _] _] _] _] _]. done.
Qed.

(** The claim of a job's permit makes it the invocation's own. *)
Lemma wp_claim id nonce i m K ph Q :
  stable K →
  (∀ r K', stable K' → (∀ a, r = Ok a → validPermitID id = true ∧ ∀ db, K' db → job_attempt a → claimed_job id nonce db) → Q r K' ph) →
  wp i m (claim_attempt id nonce) K ph Q.
Proof.
  intros Hs HQ. unfold claim_attempt. destruct (negb _ || _) eqn:E; [by apply HQ|]. apply orb_false_iff in E as [Hi Hn].
  apply negb_false_iff in Hi, Hn. apply validPermitID_nonempty in Hn.
  apply (wp_confirmed_write _ _ _ _ _ _ _ _ (fun a db => job_attempt a → claimed_job id nonce db)); [done|..].
  - intros a db db' O Ev H Hj. apply (claimed_job_stable id nonce db db'); auto.
  - intros c db x db'. apply claim_tx_Kept.
  - intros c db before a db' _ _ T Hj. apply claim_tx_spec in T as (p & Hp & _ & _ & -> & Hr & _). rewrite (pg_uuid_valid _ Hi) in Hp.
    injection Hp as <-. split; [done|]. eexists. split; [exact Hr|]. done.
  - intros c c' before db a db' _ _ T Hj. apply confirm_read_ok in T as (p & Hp & Ha & Hc & _). rewrite (pg_uuid_valid _ Hi) in Hp.
    injection Hp as <-. split; [done|]. by exists a.
  - intros r K' HsK HG. apply HQ; [done|]. intros a Hr. split; [done|]. intros db. by apply HG.
Qed.

Lemma wp_dispatch id nonce i m K ph Q :
  stable K → validPermitID id = true → (∀ db, LedgerOK db → K db → claimed_job id nonce db) →
  (∀ r K', stable K' → (∀ a db, r = Ok a → K' db → dispatched id nonce db) → Q r K' ph) →
  wp i m (mark_dispatch id nonce) K ph Q.
Proof.
  intros Hs Hi Ho HQ. apply (wp_confirmed_write _ _ _ _ _ _ _ _ (fun _ => dispatched id nonce)); [done| | | | |done].
  - intros a. apply dispatched_stable.
  - intros c db x db'. apply dispatch_tx_Kept.
  - intros c db before a db' O HK T. destruct (Ho db O HK) as (Hn & row & Hr & Hj & Hc).
    apply dispatch_tx_spec in T as (p & Hp & Hb & _ & _ & _ & _ & _ & -> & Ha & _). rewrite (pg_uuid_valid _ Hi) in Hp.
    injection Hp as <-. rewrite Hr in Hb. injection Hb as <-. split; [done|]. eexists. split; [exact Ha|]. done.
  - intros c c' before db a db' O HK T. destruct (Ho db O HK) as (Hn & row & Hr & Hj & Hc).
    apply confirm_read_ok in T as (p & Hp & Ha & _ & Hacc). rewrite (pg_uuid_valid _ Hi) in Hp. injection Hp as <-.
    rewrite Hr in Ha. injection Ha as <-. split; [done|]. exists row. split; [done|]. split; [done|]. split; [done|].
    unfold dispatch_accepts in Hacc. apply andb_true_iff in Hacc as [_ Hd]. apply bool_decide_eq_true in Hd. by rewrite Hd.
Qed.

(** ** Calm operations *)

Lemma calm_ret {R : Type} (r : R) : calm (mret r : activity R).
Proof. done. Qed.
Lemma calm_pure {A : Type} (e : event A) : quiet_event e = true → (∀ db a db', answers e db a db' → db' = db) → calm (trigger e).
Proof. intros Hq H. by apply calm_trigger, lawful_pure. Qed.
Lemma calm_stop id nonce t : calm (mark_local_stop id nonce t).
Proof. apply calm_trigger; [done|]. apply lawful_store. intros. apply MarkLocalStop_Kept. Qed.
Lemma calm_stage id nonce o : calm (stage_attempt id nonce o).
Proof. apply calm_trigger; [done|]. apply lawful_store. intros. apply StageAttempt_Kept. Qed.
Lemma Load_same f r db : (Load f r db).1 = db.
Proof.
  unfold Load. match goal with |- context [ledgerTx f ?fn db] => pose proof (ledgerTx_run f fn db) as H; destruct (ledgerTx f fn db) as [[d v] ch] end.
  cbn in *. destruct H as [->|(a & d' & E & ->)]; [done|]. destruct (pg_uuid _); [|done]. unfold load in E.
  by repeat case_match; simplify_eq.
Qed.
Lemma calm_load r : calm (load_item r).
Proof. apply calm_trigger; [done|]. apply lawful_store. intros f c db. rewrite Load_same. apply Kept_refl. Qed.
Lemma calm_too_late a : calm (too_late a).
Proof.
  apply calm_bind; [by apply calm_pure|]. intros []; [done|]. apply calm_bind; [by apply calm_pure|]. intros t. destruct (negb _); [done|].
  by apply calm_bind; [apply calm_pure|].
Qed.
Lemma calm_read_artifact a : calm (readAttemptArtifact a).
Proof. by apply calm_bind; [apply calm_pure|]. Qed.

(** ** The body *)

(** An observation says of the provider what was the case. *)
Record truthful (o : AttemptObservation) (ph : phase) : Prop := {
  tr_entered : ob_NativeEntered o = true ↔ ph ≠ Outside;
  tr_never : out_Kind (ob_Outcome o) = "never_dispatched" → ph = Outside;
  tr_completed : out_Kind (ob_Outcome o) = "completed" → ph = Left_;
  tr_stopped : ob_LocalStopped o = true → ph ≠ Inside;
}.
Definition body_observation (b : Body) : AttemptObservation := (after_panic b) <| ob_NativeEntered := bd_NativeEntered b |>.
Definition body_ok (b : Body) (K : DB → Prop) (ph : phase) : Prop := stable K ∧ truthful (body_observation b) ph.

Lemma neverSent_ok o code K : stable K → body_ok (neverSent o code) K Outside.
Proof. intros Hs. split; [done|]. by split. Qed.

(** The kinds of a call that returned. *)
Definition returned_kind (kind : string) : Prop := kind ≠ "never_dispatched".
Lemma stopped_ok o K : stable K → returned_kind (out_Kind (ob_Outcome o)) → body_ok (stopped o true) K Left_.
Proof. intros Hs Hk. split; [done|]. by split. Qed.

Lemma attempt_kind_returned p code : returned_kind (attempt_kind p code).
Proof. unfold attempt_kind, returned_kind. by repeat case_match. Qed.
Lemma classify_returned err r : returned_kind (classifyGenerationError err r).1.1.
Proof.
  unfold classifyGenerationError, classifyAttemptError. destruct (asProvider err) as [[c p]|]; cbn.
  - pose proof (attempt_kind_returned p (if safeErrorCode (pe_Code p) then pe_Code p else "upstream_error")). by destruct (_ && _).
  - done.
Qed.
Lemma failed_kind err r out : returned_kind (out_Kind (failed_outcome err r out)).
Proof.
  unfold failed_outcome. pose proof (classify_returned err r) as H. destruct (classifyGenerationError err r) as [[kind problem] delay].
  destruct (classifyAttemptError err) as [[base x] y]. cbn in *. by destruct (_ || _ || _).
Qed.

Lemma wp_store_result id nonce i m a o finished raw K :
  stable K → wp i m (store_result id nonce a o finished raw) K Left_ body_ok.
Proof.
  intros Hs. unfold store_result. destruct (_ <? _); [by apply stopped_ok|]. apply wp_calm_bind; [done|by apply calm_pure|].
  intros []; [by apply stopped_ok|]. apply wp_calm_bind; [done|apply calm_read_artifact|]. intros recovered.
  apply stopped_ok; [done|]. by destruct (match recovered with Some _ => _ | None => _ end).
Qed.

Lemma wp_after_execution id nonce i m a item started deadline o x K :
  stable K → ob_LocalStopped o = false →
  wp i m (after_execution id nonce a item started deadline o x) K (match x with Executed _ _ => Left_ | ExecutePanicked => Inside end) body_ok.
Proof.
  intros Hs Ho. destruct x as [|r err]; cbn [after_execution].
  { split; [done|]. split; cbn; try done. intros E. discriminate (eq_trans (eq_sym Ho) E). }
  apply wp_calm_bind; [done|by apply calm_pure|]. intros finished. apply wp_calm_bind; [done|by apply calm_pure|]. intros later.
  destruct err as [err|].
  { apply stopped_ok; [done|]. apply failed_kind. }
  destruct (After finished deadline); [by apply stopped_ok|].
  apply wp_calm_bind; [done|by apply calm_pure|]. intros [|raw].
  { split; [done|]. by split. }
  destruct (match raw with Some _ => _ | None => _ end) as [raw'|]; [by apply wp_store_result|by apply stopped_ok].
Qed.

Lemma wp_body id nonce claimed o K :
  stable K → validPermitID id = true → (∀ db, K db → job_attempt claimed → claimed_job id nonce db) → ob_LocalStopped o = false →
  wp id nonce (invocation_body id nonce claimed o) K Outside body_ok.
Proof.
  intros Hs Hi Hc Ho. unfold invocation_body. destruct (negb _) eqn:Ek; [by apply neverSent_ok|]. apply negb_false_iff, String.eqb_eq in Ek.
  apply wp_calm_bind; [done|apply calm_load|]. intros [item|]; [|by apply neverSent_ok]. destruct (negb _); [by apply neverSent_ok|].
  apply wp_calm_bind; [done|apply calm_too_late|]. intros []; [by apply neverSent_ok|]. apply wp_bind, wp_dispatch; [done|done|by auto|].
  intros r K' HsK HG. destruct r as [a|e]; [|by apply neverSent_ok]. apply wp_calm_bind; [done|apply calm_too_late|].
  intros []; [by apply neverSent_ok|]. apply wp_calm_bind; [done|by apply calm_pure|]. intros parent.
  apply wp_calm_bind; [done|by apply calm_pure|]. intros started. apply wp_bind.
  split; [by apply lawful_pure|]. split; [intros _; split; [done|]; intros db _ HK; by apply (HG a db)|]. intros [].
  exists K'. split; [done|]. split; [by intros db db' _ HK ->|]. apply wp_bind, wp_trigger; [by apply lawful_pure|done|].
  intros x. exists K'. split; [done|]. split; [by intros db db' _ HK ->|]. by apply wp_after_execution.
Qed.

(** What an invocation that has ended says, and where it stands then. *)
Definition reported (r : res batch_error InvocationResult) (ph : phase) : Prop :=
  match r with
  | Ok (MkInvocation _ _ (Some o)) => truthful o ph
  | _ => ph = Outside
  end.

Lemma wp_finish id nonce i m b K ph :
  body_ok b K ph → wp i m (finish_invocation id nonce b) K ph (fun iv _ ph' => reported (Ok iv) ph').
Proof.
  intros [Hs [T1 T2 T3 T4]]. apply wp_calm_bind; [done|by apply calm_pure|]. intros now. apply wp_calm_bind; [done| |].
  { destruct (ob_LocalStopped _); [|done]. by apply calm_bind; [apply calm_stop|]. }
  intros _. apply wp_calm_bind; [done|apply calm_stage|]. intros _. by split.
Qed.

Lemma wp_InvokeAttempt act id nonce K :
  stable K → wp id nonce (InvokeAttempt act nonce id) K Outside (fun r _ ph => reported r ph).
Proof.
  intros Hs. unfold InvokeAttempt. destruct (_ || _ || _); [done|]. apply wp_bind, wp_claim; [done|]. intros r K' HsK HG.
  destruct r as [claimed|e].
  - destruct (HG _ eq_refl) as [Hi Ho]. apply wp_calm_bind; [done|by apply calm_pure|]. intros now. apply wp_bind.
    eapply wp_mono; [by apply wp_body|]. intros b K2 ph Hb. by apply wp_fmap, wp_finish.
  - destruct e; try done. apply wp_bind. unfold confirmNeverEnteredClaim. apply wp_calm_bind; [done|by apply calm_pure|]. intros now.
    apply wp_calm_bind; [done|apply calm_stop|]. intros [a|]; [|done]. destruct (_ || _ || _ || _); [done|].
    apply wp_calm_bind; [done|apply calm_stage|]. intros _. by split.
Qed.

(** ** The system *)

(** What a running invocation knows and promises. *)
Definition running_ok (db : DB) (entered : list (string * string)) (v : invocation) : Prop :=
  (in_Phase v ≠ Outside ↔ (in_Permit v, in_Nonce v) ∈ entered)
  ∧ ∃ K, stable K ∧ K db ∧ wp (in_Permit v) (in_Nonce v) (in_Prog v) K (in_Phase v) (fun r _ ph => reported r ph).

Record system_ok (s : system) : Prop := {
  so_db : LedgerOK (sy_db s);
  so_nonces : NoDup (in_Nonce <$> sy_running s);
  so_running : ∀ v, v ∈ sy_running s → running_ok (sy_db s) (sy_entered s) v;
  so_entered : ∀ id nonce, (id, nonce) ∈ sy_entered s → dispatched id nonce (sy_db s) ∧ nonce ∈ in_Nonce <$> sy_running s;
  so_once : NoDup ((sy_entered s).*1);
}.

Lemma running_ok_evolves db db' entered v : LedgerOK db → Evolves db db' → running_ok db entered v → running_ok db' entered v.
Proof. intros O E (He & K & Hs & HK & Hw). split; [done|]. exists K. split; [done|]. split; [by apply (Hs db db')|done]. Qed.

Lemma system_ledger db db' running entered : Kept db db' → system_ok (MkSystem db running entered) → system_ok (MkSystem db' running entered).
Proof.
  intros HK [O N R E U]. destruct (HK O) as [O' Ev]. split; cbn in *; try done.
  - intros v Hv. by apply (running_ok_evolves db), R.
  - intros id nonce H. destruct (E id nonce H) as [Hd Hn]. split; [|done]. by apply (dispatched_stable id nonce db db').
Qed.

Lemma system_start act db running entered id nonce :
  nonce ∉ in_Nonce <$> running → system_ok (MkSystem db running entered) →
  system_ok (MkSystem db (running ++ [MkRunning id nonce Outside (InvokeAttempt act nonce id)]) entered).
Proof.
  intros Hn [O N R E U]. split; cbn in *; try done.
  - rewrite fmap_app. apply NoDup_app. split; [done|]. split; [|apply NoDup_singleton]. intros x Hx ->%list_elem_of_singleton. done.
  - intros v [Hv| ->%list_elem_of_singleton]%elem_of_app; [by apply R|]. split; cbn.
    + split; [done|]. intros [_ H]%E. done.
    + exists (fun _ => True). split; [done|]. split; [done|]. by apply wp_InvokeAttempt.
  - intros i n H. destruct (E i n H) as [Hd Hr]. split; [done|]. rewrite fmap_app. apply elem_of_app. by left.
Qed.

Lemma insert_nonces (running : list invocation) i v w : running !! i = Some v → in_Nonce w = in_Nonce v → in_Nonce <$> <[i:=w]> running = in_Nonce <$> running.
Proof. intros Hi E. rewrite list_fmap_insert. apply list_insert_id. rewrite list_lookup_fmap, Hi. exact (f_equal Some (eq_sym E)). Qed.

(** Another invocation, when one has entered. *)
Lemma running_ok_other db entered id nonce v : in_Nonce v ≠ nonce → running_ok db entered v → running_ok db ((id, nonce) :: entered) v.
Proof. intros Hn ([H1 H2] & Hw). split; [|done]. rewrite elem_of_cons. naive_solver. Qed.

Lemma system_run db db' running entered i id nonce ph A (e : event A) k (a : A) :
  running !! i = Some (MkRunning id nonce ph (Do e k)) → answers e db a db' → system_ok (MkSystem db running entered) →
  system_ok (MkSystem db' (<[i := MkRunning id nonce (next_phase e a ph) (k a)]> running) (if enters e then (id, nonce) :: entered else entered)).
Proof.
  intros Hi Ha S. destruct S as [O N R E U]. cbn in *.
  destruct (R _ (list_elem_of_lookup_2 _ _ _ Hi)) as ([P1 P2] & K & Hs & HK & L & Hent & Hw). cbn in *.
  destruct (L _ _ _ Ha O) as [O' Ev]. destruct (Hw a) as (K' & Hs' & HK' & Hw').
  assert (∀ j v, <[i := MkRunning id nonce (next_phase e a ph) (k a)]> running !! j = Some v →
    v = MkRunning id nonce (next_phase e a ph) (k a) ∨ v ∈ running ∧ in_Nonce v ≠ nonce) as Hother.
  { intros j v Hv. destruct (decide (i = j)) as [<-|Hne].
    - rewrite list_lookup_insert_eq in Hv by (by eapply lookup_lt_Some). left. congruence.
    - rewrite list_lookup_insert_ne in Hv by done. right. split; [by eapply list_elem_of_lookup_2|]. intros En. apply Hne.
      apply (NoDup_lookup _ _ _ nonce N); rewrite list_lookup_fmap; [by rewrite Hi|rewrite Hv; exact (f_equal Some En)]. }
  assert (enters e = false → next_phase e a ph ≠ Outside ↔ ph ≠ Outside) as Hq.
  { destruct e; try done. intros _. cbn. by destruct a, ph. }
  assert (enters e = true → ph = Outside ∧ next_phase e a ph = Inside ∧ dispatched id nonce db) as Hin.
  { intros He. destruct (Hent He) as [Hp Hd]. split; [done|]. split; [by destruct e|auto]. }
  assert (in_Nonce (MkRunning id nonce ph (Do e k)) ∈ in_Nonce <$> running) as Hmine.
  { by eapply list_elem_of_fmap_2, list_elem_of_lookup_2. }
  split; cbn; try done.
  - by rewrite (insert_nonces _ _ _ _ Hi).
  - intros v [j Hv]%list_elem_of_lookup_1. apply Hother in Hv as [->|[Hv Hne]].
    + split; cbn; [|by exists K'; split; [done|]; split; [by apply (HK' db)|]]. destruct (enters e).
      * destruct Hin as (_ & -> & _); [done|]. split; [left|done].
      * by rewrite Hq.
    + pose proof (running_ok_evolves _ _ _ _ O Ev (R v Hv)). destruct (enters e); [by apply running_ok_other|done].
  - intros id' n' H. rewrite (insert_nonces _ _ _ _ Hi) by done. destruct (enters e).
    + apply elem_of_cons in H as [[= -> ->]|H].
      * destruct Hin as (_ & _ & Hd); [done|]. split; [by apply (dispatched_stable id nonce db db')|done].
      * destruct (E _ _ H) as [Hd Hn]. split; [by apply (dispatched_stable id' n' db db')|done].
    + destruct (E _ _ H) as [Hd Hn]. split; [by apply (dispatched_stable id' n' db db')|done].
  - destruct (enters e); [|done]. destruct Hin as (-> & _ & Hd); [done|]. cbn. constructor; [|done].
    intros ([id' n'] & Eid & H)%list_elem_of_fmap_1. cbn in Eid. subst id'. destruct (E _ _ H) as [Hd' _].
    rewrite (dispatched_owner _ _ _ _ Hd Hd') in P2. by apply P2.
Qed.

Lemma system_step_ok act s s' : system_step act s s' → system_ok s → system_ok s'.
Proof.
  destruct 1 as [db db' running entered St|db running entered id nonce Hn|db db' running entered i id nonce ph A e k a Hi Ha].
  - by apply system_ledger, ledger_step_Kept.
  - by apply system_start.
  - by apply system_run.
Qed.

(** C14: However many invocations run, in whatever order their interactions, the other
    transactions of the ledger, lost acknowledgements and crashes fall, every
    permit of a job enters the provider at most once; the ledger shows the dispatch,
    under the nonce of the invocation that entered; and an invocation that ends
    reports what was the case: an observation says that the provider was entered
    exactly when it was, one that was never dispatched was never sent, a completed
    one has returned, a stopped one is not executing there, and an invocation without
    an observation has not entered. *)
Theorem provider_entered_once act db0 s :
  fresh_ledger db0 → rtc (system_step act) (MkSystem db0 [] []) s →
  NoDup (sy_entered s).*1
  ∧ (∀ id nonce, (id, nonce) ∈ sy_entered s → dispatched id nonce (sy_db s))
  ∧ (∀ v, v ∈ sy_running s → (in_Phase v ≠ Outside ↔ (in_Permit v, in_Nonce v) ∈ sy_entered s)
       ∧ ∀ r, in_Prog v = Ret r → reported r (in_Phase v)).
Proof.
  intros F R. assert (system_ok s) as [O N Hr He U].
  { assert (system_ok (MkSystem db0 [] [])) as H0.
    { split; cbn; [by apply fresh_ok|constructor|by intros v ?%elem_of_nil|by intros i n ?%elem_of_nil|constructor]. }
    clear F. induction R as [|x y z St _ IH]; [done|]. by apply IH, (system_step_ok act x). }
  split; [done|]. split; [intros id nonce H; by apply He|]. intros v Hv. destruct (Hr v Hv) as (Hp & K & _ & _ & Hw). split; [done|].
  intros r E. rewrite E in Hw. exact Hw.
Qed.
End System.

(** ** A run *)

(** Everything is answered at once, and nothing fails. *)
Definition demo_result : CallResult := MkCallResult "answer" 6 6 [] (MkCallUsage "complete" 3 4 0 0).
Definition demo_answer {A : Type} (t : Time) (e : event A) (db : DB) : DB * A :=
  match e in event A return DB * A with
  | Now => (db, t)
  | Done => (db, false)
  | CtxDeadline => (db, None)
  | Store op => op Committed (demo_clock t) db
  | Enter _ _ _ => (db, tt)
  | Await => (db, Executed demo_result None)
  | Encode _ _ _ => (db, Encoded (Some "{}"))
  | Put _ _ _ _ => (db, true)
  | Open _ _ _ => (db, None)
  | StartWorkflow _ _ _ _ => (db, StartOk)
  | Signal _ _ => (db, true)
  | CoalescedSignal _ _ => (db, true)
  | Enqueued _ _ _ => (db, None)
  | Emit _ => (db, true)
  end.
Lemma demo_answers {A : Type} t (e : event A) db : answers e db (demo_answer t e db).2 (demo_answer t e db).1.
Proof. destruct e; try done. exists Committed, (demo_clock t). apply surjective_pairing. Qed.

#[export] Instance demo_artifacts : ArtifactEnv := {| decode_artifact _ := None; decode_header _ := None |}.
Definition demo_activities : Activities := MkActivities "pool" "queue" true true true true.

(** The only invocation runs alone for [n] interactions. *)
Fixpoint demo_drive (n : nat) (t : Time) (s : system) : system :=
  match n, s with
  | S n, MkSystem db [MkRunning id nonce ph (Do e k)] entered =>
      let '(db', a) := demo_answer t e db in
      demo_drive n t (MkSystem db' [MkRunning id nonce (next_phase e a ph) (k a)] (if enters e then (id, nonce) :: entered else entered))
  | _, _ => s
  end.
Lemma demo_drive_run n t s : rtc (system_step demo_activities) s (demo_drive n t s).
Proof.
  revert s. induction n as [|n IH]; intros [db running entered]; [done|]. destruct running as [|[id nonce ph [r|A e k]] [|v running]]; try done.
  cbn. pose proof (demo_answers t e db) as Ha. destruct (demo_answer t e db) as [db' a]. eapply rtc_l; [|apply IH].
  exact (sys_run demo_activities db db' [MkRunning id nonce ph (Do e k)] entered 0 id nonce ph A e k a eq_refl Ha).
Qed.

Definition demo_start : system := MkSystem demo_reserved [MkRunning "permit" "nonce" Outside (InvokeAttempt demo_activities "nonce" "permit")] [].
Lemma demo_start_run : rtc (system_step demo_activities) (MkSystem demo_ledger0 [] []) demo_start.
Proof.
  eapply rtc_l; [apply sys_ledger, st_ensure|]. eapply rtc_l; [apply sys_ledger, st_reserve|]. apply rtc_once.
  exact (sys_start demo_activities demo_reserved [] [] "permit" "nonce" (not_elem_of_nil _)).
Qed.
Definition demo_ended : system := demo_drive 40 (2 * Second) demo_start.

Lemma provider_entered_once_witness :
  sy_entered demo_ended = [("permit", "nonce")] ∧ NoDup (sy_entered demo_ended).*1 ∧ dispatched "permit" "nonce" (sy_db demo_ended)
  ∧ ∀ v, v ∈ sy_running demo_ended → in_Phase v ≠ Outside.
Proof.
  assert (sy_entered demo_ended = [("permit", "nonce")]) as E by (vm_compute; reflexivity).
  assert (map (fun v => (in_Permit v, in_Nonce v)) (sy_running demo_ended) = [("permit", "nonce")]) as Er by (vm_compute; reflexivity).
  destruct (provider_entered_once demo_activities demo_ledger0 demo_ended demo_fresh
    (rtc_trans _ _ _ demo_start_run (demo_drive_run 40 (2 * Second) demo_start))) as (H1 & H2 & H3).
  revert E Er H1 H2 H3. generalize demo_ended as s. intros s E Er H1 H2 H3.
  split; [exact E|]. split; [exact H1|]. split; [apply H2; rewrite E; left|]. intros v Hv. apply (H3 v Hv). rewrite E.
  destruct (sy_running s) as [|w [|]]; try discriminate. apply list_elem_of_singleton in Hv as ->. injection Er as E1 E2.
  apply list_elem_of_singleton. exact (f_equal2 pair E1 E2).
Defined.
