(* ===== verification/AttemptProperties.v ===== *)
(** * AttemptProperties: every attempt ends

    Over [AttemptFlow]: one undisturbed reconciliation settles an attempt whose time is
    over, and the workflow of an attempt invokes once and ends with a settlement. *)
From stdpp Require Import gmap relations sorting.
From S2P Require Import Prelude Json Retry Runtime BatchController BatchPool PoolWorkflow Ledger LedgerQueue LedgerInvariant LedgerProperties AttemptFlow AttemptSystem.

Open Scope string_scope.
Open Scope list_scope.
Open Scope Z_scope.

Section Reconcile.
Context `{HP : PoolEnv} `{HL : LedgerEnv} `{HA : ArtifactEnv} `{Laws : !LedgerLaws}.

(** The texts that the object store may answer with. *)
Variable objects : string → Prop.

(** The answers of an environment in which transactions are committed, and it is [t]
    or later. *)
Definition timely (t : Time) {A : Type} (e : event A) (db : DB) (a : A) (db' : DB) : Prop :=
  match e in event A return A → Prop with
  | Now => fun now => t ≤ now ∧ db' = db
  | Store op => fun a => ∃ c, (∀ i, t ≤ readings c i) ∧ op Committed c db = (db', a)
  | Open _ _ _ => fun found => (∀ text, found = Some text → objects text) ∧ db' = db
  | _ => fun _ => db' = db
  end a.

(** Whatever it is answered, the program ends with [Q]. *)
Fixpoint ensures (t : Time) {R : Type} (p : activity R) (db : DB) (Q : R → DB → Prop) : Prop :=
  match p with
  | Ret r => Q r db
  | Do e k => ∀ a db', timely t e db a db' → ensures t (k a) db' Q
  end.

Lemma ensures_bind t {R S : Type} (p : activity R) (f : R → activity S) db Q :
  ensures t p db (fun r db' => ensures t (f r) db' Q) → ensures t (p ≫= f) db Q.
Proof. revert db. induction p as [r|A e k IH]; intros db H; [done|]. intros a db' Ha. apply IH. by apply H. Qed.

(** A JSON text without a backslash has no escape in it.  What a jsonb column refuses of a
    JSON text are escapes: the null character and lone surrogates. *)
Definition unescaped (text : string) : bool := forallb (fun c => negb (Ascii.eqb c (byte_of 92))) (String.list_ascii_of_string text).
Hypothesis stores : ∀ text, unescaped text = true → jsonb_accepts text = true.

(** An observation that the columns take, also as the outcome of an item. *)
Definition storable (o : AttemptObservation) : Prop :=
  jsonb_accepts (observation_text o) = true
  ∧ ∀ now1 now2 dispatched attempts deadline, jsonb_accepts (outcome_text (item_after now1 now2 dispatched attempts deadline (ob_Outcome o)).1.2) = true.

Lemma applyAttemptItem_runs now1 now2 sql a o db p :
  LedgerOK db → db_attempts db !! p = Some a → ¬ settled a → storable o →
  ∃ db1, applyAttemptItem now1 now2 sql a o db = Ok (tt, db1) ∧ db_attempts db1 = db_attempts db.
Proof.
  intros O Ha Hn [_ Hst]. pose proof (lk_rows _ O p a Ha) as Hr. unfold applyAttemptItem. destruct (String.eqb_spec (rs_Kind (a_Reservation a)) "ordinary") as [|Hk].
  { eexists. by split. }
  assert (job_attempt a) as Hj by (by destruct (ro_kind _ _ Hr)).
  destruct (lk_item _ O p a Ha Hj) as (i & Hi & _ & Hp). specialize (Hp Hn). destruct (lk_job _ O _ _ Hi) as [j Hjob].
  destruct (lk_current _ O _ _ _ Hi Hp) as [Hs _].
  destruct (item_after now1 now2 (bool_decide (is_Some (a_DispatchedAt a))) (it_Attempts i) (jb_Deadline j) (ob_Outcome o)) as [[state out] n] eqn:Ea.
  eexists. split.
  - apply tx_bind_ok. exists i, db. split; [by apply row_ok|]. apply tx_bind_ok. exists j, db. split; [by apply row_ok|]. apply guard_ok. split.
    { rewrite (ro_id _ _ Hr), Hp, Hs, bool_decide_true by done. done. }
    rewrite Ea. apply tx_bind_ok. exists (read_outcome out), db.
    split; [unfold jsonb_outcome; specialize (Hst now1 now2 (bool_decide (is_Some (a_DispatchedAt a))) (it_Attempts i) (jb_Deadline j)); rewrite Ea in Hst; cbn in Hst; by rewrite Hst|].
    apply tx_bind_ok. exists tt. eexists. split; [by apply write_ok|]. by apply write_ok.
  - done.
Qed.

Lemma ledger_commits {A : Type} (fn : Tx A) db a db' : fn db = Ok (a, db') → ledger Committed fn db = (db', Ok a).
Proof. intros E. unfold ledger, ledgerTx. by rewrite E. Qed.

Lemma update_attempt_runs id p cond set db a :
  pg_uuid id = Some p → db_attempts db !! p = Some a → cond a = true → attempt_checks (set a) = true →
  update_attempt id cond set db = Ok (tt, db <| db_attempts ::= insert p (set a) |>).
Proof.
  intros Hp Ha Hc Hk. unfold update_attempt. rewrite Hp. apply tx_bind_ok. exists (Some a), db. split; [by apply ask_ok|]. rewrite Hc.
  apply tx_bind_ok. exists tt, db. split; [by apply constraint_ok|]. by apply write_ok.
Qed.

Lemma fillAttemptCounts_runs a db : ∃ b, fillAttemptCounts a db = Ok (b, db) ∧ a_State b = a_State a.
Proof. unfold fillAttemptCounts. destruct (negb _); eexists; by split. Qed.

(** The common end: the item or the waiter, the row, and what is read back. *)
Lemma end_runs now1 now2 sql id p a o cond set db :
  LedgerOK db → pg_uuid id = Some p → db_attempts db !! p = Some a → ¬ settled a → cond a = true → storable o →
  (∀ stored, settled (set stored a) ∧ attempt_checks (set stored a) = true) →
  ∃ b db', (_ ← applyAttemptItem now1 now2 sql a o; stored ← jsonb_observation o; _ ← update_attempt id cond (set stored);
            result ← readAttempt id; fillAttemptCounts result) db = Ok (b, db')
    ∧ settled b ∧ ∃ row, db_attempts db' !! p = Some row ∧ settled row.
Proof.
  intros O Hp Ha Hn Hc Hst Hs. destruct (applyAttemptItem_runs now1 now2 sql a o db p O Ha Hn Hst) as (db1 & T1 & E1). rewrite <- E1 in Ha.
  pose (a' := set (read_observation o) a). destruct (Hs (read_observation o)) as [Hs1 Hk].
  pose proof (update_attempt_runs id p cond (set (read_observation o)) db1 a Hp Ha Hc Hk) as T2.
  pose (db2 := db1 <| db_attempts ::= insert p a' |>). assert (db_attempts db2 !! p = Some a') as Hr by apply lookup_insert_eq.
  destruct (fillAttemptCounts_runs a' db2) as (b & T3 & Eb). exists b, db2. split; [|split].
  - apply tx_bind_ok. eexists _, _. split; [exact T1|]. apply tx_bind_ok. exists (read_observation o), db1. split; [unfold jsonb_observation; by rewrite (proj1 Hst)|].
    apply tx_bind_ok. eexists _, _. split; [exact T2|]. apply tx_bind_ok. exists a', db2. split; [|done].
    apply readAttempt_ok. by exists p.
  - unfold settled. by rewrite Eb.
  - by exists a'.
Qed.

(** ** Settlements that succeed *)

(** What [SettleAttempt] requires of an observation. *)
Record settleable (a : Attempt) (o : AttemptObservation) : Prop := {
  sb_valid : validObservation o = true;
  sb_owner : observationMatchesOwner a o = true;
  sb_same : contradicts a o = false;
  sb_entered : ob_NativeEntered o = true → is_Some (a_DispatchedAt a);
  sb_late : late_completion a o = false;
  sb_storable : storable o;
}.

Lemma settle_set_checks p a stored o : RowOK p a → a_State a = "dispatching" → attempt_checks (settle_set stored o a) = true.
Proof.
  intros Hr Hd. pose proof (ro_checks _ _ Hr) as Hk. unfold attempt_checks in *. cbn. rewrite !andb_true_iff in *. destruct Hk as [[Hk _] _]. done.
Qed.
Lemma expire_checks p a stored now : RowOK p a → a_State a = "reserved" → attempt_checks (settled_never_sent stored now a) = true.
Proof.
  intros Hr Hd. pose proof (ro_checks _ _ Hr) as Hk. unfold attempt_checks in *. cbn. rewrite !andb_true_iff in *. destruct Hk as [[Hk _] _]. done.
Qed.

Lemma settle_tx_runs c id p a o db :
  LedgerOK db → pg_uuid id = Some p → db_attempts db !! p = Some a → a_State a = "dispatching" → settleable a o →
  ∃ b db', settle_tx c id (a_ClaimID a) o db = Ok (b, db') ∧ settled b ∧ ∃ row, db_attempts db' !! p = Some row ∧ settled row.
Proof.
  intros O Hp Ha Hd [V1 V2 V3 V4 V5 V6]. assert (¬ settled a) as Hn by (unfold settled; by rewrite Hd).
  destruct (end_runs (readings c 0) (readings c 1) (sql_now c) id p a o (claimed_by (a_ClaimID a)) (fun stored => settle_set stored o) db)
    as (b & db' & T & H); [done..|apply String.eqb_refl|exact V6| |].
  { intros stored. split; [done|]. apply (settle_set_checks p); [by apply (lk_rows _ O)|done]. }
  exists b, db'. split; [|done]. unfold settle_tx. apply tx_bind_ok. exists a, db. split; [apply readAttempt_ok; by exists p|].
  apply guard_ok. split; [unfold Ledger.owned, claimed_by, is_reserved; by rewrite Hd, String.eqb_refl|]. apply guard_ok. split; [by rewrite V2|].
  unfold is_settled. rewrite Hd. apply guard_ok. split; [done|]. apply guard_ok. split.
  { destruct (ob_NativeEntered o); [|done]. by rewrite bool_decide_true by auto. }
  by apply guard_ok.
Qed.

(** The text of an instant: 35 bytes at most, none of them a backslash. *)
Hypothesis short_time : ∀ t, slen (rfc3339nano t) ≤ 64 ∧ unescaped (rfc3339nano t) = true.

Lemma unescaped_append x y : unescaped (x +:+ y) = unescaped x && unescaped y.
Proof. unfold unescaped. induction x as [|c x IH]; [done|]. rewrite string_app_cons. cbn [String.list_ascii_of_string forallb]. rewrite IH. apply andb_assoc. Qed.

Lemma observation_unescaped o : unescaped (outcome_text (ob_Outcome o)) = true → unescaped (observation_text o) = true.
Proof.
  intros Ho. unfold observation_text, struct_text, time_text. cbn [concat map app always join_comma]. unfold marshal_entry. cbn [fst snd].
  assert (∀ b, unescaped (bool_text b) = true) as Hb by (intros []; done). pose proof (proj2 (short_time (ob_ObservedAt o))) as Ht.
  change (String quote_char (rfc3339nano (ob_ObservedAt o))) with (String quote_char "" +:+ rfc3339nano (ob_ObservedAt o)).
  rewrite !unescaped_append, Ho, !Hb, Ht. vm_compute. reflexivity.
Qed.

Lemma storable_unescaped o :
  (∀ now1 now2 dispatched attempts deadline, unescaped (outcome_text (item_after now1 now2 dispatched attempts deadline (ob_Outcome o)).1.2) = true) →
  unescaped (outcome_text (ob_Outcome o)) = true → storable o.
Proof. intros H Ho. split; [by apply stores, observation_unescaped|]. intros. apply stores, H. Qed.

Lemma never_sent_storable now : storable (never_sent now).
Proof. apply storable_unescaped; [|vm_compute; reflexivity]. intros. unfold item_after. cbn. repeat case_match; vm_compute; reflexivity. Qed.
Lemma unconfirmed_storable a now : storable (unconfirmed_observation a now).
Proof. apply storable_unescaped; [|vm_compute; reflexivity]. intros. unfold item_after. cbn. vm_compute. reflexivity. Qed.

Lemma expire_runs c id p a db :
  LedgerOK db → pg_uuid id = Some p → db_attempts db !! p = Some a → a_State a = "reserved" → rs_StartBy (a_Reservation a) ≤ readings c 0 →
  ∃ b db', ExpireReservation Committed c id db = (db', Ok b) ∧ settled b ∧ ∃ row, db_attempts db' !! p = Some row ∧ settled row.
Proof.
  intros O Hp Ha Hd Ht. assert (¬ settled a) as Hn by (unfold settled; by rewrite Hd).
  destruct (end_runs (readings c 2) (readings c 3) (sql_now c) id p a (never_sent (readings c 1)) is_reserved
    (fun stored => settled_never_sent stored (readings c 1)) db) as (b & db' & T & H); [done..|unfold is_reserved; by rewrite Hd|apply never_sent_storable| |].
  { intros stored. split; [done|]. apply (expire_checks p); [by apply (lk_rows _ O)|done]. }
  exists b, db'. split; [|done]. apply ledger_commits, tx_bind_ok. exists a, db. split; [apply readAttempt_ok; by exists p|].
  destruct (ro_reserved _ _ (lk_rows _ O p a Ha) Hd) as (Hc & _). unfold is_settled, is_reserved. rewrite Hd, Hc. apply guard_ok. split; [done|].
  apply guard_ok. split; [by apply Z.ltb_ge|done].
Qed.

(** An answer that settled the attempt. *)
Definition settles (p : string) (r : res batch_error Attempt) (db : DB) : Prop :=
  (∃ b, r = Ok b ∧ settled b) ∧ ∃ row, db_attempts db !! p = Some row ∧ settled row.

Lemma ensures_settle t id p a o db :
  LedgerOK db → pg_uuid id = Some p → db_attempts db !! p = Some a → a_State a = "dispatching" → settleable a o →
  ensures t (settle_attempt id (a_ClaimID a) o) db (settles p).
Proof.
  intros O Hp Ha Hd Hs. unfold settle_attempt. rewrite (sb_valid _ _ Hs). apply ensures_bind. intros r db' (c & Hc & E).
  destruct (settle_tx_runs c id p a o db O Hp Ha Hd Hs) as (b & db2 & T & H1 & H2). unfold ledgerTx in E. rewrite T in E. injection E as <- <-.
  cbn. split; [by exists b|done].
Qed.

Lemma ensures_expire t id p a db :
  LedgerOK db → pg_uuid id = Some p → db_attempts db !! p = Some a → a_State a = "reserved" → rs_StartBy (a_Reservation a) ≤ t →
  ensures t (expire_reservation id) db (settles p).
Proof.
  intros O Hp Ha Hd Ht r db' (c & Hc & E). destruct (expire_runs c id p a db O Hp Ha Hd) as (b & db2 & T & H1 & H2); [pose proof (Hc 0%nat); lia|].
  rewrite T in E. injection E as <- <-. split; [by exists b|done].
Qed.

(** ** Finding the attempt *)

Lemma filter_Permutation {A : Type} (f : A → bool) l l' : l ≡ₚ l' → List.filter f l ≡ₚ List.filter f l'.
Proof. induction 1; cbn; repeat case_match; try done; [by constructor|by constructor|by etrans]. Qed.

(** The page of one identifier holds the row that has it. *)
Lemma page_of_one db p a pool :
  LedgerOK db → db_attempts db !! p = Some a → rs_PoolID (a_Reservation a) = pool →
  List.filter (fun a => String.eqb (rs_PoolID (a_Reservation a)) pool && str_in (rs_PermitID (a_Reservation a)) [p]) (map snd (map_to_list (db_attempts db)))
    ≡ₚ [a].
Proof.
  intros O Ha Hp. set (f := fun a => String.eqb _ _ && _).
  transitivity (List.filter f (map snd ((p, a) :: map_to_list (delete p (db_attempts db))))).
  { apply filter_Permutation, Permutation_map. by rewrite map_to_list_delete. }
  cbn [map snd List.filter]. replace (f a) with true; [|unfold f; cbn; by rewrite Hp, (ro_id _ _ (lk_rows _ O p a Ha)), !String.eqb_refl].
  apply Permutation_cons; [done|]. assert (∀ l, (∀ kv : string * Attempt, kv ∈ l → f kv.2 = false) → List.filter f (map snd l) = []) as Hnil.
  { induction l as [|kv l IH]; [done|]. intros H. cbn. rewrite (H kv (list_elem_of_here _ _)). apply IH. intros kv' Hk. by apply H, list_elem_of_further. }
  rewrite Hnil; [done|]. intros [q b] Hq. apply elem_of_map_to_list, lookup_delete_Some in Hq as [Hne Hb]. cbn.
  unfold f. rewrite (ro_id _ _ (lk_rows _ O q b Hb)). cbn. destruct (String.eqb_spec q p); [done|]. by rewrite andb_false_r.
Qed.

Lemma ensures_lookup t pool p a db Q :
  LedgerOK db → db_attempts db !! p = Some a → rs_PoolID (a_Reservation a) = pool → validPool pool = true → validPermitID p = true →
  Q (Ok a) db → ensures t (lookupAttempt (MkAttemptRef pool p)) db Q.
Proof.
  intros O Ha Hpool Vp Vi HQ. apply ensures_bind. intros r db' (c & _ & E). unfold ReadAttempts in E. cbn in E. rewrite Vp, Vi in E. cbn in E.
  pose proof (page_of_one db p a pool O Ha Hpool) as Hone. rewrite <- (merge_sort_Permutation by_sequence) in Hone.
  apply Permutation_singleton_r in Hone. cbn in Hone. rewrite Hone in E. injection E as <- <-. done.
Qed.

(** ** Reconciliation *)

Lemma slen_append x y : slen (x +:+ y) = slen x + slen y.
Proof. unfold slen. rewrite string_length_app. lia. Qed.

Lemma observation_text_length o : slen (observation_text o) ≤ slen (outcome_text (ob_Outcome o)) + 200.
Proof.
  unfold observation_text, struct_text, time_text. cbn [concat map app always join_comma]. unfold marshal_entry. cbn [fst snd].
  rewrite !slen_append. pose proof (proj1 (short_time (ob_ObservedAt o))) as Ht.
  assert (∀ b, slen (bool_text b) ≤ 5) as Hb by (intros []; vm_compute; discriminate).
  pose proof (Hb (ob_NativeEntered o)) as H1. pose proof (Hb (ob_LocalStopped o)) as H2. revert H1 H2.
  replace (slen (String quote_char (rfc3339nano (ob_ObservedAt o)))) with (1 + slen (rfc3339nano (ob_ObservedAt o))) by (unfold slen; cbn [String.length]; lia).
  generalize dependent (slen (rfc3339nano (ob_ObservedAt o))). generalize (slen (bool_text (ob_NativeEntered o))) (slen (bool_text (ob_LocalStopped o))) (slen (outcome_text (ob_Outcome o))).
  intros x y z t Ht Hx Hy.
  assert (slen (marshal_string "outcome") = 9 ∧ slen (marshal_string "native_entered") = 16 ∧ slen (marshal_string "local_stopped") = 15
    ∧ slen (marshal_string "observed_at") = 13) as (-> & -> & -> & ->) by (vm_compute; done).
  assert (slen "{" = 1 ∧ slen "}" = 1 ∧ slen ":" = 1 ∧ slen "," = 1 ∧ slen (String quote_char "") = 1) as (-> & -> & -> & -> & ->) by done. lia.
Qed.

Lemma unconfirmed_text a now : slen (observation_text (unconfirmed_observation a now)) ≤ 60000.
Proof.
  etrans; [apply observation_text_length|]. cbn [ob_Outcome unconfirmed_observation].
  set (o := outcome_text _). assert (slen o = 227) as -> by (vm_compute; reflexivity). lia.
Qed.

Lemma unconfirmed_settleable a now : 0 < now → a_Observation a = None → settleable a (unconfirmed_observation a now).
Proof.
  intros Hn Ho. split.
  - unfold validObservation. rewrite (proj2 (Z.leb_le _ _) (unconfirmed_text a now)). cbn. unfold IsZero, time_zero.
    by rewrite (proj2 (Z.eqb_neq now 0)) by lia.
  - unfold observationMatchesOwner. by destruct (String.eqb (rs_Kind _) _).
  - unfold contradicts. by rewrite Ho.
  - cbn. by rewrite bool_decide_eq_true.
  - done.
  - apply unconfirmed_storable.
Qed.

Lemma artifact_settleable a raw artifact :
  a_Observation a = None → is_Some (a_DispatchedAt a) → decodeAttemptArtifact raw a = Ok artifact → job_attempt a → storable (aa_Observation artifact) → settleable a (aa_Observation artifact).
Proof.
  intros Ho Hd E Hj Hst. unfold decodeAttemptArtifact in E. destruct (_ <? _); [done|]. destruct (decode_artifact raw) as [x|]; [|done].
  destruct (_ && _ && _) eqn:G; [|done]. injection E as <-. apply andb_true_iff in G as [G _]. apply andb_true_iff in G as [_ G].
  unfold artifact_outcome in G. rewrite !andb_true_iff in G. destruct G as [[[[[Gk Ga] _] _] Gv] Gt]. split.
  - done.
  - unfold observationMatchesOwner. apply String.eqb_eq in Ga. rewrite Hj, Ga. cbn. by rewrite orb_true_r.
  - unfold contradicts. by rewrite Ho.
  - done.
  - unfold late_completion. rewrite Gk. destruct (out_FinishedAt _) as [finished|]; [|done]. destruct (out_StartedAt _); [|done].
    rewrite !andb_true_iff in Gt. destruct Gt as [[[Gt _] _] _]. by apply negb_true_iff in Gt.
  - done.
Qed.

Lemma ensures_artifact t a db Q :
  (∀ o, (∀ artifact, o = Some artifact → ∃ raw, objects raw ∧ decodeAttemptArtifact raw a = Ok artifact) → Q o db) → ensures t (readAttemptArtifact a) db Q.
Proof.
  intros H. apply ensures_bind. intros found db' [Hf ->]. apply H. intros artifact. destruct found as [raw|]; [|done].
  destruct (decodeAttemptArtifact raw a) eqn:E; [|done]. intros [= <-]. exists raw. split; [by apply Hf|done].
Qed.

Lemma ensures_overdue t p a db :
  LedgerOK db → pg_uuid p = Some p → db_attempts db !! p = Some a → a_State a = "dispatching" → a_Observation a = None →
  0 < t → Add (executionDeadline a) attemptFinalizationGrace ≤ t → ensures t (finalize_overdue a) db (settles p).
Proof.
  intros O Hp Ha Hd Ho Ht Hover. apply ensures_bind. intros now db' [Hnow ->]. cbn [ensures]. destruct (Before _ _) eqn:Eb; [apply Z.ltb_lt in Eb; lia|].
  apply ensures_bind. intros now2 db' [Hnow2 ->]. rewrite (ro_id _ _ (lk_rows _ O p a Ha)). apply ensures_settle; [done..|].
  apply unconfirmed_settleable; [lia|done].
Qed.

(** What was staged for an attempt can be settled: it says that the provider was entered
    only when that was recorded, and a completion is in time. *)
Definition staged_consistently (a : Attempt) (o : AttemptObservation) : Prop :=
  validObservation o = true ∧ observationMatchesOwner a o = true ∧ storable o
  ∧ (ob_NativeEntered o = true → is_Some (a_DispatchedAt a))
  ∧ (out_Kind (ob_Outcome o) = "completed" → ∃ finished, out_FinishedAt (ob_Outcome o) = Some finished ∧ finished ≤ executionDeadline a).

Lemma staged_settleable a o : a_Observation a = Some o → staged_consistently a o → settleable a o.
Proof.
  intros Eo (V1 & V2 & V3 & V4 & V5). split; try done.
  - unfold contradicts, sameTerminalObservation, sameObservation. by rewrite Eo, String.eqb_refl.
  - unfold late_completion. destruct (String.eqb_spec (out_Kind (ob_Outcome o)) "completed") as [Ek|]; [|done].
    destruct (V5 Ek) as (finished & -> & Hf). cbn. unfold After. apply Z.ltb_ge. exact Hf.
Qed.

End Reconcile.

Lemma digits_unescaped n t : unescaped (instant_digits n t) = true.
Proof.
  revert t. induction n as [|n IH]; intros t; [done|]. cbn [instant_digits]. rewrite unescaped_append, IH. cbn [andb].
  assert (∀ k, (k < 10)%nat → unescaped (String (Ascii.ascii_of_nat (48 + k)) "") = true) as H by (do 10 (intros [|k]; [done|revert k]); lia).
  apply H. pose proof (Z.mod_pos_bound t 10). lia.
Qed.
Lemma demo_short_time t : slen (rfc3339nano t) ≤ 64 ∧ unescaped (rfc3339nano t) = true.
Proof. change (rfc3339nano t) with (instant_digits 20 t). split; [unfold slen; rewrite instant_digits_length; lia|apply digits_unescaped]. Qed.


(** ** The workflow *)

(** What a workflow asks its activities about an attempt: to settle it with a known
    observation, under the claim of the invocation, or to find out. *)
Inductive question : Type := Settle (claim : string) (o : AttemptObservation) | FindOut.
Definition question_of (known : KnownSettlement) : question :=
  if String.eqb (ks_ClaimID known) "" then FindOut else Settle (ks_ClaimID known) (ks_Observation known).

(** What a workflow has done, with the answers. *)
Inductive done_step : Type :=
| Invoked (id : string) (answer : option InvocationResult)
| Retained (ref : AttemptReference) (q : question) (answer : option Attempt)
| Notified (a : Attempt)
| Slept (full : bool).
Definition noted {A : Type} (e : scheduled A) (x : A) : done_step :=
  match e in scheduled A return A → done_step with
  | DoInvoke id => fun x => Invoked id x
  | DoFinalize known => fun x => Retained (ks_Reference known) (question_of known) x
  | DoSettleKnown known => fun x => Retained (ks_Reference known) (Settle (ks_ClaimID known) (ks_Observation known)) x
  | DoReconcile ref => fun x => Retained ref FindOut x
  | DoNotify a => fun _ => Notified a
  | DoSleep => fun x => Slept x
  end x.

(** The histories of a workflow, with its result. *)
Fixpoint ran {R : Type} (p : prog scheduled R) (h : list done_step) (r : R) : Prop :=
  match p with
  | Ret r' => h = [] ∧ r = r'
  | Do e k => ∃ x h', h = noted e x :: h' ∧ ran (k x) h' r
  end.

Lemma ran_bind {R S : Type} (p : prog scheduled R) (f : R → prog scheduled S) h s :
  ran (p ≫= f) h s → ∃ h1 h2 r, h = h1 ++ h2 ∧ ran p h1 r ∧ ran (f r) h2 s.
Proof.
  revert h. induction p as [r|A e k IH]; intros h H.
  - by exists [], h, r.
  - destruct H as (x & h' & -> & H). destruct (IH x h' H) as (h1 & h2 & r & -> & H1 & H2). exists (noted e x :: h1), h2, r.
    split; [done|]. split; [by exists x, h1|done].
Qed.

Section AttemptRuns.
Variable combined : bool.

(** An answer without a settled attempt. *)
Definition still_open (answer : option Attempt) : Prop := ∀ a, answer = Some a → ¬ settled a.

Section Rounds.
Variable ref : AttemptReference.
Variable invoked : option InvocationResult.

(** The invocation returned an observation. *)
Definition has_observation : Prop := ∃ entered claim o, invoked = Some (MkInvocation entered claim (Some o)).
(** The first question of a round. *)
Inductive asks : question → Prop :=
| ask_settle entered claim o : invoked = Some (MkInvocation entered claim (Some o)) → claim ≠ "" → asks (Settle claim o)
| ask_find_out : (∀ entered claim o, invoked = Some (MkInvocation entered claim (Some o)) → claim = "") → asks FindOut.

(** A round ends with an answer: to its first question or, when that failed although there
    is an observation, to a second one. *)
Inductive round (answer : option Attempt) : list done_step → Prop :=
| round_one q : asks q → (answer = None → ¬ has_observation) → round answer [Retained ref q answer]
| round_two q : asks q → has_observation → round answer [Retained ref q None; Retained ref FindOut answer].
(** Rounds without a settled attempt, each followed by a whole sleep. *)
Inductive open_rounds : nat → list done_step → Prop :=
| open_none : open_rounds 0 []
| open_more n answer l rest : round answer l → still_open answer → open_rounds n rest → open_rounds (S n) (l ++ Slept true :: rest).
End Rounds.

(** The notice of an end; the combined activity sends it itself. *)
Definition notice (a : Attempt) : list done_step := if combined then [] else [Notified a].

Lemma ran_step {A : Type} (e : scheduled A) h x : ran (trigger e) h x → h = [noted e x].
Proof. by intros (y & h' & -> & -> & ->). Qed.
Lemma reconcile_step_ran ref h retained : ran (reconcile_step combined ref) h retained → h = [Retained ref FindOut retained].
Proof. unfold reconcile_step. intros H. destruct combined; by apply ran_step in H. Qed.
Lemma settle_step_ran ref invoked h retained :
  ran (settle_step combined ref invoked) h retained → ∃ q, asks invoked q ∧ h = [Retained ref q retained].
Proof.
  unfold settle_step. intros H. destruct invoked as [[entered claim [o|]]|].
  - destruct (String.eqb_spec claim "") as [->|Hne].
    + apply reconcile_step_ran in H as ->. exists FindOut. split; [|done]. apply ask_find_out. by intros ??? [= _ -> _].
    + exists (Settle claim o). split; [by eapply ask_settle|]. destruct combined; apply ran_step in H as ->; [|done].
      cbn. unfold question_of. cbn. by rewrite (proj2 (String.eqb_neq _ _) Hne).
  - apply reconcile_step_ran in H as ->. exists FindOut. split; [|done]. by apply ask_find_out.
  - apply reconcile_step_ran in H as ->. exists FindOut. split; [|done]. by apply ask_find_out.
Qed.
Lemma observed_spec invoked : observed invoked = true ↔ has_observation invoked.
Proof.
  unfold has_observation. destruct invoked as [[entered claim [o|]]|]; cbn; (split; [try done|]); try (by intros (? & ? & ? & ?)). intros _. by exists entered, claim, o.
Qed.

(** A settlement and its end. *)
Lemma ended_ran retained h finished :
  ran (ended combined retained) h finished →
  if finished then ∃ a, retained = Some a ∧ settled a ∧ h = notice a else h = [] ∧ still_open retained.
Proof.
  unfold ended, still_open, notice. intros H. destruct retained as [a|]; [|destruct H as [-> ->]; done].
  destruct (is_settled a) eqn:Es; [|destruct H as [-> ->]; split; [done|]; intros ? [= <-] Hs; apply is_settled_spec in Hs; congruence].
  destruct combined; [destruct H as [-> ->]|destruct H as (x & h' & -> & -> & ->)]; (exists a; split; [done|]; split; [by apply is_settled_spec|done]).
Qed.

(** The end of the rounds: a settled attempt, a cancelled sleep, or no round left. *)
Definition rounds_end (ref : AttemptReference) (invoked : option InvocationResult) (n : nat) (r : option bool) (h : list done_step) : Prop :=
  ∃ k before, open_rounds ref invoked k before
    ∧ match r with
      | Some true => ∃ a l, (k < n)%nat ∧ round ref invoked (Some a) l ∧ settled a ∧ h = before ++ l ++ notice a
      | Some false => ∃ answer l, (k < n)%nat ∧ round ref invoked answer l ∧ still_open answer ∧ h = before ++ l ++ [Slept false]
      | None => k = n ∧ h = before
      end.

Lemma rounds_end_more ref invoked n r answer l h :
  round ref invoked answer l → still_open answer → rounds_end ref invoked n r h → rounds_end ref invoked (S n) r (l ++ Slept true :: h).
Proof.
  intros Hl Ha (k & before & Hb & H). exists (S k), (l ++ Slept true :: before). split; [by apply (open_more _ _ _ answer)|].
  destruct r as [[]|].
  - destruct H as (a & l' & Hk & Hr & Hs & ->). exists a, l'. split; [lia|]. split; [done|]. split; [done|]. by rewrite <- app_assoc.
  - destruct H as (a & l' & Hk & Hr & Hs & ->). exists a, l'. split; [lia|]. split; [done|]. split; [done|]. by rewrite <- app_assoc.
  - by destruct H as [-> ->].
Qed.

Lemma attempt_rounds_ran n ref invoked h r :
  ran (attempt_rounds combined n ref invoked) h r → rounds_end ref invoked n r h.
Proof.
  revert h. induction n as [|n IH]; intros h H; [destruct H as [-> ->]; exists 0%nat, []; split; [constructor|done]|]. cbn [attempt_rounds] in H.
  apply ran_bind in H as (h1 & h2 & retained & -> & (q & Hq & ->)%settle_step_ran & H). apply ran_bind in H as (h3 & h4 & finished & -> & H1 & H).
  apply ended_ran in H1. destruct finished.
  { destruct H as [-> ->], H1 as (a & -> & Ha & ->). exists 0%nat, []. split; [constructor|]. exists a, [Retained ref q (Some a)]. split; [lia|].
    split; [by apply round_one|]. split; [done|]. by rewrite app_nil_r. }
  destruct H1 as [-> Ho]. apply ran_bind in H as (h5 & h6 & again & -> & H2 & H). cbn [app].
  assert (∃ answer l, round ref invoked answer l ∧ if again then ∃ a, answer = Some a ∧ settled a ∧ Retained ref q retained :: h5 = l ++ notice a
    else still_open answer ∧ Retained ref q retained :: h5 = l) as (answer & l & Hl & Hag).
  { destruct (_ && _) eqn:Eb.
    - apply andb_true_iff in Eb as [Eb1%negb_true_iff%bool_decide_eq_false Eb2%observed_spec]. rewrite <- eq_None_not_Some in Eb1. subst retained.
      apply ran_bind in H2 as (h7 & h8 & current & -> & ->%reconcile_step_ran & H2). exists current, [Retained ref q None; Retained ref FindOut current].
      split; [by apply round_two|]. apply ended_ran in H2. destruct again; [|by destruct H2 as [-> H2]]. destruct H2 as (a & -> & Ha & ->). by exists a.
    - destruct H2 as [-> ->]. exists retained, [Retained ref q retained]. split; [|done]. apply round_one; [done|]. intros -> Hobs%observed_spec.
      rewrite Hobs in Eb. done. }
  destruct again.
  { destruct H as [-> ->], Hag as (a & -> & Ha & E). exists 0%nat, []. split; [constructor|]. exists a, l. split; [lia|]. split; [done|]. split; [done|].
    cbn [app]. by rewrite app_nil_r. }
  destruct Hag as [Hopen E]. apply ran_bind in H as (h7 & h8 & slept & -> & ->%ran_step & H). rewrite app_comm_cons, E. destruct slept; cbn [noted app] in *.
  - apply IH in H. by apply (rounds_end_more _ _ _ _ answer).
  - destruct H as [-> ->]. exists 0%nat, []. split; [constructor|]. exists answer, l. split; [lia|done].
Qed.

End AttemptRuns.

