(* ===== verification/Admission.v ===== *)
(** * Admission: ordinary dispatches in the pool

    Models [src/stateful]: cpa_admission.go (the origin of an endpoint, the queueing
    of an ordinary dispatch, its claim, its dispatch intent, its clean-up and its
    settlement) and [batch/request_signals.go].

    A dispatch is a [prog] of [AttemptFlow] over the events of its own: the calls of
    its interface to the ledger, [RequestQueueStore], whose implementation is
    [store_program]; readings of the clock and of the context; new UUIDs and ordinals;
    signals; and the provider.  A signal whose failure is ignored has no answer. *)
From stdpp Require Import gmap pretty.
From S2P Require Import Prelude Json JsonText Retry Runtime Endpoint BatchController BatchPool PoolWorkflow Ledger LedgerQueue AttemptFlow.

Open Scope string_scope.
Open Scope list_scope.
Open Scope Z_scope.

(** ** The origin of an endpoint *)

(** What [net/url] reads of an endpoint. *)
Record AdmissionURL := MkAdmissionURL {
  au_Scheme : string; au_User : bool; au_Host : string; au_RawQuery : string; au_Fragment : string;
  au_Hostname : string; au_Port : string }.

Class AdmissionEnv := { parse_endpoint : string → option AdmissionURL }.

Definition has_colon (s : string) : bool := existsb (fun a => (Ascii.nat_of_ascii a =? 58)%nat) (String.list_ascii_of_string s).
(** [net.JoinHostPort] *)
Definition JoinHostPort (host port : string) : string :=
  (if has_colon host then "[" +:+ host +:+ "]" else host) +:+ ":" +:+ port.

Definition origin_scheme (u : AdmissionURL) : bool :=
  negb (au_User u) && negb (String.eqb (au_Host u) "") && String.eqb (au_RawQuery u) "" && String.eqb (au_Fragment u) ""
  && (String.eqb (au_Scheme u) "https" || String.eqb (au_Scheme u) "http").
Definition origin_host (u : AdmissionURL) : string := trim_dot (ToLower (au_Hostname u)).
(** The port, without leading zeros; [None] when it is out of range. *)
Definition origin_port (u : AdmissionURL) : option string :=
  if String.eqb (au_Port u) "" then Some ""
  else match port_number (au_Port u) with
       | Some n => if (n <? 1) || (65535 <? n) then None else Some (pretty n)
       | None => None
       end.
Definition default_port (scheme port : string) : bool :=
  (String.eqb scheme "https" && String.eqb port "443") || (String.eqb scheme "http" && String.eqb port "80").

Section Origin.
Context `{AdmissionEnv}.

Definition admissionOrigin (endpoint : string) : string :=
  match parse_endpoint endpoint with
  | None => ""
  | Some u =>
      if negb (origin_scheme u) then ""
      else match origin_port u with
           | None => ""
           | Some port =>
               let host := origin_host u in
               let port := if default_port (au_Scheme u) port then "" else port in
               let host := if negb (String.eqb port "") then JoinHostPort host port
                           else if has_colon host then "[" +:+ host +:+ "]" else host in
               au_Scheme u +:+ "://" +:+ host
           end
  end.

(** [Store] and [Signals] may be nil, and [Logger]. *)
Record CPAAdmission := MkAdmission {
  cp_Store : bool; cp_Signals : bool; cp_PoolID : string; cp_Endpoint : string; cp_Logger : bool }.

Definition validate (a : CPAAdmission) : bool :=
  cp_Store a && cp_Signals a && negb (slen (cp_PoolID a) <? 1) && negb (128 <? slen (cp_PoolID a))
  && String.eqb (TrimSpace (cp_PoolID a)) (cp_PoolID a) && negb (existsb is_control (String.list_ascii_of_string (cp_PoolID a)))
  && negb (String.eqb (admissionOrigin (cp_Endpoint a)) "").

(** An operation as [Prepare] leaves it: of the pool when it goes to the pool's
    origin, with the operation of the executor behind. *)
Record AdmissionOperation := MkAdmissionOperation { ao_operation : PreparedOperation; ao_wrapped : option PreparedOperation }.

Definition Prepare (a : CPAAdmission) (baseURL : string) (next : res goerror PreparedOperation) : res goerror AdmissionOperation :=
  let? p := next in
  Ok (MkAdmissionOperation p (if String.eqb (admissionOrigin baseURL) (admissionOrigin (cp_Endpoint a)) then Some p else None)).
End Origin.

(** The deadline of a call: [admissionObserver.StartCall] gives it one. *)
Definition StartCall (deadline : option Time) (now : Time) : Time := match deadline with Some d => d | None => Add now (60 * Second) end.

(** ** The interface to the ledger *)

Inductive store_call : Type → Type :=
| CallPoolGeneration (pool : string) : store_call (res batch_error PoolGeneration)
| CallEnqueueRequest (w : RequestWaiter) : store_call (res batch_error RequestWaiter)
| CallReadRequest (scope id owner : string) (refresh : bool) : store_call (res batch_error RequestWaiter)
| CallCancelRequest (scope id owner : string) : store_call (res batch_error unit)
| CallClaimAttempt (id nonce : string) : store_call (res batch_error Attempt)
| CallMarkDispatch (id nonce : string) : store_call (res batch_error Attempt)
| CallMarkLocalStop (id nonce : string) (at_ : Time) : store_call (res batch_error Attempt)
| CallStageAttempt (id nonce : string) (o : AttemptObservation) : store_call (res batch_error Attempt)
| CallSettleAttempt (id nonce : string) (o : AttemptObservation) : store_call (res batch_error Attempt).

Section Store.
Context `{PoolEnv} `{LedgerEnv}.

Definition store_program {A : Type} (c : store_call A) : activity A :=
  match c in store_call A return activity A with
  | CallPoolGeneration pool => trigger (Store (fun f _ => read_generation f pool))
  | CallEnqueueRequest w => trigger (Store (fun f c => EnqueueRequest f c w))
  | CallReadRequest scope id owner refresh => trigger (Store (fun f c => ReadRequest f c scope id owner refresh))
  | CallCancelRequest scope id owner => trigger (Store (fun f c => CancelRequest f c scope id owner))
  | CallClaimAttempt id nonce => claim_attempt id nonce
  | CallMarkDispatch id nonce => mark_dispatch id nonce
  | CallMarkLocalStop id nonce at_ => mark_local_stop id nonce at_
  | CallStageAttempt id nonce o => stage_attempt id nonce o
  | CallSettleAttempt id nonce o => settle_attempt id nonce o
  end.
End Store.

(** ** Signals *)

(** What is sent to the pool's workflow, when anything is. *)
Inductive pool_signal : Type := EnqueueSignal (job : JobRef) | SettlementSignal (notice : SettlementNotice).
Definition no_job : JobRef := MkJobRef "" "" 0 time_zero time_zero "".
Definition pool_workflow_id (pool : string) : string := "hllm-cpa-pool-v1/" +:+ pool.

Definition Wake (client : bool) (pool : string) : option (string * pool_signal) :=
  if negb client || negb (validPool pool) then None else Some (pool_workflow_id pool, EnqueueSignal no_job).
Definition Changed `{PoolEnv} (client : bool) (pool : string) (notice : SettlementNotice) : option (string * pool_signal) :=
  if negb client || negb (validPool pool) || negb (validPermitID (sn_PermitID notice)) || (sn_Revision notice <? 0) then None
  else Some (pool_workflow_id pool, SettlementSignal notice).

(** ** The events of a dispatch *)

Inductive native_return : Type := NativePanicked | NativeReturned (r : ProviderResult) (err : option goerror).

Inductive admission_event : Type → Type :=
| Call {A : Type} (c : store_call A) : admission_event A
| ReadClock : admission_event Time
(** [ctx.Err()] and [ctx.Deadline()] *)
| ContextErr : admission_event (option goerror)
| ContextDeadline : admission_event (option Time)
(** a timer against [ctx.Done()]; [None] when the timer fired *)
| Pause (d : Duration) : admission_event (option goerror)
| NewUUID : admission_event string
| NextOrdinal : admission_event Z
(** whether the signal was sent *)
| SendWake (pool : string) : admission_event bool
| SendChanged (pool : string) (notice : SettlementNotice) : admission_event unit
(** the tracking session, when there is one, and the log *)
| Track (reason : string) (next : option Time) : admission_event unit
| LogRefusal (stage class : string) : admission_event unit
| LogObserved (o : AttemptObservation) (confirmed : bool) : admission_event unit
(** the executor behind, and its return *)
| Native (p : PreparedOperation) : admission_event unit
| Returns : admission_event native_return.

Abbreviation dispatch := (prog admission_event).

(** ** The queueing of a dispatch *)

Definition admissionFailure : goerror :=
  EProvider (Some (EText "CPA admission could not be confirmed")) (MkProviderError CategoryOther "admission_unavailable" "" "" "" 503 0).

Definition failure_class (cause : option batch_error) : string :=
  match cause with
  | Some ErrClaimOwned => "claim_not_available"
  | Some ErrClaimUnconfirmed => "claim_unconfirmed"
  | Some ErrGenerationFenced => "generation_fenced"
  | _ => "unavailable"
  end.
Definition failure (a : CPAAdmission) (stage : string) (cause : option batch_error) : dispatch goerror :=
  if cp_Logger a then _ ← trigger (LogRefusal stage (failure_class cause)); mret admissionFailure else mret admissionFailure.
Definition refused {A : Type} (a : CPAAdmission) (stage : string) (cause : option batch_error) : dispatch (res goerror A) :=
  Err <$> failure a stage cause.

Definition notify (a : CPAAdmission) (permit : string) (revision : Z) : dispatch unit :=
  trigger (SendChanged (cp_PoolID a) (MkNotice permit revision)).

(** The pause before the next read. *)
Definition poll_delay (started : Time) (current : RequestWaiter) : dispatch Duration :=
  now ← trigger ReadClock;
  let delay := if 2 * Second <? Sub now started then 500 * Millisecond else 100 * Millisecond in
  match w_NextAttemptAt current with
  | None => mret delay
  | Some next =>
      now ← trigger ReadClock;
      if delay <? Sub next now then now ← trigger ReadClock; mret (Z.min (2 * Second) (Sub next now)) else mret delay
  end.

(** [None] when the rounds have run out. *)
Fixpoint await_permit (n : nat) (a : CPAAdmission) (w : RequestWaiter) (started : Time) : dispatch (option (res goerror string)) :=
  match n with
  | O => mret None
  | S n =>
      stop ← trigger ContextErr;
      match stop with
      | Some e => mret (Some (Err e))
      | None =>
          current ← trigger (Call (CallReadRequest (w_Scope w) (w_RequestID w) (w_OwnerID w) true));
          match current with
          | Err _ => Some <$> refused a "waiter_read" None
          | Ok current =>
              expired ← (if bool_decide (is_Some (w_ClosedAt current)) then mret true
                         else now ← trigger ReadClock; mret (negb (Before now (w_LiveUntil current))));
              if (expired : bool) then Some <$> refused a "waiter_expired_or_closed" None
              else
                _ ← trigger (Track (if String.eqb (w_WaitingReason current) "" then "dispatch_pending" else w_WaitingReason current)
                                   (w_NextAttemptAt current));
                if negb (String.eqb (w_PermitID current) "") then mret (Some (Ok (w_PermitID current)))
                else
                  delay ← poll_delay started current;
                  stop ← trigger (Pause delay);
                  match stop with Some e => mret (Some (Err e)) | None => await_permit n a w started end
          end
      end
  end.

(** The claimed attempt is the waiter's own. *)
Definition claim_matches (w : RequestWaiter) (a : Attempt) : bool :=
  let r := a_Reservation a in
  String.eqb (rs_Kind r) "ordinary" && String.eqb (rs_RequestID r) (w_RequestID w) && String.eqb (rs_PoolID r) (w_PoolID w)
  && (rs_Generation r =? w_Generation w) && String.eqb (ref_Scope (rs_Ref r)) (w_Scope w) && String.eqb (a_ClaimID a) (w_OwnerID w)
  && (rs_BudgetMS r =? w_BudgetMS w) && time_Equal (rs_Deadline r) (w_Deadline w).

(** [ctx.Err() != nil || !now.Before(StartBy) || !now.Before(Deadline)] *)
Definition start_missed (a : Attempt) : dispatch bool :=
  stop ← trigger ContextErr;
  match stop with
  | Some _ => mret true
  | None =>
      now ← trigger ReadClock;
      if negb (Before now (rs_StartBy (a_Reservation a))) then mret true
      else now ← trigger ReadClock; mret (negb (Before now (rs_Deadline (a_Reservation a))))
  end.

Definition claim_permit (a : CPAAdmission) (w : RequestWaiter) (permit : string) : dispatch (res goerror Attempt) :=
  claimed ← trigger (Call (CallClaimAttempt permit (w_OwnerID w)));
  match claimed with
  | Err e => refused a "claim" (Some e)
  | Ok claimed =>
      if negb (claim_matches w claimed) then refused a "claim_identity" None
      else
        stop ← trigger ContextErr;
        match stop with
        | Some e => mret (Err e)
        | None =>
            marked ← trigger (Call (CallMarkDispatch permit (w_OwnerID w)));
            match marked with
            | Err e => refused a "dispatch_intent" (Some e)
            | Ok marked =>
                missed ← start_missed marked;
                if (missed : bool) then stop ← trigger ContextErr; mret (Err (default EDeadlineExceeded stop))
                else mret (Ok marked)
            end
        end
  end.

(** From the waiter to the dispatch intent, with the permit that the deferred
    clean-up finds. *)
Definition begin_admission (n : nat) (a : CPAAdmission) (w : RequestWaiter) : dispatch (option (string * res goerror Attempt)) :=
  let stopped (r : res goerror Attempt) := mret (Some ("", r)) in
  _ ← trigger (Track "dispatch_pending" None);
  queued ← trigger (Call (CallEnqueueRequest w));
  match queued with
  | Err _ => r ← refused a "enqueue" None; stopped r
  | Ok _ =>
      woken ← trigger (SendWake (cp_PoolID a));
      if negb woken then r ← refused a "wake" None; stopped r
      else
        started ← trigger ReadClock;
        waited ← await_permit n a w started;
        match waited with
        | None => mret None
        | Some (Err e) => stopped (Err e)
        | Some (Ok permit) => r ← claim_permit a w permit; mret (Some (permit, r))
        end
  end.

Definition settle_permit (a : CPAAdmission) (permit claim : string) (o : AttemptObservation) : dispatch bool :=
  _ ← trigger (Call (CallStageAttempt permit claim o));
  settled ← trigger (Call (CallSettleAttempt permit claim o));
  match settled with Ok s => _ ← notify a permit (a_SettlementRevision s); mret true | Err _ => mret false end.

(** The clean-up of a dispatch that was not admitted. *)
Definition abandon (a : CPAAdmission) (w : RequestWaiter) (permit : string) (err : goerror) : dispatch goerror :=
  _ ← trigger (Call (CallCancelRequest (w_Scope w) (w_RequestID w) (w_OwnerID w)));
  _ ← (if String.eqb permit "" then mret false
       else
         now ← trigger ReadClock;
         _ ← trigger (Call (CallMarkLocalStop permit (w_OwnerID w) now));
         settle_permit a permit (w_OwnerID w) (never_sent now));
  stop ← trigger ContextErr;
  mret (default err stop).

(** [Truncate(time.Microsecond)], and the row that [EnqueueRequest] is given. *)
Definition request_waiter (a : CPAAdmission) (generation : Z) (scope request owner execution : string) (ordinal : Z) (deadline now : Time) : RequestWaiter :=
  {| w_WaitingReason := ""; w_NextAttemptAt := None; w_PoolHeartbeatAt := None; w_RequestID := request; w_PoolID := cp_PoolID a;
     w_Scope := scope; w_OwnerID := owner; w_ExecutionID := execution; w_Generation := generation; w_Ordinal := ordinal; w_Sequence := 0;
     w_CreatedAt := time_zero; w_Deadline := Truncate deadline Microsecond; w_LiveUntil := time_zero; w_RetentionUntil := time_zero;
     w_BudgetMS := Z.max 1 (Milliseconds (Sub deadline now)); w_ClosedAt := None; w_PoolObservedAt := None; w_PermitID := "" |}.

(** [begin]; [execution] is the identity that [StartCall] gave the call. *)
Definition begin_ (n : nat) (a : CPAAdmission) (scope : string) (execution : option string) : dispatch (option (res goerror Attempt)) :=
  stop ← trigger ContextErr;
  match stop with
  | Some e => mret (Some (Err e))
  | None =>
      deadline ← trigger ContextDeadline;
      match deadline, validScope scope, execution with
      | Some deadline, true, Some execution =>
          marker ← trigger (Call (CallPoolGeneration (cp_PoolID a)));
          match marker with
          | Ok marker =>
              if (pg_Generation marker <? 2) || negb (String.eqb (pg_Mode marker) "active") then Some <$> refused a "pool_generation" None
              else
                request ← trigger NewUUID;
                owner ← trigger NewUUID;
                ordinal ← trigger NextOrdinal;
                now ← trigger ReadClock;
                let w := request_waiter a (pg_Generation marker) scope request owner execution ordinal deadline now in
                admitted ← begin_admission n a w;
                match admitted with
                | None => mret None
                | Some (_, Ok attempt) => mret (Some (Ok attempt))
                | Some (permit, Err e) => e ← abandon a w permit e; mret (Some (Err e))
                end
          | Err _ => Some <$> refused a "pool_generation" None
          end
      | _, _, _ => mret (Some (Err admissionFailure))
      end
  end.

(** ** The dispatch *)

Definition no_provider_result : ProviderResult :=
  MkResult "" None JNull (Accounting.MkLedger Accounting.zeroUsage (Accounting.MkCost Float64.fzero "" "" 0 0)) zeroStream false.

(** How an execution ends: with the error of the pool's clean-up, a panic of an
    executor that is not of the pool, or out of rounds. *)
Inductive dispatched_call : Type :=
| CallReturned (r : ProviderResult) (err : option dispatch_error)
| CallPanicked
| OutOfRounds.
Definition plain_error (e : goerror) : dispatch_error := (e, false).

(** The variables of [Execute] that its deferred function reads. *)
Record Dispatched := MkDispatched {
  ds_observation : AttemptObservation;
  ds_nativeEntered : bool;
  ds_finished : option (Time * Duration);   (** [stopped], with [finished] and [duration] *)
  ds_panicked : bool;
}.

Definition execution_unconfirmed : dispatch_error :=
  plain_error (EProvider (Some (EText "CPA invocation stopped reporting its outcome"))
                 (MkProviderError CategoryOther "execution_unconfirmed" "" "" "" 0 0)).
Definition invocation_panicked : Outcome :=
  zeroOutcome <| out_Kind := "unconfirmed" |> <| out_Error := item_error "invocation_panicked" "The invocation outcome is unconfirmed." |>.

Definition final_observation (a : Attempt) (queuedMS : Z) (started now : Time) (duration : Duration) (d : Dispatched) : AttemptObservation :=
  let out := if ds_panicked d then invocation_panicked else ob_Outcome (ds_observation d) in
  let out := out <| out_QueueMS := queuedMS |> <| out_Attempt := a_Ordinal a |> <| out_GenerationBudgetMS := rs_BudgetMS (a_Reservation a) |>
                 <| out_GenerationDeadline := a_GenerationDeadline a |> in
  let out := if ds_nativeEntered d then out <| out_StartedAt := Some started |> <| out_DurationMS := Milliseconds duration |> else out in
  let out := match ds_finished d with Some (finished, _) => out <| out_FinishedAt := Some finished |> | None => out end in
  MkObservation out (ds_nativeEntered d) (negb (ds_nativeEntered d) || bool_decide (is_Some (ds_finished d))) now.

(** The deferred function. *)
Definition finish_dispatch (adm : CPAAdmission) (a : Attempt) (queuedMS : Z) (started : Time) (d : Dispatched) : dispatch unit :=
  let permit := rs_PermitID (a_Reservation a) in
  now ← trigger ReadClock;
  duration ← match ds_finished d with
             | Some (_, duration) => mret duration
             | None => if ds_nativeEntered d then later ← trigger ReadClock; mret (Sub later started) else mret 0
             end;
  let o := final_observation a queuedMS started now duration d in
  _ ← (if ob_LocalStopped o then _ ← trigger (Call (CallMarkLocalStop permit (a_ClaimID a) now)); mret tt else mret tt);
  confirmed ← settle_permit adm permit (a_ClaimID a) o;
  if cp_Logger adm then trigger (LogObserved o confirmed) else mret tt.

(** What the provider returned, and whether it came too late. *)
Definition returned_dispatch (a : Attempt) (finished : Time) (r : ProviderResult) (err : option goerror) : Outcome * option dispatch_error :=
  let '(out, err) := ObserveProviderDispatch r err in
  match err, a_GenerationDeadline a with
  | None, Some deadline =>
      if After finished deadline then (out <| out_Kind := "unconfirmed" |>, Some (plain_error EDeadlineExceeded)) else (out, None)
  | _, _ => (out, err)
  end.

Definition untouched : AttemptObservation := MkObservation (zeroOutcome <| out_Kind := "never_dispatched" |>) false true time_zero.

(** [p] is the operation of the executor behind, with the operation it was asked for.
    The hint to the pool is sent alongside the provider; it is ordered before it, and
    the answer to it is never read. *)
Definition dispatch_body (a : Attempt) (started : Time) (p : PreparedOperation) (adm : CPAAdmission)
  : dispatch (Dispatched * ProviderResult * option dispatch_error) :=
  stop ← trigger ContextErr;
  match stop with
  | Some _ =>
      again ← trigger ContextErr;
      mret (MkDispatched untouched false None false, no_provider_result, plain_error <$> again)
  | None =>
      _ ← notify adm (rs_PermitID (a_Reservation a)) 0;
      _ ← trigger (Native p);
      x ← trigger Returns;
      match x with
      | NativePanicked => mret (MkDispatched untouched true None true, no_provider_result, Some execution_unconfirmed)
      | NativeReturned r err =>
          later ← trigger ReadClock;
          finished ← trigger ReadClock;
          let '(out, err) := returned_dispatch a finished r err in
          mret (MkDispatched (untouched <| ob_Outcome := out |>) true (Some (finished, Sub later started)) false, r, err)
      end
  end.

Definition unmanaged (p : PreparedOperation) : dispatch dispatched_call :=
  _ ← trigger (Native p);
  x ← trigger Returns;
  mret (match x with NativePanicked => CallPanicked | NativeReturned r err => CallReturned r (plain_error <$> err) end).

Definition admission_Execute (n : nat) (adm : CPAAdmission) (scope : string) (execution : option string) (p : AdmissionOperation)
  : dispatch dispatched_call :=
  match ao_wrapped p with
  | None => unmanaged (ao_operation p)
  | Some original =>
      waiting ← trigger ReadClock;
      admitted ← begin_ n adm scope execution;
      match admitted with
      | None => mret OutOfRounds
      | Some (Err e) => mret (CallReturned no_provider_result (Some (plain_error e)))
      | Some (Ok a) =>
          now ← trigger ReadClock;
          started ← trigger ReadClock;
          '(d, r, err) ← dispatch_body a started (original <| po_Operation := po_Operation (ao_operation p) |>) adm;
          _ ← finish_dispatch adm a (Milliseconds (Sub now waiting)) started d;
          mret (CallReturned r err)
      end
  end.
