(* ===== verification/AdmissionOrigin.v ===== *)
(** * AdmissionOrigin: the origin of an endpoint identifies it

    Theorems about [admissionOrigin] of [Admission]: which endpoints belong to the pool. *)
From stdpp Require Import gmap pretty.
From S2P Require Import Prelude JsonText SchemaNumber RetryJson Endpoint Admission.

Open Scope string_scope.
Open Scope list_scope.
Open Scope Z_scope.

(** ** Origins *)

(** What a URL is at: the scheme, the host without case and trailing dot, and the
    port that is dialled. *)
Definition endpoint_at : Type := string * string * string.
Definition scheme_port (scheme : string) : string := if String.eqb scheme "https" then "443" else "80".
Definition url_key (u : AdmissionURL) : option endpoint_at :=
  if origin_scheme u then
    port ← origin_port u; Some (au_Scheme u, origin_host u, if String.eqb port "" then scheme_port (au_Scheme u) else port)
  else None.
Definition endpoint_key `{AdmissionEnv} (endpoint : string) : option endpoint_at := parse_endpoint endpoint ≫= url_key.

Definition bracketed (host : string) : string := if has_colon host then "[" +:+ host +:+ "]" else host.
Definition port_suffix (scheme port : string) : string := if default_port scheme port then "" else ":" +:+ port.
Definition origin_text (k : endpoint_at) : string := k.1.1 +:+ "://" +:+ bracketed k.1.2 +:+ port_suffix k.1.1 k.2.

(** The keys that URLs have. *)
Definition digits_only (s : string) : Prop := Forall (fun a => between 48 57 (Ascii.nat_of_ascii a) = true) (String.list_ascii_of_string s).
Definition key_ok (k : endpoint_at) : Prop := (k.1.1 = "https" ∨ k.1.1 = "http") ∧ k.2 ≠ "" ∧ digits_only k.2.

Lemma list_ascii_app s t : String.list_ascii_of_string (s +:+ t) = String.list_ascii_of_string s ++ String.list_ascii_of_string t.
Proof. induction s as [|a s IH]; [done|]. rewrite string_app_cons. cbn. by rewrite IH. Qed.
Lemma list_ascii_inj s t : String.list_ascii_of_string s = String.list_ascii_of_string t → s = t.
Proof. intros E. by rewrite <- (String.string_of_list_ascii_of_string s), E, String.string_of_list_ascii_of_string. Qed.

Lemma pretty_digits_only z : 0 < z → digits_only (pretty z) ∧ pretty z ≠ "".
Proof.
  intros Hz. destruct z as [|p|p]; [lia| |lia]. change (digits_only (pretty (Npos p)) ∧ pretty (Npos p) ≠ "").
  assert (∀ x s, digits_only s → digits_only (pretty_N_go x s)) as Hgo.
  { intros x. induction (N.lt_wf_0 x) as [x _ IH]. intros s Hs. assert (x = 0 ∨ 0 < x)%N as [->|Hx] by lia; [by rewrite pretty_N_go_0|].
    rewrite pretty_N_go_step by done. apply IH; [by apply N.div_lt|]. constructor; [|done]. apply pretty_N_char_digit. by apply N.mod_lt. }
  split; [|by destruct (pretty_N_head (Npos p)) as (a & r & -> & _)]. unfold pretty, pretty_N. case_decide; [done|]. apply Hgo. constructor.
Qed.

Definition colon_free (l : list Ascii.ascii) : Prop := Forall (fun a => Ascii.nat_of_ascii a ≠ 58%nat) l.
Lemma has_colon_false s : has_colon s = false ↔ colon_free (String.list_ascii_of_string s).
Proof.
  unfold has_colon, colon_free. induction (String.list_ascii_of_string s) as [|a l IH]; [by split|]. cbn.
  rewrite orb_false_iff, IH, Forall_cons, Nat.eqb_neq. done.
Qed.
Lemma digits_colon_free s : digits_only s → colon_free (String.list_ascii_of_string s).
Proof. intros Hs. apply (Forall_impl _ _ _ Hs). intros a H E. by rewrite E in H. Qed.

(** The part behind the last colon. *)
Lemma last_colon_unique (l l' p p' : list Ascii.ascii) c :
  colon_free p → colon_free p' → Ascii.nat_of_ascii c = 58%nat → l ++ c :: p = l' ++ c :: p' → l = l' ∧ p = p'.
Proof.
  intros Hp Hp' Hc. revert l'. induction l as [|a l IH]; intros [|a' l'] E; cbn in E.
  - by injection E as <-.
  - injection E as -> E. subst p. apply Forall_app in Hp as [_ Hp]. by apply Forall_cons in Hp as [Hp _].
  - injection E as -> E. subst p'. apply Forall_app in Hp' as [_ Hp']. by apply Forall_cons in Hp' as [Hp' _].
  - injection E as -> E. destruct (IH l' E) as [-> ->]. done.
Qed.

(** What precedes the port: without a colon, or ending in a bracket. *)
Lemma bracketed_shape host :
  (has_colon host = false ∧ bracketed host = host) ∨ (has_colon host = true ∧ bracketed host = "[" +:+ host +:+ "]").
Proof. unfold bracketed. destruct (has_colon host); auto. Qed.

Lemma bracketed_no_port h h' p : p ≠ "" → digits_only p → bracketed h +:+ (":" +:+ p) ≠ bracketed h'.
Proof.
  intros Hp Hd E. destruct (bracketed_shape h') as [[Hc Eb]|[Hc Eb]]; rewrite Eb in E.
  - apply has_colon_false in Hc. rewrite <- E, !list_ascii_app in Hc. apply Forall_app in Hc as [_ Hc]. cbn in Hc. by apply Forall_cons in Hc as [Hc _].
  - apply (f_equal String.list_ascii_of_string) in E. rewrite !list_ascii_app in E. unfold digits_only in Hd.
    destruct (String.list_ascii_of_string p) as [|a l] eqn:El; [by destruct p|].
    apply (f_equal last) in E. rewrite !last_app in E. cbn in E.
    assert (∃ b, last (a :: l) = Some b ∧ between 48 57 (Ascii.nat_of_ascii b) = true) as (b & Eb' & Hb).
    { destruct (last (a :: l)) as [b|] eqn:Hl; [|by apply last_None in Hl]. exists b. split; [done|].
      apply last_Some in Hl as (l' & Hl). rewrite Hl in Hd. apply Forall_app in Hd as [_ Hd]. by apply Forall_cons in Hd as [Hd _]. }
    change (last (_ :: a :: l)) with (last (a :: l)) in E. rewrite Eb' in E. injection E as ->. discriminate Hb.
Qed.

Lemma bracketed_inj h h' : bracketed h = bracketed h' → h = h'.
Proof.
  destruct (bracketed_shape h) as [[Hc Eb]|[Hc Eb]], (bracketed_shape h') as [[Hc' Eb']|[Hc' Eb']]; rewrite Eb, Eb'; intros E.
  - done.
  - subst h. unfold has_colon in *. rewrite !list_ascii_app, !existsb_app, Hc' in Hc. discriminate Hc.
  - subst h'. unfold has_colon in *. rewrite !list_ascii_app, !existsb_app, Hc in Hc'. discriminate Hc'.
  - apply (inj (String.append "[")) in E. apply (f_equal String.list_ascii_of_string) in E. rewrite !list_ascii_app in E.
    by apply app_inj_2 in E as [E%list_ascii_inj _].
Qed.

Lemma host_port_inj scheme h h' p p' :
  p ≠ "" → digits_only p → p' ≠ "" → digits_only p' →
  bracketed h +:+ port_suffix scheme p = bracketed h' +:+ port_suffix scheme p' → h = h' ∧ port_suffix scheme p = port_suffix scheme p'.
Proof.
  intros Hp Dp Hp' Dp'. unfold port_suffix. destruct (default_port scheme p), (default_port scheme p'); rewrite ?string_app_nil; intros E.
  - by apply bracketed_inj in E as ->.
  - by apply symmetry, bracketed_no_port in E.
  - by apply bracketed_no_port in E.
  - apply (f_equal String.list_ascii_of_string) in E. rewrite !list_ascii_app in E. cbn in E.
    apply last_colon_unique in E as [Eh Ep]; [|by apply digits_colon_free..|done].
    apply list_ascii_inj in Eh, Ep. apply bracketed_inj in Eh as ->. by rewrite Ep.
Qed.

Lemma default_port_unique scheme p : default_port scheme p = true → p = scheme_port scheme.
Proof.
  unfold default_port, scheme_port. destruct (String.eqb_spec scheme "https") as [E|_].
  - rewrite E. cbn. by rewrite orb_false_r, String.eqb_eq.
  - cbn. intros [_ ->%String.eqb_eq]%andb_true_iff. done.
Qed.
Lemma port_suffix_inj scheme p p' : port_suffix scheme p = port_suffix scheme p' → p = p'.
Proof.
  unfold port_suffix. destruct (default_port scheme p) eqn:E, (default_port scheme p') eqn:E'; intros H; try done.
  - by rewrite (default_port_unique _ _ E), (default_port_unique _ _ E').
  - by apply (inj (String.append ":")) in H.
Qed.

Lemma origin_text_inj k k' : key_ok k → key_ok k' → origin_text k = origin_text k' → k = k'.
Proof.
  destruct k as [[s h] p], k' as [[s' h'] p']. intros (Hs & Hp & Dp) (Hs' & Hp' & Dp') E. unfold origin_text in E. cbn in *.
  assert (s = s') as ->.
  { destruct Hs as [->| ->], Hs' as [->| ->]; try done; exfalso; revert E; clear; lazy; discriminate. }
  apply (inj (String.append s')), (inj (String.append "://")) in E. apply host_port_inj in E as [-> E%port_suffix_inj]; [|done..]. congruence.
Qed.

Lemma origin_port_shape u port : origin_port u = Some port → port = "" ∨ (port ≠ "" ∧ digits_only port).
Proof.
  unfold origin_port. destruct (String.eqb _ _); [intros [= <-]; by left|]. destruct (port_number _) as [n|]; [|done].
  destruct (_ || _) eqn:E; [done|]. intros [= <-]. apply orb_false_iff in E as [E _]. apply Z.ltb_ge in E. right.
  destruct (pretty_digits_only n) as [H1 H2]; [lia|done].
Qed.

Lemma url_key_ok u k : url_key u = Some k → key_ok k.
Proof.
  unfold url_key. destruct (origin_scheme u) eqn:E; [|done]. intros (port & Hp & [= <-])%bind_Some.
  unfold origin_scheme in E. rewrite !andb_true_iff, orb_true_iff, !String.eqb_eq in E. destruct E as [_ Hs]. split; [done|]. cbn.
  destruct (origin_port_shape _ _ Hp) as [->|[Hn Hd]]; cbn.
  - unfold scheme_port. destruct (String.eqb _ _); (split; [done|]); repeat constructor.
  - destruct (String.eqb_spec port ""); [done|]. done.
Qed.

Lemma admissionOrigin_text `{AdmissionEnv} e : admissionOrigin e = match endpoint_key e with Some k => origin_text k | None => "" end.
Proof.
  unfold admissionOrigin, endpoint_key. destruct (parse_endpoint e) as [u|]; [|done]. cbn. unfold url_key. destruct (origin_scheme u) eqn:E; cbn; [|done].
  destruct (origin_port u) as [port|] eqn:Ep; [|done]. cbn. unfold origin_text. cbn. f_equal. f_equal.
  unfold origin_scheme in E. rewrite !andb_true_iff, orb_true_iff, !String.eqb_eq in E. destruct E as [_ Hs].
  assert (default_port (au_Scheme u) (scheme_port (au_Scheme u)) = true) as Hd by (by destruct Hs as [->| ->]).
  unfold port_suffix, JoinHostPort, bracketed. destruct (String.eqb_spec port "") as [->|Hne].
  - cbn. rewrite Hd, string_app_nil. by destruct (default_port (au_Scheme u) "").
  - destruct (default_port (au_Scheme u) port); cbn; [by rewrite string_app_nil|]. by destruct (String.eqb_spec port "").
Qed.

(** ** Places *)

(** Where an endpoint is: a scheme, the codes of the host's letters, all of them small,
    and the number of a port. *)
Record place := MkPlace { pl_scheme : string; pl_host : list nat; pl_port : Z }.

Definition small_letter (n : nat) : nat := if (65 <=? n)%nat && (n <=? 90)%nat then (n + 32)%nat else n.
Definition codes (s : string) : list nat := map Ascii.nat_of_ascii (String.list_ascii_of_string s).
(** The host with its letters made small, and without one trailing dot, whose code is 46. *)
Definition host_is (hostname : string) (host : list nat) : Prop :=
  let small := map small_letter (codes hostname) in
  small = host ++ [46%nat] ∨ (small = host ∧ last host ≠ Some 46%nat).
(** The port that is dialled: the one of the URL, or that of its scheme. *)
Inductive dials (u : AdmissionURL) : Z → Prop :=
| dials_https : au_Port u = "" → au_Scheme u = "https" → dials u 443
| dials_http : au_Port u = "" → au_Scheme u = "http" → dials u 80
| dials_own n : au_Port u ≠ "" → ParseInt (au_Port u) = Some n → 1 ≤ n ≤ 65535 → dials u n.

Record url_at (u : AdmissionURL) (p : place) : Prop := {
  ua_plain : au_User u = false ∧ au_RawQuery u = "" ∧ au_Fragment u = "";
  ua_some_host : au_Host u ≠ "";
  ua_web : au_Scheme u = "https" ∨ au_Scheme u = "http";
  ua_scheme : pl_scheme p = au_Scheme u;
  ua_host : host_is (au_Hostname u) (pl_host p);
  ua_port : dials u (pl_port p) }.
Definition at_place `{AdmissionEnv} (endpoint : string) (p : place) : Prop := ∃ u, parse_endpoint endpoint = Some u ∧ url_at u p.
(** The host names the model's lower case is exact on. *)
Definition ascii_host `{AdmissionEnv} (endpoint : string) : Prop :=
  ∀ u, parse_endpoint endpoint = Some u → Forall (fun n => (n < 128)%nat) (codes (au_Hostname u)).

Lemma codes_inj s t : codes s = codes t → s = t.
Proof.
  intros E. apply list_ascii_inj. revert E. unfold codes. generalize (String.list_ascii_of_string s) (String.list_ascii_of_string t).
  induction l as [|a l IH]; intros [|b l'] E; try done. injection E as E1 E2. f_equal; [|by apply IH].
  by rewrite <- (Ascii.ascii_nat_embedding a), E1, Ascii.ascii_nat_embedding.
Qed.
Lemma codes_app s t : codes (s +:+ t) = codes s ++ codes t.
Proof. unfold codes. by rewrite list_ascii_app, map_app. Qed.

Lemma codes_ToLower s : Forall (fun n => (n < 128)%nat) (codes s) → codes (ToLower s) = map small_letter (codes s).
Proof.
  intros Hs. rewrite ToLower_ascii.
  - clear Hs. induction s as [|a s IH]; [done|]. change (codes (lower_all (String a s))) with (Ascii.nat_of_ascii (lower_ascii a) :: codes (lower_all s)).
    rewrite IH. change (codes (String a s)) with (Ascii.nat_of_ascii a :: codes s). cbn [map]. f_equal. clear. by destruct a as [[][][][][][][][]].
  - unfold ascii_only. apply forallb_forall. intros a Ha. apply Nat.ltb_lt. rewrite Forall_forall in Hs. apply Hs.
    unfold codes. apply list_elem_of_In, in_map, Ha.
Qed.

Lemma trim_dot_cases s :
  codes s = codes (trim_dot s) ++ [46%nat] ∨ (trim_dot s = s ∧ last (codes s) ≠ Some 46%nat).
Proof.
  unfold trim_dot. destruct (go_string_rev s) as [|a r] eqn:E.
  { right. split; [done|]. apply (f_equal go_string_rev) in E. rewrite string_rev_involutive in E. by subst s. }
  apply (f_equal go_string_rev) in E. rewrite string_rev_involutive, string_rev_cons in E. subst s. rewrite codes_app.
  destruct (Ascii.eqb_spec a (Ascii.Ascii false true true true false true false false)) as [->|Hne]; [by left|]. right. split; [done|]. rewrite last_app. cbn. intros [= E].
  apply Hne. by rewrite <- (Ascii.ascii_nat_embedding a), E.
Qed.

Lemma host_is_origin u host :
  Forall (fun n => (n < 128)%nat) (codes (au_Hostname u)) → host_is (au_Hostname u) host ↔ host = codes (origin_host u).
Proof.
  intros Hu. unfold host_is, origin_host. rewrite <- (codes_ToLower _ Hu). set (s := ToLower (au_Hostname u)).
  destruct (trim_dot_cases s) as [E|[E Hl]].
  - split; [|intros ->; by left]. rewrite E. intros [H|[H1 H2]]; [by apply app_inj_2 in H as [-> _]|].
    destruct H2. rewrite <- H1, last_app. done.
  - rewrite E. split; [|intros ->; by right]. intros [H|[H1 H2]]; [|done]. destruct Hl. by rewrite H, last_app.
Qed.

Definition key_port (u : AdmissionURL) (port : string) : string := if String.eqb port "" then scheme_port (au_Scheme u) else port.
Lemma dials_origin u n :
  au_Scheme u = "https" ∨ au_Scheme u = "http" → dials u n ↔ ∃ port, origin_port u = Some port ∧ key_port u port = pretty n.
Proof.
  intros Hs. unfold origin_port, key_port, scheme_port, port_number. split.
  - intros [E ->|E ->|m Hne E Hm]; [exists ""; by rewrite E..|]. exists (pretty m).
    destruct (String.eqb_spec (au_Port u) "") as [|_]; [done|]. rewrite E. rewrite (proj2 (Z.ltb_ge m 1)), (proj2 (Z.ltb_ge 65535 m)) by lia.
    split; [done|]. destruct (String.eqb_spec (pretty m) "") as [Hp|_]; [|done]. by destruct (pretty_digits_only m ltac:(lia)).
  - intros (port & Hp & E). destruct (String.eqb_spec (au_Port u) "") as [H0|H0].
    + injection Hp as <-. destruct Hs as [Hs|Hs]; rewrite Hs in E; cbn in E.
      * change "443" with (pretty 443) in E. apply (inj pretty) in E as <-. by constructor.
      * change "80" with (pretty 80) in E. apply (inj pretty) in E as <-. by constructor.
    + destruct (ParseInt (au_Port u)) as [m|] eqn:Em; [|done]. destruct (_ || _) eqn:Eb; [done|]. injection Hp as <-.
      apply orb_false_iff in Eb as [Eb1%Z.ltb_ge Eb2%Z.ltb_ge]. destruct (pretty_digits_only m ltac:(lia)) as [_ Hm].
      destruct (String.eqb_spec (pretty m) ""); [done|]. apply (inj pretty) in E as <-. by apply dials_own.
Qed.

(** The place of an endpoint is its key. *)
Lemma at_place_key `{AdmissionEnv} e p :
  ascii_host e → at_place e p ↔ ∃ host, endpoint_key e = Some (pl_scheme p, host, pretty (pl_port p)) ∧ pl_host p = codes host.
Proof.
  intros Ha. unfold endpoint_key. split.
  - intros (u & Hu & [(E1 & E2 & E3) Hh Hs Es Ehost Hport]). exists (origin_host u). rewrite Hu. cbn. unfold url_key.
    assert (origin_scheme u = true) as ->.
    { unfold origin_scheme. rewrite E1, E2, E3. destruct (String.eqb_spec (au_Host u) ""); [done|]. by destruct Hs as [->| ->]. }
    apply (dials_origin u _ Hs) in Hport as (port & Hport & Ekey). rewrite Hport. cbn. fold (key_port u port). rewrite Ekey, Es.
    split; [done|]. by apply (host_is_origin u _ (Ha u Hu)).
  - intros (host & (u & Hu & Hk)%bind_Some & Ecodes). exists u. split; [done|]. unfold url_key in Hk.
    destruct (origin_scheme u) eqn:E; [|done]. apply bind_Some in Hk as (port & Hport & [= Es Eh Ep]). unfold origin_scheme in E.
    rewrite !andb_true_iff, orb_true_iff, !negb_true_iff, !String.eqb_eq, String.eqb_neq in E. destruct E as ((((E1 & E2) & E3) & E4) & Hs).
    split; [done|done|done|done| |].
    + apply (host_is_origin u _ (Ha u Hu)). by rewrite Ecodes, Eh.
    + apply (dials_origin u _ Hs). exists port. done.
Qed.

Lemma endpoint_key_port `{AdmissionEnv} e k : endpoint_key e = Some k → ∃ n : Z, k.2 = pretty n.
Proof.
  unfold endpoint_key. intros (u & _ & Hk)%bind_Some. unfold url_key in Hk. destruct (origin_scheme u); [|done].
  apply bind_Some in Hk as (port & Hport & [= <-]). cbn. unfold origin_port in Hport. destruct (String.eqb (au_Port u) "").
  - injection Hport as <-. cbn. unfold scheme_port. destruct (String.eqb _ _); [by exists 443|by exists 80].
  - destruct (port_number _) as [n|]; [|done]. destruct (_ || _); [done|]. injection Hport as <-. destruct (String.eqb _ _); [|by exists n].
    unfold scheme_port. destruct (String.eqb _ _); [by exists 443|by exists 80].
Qed.

(** Endpoints of one key are at one place. *)
Lemma same_key `{AdmissionEnv} e e' :
  ascii_host e → ascii_host e' → (∀ p, at_place e p ↔ at_place e' p) → ∀ k, endpoint_key e = Some k → endpoint_key e' = Some k.
Proof.
  intros Ha Ha' Hp [[s h] port] Hk. destruct (endpoint_key_port e _ Hk) as (n & E). cbn in E. subst port.
  destruct (proj1 (at_place_key e' (MkPlace s (codes h) n) Ha')) as (h' & Hk' & Eh).
  - apply Hp. apply at_place_key; [done|]. by exists h.
  - cbn in Eh, Hk'. apply codes_inj in Eh. by subst h'.
Qed.

(** The origin of an endpoint is that of its key, and no two keys have the same. *)
Lemma origin_key `{AdmissionEnv} e e' : admissionOrigin e = admissionOrigin e' ↔ endpoint_key e = endpoint_key e'.
Proof.
  split; [|intros E; by rewrite !admissionOrigin_text, E]. rewrite !admissionOrigin_text.
  assert (∀ e k, endpoint_key e = Some k → key_ok k) as Hok by (intros x k (u & _ & Hu)%bind_Some; by eapply url_key_ok).
  assert (∀ k, key_ok k → origin_text k ≠ "") as Hne by (intros [[s h] p] ([Es|Es] & _); unfold origin_text; cbn in Es |- *; by rewrite Es).
  destruct (endpoint_key e) as [k|] eqn:E1, (endpoint_key e') as [k'|] eqn:E2; intros E.
  - f_equal. eapply origin_text_inj; [by eapply Hok..|done].
  - by destruct (Hne k); [eapply Hok|].
  - by destruct (Hne k'); [eapply Hok|].
  - done.
Qed.

(** C19: The origins of two endpoints are equal exactly when the endpoints are at the same
    places.  An endpoint is at the place of its scheme, its host with small letters and
    without one trailing dot, and the port that is dialled, which is the number of the one
    it has, whatever its leading zeros, and that of the scheme when it has none; it is at
    no place when it does not parse, has a user, a query or a fragment, no host, another
    scheme or a port out of range.  So no two places share an origin, whatever brackets,
    colons and ports they are written with.  The host names are in ASCII. *)
Theorem admission_origin_identifies `{AdmissionEnv} e e' :
  ascii_host e → ascii_host e' → admissionOrigin e = admissionOrigin e' ↔ ∀ p, at_place e p ↔ at_place e' p.
Proof.
  intros Ha Ha'. rewrite origin_key. split.
  - intros E p. by rewrite !at_place_key, E.
  - intros Hp. assert (∀ p, at_place e' p ↔ at_place e p) as Hp' by (intros p; by rewrite Hp).
    destruct (endpoint_key e) as [k|] eqn:Ek; [symmetry; by apply (same_key e e')|].
    destruct (endpoint_key e') as [k|] eqn:Ek'; [|done]. rewrite <- Ek. by apply (same_key e' e).
Qed.

(** Two spellings of one place. *)
Definition demo_hosts : AdmissionEnv := {|
  parse_endpoint e :=
    if String.eqb e "https://LLM.example." then Some (MkAdmissionURL "https" false "LLM.example." "" "" "LLM.example." "")
    else if String.eqb e "https://llm.example:0443" then Some (MkAdmissionURL "https" false "llm.example:0443" "" "" "llm.example" "0443")
    else None |}.
Lemma demo_hosts_ascii e : ascii_host (H:=demo_hosts) e.
Proof. intros u. cbn. destruct (String.eqb _ _); [|destruct (String.eqb _ _); [|done]]; intros [= <-]; vm_compute; repeat constructor. Qed.
Lemma admission_origin_identifies_witness :
  admissionOrigin (H:=demo_hosts) "https://LLM.example." = "https://llm.example"
  ∧ (∀ p, at_place (H:=demo_hosts) "https://LLM.example." p ↔ at_place (H:=demo_hosts) "https://llm.example:0443" p).
Proof.
  split; [vm_compute; reflexivity|].
  apply (admission_origin_identifies (H:=demo_hosts)); [apply demo_hosts_ascii..|]. vm_compute. reflexivity.
Defined.
