(* ===== verification/AdmissionSystem.v ===== *)
(** * AdmissionSystem: an ordinary dispatch among the others

    The runs of [Admission]: a dispatch, interleaved with every other transaction of
    the ledger, under a clock that does not go back and a context that stays done once
    it is.  Theorems about when it enters the provider, what it says about it, that it
    settles what it claimed, and that its wait ends. *)
From stdpp Require Import gmap relations.
From S2P Require Import Prelude Json Retry CacheKey Runtime BatchController BatchPool PoolWorkflow Ledger LedgerQueue LedgerInvariant LedgerProperties AttemptFlow AttemptSystem Admission.

Open Scope string_scope.
Open Scope list_scope.
Open Scope Z_scope.

(** ** The state of the world around a dispatch *)

(** What the dispatch has done so far: where it stands, the waiter it queued, the
    permit and the nonce it claimed under, whether it cancelled its request, and its
    settlements. *)
Record deeds := MkDeeds {
  de_phase : phase;
  de_waiter : option RequestWaiter;
  de_claim : option (string * string);
  de_cancelled : bool;
  de_settled : list (string * string * AttemptObservation);
}.
Definition no_deeds : deeds := MkDeeds Outside None None false [].

Definition store_deeds {A : Type} (c : store_call A) (d : deeds) : deeds :=
  match c with
  | CallEnqueueRequest w => d <| de_waiter := Some w |>
  | CallClaimAttempt id nonce => d <| de_claim := Some (id, nonce) |>
  | CallCancelRequest _ _ _ => d <| de_cancelled := true |>
  | CallSettleAttempt id nonce o => d <| de_settled ::= cons (id, nonce, o) |>
  | _ => d
  end.
Definition deeds_after {A : Type} (e : admission_event A) (a : A) (d : deeds) : deeds :=
  match e in admission_event A return A → deeds with
  | Call c => fun _ => store_deeds c d
  | Native _ => fun _ => d <| de_phase := Inside |>
  | Returns => fun x => match x, de_phase d with NativeReturned _ _, Inside => d <| de_phase := Left_ |> | _, _ => d end
  | _ => fun _ => d
  end a.

(** The ledger as it was last seen, with every state of it that was seen; the clock;
    why the context is done; and the deeds. *)
Record world := MkWorld {
  wd_db : DB; wd_seen : list DB; wd_time : Time; wd_done : option goerror; wd_deeds : deeds }.

Section World.
Context `{HP : PoolEnv} `{HL : LedgerEnv} `{Laws : !LedgerLaws}.

(** A program of the ledger, with transactions of others before each of its own. *)
Fixpoint runs {R : Type} (p : activity R) (db : DB) (h : list DB) (r : R) (db' : DB) (h' : list DB) : Prop :=
  match p with
  | Ret x => x = r ∧ db' = db ∧ h' = h
  | Do e k => ∃ db1 a db2, rtc ledger_step db db1 ∧ answers e db1 a db2 ∧ runs (k a) db2 (db2 :: h) r db' h'
  end.

(** The deadline of the context, and how late its timer may fire. *)
Variable limit : option Time.
Variable lag : Duration.

Definition same_ledger (s s' : world) : Prop := wd_db s' = wd_db s ∧ wd_seen s' = wd_seen s.
Definition same_context (s s' : world) : Prop := wd_done s' = wd_done s.
(** The context, read: it stays done, and it is done some time after its deadline. *)
Definition context_read (s s' : world) (x : option goerror) : Prop :=
  wd_done s' = x ∧ (∀ e, wd_done s = Some e → x = Some e) ∧ (x = None → ∀ d, limit = Some d → wd_time s < d + lag).

Definition admission_answers {A : Type} (e : admission_event A) (s : world) (a : A) (s' : world) : Prop :=
  wd_time s ≤ wd_time s' ∧ wd_deeds s' = deeds_after e a (wd_deeds s)
  ∧ match e in admission_event A return A → Prop with
    | Call c => fun a => same_context s s' ∧ runs (store_program c) (wd_db s) (wd_seen s) a (wd_db s') (wd_seen s')
    | ReadClock => fun t => same_ledger s s' ∧ same_context s s' ∧ wd_time s ≤ t ≤ wd_time s'
    | ContextErr => fun x => same_ledger s s' ∧ context_read s s' x
    | ContextDeadline => fun d => same_ledger s s' ∧ same_context s s' ∧ d = limit
    | Pause d => fun x => same_ledger s s'
        ∧ match x with
          | Some e => wd_done s' = Some e ∧ (∀ e', wd_done s = Some e' → e' = e)
          | None => same_context s s' ∧ wd_time s + Z.max 0 d ≤ wd_time s'
          end
    | _ => fun _ => same_ledger s s' ∧ same_context s s'
    end a.

Inductive dispatch_step {R : Type} : dispatch R * world → dispatch R * world → Prop :=
| dispatch_interacts A (e : admission_event A) k a s s' :
    admission_answers e s a s' → dispatch_step (Do e k, s) (k a, s').

(** ** What a dispatch may do *)

(** An attempt that was claimed for the request of a waiter, and by its owner. *)
Record own_claim (w : RequestWaiter) (a : Attempt) : Prop := {
  oc_kind : rs_Kind (a_Reservation a) = "ordinary";
  oc_request : rs_RequestID (a_Reservation a) = w_RequestID w;
  oc_pool : rs_PoolID (a_Reservation a) = w_PoolID w;
  oc_generation : rs_Generation (a_Reservation a) = w_Generation w;
  oc_scope : ref_Scope (rs_Ref (a_Reservation a)) = w_Scope w;
  oc_owner : a_ClaimID a = w_OwnerID w;
  oc_budget : rs_BudgetMS (a_Reservation a) = w_BudgetMS w;
  oc_deadline : rs_Deadline (a_Reservation a) = w_Deadline w;
}.
Lemma claim_matches_own w a : claim_matches w a = true → own_claim w a.
Proof.
  unfold claim_matches, time_Equal. rewrite !andb_true_iff, !String.eqb_eq, !Z.eqb_eq. intros (((((((H1 & H2) & H3) & H4) & H5) & H6) & H7) & H8). by split.
Qed.

(** The ledger has shown the claim of an attempt of the dispatch's own request under
    the dispatch's nonce, and its dispatch intent. *)
Definition authorized (s : world) : Prop :=
  ∃ w permit claimed marked db1 db2,
    de_waiter (wd_deeds s) = Some w ∧ de_claim (wd_deeds s) = Some (permit, w_OwnerID w)
    ∧ db1 ∈ wd_seen s ∧ db_attempts db1 !! permit = Some claimed ∧ own_claim w claimed
    ∧ db2 ∈ wd_seen s ∧ db_attempts db2 !! permit = Some marked ∧ a_ClaimID marked = w_OwnerID w ∧ is_Some (a_DispatchedAt marked).

Definition store_allowed {A : Type} (c : store_call A) (d : deeds) : Prop :=
  match c with
  | CallMarkLocalStop id nonce _ => de_claim d = Some (id, nonce) ∧ de_phase d ≠ Inside
  | CallStageAttempt id nonce o => de_claim d = Some (id, nonce) ∧ truthful o (de_phase d)
  | CallSettleAttempt id nonce o => de_claim d = Some (id, nonce) ∧ truthful o (de_phase d) ∧ de_settled d = []
  | CallCancelRequest _ _ _ => de_phase d = Outside
  | CallClaimAttempt _ _ => de_claim d = None ∧ de_phase d = Outside
  | _ => True
  end.
Definition allowed {A : Type} (e : admission_event A) (s : world) : Prop :=
  match e with
  | Call c => store_allowed c (wd_deeds s)
  | Native _ => de_phase (wd_deeds s) = Outside ∧ de_cancelled (wd_deeds s) = false ∧ authorized s
  | LogRefusal _ _ => de_phase (wd_deeds s) = Outside
  | LogObserved o _ => truthful o (de_phase (wd_deeds s))
  | _ => True
  end.

(** [safe p s Q]: from [s], every interaction of [p] is allowed, and its result and the
    world then satisfy [Q]. *)
Fixpoint safe {R : Type} (p : dispatch R) (s : world) (Q : R → world → Prop) : Prop :=
  match p with
  | Ret r => Q r s
  | Do e k => allowed e s ∧ ∀ a s', admission_answers e s a s' → safe (k a) s' Q
  end.

Lemma safe_bind {R S : Type} (p : dispatch R) (f : R → dispatch S) s Q : safe p s (fun r s' => safe (f r) s' Q) → safe (p ≫= f) s Q.
Proof. revert s. induction p as [r|A e k IH]; intros s; [done|]. intros [Ha H]. split; [done|]. intros a s' Hs. by apply IH, H. Qed.
Lemma safe_fmap {R S : Type} (p : dispatch R) (f : R → S) s Q : safe p s (fun r => Q (f r)) → safe (f <$> p) s Q.
Proof. exact (safe_bind p (fun r => Ret (f r)) s Q). Qed.
Lemma safe_mono {R : Type} (p : dispatch R) s (Q Q' : R → world → Prop) : safe p s Q → (∀ r s', Q r s' → Q' r s') → safe p s Q'.
Proof. revert s. induction p as [r|A e k IH]; intros s H HQ; [by apply HQ|]. destruct H as [Ha H]. split; [done|]. intros a s' Hs. apply IH; auto. Qed.

Lemma safe_step {R : Type} (c c' : dispatch R * world) Q : dispatch_step c c' → safe c.1 c.2 Q → safe c'.1 c'.2 Q.
Proof. intros [A e k a s s' Hs] [_ H]. by apply H. Qed.
Lemma safe_reach {R : Type} (c c' : dispatch R * world) Q : rtc dispatch_step c c' → safe c.1 c.2 Q → safe c'.1 c'.2 Q.
Proof. induction 1 as [|x y z St _ IH]; [done|]. intros H. by apply IH, (safe_step x). Qed.

(** ** Later worlds *)

Record later (s s' : world) : Prop := {
  lt_time : wd_time s ≤ wd_time s';
  lt_seen : wd_seen s ⊆ wd_seen s';
  lt_ok : LedgerOK (wd_db s) → LedgerOK (wd_db s');
}.
#[export] Instance later_preorder : PreOrder later.
Proof. split; [by intros s; split|]. intros x y z [H1 H2 H3] [K1 K2 K3]. split; [lia|by etrans|auto]. Qed.

Lemma authorized_later s s' : later s s' → wd_deeds s' = wd_deeds s → authorized s → authorized s'.
Proof.
  intros L E (w & permit & claimed & marked & db1 & db2 & H). exists w, permit, claimed, marked, db1, db2. rewrite E.
  destruct H as (? & ? & H1 & ? & ? & H2 & ? & ? & ?). split_and!; try done; by apply (lt_seen _ _ L).
Qed.

(** ** Runs of the ledger's programs *)

Lemma runs_bind {R S : Type} (p : activity R) (f : R → activity S) db h r db' h' :
  runs (p ≫= f) db h r db' h' ↔ ∃ x d g, runs p db h x d g ∧ runs (f x) d g r db' h'.
Proof.
  revert db h. induction p as [x|A e k IH]; intros db h.
  - split; [by exists x, db, h|]. intros (y & d & g & (-> & -> & ->) & H). done.
  - cbn. split.
    + intros (db1 & a & db2 & R1 & Ha & (x & d & g & H1 & H2)%IH). exists x, d, g. split; [by exists db1, a, db2|done].
    + intros (x & d & g & (db1 & a & db2 & R1 & Ha & H1) & H2). exists db1, a, db2. split; [done|]. split; [done|]. apply IH. by exists x, d, g.
Qed.
Lemma runs_trigger {A : Type} (e : event A) db h r db' h' :
  runs (trigger e) db h r db' h' ↔ ∃ db1, rtc ledger_step db db1 ∧ answers e db1 r db' ∧ h' = db' :: h.
Proof.
  split.
  - intros (db1 & a & db2 & R1 & Ha & <- & <- & ->). by exists db1.
  - intros (db1 & R1 & Ha & ->). by exists db1, r, db'.
Qed.

Lemma ledger_steps_ok db db' : rtc ledger_step db db' → LedgerOK db → LedgerOK db'.
Proof. induction 1 as [|x y z St _ IH]; [done|]. intros O. apply IH. by apply (ledger_step_Kept _ _ St O). Qed.

Lemma runs_later {R : Type} (p : activity R) db h r db' h' :
  calm p → runs p db h r db' h' → h ⊆ h' ∧ (LedgerOK db → LedgerOK db').
Proof.
  revert db h. induction p as [x|A e k IH]; intros db h.
  - intros _ (_ & -> & ->). done.
  - intros (_ & L & Hk) (db1 & a & db2 & R1 & Ha & H). destruct (IH a db2 (db2 :: h) (Hk a) H) as [H1 H2]. split.
    + intros x Hx. apply H1. by right.
    + intros O. apply H2. apply (L _ _ _ Ha). by apply (ledger_steps_ok db).
Qed.

(** The operations of the ledger are lawful. *)
Lemma calm_store {A : Type} (op : fate → Clock → DB → DB * A) : (∀ f c db, Kept db (op f c db).1) → calm (trigger (Store op)).
Proof. intros H. by apply calm_trigger, lawful_store. Qed.
Lemma calm_confirm n id nonce accepts : calm (confirm n id nonce accepts).
Proof.
  induction n as [|n IH]; [done|]. apply calm_bind; [apply calm_trigger; [done|apply lawful_confirm]|]. intros [c r].
  apply calm_bind; [by apply calm_pure|]. intros d. destruct r as [a|e]; [done|]. by destruct (_ || _).
Qed.
Lemma calm_confirmed_write fn accepts id nonce :
  (∀ c db x db', fn c db = Ok (x, db') → Kept db db') → calm (confirmed_write fn accepts id nonce).
Proof.
  intros H. apply calm_bind; [by apply calm_trigger, lawful_write|]. intros [r seen]. destruct r as [[x y]|e]; [done|].
  destruct seen as [[c before]|]; [apply calm_confirm|done].
Qed.
Lemma calm_settle id nonce o : calm (settle_attempt id nonce o).
Proof.
  unfold settle_attempt. destruct (negb _); [done|]. apply calm_bind.
  - apply calm_store. intros f c db. apply ledgerTx_Kept. intros a db'. apply settle_tx_Kept.
  - assert (∀ e, calm (again ← trigger (Store (fun f _ db => (db, (ledgerTx f (a ← readAttempt id; fillAttemptCounts a) db).1.2)));
      mret (match again with Ok a => if settled_by nonce o a then Ok a else Err (ledgerError e) | Err _ => Err (ledgerError e) end)
      : activity (res batch_error Attempt))) as Hr.
    { intros e. apply calm_bind; [|done]. apply calm_store. intros. apply Kept_refl. }
    intros [a|e]; [done|]. destruct e as [[]| |]; try done; apply Hr.
Qed.
Lemma read_generation_Kept f id db : Kept db (read_generation f id db).1.
Proof. apply ledger_Kept. intros a db' T. unfold poolRow in T. apply row_ok in T as [_ <-]. apply Kept_refl. Qed.

Lemma calm_store_program {A : Type} (c : store_call A) : calm (store_program c).
Proof.
  destruct c; cbn [store_program].
  - apply calm_store. intros. apply read_generation_Kept.
  - apply calm_store. intros. apply EnqueueRequest_Kept.
  - apply calm_store. intros. apply ReadRequest_Kept.
  - apply calm_store. intros. apply CancelRequest_Kept.
  - unfold claim_attempt. destruct (_ || _); [done|]. apply calm_confirmed_write. intros. by eapply claim_tx_Kept.
  - apply calm_confirmed_write. intros. by eapply dispatch_tx_Kept.
  - apply calm_stop.
  - apply calm_stage.
  - apply calm_settle.
Qed.

(** A confirmation, and a write that was acknowledged or confirmed, leave the row they
    answer with in a state that was seen. *)
Lemma runs_confirm n id nonce accepts db h a db' h' :
  runs (confirm n id nonce accepts) db h (Ok a) db' h' → LedgerOK db →
  ∃ c d d', d ∈ h' ∧ LedgerOK d ∧ confirm_read c id nonce accepts d = Ok (a, d').
Proof.
  revert db h. induction n as [|n IH]; intros db h; [by intros [? _]|]. cbn [confirm].
  rewrite runs_bind. intros ([c r] & d & g & (db1 & R1 & (f & c' & E) & ->)%runs_trigger & H) O.
  unfold confirm_op in E. injection E as -> <- Er. pose proof (ledger_steps_ok _ _ R1 O) as O1.
  apply runs_bind in H as (done_ & d2 & g2 & (db2 & R2 & -> & ->)%runs_trigger & H). destruct r as [b|e].
  - destruct H as (Eb & _ & ->). destruct (_ && _); [|done]. injection Eb as ->. apply ledgerTx_ok in Er as (d3 & T & _).
    exists c', d, d3. split; [by right; left|done].
  - destruct (done_ || final_error e); [by destruct H as [? _]|]. apply (IH _ _ H). by apply (ledger_steps_ok d).
Qed.

Lemma runs_confirmed_write fn accepts id nonce db h a db' h' :
  (∀ c db x db', fn c db = Ok (x, db') → Kept db db') →
  runs (confirmed_write fn accepts id nonce) db h (Ok a) db' h' → LedgerOK db →
  ∃ d, d ∈ h' ∧ LedgerOK d ∧ ((∃ c before d0, fn c d0 = Ok (before, a, d)) ∨ ∃ c c' before d', confirm_read c id nonce (accepts c' before) d = Ok (a, d')).
Proof.
  intros Hk. unfold confirmed_write. rewrite runs_bind. intros ([r seen] & d & g & (db1 & R1 & (f & c & E) & ->)%runs_trigger & H) O.
  pose proof (ledger_steps_ok _ _ R1 O) as O1.
  assert (LedgerOK d) as Od by (apply (lawful_write fn Hk db1 (r, seen) d (ex_intro _ f (ex_intro _ c E)) O1)).
  destruct r as [[before b]|e].
  - destruct H as (Eb & _ & ->). injection Eb as ->. unfold write_op in E. destruct (ledgerTx f (fn c) db1) as [[d1 r'] ch] eqn:Et.
    injection E as <- -> _. destruct (ledgerTx_ok f (fn c) db1 (before, a)) as (d' & T & Ed); [by rewrite Et|]. rewrite Et in Ed. cbn in Ed. subst d'.
    exists d1. split; [by left|]. split; [done|]. left. by exists c, before, db1.
  - destruct seen as [[c1 before]|]; [|by destruct H as [? _]].
    destruct (runs_confirm _ _ _ _ _ _ _ _ _ H Od) as (c2 & d2 & d3 & Hd & O2 & T). exists d2. split; [done|]. split; [done|]. right. by exists c2, c1, before, d3.
Qed.

Lemma runs_claim id nonce db h a db' h' :
  runs (claim_attempt id nonce) db h (Ok a) db' h' → LedgerOK db →
  validPermitID id = true ∧ ∃ d, d ∈ h' ∧ db_attempts d !! id = Some a.
Proof.
  unfold claim_attempt. destruct (negb _ || _) eqn:E; [by intros [? _]|]. apply orb_false_iff in E as [Hi _]. apply negb_false_iff in Hi.
  intros H O. split; [done|].
  destruct (runs_confirmed_write _ _ _ _ _ _ _ _ _ (fun c db x db' T => claim_tx_Kept c id nonce db x db' T) H O) as (d & Hd & _ & Hs). exists d. split; [done|].
  destruct Hs as [(c & before & d0 & T)|(c & c' & before & d' & T)].
  - apply claim_tx_spec in T as (p & Hp & _ & _ & -> & Hr & _). rewrite (pg_uuid_valid _ Hi) in Hp. by injection Hp as <-.
  - apply confirm_read_ok in T as (p & Hp & Ha & _). rewrite (pg_uuid_valid _ Hi) in Hp. by injection Hp as <-.
Qed.

Lemma runs_dispatch id nonce db h a db' h' :
  runs (mark_dispatch id nonce) db h (Ok a) db' h' → LedgerOK db → validPermitID id = true →
  ∃ d, d ∈ h' ∧ db_attempts d !! id = Some a ∧ a_ClaimID a = nonce ∧ is_Some (a_DispatchedAt a) ∧ rs_PermitID (a_Reservation a) = id.
Proof.
  intros H O Hi.
  destruct (runs_confirmed_write _ _ _ _ _ _ _ _ _ (fun c db x db' T => dispatch_tx_Kept c id nonce db x db' T) H O) as (d & Hd & Od & Hs).
  exists d. split; [done|].
  assert (db_attempts d !! id = Some a ∧ a_ClaimID a = nonce ∧ is_Some (a_DispatchedAt a)) as (Ha & Hc & Ht).
  { destruct Hs as [(c & before & d0 & T)|(c & c' & before & d' & T)].
    - apply dispatch_tx_spec in T as (p & Hp & _ & Hc & _ & _ & _ & _ & -> & Hr & _). rewrite (pg_uuid_valid _ Hi) in Hp. by injection Hp as <-.
    - apply confirm_read_ok in T as (p & Hp & Ha & Hc & Hacc). rewrite (pg_uuid_valid _ Hi) in Hp. injection Hp as <-.
      split; [done|]. split; [done|]. unfold dispatch_accepts in Hacc. apply andb_true_iff in Hacc as [_ Hx]. apply bool_decide_eq_true in Hx. by rewrite Hx. }
  split; [done|]. split; [done|]. split; [done|]. by apply (lk_rows _ Od id a Ha).
Qed.

(** ** Interactions *)

Lemma answers_later {A : Type} (e : admission_event A) s a s' : admission_answers e s a s' → later s s'.
Proof.
  intros (Ht & _ & H). destruct e; cbn in H.
  1: { destruct H as [_ H]. destruct (runs_later _ _ _ _ _ _ (calm_store_program c) H). by split. }
  all: assert (same_ledger s s') as [E1 E2] by (exact H || apply H); split; [done|by rewrite E2|by rewrite E1].
Qed.

Lemma safe_do {A R : Type} (e : admission_event A) (f : A → dispatch R) s Q :
  allowed e s →
  (∀ a s', admission_answers e s a s' → later s s' → wd_deeds s' = deeds_after e a (wd_deeds s) → safe (f a) s' Q) →
  safe (trigger e ≫= f) s Q.
Proof. intros Ha H. split; [done|]. intros a s' Hs. apply H; [done|by eapply answers_later|]. apply Hs. Qed.

(** Nothing done, and time went on. *)
Definition frame (s s' : world) : Prop := later s s' ∧ wd_deeds s' = wd_deeds s.
#[export] Instance frame_preorder : PreOrder frame.
Proof. split; [done|]. intros x y z [H1 H2] [K1 K2]. split; [by etrans|congruence]. Qed.

(** An interaction that is no deed. *)
Definition idle {A : Type} (e : admission_event A) : bool :=
  match e with
  | Call c => match c with CallPoolGeneration _ | CallReadRequest _ _ _ _ => true | _ => false end
  | Native _ | Returns | LogRefusal _ _ | LogObserved _ _ => false
  | _ => true
  end.
Lemma safe_idle {A R : Type} (e : admission_event A) (f : A → dispatch R) s Q :
  idle e = true → (∀ a s', admission_answers e s a s' → frame s s' → safe (f a) s' Q) → safe (trigger e ≫= f) s Q.
Proof.
  intros He H. apply safe_do.
  - destruct e; try done. by destruct c.
  - intros a s' Hs L E. apply H; [done|]. split; [done|]. rewrite E. destruct e; try done. by destruct c.
Qed.

Lemma safe_failure a stage cause s :
  de_phase (wd_deeds s) = Outside → safe (failure a stage cause) s (fun _ s' => frame s s').
Proof. intros Hp. unfold failure. destruct (cp_Logger a); [|done]. apply safe_do; [done|]. intros [] s' _ L E. by split. Qed.
Lemma safe_refused {A : Type} a stage cause s :
  de_phase (wd_deeds s) = Outside → safe (refused a stage cause : dispatch (res goerror A)) s (fun r s' => frame s s' ∧ ∃ e, r = Err e).
Proof. intros Hp. apply safe_fmap. eapply safe_mono; [by apply safe_failure|]. intros e s' F. split; [done|]. by exists e. Qed.

(** ** The wait *)

(** The pause ends no earlier than a tenth of a second after the delay was computed. *)
Lemma safe_poll_delay started current s :
  safe (poll_delay started current) s (fun d s' => frame s s' ∧ wd_time s + 100 * Millisecond ≤ wd_time s' + Z.max 0 d).
Proof.
  apply safe_idle; [done|]. intros now s1 (_ & _ & _ & _ & Hn) F1. cbn in Hn.
  set (delay := if 2 * Second <? Sub now started then 500 * Millisecond else 100 * Millisecond).
  assert (100 * Millisecond ≤ delay ≤ 500 * Millisecond) as Hd by (unfold delay, Millisecond; destruct (_ <? _); lia).
  unfold Millisecond in *. destruct (w_NextAttemptAt current) as [next|].
  - apply safe_idle; [done|]. intros now2 s2 (_ & _ & _ & _ & Hn2) F2. cbn in Hn2. destruct (Z.ltb_spec delay (Sub next now2)) as [Hl|_].
    + apply safe_idle; [done|]. intros now3 s3 (_ & _ & _ & _ & Hn3) F3. cbn in Hn3. split; [by do 2 (etrans; [done|])|].
      unfold Sub, sat64, int64_min, int64_max, Second in *. lia.
    + split; [by etrans|]. destruct F1 as [[H1 _ _] _], F2 as [[H2 _ _] _]. lia.
  - split; [done|]. lia.
Qed.

(** How long [n] rounds may be: nothing is said without a deadline. *)
Definition rounds_left (n : nat) (t : Time) : Prop :=
  (0 < n)%nat → ∀ d, limit = Some d → (Z.of_nat n - 1) * (100 * Millisecond) < d + lag - t.

Lemma safe_await_permit n a w started s :
  de_phase (wd_deeds s) = Outside →
  safe (await_permit n a w started) s (fun r s' => frame s s'
    ∧ match r with None => rounds_left n (wd_time s) | Some (Ok permit) => permit ≠ "" | Some (Err _) => True end).
Proof.
  revert s. induction n as [|n IH]; intros s Hp; [by split; [|intros ?; lia]|]. cbn [await_permit].
  assert (∀ stage s1, frame s s1 →
    safe (Some <$> refused a stage None) s1 (fun r s' => frame s s'
      ∧ match r with None => rounds_left (S n) (wd_time s) | Some (Ok permit) => permit ≠ "" | Some (Err _) => True end)) as Href.
  { intros stage s1 F. apply safe_fmap. eapply safe_mono; [by apply safe_refused; rewrite (proj2 F)|]. intros r s' [F' [e ->]]. split; [by etrans|done]. }
  apply safe_idle; [done|]. intros stop s1 (_ & _ & _ & _ & _ & Hlim) F1. destruct stop as [e|]; [by split|].
  apply safe_idle; [done|]. intros [current|e] s2 _ F2; [|by apply Href; etrans].
  apply safe_bind. assert (safe (if bool_decide (is_Some (w_ClosedAt current)) then mret true
      else now ← trigger ReadClock; mret (negb (Before now (w_LiveUntil current)))) s2 (fun _ s' => frame s2 s')) as Hexp.
  { destruct (bool_decide _); [done|]. apply safe_idle; [done|]. by intros now s3 _ F3. }
  eapply safe_mono; [exact Hexp|]. intros expired s3 F3. assert (frame s s3) as F by (do 2 (etrans; [done|]); done).
  destruct expired; [by apply Href|]. apply safe_idle; [done|]. intros [] s4 _ F4. destruct (String.eqb_spec (w_PermitID current) "") as [Ee|Hne]; cbn [negb].
  - apply safe_bind. eapply safe_mono; [apply safe_poll_delay|]. intros delay s5 [F5 Ht]. apply safe_idle; [done|].
    intros stop s6 (_ & _ & _ & Hpause) F6. assert (frame s s6) as F' by (do 3 (etrans; [done|]); done). destruct stop as [e|]; [by split|].
    destruct Hpause as [_ Hpause]. eapply safe_mono; [apply IH; by rewrite (proj2 F')|]. intros r s7 [F7 Hr]. split; [by etrans|].
    destruct r as [[permit|e]|]; try done. intros _ d Hd. specialize (Hlim eq_refl d Hd). unfold Millisecond in *.
    destruct (decide (n = 0%nat)) as [->|Hn]; [lia|]. assert (0 < n)%nat as Hn' by lia. specialize (Hr Hn' d Hd).
    destruct F as [[T1 _ _] _], F4 as [[T2 _ _] _], F1 as [[T0 _ _] _]. unfold Millisecond in *. lia.
  - split; [by etrans|done].
Qed.

(** ** The claim *)

Lemma later_ok s s' : later s s' → LedgerOK (wd_db s) → LedgerOK (wd_db s').
Proof. intros L. apply (lt_ok _ _ L). Qed.

Lemma safe_start_missed a s : safe (start_missed a) s (fun _ s' => frame s s').
Proof.
  apply safe_idle; [done|]. intros [e|] s1 _ F1; [done|]. apply safe_idle; [done|]. intros now s2 _ F2. pose proof (transitivity F1 F2) as F.
  destruct (negb _); [done|]. apply safe_idle; [done|]. intros now' s3 _ F3. exact (transitivity F F3).
Qed.

(** The claim under the waiter's nonce and, when it succeeds, the right to enter. *)
Definition claimed_deeds (w : RequestWaiter) (permit : string) : deeds := MkDeeds Outside (Some w) (Some (permit, w_OwnerID w)) false [].
Definition claim_post (w : RequestWaiter) (permit : string) (r : res goerror Attempt) (s : world) : Prop :=
  LedgerOK (wd_db s) ∧ wd_deeds s = claimed_deeds w permit
  ∧ match r with Ok a => authorized s ∧ rs_PermitID (a_Reservation a) = permit ∧ a_ClaimID a = w_OwnerID w | Err _ => True end.

Lemma safe_claim_refused w permit a stage cause s :
  LedgerOK (wd_db s) → wd_deeds s = claimed_deeds w permit → safe (refused a stage cause) s (claim_post w permit).
Proof.
  intros O E. eapply safe_mono; [apply safe_refused; by rewrite E|]. intros r s' [[L E'] [e ->]].
  split; [by apply (later_ok s)|]. split; [congruence|done].
Qed.

Lemma safe_claim_permit a w permit s :
  LedgerOK (wd_db s) → wd_deeds s = MkDeeds Outside (Some w) None false [] → safe (claim_permit a w permit) s (claim_post w permit).
Proof.
  intros O E. apply safe_do; [by cbn; rewrite E|]. intros r s1 (_ & _ & _ & Hr) L1 E1.
  assert (wd_deeds s1 = claimed_deeds w permit) as D1 by (cbn in E1; by rewrite E1, E). pose proof (later_ok _ _ L1 O) as O1.
  destruct r as [claimed|e]; [|by apply safe_claim_refused]. destruct (claim_matches w claimed) eqn:Em; cbn [negb]; [apply claim_matches_own in Em|by apply safe_claim_refused].
  destruct (runs_claim _ _ _ _ _ _ _ Hr O) as (Hi & d1 & Hd1 & Hrow1).
  apply safe_idle; [done|]. intros [e|] s2 _ F2; pose proof (later_ok _ _ (proj1 F2) O1) as O2; pose proof (eq_trans (proj2 F2) D1) as D2; [done|].
  apply safe_do; [done|]. intros r s3 (_ & _ & _ & Hr3) L3 E3. cbn in E3. pose proof (eq_trans E3 D2) as D3. pose proof (later_ok _ _ L3 O2) as O3.
  destruct r as [marked|e]; [|by apply safe_claim_refused].
  destruct (runs_dispatch _ _ _ _ _ _ _ Hr3 O2 Hi) as (d2 & Hd2 & Hrow2 & Hc2 & Ht2 & Hid2).
  apply safe_bind. eapply safe_mono; [apply safe_start_missed|]. intros missed s4 F4. pose proof (later_ok _ _ (proj1 F4) O3) as O4.
  pose proof (eq_trans (proj2 F4) D3) as D4. destruct missed.
  - apply safe_idle; [done|]. intros stop s5 _ F5. split; [by apply (later_ok s4), O4; apply F5|]. split; [|done]. exact (eq_trans (proj2 F5) D4).
  - split; [done|]. split; [done|]. split; [|done]. exists w, permit, claimed, marked, d1, d2. rewrite D4. split_and!; try done.
    + apply (lt_seen _ _ (proj1 F4)), (lt_seen _ _ L3), (lt_seen _ _ (proj1 F2)), Hd1.
    + apply (lt_seen _ _ (proj1 F4)), Hd2.
Qed.

Definition admit_post (n : nat) (s0 : world) (w : RequestWaiter) (r : option (string * res goerror Attempt)) (s : world) : Prop :=
  match r with
  | None => rounds_left n (wd_time s0)
  | Some (permit, r) =>
      if String.eqb permit "" then LedgerOK (wd_db s) ∧ wd_deeds s = MkDeeds Outside (Some w) None false [] ∧ ∃ e, r = Err e
      else claim_post w permit r s
  end.

Lemma safe_admit n a w s :
  LedgerOK (wd_db s) → wd_deeds s = no_deeds → safe (begin_admission n a w) s (admit_post n s w).
Proof.
  intros O E. unfold begin_admission. apply safe_idle; [done|]. intros [] s1 _ F1. apply safe_do; [done|]. intros queued s2 _ L2 E2.
  assert (wd_deeds s2 = MkDeeds Outside (Some w) None false []) as D2 by (cbn in E2; by rewrite E2, (proj2 F1), E).
  pose proof (later_ok _ _ L2 (later_ok _ _ (proj1 F1) O)) as O2.
  assert (∀ stage s3, frame s2 s3 → safe (r ← refused a stage None; mret (Some ("", r))) s3 (admit_post n s w)) as Href.
  { intros stage s3 F3. apply safe_bind. eapply safe_mono; [by apply safe_refused; rewrite (proj2 F3), D2|]. intros r s4 [F4 He].
    pose proof (transitivity F3 F4) as F. cbn. split; [by apply (later_ok s2), O2; apply F|]. split; [exact (eq_trans (proj2 F) D2)|done]. }
  destruct queued as [q|e]; [|by apply Href]. apply safe_idle; [done|]. intros woken s3 _ F3. destruct woken; cbn [negb]; [|by apply Href].
  apply safe_idle; [done|]. intros started s4 _ F4. pose proof (transitivity F3 F4) as F. apply safe_bind.
  eapply safe_mono; [apply safe_await_permit; by rewrite (proj2 F), D2|]. intros waited s5 [F5 Hw]. pose proof (transitivity F F5) as F'.
  pose proof (later_ok _ _ (proj1 F') O2) as O5. pose proof (eq_trans (proj2 F') D2) as D5. destruct waited as [[permit|e]|].
  - apply safe_bind. eapply safe_mono; [by apply safe_claim_permit|]. intros r s6 Hc. cbn. destruct (String.eqb_spec permit ""); [done|done].
  - cbn. by eauto.
  - intros Hn d Hd. specialize (Hw Hn d Hd). pose proof (lt_time _ _ (proj1 F)). pose proof (lt_time _ _ L2). pose proof (lt_time _ _ (proj1 F1)). lia.
Qed.

(** ** Settlement *)

(** What was claimed is settled, once, with the truth; a request that has not claimed
    is cancelled. *)
Definition accounted (d : deeds) : Prop :=
  match de_claim d with
  | Some (id, nonce) => ∃ o, de_settled d = [(id, nonce, o)] ∧ truthful o (de_phase d)
  | None => de_phase d = Outside ∧ de_settled d = [] ∧ (is_Some (de_waiter d) → de_cancelled d = true)
  end.

Lemma safe_settle_permit a permit claim o s :
  de_claim (wd_deeds s) = Some (permit, claim) → de_settled (wd_deeds s) = [] → truthful o (de_phase (wd_deeds s)) →
  safe (settle_permit a permit claim o) s (fun _ s' => later s s' ∧ wd_deeds s' = (wd_deeds s) <| de_settled := [(permit, claim, o)] |>).
Proof.
  intros Hc He Ht. apply safe_do; [done|]. intros r s1 _ L1 E1. cbn in E1. apply safe_do; [by cbn; rewrite E1|]. intros settled s2 _ L2 E2.
  assert (wd_deeds s2 = (wd_deeds s) <| de_settled := [(permit, claim, o)] |>) as D2.
  { rewrite E2, E1. destruct (wd_deeds s) as [ph w c k l]. cbn in *. by rewrite He. }
  pose proof (transitivity L1 L2) as L. destruct settled as [x|e]; [|done]. apply safe_idle; [done|]. intros [] s3 _ F3.
  split; [exact (transitivity L (proj1 F3))|]. exact (eq_trans (proj2 F3) D2).
Qed.

Lemma never_sent_truthful now : truthful (never_sent now) Outside.
Proof. by split. Qed.

Lemma safe_abandon a w permit err s :
  wd_deeds s = (if String.eqb permit "" then MkDeeds Outside (Some w) None false [] else claimed_deeds w permit) →
  safe (abandon a w permit err) s (fun _ s' => accounted (wd_deeds s')).
Proof.
  intros E. apply safe_do; [cbn; rewrite E; by destruct (String.eqb _ _)|]. intros r s1 _ L1 E1. cbn in E1. rewrite E in E1.
  destruct (String.eqb permit "").
  - apply safe_bind. apply safe_idle; [done|]. intros stop s2 _ F2. cbn. rewrite (proj2 F2), E1. by cbn.
  - apply safe_bind. apply safe_idle; [done|]. intros now s2 _ F2. apply safe_do; [cbn; by rewrite (proj2 F2), E1|].
    intros stopped s3 _ L3 E3. cbn in E3. rewrite (proj2 F2), E1 in E3. eapply safe_mono; [apply safe_settle_permit; by rewrite E3|].
    intros confirmed s4 [_ E4]. apply safe_idle; [done|]. intros stop s5 _ F5. cbn. rewrite (proj2 F5), E4, E3. by exists (never_sent now).
Qed.

(** ** The start of a dispatch *)

Definition begin_post (n : nat) (s0 : world) (r : option (res goerror Attempt)) (s : world) : Prop :=
  match r with
  | None => rounds_left n (wd_time s0)
  | Some (Err _) => accounted (wd_deeds s)
  | Some (Ok a) => ∃ w, wd_deeds s = claimed_deeds w (rs_PermitID (a_Reservation a)) ∧ a_ClaimID a = w_OwnerID w ∧ authorized s
  end.

Lemma safe_begin n a scope execution s :
  LedgerOK (wd_db s) → wd_deeds s = no_deeds → safe (begin_ n a scope execution) s (begin_post n s).
Proof.
  intros O E. assert (∀ s', frame s s' → accounted (wd_deeds s')) as Hacc by (intros s' F; rewrite (proj2 F), E; split; [done|]; split; [done|]; by intros []).
  assert (∀ stage s', frame s s' → safe (Some <$> refused a stage None) s' (begin_post n s)) as Href.
  { intros stage s1 F. apply safe_fmap. eapply safe_mono; [apply safe_refused; by rewrite (proj2 F), E|]. intros r s2 [F2 [e ->]].
    exact (Hacc _ (transitivity F F2)). }
  apply safe_idle; [done|]. intros [e|] s1 _ F1; [by apply (Hacc s1)|].
  apply safe_idle; [done|]. intros deadline s2 _ F2. pose proof (transitivity F1 F2) as F.
  destruct deadline as [deadline|], (validScope scope), execution as [execution|]; try (by apply (Hacc s2)).
  apply safe_idle; [done|]. intros [marker|e] s3 _ F3; pose proof (transitivity F F3) as G; [|by apply Href]. destruct (_ || _); [by apply Href|].
  apply safe_idle; [done|]. intros request s4 _ F4. apply safe_idle; [done|]. intros owner s5 _ F5. apply safe_idle; [done|]. intros ordinal s6 _ F6.
  apply safe_idle; [done|]. intros now s7 _ F7. assert (frame s s7) as G7 by (do 4 (etrans; [done|]); done). apply safe_bind.
  eapply safe_mono; [apply safe_admit; [by apply (later_ok s), O; apply G7|exact (eq_trans (proj2 G7) E)]|]. intros [[permit r]|] s8 Hp.
  - unfold admit_post in Hp. destruct (String.eqb permit "") eqn:Ep.
    + destruct Hp as (O8 & D8 & e & ->). apply safe_bind. eapply safe_mono; [apply safe_abandon; by rewrite Ep|]. done.
    + destruct Hp as (O8 & D8 & Hr). destruct r as [at_|e].
      * destruct Hr as (Ha & Hid & Hc). eexists. rewrite Hid. done.
      * apply safe_bind. eapply safe_mono; [apply safe_abandon; rewrite Ep; exact D8|]. done.
  - intros Hn d Hd. specialize (Hp Hn d Hd). pose proof (lt_time _ _ (proj1 G7)). lia.
Qed.

(** ** The dispatch *)

(** Whatever the clock says, the final observation is true. *)
Definition dispatched_true (d : Dispatched) (ph : phase) : Prop :=
  ∀ a queued started now duration, truthful (final_observation a queued started now duration d) ph.

Lemma final_kind a queued started now duration d :
  out_Kind (ob_Outcome (final_observation a queued started now duration d))
  = if ds_panicked d then "unconfirmed" else out_Kind (ob_Outcome (ds_observation d)).
Proof. unfold final_observation. destruct (ds_panicked d), (ds_nativeEntered d), (ds_finished d) as [[]|]; done. Qed.

Lemma observed_returned r err : returned_kind (out_Kind (ObserveProviderDispatch r err).1).
Proof.
  unfold ObserveProviderDispatch, copy_usage. destruct err as [err|]; [|by destruct (String.eqb _ _)].
  match goal with |- context [classifyGenerationError err ?c] => pose proof (classify_returned err c) as Hk; destruct (classifyGenerationError err c) as [[kind problem] delay] end.
  destruct (classifyAttemptError err) as [[base x] y]. cbn in Hk. destruct (isCanceled err || isDeadline err || _); cbn; [done|].
  by destruct (String.eqb kind "unconfirmed").
Qed.
Lemma returned_dispatch_kind a finished r err : returned_kind (out_Kind (returned_dispatch a finished r err).1).
Proof.
  unfold returned_dispatch. pose proof (observed_returned r err) as H. destruct (ObserveProviderDispatch r err) as [out [e|]]; cbn in H; [by destruct (a_GenerationDeadline a)|].
  destruct (a_GenerationDeadline a); [|done]. by destruct (After _ _).
Qed.

Definition body_post (s0 : world) (x : Dispatched * ProviderResult * option dispatch_error) (s : world) : Prop :=
  let '(d, _, err) := x in
  ∃ ph, later s0 s ∧ wd_deeds s = (wd_deeds s0) <| de_phase := ph |> ∧ dispatched_true d ph ∧ (err = None → ph = Left_).

Lemma safe_dispatch_body a started p adm s :
  de_phase (wd_deeds s) = Outside → de_cancelled (wd_deeds s) = false → authorized s →
  safe (dispatch_body a started p adm) s (body_post s).
Proof.
  intros Hp Hc Ha. unfold dispatch_body. apply safe_idle; [done|]. intros stop s1 (_ & _ & _ & Hdone & _) F1. destruct stop as [e|].
  - apply safe_idle; [done|]. intros again s2 (_ & _ & _ & _ & Hst & _) F2. rewrite (Hst _ Hdone). exists Outside.
    pose proof (transitivity F1 F2) as F. split; [apply F|]. split; [|split; [|done]].
    + rewrite (proj2 F). destruct (wd_deeds s). cbn in *. subst. done.
    + intros at_ queued st now duration. split; rewrite ?final_kind; done.
  - apply safe_idle; [done|]. intros [] s2 _ F2. pose proof (transitivity F1 F2) as F. apply safe_do.
    { cbn. rewrite (proj2 F). split; [done|]. split; [done|]. apply (authorized_later s); [apply F|apply F|done]. }
    intros [] s3 _ L3 E3. cbn in E3. rewrite (proj2 F) in E3. apply safe_do; [done|]. intros x s4 _ L4 E4. cbn in E4. rewrite E3 in E4. cbn in E4.
    assert (later s s4) as L by (etrans; [apply F|]; by etrans). destruct x as [|r err].
    + exists Inside. split; [done|]. split; [done|]. split; [|done]. intros at_ queued st now duration. split; rewrite ?final_kind; done.
    + apply safe_idle; [done|]. intros later_ s5 _ F5. apply safe_idle; [done|]. intros finished s6 _ F6. pose proof (transitivity F5 F6) as G.
      pose proof (returned_dispatch_kind a finished r err) as Hk. destruct (returned_dispatch a finished r err) as [out err'].
      exists Left_. split; [exact (transitivity L (proj1 G))|]. split; [rewrite (proj2 G), E4; by destruct (wd_deeds s)|].
      split; [|done]. intros at_ queued st now duration. split; rewrite ?final_kind; done.
Qed.

Lemma safe_finish_dispatch adm a queued started d s :
  de_claim (wd_deeds s) = Some (rs_PermitID (a_Reservation a), a_ClaimID a) → de_settled (wd_deeds s) = [] →
  dispatched_true d (de_phase (wd_deeds s)) →
  safe (finish_dispatch adm a queued started d) s (fun _ s' => accounted (wd_deeds s') ∧ de_phase (wd_deeds s') = de_phase (wd_deeds s)).
Proof.
  intros Hc He Ht. apply safe_idle; [done|]. intros now s1 _ F1. apply safe_bind.
  assert (safe (match ds_finished d with Some (_, duration) => mret duration
    | None => if ds_nativeEntered d then later ← trigger ReadClock; mret (Sub later started) else mret 0 end) s1 (fun _ s' => frame s1 s')) as Hdur.
  { destruct (ds_finished d) as [[]|]; [done|]. destruct (ds_nativeEntered d); [|done]. apply safe_idle; [done|]. by intros later_ s2 _ F2. }
  eapply safe_mono; [exact Hdur|]. intros duration s2 F2. pose proof (transitivity F1 F2) as F. pose proof (Ht a queued started now duration) as To.
  set (o := final_observation a queued started now duration d) in *. apply safe_bind.
  assert (safe (if ob_LocalStopped o then _ ← trigger (Call (CallMarkLocalStop (rs_PermitID (a_Reservation a)) (a_ClaimID a) now)); mret tt else mret tt) s2
    (fun _ s' => later s2 s' ∧ wd_deeds s' = wd_deeds s2)) as Hstop.
  { destruct (ob_LocalStopped o) eqn:El; [|done]. apply safe_do; [cbn; rewrite (proj2 F); split; [done|by apply (tr_stopped _ _ To)]|].
    intros r s3 _ L3 E3. by split. }
  eapply safe_mono; [exact Hstop|]. intros [] s3 [L3 E3]. rewrite (proj2 F) in E3. apply safe_bind.
  eapply safe_mono; [apply safe_settle_permit; by rewrite E3|]. intros confirmed s4 [L4 E4].
  assert (accounted (wd_deeds s4) ∧ de_phase (wd_deeds s4) = de_phase (wd_deeds s)) as Hacc.
  { rewrite E4, E3. unfold accounted. destruct (wd_deeds s). cbn in *. rewrite Hc. split; [by exists o|done]. }
  destruct (cp_Logger adm); [|done]. split; [cbn; by rewrite (proj2 Hacc)|]. intros [] s5 (_ & E5 & _). cbn in E5 |- *. by rewrite E5.
Qed.

(** What holds at the end. *)
Definition ended_well (n : nat) (s0 : world) (r : dispatched_call) (s : world) : Prop :=
  match r with
  | CallReturned _ err => accounted (wd_deeds s) ∧ (err = None → de_phase (wd_deeds s) = Left_)
  | CallPanicked => False
  | OutOfRounds => rounds_left n (wd_time s0)
  end.

Lemma safe_Execute n adm scope execution p original s :
  LedgerOK (wd_db s) → wd_deeds s = no_deeds → ao_wrapped p = Some original →
  safe (admission_Execute n adm scope execution p) s (ended_well n s).
Proof.
  intros O E Ew. unfold admission_Execute. rewrite Ew. apply safe_idle; [done|]. intros waiting s1 _ F1. apply safe_bind.
  eapply safe_mono; [apply safe_begin; [by apply (later_ok s), O; apply F1|exact (eq_trans (proj2 F1) E)]|]. intros [[a|e]|] s2 Hb.
  - destruct Hb as (w & D2 & Hc & Ha). apply safe_idle; [done|]. intros now s3 _ F3. apply safe_idle; [done|]. intros started s4 _ F4.
    pose proof (transitivity F3 F4) as F. pose proof (eq_trans (proj2 F) D2) as D4. apply safe_bind.
    eapply safe_mono; [apply safe_dispatch_body; [by rewrite D4|by rewrite D4|by apply (authorized_later s2); [apply F|apply F|]]|].
    intros [[d r] err] s5 (ph & L5 & D5 & Hd & Herr). rewrite D4 in D5. apply safe_bind.
    eapply safe_mono; [apply safe_finish_dispatch; rewrite D5; cbn; [by rewrite Hc|done|done]|]. intros [] s6 [Hacc Hph].
    split; [done|]. intros H. rewrite Hph, D5. by apply Herr.
  - done.
  - intros Hn d Hd. specialize (Hb Hn d Hd). pose proof (lt_time _ _ (proj1 F1)). lia.
Qed.

Definition start_world (db : DB) (t : Time) : world := MkWorld db [] t None no_deeds.

Lemma safe_from_start n adm scope execution p original db0 db t q s :
  fresh_ledger db0 → rtc ledger_step db0 db → ao_wrapped p = Some original →
  rtc dispatch_step (admission_Execute n adm scope execution p, start_world db t) (q, s) → safe q s (ended_well n (start_world db t)).
Proof.
  intros F R Ew Rd. refine (safe_reach _ _ _ Rd _). apply (safe_Execute _ _ _ _ _ original); [|done..].
  by apply (ledger_steps_ok db0), fresh_ok.
Qed.

(** C17: An ordinary dispatch through the pool, whatever other transactions come in
    between, wherever it is observed and however its calls fail.  It enters the
    provider only from outside, at most once, with its request not cancelled, and
    after the ledger showed both the claim of an ordinary attempt of the request it
    queued (with the request's identifier, pool, generation, scope, owner, budget and
    deadline) and the dispatch intent under its own nonce; it stages, settles and logs only what is true of the provider at that
    moment, only for the permit it claimed under that nonce, and says that it stopped
    only when it is not executing there.  When it has returned, a permit that it tried
    to claim has been put to settlement exactly once, a request without one has been
    cancelled, and a result without an error came from a provider that returned. *)
Theorem ordinary_dispatch_accounted n adm scope execution p original db0 db t q s :
  fresh_ledger db0 → rtc ledger_step db0 db → ao_wrapped p = Some original →
  rtc dispatch_step (admission_Execute n adm scope execution p, start_world db t) (q, s) →
  (∀ A (e : admission_event A) k, q = Do e k → allowed e s)
  ∧ (∀ r err, q = Ret (CallReturned r err) → accounted (wd_deeds s) ∧ (err = None → de_phase (wd_deeds s) = Left_))
  ∧ q ≠ Ret CallPanicked.
Proof.
  intros F R Ew Rd. pose proof (safe_from_start _ _ _ _ _ _ _ _ _ _ _ F R Ew Rd) as Hs. split; [|split].
  - intros A e k ->. apply Hs.
  - intros r err ->. exact Hs.
  - by intros ->.
Qed.

Lemma dispatch_step_cont {R : Type} (c c' : dispatch R * world) :
  dispatch_step c c' → match c.1 with Ret _ => False | Do e k => ∃ a, c'.1 = k a end.
Proof. intros [A e k a s s' _]. by exists a. Qed.
Lemma dispatch_finite {R : Type} (p : dispatch R) s : Acc (flip dispatch_step) (p, s).
Proof.
  revert s. induction p as [r|A e k IH]; intros s; constructor; intros [q s'] St%dispatch_step_cont; cbn in St; [done|].
  destruct St as [a ->]. apply IH.
Qed.

(** C18: The wait for a permit ends.  Under a context with a deadline, whose timer
    fires at most [lag] late, no dispatch goes on for ever, and one that may poll once
    for every tenth of a second up to the deadline, and once more, does not run out of
    rounds: it returns. *)
Theorem admission_wait_ends d n adm scope execution p original db0 db t :
  fresh_ledger db0 → rtc ledger_step db0 db → ao_wrapped p = Some original → limit = Some d →
  d + lag - t ≤ (Z.of_nat n - 1) * (100 * Millisecond) → (0 < n)%nat →
  Acc (flip dispatch_step) (admission_Execute n adm scope execution p, start_world db t)
  ∧ ∀ q s, rtc dispatch_step (admission_Execute n adm scope execution p, start_world db t) (q, s) → q ≠ Ret OutOfRounds.
Proof.
  intros F R Ew Hd Hn Hp. split; [apply dispatch_finite|]. intros q s Rd ->.
  pose proof (safe_from_start _ _ _ _ _ _ _ _ _ _ _ F R Ew Rd Hp d Hd) as H. cbn in H. lia.
Qed.
End World.

(** ** A run *)

(** The pool grants a permit before the dispatch reads its request; everything is
    answered at once, and nothing fails. *)
Definition demo_admission : CPAAdmission := MkAdmission true true "pool" "https://cpa" true.
Definition demo_prepared : PreparedOperation :=
  MkPrepared (MkOperation OperationSchemaVersion "" "chat" (MkEndpoint "cpa" "POST" "/v1/responses") "model" JNull [] (MkProjection "cpa" "responses" "1")) JNull.
Definition demo_operation : AdmissionOperation := MkAdmissionOperation demo_prepared (Some demo_prepared).
Definition demo_limit : option Time := Some (30 * Second).
Definition demo_grant (w : RequestWaiter) : Reservation :=
  MkReservation "permit" "pool" 2 1 (MkRef (w_Scope w) "" 0) (w_RequestID w) "ordinary" "workflow" Second (10 * Second) (w_Deadline w) (w_BudgetMS w) 1 1 1 false.
Definition demo_pool2 : DB := (EnsurePool Committed "pool" 2 demo_ledger0).1.

(** A program of the ledger, alone. *)
Fixpoint drive_store {R : Type} (t : Time) (p : activity R) (db : DB) (h : list DB) : R * DB * list DB :=
  match p with
  | Ret r => (r, db, h)
  | Do e k => let '(db', a) := demo_answer t e db in drive_store t (k a) db' (db' :: h)
  end.
Lemma drive_store_runs {R : Type} t (p : activity R) db h : runs p db h (drive_store t p db h).1.1 (drive_store t p db h).1.2 (drive_store t p db h).2.
Proof.
  revert db h. induction p as [r|A e k IH]; intros db h; [done|]. cbn. pose proof (demo_answers t e db) as Ha.
  destruct (demo_answer t e db) as [db' a]. exists db, a, db'. split; [apply rtc_refl|]. split; [done|]. apply IH.
Qed.

Definition grants {A : Type} (c : store_call A) (s : world) : DB :=
  match c, de_waiter (wd_deeds s) with
  | CallReadRequest _ _ _ _, Some w => (ReserveAttempt Committed (demo_clock (wd_time s)) false (demo_grant w) (wd_db s)).1
  | _, _ => wd_db s
  end.
Lemma grants_steps {A : Type} (c : store_call A) s : rtc ledger_step (wd_db s) (grants c s).
Proof. unfold grants. destruct c; try apply rtc_refl. destruct (de_waiter _); [apply rtc_once, st_reserve|apply rtc_refl]. Qed.

Definition demo_native : ProviderResult := no_provider_result <| pr_AssistantText := "answer" |>.
Definition demo_admission_answer {A : Type} (e : admission_event A) (s : world) : A * DB * list DB :=
  match e in admission_event A return A * DB * list DB with
  | Call c => drive_store (wd_time s) (store_program c) (grants c s) (wd_seen s)
  | ReadClock => (wd_time s, wd_db s, wd_seen s)
  | ContextErr => (wd_done s, wd_db s, wd_seen s)
  | ContextDeadline => (demo_limit, wd_db s, wd_seen s)
  | Pause _ => (Some (default EDeadlineExceeded (wd_done s)), wd_db s, wd_seen s)
  | NewUUID => ("uuid", wd_db s, wd_seen s)
  | NextOrdinal => (1, wd_db s, wd_seen s)
  | SendWake _ => (true, wd_db s, wd_seen s)
  | SendChanged _ _ => (tt, wd_db s, wd_seen s)
  | Track _ _ => (tt, wd_db s, wd_seen s)
  | LogRefusal _ _ => (tt, wd_db s, wd_seen s)
  | LogObserved _ _ => (tt, wd_db s, wd_seen s)
  | Native _ => (tt, wd_db s, wd_seen s)
  | Returns => (NativeReturned demo_native None, wd_db s, wd_seen s)
  end.

Lemma runs_after {R : Type} (p : activity R) db db1 h r db' h' :
  rtc ledger_step db db1 → (∀ x, p ≠ Ret x) → runs p db1 h r db' h' → runs p db h r db' h'.
Proof.
  destruct p as [x|A e k]; [by intros _ H; destruct (H x)|]. intros R1 _ (d & a & d' & R2 & Ha & H). exists d, a, d'.
  split; [by etrans|done].
Qed.

Definition demo_time : Time := 2 * Second.
Definition demo_move {A : Type} (e : admission_event A) (s : world) : A * world :=
  let '(a, db, h) := demo_admission_answer e s in
  (a, MkWorld db h demo_time (match e in admission_event A return A → option goerror with Pause _ => fun x => x | _ => fun _ => wd_done s end a)
              (deeds_after e a (wd_deeds s))).
Lemma demo_move_answers {A : Type} (e : admission_event A) s :
  wd_time s = demo_time → admission_answers demo_limit 0 e s (demo_move e s).1 (demo_move e s).2.
Proof.
  intros Ht. unfold demo_move. destruct (demo_admission_answer e s) as [[a db] h] eqn:E. split; [by cbn; rewrite Ht|]. split; [done|].
  destruct e; cbn in E |- *; try (injection E as <- <- <-); try done.
  - split; [done|]. pose proof (drive_store_runs (wd_time s) (store_program c) (grants c s) (wd_seen s)) as Hr. rewrite E in Hr. cbn in Hr.
    destruct c; try exact Hr. eapply runs_after; [apply (grants_steps (CallReadRequest scope id owner refresh))|done|exact Hr].
  - split; [done|]. split; [done|]. rewrite Ht. done.
  - split; [done|]. split; [done|]. split; [done|]. intros _ d [= <-]. rewrite Ht. done.
  - split; [done|]. split; [done|]. by intros e' ->.
Qed.

Fixpoint demo_dispatch {R : Type} (n : nat) (p : dispatch R) (s : world) : dispatch R * world :=
  match n, p with
  | S n, Do e k => let '(a, s') := demo_move e s in demo_dispatch n (k a) s'
  | _, _ => (p, s)
  end.
Lemma demo_dispatch_run {R : Type} n (p : dispatch R) s :
  wd_time s = demo_time → rtc (dispatch_step demo_limit 0) (p, s) (demo_dispatch n p s).
Proof.
  revert p s. induction n as [|n IH]; intros [r|A e k] s Ht; try apply rtc_refl. cbn. pose proof (demo_move_answers e s Ht) as Ha.
  assert (wd_time (demo_move e s).2 = demo_time) as Ht' by (unfold demo_move; by destruct (demo_admission_answer e s) as [[]]).
  destruct (demo_move e s) as [a s']. eapply rtc_l; [by apply dispatch_interacts|]. by apply IH.
Qed.

Definition demo_program : dispatch dispatched_call := admission_Execute 300 demo_admission demo_scope (Some "execution") demo_operation.
Definition demo_begun : world := start_world demo_pool2 demo_time.
Definition demo_finished : dispatch dispatched_call * world := demo_dispatch 60 demo_program demo_begun.
Lemma demo_finished_run : rtc (dispatch_step demo_limit 0) (demo_program, demo_begun) demo_finished.
Proof. by apply demo_dispatch_run. Qed.
Lemma demo_pool2_run : rtc ledger_step demo_ledger0 demo_pool2.
Proof. apply rtc_once, st_ensure. Qed.

Definition returned_text (p : dispatch dispatched_call) : option string :=
  match p with Ret (CallReturned r None) => Some (pr_AssistantText r) | _ => None end.

Lemma ordinary_dispatch_accounted_witness :
  returned_text demo_finished.1 = Some "answer" ∧ accounted (wd_deeds demo_finished.2) ∧ de_phase (wd_deeds demo_finished.2) = Left_
  ∧ length (de_settled (wd_deeds demo_finished.2)) = 1%nat.
Proof.
  assert (returned_text demo_finished.1 = Some "answer") as E by (vm_compute; reflexivity).
  assert (length (de_settled (wd_deeds demo_finished.2)) = 1%nat) as El by (vm_compute; reflexivity).
  pose proof (ordinary_dispatch_accounted demo_limit 0 300 demo_admission demo_scope (Some "execution") demo_operation demo_prepared demo_ledger0 demo_pool2
    demo_time demo_finished.1 demo_finished.2 demo_fresh demo_pool2_run eq_refl) as H.
  assert (rtc (dispatch_step demo_limit 0) (demo_program, demo_begun) (demo_finished.1, demo_finished.2)) as R
    by (rewrite <- surjective_pairing; exact demo_finished_run).
  specialize (H R). clear R. revert E El H. generalize demo_finished as c. intros [q s] E El (_ & H & _). cbn [fst snd] in *.
  destruct q as [[r [err|]| |]|A e k]; try discriminate E. destruct (H r None eq_refl) as [H1 H2].
  split; [exact E|]. split; [exact H1|]. split; [exact (H2 eq_refl)|exact El].
Defined.

Lemma admission_wait_ends_witness :
  Acc (flip (dispatch_step demo_limit 0)) (demo_program, demo_begun)
  ∧ ∀ q s, rtc (dispatch_step demo_limit 0) (demo_program, demo_begun) (q, s) → q ≠ Ret OutOfRounds.
Proof.
  apply (admission_wait_ends demo_limit 0 (30 * Second) 300 demo_admission demo_scope (Some "execution") demo_operation demo_prepared demo_ledger0 demo_pool2
    demo_time demo_fresh demo_pool2_run eq_refl eq_refl); [vm_compute; discriminate|lia].
Defined.
