(* ===== verification/RequestTracking.v ===== *)
(** * RequestTracking: the status of a request that is running

    Models [src/stateful]: request_tracking.go (the record and its view),
    request_tracking_session.go (the session that projects what happens),
    request_tracking_store.go (the table: reservation, update, lookup),
    request_tracking_observer.go and dispatch_tracking.go (what the runtime tells the
    session), and [src/internal/gateway/httpapi/request_tracking.go] (how a handler
    ends a session).

    A method of the session is a function of the session and of the clock it reads.
    The table is a map from scope and identifier to rows; a row holds what PostgreSQL
    keeps of a record, times to the microsecond.  The function that [Wait] returns is
    an operation of its own, [EndWait], with the epoch that it captured.  The migration
    of the schema is not modelled. *)
From stdpp Require Import gmap pretty sorting.
From S2P Require Import Prelude Json Retry BatchController BatchPool Ledger AttemptFlow.

Open Scope string_scope.
Open Scope list_scope.
Open Scope Z_scope.

(** ** Records *)

Record TrackingRecord := MkTracking {
  tk_ID : string;
  tk_Endpoint : string;
  tk_Status : string;
  tk_Stage : option string;
  tk_Reason : option string;
  tk_CreatedAt : Time;
  tk_DeadlineAt : Time;
  tk_RetentionExpiresAt : Time;
  tk_UpdatedAt : Time;
  tk_LastWorkerHeartbeatAt : Time;
  tk_LastProgressAt : option Time;
  tk_FinishedAt : option Time;
  tk_NextAttemptAt : option Time;
  tk_AttemptsUsed : Z;
  tk_OutcomeConfirmed : option bool;
  tk_ErrorCode : option string;
  tk_OwnerID : string;
  tk_Revision : Z;
}.
#[export] Instance tracking_eq_dec : EqDecision TrackingRecord.
Proof. solve_decision. Defined.

(** The members of [RequestStatus] that only a view has. *)
Record RequestStatus := MkRequestStatus {
  rq_record : TrackingRecord;
  rq_ObservedAt : Time;
  rq_ElapsedMS : Z;
  rq_RetryAfterMS : option Z;
  rq_ObservationStale : bool;
}.

Inductive tracking_error : Type := ErrTrackingConflict | ErrTrackingNotFound | ErrTrackingUnavailable.

Definition Observe (r : TrackingRecord) (now : Time) : RequestStatus :=
  let finish := default now (tk_FinishedAt r) in
  let elapsed := Z.max (Milliseconds (Sub finish (tk_CreatedAt r))) 0 in
  let retry := (fun next => Z.max (Milliseconds (Sub next now)) 0) <$> tk_NextAttemptAt r in
  let running := negb (bool_decide (is_Some (tk_FinishedAt r))) in
  let stale := running && (15 * Second <? Sub now (tk_LastWorkerHeartbeatAt r)) in
  if running && After now (Add (tk_DeadlineAt r) (30 * Second)) then
    MkRequestStatus (r <| tk_Status := "unconfirmed" |> <| tk_Reason := Some "execution_unobserved" |> <| tk_OutcomeConfirmed := Some false |>
                       <| tk_NextAttemptAt := None |>) now elapsed None stale
  else MkRequestStatus r now elapsed retry stale.

Section Tracking.
Context `{PoolEnv}.

(** A canonical UUID that is not nil. *)
Definition ValidTrackingID (value : string) : bool := validPermitID value && (slen value =? 36).

Definition endpoints : list string := ["/v1/responses"; "/v1/chat/completions"].

(** [owner] is a new UUID, or none when there was no entropy. *)
Definition NewTrackingRecord (owner : option string) (id endpoint : string) (now deadline : Time) : res tracking_error TrackingRecord :=
  if negb (ValidTrackingID id) || negb (str_in endpoint endpoints) || negb (After deadline now) then Err ErrTrackingUnavailable
  else match owner with
       | None => Err ErrTrackingUnavailable
       | Some owner =>
           Ok {| tk_ID := id; tk_Endpoint := endpoint; tk_Status := "running"; tk_Stage := Some "preparing"; tk_Reason := None;
                 tk_CreatedAt := now; tk_DeadlineAt := deadline; tk_RetentionExpiresAt := Add deadline (24 * Hour); tk_UpdatedAt := now;
                 tk_LastWorkerHeartbeatAt := now; tk_LastProgressAt := None; tk_FinishedAt := None; tk_NextAttemptAt := None;
                 tk_AttemptsUsed := 0; tk_OutcomeConfirmed := None; tk_ErrorCode := None; tk_OwnerID := owner; tk_Revision := 1 |}
       end.
End Tracking.

(** ** Sessions *)

Definition u64 (z : Z) : Z := z mod 2 ^ 64.

Record TrackingSession := MkSession {
  ss_record : TrackingRecord;
  ss_epoch : Z;
  ss_sequence : Z;
  ss_received : Z;
  ss_events : Z;
  ss_providerEntered : bool;
}.

Definition NewTrackingSession (r : TrackingRecord) : TrackingSession := MkSession r 0 0 0 0 false.

Definition trackingTime (now previous : Time) : Time := if Before now previous then previous else now.

(** [changed], after an update of the record. *)
Definition changed (now : Time) (s : TrackingSession) : TrackingSession :=
  let now := trackingTime now (tk_UpdatedAt (ss_record s)) in
  s <| ss_record ::= fun r => r <| tk_UpdatedAt := now |> <| tk_LastProgressAt := Some now |> <| tk_Revision ::= fun n => wrap64 (n + 1) |> |>.

Definition finished (s : TrackingSession) : bool := bool_decide (is_Some (tk_FinishedAt (ss_record s))).
Definition next_epoch (s : TrackingSession) : TrackingSession := s <| ss_epoch ::= fun e => u64 (e + 1) |>.

Definition phases : list string := ["preparing"; "provider_attempt"; "validation"; "response_projection"].
Definition running_at (stage : string) (r : TrackingRecord) : TrackingRecord :=
  r <| tk_Status := "running" |> <| tk_Stage := Some stage |> <| tk_Reason := None |> <| tk_NextAttemptAt := None |>.

Definition Phase (stage : string) (now : Time) (s : TrackingSession) : TrackingSession :=
  if finished s || negb (str_in stage phases) then s
  else
    let s := if String.eqb stage "provider_attempt" then s <| ss_providerEntered := true |> else s in
    let s := next_epoch s in
    if bool_decide (tk_Stage (ss_record s) = Some stage) && String.eqb (tk_Status (ss_record s)) "running" then s
    else changed now (s <| ss_record ::= running_at stage |>).

Definition tracking_Attempt (n : Z) (now : Time) (s : TrackingSession) : TrackingSession :=
  if negb (finished s) && (tk_AttemptsUsed (ss_record s) <? n) then changed now (s <| ss_record ::= fun r => r <| tk_AttemptsUsed := n |> |>) else s.

Definition gates : list string :=
  ["provider_throttled"; "admission_window"; "account_restricted"; "dispatch_pending"; "workflow_rollover"; "persistence_wait"; "worker_unavailable";
   "unresolved_execution"; "pool_capacity"].

Definition AdmissionWait (reason : string) (next : option Time) (now : Time) (s : TrackingSession) : TrackingSession :=
  let r := ss_record s in
  if negb (str_in reason gates) || finished s then s
  else if String.eqb (tk_Status r) "waiting" && bool_decide (tk_Stage r = Some "admission_wait") && bool_decide (tk_Reason r = Some reason)
          && bool_decide (tk_NextAttemptAt r = next) then s
  else
    changed now (next_epoch (s <| ss_record ::= fun r =>
      r <| tk_Status := "waiting" |> <| tk_Stage := Some "admission_wait" |> <| tk_Reason := Some reason |> <| tk_NextAttemptAt := next |> |>)).

(** The session, and the epoch that the returned function has captured. *)
Definition Wait (reason : string) (delay : Duration) (now later : Time) (s : TrackingSession) : TrackingSession * option Z :=
  if finished s then (s, None)
  else
    let s := next_epoch s in
    let next := Add (trackingTime now (tk_UpdatedAt (ss_record s))) (Z.max delay 0) in
    (changed later (s <| ss_record ::= fun r =>
       r <| tk_Status := "waiting" |> <| tk_Stage := Some "retry_wait" |> <| tk_Reason := Some reason |> <| tk_NextAttemptAt := Some next |> |>),
     Some (ss_epoch s)).
Definition EndWait (epoch : option Z) (now : Time) (s : TrackingSession) : TrackingSession :=
  match epoch with
  | None => s
  | Some epoch =>
      if finished s || negb (ss_epoch s =? epoch) then s
      else changed now (next_epoch (s <| ss_record ::= running_at "preparing" |>))
  end.

(** What the session reads of a progress event. *)
Record progress_report := MkReport { pg_Sequence : Z; pg_AttemptsUsed : Z; pg_ReceivedBytes : Z; pg_EventCount : Z }.

Definition Progress (p : progress_report) (now : Time) (s : TrackingSession) : TrackingSession :=
  if finished s || (pg_Sequence p <=? ss_sequence s) then s
  else
    let s := s <| ss_sequence := pg_Sequence p |> in
    let more := tk_AttemptsUsed (ss_record s) <? pg_AttemptsUsed p in
    let bytes := ss_received s <? pg_ReceivedBytes p in
    let events := ss_events s <? pg_EventCount p in
    let s := if more then s <| ss_record ::= fun r => r <| tk_AttemptsUsed := pg_AttemptsUsed p |> |> else s in
    let s := if bytes then s <| ss_received := pg_ReceivedBytes p |> else s in
    let s := if events then s <| ss_events := pg_EventCount p |> else s in
    if more || bytes || events then changed now s else s.

Definition outcomes : list string := ["completed"; "failed"; "cancelled"; "unconfirmed"].

Definition Finish (status code : string) (confirmed : bool) (now : Time) (s : TrackingSession) : TrackingSession :=
  if finished s || negb (str_in status outcomes) then s
  else
    let s := changed now (s <| ss_record ::= fun r =>
      r <| tk_Status := status |> <| tk_Reason := None |> <| tk_NextAttemptAt := None |> <| tk_OutcomeConfirmed := Some confirmed |>
        <| tk_ErrorCode ::= fun old => if String.eqb code "" then old else Some code |> |>) in
    next_epoch (s <| ss_record ::= fun r => r <| tk_FinishedAt := Some (tk_UpdatedAt r) |> <| tk_LastWorkerHeartbeatAt := tk_UpdatedAt r |> |>).

Definition Snapshot_ (heartbeat : bool) (now : Time) (s : TrackingSession) : TrackingSession * TrackingRecord :=
  let s := if heartbeat && negb (finished s) then
             let beat := trackingTime now (tk_UpdatedAt (ss_record s)) in
             s <| ss_record ::= fun r => r <| tk_LastWorkerHeartbeatAt := beat |> <| tk_UpdatedAt := beat |> <| tk_Revision ::= fun n => wrap64 (n + 1) |> |>
           else s in
  (s, ss_record s).

(** ** What the runtime and the gateway tell a session *)

Definition retry_reason (category : string) : string := if String.eqb category "rate_limit" then "provider_throttled" else "retry_backoff".
Definition StartRetry (category : string) (delay : Duration) (now later : Time) (s : TrackingSession) : TrackingSession * option Z :=
  Wait (retry_reason category) delay now later s.

(** [trackingExecutor.Execute]: the phase before the executor behind, unless the
    context is done. *)
Definition tracking_Execute (done : bool) (now : Time) (s : TrackingSession) : TrackingSession :=
  if done then s else Phase "provider_attempt" now s.

(** [trackedCall.fail], whose error says whether it marks itself as unconfirmed. *)
Definition unsure_provider (err : goerror) : bool :=
  match asProvider err with
  | Some (_, p) => (pe_Status p =? 0) || (500 <=? pe_Status p) || String.eqb (pe_Code p) "execution_unconfirmed"
  | None => false
  end.
Definition fail_outcome (entered : bool) (err : dispatch_error) : string * string * bool :=
  let '(e, unconfirmed) := err in
  if isCanceled e || isDeadline e then
    let code := if isDeadline e then "request_timeout" else "request_canceled" in
    if entered then ("unconfirmed", code, false) else ("cancelled", code, true)
  else if entered && (unconfirmed || unsure_provider e) then ("unconfirmed", "upstream_error", false)
  else ("failed", "execution_failed", true).
Definition fail_call (err : dispatch_error) (attempts : Z) (now later : Time) (s : TrackingSession) : TrackingSession :=
  let s := tracking_Attempt attempts now s in
  let '(status, code, confirmed) := fail_outcome (ss_providerEntered s) err in
  Finish status code confirmed later s.

(** [trackedCall.project]: whether the response could be encoded within its bound. *)
Definition project_call (encoded : bool) (now later : Time) (s : TrackingSession) : TrackingSession :=
  let s := Phase "response_projection" now s in
  if encoded then Finish "completed" "" true later s else Finish "failed" "response_projection_error" true later s.
(** A response that could not be built. *)
Definition projection_failed (now : Time) (s : TrackingSession) : TrackingSession := Finish "failed" "response_projection_error" true now s.
(** [trackedCall.close] *)
Definition close_call (now : Time) (s : TrackingSession) : TrackingSession :=
  if finished s then s else Finish "unconfirmed" "execution_unobserved" false now s.
Definition observe_result (attempts used : Z) (now : Time) (s : TrackingSession) : TrackingSession := tracking_Attempt (Z.max attempts used) now s.

(** ** The table *)

Abbreviation tracking_table := (@gmap (string * string) prod_eq_dec prod_countable TrackingRecord).

(** Three values: [None] is unknown, and a CHECK fails only when it is false. *)
Definition or3 (a b : option bool) : option bool :=
  match a, b with Some true, _ | _, Some true => Some true | Some false, Some false => Some false | _, _ => None end.
Definition and3 (a b : option bool) : option bool :=
  match a, b with Some false, _ | _, Some false => Some false | Some true, Some true => Some true | _, _ => None end.
Definition in3 (v : option string) (l : list string) : option bool := (fun v => str_in v l) <$> v.
Definition at_least (t : Time) (v : option Time) : option bool := (fun v => t <=? v) <$> v.
Definition is_null {A : Type} (v : option A) : option bool := Some (negb (bool_decide (is_Some v))).
Definition not_null {A : Type} (v : option A) : option bool := Some (bool_decide (is_Some v)).
Definition passes (check : option bool) : bool := match check with Some false => false | _ => true end.

Definition stages : list string := ["preparing"; "provider_attempt"; "validation"; "retry_wait"; "response_projection"; "admission_wait"].
Definition reasons : list string :=
  ["provider_throttled"; "retry_backoff"; "execution_unobserved"; "admission_window"; "account_restricted"; "dispatch_pending"; "workflow_rollover";
   "persistence_wait"; "worker_unavailable"; "unresolved_execution"; "pool_capacity"].
Definition error_codes : list string :=
  ["invalid_request"; "upstream_error"; "request_timeout"; "request_canceled"; "response_projection_error"; "execution_unobserved"; "execution_failed"].
Definition open_statuses : list string := ["running"; "waiting"].

(** The CHECKs of [request_tracking], on a row. *)
Definition outcome_check (r : TrackingRecord) : option bool :=
  or3 (and3 (Some (str_in (tk_Status r) open_statuses)) (and3 (is_null (tk_FinishedAt r)) (is_null (tk_OutcomeConfirmed r))))
      (and3 (Some (str_in (tk_Status r) outcomes)) (and3 (not_null (tk_FinishedAt r)) (not_null (tk_OutcomeConfirmed r)))).
Definition waiting_check (r : TrackingRecord) : option bool :=
  or3 (and3 (Some (String.eqb (tk_Status r) "waiting"))
        (or3 (and3 (in3 (tk_Stage r) ["retry_wait"]) (and3 (in3 (tk_Reason r) ["provider_throttled"; "retry_backoff"]) (not_null (tk_NextAttemptAt r))))
             (and3 (in3 (tk_Stage r) ["admission_wait"]) (in3 (tk_Reason r) gates))))
      (and3 (Some (negb (String.eqb (tk_Status r) "waiting"))) (and3 (is_null (tk_NextAttemptAt r)) (is_null (tk_Reason r)))).
Definition confirmed_check (r : TrackingRecord) : option bool :=
  or3 (and3 (Some (String.eqb (tk_Status r) "unconfirmed")) (negb <$> tk_OutcomeConfirmed r))
      (or3 (and3 (Some (str_in (tk_Status r) ["completed"; "failed"; "cancelled"])) (tk_OutcomeConfirmed r))
           (Some (str_in (tk_Status r) open_statuses))).
Definition tracking_checks (r : TrackingRecord) : bool :=
  str_in (tk_Endpoint r) endpoints && str_in (tk_Status r) (open_statuses ++ outcomes)
  && passes (in3 (tk_Stage r) stages) && passes (in3 (tk_Reason r) reasons) && passes (in3 (tk_ErrorCode r) error_codes)
  && (tk_CreatedAt r <? tk_DeadlineAt r) && (tk_RetentionExpiresAt r =? tk_DeadlineAt r + 24 * Hour)
  && (tk_CreatedAt r <=? tk_UpdatedAt r) && (tk_CreatedAt r <=? tk_LastWorkerHeartbeatAt r)
  && passes (at_least (tk_CreatedAt r) (tk_LastProgressAt r)) && passes (at_least (tk_CreatedAt r) (tk_FinishedAt r))
  && (0 <=? tk_AttemptsUsed r) && (tk_AttemptsUsed r <=? 2147483647) && (0 <? tk_Revision r)
  && passes (outcome_check r) && passes (waiting_check r) && passes (confirmed_check r).

(** What is stored of a record. *)
Definition stored_tracking (r : TrackingRecord) : TrackingRecord :=
  {| tk_ID := tk_ID r; tk_Endpoint := tk_Endpoint r; tk_Status := tk_Status r; tk_Stage := tk_Stage r; tk_Reason := tk_Reason r;
     tk_CreatedAt := stamp (tk_CreatedAt r); tk_DeadlineAt := stamp (tk_DeadlineAt r); tk_RetentionExpiresAt := stamp (tk_RetentionExpiresAt r);
     tk_UpdatedAt := stamp (tk_UpdatedAt r); tk_LastWorkerHeartbeatAt := stamp (tk_LastWorkerHeartbeatAt r);
     tk_LastProgressAt := stamp <$> tk_LastProgressAt r; tk_FinishedAt := stamp <$> tk_FinishedAt r; tk_NextAttemptAt := stamp <$> tk_NextAttemptAt r;
     tk_AttemptsUsed := tk_AttemptsUsed r; tk_OutcomeConfirmed := tk_OutcomeConfirmed r; tk_ErrorCode := tk_ErrorCode r; tk_OwnerID := tk_OwnerID r;
     tk_Revision := tk_Revision r |}.
Definition sameTrackingSnapshot (a b : TrackingRecord) : bool := bool_decide (stored_tracking a = stored_tracking b).

(** A transaction on the table, and what becomes of it. *)
Inductive tracking_failure : Type := Known (e : tracking_error) | NoRow | Other.
Definition tracking_tx {A : Type} (f : fate) (fn : tracking_table → res tracking_failure (A * tracking_table)) (t : tracking_table)
  : tracking_table * res tracking_failure A * bool :=
  match f with
  | Refused => (t, Err Other, false)
  | _ =>
      match fn t with
      | Err e => (t, Err e, false)
      | Ok (a, t') =>
          match f with
          | Committed => (t', Ok a, true)
          | AckLost => (t', Err Other, true)
          | _ => (t, Err Other, true)
          end
      end
  end.

Definition expired (now : Time) (r : TrackingRecord) : bool := tk_RetentionExpiresAt r <=? now.
(** [ORDER BY retention_expires_at,tracking_id] *)
Definition by_expiry (a b : (string * string) * TrackingRecord) : Prop :=
  tk_RetentionExpiresAt a.2 < tk_RetentionExpiresAt b.2
  ∨ (tk_RetentionExpiresAt a.2 = tk_RetentionExpiresAt b.2 ∧ string_ltb b.1.2 a.1.2 = false).
#[export] Instance by_expiry_dec : RelDecision by_expiry.
Proof. intros a b. unfold by_expiry. apply _. Defined.
Definition expired_rows (hash : string) (now : Time) (t : tracking_table) : list ((string * string) * TrackingRecord) :=
  take 99 (merge_sort by_expiry (List.filter (fun kv => String.eqb kv.1.1 hash && expired now kv.2) (map_to_list t))).
Definition purge (hash id : string) (now : Time) (t : tracking_table) : tracking_table :=
  let t := match t !! (hash, id) with Some r => if expired now r then delete (hash, id) t else t | None => t end in
  foldr (fun kv t => delete kv.1 t) t (expired_rows hash now t).

Section TrackingStore.
Context `{PoolEnv}.

(** The row that [INSERT] makes of a record. *)
Definition reserved_row (r : TrackingRecord) : TrackingRecord :=
  stored_tracking {| tk_ID := tk_ID r; tk_Endpoint := tk_Endpoint r; tk_Status := "running"; tk_Stage := Some "preparing"; tk_Reason := None;
    tk_CreatedAt := tk_CreatedAt r; tk_DeadlineAt := tk_DeadlineAt r; tk_RetentionExpiresAt := tk_RetentionExpiresAt r; tk_UpdatedAt := tk_CreatedAt r;
    tk_LastWorkerHeartbeatAt := tk_CreatedAt r; tk_LastProgressAt := None; tk_FinishedAt := None; tk_NextAttemptAt := None; tk_AttemptsUsed := 0;
    tk_OutcomeConfirmed := None; tk_ErrorCode := None; tk_OwnerID := tk_OwnerID r; tk_Revision := 1 |}.

Definition reserve_tx (now : Time) (hash : string) (r : TrackingRecord) (t : tracking_table) : res tracking_failure (unit * tracking_table) :=
  let t := purge hash (tk_ID r) now t in
  if negb (tracking_checks (reserved_row r)) then Err Other
  else match t !! (hash, tk_ID r) with
       | Some _ => Err (Known ErrTrackingConflict)
       | None => Ok (tt, <[(hash, tk_ID r) := reserved_row r]> t)
       end.

Definition lookup_tx (now : Time) (hash id : string) (t : tracking_table) : res tracking_failure (TrackingRecord * tracking_table) :=
  match t !! (hash, id) with
  | Some r => if expired now r then Err NoRow else Ok (r, t)
  | None => Err NoRow
  end.
Definition LookupTracking (f : fate) (now : Time) (hash id : string) (t : tracking_table) : res tracking_error TrackingRecord :=
  if negb (validScope hash) || negb (ValidTrackingID id) then Err ErrTrackingUnavailable
  else match (tracking_tx f (lookup_tx now hash id) t).1.2 with
       | Ok r => Ok r
       | Err NoRow => Err ErrTrackingNotFound
       | Err _ => Err ErrTrackingUnavailable
       end.

(** [f] and [now] are of the transaction, [f'], [now'] and [t'] of the readback that
    follows when its acknowledgement did not come. *)
Definition ReserveTracking (f f' : fate) (now now' : Time) (hash : string) (r : TrackingRecord) (readback : tracking_table) (t : tracking_table)
  : tracking_table * res tracking_error unit :=
  if negb (validScope hash) || negb (ValidTrackingID (tk_ID r)) || negb (ValidTrackingID (tk_OwnerID r)) || negb (tk_Revision r =? 1)
     || negb (String.eqb (tk_Status r) "running") || bool_decide (is_Some (tk_FinishedAt r)) then (t, Err ErrTrackingUnavailable)
  else
    let '(t', answer, inserted) := tracking_tx f (reserve_tx now hash r) t in
    (t', match answer with
         | Ok _ => Ok tt
         | Err (Known ErrTrackingConflict) => Err ErrTrackingConflict
         | Err _ =>
             if (inserted : bool) then
               match LookupTracking f' now' hash (tk_ID r) readback with
               | Ok saved => if String.eqb (tk_OwnerID saved) (tk_OwnerID r) then Ok tt else Err ErrTrackingUnavailable
               | Err _ => Err ErrTrackingUnavailable
               end
             else Err ErrTrackingUnavailable
         end).

(** [SET status=$4,...]: the columns an update does not touch stay. *)
Definition updated_row (r old : TrackingRecord) : TrackingRecord :=
  let r := stored_tracking r in
  {| tk_ID := tk_ID old; tk_Endpoint := tk_Endpoint old; tk_Status := tk_Status r; tk_Stage := tk_Stage r; tk_Reason := tk_Reason r;
     tk_CreatedAt := tk_CreatedAt old; tk_DeadlineAt := tk_DeadlineAt old; tk_RetentionExpiresAt := tk_RetentionExpiresAt old;
     tk_UpdatedAt := tk_UpdatedAt r; tk_LastWorkerHeartbeatAt := tk_LastWorkerHeartbeatAt r; tk_LastProgressAt := tk_LastProgressAt r;
     tk_FinishedAt := tk_FinishedAt r; tk_NextAttemptAt := tk_NextAttemptAt r; tk_AttemptsUsed := tk_AttemptsUsed r;
     tk_OutcomeConfirmed := tk_OutcomeConfirmed r; tk_ErrorCode := tk_ErrorCode r; tk_OwnerID := tk_OwnerID old; tk_Revision := tk_Revision r |}.
Definition updatable (now : Time) (r old : TrackingRecord) : bool :=
  String.eqb (tk_OwnerID old) (tk_OwnerID r) && (tk_Revision old <? tk_Revision r) && negb (bool_decide (is_Some (tk_FinishedAt old)))
  && (now <? tk_RetentionExpiresAt old).

(** [now2] is the second reading of the clock. *)
Definition update_tx (now now2 : Time) (hash : string) (r : TrackingRecord) (t : tracking_table) : res tracking_failure (unit * tracking_table) :=
  match t !! (hash, tk_ID r) with
  | Some old =>
      if updatable now r old then
        if tracking_checks (updated_row r old) then Ok (tt, <[(hash, tk_ID r) := updated_row r old]> t) else Err Other
      else if expired now2 old then Err NoRow
      else if negb (String.eqb (tk_OwnerID old) (tk_OwnerID r)) || (tk_Revision old <? tk_Revision r)
              || ((tk_Revision old =? tk_Revision r) && negb (sameTrackingSnapshot old r)) then Err (Known ErrTrackingNotFound)
      else Ok (tt, t)
  | None => Err NoRow
  end.
Definition UpdateTracking (f : fate) (now now2 : Time) (hash : string) (r : TrackingRecord) (t : tracking_table) : tracking_table * res tracking_error unit :=
  if negb (validScope hash) || negb (ValidTrackingID (tk_ID r)) || negb (ValidTrackingID (tk_OwnerID r)) then (t, Err ErrTrackingUnavailable)
  else
    let '(t', answer, _) := tracking_tx f (update_tx now now2 hash r) t in
    (t', match answer with
         | Ok _ => Ok tt
         | Err NoRow | Err (Known ErrTrackingNotFound) => Err ErrTrackingNotFound
         | Err _ => Err ErrTrackingUnavailable
         end).

(** ** The gateway *)

Definition executionTimeout (maxRunDuration : Duration) (timeoutMS : Z) : Duration :=
  if timeoutMS =? 0 then maxRunDuration else Z.min (wrap64 (timeoutMS * Millisecond)) maxRunDuration.

(** What a handler gets: no tracking was asked for, a refusal with its status and code,
    or a session with the deadline of its context. *)
Inductive begun : Type :=
| Untracked
| RefusedWith (status : Z) (code : string)
| Tracked (s : TrackingSession) (deadline : Time).

(** [values] are the values of the tracking header, if it is there; the readings of the
    clock are of the context, of the record, and of the reservation. *)
Definition beginTrackedCall (values : option (list string)) (maxRunDuration : Duration) (timeoutMS : Z) (parent : option Time) (owner : option string)
    (hash path : string) (now1 now2 now3 now4 : Time) (f f' : fate) (readback t : tracking_table) : tracking_table * begun :=
  match values with
  | None => (t, Untracked)
  | Some [id] =>
      if negb (ValidTrackingID id) then (t, RefusedWith 400 "invalid_tracking_id")
      else
        let limit := Add now1 (executionTimeout maxRunDuration timeoutMS) in
        let deadline := match parent with Some d => minTime d limit | None => limit end in
        match NewTrackingRecord owner id path now2 deadline with
        | Err _ => (t, RefusedWith 503 "request_status_unavailable")
        | Ok r =>
            let '(t, answer) := ReserveTracking f f' now3 now4 hash r readback t in
            (t, match answer with
                | Ok _ => Tracked (NewTrackingSession r) deadline
                | Err ErrTrackingConflict => RefusedWith 409 "tracking_id_conflict"
                | Err _ => RefusedWith 503 "request_status_unavailable"
                end)
        end
  | Some _ => (t, RefusedWith 400 "invalid_tracking_id")
  end.

(** The turns of the collector: a progress event, a tick, and the end, when what is
    queued is drained first. *)
Inductive collector_event : Type :=
| CollectProgress (p : progress_report)
| CollectTick (f : fate) (now1 now2 : Time)
| CollectStop (queued : list (Time * progress_report)) (f : fate) (now1 now2 : Time)
| CollectWatchdog.
Definition collect (hash : string) (now : Time) (e : collector_event) (st : TrackingSession * tracking_table) : TrackingSession * tracking_table * bool :=
  let '(s, t) := st in
  match e with
  | CollectProgress p => (Progress p now s, t, true)
  | CollectTick f now1 now2 => let '(s, r) := Snapshot_ true now s in (s, (UpdateTracking f now1 now2 hash r t).1, true)
  | CollectStop queued f now1 now2 =>
      let s := foldl (fun s p => Progress p.2 p.1 s) s queued in
      let '(s, r) := Snapshot_ false now s in (s, (UpdateTracking f now1 now2 hash r t).1, false)
  | CollectWatchdog => (s, t, false)
  end.

(** [requestStatus]: the status of the response, and the view. *)
Definition requestStatus (id : string) (query : string) (f : fate) (now now' : Time) (hash : string) (t : tracking_table) : Z * option RequestStatus :=
  if negb (ValidTrackingID id) || negb (String.eqb query "") then (400, None)
  else match LookupTracking f now hash id t with
       | Ok r => (200, Some (Observe r now'))
       | Err ErrTrackingNotFound => (404, None)
       | Err _ => (503, None)
       end.
End TrackingStore.
