(* ===== verification/TrackingProperties.v ===== *)
(** * TrackingProperties: what a tracked request guarantees

    Theorems about [RequestTracking]: every snapshot of a session can be stored, an
    ended session does not change, a revision identifies a snapshot, the table follows
    the session whatever becomes of its writes, and an identifier is reserved once. *)
From stdpp Require Import gmap sorting relations.
From S2P Require Import Prelude Json Retry BatchController BatchPool Ledger LedgerProperties AttemptFlow RequestTracking.

Open Scope string_scope.
Open Scope list_scope.
Open Scope Z_scope.

(** ** Runs of a session *)

(** The operations that reach a session: of the runtime's observer and executor, of
    the admission of its dispatches, and of the handler. *)
Inductive session_op : Type :=
| OpPhase (stage : string)
| OpExecute (done : bool)
| OpAttempt (n : Z)
| OpAdmissionWait (reason : string) (next : option Time)
| OpStartRetry (category : string) (delay : Duration) (later : Time)
| OpEndWait (epoch : option Z)
| OpProgress (p : progress_report)
| OpObserveResult (attempts used : Z)
| OpFail (err : dispatch_error) (attempts : Z) (later : Time)
| OpProject (encoded : bool) (later : Time)
| OpProjectionFailed
| OpClose
| OpSnapshot (heartbeat : bool).

Definition apply_op (now : Time) (op : session_op) (s : TrackingSession) : TrackingSession :=
  match op with
  | OpPhase stage => Phase stage now s
  | OpExecute done => tracking_Execute done now s
  | OpAttempt n => tracking_Attempt n now s
  | OpAdmissionWait reason next => AdmissionWait reason next now s
  | OpStartRetry category delay later => (StartRetry category delay now later s).1
  | OpEndWait epoch => EndWait epoch now s
  | OpProgress p => Progress p now s
  | OpObserveResult attempts used => observe_result attempts used now s
  | OpFail err attempts later => fail_call err attempts now later s
  | OpProject encoded later => project_call encoded now later s
  | OpProjectionFailed => projection_failed now s
  | OpClose => close_call now s
  | OpSnapshot heartbeat => (Snapshot_ heartbeat now s).1
  end.
Definition run_session (s : TrackingSession) (ops : list (Time * session_op)) : TrackingSession :=
  foldl (fun s op => apply_op op.1 op.2 s) s ops.

(** Counts of attempts fit an [integer] column. *)
Definition attempts_bound : Z := 2147483647.
Definition op_counts (op : session_op) : Prop :=
  match op with
  | OpAttempt n => n ≤ attempts_bound
  | OpProgress p => pg_AttemptsUsed p ≤ attempts_bound
  | OpObserveResult attempts used => attempts ≤ attempts_bound ∧ used ≤ attempts_bound
  | OpFail _ attempts _ => attempts ≤ attempts_bound
  | _ => True
  end.

(** ** The life of a record *)

(** What no operation changes. *)
Definition same_request (r r' : TrackingRecord) : Prop :=
  tk_ID r' = tk_ID r ∧ tk_OwnerID r' = tk_OwnerID r ∧ tk_Endpoint r' = tk_Endpoint r ∧ tk_CreatedAt r' = tk_CreatedAt r
  ∧ tk_DeadlineAt r' = tk_DeadlineAt r ∧ tk_RetentionExpiresAt r' = tk_RetentionExpiresAt r.

Record base_ok (r : TrackingRecord) : Prop := {
  bo_updated : tk_CreatedAt r ≤ tk_UpdatedAt r;
  bo_heartbeat : tk_CreatedAt r ≤ tk_LastWorkerHeartbeatAt r;
  bo_progress : ∀ t, tk_LastProgressAt r = Some t → tk_CreatedAt r ≤ t;
  bo_stage : ∀ v, tk_Stage r = Some v → str_in v stages = true;
  bo_code : ∀ v, tk_ErrorCode r = Some v → str_in v error_codes = true;
  bo_attempts : 0 ≤ tk_AttemptsUsed r ≤ attempts_bound;
}.

(** The states of a record. *)
Inductive shape (r : TrackingRecord) : Prop :=
| sh_running : tk_Status r = "running" → tk_Reason r = None → tk_NextAttemptAt r = None → tk_OutcomeConfirmed r = None → tk_FinishedAt r = None → shape r
| sh_retry reason next : tk_Status r = "waiting" → tk_Stage r = Some "retry_wait" → tk_Reason r = Some reason →
    str_in reason ["provider_throttled"; "retry_backoff"] = true → tk_NextAttemptAt r = Some next → tk_OutcomeConfirmed r = None →
    tk_FinishedAt r = None → shape r
| sh_gate reason : tk_Status r = "waiting" → tk_Stage r = Some "admission_wait" → tk_Reason r = Some reason → str_in reason gates = true →
    tk_OutcomeConfirmed r = None → tk_FinishedAt r = None → shape r
| sh_done finish : str_in (tk_Status r) outcomes = true → tk_Reason r = None → tk_NextAttemptAt r = None →
    tk_OutcomeConfirmed r = Some (negb (String.eqb (tk_Status r) "unconfirmed")) → tk_FinishedAt r = Some finish → tk_CreatedAt r ≤ finish → shape r.

(** A step of a record: nothing, or the next revision, of a record that has not ended. *)
Definition advances (r r' : TrackingRecord) : Prop :=
  r' = r ∨ (tk_FinishedAt r = None ∧ tk_Revision r < tk_Revision r').

(** At most [k] revisions later. *)
Record record_step (k : Z) (r r' : TrackingRecord) : Prop := {
  st_same : same_request r r';
  st_base : base_ok r → base_ok r';
  st_shape : base_ok r → shape r → shape r';
  st_advances : 0 ≤ tk_Revision r → tk_Revision r + k ≤ int64_max → advances r r' ∧ tk_Revision r' ≤ tk_Revision r + k;
}.

Lemma same_request_trans r1 r2 r3 : same_request r1 r2 → same_request r2 r3 → same_request r1 r3.
Proof. intros (?&?&?&?&?&?) (?&?&?&?&?&?). split_and!; congruence. Qed.
Lemma advances_mono r r' : advances r r' → tk_Revision r ≤ tk_Revision r'.
Proof. intros [->|[_ H]]; lia. Qed.
Lemma advances_trans r1 r2 r3 : advances r1 r2 → advances r2 r3 → advances r1 r3.
Proof. intros [->|[H1 H2]] [->|[H3 H4]]; unfold advances; auto. right. split; [done|lia]. Qed.

Lemma record_step_refl k r : 0 ≤ k → record_step k r r.
Proof. intros Hk. split; try done. intros _ _. split; [by left|lia]. Qed.
Lemma record_step_trans k1 k2 r1 r2 r3 : 0 ≤ k2 → record_step k1 r1 r2 → record_step k2 r2 r3 → record_step (k1 + k2) r1 r3.
Proof.
  intros Hk [A1 A2 A3 A4] [B1 B2 B3 B4]. split.
  - by eapply same_request_trans.
  - auto.
  - auto.
  - intros H0 Hm. destruct A4 as [A4 A5]; [done|lia|]. pose proof (advances_mono _ _ A4). destruct B4 as [B4 B5]; [lia|lia|].
    split; [by eapply advances_trans|lia].
Qed.
Lemma record_step_le k k' r r' : k ≤ k' → record_step k r r' → record_step k' r r'.
Proof. intros Hk [A1 A2 A3 A4]. split; try done. intros H0 Hm. destruct A4 as [A4 A5]; [done|lia|]. split; [done|lia]. Qed.

Lemma trackingTime_ge now t : t ≤ trackingTime now t.
Proof. unfold trackingTime, Before. destruct (Z.ltb_spec now t); lia. Qed.

(** [changed], on the record. *)
Definition touch (now : Time) (r : TrackingRecord) : TrackingRecord :=
  let now := trackingTime now (tk_UpdatedAt r) in
  r <| tk_UpdatedAt := now |> <| tk_LastProgressAt := Some now |> <| tk_Revision ::= fun n => wrap64 (n + 1) |>.
Lemma touch_base now r : base_ok r → base_ok (touch now r).
Proof.
  intros [H1 H2 H3 H4 H5 H6]. pose proof (trackingTime_ge now (tk_UpdatedAt r)). split; cbn; try done; [lia|]. intros t [= <-]. lia.
Qed.
Lemma next_revision n : 0 ≤ n → n + 1 ≤ int64_max → wrap64 (n + 1) = n + 1.
Proof. intros H1 H2. apply wrap64_id. unfold in_int64, int64_min, int64_max in *. lia. Qed.

(** An open record that goes to its next revision. *)
Lemma revision_step r r' :
  tk_FinishedAt r = None → same_request r r' → tk_Revision r' = wrap64 (tk_Revision r + 1) →
  (base_ok r → base_ok r') → (base_ok r → shape r → shape r') → record_step 1 r r'.
Proof.
  intros Hf Hs Hr Hb Hp. split; try done. intros H0 Hm. rewrite next_revision in Hr by done. split; [|lia]. right. split; [done|lia].
Qed.

(** ** The operations *)

Lemma finished_false s : finished s = false → tk_FinishedAt (ss_record s) = None.
Proof. unfold finished. by rewrite bool_decide_eq_false, <- eq_None_not_Some. Qed.
Abbreviation session_step k s s' := (record_step k (ss_record s) (ss_record s')).


Lemma open_unconfirmed r : shape r → tk_FinishedAt r = None → tk_OutcomeConfirmed r = None.
Proof. intros Hs Hf. destruct Hs; congruence. Qed.
Lemma running_base stage r : str_in stage stages = true → base_ok r → base_ok (running_at stage r).
Proof. intros Hs [H1 H2 H3 H4 H5 H6]. split; cbn; try done. by intros v [= <-]. Qed.
Lemma running_shape now stage r : tk_FinishedAt r = None → shape r → shape (touch now (running_at stage r)).
Proof. intros Hf Hs. apply sh_running; try done. exact (open_unconfirmed r Hs Hf). Qed.
Lemma phases_stages stage : str_in stage phases = true → str_in stage stages = true.
Proof. rewrite !str_in_spec. unfold phases, stages. rewrite !elem_of_cons. tauto. Qed.

Lemma Phase_step stage now s : session_step 1 s (Phase stage now s).
Proof.
  unfold Phase. destruct (finished s) eqn:Ef; cbn [orb]; [by apply record_step_refl|]. destruct (str_in stage phases) eqn:Ep; cbn [negb]; [|by apply record_step_refl].
  apply finished_false in Ef. apply phases_stages in Ep.
  destruct (String.eqb stage "provider_attempt"); (destruct (bool_decide _ && _); [by apply record_step_refl|]);
    (apply revision_step; [done|done|done| |]); intros B; (by apply touch_base, running_base) || (by apply running_shape).
Qed.

(** A change of the counts. *)
Lemma attempts_step n now r :
  tk_FinishedAt r = None → n ≤ attempts_bound → tk_AttemptsUsed r < n → record_step 1 r (touch now (r <| tk_AttemptsUsed := n |>)).
Proof.
  intros Hf Hn Hlt. apply revision_step; [done|done|done| |].
  - intros [H1 H2 H3 H4 H5 H6]. apply touch_base. split; cbn; try done. lia.
  - intros _ []; [by apply sh_running|by eapply sh_retry|by eapply sh_gate|by eapply sh_done].
Qed.
Lemma touch_only_step now r : tk_FinishedAt r = None → record_step 1 r (touch now r).
Proof.
  intros Hf. apply revision_step; [done|done|done|apply touch_base|]. intros _ []; [by apply sh_running|by eapply sh_retry|by eapply sh_gate|by eapply sh_done].
Qed.

Lemma Attempt_step n now s : n ≤ attempts_bound → session_step 1 s (tracking_Attempt n now s).
Proof.
  intros Hn. unfold tracking_Attempt. destruct (finished s) eqn:Ef; cbn; [by apply record_step_refl|]. destruct (Z.ltb_spec (tk_AttemptsUsed (ss_record s)) n); [|by apply record_step_refl].
  apply finished_false in Ef. by apply attempts_step.
Qed.

Lemma AdmissionWait_step reason next now s : session_step 1 s (AdmissionWait reason next now s).
Proof.
  unfold AdmissionWait. destruct (str_in reason gates) eqn:Eg; cbn [negb orb]; [|by apply record_step_refl]. destruct (finished s) eqn:Ef; [by apply record_step_refl|].
  apply finished_false in Ef. destruct (_ && _); [by apply record_step_refl|]. apply revision_step; [done|done|done| |].
  - intros [H1 H2 H3 H4 H5 H6]. apply touch_base. split; cbn; try done. by intros v [= <-].
  - intros _ Hs. eapply sh_gate; try done. exact (open_unconfirmed _ Hs Ef).
Qed.

Lemma StartRetry_step category delay now later s : session_step 1 s (StartRetry category delay now later s).1.
Proof.
  unfold StartRetry, Wait. destruct (finished s) eqn:Ef; [by apply record_step_refl|]. apply finished_false in Ef. apply revision_step; [done|done|done| |].
  - intros [H1 H2 H3 H4 H5 H6]. apply touch_base. split; cbn; try done. by intros v [= <-].
  - intros _ Hs. eapply sh_retry; try done; [|exact (open_unconfirmed _ Hs Ef)]. unfold retry_reason. by destruct (String.eqb _ _).
Qed.

Lemma EndWait_step epoch now s : session_step 1 s (EndWait epoch now s).
Proof.
  destruct epoch as [epoch|]; cbn; [|by apply record_step_refl]. destruct (finished s) eqn:Ef; cbn; [by apply record_step_refl|]. apply finished_false in Ef.
  destruct (negb _); [by apply record_step_refl|]. apply revision_step; [done|done|done| |]; intros B; [by apply touch_base, running_base|by apply running_shape].
Qed.

Lemma Progress_step p now s : pg_AttemptsUsed p ≤ attempts_bound → session_step 1 s (Progress p now s).
Proof.
  intros Hp. unfold Progress. destruct (finished s) eqn:Ef; cbn [orb]; [by apply record_step_refl|]. destruct (_ <=? _); [by apply record_step_refl|].
  apply finished_false in Ef. cbv zeta.
  match goal with |- context [?a <? pg_AttemptsUsed p] => destruct (Z.ltb_spec a (pg_AttemptsUsed p)) as [Hlt|_] end.
  - destruct (_ <? pg_ReceivedBytes p), (_ <? pg_EventCount p); exact (attempts_step _ now _ Ef Hp Hlt).
  - destruct (_ <? pg_ReceivedBytes p), (_ <? pg_EventCount p); first [exact (touch_only_step now _ Ef) | by apply record_step_refl].
Qed.

(** The ends that a handler gives a session. *)
Definition proper_end (status code : string) (confirmed : bool) : Prop :=
  str_in status outcomes = true ∧ (code = "" ∨ str_in code error_codes = true) ∧ confirmed = negb (String.eqb status "unconfirmed").

Lemma Finish_step status code confirmed now s : proper_end status code confirmed → session_step 1 s (Finish status code confirmed now s).
Proof.
  intros (Ho & Hc & ->). unfold Finish. destruct (finished s) eqn:Ef; cbn [orb]; [by apply record_step_refl|]. rewrite Ho. cbn [negb]. apply finished_false in Ef.
  apply revision_step; [done|done|done| |]; cbn.
  - intros [H1 H2 H3 H4 H5 H6]. pose proof (trackingTime_ge now (tk_UpdatedAt (ss_record s))). split; cbn; try done; try lia.
    + intros t [= <-]. lia.
    + destruct (String.eqb_spec code "") as [_|Hne]; [done|]. intros v [= <-]. by destruct Hc.
  - intros [H1 _ _ _ _ _] _. pose proof (trackingTime_ge now (tk_UpdatedAt (ss_record s))). eapply sh_done; try done. cbn. lia.
Qed.

Lemma fail_outcome_proper entered err : let '(status, code, confirmed) := fail_outcome entered err in proper_end status code confirmed.
Proof.
  unfold fail_outcome, proper_end. destruct err as [e u]. destruct (isCanceled e || isDeadline e).
  - destruct entered, (isDeadline e); cbn; auto.
  - destruct (entered && _); cbn; auto.
Qed.

Lemma Snapshot_step heartbeat now s : session_step 1 s (Snapshot_ heartbeat now s).1.
Proof.
  unfold Snapshot_. destruct heartbeat; cbn [andb]; [|by apply record_step_refl]. destruct (finished s) eqn:Ef; cbn [negb]; [by apply record_step_refl|]. apply finished_false in Ef.
  apply revision_step; [done|done|done| |]; cbn.
  - intros [H1 H2 H3 H4 H5 H6]. pose proof (trackingTime_ge now (tk_UpdatedAt (ss_record s))). split; cbn; try done; lia.
  - intros _ []; [by apply sh_running|by eapply sh_retry|by eapply sh_gate|by eapply sh_done].
Qed.

Lemma apply_op_step now op s : op_counts op → session_step 2 s (apply_op now op s).
Proof.
  assert (∀ k1 s1 s2 s3, k1 = 1 → session_step k1 s1 s2 → session_step 1 s2 s3 → session_step 2 s1 s3) as Two
    by (intros k1 s1 s2 s3 -> H1 H2; by apply (record_step_trans 1 1 _ (ss_record s2))).
  destruct op; cbn [apply_op op_counts]; intros Hc.
  9: { refine (Two 1 _ (tracking_Attempt attempts now s) _ eq_refl (Attempt_step _ _ _ Hc) _). unfold fail_call.
       pose proof (fail_outcome_proper (ss_providerEntered (tracking_Attempt attempts now s)) err) as Hp.
       destruct (fail_outcome _ err) as [[status code] confirmed]. by apply Finish_step. }
  9: { refine (Two 1 _ (Phase "response_projection" now s) _ eq_refl (Phase_step _ _ _) _).
       unfold project_call. destruct encoded; apply Finish_step; unfold proper_end; cbn; auto. }
  all: apply (record_step_le 1); [done|].
  - apply Phase_step.
  - unfold tracking_Execute. destruct done; [by apply record_step_refl|apply Phase_step].
  - by apply Attempt_step.
  - apply AdmissionWait_step.
  - apply StartRetry_step.
  - apply EndWait_step.
  - by apply Progress_step.
  - apply Attempt_step. lia.
  - apply Finish_step. unfold proper_end. cbn. auto.
  - unfold close_call. destruct (finished s); [by apply record_step_refl|]. apply Finish_step. unfold proper_end. cbn. auto.
  - apply Snapshot_step.
Qed.

Lemma run_session_step s ops :
  Forall (fun op => op_counts op.2) ops → session_step (2 * llen ops) s (run_session s ops).
Proof.
  revert s. induction ops as [|[now op] ops IH]; intros s H; [by apply record_step_refl|]. apply Forall_cons in H as [Hc H].
  cbn [run_session foldl fst snd]. apply (record_step_le (2 + 2 * llen ops)); [unfold llen; cbn [length]; lia|].
  eapply record_step_trans; [unfold llen; lia|by apply apply_op_step|]. by apply IH.
Qed.

(** ** Storable records *)

Lemma stamp_mono t u : t ≤ u → stamp t ≤ stamp u.
Proof.
  intros H. unfold stamp, Truncate, Microsecond. pose proof (Z.div_mod t 1000). pose proof (Z.div_mod u 1000).
  pose proof (Z.div_le_mono t u 1000). lia.
Qed.
Lemma stamp_idem t : stamp (stamp t) = stamp t.
Proof. unfold stamp, Truncate, Microsecond. rewrite (Zminus_mod_idemp_r t t), Z.sub_diag, Z.mod_0_l by done. lia. Qed.
Lemma stamps_idem (v : option Time) : stamp <$> (stamp <$> v) = stamp <$> v.
Proof. destruct v as [t|]; [|done]. cbn. by rewrite stamp_idem. Qed.
Lemma stamp_day t : stamp (Add t (24 * Hour)) = stamp t + 24 * Hour.
Proof.
  unfold stamp, Truncate, Add, Microsecond. replace (t + 24 * Hour) with (t + 86400000000 * 1000) by (unfold Hour; lia).
  rewrite Z_mod_plus_full. unfold Hour. lia.
Qed.

(** What is fixed when a session begins. *)
Record request_ok (r : TrackingRecord) : Prop := {
  rk_endpoint : str_in (tk_Endpoint r) endpoints = true;
  rk_deadline : stamp (tk_CreatedAt r) < stamp (tk_DeadlineAt r);
  rk_retention : tk_RetentionExpiresAt r = Add (tk_DeadlineAt r) (24 * Hour);
}.
Lemma request_ok_same r r' : same_request r r' → request_ok r → request_ok r'.
Proof. intros (_ & _ & E1 & E2 & E3 & E4) [H1 H2 H3]. split; [by rewrite E1|by rewrite E2, E3|]. rewrite E4, E3. exact H3. Qed.

Lemma in3_passes v l : (∀ x, v = Some x → str_in x l = true) → passes (in3 v l) = true.
Proof. intros H. destruct v as [x|]; [|done]. cbn. by rewrite H. Qed.
Lemma at_least_passes t v : (∀ x, v = Some x → t ≤ x) → passes (at_least (stamp t) (stamp <$> v)) = true.
Proof. intros H. destruct v as [x|]; [|done]. cbn. by rewrite (proj2 (Z.leb_le _ _) (stamp_mono _ _ (H x eq_refl))). Qed.

Lemma shape_status r : shape r → str_in (tk_Status r) (open_statuses ++ outcomes) = true.
Proof.
  intros Hs. destruct Hs as [E|? ? E|? E|? E]; rewrite ?E; try done. unfold str_in in *. rewrite existsb_app, E. by rewrite orb_true_r.
Qed.
Lemma shape_reason r x : shape r → tk_Reason r = Some x → str_in x reasons = true.
Proof.
  intros Hs E. destruct Hs; try congruence.
  - assert (x = reason) as -> by congruence. match goal with H : str_in reason _ = true |- _ => revert H end. rewrite !str_in_spec, !elem_of_cons. unfold reasons. rewrite !elem_of_cons. tauto.
  - assert (x = reason) as -> by congruence. match goal with H : str_in reason _ = true |- _ => revert H end. unfold gates, reasons. rewrite !str_in_spec, !elem_of_cons. tauto.
Qed.
Lemma shape_outcome r : shape r → passes (outcome_check r) = true.
Proof.
  intros Hs. unfold outcome_check. destruct Hs as [E ? ? Eo Ef|? ? E ? ? ? ? Eo Ef|? E ? ? ? Eo Ef|? E ? ? Eo Ef _]; rewrite ?E, ?Eo, ?Ef; try done.
  by destruct (str_in _ open_statuses).
Qed.
Lemma shape_waiting r : shape r → passes (waiting_check r) = true.
Proof.
  intros Hs. unfold waiting_check. destruct Hs as [E Er En _ _|reason next E Est Er Hr En _ _|reason E Est Er Hr _ _|finish E Er En _ _ _]; rewrite ?E, ?Est, ?Er, ?En; try done.
  - cbn [in3 fmap option_fmap option_map]. rewrite Hr. destruct (str_in reason gates); reflexivity.
  - cbn [in3 fmap option_fmap option_map]. rewrite Hr. destruct (str_in reason _); reflexivity.
  - cbn. destruct (String.eqb_spec (tk_Status r) "waiting") as [Ew|]; [|done]. rewrite Ew in E. discriminate E.
Qed.
Lemma shape_confirmed r : shape r → passes (confirmed_check r) = true.
Proof.
  intros Hs. unfold confirmed_check. destruct Hs as [E|? ? E|? E|? E _ _ Ec _ _]; rewrite ?E; [by destruct (tk_OutcomeConfirmed r) as [[]|]..|].
  rewrite Ec. apply str_in_spec in E. unfold outcomes in E. rewrite !elem_of_cons in E.
  destruct E as [E|[E|[E|[E|E]]]]; [rewrite E; done..|by apply elem_of_nil in E].
Qed.

Lemma stored_shape r : shape r → shape (stored_tracking r).
Proof.
  intros Hs. destruct Hs as [E Er En Ec Ef|reason next E Est Er Hr En Ec Ef|reason E Est Er Hr Ec Ef|finish E Er En Ec Ef Hf].
  - apply sh_running; cbn; try done; [exact (f_equal (fmap stamp) En)|exact (f_equal (fmap stamp) Ef)].
  - apply (sh_retry _ reason (stamp next)); cbn; try done; [exact (f_equal (fmap stamp) En)|exact (f_equal (fmap stamp) Ef)].
  - apply (sh_gate _ reason); cbn; try done. exact (f_equal (fmap stamp) Ef).
  - apply (sh_done _ (stamp finish)); cbn; try done; [exact (f_equal (fmap stamp) En)|exact (f_equal (fmap stamp) Ef)|by apply stamp_mono].
Qed.

Lemma tracking_checks_stored r : request_ok r → base_ok r → shape r → 0 < tk_Revision r → tracking_checks (stored_tracking r) = true.
Proof.
  intros [K1 K2 K3] [H1 H2 H3 H4 H5 H6] Hs Hr. pose proof (stored_shape r Hs) as Hs'. unfold tracking_checks, attempts_bound in *.
  rewrite (shape_outcome _ Hs'), (shape_waiting _ Hs'), (shape_confirmed _ Hs'), (shape_status _ Hs').
  rewrite (in3_passes (tk_Reason (stored_tracking r))) by (intros x; apply (shape_reason _ x Hs')).
  change (str_in (tk_Endpoint (stored_tracking r)) endpoints) with (str_in (tk_Endpoint r) endpoints). rewrite K1.
  change (tk_Stage (stored_tracking r)) with (tk_Stage r). change (tk_ErrorCode (stored_tracking r)) with (tk_ErrorCode r).
  rewrite (in3_passes (tk_Stage r)), (in3_passes (tk_ErrorCode r)) by done.
  assert (passes (at_least (tk_CreatedAt (stored_tracking r)) (tk_FinishedAt (stored_tracking r))) = true) as ->.
  { apply (at_least_passes (tk_CreatedAt r) (tk_FinishedAt r)). intros x Hx. destruct Hs as [? ? ? ? Ef|? ? ? ? ? ? ? ? Ef|? ? ? ? ? ? Ef|finish ? ? ? ? Ef Hf]; [congruence..|].
    assert (finish = x) as -> by congruence. done. }
  assert (passes (at_least (tk_CreatedAt (stored_tracking r)) (tk_LastProgressAt (stored_tracking r))) = true) as ->
    by exact (at_least_passes (tk_CreatedAt r) (tk_LastProgressAt r) H3).
  assert (tk_RetentionExpiresAt (stored_tracking r) = tk_DeadlineAt (stored_tracking r) + 24 * Hour) as Er.
  { change (stamp (tk_RetentionExpiresAt r) = stamp (tk_DeadlineAt r) + 24 * Hour). by rewrite K3, stamp_day. }
  rewrite Er, Z.eqb_refl. pose proof (stamp_mono _ _ H1) as S1. pose proof (stamp_mono _ _ H2) as S2.
  change (tk_CreatedAt (stored_tracking r)) with (stamp (tk_CreatedAt r)). change (tk_DeadlineAt (stored_tracking r)) with (stamp (tk_DeadlineAt r)).
  change (tk_UpdatedAt (stored_tracking r)) with (stamp (tk_UpdatedAt r)). change (tk_LastWorkerHeartbeatAt (stored_tracking r)) with (stamp (tk_LastWorkerHeartbeatAt r)).
  change (tk_AttemptsUsed (stored_tracking r)) with (tk_AttemptsUsed r). change (tk_Revision (stored_tracking r)) with (tk_Revision r).
  rewrite (proj2 (Z.ltb_lt _ _) K2), (proj2 (Z.leb_le _ _) S1), (proj2 (Z.leb_le _ _) S2), (proj2 (Z.ltb_lt _ _) Hr).
  rewrite (proj2 (Z.leb_le 0 (tk_AttemptsUsed r))), (proj2 (Z.leb_le (tk_AttemptsUsed r) 2147483647)) by lia. done.
Qed.

(** ** The start of a session *)

Section Sessions.
Context `{PoolEnv}.

Lemma NewTrackingRecord_ok owner id endpoint now deadline r :
  NewTrackingRecord owner id endpoint now deadline = Ok r → stamp now < stamp deadline →
  request_ok r ∧ base_ok r ∧ shape r ∧ tk_Revision r = 1 ∧ ValidTrackingID (tk_ID r) = true ∧ tk_ID r = id.
Proof.
  unfold NewTrackingRecord. destruct (_ || _ || _) eqn:E; [done|]. destruct owner as [owner|]; [|done]. intros [= <-] Hd.
  rewrite !orb_false_iff, !negb_false_iff in E. destruct E as [[Ei Ee] _]. split_and!; try done.
  - split; cbn; try done; try lia. by intros v [= <-].
  - by apply sh_running.
Qed.

(** C21: Whatever happens to a tracked request, in whatever order and whatever the clock
    does, the snapshot of its session satisfies every CHECK of its table: the row that
    an update would write is never refused for its content.  In particular the status,
    the stage, the reason, the next attempt, the end and the confirmation of the
    outcome always fit together, and an end is unconfirmed exactly when its outcome
    is. *)
Theorem tracking_snapshots_storable owner id endpoint now deadline r ops :
  NewTrackingRecord owner id endpoint now deadline = Ok r → stamp now < stamp deadline →
  Forall (fun op => op_counts op.2) ops → 2 * llen ops < int64_max →
  let s := ss_record (run_session (NewTrackingSession r) ops) in
  tracking_checks (stored_tracking s) = true ∧ same_request r s.
Proof.
  intros E Hd Hc Hl. destruct (NewTrackingRecord_ok _ _ _ _ _ _ E Hd) as (K & B & Sh & R1 & _).
  pose proof (run_session_step (NewTrackingSession r) ops Hc) as [S1 S2 S3 S4]. cbn in S1, S2, S3, S4. destruct S4 as [S4 _]; [lia|lia|].
  split; [|done]. apply tracking_checks_stored; [by eapply request_ok_same|by apply S2|by apply S3|]. pose proof (advances_mono _ _ S4). lia.
Qed.

(** ** Snapshots *)

(** A record that the session has been at. *)
Definition snapshot_of (r : TrackingRecord) (ops : list (Time * session_op)) (x : TrackingRecord) : Prop :=
  ∃ n, x = ss_record (run_session (NewTrackingSession r) (take n ops)).

Section Run.
Variables (r : TrackingRecord) (ops : list (Time * session_op)).
Hypothesis Hcounts : Forall (fun op => op_counts op.2) ops.
Hypothesis Hrevision : tk_Revision r = 1.
Hypothesis Hlength : 2 * llen ops < int64_max.

Lemma snapshot_bound n :
  record_step (2 * llen (take n ops)) r (ss_record (run_session (NewTrackingSession r) (take n ops))) ∧ 2 * llen (take n ops) < int64_max.
Proof.
  split.
  - apply (run_session_step (NewTrackingSession r)). by apply Forall_take.
  - unfold llen in *. rewrite length_take. lia.
Qed.
Lemma snapshot_revision x : snapshot_of r ops x → 1 ≤ tk_Revision x.
Proof.
  intros [n ->]. destruct (snapshot_bound n) as [[_ _ _ S4] Hn]. destruct S4 as [S4 _]; [lia|lia|]. pose proof (advances_mono _ _ S4). lia.
Qed.

(** Snapshots follow each other. *)
Lemma snapshots_ordered x y : snapshot_of r ops x → snapshot_of r ops y → advances x y ∨ advances y x.
Proof.
  assert (∀ n m, (n ≤ m)%nat → advances (ss_record (run_session (NewTrackingSession r) (take n ops))) (ss_record (run_session (NewTrackingSession r) (take m ops)))) as Hle.
  { intros n m Hnm. destruct (snapshot_bound n) as [[_ _ _ S4] Hn]. destruct S4 as [S4 S5]; [lia|lia|]. pose proof (advances_mono _ _ S4) as S6.
    assert (take m ops = take n ops ++ take (m - n) (drop n ops)) as Em.
    { rewrite <- (take_drop n (take m ops)), take_take, Nat.min_l by lia. f_equal. by rewrite <- skipn_firstn_comm. }
    rewrite Em. unfold run_session at 2. rewrite foldl_app. fold (run_session (NewTrackingSession r) (take n ops)).
    fold (run_session (run_session (NewTrackingSession r) (take n ops)) (take (m - n) (drop n ops))).
    destruct (run_session_step (run_session (NewTrackingSession r) (take n ops)) (take (m - n) (drop n ops))) as [_ _ _ T4].
    { by apply Forall_take, Forall_drop. }
    apply T4; [lia|]. assert (llen (take n ops) + llen (take (m - n) (drop n ops)) ≤ llen ops) by (unfold llen; rewrite !length_take, length_drop; lia).
    lia. }
  intros [n ->] [m ->]. destruct (Nat.le_ge_cases n m); auto.
Qed.
Lemma snapshot_unique x y : snapshot_of r ops x → snapshot_of r ops y → tk_Revision x = tk_Revision y → x = y.
Proof. intros Hx Hy E. destruct (snapshots_ordered x y Hx Hy) as [[->|[_ H1]]|[->|[_ H1]]]; [done|lia|done|lia]. Qed.
Lemma snapshot_last x y : snapshot_of r ops x → snapshot_of r ops y → is_Some (tk_FinishedAt x) → tk_Revision y ≤ tk_Revision x.
Proof. intros Hx Hy [t E]. destruct (snapshots_ordered x y Hx Hy) as [[->|[H1 _]]|H1]; [done|congruence|by apply advances_mono]. Qed.
Lemma snapshot_advances x y : snapshot_of r ops x → snapshot_of r ops y → tk_Revision x ≤ tk_Revision y → advances x y.
Proof.
  intros Hx Hy H1. destruct (snapshots_ordered x y Hx Hy) as [|H2]; [done|]. left. symmetry. apply snapshot_unique; [done|done|]. apply advances_mono in H2. lia.
Qed.
Lemma snapshot_same x : snapshot_of r ops x → same_request r x.
Proof. intros [n ->]. by destruct (snapshot_bound n) as [[S1 _ _ _] _]. Qed.
Lemma snapshot_checks x : request_ok r → base_ok r → shape r → snapshot_of r ops x → tracking_checks (stored_tracking x) = true.
Proof.
  intros K B Sh Hx. pose proof (snapshot_revision x Hx). pose proof (snapshot_same x Hx) as Hs. destruct Hx as [n ->].
  destruct (snapshot_bound n) as [[_ S2 S3 _] _]. apply tracking_checks_stored; [by eapply request_ok_same|by apply S2|by apply S3|lia].
Qed.

(** ** The table follows the session *)

Lemma expired_rows_sound (hash : string) (now : Time) (t : tracking_table) (kv : (string * string) * TrackingRecord) : kv ∈ expired_rows hash now t → t !! kv.1 = Some kv.2 ∧ expired now kv.2 = true.
Proof.
  unfold expired_rows. intros Hk. apply subseteq_take, list_elem_of_In in Hk.
  apply (Permutation_in _ (merge_sort_Permutation by_expiry _)), filter_In in Hk as [Hin Hb]. destruct kv as [k v]. apply andb_true_iff in Hb as [_ Hb].
  split; [|done]. apply elem_of_map_to_list. by apply list_elem_of_In.
Qed.
Lemma purge_keeps (hash id : string) (now : Time) (t : tracking_table) (k : string * string) (v : TrackingRecord) : t !! k = Some v → expired now v = false → purge hash id now t !! k = Some v.
Proof.
  intros Hk Hv. unfold purge. set (t1 := match t !! (hash, id) with Some r0 => _ | None => t end).
  assert (t1 !! k = Some v) as Hk1.
  { subst t1. destruct (t !! (hash, id)) as [r0|] eqn:E; [|done]. destruct (expired now r0) eqn:Ex; [|done]. rewrite lookup_delete_ne; [done|]. congruence. }
  assert (∀ kv, kv ∈ expired_rows hash now t1 → kv.1 ≠ k) as Hne.
  { intros kv Hin E. destruct (expired_rows_sound _ _ _ _ Hin) as [H1 H2]. rewrite E, Hk1 in H1. congruence. }
  revert Hne. generalize (expired_rows hash now t1) as l. induction l as [|kv l IH]; intros Hne; [done|]. cbn. rewrite lookup_delete_ne.
  - apply IH. intros kv' Hin. apply Hne. by right.
  - apply Hne. left.
Qed.

Variable hash : string.
Definition my_key : string * string := (hash, tk_ID r).
Definition my_retention : Time := stamp (tk_RetentionExpiresAt r).

(** What may happen to the table before the retention of the request has ended:
    reservations of other invocations, and updates, those of its owner being of
    snapshots of the session. *)
Inductive tracking_step (t : tracking_table) : tracking_table → Prop :=
| ts_reserve f f' now now' h other readback : tk_OwnerID other ≠ tk_OwnerID r → now < my_retention →
    tracking_step t (ReserveTracking f f' now now' h other readback t).1
| ts_update f now now2 h x : (tk_OwnerID x = tk_OwnerID r → snapshot_of r ops x) →
    tracking_step t (UpdateTracking f now now2 h x t).1.

(** The table shows a snapshot. *)
Definition shows (t : tracking_table) (x : TrackingRecord) : Prop := snapshot_of r ops x ∧ t !! my_key = Some (stored_tracking x).

Lemma stored_identity x : snapshot_of r ops x →
  tk_ID (stored_tracking x) = tk_ID r ∧ tk_OwnerID (stored_tracking x) = tk_OwnerID r ∧ tk_RetentionExpiresAt (stored_tracking x) = my_retention
  ∧ tk_Revision (stored_tracking x) = tk_Revision x.
Proof.
  intros Hx. destruct (snapshot_same x Hx) as (E1 & E2 & _ & _ & _ & E6). split; [exact E1|]. split; [exact E2|]. split; [|done].
  exact (f_equal stamp E6).
Qed.

(** An update of the owner replaces the row by the snapshot. *)
Lemma updated_snapshot x y : snapshot_of r ops x → snapshot_of r ops y → updated_row y (stored_tracking x) = stored_tracking y.
Proof.
  intros Hx Hy. destruct (snapshot_same x Hx) as (E1 & E2 & E3 & E4 & E5 & E6). destruct (snapshot_same y Hy) as (F1 & F2 & F3 & F4 & F5 & F6).
  unfold updated_row, stored_tracking. cbn. f_equal; congruence.
Qed.

Lemma tracking_tx_table {A : Type} (f : fate) (fn : tracking_table → res tracking_failure (A * tracking_table)) t :
  (tracking_tx f fn t).1.1 = t ∨ ∃ a, fn t = Ok (a, (tracking_tx f fn t).1.1).
Proof. unfold tracking_tx. destruct f; [|by left|..]; destruct (fn t) as [[a t']|e]; cbn; eauto. Qed.
Lemma tracking_tx_ok {A : Type} (f : fate) (fn : tracking_table → res tracking_failure (A * tracking_table)) (t t' : tracking_table) (a : A) (ch : bool) :
  tracking_tx f fn t = (t', Ok a, ch) → fn t = Ok (a, t').
Proof. unfold tracking_tx. destruct f; [|done|..]; destruct (fn t) as [[b t2]|e]; intros [=]; by subst. Qed.

Lemma reserve_tx_spec (now : Time) (h : string) (other : TrackingRecord) (t t' : tracking_table) (a : unit) :
  reserve_tx now h other t = Ok (a, t') →
  purge h (tk_ID other) now t !! (h, tk_ID other) = None ∧ t' = <[(h, tk_ID other) := reserved_row other]> (purge h (tk_ID other) now t).
Proof.
  unfold reserve_tx. generalize (purge h (tk_ID other) now t) as p, (reserved_row other) as row. intros p row. destruct (tracking_checks row); cbn [negb]; [|discriminate].
  destruct (p !! (h, tk_ID other)) as [v|]; [discriminate|]. intros E. split; [reflexivity|]. congruence.
Qed.
Lemma update_tx_spec (now now2 : Time) (h : string) (y : TrackingRecord) (t t' : tracking_table) (a : unit) :
  update_tx now now2 h y t = Ok (a, t') →
  ∃ old, t !! (h, tk_ID y) = Some old
    ∧ ((updatable now y old = true ∧ t' = <[(h, tk_ID y) := updated_row y old]> t)
       ∨ (updatable now y old = false ∧ t' = t ∧ tk_OwnerID old = tk_OwnerID y
          ∧ (tk_Revision y < tk_Revision old ∨ (tk_Revision old = tk_Revision y ∧ sameTrackingSnapshot old y = true)))).
Proof.
  unfold update_tx. destruct (t !! (h, tk_ID y)) as [old|]; [|discriminate]. intros E. exists old. split; [reflexivity|].
  revert E. generalize (updated_row y old) as row. intros row E.
  destruct (updatable now y old).
  - destruct (tracking_checks row); [|discriminate]. left. split; [reflexivity|]. congruence.
  - destruct (expired now2 old); [discriminate|]. destruct (String.eqb_spec (tk_OwnerID old) (tk_OwnerID y)) as [Eo|]; cbn [negb orb] in E; [|discriminate].
    destruct (Z.ltb_spec (tk_Revision old) (tk_Revision y)); cbn [orb] in E; [discriminate|]. right. split; [reflexivity|]. split; [|split; [done|]].
    + destruct (_ && _); [discriminate|]. congruence.
    + destruct (Z.eqb_spec (tk_Revision old) (tk_Revision y)) as [Er|]; [|left; lia]. right. split; [done|].
      destruct (sameTrackingSnapshot old y); [reflexivity|discriminate].
Qed.

Lemma updatable_spec (now : Time) (y old : TrackingRecord) :
  updatable now y old = true ↔ tk_OwnerID old = tk_OwnerID y ∧ tk_Revision old < tk_Revision y ∧ tk_FinishedAt old = None ∧ now < tk_RetentionExpiresAt old.
Proof.
  unfold updatable. rewrite !andb_true_iff, String.eqb_eq, !Z.ltb_lt, negb_true_iff, bool_decide_eq_false, <- eq_None_not_Some. tauto.
Qed.

Lemma reserve_shows (now : Time) (h : string) (other : TrackingRecord) (t t' : tracking_table) (a : unit) x :
  now < my_retention → shows t x → reserve_tx now h other t = Ok (a, t') → shows t' x.
Proof.
  intros Hn [Hx Ht] [Ep ->]%reserve_tx_spec. split; [done|].
  assert (purge h (tk_ID other) now t !! my_key = Some (stored_tracking x)) as Hp.
  { apply purge_keeps; [done|]. unfold expired. destruct (stored_identity x Hx) as (_ & _ & Er & _). apply Z.leb_gt. lia. }
  rewrite lookup_insert_ne; [done|]. congruence.
Qed.
Lemma update_shows (now now2 : Time) (h : string) (y : TrackingRecord) (t t' : tracking_table) (a : unit) x :
  (tk_OwnerID y = tk_OwnerID r → snapshot_of r ops y) → shows t x → update_tx now now2 h y t = Ok (a, t') → ∃ z, shows t' z ∧ advances x z.
Proof.
  intros Hy [Hx Ht] (old & Eo & [[Eu ->]|(_ & -> & _)])%update_tx_spec; [|by exists x; split; [|left]].
  destruct (decide ((h, tk_ID y) = my_key)) as [Ek|Hne].
  - assert (old = stored_tracking x) as -> by (rewrite Ek, Ht in Eo; by injection Eo). clear Eo.
    apply updatable_spec in Eu as (E1 & E2 & _). destruct (stored_identity x Hx) as (_ & Eown & _ & Erev). specialize (Hy (eq_trans (eq_sym E1) Eown)).
    exists y. split; [split; [done|]|].
    + rewrite Ek, lookup_insert_eq. apply (f_equal Some). by apply updated_snapshot.
    + apply snapshot_advances; [done|done|]. rewrite Erev in E2. by apply Z.lt_le_incl.
  - exists x. split; [split; [done|]|by left]. by rewrite lookup_insert_ne.
Qed.

Lemma tracking_step_shows t t' x : tracking_step t t' → shows t x → ∃ z, shows t' z ∧ advances x z.
Proof.
  intros St Hs. destruct St as [f f' now now' h other rb Ho Hn|f now now2 h y Hy].
  - exists x. split; [|by left]. unfold ReserveTracking. destruct (_ || _); [done|].
    destruct (tracking_tx_table f (reserve_tx now h other) t) as [E|[a E]]; destruct (tracking_tx _ _ t) as [[t2 answer] ins]; cbn in *; [by subst|].
    by eapply reserve_shows.
  - unfold UpdateTracking. destruct (_ || _); [by exists x; split; [|left]|].
    destruct (tracking_tx_table f (update_tx now now2 h y) t) as [E|[a E]]; destruct (tracking_tx _ _ t) as [[t2 answer] ins]; cbn in *.
    + subst. exists x. split; [done|by left].
    + by eapply update_shows.
Qed.
Lemma tracking_steps_shows t t' x : rtc tracking_step t t' → shows t x → ∃ z, shows t' z ∧ advances x z.
Proof.
  intros R. revert x. induction R as [u|u u1 u' St _ IH]; intros x Hs; [by exists x; split; [|left]|].
  destruct (tracking_step_shows _ _ _ St Hs) as (y & Hy & A1). destruct (IH y Hy) as (z & Hz & A2). exists z. split; [done|by eapply advances_trans].
Qed.
(** A snapshot that has ended stays. *)
Lemma ended_stays t t' x : rtc tracking_step t t' → shows t x → is_Some (tk_FinishedAt x) → shows t' x.
Proof. intros R Hs [e Ef]. destruct (tracking_steps_shows _ _ _ R Hs) as (z & Hz & [->|[A _]]); [done|congruence]. Qed.

Lemma reserved_row_shows : tk_Status r = "running" → tk_Stage r = Some "preparing" → tk_Reason r = None → tk_UpdatedAt r = tk_CreatedAt r →
  tk_LastWorkerHeartbeatAt r = tk_CreatedAt r → tk_LastProgressAt r = None → tk_FinishedAt r = None → tk_NextAttemptAt r = None → tk_AttemptsUsed r = 0 →
  tk_OutcomeConfirmed r = None → tk_ErrorCode r = None → reserved_row r = stored_tracking r.
Proof.
  intros E1 E2 E3 E4 E5 E6 E7 E8 E9 E10 E11. unfold reserved_row, stored_tracking. cbn. f_equal; try congruence.
  - by rewrite E6.
  - by rewrite E7.
  - by rewrite E8.
Qed.

(** The answer of an update of the owner. *)
Lemma update_acknowledged (f : fate) (now now2 : Time) (y x : TrackingRecord) (t t' : tracking_table) :
  shows t x → snapshot_of r ops y → UpdateTracking f now now2 hash y t = (t', Ok tt) → ∃ z, shows t' z ∧ tk_Revision y ≤ tk_Revision z.
Proof.
  intros [Hx Ht] Hy. unfold UpdateTracking. destruct (_ || _); [discriminate|].
  destruct (tracking_tx f (update_tx now now2 hash y) t) as [[t2 answer] ch] eqn:E. intros [= <- Ea].
  destruct answer as [[]|[[]| |]]; try discriminate Ea. apply tracking_tx_ok, update_tx_spec in E as (old & Eo & Hu).
  assert (tk_ID y = tk_ID r) as Eid by apply (snapshot_same y Hy). rewrite Eid in Eo, Hu. fold my_key in Eo, Hu. rewrite Ht in Eo.
  assert (old = stored_tracking x) as -> by congruence. clear Eo. destruct Hu as [[Eu ->]|(_ & -> & _ & Er)].
  - exists y. split; [|done]. split; [done|]. rewrite lookup_insert_eq. apply (f_equal Some). by apply updated_snapshot.
  - exists x. split; [done|]. destruct (stored_identity x Hx) as (_ & _ & _ & Erev). lia.
Qed.

(** An update that is committed in time is acknowledged. *)
Lemma update_succeeds (now now2 : Time) (y x : TrackingRecord) (t : tracking_table) :
  validScope hash = true → ValidTrackingID (tk_ID r) = true → ValidTrackingID (tk_OwnerID r) = true → request_ok r → base_ok r → shape r →
  shows t x → snapshot_of r ops y → now < my_retention → now2 < my_retention → (UpdateTracking Committed now now2 hash y t).2 = Ok tt.
Proof.
  intros Hh Hi Hw K B Sh [Hx Ht] Hy Hn Hn2. destruct (snapshot_same y Hy) as (Eid & Eow & _). unfold UpdateTracking. rewrite Eid, Eow, Hh, Hi, Hw. cbn [negb orb].
  destruct (stored_identity x Hx) as (_ & Xown & Xret & Xrev).
  assert (∃ u, update_tx now now2 hash y t = Ok (tt, u)) as [u Eu]; [|unfold tracking_tx; by rewrite Eu].
  unfold update_tx. rewrite Eid. fold my_key. rewrite Ht. destruct (updatable now y (stored_tracking x)) eqn:Eu.
  - rewrite (updated_snapshot x y Hx Hy), (snapshot_checks y K B Sh Hy). by eexists.
  - assert (expired now2 (stored_tracking x) = false) as -> by (unfold expired; apply Z.leb_gt; lia). rewrite Xown, Eow, String.eqb_refl. cbn [negb orb].
    assert (tk_Revision y ≤ tk_Revision x) as Hle.
    { apply Z.nlt_ge. intros Hlt. apply not_true_iff_false in Eu. apply Eu, updatable_spec. rewrite Xown, Xret, Xrev, Eow. split; [done|]. split; [done|]. split; [|done].
      destruct (snapshots_ordered x y Hx Hy) as [[->|[Hf _]]|Ha]; [lia| |apply advances_mono in Ha; lia]. exact (f_equal (fmap stamp) Hf). }
    rewrite (proj2 (Z.ltb_ge (tk_Revision (stored_tracking x)) (tk_Revision y))) by lia. cbn [orb].
    destruct (Z.eqb_spec (tk_Revision (stored_tracking x)) (tk_Revision y)) as [Er|]; cbn [andb]; [|by eexists].
    assert (x = y) as -> by (apply snapshot_unique; [done|done|lia]).
    assert (stored_tracking (stored_tracking y) = stored_tracking y) as Ey.
    { unfold stored_tracking. cbn. f_equal; [apply stamp_idem..|apply stamps_idem|apply stamps_idem|apply stamps_idem]. }
    unfold sameTrackingSnapshot. rewrite bool_decide_eq_true_2 by done. by eexists.
Qed.

(** Nobody else reserves the identifier. *)
Lemma reserve_excluded (f f' : fate) (now now' : Time) (other x : TrackingRecord) (readback t : tracking_table) :
  shows t x → tk_ID other = tk_ID r → now < my_retention → (ReserveTracking f f' now now' hash other readback t).2 ≠ Ok tt.
Proof.
  intros [Hx Ht] Eid Hn. unfold ReserveTracking. destruct (_ || _); [done|].
  assert (∃ e, reserve_tx now hash other t = Err e) as [e Ee].
  { destruct (reserve_tx now hash other t) as [[[] t']|e] eqn:E; [|by eexists]. apply reserve_tx_spec in E as [Ep _]. rewrite Eid in Ep. fold my_key in Ep.
    rewrite (purge_keeps hash (tk_ID r) now t my_key (stored_tracking x)) in Ep; [done|done|]. unfold expired. apply Z.leb_gt.
    by destruct (stored_identity x Hx) as (_ & _ & -> & _). }
  unfold tracking_tx. rewrite Ee. destruct f; cbn; destruct e as [[]| |]; done.
Qed.
End Run.

Lemma reserve_ok_row (f f' : fate) (now now' : Time) (hash : string) (r : TrackingRecord) (readback t t' : tracking_table) :
  ReserveTracking f f' now now' hash r readback t = (t', Ok tt) → f ≠ RolledBack →
  t' !! (hash, tk_ID r) = Some (reserved_row r) ∧ validScope hash = true ∧ ValidTrackingID (tk_OwnerID r) = true.
Proof.
  unfold ReserveTracking. intros E Hf. destruct (_ || _) eqn:Ev; [discriminate|]. rewrite !orb_false_iff, !negb_false_iff in Ev. destruct Ev as [[[[[Eh _] Eo] _] _] _].
  split; [|done]. unfold tracking_tx in E. destruct f; [| |done|].
  - destruct (reserve_tx now hash r t) as [[[] u]|e] eqn:Er; [|by destruct e as [[]| |]]. apply reserve_tx_spec in Er as [_ ->]. injection E as <-. by rewrite lookup_insert_eq.
  - discriminate.
  - destruct (reserve_tx now hash r t) as [[[] u]|e] eqn:Er; [|by destruct e as [[]| |]]. apply reserve_tx_spec in Er as [_ ->].
    assert (t' = <[(hash, tk_ID r):=reserved_row r]> (purge hash (tk_ID r) now t)) as -> by congruence. by rewrite lookup_insert_eq.
Qed.

(** C20: After the reservation of a tracked request, until its retention ends, the table
    shows a snapshot of its session, whole, whatever reservations other invocations
    make, and in whatever order, however often and with whatever fate the snapshots
    are written.  An update that is committed is acknowledged; an acknowledged update
    means that the table shows that snapshot or a later one; once a final snapshot is
    acknowledged the table shows it for good; and no other invocation can reserve the
    identifier. *)
Theorem tracking_table_follows owner id endpoint now deadline r ops hash f f' n n' (readback t0 t1 t : tracking_table) :
  NewTrackingRecord owner id endpoint now deadline = Ok r → stamp now < stamp deadline →
  Forall (fun op => op_counts op.2) ops → 2 * llen ops < int64_max →
  ReserveTracking f f' n n' hash r readback t0 = (t1, Ok tt) → f ≠ RolledBack → rtc (tracking_step r ops) t1 t →
  (∃ x, shows r ops hash t x)
  ∧ (∀ n1 n2 y, snapshot_of r ops y → n1 < my_retention r → n2 < my_retention r → (UpdateTracking Committed n1 n2 hash y t).2 = Ok tt)
  ∧ (∀ g n1 n2 y t', snapshot_of r ops y → UpdateTracking g n1 n2 hash y t = (t', Ok tt) →
       ∃ z, shows r ops hash t' z ∧ tk_Revision y ≤ tk_Revision z
         ∧ (is_Some (tk_FinishedAt y) → z = y ∧ ∀ t'', rtc (tracking_step r ops) t' t'' → shows r ops hash t'' y))
  ∧ (∀ g g' m m' other rb, tk_ID other = tk_ID r → m < my_retention r → (ReserveTracking g g' m m' hash other rb t).2 ≠ Ok tt).
Proof.
  intros E Hd Hc Hl Er Hf R. destruct (NewTrackingRecord_ok _ _ _ _ _ _ E Hd) as (K & B & Sh & R1 & Hi & _).
  destruct (reserve_ok_row _ _ _ _ _ _ _ _ _ Er Hf) as (Ht & Hh & Ho).
  assert (reserved_row r = stored_tracking r) as Ew.
  { unfold NewTrackingRecord in E. destruct (_ || _ || _); [done|]. destruct owner as [owner|]; [|done]. injection E as <-. by apply reserved_row_shows. }
  assert (snapshot_of r ops r) as Hr by (by exists 0%nat). assert (shows r ops hash t1 r) as H1 by (split; [done|]; by rewrite <- Ew).
  destruct (tracking_steps_shows r ops Hc R1 Hl hash _ _ _ R H1) as (x & Hx & _). split_and!.
  - by exists x.
  - intros n1 n2 y Hy H2 H3. by apply (update_succeeds r ops Hc R1 Hl hash n1 n2 y x t).
  - intros g n1 n2 y t' Hy Eu. destruct (update_acknowledged r ops Hc Hl hash g n1 n2 y x t t' Hx Hy Eu) as (z & Hz & Hle). exists z.
    split; [done|]. split; [done|]. intros Hfin.
    assert (z = y) as -> by (apply (snapshot_unique r ops Hc R1 Hl); [apply Hz|done|]; pose proof (snapshot_last r ops Hc R1 Hl y z Hy (proj1 Hz) Hfin); lia).
    split; [done|]. intros t'' R'. by apply (ended_stays r ops Hc R1 Hl hash t').
  - intros g g' m m' other rb Eid Hm. by apply (reserve_excluded r ops Hc Hl hash g g' m m' other x).
Qed.
End Sessions.

(** ** A tracked request *)

Definition demo_tracking_id : string := "00000000-0000-4000-8000-000000000001".
Definition demo_owner_id : string := "00000000-0000-4000-8000-000000000002".
Definition demo_record : TrackingRecord :=
  match NewTrackingRecord (Some demo_owner_id) demo_tracking_id "/v1/responses" Second Minute with Ok r => r | Err _ => MkTracking "" "" "" None None 0 0 0 0 0 None None None 0 None None "" 0 end.
(** The request waits for a permit, enters the provider, is throttled, waits, and its
    answer is projected. *)
Definition demo_ops : list (Time * session_op) :=
  [(2 * Second, OpAdmissionWait "dispatch_pending" None); (3 * Second, OpExecute false); (3 * Second, OpAttempt 1);
   (4 * Second, OpStartRetry "rate_limit" Second (4 * Second)); (5 * Second, OpSnapshot true); (6 * Second, OpEndWait (Some 3)); (6 * Second, OpExecute false);
   (7 * Second, OpProject true (7 * Second))].
Definition demo_end : TrackingRecord := ss_record (run_session (NewTrackingSession demo_record) demo_ops).

Lemma tracking_snapshots_storable_witness :
  tk_Status demo_end = "completed" ∧ tk_Revision demo_end = 10 ∧ tracking_checks (stored_tracking demo_end) = true.
Proof.
  split; [vm_compute; reflexivity|]. split; [vm_compute; reflexivity|].
  refine (proj1 (tracking_snapshots_storable (Some demo_owner_id) demo_tracking_id "/v1/responses" Second Minute demo_record demo_ops _ _ _ _)).
  - vm_compute. reflexivity.
  - vm_compute. reflexivity.
  - repeat constructor; vm_compute; try discriminate; exact I.
  - vm_compute. reflexivity.
Defined.

Definition demo_reserved_table : tracking_table :=
  (ReserveTracking Committed Committed Second Second demo_scope demo_record ∅ ∅).1.
Definition demo_final_table : tracking_table := (UpdateTracking Committed (8 * Second) (8 * Second) demo_scope demo_end demo_reserved_table).1.

Lemma answered_with {A B : Type} (p : A * B) (b : B) : p.2 = b → p = (p.1, b).
Proof. intros <-. apply surjective_pairing. Qed.
Lemma demo_reserve_answer : (ReserveTracking Committed Committed Second Second demo_scope demo_record ∅ ∅).2 = Ok tt.
Proof. vm_compute. reflexivity. Qed.
Lemma demo_update_answer : (UpdateTracking Committed (8 * Second) (8 * Second) demo_scope demo_end demo_reserved_table).2 = Ok tt.
Proof. vm_compute. reflexivity. Qed.

Lemma tracking_table_follows_witness :
  (∃ x, shows demo_record demo_ops demo_scope demo_reserved_table x)
  ∧ ∃ z, shows demo_record demo_ops demo_scope demo_final_table z ∧ z = demo_end.
Proof.
  destruct (tracking_table_follows (Some demo_owner_id) demo_tracking_id "/v1/responses" Second Minute demo_record demo_ops demo_scope Committed Committed
    Second Second ∅ ∅ demo_reserved_table demo_reserved_table) as (H1 & _ & H2 & _).
  - vm_compute. reflexivity.
  - vm_compute. reflexivity.
  - repeat constructor; vm_compute; try discriminate; exact I.
  - vm_compute. reflexivity.
  - exact (answered_with _ _ demo_reserve_answer).
  - discriminate.
  - apply rtc_refl.
  - split; [exact H1|]. destruct (H2 Committed (8 * Second) (8 * Second) demo_end demo_final_table) as (z & Hz & _ & Hf).
    + exists (length demo_ops). reflexivity.
    + exact (answered_with _ _ demo_update_answer).
    + exists z. split; [exact Hz|]. apply Hf. vm_compute. eexists. reflexivity.
Defined.
