(* ===== verification/Dispatcher.v ===== *)
(** * Dispatcher: the first generation of the batch service

    Models [src/stateful/batch]: workflows.go (the workflow of a job, and the
    dispatcher that was the admission authority before the pools), and the decoding of
    its signals.  A workflow is a [prog] of its commands to the engine; the dispatcher
    is cut where its loops come round, so that each piece is finite: [position] says
    which piece comes next, and the variables of the workflow are a record. *)
From stdpp Require Import gmap.
From S2P Require Import Prelude BatchController BatchPool PoolWorkflow Ledger LedgerQueue AttemptFlow.

Open Scope string_scope.
Open Scope list_scope.
Open Scope Z_scope.

(** ** Data *)

Record PendingJob := MkPending { pj_Job : JobRef; pj_Ready : list Z; pj_Active : Z; pj_Expired : bool }.
Record DispatcherState := MkDispatcher {
  dp_Controller : Controller;
  dp_Jobs : list PendingJob;
  dp_Turn : Z;
  dp_Processed : Z;
  dp_Quiescing : bool;
  dp_Upgrade : bool;
  dp_Unresolved : Z;
  dp_Active : Z;
}.

Record completion := MkCompletion {
  cm_Ref : Ref; cm_Probe : bool; cm_DispatchedAt : Time; cm_ReservedAt : Time; cm_Outcome : Outcome; cm_Counts : Counts }.
Record CooldownUpdate := MkCooldown { cu_Jobs : list JobRef; cu_Reason : string; cu_Next : option Time }.
Record LegacyHandoff := MkHandoff { lh_WorkflowID : string; lh_Jobs : list JobRef }.

Definition same_job (j : JobRef) (scope id : string) : bool := String.eqb (jr_JobID j) id && String.eqb (jr_Scope j) scope.

(** ** The turn *)

Definition take_item (j : PendingJob) (rest : list Z) : PendingJob := j <| pj_Ready := rest |> <| pj_Active ::= Z.succ |>.

(** The rounds [n], [n+1], ... of the loop. *)
Fixpoint pop_rounds (rounds : nat) (n : Z) (s : DispatcherState) : DispatcherState * option Ref :=
  match rounds with
  | O => (s, None)
  | S rounds =>
      let i := Z.rem (dp_Turn s + n) (llen (dp_Jobs s)) in
      match dp_Jobs s !! Z.to_nat i with
      | Some j =>
          match pj_Ready j with
          | index :: rest =>
              if pj_Expired j then pop_rounds rounds (n + 1) s
              else (s <| dp_Jobs ::= <[Z.to_nat i := take_item j rest]> |> <| dp_Turn := Z.rem (i + 1) (llen (dp_Jobs s)) |>,
                    Some (MkRef (jr_Scope (pj_Job j)) (jr_JobID (pj_Job j)) index))
          | [] => pop_rounds rounds (n + 1) s
          end
      | None => (s, None)
      end
  end.
Definition PopReady (s : DispatcherState) : DispatcherState * option Ref := pop_rounds (length (dp_Jobs s)) 0 s.

(** ** The workflow engine *)

(** The error of an activity or of a timer: the type of an application error. *)
Inductive act_error : Type := ApplicationError (type : string) | OtherFailure.

Inductive wf_activity : Type → Type :=
| ActEnqueue (j : JobRef) : wf_activity unit
| ActStatus (j : JobRef) : wf_activity Status
| ActExpire (j : JobRef) : wf_activity unit
| ActCooldown (u : CooldownUpdate) : wf_activity unit
| ActPrepareLegacyJobs (h : LegacyHandoff) : wf_activity unit
| ActAdvanceLegacyPool (h : LegacyHandoff) : wf_activity PoolFence
(** with its time from start to close *)
| ActGenerate (r : Ref) (budget : Duration) : wf_activity Outcome
| ActRecord (r : Ref) (o : Outcome) : wf_activity Counts.

(** The channels of the dispatcher, as it names them. *)
Inductive channel : Type → Type :=
| quiesce_channel : channel bool
| upgrade_channel : channel bool
| wake_channel : channel JobRef
| resume_channel : channel bool
| configure_channel : channel Policy
| finished_channel : channel completion.

(** What the selector was woken by. *)
Inductive selected : Type :=
| Fired
| Received {A : Type} (ch : channel A) (a : A).

(** A call that the dispatcher has admitted: what its coroutine captures. *)
Record launch := MkLaunch { la_Ref : Ref; la_Probe : bool; la_Reserved : Time }.

Inductive wf_event : Type → Type :=
| WfNow : wf_event Time
(** whether the history has the version of a change *)
| GetVersion (change : string) : wf_event bool
| SetQueryHandler : wf_event (res act_error unit)
| ExecutionID : wf_event string
(** [GetContinueAsNewSuggested() || GetCurrentHistoryLength() > 10000] *)
| ContinueSuggested : wf_event bool
(** the values that a loop of [ReceiveAsync] takes from a channel *)
| Drained {A : Type} (ch : channel A) : wf_event (list A)
| ExecuteActivity {A : Type} (act : wf_activity A) : wf_event (res act_error A)
| Go (l : launch) : wf_event unit
| WfSleep (d : Duration) : wf_event (res act_error unit)
| Select (delay : Duration) : wf_event selected.

Abbreviation wf := (prog wf_event).

(** ** The workflow of a job *)

Record JobLoop := MkJobLoop { jl_Owned : bool; jl_Expired : bool }.

(** One round: [None] to go on. *)
Definition batch_round (job : JobRef) (l : JobLoop) : wf (JobLoop * option (res act_error unit)) :=
  status ← trigger (ExecuteActivity (ActStatus job));
  match status with
  | Err e => mret (l, Some (Err e))
  | Ok status =>
      if counts_Done (st_Counts status) then mret (l, Some (Ok tt))
      else
        now ← trigger WfNow;
        let remaining := Sub (jr_Deadline job) now in
        if remaining <=? 0 then
          if negb (jl_Owned l) then
            expired ← trigger (ExecuteActivity (ActExpire job)); mret (l, Some expired)
          else if negb (jl_Expired l) then
            expired ← trigger (ExecuteActivity (ActExpire job));
            match expired with
            | Err e => mret (l, Some (Err e))
            | Ok _ => mret (l <| jl_Expired := true |>, None)
            end
          else
            slept ← trigger (WfSleep (5 * Second));
            mret (l, match slept with Err e => Some (Err e) | Ok _ => None end)
        else
          slept ← trigger (WfSleep (Z.min remaining (30 * Second)));
          mret (l, match slept with Err e => Some (Err e) | Ok _ => None end)
  end.

Definition batch_start (job : JobRef) : wf (JobLoop * option (res act_error unit)) :=
  owned ← trigger (GetVersion "claimed-attempt-finalization");
  enqueued ← trigger (ExecuteActivity (ActEnqueue job));
  mret (MkJobLoop owned false, match enqueued with Err e => Some (Err e) | Ok _ => None end).

(** The workflow for a number of rounds; [None] when they have run out. *)
Fixpoint batch_rounds (n : nat) (job : JobRef) (l : JobLoop) : wf (option (res act_error unit)) :=
  match n with
  | O => mret None
  | S n =>
      '(l, returned) ← batch_round job l;
      match returned with Some r => mret (Some r) | None => batch_rounds n job l end
  end.
Definition BatchWorkflow (n : nat) (job : JobRef) : wf (option (res act_error unit)) :=
  '(l, returned) ← batch_start job;
  match returned with Some r => mret (Some r) | None => batch_rounds n job l end.

(** ** The coroutine of a call *)

Definition activity_failed : Outcome :=
  zeroOutcome <| out_Kind := "failed" |>
    <| out_Error := item_error "activity_failed" "The provider activity failed; inspect correlated diagnostics." |>.
Definition activityBudget (long : bool) : Duration := if long then MaximumGenerationBudget + 30 * Second else 210 * Second.

(** What it sends, if anything. *)
Definition generate_item (long : bool) (l : launch) : wf (option completion) :=
  let r := la_Ref l in
  generated ← trigger (ExecuteActivity (ActGenerate r (activityBudget long)));
  let outcome := match generated with Ok outcome => outcome | Err _ => activity_failed end in
  let dispatched := default (la_Reserved l) (out_StartedAt outcome) in
  recorded ← trigger (ExecuteActivity (ActRecord r outcome));
  mret (match recorded with
        | Ok counts => Some (MkCompletion r (la_Probe l) dispatched (la_Reserved l) outcome counts)
        | Err _ => None
        end).

(** ** The variables of the dispatcher *)

Record Dispatcher := MkVariables {
  dv_s : DispatcherState;
  dv_active : Z;
  dv_lastWork : Time;
  dv_nextHeartbeat : Time;
  dv_longGenerationBudgets : bool;
  dv_coalesceHeartbeats : bool;
}.

Definition query_state (d : Dispatcher) : DispatcherState := (dv_s d) <| dp_Active := dv_active d |>.

(** [nextHeartbeat = workflow.Now(ctx)] *)
Definition beat_now (d : Dispatcher) : wf Dispatcher := now ← trigger WfNow; mret (d <| dv_nextHeartbeat := now |>).

Definition enqueue (d : Dispatcher) (job : JobRef) : wf Dispatcher :=
  if existsb (fun j => same_job (pj_Job j) (jr_Scope job) (jr_JobID job)) (dp_Jobs (dv_s d)) then mret d
  else if (jr_Count job <? 1) || (MaximumItems <? jr_Count job) then mret d
  else
    let ready := map Z.of_nat (seq 0 (Z.to_nat (jr_Count job))) in
    let d := d <| dv_s ::= fun s => s <| dp_Jobs ::= fun l => l ++ [MkPending job ready 0 false] |> |> in
    now ← trigger WfNow; mret (d <| dv_lastWork := now |>).

(** The first job of a completion. *)
Fixpoint finish_job (done : completion) (jobs : list PendingJob) : list PendingJob :=
  match jobs with
  | [] => []
  | j :: rest =>
      if same_job (pj_Job j) (ref_Scope (cm_Ref done)) (ref_JobID (cm_Ref done)) then
        let j := j <| pj_Active ::= Z.pred |> in
        let j := if String.eqb (out_Kind (cm_Outcome done)) "rejected" && negb (pj_Expired j)
                 then j <| pj_Ready ::= fun l => l ++ [ref_Index (cm_Ref done)] |> else j in
        (if counts_Done (cm_Counts done) then j <| pj_Ready := [] |> <| pj_Expired := true |> else j) :: rest
      else j :: finish_job done rest
  end.

Definition failed_activity (o : Outcome) : bool :=
  match out_Error o with Some e => String.eqb (ie_Code e) "activity_failed" | None => false end.

Definition finish (d : Dispatcher) (done : completion) : wf Dispatcher :=
  let d := d <| dv_active ::= Z.pred |> in
  let d := d <| dv_s ::= fun s => (if failed_activity (cm_Outcome done) then s <| dp_Unresolved ::= Z.succ |> else s)
                                   <| dp_Processed ::= Z.succ |> |> in
  lastWork ← trigger WfNow;
  let d := d <| dv_lastWork := lastWork |> <| dv_s ::= fun s => s <| dp_Jobs ::= finish_job done |> |> in
  let before := dp_Controller (dv_s d) in
  now ← trigger WfNow;
  let after := CompleteOutcome before now (cm_DispatchedAt done) (cm_ReservedAt done) (cm_Probe done) (cm_Outcome done) in
  let d := d <| dv_s ::= fun s => s <| dp_Controller := after |> |> in
  if negb (dv_coalesceHeartbeats d) || negb (Bool.eqb (Cooling before) (Cooling after)) || negb (Bool.eqb (Paused before) (Paused after))
     || negb (time_Equal (NextEligible before) (NextEligible after))
  then beat_now d else mret d.

(** ** Signals *)

Definition on_stop (upgrade : bool) (d : Dispatcher) (stop : bool) : wf Dispatcher :=
  if stop then beat_now (d <| dv_s ::= fun s => s <| dp_Quiescing := true |> <| dp_Upgrade ::= fun u => upgrade || u |> |>) else mret d.

Definition on_reset (d : Dispatcher) (reset : bool) : wf Dispatcher :=
  if reset then
    now ← trigger WfNow;
    beat_now (d <| dv_s ::= fun s => s <| dp_Controller ::= fun c =>
      c <| Paused := false |> <| Cooling := true |> <| Probing := false |> <| NextEligible := now |> |> |>)
  else mret d.

Definition on_configure (d : Dispatcher) (p : Policy) : wf Dispatcher :=
  match Configure (dp_Controller (dv_s d)) p with
  | Err _ => mret d
  | Ok c => beat_now (d <| dv_s ::= fun s => s <| dp_Controller := c |> |>)
  end.

(** A loop over what a channel holds. *)
Fixpoint each {A S : Type} (handle : S → A → wf S) (s : S) (l : list A) : wf S :=
  match l with [] => mret s | a :: l => s ← handle s a; each handle s l end.
Definition drain_channel {A : Type} (ch : channel A) (handle : Dispatcher → A → wf Dispatcher) (d : Dispatcher) : wf Dispatcher :=
  received ← trigger (Drained ch); each handle d received.

Definition drainSignals (d : Dispatcher) : wf Dispatcher :=
  d ← drain_channel quiesce_channel (on_stop false) d;
  d ← drain_channel upgrade_channel (on_stop true) d;
  d ← drain_channel wake_channel enqueue d;
  d ← drain_channel resume_channel on_reset d;
  policies ← trigger (Drained configure_channel);
  d ← each on_configure d (decoded_policies zeroPolicy policies);
  drain_channel finished_channel finish d.

(** The callbacks of the selector. *)
Definition on_selected (d : Dispatcher) (x : selected) : wf Dispatcher :=
  match x with
  | Fired => mret d
  | Received ch a =>
      match ch in channel A return A → wf Dispatcher with
      | quiesce_channel => on_stop false d
      | upgrade_channel => on_stop true d
      | wake_channel => enqueue d
      | resume_channel => on_reset d
      | configure_channel => fun p => on_configure d (decode_policy zeroPolicy p)
      | finished_channel => finish d
      end a
  end.

(** ** The loop of the dispatcher *)

(** How the workflow ends: an error, or a continuation as another run. *)
Inductive ending : Type :=
| Completed_
| FailedPolicy (e : policy_error)
| FailedActivity (e : act_error)
| FailedSnapshot
| ContinueDispatcher (s : DispatcherState)
| ContinuePool (s : PoolState).

(** Where the loop stands: at its top; in the loop that prepares a handoff; behind the
    handoff; in the loop that admits calls; before the wait.  [now] and [drain] are the
    variables of those names. *)
Inductive position : Type :=
| Top
| Preparing (now : Time) (identity : string) (prepared : Z)
| Steady (now : Time)
| Admitting (drain : bool)
| Resting (drain : bool).
Inductive next : Type := Goto (p : position) | Ended (e : ending).

Section Loop.
Variable marshal_len : PoolState → Z.

Definition refs (d : Dispatcher) : list JobRef := map pj_Job (dp_Jobs (dv_s d)).

Definition publish (d : Dispatcher) : wf (res act_error unit) :=
  let s := dv_s d in
  let c := dp_Controller s in
  let update reason next := ExecuteActivity (ActCooldown (MkCooldown (refs d) reason next)) in
  if dp_Quiescing s then trigger (update "workflow_rollover" None)
  else if Paused c then trigger (update "account_restricted" None)
  else if Cooling c then trigger (update "provider_throttled" (Some (NextEligible c)))
  else
    now ← trigger WfNow;
    let v := WindowWait c now in
    if negb (IsZero v) then trigger (update "admission_window" (Some v)) else trigger (update "" None).

(** The jobs whose deadline has come. *)
Fixpoint expire_jobs (now : Time) (jobs : list PendingJob) : wf (res act_error (list PendingJob)) :=
  match jobs with
  | [] => mret (Ok [])
  | j :: rest =>
      if negb (pj_Expired j) && negb (Before now (jr_Deadline (pj_Job j))) then
        expired ← trigger (ExecuteActivity (ActExpire (pj_Job j)));
        match expired with
        | Err e => mret (Err e)
        | Ok _ => rest ← expire_jobs now rest; mret (let? rest := rest in Ok (j <| pj_Expired := true |> <| pj_Ready := [] |> :: rest))
        end
      else rest ← expire_jobs now rest; mret (let? rest := rest in Ok (j :: rest))
  end.

Definition live_job (j : PendingJob) : bool := negb (pj_Expired j) || (0 <? pj_Active j).
Definition keep_jobs (s : DispatcherState) : DispatcherState :=
  let s := s <| dp_Jobs ::= List.filter live_job |> in
  if llen (dp_Jobs s) <=? dp_Turn s then s <| dp_Turn := 0 |> else s.

Definition top (d : Dispatcher) : wf (Dispatcher * next) :=
  d ← drainSignals d;
  now ← trigger WfNow;
  jobs ← expire_jobs now (dp_Jobs (dv_s d));
  match jobs with
  | Err e => mret (d, Ended (FailedActivity e))
  | Ok jobs =>
      let d := d <| dv_s ::= fun s => keep_jobs (s <| dp_Jobs := jobs |>) |> in
      if dp_Upgrade (dv_s d) && (dv_active d =? 0) && (dp_Unresolved (dv_s d) =? 0) then
        identity ← trigger ExecutionID; mret (d, Goto (Preparing now identity 0))
      else mret (d, Goto (Steady now))
  end.

(** The state that a pool starts from. *)
Definition handoff_state (s : DispatcherState) (fence : PoolFence) : PoolState :=
  let c := dp_Controller s in
  let pool := NewPoolState (fe_PoolID fence) (fe_Generation fence) (ctl_Policy c) in
  let pool := pool <| pool_Controller := c |> <| Sequence := fe_Sequence fence |> <| WindowAnchored := negb (IsZero (WindowStart c)) |> in
  if 0 <? llen (dp_Jobs s) then
    match dp_Jobs s !! Z.to_nat (Z.rem (dp_Turn s + llen (dp_Jobs s) - 1) (llen (dp_Jobs s))) with
    | Some j => pool <| AfterScope := jr_Scope (pj_Job j) |>
    | None => pool
    end
  else pool.

Definition unresolved_execution (e : act_error) : bool :=
  match e with ApplicationError type => String.eqb type "legacy_execution_unresolved" | OtherFailure => false end.

(** Behind the loop that prepares the jobs. *)
Definition hand_over (d : Dispatcher) (now : Time) (identity : string) : wf (Dispatcher * next) :=
  advanced ← trigger (ExecuteActivity (ActAdvanceLegacyPool (MkHandoff identity [])));
  match advanced with
  | Err e =>
      if unresolved_execution e then mret (d <| dv_s ::= fun s => s <| dp_Unresolved ::= Z.succ |> |>, Goto (Steady now))
      else mret (d, Ended (FailedActivity e))
  | Ok fence =>
      d ← drainSignals d;
      let pool := handoff_state (dv_s d) fence in
      mret (d, Ended (if snapshot_accepts marshal_len pool then ContinuePool pool else FailedSnapshot))
  end.

Definition preparing (d : Dispatcher) (now : Time) (identity : string) (prepared : Z) : wf (Dispatcher * next) :=
  d ← drainSignals d;
  let jobs := dp_Jobs (dv_s d) in
  if llen jobs <=? prepared then
    if prepared =? 0 then
      marked ← trigger (ExecuteActivity (ActPrepareLegacyJobs (MkHandoff identity [])));
      match marked with Err e => mret (d, Ended (FailedActivity e)) | Ok _ => hand_over d now identity end
    else hand_over d now identity
  else
    let last := Z.min (prepared + 16) (llen jobs) in
    let page := map pj_Job (take (Z.to_nat (last - prepared)) (drop (Z.to_nat prepared) jobs)) in
    done ← trigger (ExecuteActivity (ActPrepareLegacyJobs (MkHandoff identity page)));
    match done with
    | Err e => mret (d, Ended (FailedActivity e))
    | Ok _ => mret (d, Goto (Preparing now identity last))
    end.

Definition steady (d : Dispatcher) (now : Time) : wf (Dispatcher * next) :=
  drain ← trigger ContinueSuggested;
  if drain && (dv_active d =? 0) then
    d ← drainSignals d;
    let s := (dv_s d) <| dp_Processed := 0 |> in
    mret (d <| dv_s := s |>, Ended (ContinueDispatcher s))
  else if (0 <? llen (dp_Jobs (dv_s d))) && negb (Before now (dv_nextHeartbeat d)) then
    published ← publish d;
    match published with
    | Err e => mret (d, Ended (FailedActivity e))
    | Ok _ => now ← trigger WfNow; mret (d <| dv_nextHeartbeat := Add now (5 * Second) |>, Goto (Admitting drain))
    end
  else mret (d, Goto (Admitting drain)).

(** One round of the admission loop. *)
Definition admitting (d : Dispatcher) (drain : bool) : wf (Dispatcher * next) :=
  if drain || dp_Quiescing (dv_s d) then mret (d, Goto (Resting drain))
  else
    now ← trigger WfNow;
    if negb (CanStart (dp_Controller (dv_s d)) now (dv_active d)) then mret (d, Goto (Resting drain))
    else
      let '(s, ready) := PopReady (dv_s d) in
      let d := d <| dv_s := s |> in
      match ready with
      | None => mret (d, Goto (Resting drain))
      | Some r =>
          let d := d <| dv_active ::= Z.succ |> in
          let probe := Cooling (dp_Controller s) in
          reserved ← trigger WfNow;
          now ← trigger WfNow;
          let d := d <| dv_s ::= fun s => s <| dp_Controller ::= fun c => Start c now |> |> in
          now ← trigger WfNow;
          d ← (if negb (IsZero (WindowWait (dp_Controller (dv_s d)) now)) then beat_now d else mret d);
          _ ← trigger (Go (MkLaunch r probe reserved));
          mret (d, Goto (Admitting drain))
      end.

(** The timer of the selector. *)
Definition rest_delay (d : Dispatcher) (drain : bool) (now : Time) : Duration :=
  let s := dv_s d in
  let c := dp_Controller s in
  if negb drain && negb (dp_Quiescing s) && negb (Paused c) && negb (Probing c) && (dv_active d <? Concurrency (ctl_Policy c))
     && existsb (fun j => 0 <? llen (pj_Ready j)) (dp_Jobs s)
  then Z.min (5 * Second) (Z.max Millisecond (Sub (NextAdmission c now) now))
  else 5 * Second.

Definition wait (d : Dispatcher) (drain : bool) (now : Time) : wf (Dispatcher * next) :=
  woken ← trigger (Select (rest_delay d drain now));
  d ← on_selected d woken;
  mret (d, Goto Top).

Definition unrestricted (c : Controller) : bool := negb (Paused c) && negb (Cooling c).

Definition resting (d : Dispatcher) (drain : bool) : wf (Dispatcher * next) :=
  now ← trigger WfNow;
  if negb (dp_Quiescing (dv_s d)) && (llen (dp_Jobs (dv_s d)) =? 0) && (dv_active d =? 0)
     && (30 * Minute <=? Sub now (dv_lastWork d)) then
    retained ← trigger (GetVersion "retain-idle-admission-restrictions");
    if negb retained || unrestricted (dp_Controller (dv_s d)) then
      d ← drainSignals d;
      if (llen (dp_Jobs (dv_s d)) =? 0) && (negb retained || unrestricted (dp_Controller (dv_s d)))
      then mret (d, Ended Completed_) else wait d drain now
    else wait d drain now
  else wait d drain now.

Definition dispatcher_piece (d : Dispatcher) (p : position) : wf (Dispatcher * next) :=
  match p with
  | Top => top d
  | Preparing now identity prepared => preparing d now identity prepared
  | Steady now => steady d now
  | Admitting drain => admitting d drain
  | Resting drain => resting d drain
  end.

(** The entry of the workflow. *)
Definition dispatcher_entry (s : DispatcherState) : wf (Dispatcher * next) :=
  match policy_Validate (ctl_Policy (dp_Controller s)) with
  | Err e => mret (MkVariables s 0 time_zero time_zero false false, Ended (FailedPolicy e))
  | Ok _ =>
      now ← trigger WfNow;
      long ← trigger (GetVersion "long-generation-budgets");
      coalesce ← trigger (GetVersion "coalesce-status-heartbeats");
      refill ← trigger (GetVersion "refill-window-burst");
      paced ← trigger (GetVersion "pace-recovery-after-probe");
      accumulate ← trigger (GetVersion "accrue-launch-rate-credits");
      honor ← trigger (GetVersion "honor-failed-attempt-retry-hints");
      let s := s <| dp_Controller ::= fun c => c <| RefillWindowBurst := refill |> <| PacedRecovery := paced |>
                                                 <| AccumulatePace := accumulate |> <| HonorFailureHints := honor |> |> in
      let d := MkVariables s 0 now now long coalesce in
      set ← trigger SetQueryHandler;
      mret (d, match set with Err e => Ended (FailedActivity e) | Ok _ => Goto Top end)
  end.
End Loop.
