(* ===== verification/DispatcherSystem.v ===== *)
(** * DispatcherSystem: the dispatcher and its calls in flight

    The runs of [Dispatcher]: its loop, interleaved with the coroutines of the calls it
    has admitted and with the senders of its signals.  The invariant that its books of
    jobs agree with the calls in flight, and what follows for a handoff. *)
From stdpp Require Import gmap relations.
From S2P Require Import Prelude BatchController BatchPool PoolWorkflow PoolInvariant PoolProperties Ledger LedgerQueue AttemptFlow Dispatcher.

Open Scope string_scope.
Open Scope list_scope.
Open Scope Z_scope.

(** ** The world around the dispatcher *)

(** The coroutines that run, what they have sent and is not received yet, those that
    ended without sending; the completions received so far; and the clock. *)
Record flights := MkFlights {
  fl_running : list launch;
  fl_sent : list completion;
  fl_lost : list launch;
  fl_received : list completion;
  fl_time : Time;
}.

Definition launch_of (c : completion) : launch := MkLaunch (cm_Ref c) (cm_Probe c) (cm_ReservedAt c).

(** The calls that the dispatcher has started and not accounted for; [owed] has been
    received and is not handled yet. *)
Definition in_flight (w : flights) (owed : list completion) : list launch :=
  fl_running w ++ map launch_of (fl_sent w) ++ fl_lost w ++ map launch_of owed.

(** Some run of a program returns a value. *)
Fixpoint may_return {R : Type} (p : wf R) (r : R) : Prop :=
  match p with Ret x => x = r | Do e k => ∃ a, may_return (k a) r end.

Section World.
(** Whether the clocks of the workers are those of the engine. *)
Variable synchronous : Prop.

Inductive coroutine_step : flights → flights → Prop :=
| coroutine_sends w long before l after c t :
    fl_running w = before ++ l :: after → fl_time w ≤ t → may_return (generate_item long l) (Some c) →
    (synchronous → la_Reserved l ≤ cm_DispatchedAt c ≤ t) →
    coroutine_step w (MkFlights (before ++ after) (fl_sent w ++ [c]) (fl_lost w) (fl_received w) t)
| coroutine_lost w long before l after t :
    fl_running w = before ++ l :: after → fl_time w ≤ t → may_return (generate_item long l) None →
    coroutine_step w (MkFlights (before ++ after) (fl_sent w) (l :: fl_lost w) (fl_received w) t)
| time_passes w t :
    fl_time w ≤ t → coroutine_step w (MkFlights (fl_running w) (fl_sent w) (fl_lost w) (fl_received w) t).

Definition receive (w : flights) (received rest : list completion) : flights :=
  MkFlights (fl_running w) rest (fl_lost w) (fl_received w ++ received) (fl_time w).

Definition answered_at {A : Type} (e : wf_event A) (w : flights) (a : A) (w' : flights) : Prop :=
  match e in wf_event A return A → Prop with
  | WfNow => fun t => t = fl_time w ∧ w' = w
  | Drained ch =>
      match ch in channel X return list X → Prop with
      | finished_channel => fun l => l = fl_sent w ∧ w' = receive w l []
      | _ => fun _ => w' = w
      end
  | Select _ => fun x =>
      match x with
      | Received ch v =>
          match ch in channel X return X → Prop with
          | finished_channel => fun c => ∃ rest, fl_sent w = c :: rest ∧ w' = receive w [c] rest
          | _ => fun _ => w' = w
          end v
      | Fired => w' = w
      end
  | Go l => fun _ => w' = MkFlights (fl_running w ++ [l]) (fl_sent w) (fl_lost w) (fl_received w) (fl_time w)
  | _ => fun _ => w' = w
  end a.
(** The coroutines run, and time passes, only where the dispatcher blocks. *)
Definition blocking {A : Type} (e : wf_event A) : bool :=
  match e with ExecuteActivity _ | WfSleep _ | Select _ => true | _ => false end.
Definition wf_answers {A : Type} (e : wf_event A) (w : flights) (a : A) (w' : flights) : Prop :=
  ∃ w1, (if blocking e then rtc coroutine_step w w1 else w1 = w) ∧ answered_at e w1 a w'.

Inductive wf_step {R : Type} : wf R * flights → wf R * flights → Prop :=
| wf_interacts A (e : wf_event A) k a w w' : wf_answers e w a w' → wf_step (Do e k, w) (k a, w').

(** [wp allowed p w Q]: from [w], every command of [p] is allowed when it is given, and
    its result and the world then satisfy [Q]. *)
Fixpoint wp {R : Type} (allowed : launch → flights → Prop) (p : wf R) (w : flights) (Q : R → flights → Prop) : Prop :=
  match p with
  | Ret r => Q r w
  | Do e k => (match e with Go l => allowed l w | _ => True end)
              ∧ ∀ a w', wf_answers e w a w' → wp allowed (k a) w' Q
  end.

Lemma flight_wp_bind {R S : Type} allowed (p : wf R) (f : R → wf S) w Q :
  wp allowed p w (fun r w' => wp allowed (f r) w' Q) → wp allowed (p ≫= f) w Q.
Proof. revert w. induction p as [r|A e k IH]; intros w; [done|]. intros [Ha H]. split; [done|]. intros a w' Hs. by apply IH, H. Qed.
Lemma flight_wp_mono {R : Type} allowed (p : wf R) w (Q Q' : R → flights → Prop) :
  wp allowed p w Q → (∀ r w', Q r w' → Q' r w') → wp allowed p w Q'.
Proof. revert w. induction p as [r|A e k IH]; intros w H HQ; [by apply HQ|]. destruct H as [Ha H]. split; [done|]. intros a w' Hs. apply IH; auto. Qed.
Lemma wp_reach {R : Type} allowed (x y : wf R * flights) Q : rtc wf_step x y → wp allowed x.1 x.2 Q → wp allowed y.1 y.2 Q.
Proof. induction 1 as [|x y z [A e k a w w' Hs] _ IH]; [done|]. intros [_ H]. by apply IH, H. Qed.

(** A command that is not [Go]. *)
Definition quiet {A : Type} (e : wf_event A) : Prop := match e with Go _ => False | _ => True end.
Lemma wp_quiet {A R : Type} allowed (e : wf_event A) (k : A → wf R) w Q :
  quiet e → (∀ a w', wf_answers e w a w' → wp allowed (k a) w' Q) → wp allowed (trigger e ≫= k) w Q.
Proof. intros He H. split; [|exact H]. by destruct e. Qed.
End World.

(** ** Books *)

Definition job_of (j : JobRef) : JobKey := (jr_Scope j, jr_JobID j).
Definition key_of (j : PendingJob) : JobKey := job_of (pj_Job j).
Definition of_job (k : JobKey) (r : Ref) : bool := bool_decide (job_key r = k).
Definition calls_of (k : JobKey) (fl : list Ref) : Z := llen (List.filter (of_job k) fl).

(** The jobs of the dispatcher, and the items that are in flight. *)
Record Books (jobs : list PendingJob) (fl : list Ref) : Prop := {
  bk_flights : NoDup fl;
  bk_jobs : NoDup (map key_of jobs);
  bk_home : ∀ r, r ∈ fl → ∃ j, j ∈ jobs ∧ key_of j = job_key r ∧ 0 ≤ ref_Index r < jr_Count (pj_Job j) ∧ ref_Index r ∉ pj_Ready j;
  bk_active : ∀ j, j ∈ jobs → pj_Active j = calls_of (key_of j) fl;
  bk_ready : ∀ j, j ∈ jobs → NoDup (pj_Ready j) ∧ ∀ i, i ∈ pj_Ready j → 0 ≤ i < jr_Count (pj_Job j);
  bk_expired : ∀ j, j ∈ jobs → pj_Expired j = true → pj_Ready j = [];
}.

Lemma same_job_spec j scope id : same_job j scope id = true ↔ job_of j = (scope, id).
Proof. unfold same_job, job_of. rewrite andb_true_iff, !String.eqb_eq. split; [intros [-> ->]; done|intros [= -> ->]; done]. Qed.

Lemma calls_of_app k l1 l2 : calls_of k (l1 ++ l2) = calls_of k l1 + calls_of k l2.
Proof. unfold calls_of. by rewrite List.filter_app, llen_app. Qed.
#[export] Instance calls_of_perm k : Proper ((≡ₚ) ==> eq) (calls_of k).
Proof.
  intros l1 l2 HP. unfold calls_of, llen. f_equal. induction HP as [|x l l' _ IH|x y l|l l' l'' _ IH1 _ IH2]; cbn; [done| | |congruence].
  - destruct (of_job k x); cbn; congruence.
  - destruct (of_job k x), (of_job k y); done.
Qed.
Lemma calls_of_cons k r l : calls_of k (r :: l) = (if of_job k r then 1 else 0) + calls_of k l.
Proof. unfold calls_of, llen. cbn. destruct (of_job k r); cbn; lia. Qed.
Lemma calls_of_nonneg k l : 0 ≤ calls_of k l.
Proof. apply llen_nonneg. Qed.
Lemma calls_of_zero k l : (∀ r, r ∈ l → job_key r ≠ k) → calls_of k l = 0.
Proof.
  induction l as [|r l IH]; [done|]. intros H. rewrite calls_of_cons, IH; [|set_solver].
  unfold of_job. rewrite bool_decide_eq_false_2; [done|]. set_solver.
Qed.
Lemma calls_of_pos k l r : r ∈ l → job_key r = k → 0 < calls_of k l.
Proof.
  intros Hr E. apply elem_of_Permutation in Hr as [l' ->]. rewrite calls_of_cons. unfold of_job. rewrite bool_decide_eq_true_2 by done.
  pose proof (calls_of_nonneg k l'). lia.
Qed.

Lemma Books_perm jobs fl fl' : Books jobs fl → fl ≡ₚ fl' → Books jobs fl'.
Proof.
  intros [] HP. constructor; try done.
  - by rewrite <- HP.
  - intros r Hr. rewrite <- HP in Hr. auto.
  - intros j Hj. rewrite (bk_active0 j Hj). by apply calls_of_perm.
Qed.

(** The job of a key is one. *)
Lemma key_unique jobs (j j' : PendingJob) : NoDup (map key_of jobs) → j ∈ jobs → j' ∈ jobs → key_of j = key_of j' → j = j'.
Proof.
  intros HN [i Hi]%list_elem_of_lookup [i' Hi']%list_elem_of_lookup E.
  assert (i = i') as <-; [|congruence].
  apply (NoDup_lookup _ i i' (key_of j) HN); rewrite list_lookup_fmap; [by rewrite Hi|by rewrite Hi', E].
Qed.

(** Replacing one job by another of its key. *)
Lemma Books_replace l1 j l2 j' fl fl' :
  Books (l1 ++ j :: l2) fl → key_of j' = key_of j → jr_Count (pj_Job j') = jr_Count (pj_Job j) → NoDup fl' →
  (∀ r, r ∈ fl' → job_key r ≠ key_of j → r ∈ fl) →
  (∀ r, r ∈ fl' → job_key r = key_of j → 0 ≤ ref_Index r < jr_Count (pj_Job j) ∧ ref_Index r ∉ pj_Ready j') →
  (∀ k, k ≠ key_of j → calls_of k fl' = calls_of k fl) → pj_Active j' = calls_of (key_of j) fl' →
  NoDup (pj_Ready j') → (∀ i, i ∈ pj_Ready j' → 0 ≤ i < jr_Count (pj_Job j)) → (pj_Expired j' = true → pj_Ready j' = []) →
  Books (l1 ++ j' :: l2) fl'.
Proof.
  intros [HF HJ HH HA HR HE] Ek Ec N' Hother Hown Hcalls Hact Nr Hr Hex.
  assert (map key_of (l1 ++ j' :: l2) = map key_of (l1 ++ j :: l2)) as Emap by (rewrite !map_app; cbn; by rewrite Ek).
  assert (∀ x, x ∈ l1 ++ j' :: l2 → x = j' ∨ (x ∈ l1 ++ j :: l2 ∧ key_of x ≠ key_of j)) as Hcase.
  { intros x. rewrite elem_of_app, elem_of_cons. intros [Hx|[->|Hx]]; [right|by left|right]; (split; [set_solver|]);
      intros E; rewrite map_app in HJ; cbn in HJ; apply NoDup_app in HJ as (_ & D & [D' _]%NoDup_cons).
    - apply (D (key_of x)); [apply list_elem_of_fmap; by exists x|]. rewrite E. set_solver.
    - apply D'. rewrite <- E. apply list_elem_of_fmap. by exists x. }
  constructor; try done.
  - by rewrite Emap.
  - intros r Hfr. destruct (decide (job_key r = key_of j)) as [E|E].
    + exists j'. split; [set_solver|]. rewrite Ek, Ec. split; [done|]. by apply Hown.
    + destruct (HH r (Hother r Hfr E)) as (x & Hx & Ex & R). exists x. split; [|done].
      apply elem_of_app in Hx as [Hx|[->|Hx]%elem_of_cons]; [set_solver|congruence|set_solver].
  - intros x [->|[Hx Nx]]%Hcase; [by rewrite Ek|]. rewrite Hcalls by done. by apply HA.
  - intros x [->|[Hx Nx]]%Hcase; [by rewrite Ec|]. by apply HR.
  - intros x [->|[Hx Nx]]%Hcase; [done|]. by apply HE.
Qed.

(** *** The operations on the books *)

Lemma of_job_true k r : of_job k r = true ↔ job_key r = k.
Proof. apply bool_decide_eq_true. Qed.
Lemma of_job_false k r : of_job k r = false ↔ job_key r ≠ k.
Proof. apply bool_decide_eq_false. Qed.

Lemma ref_by_index r r' : job_key r = job_key r' → ref_Index r = ref_Index r' → r = r'.
Proof. destruct r, r'. unfold job_key. cbn. congruence. Qed.

(** What a turn takes is the head of a queue. *)
Definition popped (s s' : DispatcherState) (r : Ref) : Prop :=
  ∃ l1 j l2 rest, dp_Jobs s = l1 ++ j :: l2 ∧ pj_Expired j = false ∧ pj_Ready j = ref_Index r :: rest ∧ key_of j = job_key r
    ∧ s' = s <| dp_Jobs := l1 ++ take_item j rest :: l2 |> <| dp_Turn := Z.rem (llen l1 + 1) (llen (dp_Jobs s)) |>.

Lemma pop_rounds_spec rounds n s : 0 ≤ dp_Turn s + n →
  match pop_rounds rounds n s with (s', Some r) => popped s s' r | (s', None) => s' = s end.
Proof.
  revert n. induction rounds as [|rounds IH]; intros n Hn; [done|]. cbn.
  set (i := Z.rem (dp_Turn s + n) (llen (dp_Jobs s))).
  destruct (dp_Jobs s !! Z.to_nat i) as [j|] eqn:Ej; [|done].
  assert (0 ≤ i) as Hi.
  { apply Z.rem_nonneg; [|done]. unfold llen. destruct (dp_Jobs s); [done|]. cbn. lia. }
  destruct (pj_Ready j) as [|index rest] eqn:Er; [apply IH; lia|].
  destruct (pj_Expired j) eqn:Ex; [apply IH; lia|].
  apply list_elem_of_split_length in Ej as (l1 & l2 & E & El).
  exists l1, j, l2, rest. split; [done|]. split; [done|]. split; [done|]. split; [done|].
  assert (i = llen l1) as Ei by (unfold llen; lia).
  assert (<[Z.to_nat i := take_item j rest]> (dp_Jobs s) = l1 ++ take_item j rest :: l2) as Eins.
  { rewrite E. replace (Z.to_nat i) with (length l1 + 0)%nat by lia. by rewrite insert_app_r. }
  unfold upd. by rewrite Eins, Ei.
Qed.

Lemma PopReady_spec s : 0 ≤ dp_Turn s →
  match PopReady s with (s', Some r) => popped s s' r | (s', None) => s' = s end.
Proof. intros H. apply pop_rounds_spec. lia. Qed.

Lemma Books_pop s s' r fl : popped s s' r → Books (dp_Jobs s) fl → (r ∉ fl) ∧ Books (dp_Jobs s') (r :: fl).
Proof.
  intros (l1 & j & l2 & rest & E & Ex & Er & Ek & ->) HB. rewrite E in HB. cbn [dp_Jobs upd].
  assert (j ∈ l1 ++ j :: l2) as Hj by set_solver.
  destruct (bk_ready _ _ HB j Hj) as [HN HR]. rewrite Er in HN, HR. apply NoDup_cons in HN as [Hnot HN].
  assert (∀ r', r' ∈ fl → job_key r' = key_of j → ref_Index r' ∉ pj_Ready j) as Hhome.
  { intros r' Hr' E'. destruct (bk_home _ _ HB r' Hr') as (j' & Hj' & Ek' & _ & Hn).
    by rewrite (key_unique _ j j' (bk_jobs _ _ HB) Hj Hj') by congruence. }
  assert (r ∉ fl) as Hfresh by (intros Hr; apply (Hhome r Hr); [congruence|rewrite Er; set_solver]).
  split; [done|]. apply (Books_replace l1 j l2 _ fl); try done.
  - apply NoDup_cons. split; [done|apply HB].
  - intros r' [->|Hr']%elem_of_cons; [congruence|done].
  - intros r' [->|Hr']%elem_of_cons E'; [split; [apply HR; set_solver|done]|].
    destruct (bk_home _ _ HB r' Hr') as (j' & Hj' & Ek' & Hrange & _).
    rewrite (key_unique _ j j' (bk_jobs _ _ HB) Hj Hj') by congruence. split; [done|].
    intros Hin. apply (Hhome r' Hr' E'). rewrite Er. by right.
  - intros k Hk. rewrite calls_of_cons, (proj2 (of_job_false k r)) by congruence. lia.
  - change (Z.succ (pj_Active j) = calls_of (key_of j) (r :: fl)). rewrite (bk_active _ _ HB j Hj), calls_of_cons.
    rewrite (proj2 (of_job_true (key_of j) r)) by congruence. lia.
  - intros i Hi. apply HR. by right.
  - cbn. congruence.
Qed.

Lemma finish_job_split done l1 j l2 :
  (∀ x, x ∈ l1 → key_of x ≠ job_key (cm_Ref done)) → key_of j = job_key (cm_Ref done) →
  ∃ j', finish_job done (l1 ++ j :: l2) = l1 ++ j' :: l2 ∧ finish_job done [j] = [j'].
Proof.
  intros Hl Hj. assert (same_job (pj_Job j) (ref_Scope (cm_Ref done)) (ref_JobID (cm_Ref done)) = true) as E by by apply same_job_spec.
  induction l1 as [|x l1 IH]; cbn.
  - rewrite E. eauto.
  - destruct (same_job (pj_Job x) _ _) eqn:Ex; [apply same_job_spec in Ex; exfalso; apply (Hl x); [set_solver|done]|].
    destruct IH as (j' & E1 & E2); [set_solver|]. exists j'. by rewrite E1.
Qed.

Lemma finish_one done j j' :
  key_of j = job_key (cm_Ref done) → finish_job done [j] = [j'] →
  pj_Job j' = pj_Job j ∧ pj_Active j' = pj_Active j - 1
  ∧ (pj_Ready j' = pj_Ready j ∨ pj_Ready j' = [] ∨ (pj_Ready j' = pj_Ready j ++ [ref_Index (cm_Ref done)] ∧ pj_Expired j = false))
  ∧ (pj_Expired j' = true → pj_Ready j' = [] ∨ (pj_Expired j = true ∧ pj_Ready j' = pj_Ready j)).
Proof.
  intros Hk. cbn. rewrite (proj2 (same_job_spec _ _ _) Hk).
  destruct (String.eqb _ "rejected" && negb _) eqn:E; (destruct (counts_Done _); intros [= <-]; cbn);
    (split; [done|]; split; [lia|]); split; auto 6.
  - right; right. split; [done|]. bool_to_prop. done.
  - intros Hx. bool_to_prop. cbn in *. congruence.
Qed.

Lemma Books_finish done jobs fl : Books jobs (cm_Ref done :: fl) → Books (finish_job done jobs) fl.
Proof.
  intros HB. set (r := cm_Ref done) in *.
  destruct (bk_home _ _ HB r) as (j & Hj & Ek & Hrange & Hnot); [set_solver|].
  apply list_elem_of_split in Hj as (l1 & l2 & ->).
  pose proof (bk_flights _ _ HB) as [Hr HN]%NoDup_cons.
  destruct (finish_job_split done l1 j l2) as (j' & E & E1); [|done|].
  { intros x Hx E. pose proof (bk_jobs _ _ HB) as HJ. rewrite map_app in HJ. apply NoDup_app in HJ as (_ & D & _).
    apply (D (key_of x)); [apply list_elem_of_fmap; by exists x|]. cbn. rewrite E. fold r. rewrite <- Ek. set_solver. }
  rewrite E. destruct (finish_one done j j' Ek E1) as (Ej & Ea & Erd & Exp).
  assert (j ∈ l1 ++ j :: l2) as Hj by set_solver. destruct (bk_ready _ _ HB j Hj) as [HNr HR].
  apply (Books_replace l1 j l2 j' _ fl HB); try done.
  - unfold key_of. by rewrite Ej.
  - by rewrite Ej.
  - intros x Hx _. set_solver.
  - intros x Hx E'. destruct (bk_home _ _ HB x) as (y & Hy & Ey & Hry & Hny); [set_solver|].
    rewrite (key_unique _ j y (bk_jobs _ _ HB) Hj Hy) by congruence. split; [done|].
    rewrite <- (key_unique _ j y (bk_jobs _ _ HB) Hj Hy) in Hny by congruence.
    destruct Erd as [->|[->|[-> _]]]; [done|apply not_elem_of_nil|]. rewrite elem_of_app, list_elem_of_singleton.
    intros [?|Ei]; [done|]. apply Hr. rewrite <- (ref_by_index x r); [done|congruence|done].
  - intros k Hk. rewrite calls_of_cons, (proj2 (of_job_false k r)) by congruence. lia.
  - rewrite Ea, (bk_active _ _ HB j Hj), calls_of_cons, (proj2 (of_job_true (key_of j) r)) by congruence. lia.
  - destruct Erd as [->|[->|[-> _]]]; [done|constructor|]. apply NoDup_app. split; [done|]. split; [|apply NoDup_singleton].
    intros x Hx ->%list_elem_of_singleton. done.
  - intros i. destruct Erd as [->|[->|[-> _]]]; [auto|by intros ?%not_elem_of_nil|]. rewrite elem_of_app, list_elem_of_singleton.
    intros [?| ->]; auto.
  - intros Hx. destruct (Exp Hx) as [?|[Hx' Er]]; [done|]. rewrite Er. by apply (bk_expired _ _ HB).
Qed.

Lemma Books_enqueue jobs fl job :
  Books jobs fl → existsb (fun j => same_job (pj_Job j) (jr_Scope job) (jr_JobID job)) jobs = false → 1 ≤ jr_Count job →
  Books (jobs ++ [MkPending job (map Z.of_nat (seq 0 (Z.to_nat (jr_Count job)))) 0 false]) fl.
Proof.
  intros [HF HJ HH HA HR HE] Hnew Hc. set (n := MkPending _ _ _ _).
  assert (∀ j, j ∈ jobs → key_of j ≠ job_of job) as Hne.
  { intros j Hj E. rewrite <- not_true_iff_false in Hnew. apply Hnew, existsb_elem. exists j. split; [done|]. by apply same_job_spec. }
  assert (∀ j, j ∈ jobs ++ [n] → j ∈ jobs ∨ j = n) as Hcase by set_solver.
  constructor; try done.
  - rewrite map_app. apply NoDup_app. split; [done|]. split; [|apply NoDup_singleton].
    intros k (j & -> & Hj)%list_elem_of_fmap Hk%list_elem_of_singleton. by apply (Hne j Hj).
  - intros r Hr. destruct (HH r Hr) as (j & Hj & R). exists j. split; [set_solver|done].
  - intros j [Hj| ->]%Hcase; [by apply HA|]. symmetry. apply calls_of_zero. intros r Hr E.
    destruct (HH r Hr) as (j & Hj & Ek & _). apply (Hne j Hj). by rewrite Ek, E.
  - intros j [Hj| ->]%Hcase; [by apply HR|]. cbn. split.
    + apply NoDup_fmap_2; [intros ???; lia|apply NoDup_seq].
    + intros i [m [-> Hm]]%list_elem_of_fmap. apply elem_of_seq in Hm. lia.
  - intros j [Hj| ->]%Hcase; [by apply HE|]. done.
Qed.

(** A job as it is, or expired. *)
Definition expired_from (j j' : PendingJob) : Prop := j' = j ∨ j' = j <| pj_Expired := true |> <| pj_Ready := [] |>.

Lemma Books_expire jobs jobs' fl : Forall2 expired_from jobs jobs' → Books jobs fl → Books jobs' fl.
Proof.
  intros HF HB. assert (∀ j', j' ∈ jobs' → ∃ j, j ∈ jobs ∧ expired_from j j') as Hback.
  { intros j' [i Hi]%list_elem_of_lookup. destruct (Forall2_lookup_r _ _ _ _ _ HF Hi) as (j & Hj & R). exists j. split; [|done].
    by eapply list_elem_of_lookup_2. }
  assert (map key_of jobs' = map key_of jobs) as Ek.
  { clear HB Hback. induction HF as [|j j' l l' [->| ->] _ IH]; [done|by cbn; rewrite IH|].
    change (key_of j :: map key_of l' = key_of j :: map key_of l). by rewrite IH. }
  destruct HB as [B1 B2 B3 B4 B5 B6]. constructor; try done.
  - by rewrite Ek.
  - intros r Hr. destruct (B3 r Hr) as (j & Hj & Ekey & Hi & Hn). apply list_elem_of_lookup in Hj as [i Hl].
    destruct (Forall2_lookup_l _ _ _ _ _ HF Hl) as (j' & Hj' & R). exists j'. split; [by eapply list_elem_of_lookup_2|].
    destruct R as [->| ->]; [done|]. split; [done|]. split; [done|]. apply not_elem_of_nil.
  - intros j' (j & Hj & [->| ->])%Hback; exact (B4 j Hj).
  - intros j' (j & Hj & [->| ->])%Hback; [by apply B5|]. split; [constructor|]. by intros i ?%not_elem_of_nil.
  - intros j' (j & Hj & [->| ->])%Hback; [by apply B6|done].
Qed.

Lemma Books_keep jobs fl : Books jobs fl → Books (List.filter live_job jobs) fl.
Proof.
  intros [B1 B2 B3 B4 B5 B6]. assert (∀ j, j ∈ List.filter live_job jobs → j ∈ jobs) as Hsub.
  { intros j. rewrite !list_elem_of_In, List.filter_In. tauto. }
  constructor; auto.
  - clear -B2. induction jobs as [|j l IH]; [done|]. cbn in *. apply NoDup_cons in B2 as [Hn HN]. destruct (live_job j); [|by apply IH].
    cbn. apply NoDup_cons. split; [|by apply IH]. intros (x & E & Hx)%list_elem_of_fmap. apply Hn. rewrite E.
    apply list_elem_of_fmap. exists x. split; [done|]. apply list_elem_of_In. apply list_elem_of_In, List.filter_In in Hx. tauto.
  - intros r Hr. destruct (B3 r Hr) as (j & Hj & Ek & R). exists j. split; [|done].
    apply list_elem_of_In, List.filter_In. split; [by apply list_elem_of_In|].
    unfold live_job. rewrite (B4 j Hj). pose proof (calls_of_pos (key_of j) fl r Hr (eq_sym Ek)). bool_to_prop. lia.
Qed.

(** ** The invariant *)

Section Invariant.
Variable synchronous : Prop.
Local Abbreviation passes := (rtc (coroutine_step synchronous)).

(** A probe that the controller waits for is in flight, and was reserved in its epoch. *)
Definition probe_in_flight (c : Controller) (fl : list launch) : Prop :=
  Probing c = true → ∃ l, l ∈ fl ∧ la_Probe l = true ∧ Epoch c ≤ la_Reserved l.

Record Sound (d : Dispatcher) (w : flights) (owed : list completion) : Prop := {
  so_books : Books (dp_Jobs (dv_s d)) (map la_Ref (in_flight w owed));
  so_active : dv_active d = llen (in_flight w owed);
  so_turn : 0 ≤ dp_Turn (dv_s d);
  so_controller : ControllerOK (dp_Controller (dv_s d));
  so_unresolved : 0 ≤ dp_Unresolved (dv_s d);
  so_failures : ∀ c, c ∈ fl_received w → failed_activity (cm_Outcome c) = true → c ∈ owed ∨ 0 < dp_Unresolved (dv_s d);
  so_time : 0 ≤ fl_time w;
  so_clock : synchronous → Epoch (dp_Controller (dv_s d)) ≤ fl_time w
    ∧ (∀ l, l ∈ in_flight w owed → la_Reserved l ≤ fl_time w)
    ∧ (∀ c, c ∈ fl_sent w ++ owed → cm_ReservedAt c ≤ cm_DispatchedAt c ≤ fl_time w);
  so_probe : synchronous → probe_in_flight (dp_Controller (dv_s d)) (in_flight w owed);
}.

(** What a piece of the dispatcher that admits nothing leaves alone, once there is
    nothing in flight. *)
Definition keeps (d : Dispatcher) (w : flights) (owed : list completion) (d' : Dispatcher) (w' : flights) (owed' : list completion) : Prop :=
  in_flight w owed = [] → in_flight w' owed' = [] ∧ dp_Unresolved (dv_s d') = dp_Unresolved (dv_s d).
Lemma keeps_trans d1 w1 o1 d2 w2 o2 d3 w3 o3 : keeps d1 w1 o1 d2 w2 o2 → keeps d2 w2 o2 d3 w3 o3 → keeps d1 w1 o1 d3 w3 o3.
Proof. intros H1 H2 E. destruct (H1 E) as [E2 U2]. destruct (H2 E2) as [E3 U3]. split; [done|congruence]. Qed.

(** The invariant sees five variables. *)
Definition same_books (d d' : Dispatcher) : Prop :=
  dp_Jobs (dv_s d') = dp_Jobs (dv_s d) ∧ dv_active d' = dv_active d ∧ dp_Turn (dv_s d') = dp_Turn (dv_s d)
  ∧ dp_Controller (dv_s d') = dp_Controller (dv_s d) ∧ dp_Unresolved (dv_s d') = dp_Unresolved (dv_s d).
Lemma Sound_same d d' w owed : same_books d d' → Sound d w owed → Sound d' w owed.
Proof. intros (E1 & E2 & E3 & E4 & E5) []. constructor; rewrite ?E1, ?E2, ?E3, ?E4, ?E5; done. Qed.

Lemma generated_launch long l c : may_return (generate_item long l) (Some c) → launch_of c = l.
Proof. intros (generated & recorded & E). destruct recorded; [|done]. injection E as <-. by destruct l. Qed.

Lemma coroutine_flights w w' owed : coroutine_step synchronous w w' → in_flight w' owed ≡ₚ in_flight w owed ∧ fl_received w' = fl_received w ∧ fl_time w ≤ fl_time w'.
Proof.
  intros [? long before l after c t E Ht R _|? long before l after t E Ht R|? t Ht]; unfold in_flight; cbn; (split; [|done]); [| |done].
  - apply generated_launch in R as <-. rewrite E, map_app. cbn. rewrite <- !app_assoc. cbn. solve_Permutation.
  - rewrite E. solve_Permutation.
Qed.

Lemma Sound_coroutine d w w' owed : coroutine_step synchronous w w' → Sound d w owed → Sound d w' owed.
Proof.
  intros St HS. destruct (coroutine_flights w w' owed St) as (HP & Er & Ht). destruct HS as [S1 S2 S3 S4 S5 S6 S7 S8 S9]. constructor; try done.
  - apply (Books_perm _ _ _ S1). by rewrite HP.
  - rewrite S2. unfold llen. by rewrite HP.
  - by rewrite Er.
  - lia.
  - intros Y. destruct (S8 Y) as (T1 & T2 & T3). split; [lia|]. split.
    + intros l Hl. rewrite HP in Hl. specialize (T2 l Hl). lia.
    + intros c Hc. assert (c ∈ fl_sent w ++ owed ∨ cm_ReservedAt c ≤ cm_DispatchedAt c ≤ fl_time w') as [Hc'|?]; [|specialize (T3 c Hc'); lia|done].
      destruct St as [? long before l after c' t E Htt R Hs|? long before l after t E Htt R|? t Htt]; [|by left..].
      cbn in Hc. apply elem_of_app in Hc as [[?|Ec]%elem_of_app|?]; [left; set_solver| |left; set_solver].
      apply list_elem_of_singleton in Ec as ->. right. pose proof (generated_launch _ _ _ R) as El. specialize (Hs Y). subst l. exact Hs.
  - intros Y Hp. destruct (S9 Y Hp) as (l & Hl & R). exists l. by rewrite HP.
Qed.

Lemma Sound_passes d w w' owed : passes w w' → Sound d w owed → Sound d w' owed.
Proof. induction 1; [done|]. eauto using Sound_coroutine. Qed.
Lemma keeps_passes d w w' owed : passes w w' → keeps d w owed d w' owed.
Proof.
  intros HP E. split; [|done]. assert (in_flight w' owed ≡ₚ in_flight w owed) as HQ.
  { clear E. induction HP as [|x y z St _ IH]; [done|]. rewrite IH. by apply coroutine_flights. }
  rewrite E in HQ. by apply Permutation_nil_r in HQ.
Qed.

(** A command whose answer changes nothing of the world. *)
Definition passive {A : Type} (e : wf_event A) : Prop :=
  match e with
  | Go _ | Select _ => False
  | Drained ch => match ch with finished_channel => False | _ => True end
  | _ => True
  end.
Lemma wp_passive {A R : Type} allowed (e : wf_event A) (k : A → wf R) w Q :
  passive e → (∀ a w', passes w w' → wp synchronous allowed (k a) w' Q) → wp synchronous allowed (trigger e ≫= k) w Q.
Proof.
  intros He H. apply wp_quiet; [by destruct e|]. intros a w' (w1 & HP & Ha). apply H.
  assert (w' = w1) as -> by (destruct e as [| | | | |? ch| | | |]; try done; [by destruct Ha|by destruct ch]).
  by destruct (blocking e); [|subst].
Qed.
Lemma wp_now {R : Type} allowed (k : Time → wf R) w Q :
  (∀ w', passes w w' → wp synchronous allowed (k (fl_time w')) w' Q) → wp synchronous allowed (trigger WfNow ≫= k) w Q.
Proof. intros H. apply wp_quiet; [done|]. intros a w' (w1 & -> & -> & ->). by apply H. Qed.
Lemma wp_now_exact {R : Type} allowed (k : Time → wf R) w Q :
  wp synchronous allowed (k (fl_time w)) w Q → wp synchronous allowed (trigger WfNow ≫= k) w Q.
Proof. intros H. apply wp_quiet; [done|]. by intros a w' (w1 & -> & -> & ->). Qed.

(** [handles h]: a handler keeps the invariant whatever it is given. *)
Definition handled (d : Dispatcher) (w : flights) (owed : list completion) (d' : Dispatcher) (w' : flights) : Prop :=
  Sound d' w' owed ∧ keeps d w owed d' w' owed.
Definition handles {A : Type} (h : Dispatcher → A → wf Dispatcher) : Prop :=
  ∀ allowed d w owed a, Sound d w owed → wp synchronous allowed (h d a) w (fun d' w' => handled d w owed d' w').

Lemma handled_refl d w owed : Sound d w owed → handled d w owed d w.
Proof. by split. Qed.
Lemma handled_passes d w owed d' w' w'' : handled d w owed d' w' → passes w' w'' → handled d w owed d' w''.
Proof. intros [HS HK] HP. split; [by eapply Sound_passes|]. eapply keeps_trans; [exact HK|by apply keeps_passes]. Qed.
Lemma handled_trans d w owed d1 w1 d2 w2 : handled d w owed d1 w1 → handled d1 w1 owed d2 w2 → handled d w owed d2 w2.
Proof. intros [_ H1] [S2 H2]. split; [done|]. by eapply keeps_trans. Qed.
Lemma handled_same d w owed d1 d2 w1 : handled d w owed d1 w1 → same_books d1 d2 → handled d w owed d2 w1.
Proof. intros [HS HK] E. split; [by apply (Sound_same d1)|]. destruct E as (_ & _ & _ & _ & E). intros H. destruct (HK H). split; [done|congruence]. Qed.

Lemma beat_now_handled allowed d w owed d0 w0 :
  handled d0 w0 owed d w → wp synchronous allowed (beat_now d) w (fun d' w' => handled d0 w0 owed d' w').
Proof. intros H. unfold beat_now. apply wp_now. intros w' HP. cbn. apply (handled_same _ _ _ d); [by eapply handled_passes|done]. Qed.

Lemma each_handled {A : Type} (h : Dispatcher → A → wf Dispatcher) allowed d w owed l :
  handles h → Sound d w owed → wp synchronous allowed (each h d l) w (fun d' w' => handled d w owed d' w').
Proof.
  intros Hh. revert d w. induction l as [|a l IH]; intros d w HS; [by apply handled_refl|]. cbn. apply flight_wp_bind.
  eapply flight_wp_mono; [by apply Hh|]. intros d' w' H'. eapply flight_wp_mono; [apply IH, H'|]. intros d'' w'' H''. by eapply handled_trans.
Qed.

(** *** Handlers *)

Lemma on_stop_handles upgrade : handles (on_stop upgrade).
Proof.
  intros allowed d w owed stop HS. unfold on_stop. destruct stop; [|by apply handled_refl].
  apply beat_now_handled, (handled_same _ _ _ d); [by apply handled_refl|done].
Qed.

(** A new controller, once the rest is as it was. *)
Lemma handled_controller d w owed d' :
  Sound d w owed → dp_Jobs (dv_s d') = dp_Jobs (dv_s d) → dv_active d' = dv_active d → dp_Turn (dv_s d') = dp_Turn (dv_s d) →
  dp_Unresolved (dv_s d') = dp_Unresolved (dv_s d) → ControllerOK (dp_Controller (dv_s d')) →
  Epoch (dp_Controller (dv_s d')) = Epoch (dp_Controller (dv_s d)) →
  (Probing (dp_Controller (dv_s d')) = true → Probing (dp_Controller (dv_s d)) = true) → handled d w owed d' w.
Proof.
  intros [S1 S2 S3 S4 S5 S6 S7 S8 S9] E1 E2 E3 E4 HC Ee Hp. split; [|by intros E; split].
  constructor; rewrite ?E1, ?E2, ?E3, ?E4, ?Ee; try done.
  intros Y HP. destruct (S9 Y (Hp HP)) as (l & ? & ? & ?). exists l. by rewrite Ee.
Qed.

Lemma on_reset_handles : handles on_reset.
Proof.
  intros allowed d w owed reset HS. unfold on_reset. destruct reset; [|by apply handled_refl].
  apply wp_now. intros w1 P1. pose proof (Sound_passes _ _ _ _ P1 HS) as HS1.
  apply beat_now_handled. eapply handled_trans; [exact (handled_passes _ _ _ _ _ _ (handled_refl _ _ _ HS) P1)|].
  apply (handled_controller d w1 owed); try done.
  destruct (so_controller _ _ _ HS1). constructor; try done. exact (so_time _ _ _ HS1).
Qed.

Lemma on_configure_handles : handles on_configure.
Proof.
  intros allowed d w owed p HS. unfold on_configure. destruct (Configure _ p) as [c|e] eqn:E; [|by apply handled_refl].
  apply beat_now_handled, (handled_controller d w owed); try done.
  - by eapply Configure_ok, E; apply HS.
  - unfold Configure in E. destruct (policy_Validate p); [|done]. by injection E as <-.
  - unfold Configure in E. destruct (policy_Validate p); [|done]. by injection E as <-.
Qed.

Lemma enqueue_handles : handles enqueue.
Proof.
  intros allowed d w owed job HS. unfold enqueue. destruct (existsb _ _) eqn:Ex; [by apply handled_refl|].
  destruct (_ || _) eqn:Ec; [by apply handled_refl|]. apply wp_now. intros w1 P1. cbn.
  eapply handled_trans; [exact (handled_passes _ _ _ _ _ _ (handled_refl _ _ _ HS) P1)|].
  apply (Sound_passes _ _ _ _ P1) in HS. destruct HS as [S1 S2 S3 S4 S5 S6 S7 S8 S9]. split; [|by intros E; split].
  constructor; try done. bool_to_prop. apply (Books_enqueue _ _ job S1); [done|lia].
Qed.

(** A completion ends a probe, or leaves it to the one in flight. *)
Lemma Complete_probe c now dispatched reserved probe kind delay :
  (Probing c = true → Cooling c = true) →
  let k := Complete c now dispatched reserved probe kind delay in
  (Epoch k = Epoch c ∨ (Epoch k = dispatched ∧ Probing k = false))
  ∧ (Probing k = true → Probing c = true ∧ (probe = true → dispatched < Epoch c)).
Proof.
  intros Hpc. cbn zeta.
  assert (let k := complete_kind c now dispatched reserved probe kind delay in
    (Epoch k = Epoch c ∨ (Epoch k = dispatched ∧ Probing k = false))
    ∧ (Probing k = true → Probing c = true
       ∧ (probe = true → dispatched < Epoch c ∨ (kind ≠ "completed" ∧ kind ≠ "rejected")))) as H.
  { cbn zeta. unfold complete_kind. assert (∀ k, Epoch k = Epoch c → Probing k = Probing c →
      (Epoch (completeThrottle k now dispatched probe delay) = Epoch c ∨ (Epoch (completeThrottle k now dispatched probe delay) = dispatched
        ∧ Probing (completeThrottle k now dispatched probe delay) = false))
      ∧ (Probing (completeThrottle k now dispatched probe delay) = true → Probing c = true ∧ (probe = true → dispatched < Epoch c
         ∨ (kind ≠ "completed" ∧ kind ≠ "rejected")))) as Hct.
    { intros k Ee Ep. destruct (completeThrottle_facts k now dispatched probe delay) as (_ & F2 & _ & _ & _ & _ & F6).
      rewrite F2, F6, Ee, Ep. split; [by left|]. unfold Before. destruct probe; [|by split].
      destruct (dispatched <? Epoch c) eqn:El; [|done]. bool_to_prop. by auto. }
    destruct (String.eqb_spec kind "rejected") as [->|]; [apply Hct; by case_match|].
    destruct (String.eqb kind "terminal_throttle"); [by apply Hct|].
    destruct (String.eqb kind "failed" || _) eqn:Ef; [case_match; [by apply Hct|]|].
    { split; [by left|]. intros HP. split; [done|]. intros _. right. split; [|done]. by intros ->. }
    destruct (String.eqb_spec kind "completed") as [->|].
    - destruct (Success_facts c now) as (_ & S2 & _ & _ & _ & S6 & _). destruct (negb (Cooling c) || probe) eqn:Ec.
      + destruct probe.
        { set (k := Success c now) in *. clearbody k. split; [by right|]. change (Probing k = true → Probing c = true ∧ (true = true → dispatched < Epoch c ∨ ("completed" ≠ "completed" ∧ "completed" ≠ "rejected"))). by rewrite S2. }
        rewrite S2, S6. split; [|done]. left. destruct (Probing c); [|done]. rewrite Hpc in Ec by done. done.
      + split; [by left|]. intros HP. split; [done|]. intros ->. by rewrite orb_true_r in Ec.
    - case_match; (split; [by left|]; intros HP; split; [exact HP|]; auto). }
  unfold Complete. set (k := complete_kind _ _ _ _ _ _ _) in *. clearbody k. destruct H as [H1 H2].
  destruct (probe && Probing k && _ && _) eqn:E.
  - destruct (Throttle_facts k now 0) as (_ & _ & T3 & T4 & _). rewrite T3, T4. split; [|done]. destruct H1 as [?|[? _]]; auto.
  - split; [done|]. intros HP. destruct (H2 HP) as [Hc Hd]. split; [done|]. intros ->. destruct (Hd eq_refl) as [?|[N1 N2]]; [done|].
    by rewrite HP, (proj2 (String.eqb_neq _ _) N1), (proj2 (String.eqb_neq _ _) N2) in E.
Qed.

Lemma owed_flight w c owed : in_flight w (c :: owed) ≡ₚ launch_of c :: in_flight w owed.
Proof. unfold in_flight. cbn. solve_Permutation. Qed.

(** A completion, once handled. *)
Lemma Sound_finish d w c owed d' :
  Sound d w (c :: owed) → dp_Jobs (dv_s d') = finish_job c (dp_Jobs (dv_s d)) → dv_active d' = Z.pred (dv_active d) →
  dp_Turn (dv_s d') = dp_Turn (dv_s d) →
  dp_Unresolved (dv_s d') = (if failed_activity (cm_Outcome c) then Z.succ (dp_Unresolved (dv_s d)) else dp_Unresolved (dv_s d)) →
  dp_Controller (dv_s d') = CompleteOutcome (dp_Controller (dv_s d)) (fl_time w) (cm_DispatchedAt c) (cm_ReservedAt c) (cm_Probe c) (cm_Outcome c) →
  Sound d' w owed.
Proof.
  intros [S1 S2 S3 S4 S5 S6 S7 S8 S9] E1 E2 E3 E4 E5. pose proof (owed_flight w c owed) as HP.
  unfold CompleteOutcome in E5. set (kind := if String.eqb _ "restricted" then _ else _) in E5. set (delay := retryDelay _) in E5.
  clearbody kind delay. destruct (Complete_probe (dp_Controller (dv_s d)) (fl_time w) (cm_DispatchedAt c) (cm_ReservedAt c) (cm_Probe c) kind delay
    (co_probe _ S4)) as [Hepoch Hprobe].
  constructor; rewrite ?E1, ?E2, ?E3, ?E4; try done.
  - apply Books_finish. apply (Books_perm _ _ _ S1). by rewrite HP.
  - rewrite S2. unfold llen. rewrite HP. cbn. lia.
  - rewrite E5. by apply Complete_ok.
  - case_match; lia.
  - intros x Hx Hf. destruct (S6 x Hx Hf) as [[->|?]%elem_of_cons|?]; [|by left|]; right; [rewrite Hf; lia|case_match; lia].
  - intros Y. destruct (S8 Y) as (T1 & T2 & T3). split; [|split].
    + rewrite E5. destruct Hepoch as [->|[-> _]]; [done|]. apply T3. set_solver.
    + intros l Hl. apply T2. rewrite HP. by right.
    + intros x Hx. apply T3. set_solver.
  - intros Y. unfold probe_in_flight. rewrite E5. intros HK. destruct (Hprobe HK) as [Hc Hd].
    destruct Hepoch as [->|[_ ?]]; [|congruence].
    destruct (S9 Y Hc) as (l & Hl & Hlp & Hle). rewrite HP in Hl. apply elem_of_cons in Hl as [->|Hl]; [|by exists l].
    exfalso. specialize (Hd Hlp). destruct (S8 Y) as (_ & _ & T3). specialize (T3 c ltac:(set_solver)). cbn in Hle. lia.
Qed.

Lemma finish_sound allowed d w c owed : Sound d w (c :: owed) → wp synchronous allowed (finish d c) w (fun d' w' => Sound d' w' owed).
Proof.
  intros HS. unfold finish. apply wp_now. intros w1 P1. apply wp_now. intros w2 P2.
  assert (Sound d w2 (c :: owed)) as HS2 by (eapply Sound_passes; [exact P2|]; by eapply Sound_passes).
  set (after := CompleteOutcome _ _ _ _ _ _). set (d2 := upd dv_s _ _).
  assert (Sound d2 w2 owed) as HF.
  { apply (Sound_finish d w2 c owed d2 HS2); try done; unfold d2, after; by destruct (failed_activity _). }
  destruct (_ || _); [|exact HF]. unfold beat_now. apply wp_now. intros w3 P3. cbn.
  apply (Sound_same d2); [done|]. by eapply Sound_passes.
Qed.

Lemma each_finish allowed d w l : Sound d w l → wp synchronous allowed (each finish d l) w (fun d' w' => Sound d' w' []).
Proof.
  revert d w. induction l as [|c l IH]; intros d w HS; [done|]. cbn [each]. apply flight_wp_bind. eapply flight_wp_mono; [by apply finish_sound|]. auto.
Qed.

Lemma drain_channel_handled {A : Type} (ch : channel A) h allowed d w :
  (match ch with finished_channel => False | _ => True end) → handles h → Sound d w [] →
  wp synchronous allowed (drain_channel ch h d) w (fun d' w' => handled d w [] d' w').
Proof.
  intros Hch Hh HS. unfold drain_channel. apply wp_passive; [by destruct ch|]. intros l w1 P1.
  eapply flight_wp_mono; [apply each_handled; [done|by eapply Sound_passes]|]. intros d' w' H'.
  eapply handled_trans; [|exact H']. by eapply handled_passes; [apply handled_refl|].
Qed.

(** What has been sent becomes owed. *)
Lemma Sound_receive d w received rest : fl_sent w = received ++ rest → Sound d w [] → Sound d (receive w received rest) received.
Proof.
  intros E [S1 S2 S3 S4 S5 S6 S7 S8 S9].
  assert (in_flight (receive w received rest) received ≡ₚ in_flight w []) as HP.
  { unfold in_flight, receive. cbn. rewrite E, map_app. solve_Permutation. }
  constructor; try done.
  - apply (Books_perm _ _ _ S1). by rewrite HP.
  - rewrite S2. unfold llen. by rewrite HP.
  - intros c [Hc|Hc]%elem_of_app Hf; [|by left]. destruct (S6 c Hc Hf) as [?%not_elem_of_nil|?]; [done|by right].
  - intros Y. destruct (S8 Y) as (T1 & T2 & T3). split; [done|]. split; [intros l Hl; apply T2; by rewrite <- HP|].
    intros c Hc. apply T3. rewrite E, app_nil_r. cbn in Hc. set_solver.
  - intros Y Hp. destruct (S9 Y Hp) as (l & Hl & R). exists l. by rewrite HP.
Qed.

Lemma in_flight_received w received rest : fl_sent w = received ++ rest → in_flight w [] = [] → received = [] ∧ receive w received rest = w.
Proof.
  intros E [_ [H _]%app_eq_nil]%app_eq_nil. rewrite E, map_app in H. destruct received, rest; try done. split; [done|].
  unfold receive. destruct w. cbn in *. by rewrite app_nil_r, E.
Qed.

Lemma drain_finished allowed d w :
  Sound d w [] → wp synchronous allowed (drain_channel finished_channel finish d) w (fun d' w' => handled d w [] d' w').
Proof.
  intros HS. unfold drain_channel. apply wp_quiet; [done|]. intros l w1 (w0 & -> & -> & ->).
  assert (fl_sent w = fl_sent w ++ []) as E by by rewrite app_nil_r.
  destruct (decide (in_flight w [] = [])) as [Hn|Hn].
  - destruct (in_flight_received w _ _ E Hn) as [Er ->]. rewrite Er. by split.
  - eapply flight_wp_mono; [apply each_finish, (Sound_receive d w _ _ E HS)|]. by intros d' w' HS'.
Qed.

(** [handles] of a loop of handlers, after another. *)
Lemma wp_handled allowed d w (p : wf Dispatcher) (k : Dispatcher → wf Dispatcher) :
  wp synchronous allowed p w (fun d' w' => handled d w [] d' w') →
  (∀ d' w', Sound d' w' [] → wp synchronous allowed (k d') w' (fun d'' w'' => handled d' w' [] d'' w'')) →
  wp synchronous allowed (p ≫= k) w (fun d' w' => handled d w [] d' w').
Proof.
  intros Hp Hk. apply flight_wp_bind. eapply flight_wp_mono; [exact Hp|]. intros d' w' H'. eapply flight_wp_mono; [apply Hk, H'|].
  intros d'' w'' H''. by eapply handled_trans.
Qed.

Lemma drainSignals_handled allowed d w :
  Sound d w [] → wp synchronous allowed (drainSignals d) w (fun d' w' => handled d w [] d' w').
Proof.
  intros HS. unfold drainSignals.
  apply wp_handled; [apply drain_channel_handled; [done|apply on_stop_handles|assumption]|]. intros d1 w1 HS1.
  apply wp_handled; [apply drain_channel_handled; [done|apply on_stop_handles|assumption]|]. intros d2 w2 HS2.
  apply wp_handled; [apply drain_channel_handled; [done|apply enqueue_handles|assumption]|]. intros d3 w3 HS3.
  apply wp_handled; [apply drain_channel_handled; [done|apply on_reset_handles|assumption]|]. intros d4 w4 HS4.
  apply wp_passive; [done|]. intros l w5 P5. apply flight_wp_bind.
  eapply flight_wp_mono; [apply each_handled; [apply on_configure_handles|by eapply Sound_passes]|]. intros d6 w6 H6.
  eapply flight_wp_mono; [apply drain_finished, H6|]. intros d7 w7 H7.
  eapply handled_trans; [exact (handled_passes _ _ _ _ _ _ (handled_refl _ _ _ HS4) P5)|]. eapply handled_trans; [exact H6|exact H7].
Qed.

Lemma on_selected_sound allowed d w delay x w' :
  Sound d w [] → wf_answers synchronous (Select delay) w x w' → wp synchronous allowed (on_selected d x) w' (fun d' w' => Sound d' w' []).
Proof.
  intros HS (w1 & P1 & Hx). pose proof (Sound_passes _ _ _ _ P1 HS) as HS1.
  assert (∀ A (h : Dispatcher → A → wf Dispatcher) v, handles h → wp synchronous allowed (h d v) w1 (fun d' w' => Sound d' w' [])) as Hh.
  { intros A h v Hh. eapply flight_wp_mono; [by apply Hh|]. by intros d' w2 [? _]. }
  destruct x as [|A ch v]; [by cbn in Hx; subst w'|]. destruct ch; cbn in Hx; try subst w'; cbn [on_selected].
  - apply Hh, on_stop_handles.
  - apply Hh, on_stop_handles.
  - apply Hh, enqueue_handles.
  - apply Hh, on_reset_handles.
  - apply Hh, on_configure_handles.
  - destruct Hx as (rest & E & ->). by apply finish_sound, (Sound_receive d w1 [v] rest).
Qed.
End Invariant.
