(* ===== verification/DispatcherProperties.v ===== *)
(** * DispatcherProperties: what the first generation of the batch service promises

    Over every run of the dispatcher ([Dispatcher]) among its calls and its signals
    ([DispatcherSystem]): an item is never in flight twice, calls are admitted within the
    limit of the policy, and a handoff leaves no call behind and starts a pool whose
    life satisfies the pool's own invariants.  The round of its queues starves no job,
    and the workflow of a job returns when the job is done. *)
From stdpp Require Import gmap relations.
From S2P Require Import Prelude BatchController BatchPool PoolWorkflow PoolInvariant PoolProperties Ledger LedgerQueue AttemptFlow Dispatcher DispatcherSystem.

Open Scope string_scope.
Open Scope list_scope.
Open Scope Z_scope.

Section Life.
Variable synchronous : Prop.
Variable marshal_len : PoolState → Z.
Local Abbreviation passes := (rtc (coroutine_step synchronous)).

(** A program runs from a world to a result in another. *)
Definition runs_to {R : Type} (p : wf R) (w : flights) (r : R) (w' : flights) : Prop := rtc (wf_step synchronous) (p, w) (Ret r, w').

Definition new_dispatcher (p : Policy) : DispatcherState := MkDispatcher (NewController p) [] 0 0 false false 0 0.

(** The authority of a pool, between two runs ([inl]) or inside one ([inr]). *)
Inductive life : DispatcherState + Dispatcher * position → flights → Prop :=
| life_new policy t : 0 ≤ t → life (inl (new_dispatcher policy)) (MkFlights [] [] [] [] t)
| life_enter s w d p w' : life (inl s) w → runs_to (dispatcher_entry s) w (d, Goto p) w' → life (inr (d, p)) w'
| life_piece d p w d' p' w' :
    life (inr (d, p)) w → runs_to (dispatcher_piece marshal_len d p) w (d', Goto p') w' → life (inr (d', p')) w'
| life_continue d p w d' s w' :
    life (inr (d, p)) w → runs_to (dispatcher_piece marshal_len d p) w (d', Ended (ContinueDispatcher s)) w' → life (inl s) w'.

(** ** Pieces *)

Definition placed (d : Dispatcher) (w : flights) (p : position) : Prop :=
  match p with Preparing _ _ _ => in_flight w [] = [] ∧ dp_Unresolved (dv_s d) = 0 | _ => True end.
Definition ended (d : Dispatcher) (w : flights) (e : ending) : Prop :=
  match e with
  | ContinueDispatcher s => in_flight w [] = [] ∧ s = dv_s d
  | ContinuePool pool => in_flight w [] = [] ∧ dp_Unresolved (dv_s d) = 0 ∧ ∃ fence, pool = handoff_state (dv_s d) fence
  | _ => True
  end.
Definition reached (x : Dispatcher * next) (w : flights) : Prop :=
  Sound synchronous x.1 w [] ∧ match x.2 with Goto p => placed x.1 w p | Ended e => ended x.1 w e end.

(** What a call needs to be admitted, with the variables at the start of its round. *)
Definition admissible (d : Dispatcher) (l : launch) (w : flights) : Prop :=
  (la_Ref l ∉ map la_Ref (in_flight w [])) ∧ llen (in_flight w []) < Concurrency (ctl_Policy (dp_Controller (dv_s d)))
  ∧ Paused (dp_Controller (dv_s d)) = false ∧ Probing (dp_Controller (dv_s d)) = false ∧ dp_Quiescing (dv_s d) = false
  ∧ la_Probe l = Cooling (dp_Controller (dv_s d))
  ∧ ∃ j, j ∈ dp_Jobs (dv_s d) ∧ key_of j = job_key (la_Ref l) ∧ pj_Expired j = false ∧ ref_Index (la_Ref l) ∈ pj_Ready j.

Lemma expire_jobs_wp allowed now jobs w d :
  Sound synchronous d w [] →
  wp synchronous allowed (expire_jobs now jobs) w (fun r w' => Sound synchronous d w' [] ∧ match r with Ok jobs' => Forall2 expired_from jobs jobs' | Err _ => True end).
Proof.
  revert w. induction jobs as [|j jobs IH]; intros w HS; [by split|]. cbn [expire_jobs].
  assert (∀ w (f : list PendingJob → list PendingJob), Sound synchronous d w [] → (∀ l, Forall2 expired_from jobs l → Forall2 expired_from (j :: jobs) (f l)) →
    wp synchronous allowed (rest ← expire_jobs now jobs; mret (let? rest := rest in Ok (f rest))) w
      (fun r w' => Sound synchronous d w' [] ∧ match r with Ok jobs' => Forall2 expired_from (j :: jobs) jobs' | Err _ => True end)) as Hrest.
  { intros w' f HS' Hf. apply flight_wp_bind. eapply flight_wp_mono; [by apply IH|]. intros r w'' [HS'' Hr]. split; [done|]. destruct r; [by apply Hf|done]. }
  destruct (negb _ && _).
  - apply wp_passive; [done|]. intros a w' HP. apply (Sound_passes _ _ _ _ _ HP) in HS. destruct a; [|by split].
    apply (Hrest w' (cons _)); [done|]. intros l Hl. constructor; [by right|done].
  - apply (Hrest w (cons j)); [done|]. intros l Hl. constructor; [by left|done].
Qed.

Lemma Sound_jobs d w jobs turn d' :
  Sound synchronous d w [] → Books jobs (map la_Ref (in_flight w [])) → 0 ≤ turn → dp_Jobs (dv_s d') = jobs → dp_Turn (dv_s d') = turn →
  dv_active d' = dv_active d → dp_Controller (dv_s d') = dp_Controller (dv_s d) → dp_Unresolved (dv_s d') = dp_Unresolved (dv_s d) →
  Sound synchronous d' w [].
Proof. intros [S1 S2 S3 S4 S5 S6 S7 S8 S9] HB Ht E1 E2 E3 E4 E5. constructor; rewrite ?E1, ?E2, ?E3, ?E4, ?E5; done. Qed.

Lemma empty_flights d w : Sound synchronous d w [] → dv_active d = 0 → in_flight w [] = [].
Proof. intros HS E. rewrite (so_active _ _ _ _ HS) in E. unfold llen in E. destruct (in_flight w []); [done|]. cbn in E. lia. Qed.

Lemma keep_jobs_sound d w jobs :
  Sound synchronous d w [] → Books jobs (map la_Ref (in_flight w [])) →
  Sound synchronous (d <| dv_s ::= fun s => keep_jobs (s <| dp_Jobs := jobs |>) |>) w [].
Proof.
  intros HS HB. pose proof (so_turn _ _ _ _ HS).
  apply (Sound_jobs d w (List.filter live_job jobs) (dp_Turn (keep_jobs ((dv_s d) <| dp_Jobs := jobs |>)))); try done.
  all: try (change (dv_s (d <| dv_s ::= fun s => keep_jobs (s <| dp_Jobs := jobs |>) |>)) with (keep_jobs ((dv_s d) <| dp_Jobs := jobs |>))).
  - by apply Books_keep.
  - unfold keep_jobs. case_match; [done|exact H].
  - unfold keep_jobs. by case_match.
  - unfold keep_jobs. by case_match.
  - unfold keep_jobs. by case_match.
Qed.

Lemma top_reaches allowed d w : Sound synchronous d w [] → wp synchronous allowed (top d) w reached.
Proof.
  intros HS. unfold top. apply flight_wp_bind. eapply flight_wp_mono; [by apply drainSignals_handled|]. intros d1 w1 [HS1 _].
  apply wp_now_exact. apply flight_wp_bind. eapply flight_wp_mono; [by apply expire_jobs_wp|]. intros r w2 [HS2 Hr].
  destruct r as [jobs|e]; [|by split]. set (d2 := upd dv_s _ d1).
  assert (Sound synchronous d2 w2 []) as HS3.
  { apply keep_jobs_sound; [done|]. eapply Books_expire; [exact Hr|apply HS2]. }
  clearbody d2. destruct (_ && _ && _) eqn:E; [|by split]. apply wp_passive; [done|]. intros id w3 P3. bool_to_prop.
  split; [by eapply Sound_passes|]. split; [|done]. apply (empty_flights d2); [by eapply Sound_passes|done].
Qed.

Lemma reached_activity_error d w e : Sound synchronous d w [] → reached (d, Ended (FailedActivity e)) w.
Proof. by split. Qed.

Lemma hand_over_reaches allowed d w now identity :
  Sound synchronous d w [] → placed d w (Preparing now identity 0) → wp synchronous allowed (hand_over marshal_len d now identity) w reached.
Proof.
  intros HS [Hf Hu]. unfold hand_over. apply wp_passive; [done|]. intros a w1 P1.
  pose proof (Sound_passes _ _ _ _ _ P1 HS) as HS1. destruct (keeps_passes synchronous d w w1 [] P1 Hf) as [Hf1 _].
  destruct a as [fence|e].
  - apply flight_wp_bind. eapply flight_wp_mono; [by apply drainSignals_handled|]. intros d2 w2 [HS2 HK2]. destruct (HK2 Hf1) as [Hf2 Hu2].
    split; [done|]. cbn. case_match; [|done]. split; [done|]. split; [congruence|]. by exists fence.
  - destruct (unresolved_execution e); [|by split]. split; [|done]. destruct HS1 as [S1 S2 S3 S4 S5 S6 S7 S8 S9]. constructor; try done.
    + change (0 ≤ Z.succ (dp_Unresolved (dv_s d))). lia.
    + intros c _ _. right. change (0 < Z.succ (dp_Unresolved (dv_s d))). lia.
Qed.

Lemma preparing_reaches allowed d w now identity prepared :
  Sound synchronous d w [] → placed d w (Preparing now identity prepared) →
  wp synchronous allowed (preparing marshal_len d now identity prepared) w reached.
Proof.
  intros HS [Hf Hu]. unfold preparing. apply flight_wp_bind. eapply flight_wp_mono; [by apply drainSignals_handled|]. intros d1 w1 [HS1 HK1].
  destruct (HK1 Hf) as [Hf1 Hu1]. rewrite Hu in Hu1.
  assert (∀ w2, passes w1 w2 → Sound synchronous d1 w2 [] ∧ in_flight w2 [] = []) as Hp.
  { intros w2 P2. split; [by eapply Sound_passes|]. by apply (keeps_passes synchronous d1 w1 w2 [] P2). }
  destruct (llen _ <=? prepared).
  - destruct (prepared =? 0); [|by apply hand_over_reaches]. apply wp_passive; [done|]. intros a w2 P2. destruct (Hp w2 P2) as [HS2 Hf2]. destruct a; [|by split].
    by apply hand_over_reaches.
  - apply wp_passive; [done|]. intros a w2 P2. destruct (Hp w2 P2) as [HS2 Hf2]. destruct a; by split.
Qed.

Lemma publish_wp allowed d w : Sound synchronous d w [] → wp synchronous allowed (publish d) w (fun _ w' => Sound synchronous d w' []).
Proof.
  intros HS. assert (∀ A (e : wf_event A) w, passive e → Sound synchronous d w [] → wp synchronous allowed (trigger e) w (fun _ w' => Sound synchronous d w' [])) as Ht.
  { intros A e w0 He HS0. apply (wp_passive synchronous allowed e Ret w0 _ He). intros a w' P. by eapply Sound_passes. }
  unfold publish. repeat case_match; try by apply Ht. apply wp_now_exact. case_match; by apply Ht.
Qed.

Lemma steady_reaches allowed d w now : Sound synchronous d w [] → wp synchronous allowed (steady d now) w reached.
Proof.
  intros HS. unfold steady. apply wp_passive; [done|]. intros drain w1 P1. apply (Sound_passes _ _ _ _ _ P1) in HS.
  destruct (drain && _) eqn:E.
  - bool_to_prop. apply flight_wp_bind. eapply flight_wp_mono; [by apply drainSignals_handled|]. intros d2 w2 [HS2 HK2]. split.
    + by apply (Sound_same synchronous d2).
    + split; [|done]. apply HK2. by apply (empty_flights d).
  - destruct ((0 <? _) && _); [|by split]. apply flight_wp_bind. eapply flight_wp_mono; [by apply publish_wp|]. intros r w2 HS2. destruct r; [|by split].
    apply wp_now_exact. split; [|done]. by apply (Sound_same synchronous d).
Qed.

Lemma wait_reaches allowed d w drain now : Sound synchronous d w [] → wp synchronous allowed (wait d drain now) w reached.
Proof.
  intros HS. unfold wait. apply wp_quiet; [done|]. intros x w1 Hx. apply flight_wp_bind. eapply flight_wp_mono; [by eapply on_selected_sound|].
  intros d' w' HS'. by split.
Qed.

Lemma resting_reaches allowed d w drain : Sound synchronous d w [] → wp synchronous allowed (resting d drain) w reached.
Proof.
  intros HS. unfold resting. apply wp_now_exact. destruct (_ && _ && _ && _); [|by apply wait_reaches].
  apply wp_passive; [done|]. intros retained w1 P1. apply (Sound_passes _ _ _ _ _ P1) in HS.
  destruct (negb retained || _); [|by apply wait_reaches]. apply flight_wp_bind. eapply flight_wp_mono; [by apply drainSignals_handled|].
  intros d2 w2 [HS2 _]. case_match; [by split|by apply wait_reaches].
Qed.

Lemma Start_probe c now : Probing (Start c now) = Cooling c || Probing c ∧ Epoch (Start c now) = (if IsZero (Epoch c) then now else Epoch c).
Proof.
  assert (Cooling (start_window c now) = Cooling c ∧ Probing (start_window c now) = Probing c ∧ Epoch (start_window c now) = Epoch c) as (E1 & E2 & E3)
    by (unfold start_window; repeat case_match; done).
  unfold Start. set (k := start_window c now) in *. clearbody k. rewrite E3.
  set (k1 := if IsZero (Epoch c) then k <| Epoch := now |> else k).
  assert (Cooling k1 = Cooling c ∧ Probing k1 = Probing c ∧ Epoch k1 = (if IsZero (Epoch c) then now else Epoch c)) as (F1 & F2 & F3)
    by (unfold k1; case_match; cbn; done).
  clearbody k1. rewrite <- F1, <- F2, <- F3. destruct (Cooling k1); [done|]. repeat case_match; done.
Qed.

Lemma maybe_beat allowed (b : bool) d w :
  wp synchronous allowed (if b then beat_now d else mret d) w (fun d' w' => w' = w ∧ same_books d d').
Proof. destruct b; [|by split]. unfold beat_now. apply wp_now_exact. by split. Qed.

(** A call, once started. *)
Lemma Sound_go d w l d' s' :
  Sound synchronous d w [] → popped (dv_s d) s' (la_Ref l) → la_Reserved l = fl_time w → la_Probe l = Cooling (dp_Controller (dv_s d)) →
  Probing (dp_Controller (dv_s d)) = false →
  dp_Jobs (dv_s d') = dp_Jobs s' → dv_active d' = Z.succ (dv_active d) → dp_Turn (dv_s d') = dp_Turn s' →
  dp_Controller (dv_s d') = Start (dp_Controller (dv_s d)) (fl_time w) → dp_Unresolved (dv_s d') = dp_Unresolved (dv_s d) →
  Sound synchronous d' (MkFlights (fl_running w ++ [l]) (fl_sent w) (fl_lost w) (fl_received w) (fl_time w)) [].
Proof.
  intros [S1 S2 S3 S4 S5 S6 S7 S8 S9] Hpop Hr Hpr Hno E1 E2 E3 E4 E5. set (w' := MkFlights _ _ _ _ _).
  assert (in_flight w' [] ≡ₚ l :: in_flight w []) as HP by (unfold in_flight; cbn; solve_Permutation).
  destruct (Start_probe (dp_Controller (dv_s d)) (fl_time w)) as [Hprobe Hepoch].
  constructor; rewrite ?E1, ?E2, ?E3, ?E4, ?E5; try done.
  - destruct (Books_pop _ _ _ _ Hpop S1) as [_ HB]. apply (Books_perm _ _ _ HB). by rewrite HP.
  - rewrite S2. unfold llen. rewrite HP. cbn. lia.
  - destruct Hpop as (l1 & j & l2 & rest & E & _ & _ & _ & ->). change (0 ≤ Z.rem (llen l1 + 1) (llen (dp_Jobs (dv_s d)))).
    apply Z.rem_nonneg; [|unfold llen; lia]. rewrite E. unfold llen. rewrite length_app. cbn. lia.
  - by apply Start_ok.
  - intros Y. destruct (S8 Y) as (T1 & T2 & T3). rewrite Hepoch. split; [case_match; cbn; lia|]. split; [|done].
    intros x. rewrite HP. intros [->|Hx]%elem_of_cons; [cbn; lia|]. by apply T2.
  - intros Y. unfold probe_in_flight. rewrite Hprobe, Hno, orb_false_r. intros Hc. exists l. split; [rewrite HP; by left|].
    split; [congruence|]. rewrite Hepoch, Hr. destruct (S8 Y) as (T1 & _). case_match; lia.
Qed.

Lemma CanStart_true c now active : CanStart c now active = true → Paused c = false ∧ Probing c = false ∧ active < Concurrency (ctl_Policy c).
Proof. unfold CanStart. destruct (_ || _ || _) eqn:E; [done|]. intros _. bool_to_prop. split; [done|]. split; [done|lia]. Qed.

Lemma admitting_reaches d w drain : Sound synchronous d w [] → wp synchronous (admissible d) (admitting d drain) w reached.
Proof.
  intros HS. unfold admitting. destruct (drain || _) eqn:Eq; [by split|]. bool_to_prop. apply wp_now_exact.
  destruct (CanStart _ _ _) eqn:Ec; cbn [negb]; [|by split]. apply CanStart_true in Ec as (Hpaused & Hprobing & Hact).
  pose proof (PopReady_spec (dv_s d) (so_turn _ _ _ _ HS)) as Hpop. destruct (PopReady (dv_s d)) as [s' [r|]].
  2: { subst s'. split; [|done]. by apply (Sound_same synchronous d). }
  do 3 apply wp_now_exact. set (d2 := upd dv_s _ _). apply flight_wp_bind.
  eapply flight_wp_mono; [apply maybe_beat|]. intros d3 w3 [-> HB].
  assert (dp_Controller s' = dp_Controller (dv_s d) ∧ dp_Unresolved s' = dp_Unresolved (dv_s d)) as [Ectl Eun]
    by by destruct Hpop as (? & ? & ? & ? & _ & _ & _ & _ & ->).
  set (l := MkLaunch r _ _). split.
  - cbn. pose proof Hpop as (l1 & j & l2 & rest & E & Ex & Er & Ek & _). split; [|repeat split; try done].
    + intros (x & Ex' & Hx)%list_elem_of_fmap. apply (proj1 (Books_pop _ _ _ _ Hpop (so_books _ _ _ _ HS))). cbn in Ex'. rewrite Ex'.
      apply list_elem_of_fmap. by exists x.
    + rewrite <- (so_active _ _ _ _ HS). exact Hact.
    + cbn. by rewrite Ectl.
    + exists j. rewrite E, Er. split; [set_solver|]. split; [done|]. split; [done|]. cbn. set_solver.
  - intros [] w4 (w5 & -> & ->). split; [|done]. destruct HB as (B1 & B2 & B3 & B4 & B5).
    apply (Sound_go d w l d3 s'); try done; cbn.
    + by rewrite Ectl.
    + rewrite B4. unfold d2. cbn. by rewrite Ectl.
    + rewrite B5. exact Eun.
Qed.

Lemma piece_reaches d p w :
  Sound synchronous d w [] → placed d w p → wp synchronous (admissible d) (dispatcher_piece marshal_len d p) w reached.
Proof.
  intros HS Hp. destruct p; cbn [dispatcher_piece].
  - by apply top_reaches.
  - by apply preparing_reaches.
  - by apply steady_reaches.
  - by apply admitting_reaches.
  - by apply resting_reaches.
Qed.

(** ** The whole life *)

Definition carried (s : DispatcherState) (w : flights) : Prop :=
  policy_Validate (ctl_Policy (dp_Controller s)) = Ok tt → Sound synchronous (MkVariables s 0 time_zero time_zero false false) w [].
Definition life_ok (x : DispatcherState + Dispatcher * position) (w : flights) : Prop :=
  match x with inl s => carried s w | inr (d, p) => Sound synchronous d w [] ∧ placed d w p end.

Lemma entry_reaches allowed s w : carried s w → wp synchronous allowed (dispatcher_entry s) w (fun x w' => match x.2 with Goto p => life_ok (inr (x.1, p)) w' | _ => True end).
Proof.
  intros HC. unfold dispatcher_entry. destruct (policy_Validate _) as [[]|] eqn:E; [|done]. specialize (HC E).
  apply wp_now_exact. do 7 (apply wp_passive; [done|]; intros ? ? ?P; apply (Sound_passes _ _ _ _ _ P) in HC; clear P).
  case_match; [|done]. split; [|done]. destruct HC as [S1 S2 S3 S4 S5 S6 S7 S8 S9]. constructor; try done.
  destruct S4. by constructor.
Qed.

Lemma wp_runs {R : Type} allowed (p : wf R) w Q r w' : wp synchronous allowed p w Q → runs_to p w r w' → Q r w'.
Proof. intros H HR. exact (wp_reach _ allowed (p, w) (Ret r, w') Q HR H). Qed.

Lemma life_sound x w : life x w → life_ok x w.
Proof.
  induction 1 as [policy t Ht|s w d p w' _ IH HR|d p w d' p' w' _ IH HR|d p w d' s w' _ [HS HP] HR].
  - intros HV%admission_policy_iff. constructor; try done; try (by intros ? ?%not_elem_of_nil).
    + change (Books [] []). constructor; try apply NoDup_nil_2; by intros ? ?%not_elem_of_nil.
    + by apply NewController_ok.
    + intros _. split; [exact Ht|]. split; by intros ? ?%not_elem_of_nil.
  - exact (wp_runs (fun _ _ => False) _ _ _ _ _ (entry_reaches _ s w IH) HR).
  - destruct IH as [HS HP]. exact (wp_runs _ _ _ _ _ _ (piece_reaches d p w HS HP) HR).
  - destruct (wp_runs _ _ _ _ _ _ (piece_reaches d p w HS HP) HR) as [HS' [Hf ->]]. intros _. cbn [fst] in *.
    destruct HS' as [S1 S2 S3 S4 S5 S6 S7 S8 S9]. constructor; try done. by rewrite Hf.
Qed.
End Life.

(** ** The round of the queues *)

(** The job of a round of [PopReady], and whether it can be served. *)
Definition in_turn (s : DispatcherState) (n : Z) : nat := Z.to_nat (Z.rem (dp_Turn s + n) (llen (dp_Jobs s))).
Definition waits (s : DispatcherState) (i : nat) (j : PendingJob) : Prop :=
  dp_Jobs s !! i = Some j ∧ pj_Expired j = false ∧ pj_Ready j ≠ [].

(** The first round from [n] on whose job waits, before [stop]. *)
Definition first_found (s : DispatcherState) (n stop : Z) (x : DispatcherState * option Ref) : Prop :=
  match x with
  | (s', Some r) => ∃ m j rest, n ≤ m < stop ∧ dp_Jobs s !! in_turn s m = Some j ∧ pj_Ready j = ref_Index r :: rest ∧ key_of j = job_key r
      ∧ dp_Turn s' = Z.rem (Z.rem (dp_Turn s + m) (llen (dp_Jobs s)) + 1) (llen (dp_Jobs s))
      ∧ dp_Jobs s' = <[in_turn s m := take_item j rest]> (dp_Jobs s)
      ∧ ∀ k j', n ≤ k < m → ¬ waits s (in_turn s k) j'
  | (_, None) => ∀ k j', n ≤ k < stop → ¬ waits s (in_turn s k) j'
  end.

Lemma first_found_skip s n stop x : (∀ j, ¬ waits s (in_turn s n) j) → first_found s (n + 1) stop x → first_found s n stop x.
Proof.
  intros Hno. destruct x as [s' [r|]]; cbn.
  - intros (m & j & rest & Hm & E1 & E2 & E3 & E4 & E5 & E6). exists m, j, rest. split; [lia|]. do 5 (split; [done|]).
    intros k j' Hk. destruct (decide (k = n)) as [->|]; [apply Hno|]. apply E6. lia.
  - intros H k j' Hk. destruct (decide (k = n)) as [->|]; [apply Hno|]. apply H. lia.
Qed.

Lemma pop_rounds_first rounds n s : 0 ≤ dp_Turn s + n → first_found s n (n + Z.of_nat rounds) (pop_rounds rounds n s).
Proof.
  revert n. induction rounds as [|rounds IH]; intros n Hn; [intros k j'; lia|]. cbn [pop_rounds].
  replace (n + Z.of_nat (S rounds)) with (n + 1 + Z.of_nat rounds) by lia. fold (in_turn s n).
  destruct (dp_Jobs s !! in_turn s n) as [j|] eqn:Ej.
  - destruct (pj_Ready j) as [|index rest] eqn:Er.
    { apply first_found_skip; [intros j' (E & _ & H); congruence|]. apply IH. lia. }
    destruct (pj_Expired j) eqn:Ex; [apply first_found_skip; [intros j' (E & H & _); congruence|apply IH; lia]|].
    exists n, j, rest. split; [lia|]. split; [exact Ej|]. split; [exact Er|]. split; [reflexivity|]. split; [reflexivity|]. split; [reflexivity|].
    intros k j'. lia.
  - intros k j' _ (E & _). apply lookup_ge_None in Ej. apply lookup_lt_Some in E. unfold in_turn in *.
    destruct (dp_Jobs s) as [|x l]; [cbn in E; lia|]. pose proof (Z.rem_bound_pos (dp_Turn s + n) (llen (x :: l)) Hn). unfold llen in *. cbn in *. lia.
Qed.
Lemma PopReady_first s : 0 ≤ dp_Turn s → first_found s 0 (llen (dp_Jobs s)) (PopReady s).
Proof. intros H. unfold PopReady. apply (pop_rounds_first (length (dp_Jobs s)) 0 s). lia. Qed.

(** A number of turns in a row, with what they give. *)
Fixpoint pops (n : nat) (s : DispatcherState) : DispatcherState * list (option Ref) :=
  match n with
  | O => (s, [])
  | S n => let '(s, r) := PopReady s in let '(s', rs) := pops n s in (s', r :: rs)
  end.

(** The rounds until the turn of a job. *)
Definition distance (s : DispatcherState) (i : nat) : Z := (Z.of_nat i - dp_Turn s) mod llen (dp_Jobs s).

Lemma in_turn_distance s i : (i < length (dp_Jobs s))%nat → 0 ≤ dp_Turn s → in_turn s (distance s i) = i.
Proof.
  intros Hi Ht. unfold in_turn, distance. assert (0 < llen (dp_Jobs s)) by (unfold llen; lia).
  pose proof (Z.mod_pos_bound (Z.of_nat i - dp_Turn s) (llen (dp_Jobs s)) H).
  rewrite Z.rem_mod_nonneg by lia. rewrite Zplus_mod_idemp_r. replace (dp_Turn s + (Z.of_nat i - dp_Turn s)) with (Z.of_nat i) by lia.
  rewrite Z.mod_small by (unfold llen; lia). lia.
Qed.

Lemma distance_after s s' m i :
  0 ≤ dp_Turn s → 0 ≤ m < distance s i → (i < length (dp_Jobs s))%nat → length (dp_Jobs s') = length (dp_Jobs s) →
  dp_Turn s' = Z.rem (Z.rem (dp_Turn s + m) (llen (dp_Jobs s)) + 1) (llen (dp_Jobs s)) →
  distance s' i = distance s i - m - 1 ∧ 0 ≤ dp_Turn s'.
Proof.
  intros Ht Hm Hi El Et. unfold distance in *. assert (llen (dp_Jobs s') = llen (dp_Jobs s)) as -> by (unfold llen; lia).
  set (L := llen (dp_Jobs s)) in *. assert (0 < L) by (unfold L, llen; lia).
  pose proof (Z.mod_pos_bound (Z.of_nat i - dp_Turn s) L H). pose proof (Z.mod_pos_bound (dp_Turn s + m) L H).
  rewrite (Z.rem_mod_nonneg (dp_Turn s + m)), Z.rem_mod_nonneg in Et by lia. rewrite Zplus_mod_idemp_l in Et. rewrite Et.
  split; [|apply Z.mod_pos_bound; lia]. rewrite Zminus_mod_idemp_r.
  replace (Z.of_nat i - (dp_Turn s + m + 1)) with ((Z.of_nat i - dp_Turn s) - (m + 1)) by lia.
  rewrite <- Zminus_mod_idemp_l. rewrite Z.mod_small; lia.
Qed.

Lemma pops_serve n s i j index rest :
  0 ≤ dp_Turn s → waits s i j → pj_Ready j = index :: rest → distance s i < Z.of_nat n →
  Some (MkRef (jr_Scope (pj_Job j)) (jr_JobID (pj_Job j)) index) ∈ (pops n s).2.
Proof.
  revert s. induction n as [|n IH]; intros s Ht Hw Er Hd.
  - assert (0 < llen (dp_Jobs s)) as HL by (destruct Hw as [E _]; apply lookup_lt_Some in E; unfold llen; lia).
    pose proof (Z.mod_pos_bound (Z.of_nat i - dp_Turn s) _ HL). unfold distance in Hd. lia.
  - cbn [pops]. pose proof (PopReady_first s Ht) as HF. destruct (PopReady s) as [s1 r] eqn:Ep.
    destruct (pops n s1) as [s2 rs] eqn:Es. cbn [snd]. pose proof Hw as (Ej & Ex & Hr). pose proof (lookup_lt_Some _ _ _ Ej) as Hi.
    assert (0 < llen (dp_Jobs s)) as HL by (unfold llen; lia).
    pose proof (in_turn_distance s i Hi Ht) as Ei. pose proof (Z.mod_pos_bound (Z.of_nat i - dp_Turn s) _ HL) as HD. fold (distance s i) in HD.
    destruct r as [r|].
    + destruct HF as (m & j1 & rest1 & Hm & E1 & E2 & E3 & E4 & E5 & E6).
      destruct (Z.lt_trichotomy m (distance s i)) as [Hlt|[->|Hgt]].
      * right. change rs with ((s2, rs).2). rewrite <- Es. destruct (distance_after s s1 m i) as [Hd' Ht']; [lia|lia|done|by rewrite E5, length_insert|done|].
        apply IH; [done| |done|lia]. split; [|done]. rewrite E5, list_lookup_insert_ne; [done|]. intros Em.
        assert (in_turn s m = in_turn s (distance s i)) as Eq by congruence. unfold in_turn in Eq.
        rewrite !Z.rem_mod_nonneg in Eq by lia. pose proof (Z.mod_pos_bound (dp_Turn s + m) _ HL). pose proof (Z.mod_pos_bound (dp_Turn s + distance s i) _ HL).
        apply Z2Nat.inj in Eq; [|lia|lia].
        assert ((distance s i - m) mod llen (dp_Jobs s) = 0) as Hz.
        { replace (distance s i - m) with ((dp_Turn s + distance s i) - (dp_Turn s + m)) by lia. rewrite Zminus_mod, Eq, Z.sub_diag. by apply Z.mod_0_l; lia. }
        rewrite Z.mod_small in Hz by lia. lia.
      * rewrite Ei in E1. assert (j1 = j) as -> by congruence. rewrite Er in E2. injection E2 as -> _.
        assert (MkRef (jr_Scope (pj_Job j)) (jr_JobID (pj_Job j)) (ref_Index r) = r) as ->; [|by left].
        unfold key_of, job_of, job_key in E3. injection E3 as -> ->. done.
      * exfalso. apply (E6 (distance s i) j); [lia|]. by rewrite Ei.
    + exfalso. apply (HF (distance s i) j); [lia|]. by rewrite Ei.
Qed.

(** ** The workflow of a job *)

(** What a run of the workflow has seen of the clock and of the store. *)
Inductive remark : Type := ClockWas (t : Time) | StatusWas (s : Status) | ExpiryWas (ok : bool).
Definition remark_of {A : Type} (e : wf_event A) (a : A) : list remark :=
  match e in wf_event A return A → list remark with
  | WfNow => fun t => [ClockWas t]
  | ExecuteActivity act =>
      match act in wf_activity A return res act_error A → list remark with
      | ActStatus _ => fun r => match r with Ok s => [StatusWas s] | Err _ => [] end
      | ActExpire _ => fun r => [ExpiryWas (is_ok r)]
      | _ => fun _ => []
      end
  | _ => fun _ => []
  end a.
Fixpoint logged {R : Type} (p : wf R) (log : list remark) (r : R) : Prop :=
  match p with Ret x => log = [] ∧ x = r | Do e k => ∃ a log', log = remark_of e a ++ log' ∧ logged (k a) log' r end.

Lemma logged_bind {R S : Type} (p : wf R) (f : R → wf S) log r :
  logged (p ≫= f) log r → ∃ log1 x log2, log = log1 ++ log2 ∧ logged p log1 x ∧ logged (f x) log2 r.
Proof.
  revert log. induction p as [x|A e k IH]; intros log; [intros H; by exists [], x, log|].
  intros (a & log' & -> & (l1 & x & l2 & -> & H1 & H2)%IH). exists (remark_of e a ++ l1), x, l2.
  split; [by rewrite app_assoc|]. split; [|done]. by exists a, l1.
Qed.

(** The expiries in a log. *)
Definition expiries (log : list remark) : list bool := omap (fun x => match x with ExpiryWas ok => Some ok | _ => None end) log.
(** An expiry comes after the deadline. *)
Definition timely (deadline : Time) (log : list remark) : Prop :=
  ∀ l1 ok l2, log = l1 ++ ExpiryWas ok :: l2 → ∃ l0 now, l1 = l0 ++ [ClockWas now] ∧ deadline ≤ now.
(** The end of a log that a successful return needs. *)
Definition concluded (owned : bool) (log : list remark) : Prop :=
  (∃ l s, log = l ++ [StatusWas s] ∧ counts_Done (st_Counts s) = true) ∨ (owned = false ∧ ∃ l, log = l ++ [ExpiryWas true]).

Lemma expiries_app l1 l2 : expiries (l1 ++ l2) = expiries l1 ++ expiries l2.
Proof. apply omap_app. Qed.
Lemma timely_nil deadline : timely deadline [].
Proof. intros l1 ok l2 E. by destruct l1. Qed.
Lemma timely_plain deadline log : expiries log = [] → timely deadline log.
Proof. intros E l1 ok l2 ->. rewrite expiries_app in E. by apply app_eq_nil in E as [_ ?]. Qed.
Lemma timely_app deadline l1 l2 : timely deadline l1 → timely deadline l2 → timely deadline (l1 ++ l2).
Proof.
  intros H1 H2 a ok b E. apply app_eq_app in E as [l [[-> E]|[-> E]]].
  - destruct l as [|x l]; cbn in E.
    + destruct (H2 [] ok b (eq_sym E)) as (l0 & now & E' & _). by destruct l0.
    + injection E as <- ->. by apply (H1 a ok l).
  - destruct (H2 l ok b) as (l0 & now & -> & Hn); [done|]. exists (l1 ++ l0), now. by rewrite app_assoc.
Qed.

Lemma Sub_expired deadline now : (Sub deadline now <=? 0) = true → deadline ≤ now.
Proof. unfold Sub, sat64, int64_min, int64_max. repeat case_match; intros; bool_to_prop; lia. Qed.

Lemma timely_expiry deadline now s ok : deadline ≤ now → timely deadline [StatusWas s; ClockWas now; ExpiryWas ok].
Proof.
  intros H l1 ok' l2 E. destruct l1 as [|a [|b [|c [|]]]]; simplify_eq/=. by exists [StatusWas s], now.
Qed.

(** One round of the workflow. *)
Definition round_log (job : JobRef) (l l' : JobLoop) (returned : option (res act_error unit)) (log : list remark) : Prop :=
  timely (jr_Deadline job) log ∧ jl_Owned l' = jl_Owned l ∧ (returned = Some (Ok tt) → concluded (jl_Owned l) log)
  ∧ ((expiries log = [] ∧ l' = l) ∨ (length (expiries log) = 1%nat ∧ (jl_Owned l = true → jl_Expired l = false)
       ∧ (returned = None → jl_Owned l = true ∧ jl_Expired l' = true))).

Lemma batch_round_log job l log l' returned : logged (batch_round job l) log (l', returned) → round_log job l l' returned log.
Proof.
  intros (status & log1 & -> & H). destruct status as [s|e]; cbn in H.
  2: { destruct H as [-> [= <- <-]]. split; [apply timely_nil|]. split; [done|]. split; [done|]. by left. }
  destruct (counts_Done (st_Counts s)) eqn:Ed.
  { destruct H as [-> [= <- <-]]. split; [by apply timely_plain|]. split; [done|]. split; [|by left]. intros _. left. by exists [], s. }
  destruct H as (now & log2 & -> & H). destruct (Sub _ now <=? 0) eqn:Es.
  - apply Sub_expired in Es. destruct (jl_Owned l) eqn:Eo; cbn in H; [destruct (jl_Expired l) eqn:Ee; cbn in H|].
    + destruct H as (slept & log3 & -> & -> & [= <- <-]). split; [by apply timely_plain|]. split; [done|]. split; [by destruct slept|]. by left.
    + destruct H as (x & log3 & -> & H). destruct x as [[]|e]; destruct H as [-> [= <- <-]]; cbn;
        (split; [by apply timely_expiry|]; split; [done|]; split; [done|]; right; done).
    + destruct H as (x & log3 & -> & -> & [= <- <-]). split; [by apply timely_expiry|]. split; [done|]. rewrite Eo. split; [|by right].
      intros [= ->]. right. split; [done|]. by exists [StatusWas s; ClockWas now].
  - destruct H as (slept & log3 & -> & -> & [= <- <-]). split; [by apply timely_plain|]. split; [done|]. split; [by destruct slept|]. by left.
Qed.

Lemma concluded_app owned l1 l2 : concluded owned l2 → concluded owned (l1 ++ l2).
Proof.
  intros [(l & s & -> & H)|(Ho & l & ->)]; [left; exists (l1 ++ l), s|right; split; [done|]; exists (l1 ++ l)]; by rewrite app_assoc.
Qed.

Lemma batch_rounds_log n job l log r :
  (jl_Expired l = true → jl_Owned l = true) → logged (batch_rounds n job l) log r →
  timely (jr_Deadline job) log ∧ (r = Some (Ok tt) → concluded (jl_Owned l) log)
  ∧ (length (expiries log) ≤ if jl_Expired l then 0 else 1)%nat.
Proof.
  revert l log. induction n as [|n IH]; intros l log Ho.
  { intros [-> <-]. split; [apply timely_nil|]. split; [done|]. cbn. lia. }
  cbn [batch_rounds]. intros (log1 & [l1 returned] & log2 & -> & (T & Eo & HC & HE)%batch_round_log & H2)%logged_bind.
  rewrite expiries_app, length_app. destruct returned as [r1|].
  - destruct H2 as [-> <-]. rewrite app_nil_r. split; [done|]. split; [intros [= ->]; by apply HC|]. cbn [expiries omap list_omap length].
    destruct HE as [[-> _]|(-> & Hx & _)]; [cbn; lia|]. destruct (jl_Expired l); [|lia]. discriminate Hx. by apply Ho.
  - destruct (IH l1 log2) as (T2 & C2 & E2); [|done|].
    { intros Hx. rewrite Eo. destruct HE as [[_ ->]|(_ & _ & Hn)]; [by apply Ho|by apply Hn]. }
    split; [by apply timely_app|]. split; [intros Hr; rewrite <- Eo; by apply concluded_app, C2|].
    destruct HE as [[-> ->]|(-> & Hx & Hn)]; [exact E2|]. destruct (Hn eq_refl) as [Hown Hex]. rewrite Hex in E2. rewrite (Hx Hown). lia.
Qed.

(** ** Properties *)

(** C22: an item is never in flight twice. Over the whole life of a dispatcher, through
    any order of signals, completions, expiries, losses and continuations as a new run,
    the calls it has not accounted for are of different items, their number is the one it
    reckons with, as is that of each job; and whenever it starts a call, the item waits in a
    queue of a live job and is not in flight, fewer calls than the policy allows are, and
    admission is neither paused, nor probing, nor being wound down; a call under a cooldown
    is its probe. *)
Theorem dispatcher_calls_exclusive (synchronous : Prop) (marshal_len : PoolState → Z) d p w :
  life synchronous marshal_len (inr (d, p)) w →
  NoDup (map la_Ref (in_flight w [])) ∧ dv_active d = llen (in_flight w [])
  ∧ (∀ j, j ∈ dp_Jobs (dv_s d) → pj_Active j = calls_of (key_of j) (map la_Ref (in_flight w [])))
  ∧ ∀ l k w', rtc (wf_step synchronous) (dispatcher_piece marshal_len d p, w) (Do (Go l) k, w') → admissible d l w'.
Proof.
  intros [HS HP]%life_sound. split; [apply (so_books _ _ _ _ HS)|]. split; [apply HS|]. split; [apply (so_books _ _ _ _ HS)|].
  intros l k w' HR. pose proof (wp_reach _ (admissible d) _ _ _ HR (piece_reaches _ marshal_len d p w HS HP)) as H. apply H.
Qed.

(** *** A run, answer by answer *)

Definition quiet_world : flights := MkFlights [] [] [] [] Hour.
(** The answer [a] to the next command, which leaves the world as it is. *)
Ltac answer a := eapply rtc_l; [refine (wf_interacts True _ _ _ a _ _ _); eexists; split; [first [reflexivity|apply rtc_refl]|first [reflexivity|split; reflexivity]]|].
Ltac clock := answer Hour.
(** The channels of [drainSignals], in order. *)
Ltac no_signals := answer (@nil bool); answer (@nil bool); answer (@nil JobRef); answer (@nil bool); answer (@nil Policy); answer (@nil completion).
Ltac enter := clock; do 6 answer true; answer (@Ok act_error unit tt); apply rtc_refl.

Definition demo_job : JobRef := MkJobRef "s" "j" 2 Hour (3 * Hour) "w".
Definition no_size (s : PoolState) : Z := 0.

Definition fresh : Dispatcher := MkVariables (new_dispatcher DefaultPolicy) 0 Hour Hour true true.
Definition with_job (heartbeat : Time) : Dispatcher :=
  MkVariables (MkDispatcher (NewController DefaultPolicy) [MkPending demo_job [0; 1] 0 false] 0 0 false false 0 0) 0 Hour heartbeat true true.
Definition demo_launch : launch := MkLaunch (MkRef "s" "j" 0) false Hour.

Lemma fresh_life : life True no_size (inr (fresh, Top)) quiet_world.
Proof. eapply life_enter; [apply (life_new True no_size DefaultPolicy Hour); vm_compute; discriminate|enter]. Qed.
Lemma with_job_life : life True no_size (inr (with_job (Hour + 5 * Second), Admitting false)) quiet_world.
Proof.
  apply (life_piece True no_size (with_job Hour) (Steady Hour) quiet_world); [apply (life_piece True no_size fresh Top quiet_world); [exact fresh_life|]|].
  - answer (@nil bool). answer (@nil bool). answer [demo_job]. clock. answer (@nil bool). answer (@nil Policy). answer (@nil completion).
    clock. apply rtc_refl.
  - answer false. clock. answer (@Ok act_error unit tt). clock. apply rtc_refl.
Qed.
Lemma demo_launched : ∃ k, rtc (wf_step True) (dispatcher_piece no_size (with_job (Hour + 5 * Second)) (Admitting false), quiet_world) (Do (Go demo_launch) k, quiet_world).
Proof. eexists. do 4 clock. apply rtc_refl. Qed.

Lemma dispatcher_calls_exclusive_witness : admissible (with_job (Hour + 5 * Second)) demo_launch quiet_world ∧ dv_active (with_job Hour) = 0.
Proof.
  destruct (dispatcher_calls_exclusive True no_size _ _ quiet_world with_job_life) as (_ & _ & _ & Hadm).
  split; [destruct demo_launched as [k HR]; exact (Hadm demo_launch k quiet_world HR)|reflexivity].
Defined.

(** C23: a handoff leaves nothing behind. When the dispatcher continues as the pool of the
    next generation, it has no call in flight, received or lost, and no call of its whole life
    ended without its own outcome; the pool starts with its controller, and, where the clocks
    agree, from a state of the pool's life, so that the properties of that life hold on. *)
Theorem dispatcher_handoff_clean `{PoolEnv} (synchronous : Prop) (marshal_len : PoolState → Z) d p w d' pool w' :
  life synchronous marshal_len (inr (d, p)) w → runs_to synchronous (dispatcher_piece marshal_len d p) w (d', Ended (ContinuePool pool)) w' →
  in_flight w' [] = [] ∧ (∀ c, c ∈ fl_received w' → failed_activity (cm_Outcome c) = false) ∧ pool_Controller pool = dp_Controller (dv_s d')
  ∧ (synchronous → 0 ≤ Sequence pool → ∀ publishStatus, reach marshal_len publishStatus [] (fl_time w') (inl pool)).
Proof.
  intros [HS HP]%life_sound HR.
  destruct (wp_runs _ _ _ _ _ _ _ (piece_reaches _ marshal_len d p w HS HP) HR) as [HS' (Hf & Hu & fence & ->)]. cbn [fst snd] in *.
  assert (∃ after, handoff_state (dv_s d') fence
    = adopted_state (fe_PoolID fence) (fe_Generation fence) (dp_Controller (dv_s d')) (fe_Sequence fence) after) as [after Ea].
  { unfold handoff_state. repeat case_match; [eexists (jr_Scope (pj_Job _)); reflexivity|by exists ""|by exists ""]. }
  split; [done|]. split; [|split; [by rewrite Ea|]].
  - intros c Hc. destruct (failed_activity (cm_Outcome c)) eqn:E; [|done].
    destruct (so_failures _ _ _ _ HS' c Hc E) as [?%not_elem_of_nil|?]; [done|lia].
  - intros Y Hseq publishStatus. rewrite Ea in *. apply reach_adopted; [apply HS'| |apply (so_clock _ _ _ _ HS' Y)|done|apply HS'].
    destruct (Probing _) eqn:E; [|done]. destruct (so_probe _ _ _ _ HS' Y E) as (l & Hl & _). rewrite Hf in Hl. by apply not_elem_of_nil in Hl.
Qed.

Definition upgrading : Dispatcher := MkVariables (MkDispatcher (NewController DefaultPolicy) [] 0 0 true true 0 0) 0 Hour Hour true true.
Definition adopted : PoolState := adopted_state "p" 2 (NewController DefaultPolicy) 7 "".

Lemma upgrading_life : life True no_size (inr (upgrading, Preparing Hour "hllm-cpa-pool-v1/p" 0)) quiet_world.
Proof.
  apply (life_piece True no_size fresh Top quiet_world).
  - exact fresh_life.
  - answer (@nil bool). answer [true]. clock. answer (@nil JobRef). answer (@nil bool). answer (@nil Policy). answer (@nil completion).
    clock. answer "hllm-cpa-pool-v1/p". apply rtc_refl.
Qed.
Lemma upgrading_runs :
  runs_to True (dispatcher_piece no_size upgrading (Preparing Hour "hllm-cpa-pool-v1/p" 0)) quiet_world (upgrading, Ended (ContinuePool adopted)) quiet_world.
Proof.
  no_signals. answer (@Ok act_error unit tt). answer (@Ok act_error PoolFence (MkFence "p" 2 7)). no_signals. apply rtc_refl.
Qed.

Lemma dispatcher_handoff_clean_witness : Sequence adopted = 7 ∧ @reach DemoPoolEnv no_size true [] Hour (inl adopted).
Proof.
  split; [reflexivity|].
  apply (@dispatcher_handoff_clean DemoPoolEnv True no_size upgrading _ quiet_world upgrading adopted quiet_world upgrading_life upgrading_runs);
    [exact I|vm_compute; discriminate].
Defined.

(** The round of the queues starves no job. A job that waits is served, its oldest
    item first, within as many turns as there are jobs, however long the queues of the
    others are; and a turn finds nothing only when no job waits. *)
Theorem PopReady_serves_all s i j index rest :
  0 ≤ dp_Turn s → waits s i j → pj_Ready j = index :: rest →
  Some (MkRef (jr_Scope (pj_Job j)) (jr_JobID (pj_Job j)) index) ∈ (pops (length (dp_Jobs s)) s).2 ∧ is_Some (PopReady s).2.
Proof.
  intros Ht Hw Er. pose proof Hw as (Ej & _). pose proof (lookup_lt_Some _ _ _ Ej) as Hi.
  assert (0 < llen (dp_Jobs s)) as HL by (unfold llen; lia). pose proof (Z.mod_pos_bound (Z.of_nat i - dp_Turn s) _ HL) as HD.
  split.
  - apply (pops_serve _ _ i j index rest); try done. unfold distance, llen in *. lia.
  - pose proof (PopReady_first s Ht) as HF. destruct (PopReady s) as [s' [r|]]; [done|]. exfalso.
    apply (HF (distance s i) j); [exact HD|]. by rewrite in_turn_distance.
Qed.

Definition queued_job (id : string) (ready : list Z) : PendingJob := MkPending (MkJobRef "s" id 8 0 Hour "") ready 0 false.
Definition two_queues : DispatcherState :=
  MkDispatcher (NewController DefaultPolicy) [queued_job "a" [0; 1; 2]; queued_job "b" [0; 1]] 1 0 false false 0 0.
Lemma PopReady_serves_all_witness :
  (pops 5 two_queues).2 = [Some (MkRef "s" "b" 0); Some (MkRef "s" "a" 0); Some (MkRef "s" "b" 1); Some (MkRef "s" "a" 1); Some (MkRef "s" "a" 2)]
  ∧ Some (MkRef "s" "a" 0) ∈ (pops 2 two_queues).2 ∧ is_Some (PopReady two_queues).2.
Proof.
  split; [vm_compute; reflexivity|].
  apply (PopReady_serves_all two_queues 0 (queued_job "a" [0; 1; 2]) 0 [1; 2]); [vm_compute; discriminate|split; done|reflexivity].
Defined.

(** The workflow of a job returns success only when the job is done. Whatever the
    engine answers, its last reading is then a status in which every item has ended, or,
    in a history that does not own the finalization, the expiry that ends them; it asks for
    the expiry at most once, and only after the deadline of the job. *)
Theorem BatchWorkflow_ends_done n job log r :
  logged (BatchWorkflow n job) log r →
  timely (jr_Deadline job) log ∧ (length (expiries log) ≤ 1)%nat ∧ (r = Some (Ok tt) → ∃ owned, concluded owned log).
Proof.
  intros (log1 & [l returned] & log2 & -> & H1 & H2)%logged_bind. destruct H1 as (owned & log3 & -> & enqueued & log4 & -> & -> & [= <- <-]).
  destruct enqueued as [[]|e]; cbn in *.
  - destruct (batch_rounds_log n job (MkJobLoop owned false) log2 r) as (T & C & E); [done|done|]. split; [done|]. split; [done|].
    intros Hr. exists owned. by apply C.
  - destruct H2 as [-> <-]. split; [apply timely_nil|]. split; [cbn; lia|done].
Qed.

(** An answer, and what is seen of it. *)
Ltac log_step a := refine (ex_intro _ a (ex_intro _ _ (conj eq_refl _))).

Definition demo_status (done : Z) : Status :=
  MkStatus "j" "" (MkCounts 2 0 (2 - done) 0 done 0) 0 Hour None None 0 None None "" None "" "".
Lemma BatchWorkflow_ends_done_witness :
  let log := [StatusWas (demo_status 1); ClockWas (2 * Hour); ExpiryWas true; StatusWas (demo_status 2)] in
  logged (BatchWorkflow 2 (MkJobRef "s" "j" 2 0 Hour "w")) log (Some (Ok tt)) ∧ timely Hour log ∧ ∃ owned, concluded owned log.
Proof.
  assert (logged (BatchWorkflow 2 (MkJobRef "s" "j" 2 0 Hour "w"))
    [StatusWas (demo_status 1); ClockWas (2 * Hour); ExpiryWas true; StatusWas (demo_status 2)] (Some (Ok tt))) as H.
  { log_step true. log_step (@Ok act_error unit tt). log_step (@Ok act_error _ (demo_status 1)). log_step (2 * Hour).
    log_step (@Ok act_error unit tt). log_step (@Ok act_error _ (demo_status 2)). split; reflexivity. }
  split; [exact H|]. destruct (BatchWorkflow_ends_done _ _ _ _ H) as (T & _ & C). split; [exact T|]. by apply C.
Defined.

(** ** Two behaviours that were not meant *)

(** A rejected probe whose start was stamped before the controller's epoch, by a clock
    that is behind, does not end the probing: no call is admitted any more. *)
Lemma stale_probe_keeps_probing c now dispatched reserved delay later active :
  Probing c = true → dispatched < Epoch c →
  let c' := Complete c now dispatched reserved true "rejected" delay in
  Probing c' = true ∧ CanStart c' later active = false.
Proof.
  intros Hp He. cbn zeta. assert (Probing (Complete c now dispatched reserved true "rejected" delay) = true) as H.
  { unfold Complete, complete_kind. cbn [String.eqb]. set (k := if _ && _ && _ then _ else c).
    assert (Probing k = true ∧ Epoch k = Epoch c) as [E1 E2] by (unfold k; case_match; done). clearbody k.
    assert (completeThrottle k now dispatched true delay = k) as ->; [|cbn [andb negb]; rewrite ?andb_false_r; exact E1].
    unfold completeThrottle, Before. rewrite E2, (proj2 (Z.ltb_lt _ _) He). done. }
  split; [done|]. unfold CanStart. rewrite H, orb_true_r. done.
Qed.

(** Two policies that are received together are mixed: the second one, sent without a
    recovery jitter, is configured with the jitter of the first. *)
Lemma drained_policies_mixed first second :
  RecoveryJitterMS second = 0 →
  last (decoded_policies zeroPolicy [first; second]) = Some (second <| RecoveryJitterMS := RecoveryJitterMS first |>).
Proof.
  intros E. cbn. unfold decode_policy. rewrite E. cbn. destruct (RecoveryJitterMS first =? 0) eqn:E1; cbn; [|done].
  bool_to_prop. by rewrite E1.
Qed.
