(* ===== verification/Handoff.v ===== *)
(** * Handoff: from the dispatcher to the pool

    Models the rest of [src/stateful/batch/handoff.go]: the activities by which a
    dispatcher prepares its jobs and gives up its generation, and the command that waits
    until the pool has taken over.  Theorems about the adoption of a generation in the
    ledger, and about what that command may report. *)
From stdpp Require Import gmap.
From S2P Require Import Prelude BatchController BatchPool PoolWorkflow PoolInvariant PoolProperties Ledger LedgerQueue LedgerInvariant LedgerProperties AttemptFlow Dispatcher.

Open Scope string_scope.
Open Scope list_scope.
Open Scope Z_scope.

(** ** The activities *)

Section Activities.
Context `{PoolEnv} `{LedgerEnv}.

Definition legacy_workflow (act : Activities) : string := "hllm-cpa-pool-v1/" +:+ ac_PoolID act.

Fixpoint attach_jobs (pool : string) (generation : Z) (jobs : list JobRef) : activity (res batch_error unit) :=
  match jobs with
  | [] => mret (Ok tt)
  | job :: jobs =>
      attached ← trigger (Store (fun f _ => AttachJob f pool generation job));
      match attached with Err e => mret (Err e) | Ok _ => attach_jobs pool generation jobs end
  end.

Definition PrepareLegacyJobs (act : Activities) (h : LegacyHandoff) : activity (res batch_error unit) :=
  let pool := ac_PoolID act in
  let read := trigger (Store (fun f _ => read_generation f pool)) in
  if negb (String.eqb (lh_WorkflowID h) (legacy_workflow act)) || (16 <? llen (lh_Jobs h)) then mret (Err ErrGenerationFenced)
  else
    marker ← read;
    marker ← match marker with
             | Err ErrNotFound =>
                 ensured ← trigger (Store (fun f _ => EnsurePool f pool 1));
                 match ensured with Err e => mret (Err e) | Ok _ => read end
             | marker => mret marker
             end;
    match marker with
    | Err e => mret (Err e)
    | Ok g => attach_jobs pool (pg_Generation g) (lh_Jobs h)
    end.

(** The error of the activity: one of the package, or an application error that is not
    tried again. *)
Inductive advance_error : Type := AdvanceFailed (e : batch_error) | AdvanceUnresolved (type : string).

Definition AdvanceLegacyPool (act : Activities) (h : LegacyHandoff) : activity (res advance_error PoolFence) :=
  if negb (String.eqb (lh_WorkflowID h) (legacy_workflow act)) then mret (Err (AdvanceFailed ErrGenerationFenced))
  else
    fence ← trigger (Store (fun f _ => AdoptLegacyPool f (ac_PoolID act)));
    mret (match fence with
          | Err ErrLegacyExecutionUnresolved => Err (AdvanceUnresolved "legacy_execution_unresolved")
          | Err e => Err (AdvanceFailed e)
          | Ok fence => Ok fence
          end).
End Activities.

(** ** Waiting for the pool *)

(** What [DescribeWorkflowExecution] says, when it says something: whether the workflow
    runs, and its type. *)
Record description := MkDescription { ds_Running : bool; ds_Type : option string }.
(** What a query returns: a value that may not decode as either state. *)
Record queried := MkQueried { qd_Pool : option PoolState; qd_Dispatcher : option DispatcherState }.
Record UpgradeProgress := MkProgress {
  up_PoolID : string; up_WorkflowType : string; up_Active : Z; up_Unresolved : Z; up_Quiescing : bool }.

Inductive upgrade_error : Type := UpgradeFailed (e : batch_error) | UpgradeCancelled.

Inductive upgrade_event : Type → Type :=
| Describe (id : string) : upgrade_event (option description)
| SignalUpgrade (id : string) : upgrade_event bool
| QueryState (id : string) : upgrade_event (option queried)
| UpgradeNow : upgrade_event Time
| Report (p : UpgradeProgress) : upgrade_event unit
(** [true] when the context is done before the next tick *)
| Tick : upgrade_event bool.
Abbreviation upgrade_prog := (prog upgrade_event).

(** The type of the running workflow. *)
Definition running_type (d : option description) : res upgrade_error string :=
  match d with
  | None => Err (UpgradeFailed ErrUnavailable)
  | Some d =>
      match ds_Type d with
      | None => Err (UpgradeFailed ErrUnavailable)
      | Some name => if ds_Running d then Ok name else Err (UpgradeFailed ErrGenerationFenced)
      end
  end.

(** The part of a round that reads the state: [None] to wait for the next tick. *)
Definition read_upgrade (report : bool) (pool name : string) (nextProgress : Time) (answer : option queried)
  : upgrade_prog (Time * option (res upgrade_error PoolState)) :=
  match answer with
  | None => mret (nextProgress, None)
  | Some q =>
      if String.eqb name PoolWorkflowName then
        mret (nextProgress, Some (match qd_Pool q with
          | None => Err (UpgradeFailed ErrUnavailable)
          | Some s => if negb (String.eqb (PoolID s) pool) || (Generation s <? 2) || Quiescing s then Err (UpgradeFailed ErrGenerationFenced) else Ok s
          end))
      else if negb (String.eqb name DispatcherWorkflowName) then mret (nextProgress, Some (Err (UpgradeFailed ErrGenerationFenced)))
      else
        match qd_Dispatcher q with
        | None => mret (nextProgress, Some (Err (UpgradeFailed ErrUnavailable)))
        | Some s =>
            if 0 <? dp_Unresolved s then mret (nextProgress, Some (Err (UpgradeFailed ErrLegacyExecutionUnresolved)))
            else if report then
              now ← trigger UpgradeNow;
              if negb (Before now nextProgress) then
                _ ← trigger (Report (MkProgress pool name (dp_Active s) (dp_Unresolved s) (dp_Quiescing s)));
                now ← trigger UpgradeNow;
                mret (Add now (5 * Second), None)
              else mret (nextProgress, None)
            else mret (nextProgress, None)
        end
  end.

Definition upgrade_round (report : bool) (pool : string) (nextProgress : Time) : upgrade_prog (Time * option (res upgrade_error PoolState)) :=
  let id := "hllm-cpa-pool-v1/" +:+ pool in
  described ← trigger (Describe id);
  match running_type described with
  | Err e => mret (nextProgress, Some (Err e))
  | Ok name =>
      answer ← trigger (QueryState id);
      '(nextProgress, returned) ← read_upgrade report pool name nextProgress answer;
      match returned with
      | Some r => mret (nextProgress, Some r)
      | None => cancelled ← trigger Tick; mret (nextProgress, if (cancelled : bool) then Some (Err UpgradeCancelled) else None)
      end
  end.

Fixpoint upgrade_rounds (n : nat) (report : bool) (pool : string) (nextProgress : Time) : upgrade_prog (option (res upgrade_error PoolState)) :=
  match n with
  | O => mret None
  | S n =>
      '(nextProgress, returned) ← upgrade_round report pool nextProgress;
      match returned with Some r => mret (Some r) | None => upgrade_rounds n report pool nextProgress end
  end.

(** The command for a number of rounds; [client] and [report] tell whether there is a
    client and a callback. *)
Definition WaitPoolUpgrade (n : nat) (client report : bool) (pool : string) : upgrade_prog (option (res upgrade_error PoolState)) :=
  if negb client || negb (validPool pool) then mret (Some (Err (UpgradeFailed ErrUnavailable)))
  else
    let id := "hllm-cpa-pool-v1/" +:+ pool in
    described ← trigger (Describe id);
    match running_type described with
    | Err e => mret (Some (Err e))
    | Ok name =>
        if String.eqb name DispatcherWorkflowName then
          sent ← trigger (SignalUpgrade id);
          if negb sent then mret (Some (Err (UpgradeFailed ErrUnavailable))) else upgrade_rounds n report pool time_zero
        else if negb (String.eqb name PoolWorkflowName) then mret (Some (Err (UpgradeFailed ErrGenerationFenced)))
        else upgrade_rounds n report pool time_zero
    end.

(** ** The adoption of a generation *)

Section Adoption.
Context `{PoolEnv} `{LedgerEnv}.

(** Nothing of the first generation is left, or unaccounted for. *)
Definition wound_down (pool : string) (db : DB) : Prop :=
  (∀ p a, db_attempts db !! p = Some a → rs_PoolID (a_Reservation a) = pool → settled a ∧ is_Some (a_StoppedAt a))
  ∧ ∀ k i j, db_items db !! k = Some i → db_jobs db !! k.1 = Some j → (jb_PoolID j = pool ∨ jb_PoolID j = "") →
      is_active i = false ∧ lost_activity i = false.

Lemma pool_item_false pool db k cond i j :
  pool_item pool db k cond i = false → db_jobs db !! k.1 = Some j → (jb_PoolID j = pool ∨ jb_PoolID j = "") → cond i = false.
Proof.
  unfold pool_item. intros Hpi Hj Hp. rewrite Hj in Hpi. apply andb_false_iff in Hpi as [?|Hpi]; [done|].
  apply orb_false_iff in Hpi as [E1 E2]. bool_to_prop. destruct Hp; done.
Qed.

Lemma outstanding_false pool db :
  outstanding pool db = false → exists_row (fun key => pool_item pool db key lost_activity) (db_items db) = false → wound_down pool db.
Proof.
  intros [Ha Hi]%orb_false_iff Hl. split.
  - intros p a Hp E. pose proof (exists_row_none _ _ p a Ha Hp) as Hu. unfold unfinished in Hu. rewrite E, String.eqb_refl in Hu. cbn in Hu.
    apply orb_false_iff in Hu as [Hu1 Hu2]. apply negb_false_iff in Hu1, Hu2. apply bool_decide_eq_true in Hu2. by apply is_settled_spec in Hu1.
  - intros k i j Hk Hj Hp. split; [apply (pool_item_false pool db k is_active i j)|apply (pool_item_false pool db k lost_activity i j)]; try done.
    + exact (exists_row_none _ _ k i Hi Hk).
    + exact (exists_row_none _ _ k i Hl Hk).
Qed.

(** The highest sequence of the attempts of a pool, 0 when it has none. *)
Definition highest_sequence (pool : string) (db : DB) (n : Z) : Prop :=
  0 ≤ n
  ∧ (∀ p a, db_attempts db !! p = Some a → rs_PoolID (a_Reservation a) = pool → rs_Sequence (a_Reservation a) ≤ n)
  ∧ (n = 0 ∨ ∃ p a, db_attempts db !! p = Some a ∧ rs_PoolID (a_Reservation a) = pool ∧ rs_Sequence (a_Reservation a) = n).

Lemma last_sequence_highest pool db : highest_sequence pool db (last_sequence pool db).
Proof.
  unfold last_sequence. set (step := fun (kv : string * Attempt) acc => if String.eqb _ pool then Z.max _ acc else acc).
  assert (∀ l : list (string * Attempt), 0 ≤ foldr step 0 l
    ∧ (∀ kv, kv ∈ l → rs_PoolID (a_Reservation kv.2) = pool → rs_Sequence (a_Reservation kv.2) ≤ foldr step 0 l)
    ∧ (foldr step 0 l = 0 ∨ ∃ kv, kv ∈ l ∧ rs_PoolID (a_Reservation kv.2) = pool ∧ rs_Sequence (a_Reservation kv.2) = foldr step 0 l)) as Hl.
  { induction l as [|kv l (IH1 & IH2 & IH3)]; cbn [foldr]; [split; [done|]; split; [by intros kv ?%not_elem_of_nil|by left]|].
    unfold step at 1 3 5 7. destruct (String.eqb_spec (rs_PoolID (a_Reservation kv.2)) pool) as [Ep|Ep]; split_and!; [lia| |..|done| |].
    - intros x [->|Hx]%elem_of_cons E; [lia|]. specialize (IH2 x Hx E). lia.
    - destruct (Z.max_spec (rs_Sequence (a_Reservation kv.2)) (foldr step 0 l)) as [[_ ->]|[_ ->]].
      + destruct IH3 as [?|(x & Hx & ?)]; [by left|right]. exists x. by rewrite elem_of_cons; auto.
      + right. exists kv. by rewrite elem_of_cons; auto.
    - intros x [->|Hx]%elem_of_cons E; [done|]. by apply IH2.
    - destruct IH3 as [?|(x & Hx & ?)]; [by left|right]. exists x. by rewrite elem_of_cons; auto. }
  destruct (Hl (map_to_list (db_attempts db))) as (H1 & H2 & H3). split; [done|]. split.
  - intros p a Hp E. exact (H2 (p, a) (proj2 (elem_of_map_to_list _ p a) Hp) E).
  - destruct H3 as [?|([p a] & Hx & E1 & E2)]; [by left|right]. exists p, a. by apply elem_of_map_to_list in Hx.
Qed.

(** A generation of a pool is over: the guard refuses it, nothing is reserved in it, and
    none of its attempts is claimed, dispatched or running. *)
Record generation_over (pool : string) (generation : Z) (db : DB) : Prop := {
  go_guard : guardPool pool generation db = Err (TxKnown ErrGenerationFenced);
  go_reserve : ∀ f c missed r a, rs_PoolID r = pool → rs_Generation r = generation → (ReserveAttempt f c missed r db).2 ≠ Ok a;
  go_attempts : ∀ p a, db_attempts db !! p = Some a → rs_PoolID (a_Reservation a) = pool → rs_Generation (a_Reservation a) = generation →
    settled a ∧ is_Some (a_StoppedAt a) }.

Lemma later_generation_over pool generation db g :
  LedgerOK db → db_pools db !! pool = Some g → generation < pg_Generation g → generation_over pool generation db.
Proof.
  intros O Hg Hlt. split.
  - unfold guardPool, poolRow, mbind, tx_bind, row. rewrite Hg. unfold guard. rewrite (proj2 (Z.eqb_neq (pg_Generation g) generation)) by lia. done.
  - intros f c missed r a Hp Eg HR. unfold ReserveAttempt in HR. destruct (negb _); [done|]. apply ledger_ok in HR as (db1 & T & _).
    apply tx_bind_ok in T as (u & db2 & [_ (g2 & Hg2 & E & _)]%guardPool_ok & _). rewrite Hp, Hg in Hg2. injection Hg2 as <-. lia.
  - intros p a Ha Hp Eg. destruct (lk_fence _ O p a Ha) as (g2 & Hg2 & _ & H2). rewrite Hp, Hg in Hg2. injection Hg2 as <-. apply H2. lia.
Qed.

(** What a committed adoption has done. *)
Lemma adoption_run f pool db fence :
  LedgerOK db → (AdoptLegacyPool f pool db).2 = Ok fence →
  let db' := (AdoptLegacyPool f pool db).1 in
  validPool pool = true ∧ fence = MkFence pool 2 (last_sequence pool db)
  ∧ ∃ g g', db_pools db !! pool = Some g ∧ db' = db <| db_pools := <[pool := g']> (db_pools db) |> ∧ pg_Generation g' = 2 ∧ pg_Mode g' = "active"
      ∧ (g' = g ∨ (pg_Generation g = 1 ∧ wound_down pool db)).
Proof.
  intros HO. unfold AdoptLegacyPool. destruct (validPool pool); [|done]. cbn [negb]. intros HE. cbn zeta.
  apply ledger_ok in HE as (db' & T & ->). unfold poolRow in T. apply tx_bind_ok in T as (g & db1 & [Hg <-]%row_ok & T).
  split; [done|]. destruct (_ && _) eqn:E1.
  { apply tx_bind_ok in T as (n & db1 & [<- <-]%ask_ok & [<- <-]%tx_ret_ok). split; [done|]. exists g, g. bool_to_prop.
    rewrite insert_id by done. split; [done|]. split; [by destruct db|]. auto. }
  apply guard_ok in T as [Ef T]. apply tx_bind_ok in T as (busy & db1 & [<- <-]%ask_ok & T).
  apply tx_bind_ok in T as (unknown & db1 & [<- <-]%ask_ok & T). apply guard_ok in T as [Hu T]. apply guard_ok in T as [Hb T].
  apply tx_bind_ok in T as (u & db2 & T & T2). apply tx_bind_ok in T2 as (n & db3 & [<- <-]%ask_ok & [<- <-]%tx_ret_ok).
  apply (set_pool_ok _ pool) in T as [_ ->]; [|exact (proj1 (lk_pool_id _ HO _ _ Hg))]. split; [done|].
  eexists g, _. split; [done|]. split; [reflexivity|]. split; [done|]. split; [done|]. right.
  apply orb_false_iff in Ef as [Ef _]. bool_to_prop. split; [done|by apply outstanding_false].
Qed.
End Adoption.

(** ** Properties *)

(** C24: a generation is adopted once, and for good. An adoption that is acknowledged gives
    the second generation of the pool with the highest sequence of the pool's own attempts,
    0 when it has none, and changes nothing else than the row of the pool; it happens only
    when every attempt of the pool has been settled and has stopped, no item of its jobs is
    active and none was lost by its activity. In every state the ledger reaches from then
    on, whatever the transactions (a legacy record being for an item no permit owns), the
    first generation is over: its guard refuses, nothing is reserved in it and all of its
    attempts are settled and stopped. The activity may be tried again, after a lost
    acknowledgement too: it finds the same fence and changes nothing. *)
Theorem legacy_adoption_fences `{PoolEnv} `{LedgerEnv} `{!LedgerLaws} f pool db fence :
  LedgerOK db → (AdoptLegacyPool f pool db).2 = Ok fence →
  let db' := (AdoptLegacyPool f pool db).1 in
  fe_PoolID fence = pool ∧ fe_Generation fence = 2 ∧ highest_sequence pool db' (fe_Sequence fence)
  ∧ db' = db <| db_pools := db_pools db' |> ∧ (∀ k, k ≠ pool → db_pools db' !! k = db_pools db !! k)
  ∧ (db' ≠ db → wound_down pool db)
  ∧ (∀ db'', rtc ledger_step db' db'' → generation_over pool 1 db'')
  ∧ (AdoptLegacyPool AckLost pool db).1 = db' ∧ AdoptLegacyPool Committed pool db' = (db', Ok fence).
Proof.
  intros HO HE. destruct (adoption_run f pool db fence HO HE) as (Hv & -> & g & g' & Hg & Edb & Egen & Emode & Hd). cbn zeta in *.
  assert (LedgerOK (AdoptLegacyPool f pool db).1) as HO' by (apply (run_ok db); [apply rtc_once, st_adopt|done]).
  set (db' := (AdoptLegacyPool f pool db).1) in *.
  assert (db_pools db' !! pool = Some g') as Hg' by (rewrite Edb; apply lookup_insert_eq).
  split; [done|]. split; [done|]. split; [rewrite Edb; apply last_sequence_highest|]. split; [by rewrite Edb|]. split; [|split; [|split; [|split]]].
  - intros k Hk. rewrite Edb. by apply lookup_insert_ne.
  - intros Hne. destruct Hd as [->|[_ ?]]; [|done]. exfalso. apply Hne. rewrite Edb, insert_id by done. by destruct db.
  - intros db'' R. destruct (run_pool _ _ _ _ R HO' Hg') as (g2 & Hg2 & Hle).
    apply (later_generation_over pool 1 db'' g2); [by eapply run_ok|done|lia].
  - unfold db', AdoptLegacyPool in *. rewrite Hv in *. cbn [negb] in *. apply ledger_ok in HE as (db1 & T & ->). unfold ledger, ledgerTx. by rewrite T.
  - unfold AdoptLegacyPool. rewrite Hv. cbn [negb]. unfold ledger, ledgerTx, poolRow, mbind, tx_bind, row. rewrite Hg', Egen, Emode. cbn. by rewrite Edb.
Qed.

Lemma legacy_adoption_fences_witness :
  (AdoptLegacyPool Committed "pool" demo_settled).2 = Ok (MkFence "pool" 2 1)
  ∧ generation_over "pool" 1 (AdoptLegacyPool Committed "pool" demo_settled).1
  ∧ (AdoptLegacyPool AckLost "pool" demo_settled).1 = (AdoptLegacyPool Committed "pool" demo_settled).1.
Proof.
  assert ((AdoptLegacyPool Committed "pool" demo_settled).2 = Ok (MkFence "pool" 2 1)) as E by (vm_compute; reflexivity).
  destruct (legacy_adoption_fences Committed "pool" demo_settled (MkFence "pool" 2 1) (run_ok _ _ demo_run_settled (fresh_ok _ demo_fresh)) E)
    as (_ & _ & _ & _ & _ & _ & Hg & Hl & _).
  split; [exact E|]. split; [exact (Hg _ (rtc_refl _ _))|exact Hl].
Defined.

(** Some run of the command returns a value. *)
Fixpoint returns {R : Type} (p : upgrade_prog R) (r : R) : Prop :=
  match p with Ret x => x = r | Do e k => ∃ a, returns (k a) r end.
Lemma returns_bind {R S : Type} (p : upgrade_prog R) (f : R → upgrade_prog S) r : returns (p ≫= f) r → ∃ x, returns p x ∧ returns (f x) r.
Proof. induction p as [x|A e k IH]; [by exists x|]. intros (a & (x & H1 & H2)%IH). exists x. split; [by exists a|done]. Qed.

Definition taken_over (pool : string) (s : PoolState) : Prop := PoolID s = pool ∧ 2 ≤ Generation s ∧ Quiescing s = false.

Lemma read_upgrade_pool report pool name t answer t' s :
  returns (read_upgrade report pool name t answer) (t', Some (Ok s)) → name = PoolWorkflowName ∧ taken_over pool s.
Proof.
  unfold read_upgrade. destruct answer as [q|]; [|done]. destruct (String.eqb name PoolWorkflowName) eqn:En.
  - bool_to_prop. intros [= _ E]. destruct (qd_Pool q); [|done]. destruct (_ || _ || _) eqn:Eq; [done|]. injection E as <-. bool_to_prop.
    split; [done|]. split; [done|]. split; [lia|done].
  - destruct (negb _); [done|]. destruct (qd_Dispatcher q); [|done]. destruct (0 <? _); [done|]. destruct report; [|done].
    intros (now & H). cbn [prog_mbind prog_bind] in H. destruct (negb (Before now t)); [|done]. by destruct H as ([] & now' & H).
Qed.

(** The command reports a pool only once the pool has taken over: a running pool of the
    asked identity, of the second generation or a later one, and not being wound down. *)
Lemma WaitPoolUpgrade_reports_pool n client report pool s :
  returns (WaitPoolUpgrade n client report pool) (Some (Ok s)) → taken_over pool s.
Proof.
  assert (∀ n t, returns (upgrade_rounds n report pool t) (Some (Ok s)) → taken_over pool s) as Hrounds.
  { clear n. induction n as [|n IH]; intros t; [done|]. cbn [upgrade_rounds]. intros ([t' returned] & H1 & H2)%returns_bind.
    destruct returned as [r|]; [|by eapply IH]. injection H2 as ->. destruct H1 as (d & H1). cbn [prog_mbind prog_bind] in H1.
    destruct (running_type d) as [name|e]; [|by injection H1 as _ H1].
    destruct H1 as (q & H1). apply (returns_bind (read_upgrade _ _ _ _ _)) in H1 as ([t1 read] & H3 & H4). destruct read as [r1|].
    - injection H4 as _ ->. exact (proj2 (read_upgrade_pool _ _ _ _ _ _ _ H3)).
    - destruct H4 as (cancelled & H4). by destruct cancelled. }
  unfold WaitPoolUpgrade. destruct (negb client || _); [done|]. intros (d & H). cbn [prog_mbind prog_bind] in H. destruct (running_type d) as [name|]; [|done].
  destruct (String.eqb name DispatcherWorkflowName).
  - destruct H as (sent & H). cbn [prog_mbind prog_bind] in H. destruct (negb sent); [done|]. by eapply Hrounds.
  - destruct (negb _); [done|]. by eapply Hrounds.
Qed.
