(* ===== verification/WakeHints.v ===== *)
(** * WakeHints: hints to a pool's workflow, coalesced

    Models [src/stateful/batch/pool_wake.go]: callers that share one signal to the
    workflow of the pool.  The first caller of a batch leads it: it takes the only slot
    for a signal, collects further callers for a moment, seals the batch and sends.  The
    sections under the mutex are functions of the shared state; a caller is a program
    counter, and the steps of all the callers interleave.  A batch is an address, as the
    callers share it by its pointer. *)
From stdpp Require Import gmap relations.
From S2P Require Import Prelude BatchController BatchPool Ledger AttemptFlow.

Open Scope string_scope.
Open Scope list_scope.
Open Scope Z_scope.

Definition poolWakeCollection : Duration := 50 * Millisecond.
Definition poolWakeMaximum : Duration := Second.

(** The error of a context, of the signal, or [ErrGenerationFenced]. *)
Inductive wake_error : Type := WakeContext (deadline : bool) | WakeSignal | WakeFenced.

Record poolWakeBatch := MkWakeBatch { wb_notice : SettlementNotice; wb_done : bool; wb_err : option wake_error }.
Record poolWakeHints := MkHints { wh_pool : string; wh_pending : option positive }.

(** ** The sections under the mutex *)

(** The batches that have been made; [fresh] is a new one. *)
Abbreviation batches := (gmap positive poolWakeBatch).

(** The first section of [send]: the batch and whether the caller leads it. *)
Definition join_batch (s : poolWakeHints) (heap : batches) (pool : string) (notice : SettlementNotice)
  : poolWakeHints * batches * option (positive * bool) :=
  if negb (String.eqb (wh_pool s) "") && negb (String.eqb (wh_pool s) pool) then (s, heap, None)
  else
    match wh_pending s with
    | Some b => (s <| wh_pool := pool |>, alter (fun x => x <| wb_notice := notice |>) b heap, Some (b, false))
    | None =>
        let b := fresh (dom heap) in
        (s <| wh_pool := pool |> <| wh_pending := Some b |>, <[b := MkWakeBatch notice false None]> heap, Some (b, true))
    end.

(** The second section of [flush]. *)
Definition seal_batch (s : poolWakeHints) : poolWakeHints := s <| wh_pending := None |>.

(** [finish] *)
Definition finish_batch (s : poolWakeHints) (heap : batches) (b : positive) (err : option wake_error) : poolWakeHints * batches :=
  (if bool_decide (wh_pending s = Some b) then s <| wh_pending := None |> else s,
   alter (fun x => x <| wb_err := err |> <| wb_done := true |>) b heap).

(** The deadline of the leader's own context. *)
Definition owned_deadline (now : Time) (deadline : option Time) : Time :=
  let limit := Add now poolWakeMaximum in
  match deadline with Some earlier => if Before earlier limit then earlier else limit | None => limit end.

(** ** Callers *)

(** Where a caller stands: before its context is read; before the first section; then
    with its batch.  A leader waits for the slot, collects, seals, reads its context and
    signals; [Ending] has the error that it finishes with, and [slot] tells whether it
    holds the slot. *)
Inductive stage : Type :=
| Acquiring (deadline : Time)
| Collecting (deadline : Time)
| Sealing (deadline : Time)
| Sealed (deadline : Time) (notice : SettlementNotice)
| Signalling
| Ending (slot : bool) (err : option wake_error)
| Releasing
| Awaiting
| Checking
| Returned (err : option wake_error).

Inductive caller : Type :=
| Calling (pool : string) (notice : SettlementNotice) (deadline : option Time)
| Entering (pool : string) (notice : SettlementNotice) (deadline : option Time)
| Refused (err : wake_error)
(** of a batch, which it joined at a step of the whole *)
| Member (b : positive) (joined : nat) (at_ : stage).

(** A signal: its batch, the step at which it was sent, and its answer when there is one. *)
Record sending := MkSending { se_batch : positive; se_notice : SettlementNotice; se_step : nat; se_answer : option (option wake_error) }.

Record wakes := MkWakes {
  wk_hints : poolWakeHints;
  wk_heap : batches;
  wk_rpc : option nat;
  wk_callers : gmap nat caller;
  wk_sent : list sending;
  wk_step : nat;
}.

Definition no_wakes : wakes := MkWakes (MkHints "" None) ∅ None ∅ [] 0.

(** A caller moves on, and the step is counted. *)
Definition move (w : wakes) (c : nat) (x : caller) : wakes :=
  w <| wk_callers := <[c := x]> (wk_callers w) |> <| wk_step ::= S |>.
Definition at_stage (w : wakes) (c : nat) (b : positive) (t : nat) (st : stage) : Prop := wk_callers w !! c = Some (Member b t st).

(** A signal is answered: the last one of a batch. *)
Definition answer_sending (b : positive) (answer : option wake_error) (x : sending) : sending :=
  if Pos.eqb (se_batch x) b then x <| se_answer := Some answer |> else x.

Inductive wake_step (w : wakes) : wakes → Prop :=
| step_call c pool notice deadline :
    wk_callers w !! c = None → wake_step w (move w c (Calling pool notice deadline))
| step_cancelled c pool notice deadline e :
    wk_callers w !! c = Some (Calling pool notice deadline) → wake_step w (move w c (Refused (WakeContext e)))
| step_live c pool notice deadline :
    wk_callers w !! c = Some (Calling pool notice deadline) → wake_step w (move w c (Entering pool notice deadline))
| step_fenced c pool notice deadline s heap :
    wk_callers w !! c = Some (Entering pool notice deadline) → join_batch (wk_hints w) (wk_heap w) pool notice = (s, heap, None) →
    wake_step w (move (w <| wk_hints := s |> <| wk_heap := heap |>) c (Refused WakeFenced))
| step_follows c pool notice deadline s heap b :
    wk_callers w !! c = Some (Entering pool notice deadline) → join_batch (wk_hints w) (wk_heap w) pool notice = (s, heap, Some (b, false)) →
    wake_step w (move (w <| wk_hints := s |> <| wk_heap := heap |>) c (Member b (wk_step w) Awaiting))
| step_leads c pool notice deadline s heap b now :
    wk_callers w !! c = Some (Entering pool notice deadline) → join_batch (wk_hints w) (wk_heap w) pool notice = (s, heap, Some (b, true)) →
    wake_step w (move (w <| wk_hints := s |> <| wk_heap := heap |>) c (Member b (wk_step w) (Acquiring (owned_deadline now deadline))))
| step_acquired c b t deadline :
    at_stage w c b t (Acquiring deadline) → wk_rpc w = None → wake_step w (move (w <| wk_rpc := Some c |>) c (Member b t (Collecting deadline)))
| step_not_acquired c b t deadline e :
    at_stage w c b t (Acquiring deadline) → wake_step w (move w c (Member b t (Ending false (Some (WakeContext e)))))
| step_collected c b t deadline :
    at_stage w c b t (Collecting deadline) → wake_step w (move w c (Member b t (Sealing deadline)))
| step_not_collected c b t deadline e :
    at_stage w c b t (Collecting deadline) → wake_step w (move w c (Member b t (Ending true (Some (WakeContext e)))))
| step_sealed c b t deadline x :
    at_stage w c b t (Sealing deadline) → wk_heap w !! b = Some x →
    wake_step w (move (w <| wk_hints ::= seal_batch |>) c (Member b t (Sealed deadline (wb_notice x))))
| step_too_late c b t deadline notice e :
    at_stage w c b t (Sealed deadline notice) → wake_step w (move w c (Member b t (Ending true (Some (WakeContext e)))))
| step_sends c b t deadline notice :
    at_stage w c b t (Sealed deadline notice) →
    wake_step w (move (w <| wk_sent ::= cons (MkSending b notice (wk_step w) None) |>) c (Member b t Signalling))
| step_answered c b t answer :
    at_stage w c b t Signalling →
    wake_step w (move (w <| wk_sent ::= map (answer_sending b answer) |>) c (Member b t (Ending true answer)))
| step_finished c b t slot err s heap :
    at_stage w c b t (Ending slot err) → finish_batch (wk_hints w) (wk_heap w) b err = (s, heap) →
    wake_step w (move (w <| wk_hints := s |> <| wk_heap := heap |>) c (Member b t (if slot then Releasing else Awaiting)))
| step_released c b t :
    at_stage w c b t Releasing → wake_step w (move (w <| wk_rpc := None |>) c (Member b t Awaiting))
| step_gives_up c b t e :
    at_stage w c b t Awaiting → wake_step w (move w c (Member b t (Returned (Some (WakeContext e)))))
| step_done c b t x :
    at_stage w c b t Awaiting → wk_heap w !! b = Some x → wb_done x = true → wake_step w (move w c (Member b t Checking))
| step_late c b t e :
    at_stage w c b t Checking → wake_step w (move w c (Member b t (Returned (Some (WakeContext e)))))
| step_returns c b t x :
    at_stage w c b t Checking → wk_heap w !! b = Some x → wake_step w (move w c (Member b t (Returned (wb_err x)))).

(** ** The invariant *)

Definition sent_of (w : wakes) (b : positive) : list sending := List.filter (fun x => Pos.eqb (se_batch x) b) (wk_sent w).
(** The signal of a batch has been acknowledged. *)
Definition acknowledged_signal (w : wakes) (b : positive) : Prop := ∃ x, sent_of w b = [x] ∧ se_answer x = Some None.

Definition holds_slot (st : stage) : bool :=
  match st with Collecting _ | Sealing _ | Sealed _ _ | Signalling | Ending true _ | Releasing => true | _ => false end.
(** A leader that has not finished its batch. *)
Definition leading (st : stage) : bool :=
  match st with Acquiring _ | Collecting _ | Sealing _ | Sealed _ _ | Signalling | Ending _ _ => true | _ => false end.

Definition stage_ok (w : wakes) (b : positive) (x : poolWakeBatch) (st : stage) : Prop :=
  match st with
  | Acquiring _ | Collecting _ | Sealing _ => sent_of w b = []
  | Sealed _ _ => sent_of w b = [] ∧ wh_pending (wk_hints w) ≠ Some b
  | Signalling => wh_pending (wk_hints w) ≠ Some b ∧ ∃ y, sent_of w b = [y] ∧ se_answer y = None
  | Ending _ None | Returned None => acknowledged_signal w b
  | Checking => wb_done x = true
  | _ => True
  end.

Record MemberOK (w : wakes) (c : nat) (b : positive) (t : nat) (st : stage) : Prop := {
  mo_batch : ∃ x, wk_heap w !! b = Some x ∧ (leading st = true → wb_done x = false) ∧ stage_ok w b x st;
  mo_joined : (t < wk_step w)%nat;
  mo_after : ∀ y, y ∈ sent_of w b → (t < se_step y)%nat;
  mo_slot : holds_slot st = true → wk_rpc w = Some c;
}.

Record WakeInv (w : wakes) : Prop := {
  wi_members : ∀ c b t st, at_stage w c b t st → MemberOK w c b t st;
  wi_leaders : ∀ c c' b t t' st st', at_stage w c b t st → at_stage w c' b t' st' → leading st = true → leading st' = true → c = c';
  wi_pending : ∀ b, wh_pending (wk_hints w) = Some b → (∃ x, wk_heap w !! b = Some x) ∧ sent_of w b = [];
  wi_once : ∀ b, (length (sent_of w b) ≤ 1)%nat;
  wi_sent : ∀ y, y ∈ wk_sent w → is_Some (wk_heap w !! se_batch y) ∧ (se_step y < wk_step w)%nat;
  wi_done : ∀ b x, wk_heap w !! b = Some x → wb_done x = true → wb_err x = None → acknowledged_signal w b;
}.

Lemma elem_of_sent w b y : y ∈ sent_of w b ↔ y ∈ wk_sent w ∧ se_batch y = b.
Proof. unfold sent_of. rewrite !list_elem_of_In, List.filter_In, Pos.eqb_eq. done. Qed.

Lemma at_stage_move w1 c x c' b t st :
  at_stage (move w1 c x) c' b t st → (c' = c ∧ x = Member b t st) ∨ (c' ≠ c ∧ wk_callers w1 !! c' = Some (Member b t st)).
Proof. unfold at_stage, move. cbn. intros [[<- ?]|[Hne ?]]%lookup_insert_Some; [by left|by right]. Qed.

(** A step that leaves the view of a batch as it is, apart from its notice. *)
Definition same_view (w w1 : wakes) (b : positive) : Prop :=
  (∀ x, wk_heap w !! b = Some x → ∃ x', wk_heap w1 !! b = Some x' ∧ wb_done x' = wb_done x) ∧ sent_of w1 b = sent_of w b ∧ (wh_pending (wk_hints w1) = Some b → wh_pending (wk_hints w) = Some b).

Lemma stage_ok_view w w1 b x x' st : same_view w w1 b → wb_done x' = wb_done x → stage_ok w b x st → stage_ok w1 b x' st.
Proof.
  intros (_ & Es & Hp) Ed. unfold stage_ok, acknowledged_signal. rewrite Es, Ed. destruct st as [| | | | |? []| | | |[]]; try done; naive_solver.
Qed.

Lemma MemberOK_view w w1 c b t st :
  MemberOK w c b t st → same_view w w1 b → (wk_step w ≤ wk_step w1)%nat → (holds_slot st = true → wk_rpc w1 = Some c) → MemberOK w1 c b t st.
Proof.
  intros [(x & Hx & Hl & Hst) Hj Ha _] HV Hn Hs. pose proof HV as (Eh & Es & _). constructor; [|lia|by rewrite Es|done].
  destruct (Eh x Hx) as (x' & Hx' & Ed). exists x'. split; [done|]. split; [by rewrite Ed|]. by apply (stage_ok_view w w1 b x).
Qed.

(** The other members of the batch of a leader wait or are gone: they see it evolve. *)
Definition evolves (w w1 : wakes) (b : positive) : Prop :=
  (∀ x, wk_heap w !! b = Some x → ∃ x', wk_heap w1 !! b = Some x' ∧ (wb_done x = true → wb_done x' = true))
  ∧ (∀ y', y' ∈ sent_of w1 b → (∃ y, y ∈ sent_of w b ∧ se_step y = se_step y') ∨ (wk_step w ≤ se_step y')%nat)
  ∧ (acknowledged_signal w b → acknowledged_signal w1 b).

Lemma MemberOK_evolves w w1 c b t st :
  MemberOK w c b t st → evolves w w1 b → leading st = false → (wk_step w ≤ wk_step w1)%nat → (holds_slot st = true → wk_rpc w1 = Some c) →
  MemberOK w1 c b t st.
Proof.
  intros [(x & Hx & _ & Hst) Hj Ha _] (E1 & E2 & E3) Hl Hn Hs. destruct (E1 x Hx) as (x' & Hx' & Hd). constructor; [|lia| |done].
  - exists x'. split; [done|]. split; [by rewrite Hl|]. destruct st as [| | | | | | | | |[]]; try done; cbn in *; auto.
  - intros y' [(y & Hy & <-)|Hge]%E2; [by apply Ha|lia].
Qed.

(** *** A step *)

Lemma WakeInv_step w w1 c x :
  WakeInv w → wk_callers w1 = wk_callers w → wk_step w1 = wk_step w →
  (∀ c' b t st, c' ≠ c → at_stage w c' b t st → MemberOK (move w1 c x) c' b t st) →
  (∀ b t st, x = Member b t st → MemberOK (move w1 c x) c b t st
     ∧ (leading st = true → (∃ t' st', at_stage w c b t' st' ∧ leading st' = true) ∨ ∀ c' t' st', ¬ at_stage w c' b t' st')) →
  (∀ b, wh_pending (wk_hints w1) = Some b → (∃ x, wk_heap w1 !! b = Some x) ∧ sent_of w1 b = []) →
  (∀ b, (length (sent_of w1 b) ≤ 1)%nat) →
  (∀ y, y ∈ wk_sent w1 → is_Some (wk_heap w1 !! se_batch y) ∧ (se_step y ≤ wk_step w)%nat) →
  (∀ b x, wk_heap w1 !! b = Some x → wb_done x = true → wb_err x = None → acknowledged_signal w1 b) →
  WakeInv (move w1 c x).
Proof.
  intros [M L P O S D] E4 E5 Hothers Hx HP HO HS HD. constructor; [| |exact HP|exact HO| |exact HD].
  - intros c' b t st [[-> ->]|[Hne Hc]]%at_stage_move; [by apply Hx|]. rewrite E4 in Hc. by apply Hothers.
  - intros c1 c2 b t1 t2 st1 st2 H1 H2 L1 L2.
    apply at_stage_move in H1 as [[-> ->]|[N1 H1]], H2 as [[-> E2]|[N2 H2]]; try done.
    + rewrite E4 in H2. destruct (Hx b t1 st1 eq_refl) as [_ Hl]. destruct (Hl L1) as [(t' & st' & Ha & Hl')|Hn]; [by eapply L|by destruct (Hn c2 t2 st2)].
    + rewrite E4 in H1. destruct (Hx b t2 st2 E2) as [_ Hl]. destruct (Hl L2) as [(t' & st' & Ha & Hl')|Hn]; [by eapply L|by destruct (Hn c1 t1 st1)].
    + rewrite E4 in H1, H2. by eapply L.
  - intros y Hy. destruct (HS y Hy) as [? ?]. split; [done|]. change (se_step y < Datatypes.S (wk_step w1))%nat. rewrite E5. lia.
Qed.

(** The shared state as it was, apart from the slot and the names. *)
Definition same_shared (w w1 : wakes) : Prop :=
  wh_pending (wk_hints w1) = wh_pending (wk_hints w) ∧ wk_sent w1 = wk_sent w ∧ wk_callers w1 = wk_callers w ∧ wk_step w1 = wk_step w
  ∧ (∀ b x, wk_heap w !! b = Some x → ∃ x', wk_heap w1 !! b = Some x' ∧ wb_done x' = wb_done x)
  ∧ (∀ b x', wk_heap w1 !! b = Some x' → ∃ x, wk_heap w !! b = Some x ∧ wb_done x' = wb_done x ∧ wb_err x' = wb_err x).

Lemma WakeInv_move w w1 c x :
  WakeInv w → same_shared w w1 →
  (∀ c' b t st, c' ≠ c → at_stage w c' b t st → holds_slot st = true → wk_rpc w1 = Some c') →
  (∀ b t st, x = Member b t st → MemberOK (move w1 c x) c b t st ∧ (leading st = true → ∃ t' st', at_stage w c b t' st' ∧ leading st' = true)) →
  WakeInv (move w1 c x).
Proof.
  intros HI (E1 & E3 & E4 & E5 & E2 & E2') Hslot Hx. assert (∀ b, sent_of w1 b = sent_of w b) as Es by (intros b; unfold sent_of; by rewrite E3).
  apply (WakeInv_step w); try done.
  - intros c' b t st Hne Ha. apply (MemberOK_view w); [by apply HI| |change (wk_step w ≤ S (wk_step w1))%nat; lia|by apply (Hslot c' b t st)].
    split; [exact (E2 b)|]. split; [exact (Es b)|]. change (wh_pending (wk_hints w1) = Some b → wh_pending (wk_hints w) = Some b). by rewrite E1.
  - intros b t st E. destruct (Hx b t st E) as [? ?]. split; [done|]. auto.
  - intros b. rewrite E1, Es. intros Hb. destruct (wi_pending _ HI b Hb) as [[x0 H0] ?]. split; [|done].
    destruct (E2 b x0 H0) as (x' & ? & _). by exists x'.
  - intros b. rewrite Es. apply HI.
  - intros y. rewrite E3. intros Hy. destruct (wi_sent _ HI y Hy) as [[x0 H0] ?]. split; [|lia]. destruct (E2 _ x0 H0) as (x' & ? & _). by exists x'.
  - intros b x' Hb. destruct (E2' b x' Hb) as (x0 & H0 & -> & ->). unfold acknowledged_signal. rewrite Es. by eapply wi_done.
Qed.

Lemma same_shared_refl w : same_shared w w.
Proof. unfold same_shared. split_and!; try done; eauto. Qed.

(** One caller moves on, with its batch. *)
Lemma WakeInv_private w w1 c b t st st' :
  WakeInv w → same_shared w w1 → at_stage w c b t st → (leading st' = true → leading st = true) →
  (∀ c' b t st, c' ≠ c → at_stage w c' b t st → holds_slot st = true → wk_rpc w1 = Some c') → (holds_slot st' = true → wk_rpc w1 = Some c) →
  (∀ x, wk_heap w !! b = Some x → stage_ok w b x st → stage_ok w b x st') → WakeInv (move w1 c (Member b t st')).
Proof.
  intros HI HS Ha Hl Hslot Hown Hst. apply (WakeInv_move w); [done|done|done|]. intros b0 t0 st0 [= <- <- <-].
  split; [|intros H; exists t, st; auto]. destruct (wi_members _ HI _ _ _ _ Ha) as [(x & Hx & Hd & Hok) Hj Hafter _].
  destruct HS as (E1 & E3 & E4 & E5 & E2 & E2'). assert (sent_of w1 b = sent_of w b) as Es by (unfold sent_of; by rewrite E3).
  destruct (E2 b x Hx) as (x' & Hx' & Ed). constructor.
  - exists x'. split; [exact Hx'|]. split; [rewrite Ed; auto|].
    apply (stage_ok_view w _ b x); [|done|by apply Hst]. split; [exact (E2 b)|]. split; [exact Es|].
    change (wh_pending (wk_hints w1) = Some b → wh_pending (wk_hints w) = Some b). by rewrite E1.
  - change (t < S (wk_step w1))%nat. lia.
  - change (∀ y, y ∈ sent_of w1 b → (t < se_step y)%nat). by rewrite Es.
  - exact Hown.
Qed.

(** A leader that changes its batch. *)
Lemma WakeInv_leader w w1 c b t st st' :
  WakeInv w → at_stage w c b t st → leading st = true → wk_callers w1 = wk_callers w → wk_step w1 = wk_step w → wk_rpc w1 = wk_rpc w →
  (∀ b', b' ≠ b → same_view w w1 b') → evolves w w1 b → (holds_slot st' = true → holds_slot st = true) →
  (∀ x, wk_heap w1 !! b = Some x → (leading st' = true → wb_done x = false) ∧ stage_ok w1 b x st') →
  (∀ b, wh_pending (wk_hints w1) = Some b → (∃ x, wk_heap w1 !! b = Some x) ∧ sent_of w1 b = []) →
  (∀ b, (length (sent_of w1 b) ≤ 1)%nat) →
  (∀ y, y ∈ wk_sent w1 → is_Some (wk_heap w1 !! se_batch y) ∧ (se_step y ≤ wk_step w)%nat) →
  (∀ b x, wk_heap w1 !! b = Some x → wb_done x = true → wb_err x = None → acknowledged_signal w1 b) →
  WakeInv (move w1 c (Member b t st')).
Proof.
  intros HI Ha Hl E4 E5 E6 Hview Hev Hslot Hst HP HO HS HD. apply (WakeInv_step w); try done.
  - intros c' b' t' st0 Hne Ha'. assert (holds_slot st0 = true → wk_rpc w1 = Some c') as Hs by (rewrite E6; apply (wi_members _ HI _ _ _ _ Ha')).
    destruct (decide (b' = b)) as [->|Hb].
    + apply (MemberOK_evolves w); [by apply HI|exact Hev| |change (wk_step w ≤ S (wk_step w1))%nat; lia|exact Hs].
      destruct (leading st0) eqn:E; [|done]. exfalso. apply Hne. by eapply wi_leaders.
    + apply (MemberOK_view w); [by apply HI|exact (Hview b' Hb)|change (wk_step w ≤ S (wk_step w1))%nat; lia|exact Hs].
  - intros b0 t0 st0 [= <- <- <-]. split; [|intros _; left; by exists t, st].
    destruct (wi_members _ HI _ _ _ _ Ha) as [(x & Hx & _) Hj Hafter Hrpc]. destruct Hev as (V1 & V2 & _). destruct (V1 x Hx) as (x' & Hx' & _). constructor.
    + exists x'. split; [exact Hx'|]. by apply Hst.
    + change (t < S (wk_step w1))%nat. lia.
    + intros y' Hy'. destruct (V2 y' Hy') as [(y & Hy & <-)|]; [by apply Hafter|lia].
    + intros H. change (wk_rpc w1 = Some c). rewrite E6. auto.
Qed.

Lemma sent_cons w b y : sent_of (w <| wk_sent ::= cons y |>) b = (if Pos.eqb (se_batch y) b then [y] else []) ++ sent_of w b.
Proof. unfold sent_of. cbn. by case_match. Qed.
Lemma sent_answered w b0 answer b :
  sent_of (w <| wk_sent ::= map (answer_sending b0 answer) |>) b = map (answer_sending b0 answer) (sent_of w b).
Proof.
  unfold sent_of. cbn. induction (wk_sent w) as [|y l IH]; [done|]. cbn.
  assert (se_batch (answer_sending b0 answer y) = se_batch y) as -> by (unfold answer_sending; by case_match).
  destruct (Pos.eqb (se_batch y) b); cbn; by rewrite IH.
Qed.
Lemma answer_other b0 answer l : (∀ y, y ∈ l → se_batch y ≠ b0) → map (answer_sending b0 answer) l = l.
Proof.
  induction l as [|y l IH]; [done|]. intros H. cbn. rewrite IH by set_solver. unfold answer_sending. rewrite (proj2 (Pos.eqb_neq _ _)); [done|]. set_solver.
Qed.

Lemma join_none s heap pool notice s' heap' : join_batch s heap pool notice = (s', heap', None) → s' = s ∧ heap' = heap.
Proof. unfold join_batch. case_match; [by intros [= <- <-]|]. by case_match. Qed.
Lemma join_follower s heap pool notice s' heap' b :
  join_batch s heap pool notice = (s', heap', Some (b, false)) →
  wh_pending s = Some b ∧ wh_pending s' = Some b ∧ heap' = alter (fun x => x <| wb_notice := notice |>) b heap.
Proof. unfold join_batch. case_match; [done|]. destruct (wh_pending s) as [b'|] eqn:E; [|done]. by intros [= <- <- <-]. Qed.
Lemma join_leader s heap pool notice s' heap' b :
  join_batch s heap pool notice = (s', heap', Some (b, true)) →
  wh_pending s = None ∧ wh_pending s' = Some b ∧ heap !! b = None ∧ heap' = <[b := MkWakeBatch notice false None]> heap.
Proof.
  unfold join_batch. case_match; [done|]. destruct (wh_pending s) eqn:E; [done|]. intros [= <- <- <-]. repeat split.
  apply not_elem_of_dom, is_fresh.
Qed.

Lemma alter_heap (heap : batches) b (f : poolWakeBatch → poolWakeBatch) b' x' :
  alter f b heap !! b' = Some x' → ∃ x, heap !! b' = Some x ∧ x' = (if decide (b' = b) then f x else x).
Proof.
  destruct (decide (b' = b)) as [->|Hne]; [rewrite lookup_alter_eq|rewrite lookup_alter_ne by done].
  - intros (x & -> & Hx)%fmap_Some. eauto.
  - eauto.
Qed.
Lemma alter_heap_some (heap : batches) b (f : poolWakeBatch → poolWakeBatch) b' x :
  heap !! b' = Some x → alter f b heap !! b' = Some (if decide (b' = b) then f x else x).
Proof. intros H. destruct (decide (b' = b)) as [->|Hne]; [rewrite lookup_alter_eq, H|rewrite lookup_alter_ne by done]; done. Qed.

(** *** The steps that change a batch *)

Lemma follower_joins w c pool notice s heap b :
  WakeInv w → (∀ b t st, ¬ at_stage w c b t st) → join_batch (wk_hints w) (wk_heap w) pool notice = (s, heap, Some (b, false)) →
  WakeInv (move (w <| wk_hints := s |> <| wk_heap := heap |>) c (Member b (wk_step w) Awaiting)).
Proof.
  intros HI Hc (Ep & Ep' & ->)%join_follower. destruct (wi_pending _ HI b Ep) as [[x Hx] Hs].
  apply (WakeInv_move w); [done| |intros c' b' t' st' _ Ha; apply (wi_members _ HI _ _ _ _ Ha)|].
  - split; [exact (eq_trans Ep' (eq_sym Ep))|]. do 3 (split; [done|]). split.
    + intros b' x' H. eexists. split; [apply (alter_heap_some _ _ _ _ _ H)|]. by case_decide.
    + intros b' x' (x0 & H & ->)%alter_heap. exists x0. split; [done|]. by case_decide.
  - intros b' t' st' [= <- <- <-]. split; [|done]. constructor; [|cbn; lia| |done].
    + eexists. split; [apply (alter_heap_some _ _ _ _ _ Hx)|]. done.
    + change (∀ y, y ∈ sent_of w b → (wk_step w < se_step y)%nat). rewrite Hs. by intros y ?%not_elem_of_nil.
Qed.

Lemma leader_joins w c pool notice s heap b deadline :
  WakeInv w → (∀ b t st, ¬ at_stage w c b t st) → join_batch (wk_hints w) (wk_heap w) pool notice = (s, heap, Some (b, true)) →
  WakeInv (move (w <| wk_hints := s |> <| wk_heap := heap |>) c (Member b (wk_step w) (Acquiring deadline))).
Proof.
  intros HI Hc (Ep & Ep' & Hnew & ->)%join_leader. set (w1 := w <| wk_hints := s |> <| wk_heap := _ |>).
  assert (sent_of w b = []) as Hs.
  { destruct (sent_of w b) as [|y l] eqn:E; [done|]. assert (y ∈ sent_of w b) as [Hy <-]%elem_of_sent by (rewrite E; by left).
    destruct (wi_sent _ HI y Hy) as [[x Hx] _]. congruence. }
  assert (∀ b' x, wk_heap w !! b' = Some x → wk_heap w1 !! b' = Some x) as Hkeep.
  { intros b' x Hx. unfold w1. cbn. rewrite lookup_insert_ne; [done|]. congruence. }
  apply (WakeInv_step w); try done.
  - intros c' b' t' st' _ Ha. destruct (wi_members _ HI _ _ _ _ Ha) as [(x & Hx & _) _ _ Hr].
    apply (MemberOK_view w); [by apply HI| |cbn; lia|exact Hr]. split; [|split; [done|]].
    + intros x' Hx'. exists x'. split; [exact (Hkeep b' x' Hx')|done].
    + change (wh_pending s = Some b' → wh_pending (wk_hints w) = Some b'). rewrite Ep'. congruence.
  - intros b' t' st' [= <- <- <-]. split.
    + constructor; [|cbn; lia| |done].
      * eexists. split; [apply lookup_insert_eq|]. split; [done|exact Hs].
      * change (∀ y, y ∈ sent_of w b → (wk_step w < se_step y)%nat). rewrite Hs. by intros y ?%not_elem_of_nil.
    + intros _. right. intros c' t' st' Ha. destruct (wi_members _ HI _ _ _ _ Ha) as [(x & Hx & _) _ _ _]. congruence.
  - intros b' Hb. assert (b' = b) as -> by (change (wh_pending s = Some b') in Hb; congruence). split; [|exact Hs].
    eexists. apply lookup_insert_eq.
  - exact (wi_once _ HI).
  - intros y Hy. destruct (wi_sent _ HI y Hy) as [[x Hx] ?]. split; [|lia]. exists x. by apply Hkeep.
  - intros b' x Hb. unfold w1 in Hb. cbn in Hb. apply lookup_insert_Some in Hb as [[<- <-]|[_ Hb]]; [done|]. exact (wi_done _ HI b' x Hb).
Qed.

Lemma evolves_sent w w1 b :
  (∀ x, wk_heap w !! b = Some x → ∃ x', wk_heap w1 !! b = Some x' ∧ (wb_done x = true → wb_done x' = true)) → sent_of w1 b = sent_of w b → evolves w w1 b.
Proof. intros Hh Es. split; [done|]. unfold acknowledged_signal. rewrite Es. split; [|done]. intros y Hy. left. by exists y. Qed.

Lemma leader_seals w c b t deadline x :
  WakeInv w → at_stage w c b t (Sealing deadline) → wk_heap w !! b = Some x →
  WakeInv (move (w <| wk_hints ::= seal_batch |>) c (Member b t (Sealed deadline (wb_notice x)))).
Proof.
  intros HI Ha Hx. destruct (wi_members _ HI _ _ _ _ Ha) as [(x0 & H0 & Hd & Hst) _ _ _].
  apply (WakeInv_leader w _ c b t (Sealing deadline)); try done.
  - intros b' _. split; [eauto|]. split; [done|]. done.
  - apply evolves_sent; [eauto|done].
  - intros x' Hx'. change (wk_heap w !! b = Some x') in Hx'. assert (x' = x0) as -> by congruence. split; [auto|]. by split.
  - exact (wi_once _ HI).
  - intros y Hy. destruct (wi_sent _ HI y Hy). split; [done|lia].
  - exact (wi_done _ HI).
Qed.

Lemma leader_sends w c b t deadline notice :
  WakeInv w → at_stage w c b t (Sealed deadline notice) →
  WakeInv (move (w <| wk_sent ::= cons (MkSending b notice (wk_step w) None) |>) c (Member b t Signalling)).
Proof.
  intros HI Ha. destruct (wi_members _ HI _ _ _ _ Ha) as [(x0 & H0 & Hd & Hs & Hp) _ _ _].
  set (y0 := MkSending b notice (wk_step w) None). set (w1 := w <| wk_sent ::= cons y0 |>).
  assert (sent_of w1 b = [y0]) as E1 by (unfold w1; rewrite sent_cons, Hs; cbn; by rewrite Pos.eqb_refl).
  assert (∀ b', b' ≠ b → sent_of w1 b' = sent_of w b') as E2.
  { intros b' Hne. unfold w1. rewrite sent_cons. cbn. rewrite (proj2 (Pos.eqb_neq _ _)); [done|congruence]. }
  apply (WakeInv_leader w _ c b t (Sealed deadline notice)); try done.
  - intros b' Hne. split; [eauto|]. split; [by apply E2|done].
  - split; [eauto|]. rewrite E1. split.
    + intros y ->%list_elem_of_singleton. right. done.
    + intros (y & E & _). congruence.
  - intros x' Hx'. change (wk_heap w !! b = Some x') in Hx'. assert (x' = x0) as -> by congruence. split; [auto|]. split; [done|]. by exists y0.
  - intros b' Hb'. change (wh_pending (wk_hints w) = Some b') in Hb'. destruct (wi_pending _ HI b' Hb') as [? ?]. split; [done|].
    rewrite E2; [done|]. congruence.
  - intros b'. destruct (decide (b' = b)) as [->|Hne]; [rewrite E1; cbn; lia|]. rewrite E2 by done. apply HI.
  - intros y [->|Hy]%elem_of_cons; [split; [by exists x0|cbn; lia]|]. destruct (wi_sent _ HI y Hy). split; [done|lia].
  - intros b' x' Hx' Hd' He'. change (wk_heap w !! b' = Some x') in Hx'. destruct (wi_done _ HI b' x' Hx' Hd' He') as (y & E & Ey).
    exists y. split; [|done]. rewrite E2; [done|]. intros ->. congruence.
Qed.

Lemma leader_answered w c b t answer :
  WakeInv w → at_stage w c b t Signalling →
  WakeInv (move (w <| wk_sent ::= map (answer_sending b answer) |>) c (Member b t (Ending true answer))).
Proof.
  intros HI Ha. destruct (wi_members _ HI _ _ _ _ Ha) as [(x0 & H0 & Hd & Hp & y0 & Hs & Hy0) _ _ _].
  set (w1 := w <| wk_sent ::= map (answer_sending b answer) |>). specialize (Hd eq_refl).
  assert (∀ b', sent_of w1 b' = map (answer_sending b answer) (sent_of w b')) as E1 by (intros b'; apply sent_answered).
  assert (∀ b', b' ≠ b → sent_of w1 b' = sent_of w b') as E2.
  { intros b' Hne. rewrite E1. apply answer_other. intros y [_ <-]%elem_of_sent. done. }
  assert (∀ y, se_step (answer_sending b answer y) = se_step y ∧ se_batch (answer_sending b answer y) = se_batch y) as Ey
    by (intros y; unfold answer_sending; by case_match).
  assert (se_batch y0 = b) as Eb. { assert (y0 ∈ sent_of w b) as [_ ?]%elem_of_sent by (rewrite Hs; by left). done. }
  apply (WakeInv_leader w _ c b t Signalling); try done.
  - intros b' Hne. split; [eauto|]. split; [by apply E2|done].
  - split; [eauto|]. split.
    + intros y'. rewrite E1. intros (y & -> & Hy)%list_elem_of_fmap. left. exists y. split; [done|]. by destruct (Ey y).
    + intros (y & E & Hack). rewrite Hs in E. injection E as <-. congruence.
  - intros x' Hx'. change (wk_heap w !! b = Some x') in Hx'. assert (x' = x0) as -> by congruence. split; [done|].
    destruct answer; [done|]. exists (answer_sending b None y0). rewrite E1, Hs. split; [done|]. unfold answer_sending. by rewrite Eb, Pos.eqb_refl.
  - intros b' Hb'. change (wh_pending (wk_hints w) = Some b') in Hb'. destruct (wi_pending _ HI b' Hb') as [? E]. split; [done|]. by rewrite E1, E.
  - intros b'. rewrite E1, length_map. apply HI.
  - intros y' (y & -> & Hy)%list_elem_of_fmap. destruct (Ey y) as [-> ->]. destruct (wi_sent _ HI y Hy). split; [done|lia].
  - intros b' x' Hx' Hd' He'. change (wk_heap w !! b' = Some x') in Hx'. destruct (wi_done _ HI b' x' Hx' Hd' He') as (y & E & Hy).
    exists y. split; [|done]. rewrite E2; [done|]. intros ->. congruence.
Qed.

Lemma leader_finishes w c b t slot err s heap :
  WakeInv w → at_stage w c b t (Ending slot err) → finish_batch (wk_hints w) (wk_heap w) b err = (s, heap) →
  WakeInv (move (w <| wk_hints := s |> <| wk_heap := heap |>) c (Member b t (if slot then Releasing else Awaiting))).
Proof.
  intros HI Ha [= <- <-]. destruct (wi_members _ HI _ _ _ _ Ha) as [(x0 & H0 & Hd & Hst) _ _ _].
  set (w1 := w <| wk_hints := _ |> <| wk_heap := _ |>).
  assert (∀ b', wh_pending (wk_hints w1) = Some b' → wh_pending (wk_hints w) = Some b' ∧ b' ≠ b) as Hpend.
  { intros b'. unfold w1. cbn. destruct (bool_decide (wh_pending (wk_hints w) = Some b)) eqn:E; [done|].
    apply bool_decide_eq_false in E. intros ?. split; [done|]. congruence. }
  assert (∀ b' x, wk_heap w !! b' = Some x → ∃ x', wk_heap w1 !! b' = Some x' ∧ (b' ≠ b → x' = x) ∧ (wb_done x = true → wb_done x' = true)) as Hh.
  { intros b' x Hx. eexists. split; [apply (alter_heap_some _ _ _ _ _ Hx)|]. case_decide; by split. }
  apply (WakeInv_leader w _ c b t (Ending slot err)); try done.
  - intros b' Hne. split; [|split; [done|intros ?; by apply Hpend]]. intros x Hx. destruct (Hh b' x Hx) as (x' & ? & E & _). exists x'. split; [done|]. by rewrite E.
  - apply evolves_sent; [|done]. intros x Hx. destruct (Hh b x Hx) as (x' & ? & _ & ?). by exists x'.
  - by destruct slot.
  - intros x' _. by destruct slot.
  - intros b' [Hb' Hne]%Hpend. destruct (wi_pending _ HI b' Hb') as [[x Hx] ?]. split; [|done]. destruct (Hh b' x Hx) as (x' & ? & _). by exists x'.
  - exact (wi_once _ HI).
  - intros y Hy. destruct (wi_sent _ HI y Hy) as [[x Hx] ?]. split; [|lia]. destruct (Hh _ x Hx) as (x' & ? & _). by exists x'.
  - intros b' x' (x & Hx & ->)%alter_heap. case_decide as Eb.
    + subst b'. intros _. cbn. intros ->. by destruct slot.
    + exact (wi_done _ HI b' x Hx).
Qed.

Lemma not_member w c x : wk_callers w !! c = Some x → (∀ b t st, x ≠ Member b t st) → ∀ b t st, ¬ at_stage w c b t st.
Proof. intros Hc Hx b t st Ha. unfold at_stage in Ha. rewrite Hc in Ha. injection Ha as ->. by eapply Hx. Qed.

Lemma wake_step_inv w w' : wake_step w w' → WakeInv w → WakeInv w'.
Proof.
  intros St HI. assert (∀ c c' b t st, c' ≠ c → at_stage w c' b t st → holds_slot st = true → wk_rpc w = Some c') as Hrpc
    by (intros c c' b t st _ Ha; apply (wi_members _ HI _ _ _ _ Ha)).
  assert (∀ c x, (∀ b t st, x ≠ Member b t st) → WakeInv (move w c x)) as Hout.
  { intros c x Hx. apply (WakeInv_move w); [done|apply same_shared_refl|by apply Hrpc|]. intros b t st ->. by destruct (Hx b t st). }
  assert (∀ c b t st st', at_stage w c b t st → (leading st' = true → leading st = true) → (holds_slot st' = true → holds_slot st = true) →
    (∀ x, wk_heap w !! b = Some x → stage_ok w b x st → stage_ok w b x st') → WakeInv (move w c (Member b t st'))) as Hpriv.
  { intros c b t st st' Ha Hl Hs Hst. apply (WakeInv_private w w c b t st); try done; [apply same_shared_refl|by apply Hrpc|].
    intros H. apply (wi_members _ HI _ _ _ _ Ha). auto. }
  destruct St as [c pool notice dl Hc|c pool notice dl e Hc|c pool notice dl Hc|c pool notice dl s heap Hc Hj|c pool notice dl s heap b Hc Hj
    |c pool notice dl s heap b now Hc Hj|c b t dl Ha Hr|c b t dl e Ha|c b t dl Ha|c b t dl e Ha|c b t dl x Ha Hx|c b t dl notice e Ha
    |c b t dl notice Ha|c b t answer Ha|c b t slot err s heap Ha Hf|c b t Ha|c b t e Ha|c b t x Ha Hx Hd|c b t e Ha|c b t x Ha Hx].
  - by apply Hout.
  - by apply Hout.
  - by apply Hout.
  - apply join_none in Hj as [-> ->]. by apply Hout.
  - eapply follower_joins; [done|by eapply not_member|exact Hj].
  - eapply leader_joins; [done|by eapply not_member|exact Hj].
  - apply (WakeInv_private w (w <| wk_rpc := Some c |>) c b t (Acquiring dl)); try done.
    + unfold same_shared. split_and!; try done; eauto.
    + intros c' b' t' st' Hne Ha' Hh. rewrite (Hrpc c c' b' t' st' Hne Ha' Hh) in Hr. done.
  - by apply (Hpriv c b t (Acquiring dl)).
  - by apply (Hpriv c b t (Collecting dl)).
  - by apply (Hpriv c b t (Collecting dl)).
  - by apply leader_seals.
  - by apply (Hpriv c b t (Sealed dl notice)).
  - by eapply leader_sends.
  - by apply leader_answered.
  - by eapply leader_finishes.
  - apply (WakeInv_private w (w <| wk_rpc := None |>) c b t Releasing); try done.
    + unfold same_shared. split_and!; try done; eauto.
    + intros c' b' t' st' Hne Ha' Hh. exfalso. pose proof (Hrpc c c' b' t' st' Hne Ha' Hh) as E1.
      rewrite (mo_slot _ _ _ _ _ (wi_members _ HI _ _ _ _ Ha) eq_refl) in E1. congruence.
  - by apply (Hpriv c b t Awaiting).
  - apply (Hpriv c b t Awaiting); try done. intros x' Hx' _. cbn. congruence.
  - by apply (Hpriv c b t Checking).
  - apply (Hpriv c b t Checking); try done. intros x' Hx' Hdone. assert (x' = x) as -> by congruence. cbn in *.
    destruct (wb_err x) eqn:E; [done|]. by eapply wi_done.
Qed.

Lemma wake_reachable_inv w : rtc wake_step no_wakes w → WakeInv w.
Proof.
  assert (WakeInv no_wakes) as H0.
  { constructor; try done; try (by intros ? ?%not_elem_of_nil); try (intros; cbn in *; lia). }
  intros HR. revert H0. induction HR as [|x y z St _ IH]; [done|]. intros H. by apply IH, (wake_step_inv x).
Qed.

(** ** Properties *)

(** C25: a hint is never lost in a batch that has already been sent. In every interleaving of
    the callers, one whose call returns without an error joined a batch whose only signal
    was sent after it had joined, and was acknowledged; so the workflow reads the ledger
    after what the caller had committed. No two signals are ever in flight, and there is
    at most one signal for a batch. *)
Theorem wake_hint_delivered w :
  rtc wake_step no_wakes w →
  (∀ c b t, at_stage w c b t (Returned None) → ∃ y, sent_of w b = [y] ∧ (t < se_step y)%nat ∧ se_answer y = Some None)
  ∧ (∀ c c' b b' t t', at_stage w c b t Signalling → at_stage w c' b' t' Signalling → c = c')
  ∧ ∀ b, (length (sent_of w b) ≤ 1)%nat.
Proof.
  intros HI%wake_reachable_inv. split; [|split; [|apply HI]].
  - intros c b t Ha. destruct (wi_members _ HI _ _ _ _ Ha) as [(x & Hx & _ & y & Hs & Hy) _ Hafter _].
    exists y. split; [done|]. split; [|done]. apply Hafter. rewrite Hs. by left.
  - intros c c' b b' t t' Ha Ha'. pose proof (mo_slot _ _ _ _ _ (wi_members _ HI _ _ _ _ Ha) eq_refl) as E.
    rewrite (mo_slot _ _ _ _ _ (wi_members _ HI _ _ _ _ Ha') eq_refl) in E. congruence.
Qed.

(** A leader and a follower, one after the other at each step. *)
Definition demo_notice : SettlementNotice := MkNotice "permit" 1.

Lemma two_callers : ∃ w b, rtc wake_step no_wakes w ∧ at_stage w 0 b 4 (Returned None) ∧ at_stage w 1 b 5 (Returned None).
Proof.
  eexists _, _. split; [|split].
  - eapply rtc_l; [apply (step_call no_wakes 0 "p" demo_notice None); reflexivity|].
    eapply rtc_l; [apply (step_call _ 1 "p" demo_notice None); vm_compute; reflexivity|].
    eapply rtc_l; [apply (step_live _ 0 "p" demo_notice None); vm_compute; reflexivity|].
    eapply rtc_l; [apply (step_live _ 1 "p" demo_notice None); vm_compute; reflexivity|].
    eapply rtc_l; [eapply (step_leads _ 0 "p" demo_notice None _ _ _ Hour); [vm_compute; reflexivity|reflexivity]|].
    eapply rtc_l; [eapply (step_follows _ 1 "p" demo_notice None); [vm_compute; reflexivity|reflexivity]|].
    eapply rtc_l; [eapply (step_acquired _ 0); [vm_compute; reflexivity|reflexivity]|].
    eapply rtc_l; [eapply (step_collected _ 0); vm_compute; reflexivity|].
    eapply rtc_l; [eapply (step_sealed _ 0); [vm_compute; reflexivity|vm_compute; reflexivity]|].
    eapply rtc_l; [eapply (step_sends _ 0); vm_compute; reflexivity|].
    eapply rtc_l; [eapply (step_answered _ 0 _ _ None); vm_compute; reflexivity|].
    eapply rtc_l; [eapply (step_finished _ 0); [vm_compute; reflexivity|reflexivity]|].
    eapply rtc_l; [eapply (step_released _ 0); vm_compute; reflexivity|].
    eapply rtc_l; [eapply (step_done _ 0); vm_compute; reflexivity|].
    eapply rtc_l; [eapply (step_done _ 1); vm_compute; reflexivity|].
    eapply rtc_l; [eapply (step_returns _ 0); vm_compute; reflexivity|].
    eapply rtc_l; [eapply (step_returns _ 1); vm_compute; reflexivity|]. apply rtc_refl.
  - vm_compute. reflexivity.
  - vm_compute. reflexivity.
Qed.

Lemma wake_hint_delivered_witness : ∃ w b y, rtc wake_step no_wakes w ∧ sent_of w b = [y] ∧ (5 < se_step y)%nat ∧ se_answer y = Some None.
Proof.
  destruct two_callers as (w & b & HR & _ & H1). exists w, b. destruct (wake_hint_delivered w HR) as [H _].
  destruct (H 1%nat b 5%nat H1) as (y & Hs & Hy & Ha). exists y. split; [exact HR|]. split; [exact Hs|]. split; [exact Hy|exact Ha].
Defined.
