(* ===== verification/Workers.v ===== *)
(** * Workers: the two workers of a batch process

    Models [src/stateful/batch/workers.go]: the pair of a worker for control and one for
    the provider, which start and stop together, and the construction of the pair.  The
    SDK's workers are switches that may refuse to start; [Start] and [Stop] run under one
    lock, so they are functions of the state, and a sequence of operations is any of their
    interleavings. *)
From stdpp Require Import relations.
From S2P Require Import Prelude BatchController BatchPool AttemptFlow.

Open Scope string_scope.
Open Scope list_scope.
Open Scope Z_scope.

(** An error of the SDK, or [ErrUnavailable]. *)
Inductive worker_error : Type := SdkError (text : string) | WorkerUnavailable | WorkerPolicy (e : policy_error).

(** The fields of the pair: whether [stopped] is closed, whether the once-functions have
    run, what the failure channel holds, and the two flags. *)
Record pairedWorker := MkPaired {
  pr_stopped : bool;
  pr_stopOnce : bool;
  pr_failureOnce : bool;
  pr_failure : option worker_error;
  pr_providerStarted : bool;
  pr_controlStarted : bool;
}.
(** The pair, and which of the SDK's workers run. *)
Record pair := MkPair { pa_w : pairedWorker; pa_provider : bool; pa_control : bool }.
Definition new_pair : pair := MkPair (MkPaired false false false None false false) false false.

(** [provider] and [control] are the answers of the SDK. *)
Definition worker_Start (provider control : option worker_error) (p : pair) : pair * option worker_error :=
  let w := pa_w p in
  if pr_stopped w then (p, Some WorkerUnavailable)
  else if pr_providerStarted w || pr_controlStarted w then (p, Some WorkerUnavailable)
  else
    match provider with
    | Some e => (p, Some e)
    | None =>
        let p := p <| pa_provider := true |> <| pa_w ::= fun w => w <| pr_providerStarted := true |> |> in
        match control with
        | Some e => (p <| pa_provider := false |> <| pa_w ::= fun w => w <| pr_providerStarted := false |> |>, Some e)
        | None => (p <| pa_control := true |> <| pa_w ::= fun w => w <| pr_controlStarted := true |> |>, None)
        end
    end.

Definition worker_Stop (p : pair) : pair :=
  if pr_stopOnce (pa_w p) then p
  else
    let p := p <| pa_w ::= fun w => w <| pr_stopOnce := true |> |> in
    let p := if pr_providerStarted (pa_w p) then p <| pa_provider := false |> <| pa_w ::= fun w => w <| pr_providerStarted := false |> |> else p in
    let p := if pr_controlStarted (pa_w p) then p <| pa_control := false |> <| pa_w ::= fun w => w <| pr_controlStarted := false |> |> else p in
    p <| pa_w ::= fun w => w <| pr_stopped := true |> |>.

(** The callback of a fatal error: whether a [Stop] is on its way. *)
Definition worker_fail (err : option worker_error) (p : pair) : pair * bool :=
  match err with
  | None => (p, false)
  | Some e =>
      if pr_failureOnce (pa_w p) then (p, false)
      else (p <| pa_w ::= fun w => w <| pr_failureOnce := true |> <| pr_failure := Some e |> |>, true)
  end.

(** A receive from [Errors()]. *)
Definition take_failure (p : pair) : pair * option worker_error := (p <| pa_w ::= fun w => w <| pr_failure := None |> |>, pr_failure (pa_w p)).

(** What wakes [Run]. *)
Inductive run_wake : Type := Interrupted | FailureReceived | StoppedElsewhere.
(** [Run] after its [Start], from what wakes it; operations of others may come between. *)
Definition run_end (wake : run_wake) (p : pair) : pair * option worker_error :=
  match wake with
  | FailureReceived => let '(p, err) := take_failure p in (worker_Stop p, err)
  | _ => take_failure (worker_Stop p)
  end.

(** ** Construction *)

Record WorkerOptions := MkOptions {
  wo_queue : string; wo_workflowPollers : Z; wo_activityPollers : Z; wo_executions : Z; wo_workflows : list string; wo_activities : list string }.

Definition registered_workflows : list string := ["HLLMBatchV1"; "HLLMCPADispatcherV1"; "HLLMCPAPoolV2"; "HLLMCPAAttemptV2"].
Definition control_activities : list string :=
  ["PrepareLegacyJobs"; "AdvanceLegacyPool"; "Enqueue"; "Status"; "Expire"; "Record"; "Cooldown"; "Generate"; "PublishPool"; "InitializePool";
   "SelectPoolReady"; "ReadPool"; "StartAttempts"; "RetireRequests"; "SettleKnownAttempt"; "ReconcileAttempt"; "NotifySettlement"; "FinalizeAttempt"].
Definition provider_activities : list string := ["InvokeAttempt"; "ProviderReady"].

(** [min(high, max(2, (concurrency+add)/share))] *)
Definition pollers (high share concurrency : Z) : Z := Z.min high (Z.max 2 (Z.quot (concurrency + (share - 1)) share)).

(** [complete] tells whether the client and the dependencies of the activities are there;
    the result has the queue of the activities and the two workers. *)
Definition newWorkers (complete : bool) (queue : string) (a : Activities) (policy : Policy)
  : res worker_error (string * WorkerOptions * WorkerOptions) :=
  if negb complete || String.eqb queue "" || negb (ac_Artifacts a) || negb (ac_Execute a) || negb (ac_Encode a) || String.eqb (ac_PoolID a) ""
  then Err WorkerUnavailable
  else
    match policy_Validate policy with
    | Err e => Err (WorkerPolicy e)
    | Ok _ =>
        let taskQueue := if String.eqb (ac_TaskQueue a) "" then queue else ac_TaskQueue a in
        if negb (String.eqb taskQueue queue) then Err WorkerUnavailable
        else
          let n := Concurrency policy in
          Ok (taskQueue, MkOptions queue (pollers 32 4 n) (pollers 32 4 n) (n + 16) registered_workflows control_activities,
              MkOptions (queue +:+ "/provider") 0 (pollers 8 16 n) n [] provider_activities)
    end.

(** ** Properties *)

Inductive pair_step (p : pair) : pair → Prop :=
| pair_start provider control : pair_step p (worker_Start provider control p).1
| pair_stop : pair_step p (worker_Stop p)
| pair_fail err : pair_step p (worker_fail err p).1
| pair_take : pair_step p (take_failure p).1
| pair_run wake : pair_step p (run_end wake p).1.

Record PairOK (p : pair) : Prop := {
  pk_provider : pa_provider p = pr_providerStarted (pa_w p);
  pk_control : pa_control p = pr_controlStarted (pa_w p);
  pk_both : pa_control p = pa_provider p;
  pk_stopped : pr_stopped (pa_w p) = pr_stopOnce (pa_w p);
  pk_down : pr_stopped (pa_w p) = true → pa_provider p = false;
  pk_failure : is_Some (pr_failure (pa_w p)) → pr_failureOnce (pa_w p) = true;
}.

Ltac pair_cases := repeat (case_match; cbn in *); try done.

Lemma worker_Stop_ok p : PairOK p → PairOK (worker_Stop p) ∧ pr_stopped (pa_w (worker_Stop p)) = true.
Proof.
  intros HP. pose proof HP as [H1 H2 H3 H4 H5 H6]. unfold worker_Stop. destruct (pr_stopOnce (pa_w p)) eqn:E; [split; [exact HP|congruence]|].
  split; [|pair_cases]. destruct p as [[st so fo f ps cs] pr ct]. cbn in *. destruct ps, cs, pr, ct; try done; by constructor.
Qed.
Lemma take_failure_ok p : PairOK p → PairOK (take_failure p).1.
Proof. intros []. constructor; try done. intros H. by apply is_Some_None in H. Qed.

Lemma pair_step_ok p p' : pair_step p p' → PairOK p → PairOK p'.
Proof.
  intros [provider control| |err| |wake] HP.
  - pose proof HP as [H1 H2 H3 H4 H5 H6]. unfold worker_Start. destruct (pr_stopped (pa_w p)) eqn:Es; [exact HP|].
    destruct (pr_providerStarted (pa_w p)) eqn:Ep; [exact HP|]. destruct (pr_controlStarted (pa_w p)) eqn:Ec; [exact HP|]. cbn [orb].
    destruct provider; [exact HP|]. destruct control; constructor; cbn; try done; try congruence.
  - by apply worker_Stop_ok.
  - pose proof HP as [H1 H2 H3 H4 H5 H6]. destruct err as [e|]; [|exact HP].
    unfold worker_fail. destruct (pr_failureOnce (pa_w p)) eqn:E; [exact HP|]. by constructor.
  - by apply take_failure_ok.
  - destruct wake; cbn; [apply take_failure_ok, worker_Stop_ok|apply worker_Stop_ok, take_failure_ok|apply take_failure_ok, worker_Stop_ok]; done.
Qed.

(** The workers of a pair run together or not at all; once stopped they are down for good,
    and a further start is refused; and of several fatal errors the first one is kept. *)
Theorem workers_run_together p :
  rtc pair_step new_pair p →
  pa_control p = pa_provider p ∧ (pr_stopped (pa_w p) = true → pa_provider p = false ∧ ∀ a b, worker_Start a b p = (p, Some WorkerUnavailable))
  ∧ pr_stopped (pa_w (worker_Stop p)) = true
  ∧ (∀ e f, pr_failureOnce (pa_w p) = false → pr_failure (pa_w (worker_fail (Some f) (worker_fail (Some e) p).1).1) = Some e).
Proof.
  intros HR. assert (PairOK p) as HP.
  { assert (PairOK new_pair) as H0 by (constructor; cbn; done || by intros [? ?]). revert H0. induction HR as [|x y z St _ IH]; [done|].
    intros H. by apply IH, (pair_step_ok x). }
  split; [apply HP|]. split; [|split; [by apply worker_Stop_ok|]].
  - intros Hs. split; [by apply HP|]. intros a b. unfold worker_Start. by rewrite Hs.
  - intros e f Hf. cbn. rewrite Hf. cbn. done.
Qed.

(** The pollers and the slots of the two workers are bounded by the policy. *)
Lemma newWorkers_bounded complete queue a policy q control provider :
  newWorkers complete queue a policy = Ok (q, control, provider) →
  q = queue ∧ 2 ≤ wo_activityPollers provider ≤ 8 ∧ 2 ≤ wo_workflowPollers control ≤ 32 ∧ wo_executions provider = Concurrency policy
  ∧ 1 ≤ wo_executions provider ≤ 1000 ∧ "InvokeAttempt" ∉ wo_activities control.
Proof.
  unfold newWorkers. destruct (_ || _ || _ || _ || _ || _); [done|]. destruct (policy_Validate policy) as [u|] eqn:E; [|done]. destruct u.
  apply admission_policy_iff in E. destruct E as [Hc _].
  destruct (negb _) eqn:Eq; [done|]. intros [= <- <- <-]. bool_to_prop. split; [done|]. unfold pollers. cbn [wo_activityPollers wo_workflowPollers wo_executions].
  split; [lia|]. split; [lia|]. split; [done|]. split; [done|]. intros Hin%list_elem_of_In. cbn in Hin.
  repeat (destruct Hin as [Hin|Hin]; [done|]). done.
Qed.
