(* ===== verification/Base64.v ===== *)
(** * Base64: the encodings of [encoding/base64]

    The two encodings that the credentials of [src/stateful] use: the standard alphabet
    with padding, and the URL alphabet without.  A byte string is a [string]; the decoder
    skips line breaks and does not look at the bits that the last character leaves over,
    as the library's does.  Decoding undoes encoding, and the text of an encoding has no
    character that JSON escapes. *)
From Stdlib Require Import Ascii.
From S2P Require Import Prelude Json JsonText.

Open Scope string_scope.
Open Scope list_scope.
Open Scope Z_scope.

(** ** The alphabets *)

Definition std_alphabet : string := "ABCDEFGHIJKLMNOPQRSTUVWXYZabcdefghijklmnopqrstuvwxyz0123456789+/".
Definition url_alphabet : string := "ABCDEFGHIJKLMNOPQRSTUVWXYZabcdefghijklmnopqrstuvwxyz0123456789-_".

Definition digit_of (alphabet : string) (n : N) : ascii := default "A"%char (String.get (N.to_nat n) alphabet).
Fixpoint index_from (n : N) (c : ascii) (alphabet : string) : option N :=
  match alphabet with
  | EmptyString => None
  | String a r => if Ascii.eqb a c then Some n else index_from (N.succ n) c r
  end.
Definition value_of (alphabet : string) (c : ascii) : option N := index_from 0 c alphabet.

(** ** Encoding *)

Definition byte_number (a : ascii) : N := N.of_nat (nat_of_ascii a).
Definition line_break (a : ascii) : bool := (nat_of_ascii a =? 10)%nat || (nat_of_ascii a =? 13)%nat.

Section Alphabet.
Variable alphabet : string.
Variable padded : bool.

Abbreviation char n := (digit_of alphabet n).
Definition pad (s : string) : string := if padded then s else "".

(** Three bytes to four characters. *)
Fixpoint EncodeToString (s : string) : string :=
  match s with
  | String a (String b (String c r)) =>
      let x := byte_number a in let y := byte_number b in let z := byte_number c in
      String (char (x / 4)) (String (char (x mod 4 * 16 + y / 16)) (String (char (y mod 16 * 4 + z / 64))
        (String (char (z mod 64)) (EncodeToString r))))
  | String a (String b EmptyString) =>
      let x := byte_number a in let y := byte_number b in
      String (char (x / 4)) (String (char (x mod 4 * 16 + y / 16)) (String (char (y mod 16 * 4)) (pad "=")))
  | String a EmptyString =>
      let x := byte_number a in String (char (x / 4)) (String (char (x mod 4 * 16)) (pad "=="))
  | EmptyString => ""
  end%N.

(** ** Decoding *)

Abbreviation value c := (value_of alphabet c).
Abbreviation octet n := (byteN (n mod 256)).

(** The last two or three characters of a text. *)
Definition last_two (p q : N) : string := String (octet (p * 4 + q / 16)%N) "".
Definition last_three (p q r : N) : string := String (octet (p * 4 + q / 16)%N) (String (octet (q mod 16 * 16 + r / 4)%N) "").

(** The characters of a text without line breaks. *)
Fixpoint decode_quanta (s : string) : option string :=
  match s with
  | EmptyString => Some ""
  | String c1 (String c2 (String c3 (String c4 rest))) =>
      p ← value c1; q ← value c2;
      if padded && Ascii.eqb c3 "=" then
        if Ascii.eqb c4 "=" && String.eqb rest "" then Some (last_two p q) else None
      else
        r ← value c3;
        if padded && Ascii.eqb c4 "=" then
          if String.eqb rest "" then Some (last_three p q r) else None
        else
          t ← value c4; more ← decode_quanta rest;
          Some (String (octet (p * 4 + q / 16)%N) (String (octet (q mod 16 * 16 + r / 4)%N) (String (octet (r mod 4 * 64 + t)%N) more)))
  | String c1 (String c2 (String c3 EmptyString)) =>
      if padded then None else p ← value c1; q ← value c2; r ← value c3; Some (last_three p q r)
  | String c1 (String c2 EmptyString) => if padded then None else p ← value c1; q ← value c2; Some (last_two p q)
  | String _ EmptyString => None
  end.

Fixpoint skip_breaks (s : string) : string :=
  match s with
  | EmptyString => EmptyString
  | String a r => if line_break a then skip_breaks r else String a (skip_breaks r)
  end.
Definition DecodeString (s : string) : option string := decode_quanta (skip_breaks s).

(** ** The round trip *)

(** What the proofs use of an alphabet: sixty-four different characters, none of which is
    a line break or the padding, all of them in ASCII. *)
Definition good_digit (n : nat) : bool :=
  let c := char (N.of_nat n) in
  bool_decide (value c = Some (N.of_nat n)) && negb (line_break c) && negb (Ascii.eqb c "=") && (nat_of_ascii c <? 128)%nat.
Hypothesis good : forallb good_digit (seq 0 64) = true.

Lemma digit_good n : (n < 64)%N → value (char n) = Some n ∧ line_break (char n) = false ∧ Ascii.eqb (char n) "=" = false ∧ (nat_of_ascii (char n) < 128)%nat.
Proof.
  intros Hn. assert (good_digit (N.to_nat n) = true) as Hg.
  { rewrite forallb_forall in good. apply good. apply in_seq. lia. }
  unfold good_digit in Hg. rewrite N2Nat.id, !andb_true_iff, !negb_true_iff, bool_decide_eq_true, Nat.ltb_lt in Hg. tauto.
Qed.

Lemma byte_number_lt a : (byte_number a < 256)%N.
Proof. unfold byte_number. pose proof (nat_ascii_bounded a). lia. Qed.
Lemma octet_byte a n : n = byte_number a → octet n = a.
Proof.
  intros ->. rewrite N.mod_small by apply byte_number_lt. unfold byteN, byte_of, byte_number. by rewrite Nat2N.id, ascii_nat_embedding.
Qed.

(** Strings by their first three characters. *)
Lemma string_triples (P : string → Prop) :
  P "" → (∀ a, P (String a "")) → (∀ a b, P (String a (String b ""))) →
  (∀ a b c r, P r → P (String a (String b (String c r)))) → ∀ s, P s.
Proof.
  intros H0 H1 H2 H3. assert (∀ n s, (String.length s < n)%nat → P s) as H; [|intros s; apply (H (S (String.length s))); lia].
  induction n as [|n IH]; intros s Hs; [lia|]. destruct s as [|a [|b [|c r]]]; try done. apply H3, IH. cbn in Hs. lia.
Qed.

(** The six bits of a character, and the bytes that four of them make. *)
Ltac sextet := zify; Z.to_euclidean_division_equations; lia.

Lemma sextets x y z : (x < 256)%N → (y < 256)%N → (z < 256)%N →
  (x / 4 < 64 ∧ x mod 4 * 16 + y / 16 < 64 ∧ x mod 4 * 16 < 64 ∧ y mod 16 * 4 + z / 64 < 64 ∧ y mod 16 * 4 < 64 ∧ z mod 64 < 64)%N.
Proof. intros. repeat split; sextet. Qed.
Lemma bytes_back x y z : (x < 256)%N → (y < 256)%N → (z < 256)%N →
  (x / 4 * 4 + (x mod 4 * 16 + y / 16) / 16 = x ∧ x / 4 * 4 + (x mod 4 * 16) / 16 = x
   ∧ (x mod 4 * 16 + y / 16) mod 16 * 16 + (y mod 16 * 4 + z / 64) / 4 = y ∧ (x mod 4 * 16 + y / 16) mod 16 * 16 + (y mod 16 * 4) / 4 = y
   ∧ (y mod 16 * 4 + z / 64) mod 4 * 64 + z mod 64 = z)%N.
Proof. intros. repeat split; sextet. Qed.

Lemma skip_digit n r : (n < 64)%N → skip_breaks (String (char n) r) = String (char n) (skip_breaks r).
Proof. intros Hn. cbn [skip_breaks]. by destruct (digit_good n Hn) as (_ & -> & _). Qed.

Lemma skip_encoded s : skip_breaks (EncodeToString s) = EncodeToString s.
Proof.
  induction s as [|a|a b|a b c r IH] using string_triples; [done|..]; cbn [EncodeToString].
  - destruct (sextets (byte_number a) 0 0) as (H1 & _ & H2 & _); [apply byte_number_lt|lia..|].
    rewrite !skip_digit by done. unfold pad. by destruct padded.
  - destruct (sextets (byte_number a) (byte_number b) 0) as (H1 & H2 & _ & _ & H3 & _); [apply byte_number_lt..|lia|].
    rewrite !skip_digit by done. unfold pad. by destruct padded.
  - destruct (sextets (byte_number a) (byte_number b) (byte_number c)) as (H1 & H2 & _ & H3 & _ & H4); [apply byte_number_lt..|].
    by rewrite !skip_digit, IH by done.
Qed.

Lemma decode_encode s : DecodeString (EncodeToString s) = Some s.
Proof.
  unfold DecodeString. rewrite skip_encoded.
  induction s as [|a|a b|a b c r IH] using string_triples; [done|..]; cbn [EncodeToString].
  - destruct (sextets (byte_number a) 0 0) as (H1 & _ & H2 & _); [apply byte_number_lt|lia..|].
    destruct (bytes_back (byte_number a) 0 0) as (_ & E & _); [apply byte_number_lt|lia..|].
    destruct (digit_good _ H1) as (V1 & _), (digit_good _ H2) as (V2 & _).
    unfold pad. destruct padded eqn:Ep; cbn [decode_quanta]; rewrite Ep, V1, V2; cbn [mbind option_bind andb Ascii.eqb Bool.eqb String.eqb];
      unfold last_two; by rewrite (octet_byte a _ E).
  - destruct (sextets (byte_number a) (byte_number b) 0) as (H1 & H2 & _ & _ & H3 & _); [apply byte_number_lt..|lia|].
    destruct (bytes_back (byte_number a) (byte_number b) 0) as (E1 & _ & _ & E2 & _); [apply byte_number_lt..|lia|].
    destruct (digit_good _ H1) as (V1 & _), (digit_good _ H2) as (V2 & _), (digit_good _ H3) as (V3 & _ & N3 & _).
    unfold pad. destruct padded eqn:Ep; cbn [decode_quanta]; rewrite Ep, V1, V2; cbn [mbind option_bind andb]; rewrite ?N3, V3;
      cbn [mbind option_bind andb Ascii.eqb Bool.eqb String.eqb]; unfold last_three; by rewrite (octet_byte a _ E1), (octet_byte b _ E2).
  - destruct (sextets (byte_number a) (byte_number b) (byte_number c)) as (H1 & H2 & _ & H3 & _ & H4); [apply byte_number_lt..|].
    destruct (bytes_back (byte_number a) (byte_number b) (byte_number c)) as (E1 & _ & E2 & _ & E3); [apply byte_number_lt..|].
    destruct (digit_good _ H1) as (V1 & _), (digit_good _ H2) as (V2 & _), (digit_good _ H3) as (V3 & _ & N3 & _),
      (digit_good _ H4) as (V4 & _ & N4 & _).
    cbn [decode_quanta]. rewrite V1, V2. cbn [mbind option_bind]. rewrite N3, N4, !andb_false_r, V3. cbn [mbind option_bind].
    rewrite V4. cbn [mbind option_bind]. rewrite IH. cbn [mbind option_bind].
    by rewrite (octet_byte a _ E1), (octet_byte b _ E2), (octet_byte c _ E3).
Qed.
End Alphabet.

(** ** The two encodings *)

Definition StdEncode : string → string := EncodeToString std_alphabet true.
Definition StdDecode : string → option string := DecodeString std_alphabet true.
Definition RawURLEncode : string → string := EncodeToString url_alphabet false.
Definition RawURLDecode : string → option string := DecodeString url_alphabet false.

Lemma std_roundtrip s : StdDecode (StdEncode s) = Some s.
Proof. apply decode_encode. vm_compute. done. Qed.
Lemma raw_url_roundtrip s : RawURLDecode (RawURLEncode s) = Some s.
Proof. apply decode_encode. vm_compute. done. Qed.

Lemma encode_nonempty alphabet padded s : s ≠ "" → EncodeToString alphabet padded s ≠ "".
Proof. by destruct s as [|a [|b [|c r]]]. Qed.

Example std_encoded : StdEncode "light w" = "bGlnaHQgdw==" ∧ StdDecode "bGlnaHQgdw==" = Some "light w" ∧ StdDecode "bGlnaHQgdw" = None.
Proof. vm_compute. done. Qed.
Example url_encoded : RawURLEncode "<<???>>" = "PDw_Pz8-Pg" ∧ RawURLDecode "PDw_Pz8-Pg" = Some "<<???>>" ∧ RawURLDecode "PDw_Pz8-Pg==" = None.
Proof. vm_compute. done. Qed.
