(* ===== verification/CredentialProperties.v ===== *)
(** * CredentialProperties: a credential opens where it belongs

    Theorem about [Credential]: what the vault seals for an access key, an identifier and
    an origin opens for these three, and for no others. *)
From Stdlib Require Import Ascii.
From stdpp Require Import gmap countable.
From S2P Require Import Prelude Json JsonText Unicode RetryJson SchemaNumber ProviderNormalize Endpoint Admission Base64 Credential.

Open Scope string_scope.
Open Scope list_scope.
Open Scope Z_scope.

(** ** Valid texts *)

Lemma ValidString_utf8 s : ValidString s = true → utf8 s.
Proof.
  unfold ValidString. generalize (String.length s) at 1. intros n. revert s. induction n as [|n IH]; intros [|a s]; try done; try (intros; constructor).
  cbn [valid_string]. destruct (rune_width (String a s)) as [|w] eqn:E; [done|]. intros HV.
  destruct (rune_split _ _ E) as (r & t & Es & Hr & Hw). rewrite Es in *. constructor; [done|]. apply IH.
  rewrite <- Hw, substring_suffix in HV. exact HV.
Qed.

Definition byte_ascii (a : ascii) : bool := (nat_of_ascii a <? 128)%nat.
Lemma utf8_bytes s : forallb byte_ascii (String.list_ascii_of_string s) = true → utf8 s.
Proof. apply utf8_ascii. Qed.

Lemma of_runes_utf8 l : utf8 (of_runes l).
Proof. induction l as [|c l IH]; cbn; [constructor|]. constructor; [apply encode_rune_ok|exact IH]. Qed.

Lemma utf8_tail a s : byte_ascii a = true → utf8 (String a s) → utf8 s.
Proof.
  unfold byte_ascii. intros Ha Hu. remember (String a s) as x eqn:E. destruct Hu as [|r t Hr Ht]; [done|].
  pose proof (rune_width_app r t Hr) as Hw. rewrite E in Hw. cbn [rune_width] in Hw. rewrite Ha in Hw.
  destruct r as [|b r1]; [done|]. destruct r1 as [|c r]; [|done]. rewrite string_app_cons in E. injection E as _ <-. exact Ht.
Qed.

Lemma rune_last s a : byte_ascii a = true → is_rune (s +:+ String a "") → s = "".
Proof.
  unfold byte_ascii. intros Ha [_ Hw]. assert (cont a = false) as Hc.
  { unfold cont, between. apply Nat.ltb_lt in Ha. destruct (128 <=? nat_of_ascii a)%nat eqn:E; [|done]. apply Nat.leb_le in E. lia. }
  rewrite string_length_app in Hw. destruct s as [|x [|y [|z s]]]; [done|exfalso..]; rewrite ?string_app_cons in Hw;
    change ("" +:+ String a "") with (String a "") in Hw; cbn [rune_width String.length Nat.add] in Hw; rewrite ?Hc, ?andb_false_r in Hw; cbn [andb orb] in Hw.
  - case_match; done.
  - repeat case_match; done.
  - destruct s as [|u s]; [change ("" +:+ String a "") with (String a "") in Hw|rewrite string_app_cons in Hw; cbn [String.length Nat.add] in Hw];
      cbn iota in Hw; rewrite ?Hc, ?andb_false_r in Hw; cbn [andb] in Hw; repeat case_match; try done; lia.
Qed.

Lemma app_split (r t s : string) a : r +:+ t = s +:+ String a "" → (∃ q, s = r +:+ q ∧ t = q +:+ String a "") ∨ (r = s +:+ String a "" ∧ t = "").
Proof.
  revert s. induction r as [|b r IH]; intros s E; [left; by exists s|]. destruct s as [|c s].
  - injection E as -> E. right. by destruct r, t.
  - injection E as -> E. destruct (IH s E) as [(q & -> & ->)|[-> ->]]; [left; by exists q|by right].
Qed.

Lemma utf8_init s a : byte_ascii a = true → utf8 (s +:+ String a "") → utf8 s.
Proof.
  intros Ha Hu. remember (s +:+ String a "") as x eqn:E. revert s E. induction Hu as [|r t Hr Ht IH]; intros s E; [by destruct s|].
  destruct (app_split _ _ _ _ E) as [(q & -> & ->)|[-> ->]].
  - constructor; [done|]. by apply IH.
  - apply (rune_last _ _ Ha) in Hr. subst. constructor.
Qed.

Lemma bracket_ascii a : bracket a = true → byte_ascii a = true.
Proof. unfold bracket, byte_ascii. rewrite orb_true_iff, !Nat.eqb_eq, Nat.ltb_lt. lia. Qed.

Lemma Trim_brackets_utf8 s : utf8 s → utf8 (Trim_brackets s).
Proof.
  assert (∀ t, utf8 t → utf8 (trim_brackets t)) as H1.
  { induction t as [|a t IH]; [done|]. intros Ht. cbn. destruct (bracket a) eqn:E; [|done]. by apply IH, (utf8_tail a), Ht; apply bracket_ascii. }
  assert (∀ t, utf8 (go_string_rev t) → utf8 (go_string_rev (trim_brackets t))) as H2.
  { induction t as [|a t IH]; [done|]. intros Ht. cbn [trim_brackets]. destruct (bracket a) eqn:E; [|done]. apply IH.
    rewrite string_rev_cons in Ht. by apply (utf8_init _ a), Ht; apply bracket_ascii. }
  intros Hs. apply H2. rewrite string_rev_involutive. by apply H1.
Qed.

Lemma digits_value_ascii s : ∀ acc z, digits_value acc s = Some z → forallb byte_ascii (String.list_ascii_of_string s) = true.
Proof.
  induction s as [|a s IH]; intros acc z; [done|]. cbn [digits_value String.list_ascii_of_string forallb].
  destruct (between _ _ _) eqn:E; [|done]. intros Hz. rewrite (IH _ _ Hz), andb_true_r. apply between_spec in E. unfold byte_ascii. apply Nat.ltb_lt. lia.
Qed.
Lemma port_utf8 port n : port_number port = Some n → utf8 port.
Proof.
  unfold port_number, ParseInt. destruct port as [|a r]; [done|]. destruct (Ascii.eqb_spec a "-") as [->|].
  - destruct r as [|b r]; [done|]. intros (z & Hz & _)%bind_Some. apply utf8_bytes. exact (digits_value_ascii _ _ _ Hz).
  - intros (z & Hz & _)%bind_Some. apply utf8_bytes. by rewrite (digits_value_ascii _ _ _ Hz).
Qed.

Section Vault.
Context `{VaultEnv}.

Lemma normalizeOrigin_utf8 value origin : normalizeOrigin value = Ok origin → utf8 origin.
Proof.
  unfold normalizeOrigin. destruct (parse_origin _) as [u|]; [|done]. case_match; [done|].
  set (host := lower_text _). intros (Hp & [= <-])%fail_if_then_ok.
  assert (utf8 host) as Hh by apply of_runes_utf8. assert (utf8 (if has_colon host then "[" +:+ host +:+ "]" else host)) as Hh'.
  { destruct (has_colon host); [|done]. repeat apply utf8_app; try done; by apply utf8_bytes. }
  apply utf8_app; [by apply utf8_bytes|]. destruct (String.eqb (if String.eqb _ _ then _ else _) "") eqn:E; [done|]. cbn [negb].
  destruct (String.eqb (ou_Port u) "443"); [done|]. rewrite E in Hp. cbn [negb andb] in Hp. destruct (port_number (ou_Port u)) as [n|] eqn:En; [|done].
  unfold JoinHostPort. apply Trim_brackets_utf8 in Hh'. set (trimmed := Trim_brackets _) in *. repeat apply utf8_app; try done; try (by apply utf8_bytes); [|by eapply port_utf8].
  destruct (has_colon trimmed); [|exact Hh']. repeat apply utf8_app; try done; by apply utf8_bytes.
Qed.

Lemma hex_utf8 s : validKeyHash s = true → utf8 s.
Proof.
  intros [_ Hs]%andb_true_iff. apply utf8_bytes. rewrite forallb_forall in *. intros a Ha%Hs. unfold lower_hex, byte_ascii in *.
  rewrite orb_true_iff, !between_spec in Ha. apply Nat.ltb_lt. lia.
Qed.

Lemma normalized_binding_utf8 b b' : normalizeCredentialBinding b = Ok b' → utf8 (cb_APIKeyHash b') ∧ utf8 (cb_CredentialID b') ∧ utf8 (cb_Origin b').
Proof.
  unfold normalizeCredentialBinding. intros (Hc & HR)%fail_if_then_ok. apply res_bind_ok in HR as (origin & HO & [= <-]). cbn.
  rewrite !orb_false_iff, !negb_false_iff in Hc. destruct Hc as [[[[Hh _] _] Hv] _].
  split_and!; [by apply hex_utf8|by apply ValidString_utf8|by eapply normalizeOrigin_utf8].
Qed.
End Vault.

(** ** Texts of structs *)

Definition member_ok (kv : string * json) : Prop := utf8 kv.1 ∧ wf_json 1 kv.2.

Lemma struct_step l rest fuel :
  l ≠ [] →
  parse_value (S fuel) 0 (marshal_struct l +:+ rest)
  = '(v, r) ← parse_members fuel 1 (join_comma (map entry_text l) +:+ String "}" rest); Some (JObj (foldl put [] v), r).
Proof.
  intros Hne. unfold marshal_struct. rewrite !string_app_assoc. change ("{" +:+ ?s) with (String "{" s).
  cbn [parse_value]. change (skip_ws (String "{" ?s)) with (String "{" s). cbn [Ascii.eqb Bool.eqb].
  change ("}" +:+ rest) with (String "}" rest). rewrite (depth_ok 0) by done. destruct l as [|x l]; [done|].
  assert (head_is "}" (skip_ws (join_comma (map entry_text (x :: l)) +:+ String "}" rest)) = None) as ->; [|done].
  cbn [map]. rewrite join_comma_cons. by destruct (map entry_text l).
Qed.

Lemma decode_struct_text l :
  l ≠ [] → NoDup (map fst l) → Forall member_ok l → decode_one (marshal_struct l) = Some (JObj (map (fun kv => (kv.1, sort_json kv.2)) l)).
Proof.
  intros Hne Hk Hl. destruct (members_read l 1 "" Hne) as [n Hn]; [by apply Forall_forall; intros; apply marshal_reads|exact Hl|].
  set (text := marshal_struct l). assert (parse_value (S n + value_fuel text) 0 text = Some (JObj (map (fun kv => (kv.1, sort_json kv.2)) l), "")) as HP.
  { unfold text at 2. rewrite <- (string_app_nil (marshal_struct l)). change (S n + value_fuel text)%nat with (S (n + value_fuel text)).
    rewrite struct_step by done. rewrite Hn by lia. cbn [mbind option_bind]. rewrite foldl_put_fresh; [done|]. cbn [app]. by rewrite map_map. }
  unfold decode_one, Decode. assert (skip_ws text = text) as -> by done. assert (∃ a r, text = String a r) as (a & r & E) by (by eexists _, _).
  rewrite E, <- E. destruct (parse_fuel (value_fuel text) (S n + value_fuel text) 0 text) as [-> _]; [|unfold value_fuel; lia..]. by rewrite HP.
Qed.

Lemma struct_text_inj l l' :
  l ≠ [] → l' ≠ [] → NoDup (map fst l) → NoDup (map fst l') → Forall member_ok l → Forall member_ok l' →
  marshal_struct l = marshal_struct l' → map (fun kv => (kv.1, sort_json kv.2)) l = map (fun kv => (kv.1, sort_json kv.2)) l'.
Proof.
  intros N1 N2 K1 K2 W1 W2 E. pose proof (decode_struct_text l N1 K1 W1) as D1. rewrite E, decode_struct_text in D1 by done. by injection D1.
Qed.

Lemma aad_inj `{VaultEnv} b b' keyID :
  utf8 keyID → utf8 (cb_APIKeyHash b) → utf8 (cb_CredentialID b) → utf8 (cb_Origin b) →
  utf8 (cb_APIKeyHash b') → utf8 (cb_CredentialID b') → utf8 (cb_Origin b') →
  credentialAAD b keyID = credentialAAD b' keyID → b = b'.
Proof.
  intros Hk U1 U2 U3 U1' U2' U3' E. assert (∀ c, utf8 (cb_APIKeyHash c) → utf8 (cb_CredentialID c) → utf8 (cb_Origin c) → Forall member_ok (aad_members c keyID)) as HW.
  { intros c V1 V2 V3. repeat apply List.Forall_cons; try apply List.Forall_nil; split; cbn [fst snd]; first [assumption|by apply utf8_bytes|reflexivity]. }
  assert (map (fun kv => (kv.1, sort_json kv.2)) (aad_members b keyID) = map (fun kv => (kv.1, sort_json kv.2)) (aad_members b' keyID)) as Em.
  { apply struct_text_inj; [done|done|by apply (bool_decide_unpack _)..|auto|auto|exact E]. }
  injection Em as E1 E2 E3. destruct b, b'. cbn in *. congruence.
Qed.

(** ** The payload *)

Lemma token_utf8 s : validCredentialHeaderName s = true → utf8 s.
Proof.
  intros [_ Hs]%andb_true_iff. apply utf8_bytes. rewrite forallb_forall in *. intros a Ha%Hs. unfold token_byte in Ha. unfold byte_ascii. apply Nat.ltb_lt.
  rewrite !orb_true_iff, !between_spec, existsb_exists in Ha. destruct Ha as [[[?|?]|?]|(n & Hn & ->%Nat.eqb_eq)]; [lia..|]. cbn in Hn. lia.
Qed.

Lemma check_headers_each seen l : check_headers seen l = Ok tt → Forall (fun kv => utf8 kv.1 ∧ utf8 kv.2) l.
Proof.
  revert seen. induction l as [|[name value] l IH]; intros seen; [constructor|]. cbn [check_headers]. case_match eqn:E; [done|].
  case_match; [done|]. intros HR. constructor; [|by eapply IH]. rewrite orb_false_iff, !negb_false_iff in E. destruct E as [En Ev]. split; [by apply token_utf8|].
  unfold validCredentialHeaderValue in Ev. apply ValidString_utf8. rewrite andb_true_iff, negb_true_iff, orb_false_iff, negb_false_iff in Ev. tauto.
Qed.

Lemma valid_payload p : validateCredentialPayload p = Ok tt → utf8 (cy_APIKey p) ∧ Forall (fun kv => utf8 kv.1 ∧ utf8 kv.2) (map_to_list (cy_Headers p)).
Proof.
  unfold validateCredentialPayload. intros (Hk & (_ & HR)%fail_if_then_ok)%fail_if_then_ok. split; [|by eapply check_headers_each].
  apply ValidString_utf8. rewrite !orb_false_iff, !negb_false_iff in Hk. tauto.
Qed.

Lemma decode_headers_list l m :
  foldl decode_header (Some m) (map (fun kv => (kv.1, JStr kv.2)) l) = Some (foldl (fun m kv => <[kv.1 := kv.2]> m) m l).
Proof. revert m. induction l as [|kv l IH]; intros m; [done|]. cbn. apply IH. Qed.

Lemma insert_all (l : list (string * string)) (h : gmap string string) : l ≡ₚ map_to_list h → foldl (fun m kv => <[kv.1 := kv.2]> m) ∅ l = h.
Proof.
  intros HP. assert (∀ (q : list (string * string)) (m : gmap string string),
    foldl (fun m kv => <[kv.1 := kv.2]> m) m q = foldr (fun kv => <[kv.1 := kv.2]>) m (reverse q)) as Hf.
  { induction q as [|kv q IH]; intros m; [done|]. cbn [foldl]. by rewrite IH, reverse_cons, foldr_app. }
  rewrite Hf. fold (list_to_map (M := gmap string string) (reverse l)). rewrite <- (list_to_map_to_list h).
  apply list_to_map_proper; [|by rewrite reverse_Permutation].
  rewrite reverse_Permutation, HP. apply NoDup_fst_map_to_list.
Qed.

Lemma payload_roundtrip p : validateCredentialPayload p = Ok tt → decode_payload (marshal_struct (payload_members p)) = Some p.
Proof.
  intros (Hk & Hh)%valid_payload. set (texts := map (fun kv : string * string => (kv.1, JStr kv.2)) (map_to_list (cy_Headers p))).
  assert (NoDup (map fst texts)) as HN by (unfold texts; rewrite map_map; apply NoDup_fst_map_to_list).
  assert (member_ok ("headers", JObj texts)) as HJ.
  { split; [by apply utf8_bytes|]. cbn [snd wf_json]. split; [done|]. split; [done|]. apply foldr_Forall. unfold texts. apply Forall_fmap. exact Hh. }
  unfold decode_payload, payload_members. case_bool_decide as Ee.
  - rewrite decode_struct_text; [|done|by apply (bool_decide_unpack _)|apply Forall_singleton; split; [by apply utf8_bytes|exact Hk]].
    cbn. destruct p as [k h]. cbn in Ee |- *. by rewrite Ee.
  - rewrite decode_struct_text; [|done|by apply (bool_decide_unpack _)|apply Forall_cons; split; [split; [by apply utf8_bytes|exact Hk]|by apply Forall_singleton]].
    assert (sort_json (headers_json (cy_Headers p)) = JObj (map (fun kv => (kv.1, JStr kv.2)) (sort_entries (map_to_list (cy_Headers p))))) as Es.
    { unfold headers_json. cbn [sort_json]. by rewrite map_map, <- sort_entries_map. }
    cbn [map fst snd]. rewrite Es. set (l := sort_entries _). set (q := MkPayload (cy_APIKey p) ∅).
    transitivity (decode_headers q (JObj (map (fun kv => (kv.1, JStr kv.2)) l))); [reflexivity|]. unfold decode_headers.
    rewrite (decode_headers_list l (cy_Headers q)). cbn [mbind option_bind]. unfold q. cbn [cy_Headers].
    rewrite (insert_all l (cy_Headers p)); [by destruct p|].
    apply sort_entries_Permutation.
Qed.

(** ** Sealing and opening *)

(** AES-GCM: opening undoes sealing and a sealed text has its tag.  That a sealed text
    opens under its own additional data alone is what authentication means; it holds up
    to the chance of a forgery. *)
Class GcmLaws `{VaultEnv} : Prop := {
  gcm_opens key nonce plaintext aad : gcm_Open key nonce (gcm_Seal key nonce plaintext aad) aad = Some plaintext;
  gcm_tagged key nonce plaintext aad : gcm_Overhead ≤ slen (gcm_Seal key nonce plaintext aad);
  gcm_authentic key nonce plaintext aad aad' other :
    gcm_Open key nonce (gcm_Seal key nonce plaintext aad) aad' = Some other → aad' = aad;
}.

Lemma substring_length n s : (n ≤ String.length s)%nat → String.length (String.substring 0 n s) = n.
Proof. revert n. induction s as [|a s IH]; intros [|n] Hn; cbn in *; try done; try lia. f_equal. apply IH. lia. Qed.

Lemma decode_encoded s label : s ≠ "" → decodeBase64URL (RawURLEncode s) label = Ok s.
Proof.
  intros Hs. unfold decodeBase64URL. destruct (String.eqb_spec (RawURLEncode s) ""); [by destruct (encode_nonempty url_alphabet false s Hs)|].
  by rewrite raw_url_roundtrip.
Qed.

Lemma Open_text `{VaultEnv} vault nonce sealed binding :
  sealed ≠ "" → nonce ≠ "" → String.length nonce = 12%nat → gcm_Overhead ≤ slen sealed →
  Open (Some vault) (MkEncrypted credentialEncryptionVersion algorithm "primary" (RawURLEncode nonce) (RawURLEncode sealed)) binding
  = let? binding := normalizeCredentialBinding binding in
    match gcm_Open (cv_key vault) nonce sealed (credentialAAD binding "primary") with
    | None => Err "stateful: encrypted credential authentication failed"
    | Some plaintext =>
        match decode_payload plaintext with
        | None => Err "stateful: decrypted credential payload is invalid"
        | Some payload => if is_ok (validateCredentialPayload payload) then Ok payload else Err "stateful: decrypted credential payload is invalid"
        end
    end.
Proof.
  intros Hs Hz Hn Ht. unfold Open. cbn [ec_SchemaVersion ec_Algorithm ec_KeyID ec_Nonce ec_Ciphertext].
  rewrite !String.eqb_refl, Z.eqb_refl. cbn [negb orb fail_if res_bind]. rewrite (decode_encoded nonce), (decode_encoded sealed) by done. cbn [res_bind].
  unfold slen at 1. rewrite Hn, (proj2 (Z.ltb_ge _ _) Ht). reflexivity.
Qed.

Lemma sealed_opens_iff `{GcmLaws} vault payload binding random encrypted binding' opened :
  Seal (Some vault) payload binding random = Ok encrypted →
  Open (Some vault) encrypted binding' = Ok opened
  ↔ opened = payload ∧ ∃ normal, normalizeCredentialBinding binding = Ok normal ∧ normalizeCredentialBinding binding' = Ok normal.
Proof.
  unfold Seal. intros HS. apply res_bind_ok in HS as (normal & HB & (HV & HS)%check_then_ok). case_match eqn:Er; [done|]. injection HS as <-.
  apply Z.ltb_ge in Er. unfold gcm_NonceSize, slen in Er. set (nonce := String.substring 0 12 random).
  assert (String.length nonce = 12%nat) as Hn by (apply substring_length; lia). set (plaintext := marshal_struct _). set (aad := credentialAAD normal "primary").
  pose proof (gcm_tagged (cv_key vault) nonce plaintext aad) as Ht. set (sealed := gcm_Seal _ _ _ _) in *.
  assert (sealed ≠ "" ∧ nonce ≠ "") as [Hs Hz] by (split; [intros E; rewrite E in Ht; done|intros E; rewrite E in Hn; done]).
  rewrite Open_text by done. split.
  - intros HO. apply res_bind_ok in HO as (normal' & HB' & HO). destruct (gcm_Open _ _ _ _) as [p|] eqn:Ep; [|done].
    pose proof (gcm_authentic _ _ _ _ _ _ Ep) as Ea. rewrite Ea in Ep. unfold sealed in Ep. rewrite gcm_opens in Ep. injection Ep as <-.
    unfold plaintext in HO. rewrite payload_roundtrip in HO by done. rewrite HV in HO. injection HO as <-. split; [done|]. exists normal. split; [done|].
    rewrite HB'. f_equal. destruct (normalized_binding_utf8 _ _ HB) as (U1 & U2 & U3), (normalized_binding_utf8 _ _ HB') as (V1 & V2 & V3).
    apply (aad_inj _ _ "primary"); try done. by apply utf8_bytes.
  - intros [-> (n & HB1 & HB')]. rewrite HB in HB1. injection HB1 as ->. rewrite HB'. cbn [res_bind]. fold aad. unfold sealed. rewrite gcm_opens.
    unfold plaintext. by rewrite payload_roundtrip, HV by done.
Qed.

(** C26: a credential opens under the binding it was sealed for, with the payload that was
    sealed, and under no other: whatever binding is given to [Open], it succeeds exactly
    when that binding has the same normal form - access key, identifier and origin - as
    the one given to [Seal]. *)
Theorem credential_opens_only_bound `{GcmLaws} vault payload binding random encrypted binding' opened :
  Seal (Some vault) payload binding random = Ok encrypted →
  Open (Some vault) encrypted binding' = Ok opened
  ↔ opened = payload ∧ ∃ normal, normalizeCredentialBinding binding = Ok normal ∧ normalizeCredentialBinding binding' = Ok normal.
Proof. apply sealed_opens_iff. Qed.

(** *** A vault whose cipher is a transcript *)

Fixpoint bits (p : positive) : string := match p with xH => "" | xO p => String "0" (bits p) | xI p => String "1" (bits p) end.
Fixpoint of_bits (s : string) : positive := match s with EmptyString => xH | String a s => if Ascii.eqb a "0" then xO (of_bits s) else xI (of_bits s) end.
Lemma of_bits_bits p : of_bits (bits p) = p.
Proof. induction p as [p IH|p IH|]; cbn; by rewrite ?IH. Qed.

Definition transcript (plaintext aad : string) : string := "0123456789abcdef" +:+ bits (encode (plaintext, aad)).
Definition read_transcript (text aad : string) : option string :=
  '(plaintext, written) ← decode (of_bits (default "" (strip_prefix "0123456789abcdef" text)));
  if String.eqb written aad then Some plaintext else None.
Definition DemoVault : VaultEnv := {|
  parse_origin := fun value => Some (MkOriginURL "https" value value "" false "" "" "" "");
  to_lower := fun c => c;
  gcm_Seal := fun _ _ plaintext aad => transcript plaintext aad;
  gcm_Open := fun _ _ text aad => read_transcript text aad;
|}.

Lemma read_back plaintext aad aad' :
  read_transcript (transcript plaintext aad) aad' = if String.eqb aad aad' then Some plaintext else None.
Proof.
  unfold read_transcript. change (strip_prefix _ (transcript plaintext aad)) with (Some (bits (encode (plaintext, aad)))).
  change (default "" (Some ?x)) with x. by rewrite of_bits_bits, countable.decode_encode.
Qed.
Lemma demo_gcm : @GcmLaws DemoVault.
Proof.
  split; cbn [gcm_Seal gcm_Open DemoVault]; intros.
  - by rewrite read_back, String.eqb_refl.
  - unfold transcript, slen, gcm_Overhead. rewrite string_length_app. cbn [String.length]. lia.
  - rewrite read_back in *. by destruct (String.eqb_spec aad aad').
Qed.

Definition demo_hash : string := "00112233445566778899aabbccddeeff00112233445566778899aabbccddeeff".
Definition demo_payload : CredentialPayload := MkPayload "sk-secret" {["X-Org" := "acme"]}.
Definition demo_binding (origin : string) : CredentialBinding := MkBinding demo_hash "c1" origin.

Lemma demo_sealed : ∃ e, @Seal DemoVault (Some (MkVault "k")) demo_payload (demo_binding "api.example") "0123456789ab" = Ok e.
Proof. vm_compute. by eexists. Qed.
Lemma demo_normal origin : origin ∈ ["api.example"; "API.example."; "api.other"] →
  @normalizeCredentialBinding DemoVault (demo_binding origin)
  = Ok (demo_binding (if String.eqb origin "api.other" then "https://api.other" else "https://api.example")).
Proof. rewrite !elem_of_cons, elem_of_nil. intros [->|[->|[->|[]]]]; vm_compute; done. Qed.

Lemma credential_opens_only_bound_witness :
  ∃ e, @Seal DemoVault (Some (MkVault "k")) demo_payload (demo_binding "api.example") "0123456789ab" = Ok e
    ∧ @Open DemoVault (Some (MkVault "k")) e (demo_binding "API.example.") = Ok demo_payload
    ∧ ∀ p, @Open DemoVault (Some (MkVault "k")) e (demo_binding "api.other") ≠ Ok p.
Proof.
  destruct demo_sealed as [e He]. exists e. split; [exact He|]. split.
  - apply (proj2 (@credential_opens_only_bound DemoVault demo_gcm _ _ _ _ _ (demo_binding "API.example.") demo_payload He)).
    split; [reflexivity|]. eexists. rewrite !demo_normal by (rewrite !elem_of_cons; tauto). split; reflexivity.
  - intros p Hp. apply (proj1 (@credential_opens_only_bound DemoVault demo_gcm _ _ _ _ _ (demo_binding "api.other") p He)) in Hp.
    destruct Hp as [_ (n & H1 & H2)]. rewrite demo_normal in H1, H2 by (rewrite !elem_of_cons; tauto). rewrite <- H1 in H2. discriminate H2.
Defined.
