(* ===== verification/Profile.v ===== *)
(** * Profile: profiles of the reference service

    Models [src/stateful]: definition.go and profile.go (the definition of a profile, its
    checks, the snapshot a caller saves), the rules of presets.go, and of resolve.go the
    translation of recovery policies that name profiles and the options of a request.

    A raw message is the JSON value it holds, or [None] when it is empty; a map of options
    is its entries.  The length of a snapshot's JSON text, the parsers of URLs, times and
    UUIDs and the text of a time are parameters.  The loops over maps go through the
    entries in their order, where Go takes any: which of several errors is reported is all
    that depends on it. *)
From Stdlib Require Import Ascii.
From stdpp Require Import gmap pretty.
From S2P Require Import Prelude Float64 Json JsonText FloatText Unicode Retry RetryJson Accounting Runtime ProviderNormalize ProviderPayload ProviderRouter Client Credential.

Open Scope string_scope.
Open Scope list_scope.
Open Scope Z_scope.

(** ** Errors *)

Record FieldError := MkFieldError { fx_Field : string; fx_Message : string }.
Record ValidationError := MkInvalid { ve_Code : string; ve_FieldErrors : list FieldError }.
Definition validationFailure (field message : string) : ValidationError := MkInvalid "profile_invalid" [MkFieldError field message].

(** An error of the service: a validation, an operation with the revision it reports, one
    of the execution core, or any other. *)
Inductive service_error : Type :=
| EInvalid (v : ValidationError)
| EOperation (code message : string) (revision : option Z)
| ECore (e : goerror)
| EOther.

Definition validation_text (v : ValidationError) : string :=
  match ve_FieldErrors v with
  | [] => "profiles: invalid profile catalog"
  | first :: _ => "profiles: invalid profile catalog: " +:+ fx_Field first +:+ ": " +:+ fx_Message first
  end.
Definition service_text (e : service_error) : string :=
  match e with
  | EInvalid v => validation_text v
  | EOperation code message _ => code +:+ ": " +:+ message
  | ECore e => errorText e
  | EOther => ""
  end.
Definition invalid (field message : string) : service_error := EInvalid (validationFailure field message).

(** ** Data *)

Record Model := MkModel { md_ID : string; md_Label : string }.
Record Profile := MkProfile {
  pf_SchemaVersion : Z;
  pf_Provider : string;
  pf_APIInferenceType : string;
  pf_BaseURL : string;
  pf_ModelID : string;
  pf_Pricing : option Pricing;
  pf_SupportsTemperature : option bool;
  pf_SupportsContractedStructuredOutput : bool;
  pf_SupportsWebSearch : option bool;
  pf_TokensParam : option string;
  pf_ResponsesTokensParam : option string;
  pf_DefaultOptions : option object;
  pf_ReasoningEffortMap : list (string * option object);
  pf_RecoveryPolicy : option json;
  pf_Models : list Model;
  pf_LastModelRefreshAt : option Time;
}.
Definition zeroProfile : Profile := MkProfile 0 "" "" "" "" None None false None None None None [] None [] None.

Record ProfileCredentialBinding := MkProfileBinding { pb_Source : string; pb_DeploymentUpstreamID : string; pb_EnteredCredentialID : string }.
Record EnteredCredentialInput := MkEntered { ei_ID : string; ei_Revision : Z; ei_Origin : string; ei_Payload : CredentialPayload }.
Record SaveProfileInput := MkSave {
  sp_Name : string; sp_PresetID : string; sp_Definition : option json; sp_Inputs : option json; sp_Binding : ProfileCredentialBinding;
  sp_Credential : option EnteredCredentialInput }.
Record ProfileRecord := MkProfileRecord {
  pr_APIKeyHash : string; pr_ID : string; pr_Name : string; pr_PresetID : string; pr_Definition : option json; pr_Inputs : option json;
  pr_Binding : ProfileCredentialBinding; pr_CreatedAt : Time }.
Record ProfileView := MkView {
  pv_ID : string; pv_Name : string; pv_Kind : string; pv_PresetID : string; pv_CreatedAt : option Time; pv_Definition : option json;
  pv_CredentialStatus : CredentialStatus }.
Record ProfileDraft := MkDraft {
  pd_SourceProfileID : string; pd_PresetID : string; pd_Definition : option json; pd_Inputs : option json;
  pd_Binding : ProfileCredentialBinding; pd_CredentialStatus : CredentialStatus }.
Record ResolvedProfile := MkResolvedProfile { rv_Draft : ProfileDraft; rv_Connection : ClientConnection; rv_CredentialRevision : Z }.
Record Preset := MkPreset { ps_Name : string; ps_Definition : option json; ps_Inputs : option json; ps_Binding : ProfileCredentialBinding }.
(** A map, as its entries. *)
Definition Catalog : Type := list (string * Preset).

Definition no_binding : ProfileCredentialBinding := MkProfileBinding "" "" "".
Definition no_status : CredentialStatus := MkCredentialStatus false "" "" 0 "".
Definition no_connection : ClientConnection := MkClientConnection "" "" "" "" "" "" [] false None.

Class ProfileEnv := {
  parse_time : string → option Time;
  (** [Format("2006-01-02 15:04Z")] in UTC *)
  stamp_text : Time → string;
  (** [uuid.Parse] with the canonical text *)
  uuid_Parse : string → option string;
  (** the value of a uuid column that a text stands for, as its canonical text *)
  uuid_value : string → option string;
  (** the length of the JSON text of a snapshot *)
  snapshot_len : SaveProfileInput → Z;
}.

(** ** Names and options *)

Definition MaxProfileNameBytes : Z := 1500.
Definition has_byte (n : nat) (s : string) : bool := existsb (fun a => (nat_of_ascii a =? n)%nat) (String.list_ascii_of_string s).
(** [^__.*__$]: a dot matches no line feed. *)
Definition reserved_name (s : string) : bool :=
  match strip_prefix "__" s with
  | None => false
  | Some rest => match strip_prefix "__" (go_string_rev rest) with None => false | Some middle => negb (has_byte 10 middle) end
  end.
Definition validateProfileName (value : string) : res string unit :=
  let? _ := fail_if (String.eqb (TrimSpace value) "") "LLM Profile is required" in
  let? _ := fail_if (has_byte 47 value) ("LLM Profile cannot contain " +:+ String quote_char (String "/" (String quote_char ""))) in
  let? _ := fail_if (String.eqb value "." || String.eqb value "..") "LLM Profile cannot be . or .." in
  let? _ := fail_if (reserved_name value) "LLM Profile cannot match __.*__" in
  fail_if (negb (ValidString value) || (MaxProfileNameBytes <? slen value) || existsb IsControl (runes value))
    "LLM Profile must be valid UTF-8 without control characters and 1,500 UTF-8 bytes or fewer".

(** The words of the pattern, without regard to case. *)
Definition forbiddenDefaultKeys : list string :=
  ["apikey"; "api-key"; "api_key"; "authorization"; "credential"; "encrypted"; "ciphertext"; "authtag"; "secret"; "pricing"; "price"; "cost";
   "metadata"; "model"; "models"; "lastmodelrefreshat"; "endpointcredentialstatus"; "ui"; "uistate"].
Definition forbiddenDefaultKey (key : string) : bool := str_in (fold_case key) forbiddenDefaultKeys.

Fixpoint first_some {A : Type} (l : list (option A)) : option A :=
  match l with [] => None | Some a :: _ => Some a | None :: rest => first_some rest end.

(** The path of the first forbidden key, the keys of an object in their order. *)
Fixpoint forbiddenOptionField (value : json) (path : string) : option string :=
  match value with
  | JObj l =>
      first_some (map snd (sort_entries (map (fun kv =>
        let path := path +:+ "." +:+ kv.1 in
        (kv.1, if forbiddenDefaultKey kv.1 then Some path else forbiddenOptionField kv.2 path)) l)))
  | JArr l =>
      (fix go (index : nat) (l : list json) : option string :=
         match l with
         | [] => None
         | item :: rest =>
             match forbiddenOptionField item (path +:+ "." +:+ pretty index) with Some nested => Some nested | None => go (S index) rest end
         end) O l
  | _ => None
  end.

Definition NormalizeModels (input : list Model) : list Model :=
  map snd (sort_entries (foldl (fun byID m =>
    let id := TrimSpace (md_ID m) in
    if String.eqb id "" then byID
    else let label := TrimSpace (md_Label m) in put byID (id, MkModel id (if String.eqb label "" then id else label))) [] input)).

Definition NativeWebSearchSupported (p : Profile) : bool := default false (pf_SupportsWebSearch p).

(** ** Recovery policies that name profiles *)

Definition float_text (n : string) : option string := x ← ParseFloat n; marshal_float x.

Record referenceRecoveryTarget := MkReference {
  rf_Source : string; rf_ProfileID : string; rf_ModelID : string; rf_ReasoningEffort : string; rf_ProviderOptions : option object; rf_Upstream : string }.
Definition reference_fields : Fields referenceRecoveryTarget :=
  [("source", decode_string (fun v t => t <| rf_Source := v |>)); ("profileId", decode_string (fun v t => t <| rf_ProfileID := v |>));
   ("modelId", decode_string (fun v t => t <| rf_ModelID := v |>)); ("reasoningEffort", decode_string (fun v t => t <| rf_ReasoningEffort := v |>));
   ("providerOptions", fun t j => o ← decode_options Some (rf_ProviderOptions t) j; Some (t <| rf_ProviderOptions := o |>));
   ("upstream", decode_string (fun v t => t <| rf_Upstream := v |>))].

(** [decodeStrict] into a struct: a null leaves it as it is. *)
Definition decode_strict {S : Type} (fields : Fields S) (zero : S) (j : json) : option S :=
  match j with JNull => Some zero | JObj l => decode_struct fields zero l | _ => None end.
Definition decode_reference (j : json) : option referenceRecoveryTarget := decode_strict reference_fields (MkReference "" "" "" "" None "") j.

(** The member of a map under a key, replaced. *)
Definition set_member (key : string) (v : json) (entries : list (string * json)) : list (string * json) :=
  map (fun kv => if String.eqb kv.1 key then (kv.1, v) else kv) entries.

Section Targets.
Context {S : Type} (apply : S → json → string → res service_error (S * json)).

Definition map_leaf (prefix leaf : string) (x : S * list (string * json)) : res service_error (S * list (string * json)) :=
  match field leaf x.2 with
  | None | Some JNull => Ok x
  | Some data => let? y := apply x.1 data (prefix +:+ leaf) in Ok (y.1, set_member leaf y.2 x.2)
  end.
Definition map_plan (s : S) (data : json) (prefix : string) : res service_error (S * json) :=
  match data with
  | JNull => Ok (s, data)
  | JObj plan =>
      let? x := map_leaf prefix "initial" (s, plan) in
      let? x := map_leaf prefix "escalation" x in
      Ok (x.1, JObj (sort_entries x.2))
  | _ => Err (invalid "jsonRepair" "Repair plan must be an object.")
  end.
Definition map_member (key : string) (f : S → json → res service_error (S * json)) (x : S * list (string * json))
  : res service_error (S * list (string * json)) :=
  match field key x.2 with
  | None => Ok x
  | Some data => let? y := f x.1 data in Ok (y.1, set_member key y.2 x.2)
  end.
Definition map_rerun (s : S) (data : json) : res service_error (S * json) :=
  match data with
  | JNull => Ok (s, data)
  | JObj rerun =>
      let? x := map_member "target" (fun s data => apply s data "rerun") (s, rerun) in
      let? x := map_member "jsonRepair" (fun s data => map_plan s data "rerun-repair-") x in
      Ok (x.1, JObj (sort_entries x.2))
  | _ => Err (invalid "rerun" "Rerun must be an object or null.")
  end.
Definition mapRecoveryTargets (s : S) (policy : option json) : res service_error (S * json) :=
  match policy with
  | Some (JObj document) =>
      let? x := map_member "jsonRepair" (fun s data => map_plan s data "repair-") (s, document) in
      let? x := map_member "rerun" map_rerun x in
      Ok (x.1, JObj (sort_entries x.2))
  | _ => Err (invalid "recoveryPolicy" "Recovery policy must be an object.")
  end.
End Targets.

(** The model of a definition, read without the other fields. *)
Definition definition_model (definition : option json) : option string :=
  match definition with
  | Some JNull => Some ""
  | Some (JObj l) => foldl (fun m kv => m ← m; if String.eqb (fold_case kv.1) "modelid" then decode_string (fun v _ => v) m kv.2 else Some m) (Some "") l
  | _ => None
  end.

Definition rewriteTarget (load : string → res service_error ResolvedProfile) (connections : ConnectionCatalog) (data : json) (id : string)
  : res service_error (ConnectionCatalog * json) :=
  match decode_reference data with
  | None => Err (invalid "recoveryTarget" "Recovery target has an unknown field or invalid value.")
  | Some target =>
      if negb (String.eqb (rf_Source target) "profile") then
        if negb (String.eqb (rf_ProfileID target) "") then Err (invalid "recoveryTarget.profileId" "Only profile targets can name profiles.")
        else Ok (connections, data)
      else if negb (String.eqb (rf_Upstream target) "") || negb (is_ok (validateProfileName (rf_ProfileID target)))
      then Err (invalid "recoveryTarget.profileId" "A profile target requires an authorized profile ID.")
      else
        let? resolved := load (rf_ProfileID target) in
        match definition_model (pd_Definition (rv_Draft resolved)) with
        | None => Err (invalid "recoveryTarget.profileId" "Resolved profile definition is invalid.")
        | Some model =>
            let model := if String.eqb (rf_ModelID target) "" then model else rf_ModelID target in
            Ok (put connections (id, (rv_Connection resolved) <| cc_ID := id |>),
                target_json (MkTarget id "model" model (rf_ReasoningEffort target) (rf_ProviderOptions target)))
        end
  end.

Definition resolveRecovery (policy : option json) (generation : ResolvedProfile) (load : string → res service_error ResolvedProfile)
  : res service_error (Policy * ConnectionCatalog) :=
  let? x := mapRecoveryTargets (rewriteTarget load) [("generation", (rv_Connection generation) <| cc_ID := "generation" |>)] policy in
  match policy_UnmarshalJSON float_text (Some x.2) with
  | Err e => Err (ECore e)
  | Ok core => match policy_Validate core with Err e => Err (ECore e) | Ok _ => Ok (core, x.1) end
  end.

Definition definitionForValidation (model : string) : ProfileDraft :=
  MkDraft "" "" (Some (JObj [("modelId", JStr model)])) None no_binding no_status.
Definition validation_profile (model : string) : ResolvedProfile := MkResolvedProfile (definitionForValidation model) no_connection 0.
(** A policy as the checks read it: every profile it names is taken to be there. *)
Definition check_policy (policy : option json) (model : string) : res service_error Policy :=
  let? x := resolveRecovery policy (validation_profile model) (fun _ => Ok (validation_profile "validation-model")) in Ok x.1.

(** ** The definition of a profile *)

Definition DefinitionVersion : Z := 4.
Definition MaxModels : Z := 5000.
Definition MaxModelIDBytes : Z := 512.
Definition MaxModelLabelBytes : Z := 1024.
Definition apiInferenceTypes : list string := ["chat-completions"; "responses"; "gemini-generate-content"; "anthropic-messages"].
Definition reasoningLevels : list string := ["lowest"; "middle"; "highest"].

Definition decode_bool {S : Type} (set : bool → S → S) (s : S) (j : json) : option S :=
  match j with JNull => Some s | JBool v => Some (set v s) | _ => None end.
(** Pointers: a null makes them nil. *)
Definition decode_opt {S A : Type} (read : json → option A) (set : option A → S → S) (s : S) (j : json) : option S :=
  match j with JNull => Some (set None s) | _ => a ← read j; Some (set (Some a) s) end.
Definition read_string (j : json) : option string := match j with JStr v => Some v | _ => None end.
Definition read_bool (j : json) : option bool := match j with JBool v => Some v | _ => None end.
Definition read_float (j : json) : option float64 := match j with JNum n => ParseFloat n | _ => None end.

Definition pricing_fields : Fields Pricing :=
  [("input_cost_per_token", decode_opt read_float (fun v p => p <| price_Input := v |>));
   ("cache_read_input_token_cost", decode_opt read_float (fun v p => p <| price_CacheRead := v |>));
   ("cache_creation_input_token_cost", decode_opt read_float (fun v p => p <| price_CacheCreation := v |>));
   ("output_cost_per_token", decode_opt read_float (fun v p => p <| price_Output := v |>));
   ("output_cost_per_reasoning_token", decode_opt read_float (fun v p => p <| price_Reasoning := v |>))].
Definition read_pricing (j : json) : option Pricing :=
  match j with JObj l => decode_struct pricing_fields (MkPricing None None None None None) l | _ => None end.
Definition model_fields : Fields Model :=
  [("id", decode_string (fun v m => m <| md_ID := v |>)); ("label", decode_string (fun v m => m <| md_Label := v |>))].
Fixpoint decode_models (l : list json) : option (list Model) :=
  match l with [] => Some [] | j :: rest => m ← decode_strict model_fields (MkModel "" "") j; rest ← decode_models rest; Some (m :: rest) end.
Fixpoint decode_efforts (l : list (string * json)) (m : list (string * option object)) : option (list (string * option object)) :=
  match l with
  | [] => Some m
  | (level, j) :: rest => o ← decode_options Some None j; decode_efforts rest (put m (level, o))
  end.

Definition definition_required : list string :=
  ["schemaVersion"; "provider"; "apiInferenceType"; "baseUrl"; "modelId"; "pricing"; "supportsTemperature"; "supportsContractedStructuredOutput";
   "tokensParam"; "responsesTokensParam"; "defaultOptions"; "recoveryPolicy"].

Section Definitions.
Context `{VaultEnv} `{ProfileEnv}.

Definition definition_fields : Fields Profile :=
  [("schemaVersion", decode_int (fun v p => p <| pf_SchemaVersion := v |>));
   ("provider", decode_string (fun v p => p <| pf_Provider := v |>));
   ("apiInferenceType", decode_string (fun v p => p <| pf_APIInferenceType := v |>));
   ("baseUrl", decode_string (fun v p => p <| pf_BaseURL := v |>));
   ("modelId", decode_string (fun v p => p <| pf_ModelID := v |>));
   ("pricing", decode_opt read_pricing (fun v p => p <| pf_Pricing := v |>));
   ("supportsTemperature", decode_opt read_bool (fun v p => p <| pf_SupportsTemperature := v |>));
   ("supportsContractedStructuredOutput", decode_bool (fun v p => p <| pf_SupportsContractedStructuredOutput := v |>));
   ("supportsWebSearch", decode_opt read_bool (fun v p => p <| pf_SupportsWebSearch := v |>));
   ("tokensParam", decode_opt read_string (fun v p => p <| pf_TokensParam := v |>));
   ("responsesTokensParam", decode_opt read_string (fun v p => p <| pf_ResponsesTokensParam := v |>));
   ("defaultOptions", fun p j => o ← decode_options Some (pf_DefaultOptions p) j; Some (p <| pf_DefaultOptions := o |>));
   ("reasoningEffortMap", fun p j =>
      match j with
      | JNull => Some (p <| pf_ReasoningEffortMap := [] |>)
      | JObj l => m ← decode_efforts l (pf_ReasoningEffortMap p); Some (p <| pf_ReasoningEffortMap := m |>)
      | _ => None
      end);
   ("recoveryPolicy", fun p j => Some (p <| pf_RecoveryPolicy := Some j |>));
   ("models", fun p j =>
      match j with
      | JNull => Some (p <| pf_Models := [] |>)
      | JArr l => m ← decode_models l; Some (p <| pf_Models := m |>)
      | _ => None
      end);
   ("lastModelRefreshAt", decode_opt (fun j => match j with JStr v => parse_time v | _ => None end) (fun v p => p <| pf_LastModelRefreshAt := v |>))].

Definition validateBaseURL (value : string) : res string unit :=
  match parse_origin value with
  | None => Err "Base URL must be a valid absolute URL."
  | Some u =>
      let? _ := fail_if (String.eqb (ou_Hostname u) "") "Base URL must be a valid absolute URL." in
      let? _ := fail_if (negb (String.eqb (ToLower (ou_Scheme u)) "https")) "Base URL must use HTTPS." in
      fail_if (ou_User u || negb (String.eqb (ou_RawQuery u) "") || negb (String.eqb (ou_Fragment u) ""))
        "Base URL cannot contain userinfo, query, or fragment."
  end.
Definition validatePricing (p : Pricing) : res string unit :=
  fail_if (negb (forallb (fun rate => match rate with Some r => rate_usable r | None => true end) (rates p)))
    "Pricing rates must be finite and non-negative.".

Definition check_name (value : string) (limit : Z) : bool :=
  negb (String.eqb (TrimSpace value) "") && ValidString value && (slen value <=? limit).
Definition check_token (prefix name : string) (value : option string) : res service_error unit :=
  match value with
  | Some v => fail_if (negb (ValidString v) || (128 <? slen v)) (invalid (prefix +:+ "." +:+ name) (name +:+ " must contain 128 UTF-8 bytes or fewer."))
  | None => Ok tt
  end.
(** [err.Error()] of a check under a field *)
Definition under (field : string) (r : res string unit) : res service_error unit :=
  match r with Ok _ => Ok tt | Err message => Err (invalid field message) end.
Definition under_core (field : string) (r : res goerror unit) : res service_error unit :=
  match r with Ok _ => Ok tt | Err e => Err (invalid field (errorText e)) end.

Fixpoint check_efforts (prefix : string) (efforts : list (string * option object)) : res service_error unit :=
  match efforts with
  | [] => Ok tt
  | (level, options) :: rest =>
      let field := prefix +:+ ".reasoningEffortMap." +:+ level in
      let? _ := under_core field (ValidateProviderOptions (default [] options)) in
      let? _ := fail_if (negb (str_in level reasoningLevels)) (invalid field "reasoningEffortMap may contain only contracted reasoning levels.") in
      let? _ := fail_if (bool_decide (options = None)) (invalid field "reasoning effort options must be a JSON object.") in
      check_efforts prefix rest
  end.
Fixpoint check_models (prefix : string) (index : nat) (seen : list string) (models : list Model) : res service_error unit :=
  match models with
  | [] => Ok tt
  | m :: rest =>
      let field := prefix +:+ ".models[" +:+ pretty index +:+ "]" in
      let? _ := fail_if (negb (check_name (md_ID m) MaxModelIDBytes) || negb (String.eqb (TrimSpace (md_ID m)) (md_ID m)))
                  (invalid (field +:+ ".id") "Model ID must contain 1 to 512 UTF-8 bytes.") in
      let? _ := fail_if (negb (check_name (md_Label m) MaxModelLabelBytes) || negb (String.eqb (TrimSpace (md_Label m)) (md_Label m)))
                  (invalid (field +:+ ".label") "Model label must contain 1 to 1,024 UTF-8 bytes.") in
      let? _ := fail_if (str_in (md_ID m) seen) (invalid (field +:+ ".id") "Model IDs must be unique.") in
      check_models prefix (S index) (md_ID m :: seen) rest
  end.

(** What is decoded is JSON, so that the tests of [json.Marshal] pass. *)
Definition validateProfile (p : Profile) (prefix : string) : res service_error unit :=
  let? _ := fail_if (negb (pf_SchemaVersion p =? DefinitionVersion)) (invalid (prefix +:+ ".schemaVersion") "schemaVersion must be 4.") in
  let? _ := fail_if (negb (check_name (pf_Provider p) 128)) (invalid (prefix +:+ ".provider") "Provider is required.") in
  let? _ := fail_if (negb (str_in (pf_APIInferenceType p) apiInferenceTypes)) (invalid (prefix +:+ ".apiInferenceType") "Unsupported API inference type.") in
  let? _ := fail_if (negb (ValidString (pf_BaseURL p)) || (2048 <? slen (pf_BaseURL p)))
              (invalid (prefix +:+ ".baseUrl") "Base URL must contain 2,048 UTF-8 bytes or fewer.") in
  let? _ := under (prefix +:+ ".baseUrl") (validateBaseURL (pf_BaseURL p)) in
  let? _ := fail_if (negb (check_name (pf_ModelID p) 512)) (invalid (prefix +:+ ".modelId") "Model ID is required.") in
  let? _ := check_token prefix "tokensParam" (pf_TokensParam p) in
  let? _ := check_token prefix "responsesTokensParam" (pf_ResponsesTokensParam p) in
  let? _ := match pf_Pricing p with Some pricing => under (prefix +:+ ".pricing") (validatePricing pricing) | None => Ok tt end in
  match pf_DefaultOptions p with
  | None => Err (invalid (prefix +:+ ".defaultOptions") "defaultOptions must be a JSON object.")
  | Some options =>
      match forbiddenOptionField (JObj options) (prefix +:+ ".defaultOptions") with
      | Some field => Err (invalid field "defaultOptions may contain request defaults only.")
      | None =>
          match check_policy (pf_RecoveryPolicy p) (pf_ModelID p) with
          | Err e => Err (invalid (prefix +:+ ".recoveryPolicy") ("Recovery policy is invalid: " +:+ service_text e))
          | Ok policy =>
              let? _ := check_efforts prefix (pf_ReasoningEffortMap p) in
              let? _ := under_core (prefix +:+ ".defaultOptions") (ValidateProviderOptions options) in
              let? _ := fail_if (MaxModels <? llen (pf_Models p)) (invalid (prefix +:+ ".models") "A profile may contain at most 5000 models.") in
              let? _ := check_models prefix 0 [] (pf_Models p) in
              fail_if (match pf_LastModelRefreshAt p with Some t => IsZero t | None => false end)
                (invalid (prefix +:+ ".lastModelRefreshAt") "Model refresh time must be a valid timestamp.")
          end
      end
  end.

Definition parseDefinition (input : option json) : res service_error Profile :=
  match input with
  | Some (JObj entries) =>
      match List.find (fun name => bool_decide (field name entries = None)) definition_required with
      | Some name => Err (invalid ("definition." +:+ name) "Required field is missing.")
      | None =>
          match decode_struct definition_fields zeroProfile entries with
          | None => Err (invalid "definition" "Definition has an unknown field or invalid type.")
          | Some p =>
              let p := p <| pf_Provider ::= TrimSpace |> <| pf_APIInferenceType ::= TrimSpace |>
                         <| pf_BaseURL ::= fun u => TrimRightSlash (TrimSpace u) |> <| pf_ModelID ::= TrimSpace |> in
              let? _ := validateProfile p "definition" in Ok p
          end
      end
  | _ => Err (invalid "definition" "Definition must be an object.")
  end.
End Definitions.

(** ** The inputs of a request *)

Record profileInputs := MkInputs {
  in_ModelID : string; in_SystemPrompt : string; in_UserPrompt : string; in_CallType : string; in_Schema : option json;
  in_SchemaShorthand : string; in_ReasoningEffort : string; in_ProviderOptions : option object; in_CacheMode : string;
  in_WebSearch : bool; in_CacheVersion : string; in_TimeoutMS : Z; in_RecoveryPolicy : option json; in_Origin : Origin }.
Definition zeroOrigin : Origin := MkOrigin "" "" "" "" "" "" "" "".
Definition zeroInputs : profileInputs := MkInputs "" "" "" "" None "" "" None "" false "" 0 None zeroOrigin.
Definition origin_members : Fields Origin :=
  [("client", decode_string (fun v o => o <| or_Client := v |>)); ("component", decode_string (fun v o => o <| or_Component := v |>));
   ("operationId", decode_string (fun v o => o <| or_OperationID := v |>)); ("parentRunId", decode_string (fun v o => o <| or_ParentRunID := v |>));
   ("jobId", decode_string (fun v o => o <| or_JobID := v |>)); ("testRunId", decode_string (fun v o => o <| or_TestRunID := v |>));
   ("testId", decode_string (fun v o => o <| or_TestID := v |>)); ("sourceRevision", decode_string (fun v o => o <| or_SourceRevision := v |>))].
Definition inputs_fields : Fields profileInputs :=
  [("modelId", decode_string (fun v i => i <| in_ModelID := v |>)); ("systemPrompt", decode_string (fun v i => i <| in_SystemPrompt := v |>));
   ("userPrompt", decode_string (fun v i => i <| in_UserPrompt := v |>)); ("callType", decode_string (fun v i => i <| in_CallType := v |>));
   ("schema", fun i j => Some (i <| in_Schema := Some j |>)); ("schemaShorthand", decode_string (fun v i => i <| in_SchemaShorthand := v |>));
   ("reasoningEffort", decode_string (fun v i => i <| in_ReasoningEffort := v |>));
   ("providerOptions", fun i j => o ← decode_options Some (in_ProviderOptions i) j; Some (i <| in_ProviderOptions := o |>));
   ("cacheMode", decode_string (fun v i => i <| in_CacheMode := v |>)); ("webSearch", decode_bool (fun v i => i <| in_WebSearch := v |>));
   ("cacheVersion", decode_string (fun v i => i <| in_CacheVersion := v |>)); ("timeoutMs", decode_int (fun v i => i <| in_TimeoutMS := v |>));
   ("recoveryPolicy", fun i j => Some (i <| in_RecoveryPolicy := Some j |>));
   ("origin", fun i j => o ← decode_strict origin_members (in_Origin i) j; Some (i <| in_Origin := o |>))].

Definition one_of (value : string) (words : list string) : bool := String.eqb value "" || str_in value words.

Definition validateInputs (input : option json) (definition : Profile) : res service_error unit :=
  let refused := Err (invalid "inputs" "Inputs must be an object with supported fields.") in
  match input with
  | None | Some JNull => refused
  | Some j =>
      match decode_strict inputs_fields zeroInputs j with
      | None => refused
      | Some value =>
          let? _ := fail_if (negb (one_of (in_CallType value) ["text"; "structured"])) (invalid "inputs.callType" "Call type must be text or structured.") in
          let? _ := fail_if ((in_TimeoutMS value <? 0) || (60000 <? in_TimeoutMS value) || (512 <? slen (in_ModelID value)) || (32768 <? slen (in_SystemPrompt value))
                             || (65536 <? slen (in_UserPrompt value)) || (65536 <? slen (in_SchemaShorthand value)) || (64 <? slen (in_CacheVersion value)))
                      (invalid "inputs" "Input field exceeds its bound.") in
          let? _ := fail_if (negb (one_of (in_ReasoningEffort value) reasoningLevels)) (invalid "inputs.reasoningEffort" "Reasoning effort is unsupported.") in
          let? _ := fail_if (negb (one_of (in_CacheMode value) ["off"; "cache"; "refresh"])) (invalid "inputs.cacheMode" "Cache mode is unsupported.") in
          let? _ := fail_if (match in_Schema value with None | Some (JObj _) => false | Some _ => true end) (invalid "inputs.schema" "Schema must be an object.") in
          match forbiddenOptionField (JObj (default [] (in_ProviderOptions value))) "inputs.providerOptions" with
          | Some field => Err (invalid field "Options cannot contain credentials or stored results.")
          | None =>
              let policy := match in_RecoveryPolicy value with Some p => Some p | None => pf_RecoveryPolicy definition end in
              let? _ := check_policy policy (pf_ModelID definition) in
              match ValidateProviderOptions (default [] (in_ProviderOptions value)) with Ok _ => Ok tt | Err e => Err (ECore e) end
          end
      end
  end.

(** ** Snapshots *)

Definition MaxSnapshotBytes : Z := 262144.

(** [validID] of a credential or an upstream *)
Definition valid_binding_id (s : string) : bool :=
  negb (String.eqb s "") && String.eqb (TrimSpace s) s && ValidString s && (slen s <=? 128) && negb (has_break s).
Definition binding_shape (b : ProfileCredentialBinding) : bool :=
  (String.eqb (pb_Source b) "deployment" && valid_binding_id (pb_DeploymentUpstreamID b) && String.eqb (pb_EnteredCredentialID b) "")
  || (String.eqb (pb_Source b) "entered" && valid_binding_id (pb_EnteredCredentialID b) && String.eqb (pb_DeploymentUpstreamID b) "").
Definition optional_name (field value : string) : res service_error unit :=
  if String.eqb value "" then Ok tt
  else match validateProfileName value with Ok _ => Ok tt | Err message => Err (invalid field message) end.

Section Snapshots.
Context `{VaultEnv} `{ProfileEnv}.
(** [json.Marshal] of a definition *)
Variable definition_json : Profile → json.

Definition validateSnapshot (input : SaveProfileInput) : res service_error SaveProfileInput :=
  let? _ := fail_if (MaxSnapshotBytes <? snapshot_len input) (invalid "snapshot" "Snapshot must contain at most 256 KiB of JSON.") in
  let? _ := optional_name "name" (sp_Name input) in
  let? _ := optional_name "presetId" (sp_PresetID input) in
  let? definition := parseDefinition (sp_Definition input) in
  let? _ := validateInputs (sp_Inputs input) definition in
  let? _ := fail_if (match sp_Credential input with Some c => ei_Revision c <? 0 | None => false end)
              (invalid "credential.revision" "Credential revision must be nonnegative.") in
  let binding := sp_Binding input in
  let? _ := fail_if (negb (binding_shape binding)) (invalid "credentialBinding" "Choose exactly one deployment or entered credential binding.") in
  let? _ := fail_if (match sp_Credential input with
                     | Some c => negb (String.eqb (pb_Source binding) "entered")
                                 || (negb (String.eqb (ei_ID c) "") && negb (String.eqb (ei_ID c) (pb_EnteredCredentialID binding)))
                     | None => false
                     end) (invalid "credential" "Credential must match the entered binding.") in
  Ok (input <| sp_Definition := Some (definition_json definition) |>).

Definition remove_dashes (s : string) : string := String.string_of_list_ascii (List.filter (fun a => negb (Ascii.eqb a "-")) (String.list_ascii_of_string s)).
(** the separator of a name, a middle dot between spaces *)
Definition dot_separator : string := String " " (String (byte_of 194) (String (byte_of 183) " ")).
Definition snapshotRecord (hash : string) (input : SaveProfileInput) (now : Time) (id : string) : res service_error ProfileRecord :=
  let? input := validateSnapshot input in
  match uuid_Parse id with
  | None => Err (invalid "snapshot" "Server identity and creation time are required.")
  | Some parsed =>
      let? _ := fail_if (IsZero now) (invalid "snapshot" "Server identity and creation time are required.") in
      let base := if String.eqb (sp_Name input) "" then sp_PresetID input else sp_Name input in
      let? _ := fail_if (String.eqb base "") (invalid "name" "A name or starting template is required.") in
      let name := base +:+ dot_separator +:+ stamp_text now +:+ dot_separator +:+ String.substring 0 6 (remove_dashes parsed) in
      let? _ := under "name" (validateProfileName name) in
      Ok (MkProfileRecord hash parsed name (sp_PresetID input) (sp_Definition input) (sp_Inputs input) (sp_Binding input) now)
  end.

(** The checks of a preset; the schema of a structured one is normalised. *)
Definition validate_preset (normalize : option json → bool) (id : string) (p : Preset) : res service_error unit :=
  let? _ := under "id" (validateProfileName id) in
  let? _ := validateSnapshot (MkSave (ps_Name p) id (ps_Definition p) (ps_Inputs p) (ps_Binding p) None) in
  match ps_Inputs p ≫= decode_strict inputs_fields zeroInputs with
  | None => Err (invalid "inputs" "Preset inputs must be valid JSON.")
  | Some inputs =>
      fail_if (String.eqb (in_CallType inputs) "structured" && negb (normalize (in_Schema inputs)))
        (invalid "inputs.schema" "Preset structured schema is invalid.")
  end.
Fixpoint ValidateCatalog (normalize : option json → bool) (catalog : Catalog) : res service_error unit :=
  match catalog with
  | [] => Ok tt
  | (id, p) :: rest => let? _ := validate_preset normalize id p in ValidateCatalog normalize rest
  end.
End Snapshots.

(** ** Views *)

Definition presetDraft (id : string) (p : Preset) : ProfileDraft :=
  MkDraft id id (ps_Definition p) (ps_Inputs p) (ps_Binding p) (no_status <| cs_Source := pb_Source (ps_Binding p) |>).
Definition profileView (r : ProfileRecord) (status : CredentialStatus) : ProfileView :=
  MkView (pr_ID r) (pr_Name r) "saved" (pr_PresetID r) (Some (pr_CreatedAt r)) (pr_Definition r) status.
Definition recordDraft (r : ProfileRecord) (status : CredentialStatus) : ProfileDraft :=
  MkDraft (pr_ID r) (pr_PresetID r) (pr_Definition r) (pr_Inputs r) (pr_Binding r) status.
Definition presetViews (catalog : Catalog) (hidden : string → bool) : list ProfileView :=
  map (fun kv => MkView kv.1 (ps_Name kv.2) "preset" "" None (ps_Definition kv.2) (no_status <| cs_Source := pb_Source (ps_Binding kv.2) |>))
    (sort_entries (List.filter (fun kv => negb (hidden kv.1)) catalog)).

(** ** The options of a request *)

Definition drop_key (key : string) (options : object) : object := List.filter (fun kv => negb (String.eqb kv.1 key)) options.
(** [max_tokens] under the name that the profile gives it *)
Definition rename_tokens (p : Profile) (options : object) : object :=
  match pf_TokensParam p with
  | Some name =>
      if String.eqb (pf_APIInferenceType p) "chat-completions" && negb (String.eqb name "") && negb (String.eqb name "max_tokens") then
        match field "max_tokens" options with
        | Some value =>
            drop_key "max_tokens" (match field name options with Some _ => options | None => put options (name, value) end)
        | None => options
        end
      else options
  | None => options
  end.
Definition merge_options (p : Profile) (options values : object) : object :=
  foldl (fun options kv => MergeProviderOption (pf_APIInferenceType p) options kv.1 kv.2) options values.

Definition profileOptions (p : Profile) (effort : string) (overrides : option object) : res service_error object :=
  let overrides := default [] overrides in
  let? _ := fail_if (negb (String.eqb effort "") && HasReasoningOption overrides)
              (invalid "providerOptions" "Portable reasoning effort conflicts with native reasoning options.") in
  match (match pf_DefaultOptions p with Some o => decode_members float_text (sort_entries o) [] | None => Some [] end) with
  | None => Err EOther
  | Some options =>
      let options := merge_options p options overrides in
      let? options := (if String.eqb effort "" then Ok options
                       else match List.find (fun kv => String.eqb kv.1 effort) (pf_ReasoningEffortMap p) with
                            | Some (_, mapped) => Ok (merge_options p options (default [] mapped))
                            | None => Err (invalid "reasoningEffort" "The selected profile does not configure this portable reasoning level.")
                            end) in
      let options := if default false (pf_SupportsTemperature p) then options else drop_key "temperature" options in
      Ok (rename_tokens p options)
  end.
