(* ===== verification/ProfileStore.v ===== *)
(** * ProfileStore: the tables of the reference service

    Models [src/stateful]: profile_store.go, bundle.go, draft.go and cache.go over the
    tables of schema.sql: credentials, profiles, hidden presets, drafts and cache entries,
    each under the hash of an access key.  A statement is a function of the tables with
    its constraints, a transaction ends in one of the fates of [Ledger.fate], and an
    operation of several transactions is given the tables that each of them sees.

    The probe of a provider, the identifiers and the clock are arguments.  A bundle is the
    value that its JSON text holds; a column of type jsonb holds the value that was written. *)
From Stdlib Require Import Ascii.
From stdpp Require Import gmap sorting.
From S2P Require Import Prelude Json JsonText Runtime ProviderPayload Client Ledger Base64 Credential Profile.

Open Scope string_scope.
Open Scope list_scope.
Open Scope Z_scope.

(** ** Tables *)

Record credential_row := MkCredentialRow {
  ct_origin : string; ct_key_id : string; ct_nonce : string; ct_ciphertext : string; ct_revision : Z; ct_created_at : Time; ct_updated_at : Time }.
Record draft_row := MkDraftRow { dt_revision : Z; dt_payload : json; dt_updated_at : Time; dt_expires_at : Time }.
Record cache_row := MkCacheRow { ce_schema_version : Z; ce_record : json; ce_expires_at : Time }.
(** The rows under the hash of an access key and a key of their own. *)
Record Tables := MkTables {
  tb_credentials : gmap (string * string) credential_row;
  tb_profiles : gmap (string * string) ProfileRecord;
  tb_hidden : gmap (string * string) Time;
  tb_drafts : gmap (string * string) draft_row;
  tb_cache : gmap (string * (string * string)) cache_row;
}.

Record Service := MkService { sv_Presets : Catalog; sv_Connections : ConnectionCatalog; sv_Vault : option CredentialVault; sv_CacheTTL : Duration }.

(** A statement: an error, or its answer and the tables. *)
Definition Stmt (A : Type) : Type := Tables → res service_error (A * Tables).
#[export] Instance Stmt_ret : MRet Stmt := fun A a t => Ok (a, t).
#[export] Instance Stmt_bind : MBind Stmt := fun A B k m t => match m t with Ok (a, t') => k a t' | Err e => Err e end.
Definition raise {A : Type} (e : service_error) : Stmt A := fun _ => Err e.
Definition query {A : Type} (f : Tables → A) : Stmt A := fun t => Ok (f t, t).
Definition lift {A : Type} (r : res service_error A) : Stmt A := fun t => match r with Ok a => Ok (a, t) | Err e => Err e end.
Definition modify (f : Tables → Tables) : Stmt unit := fun t => Ok (tt, f t).
(** A row that violates a constraint is refused. *)
Definition require (c : bool) : Stmt unit := if c then mret tt else raise EOther.

Definition storageFailure (e : service_error) : service_error :=
  match e with
  | EInvalid _ | EOperation _ _ _ => e
  | _ => EOperation "storage_unavailable" "Reference PostgreSQL operation failed; inspect correlated service diagnostics." None
  end.
Definition withStorageTx {A : Type} (f : fate) (fn : Stmt A) (t : Tables) : Tables * res service_error A :=
  match f with
  | Refused => (t, Err (storageFailure EOther))
  | _ =>
      match fn t with
      | Err e => (t, Err (storageFailure e))
      | Ok (a, t') =>
          match f with
          | Committed => (t', Ok a)
          | AckLost => (t', Err (storageFailure EOther))
          | _ => (t, Err (storageFailure EOther))
          end
      end
  end.

Definition checkScope (hash : string) : res service_error unit :=
  fail_if (negb (validKeyHash hash)) (EOperation "invalid_api_key" "An authenticated access-key scope is required." None).
Definition revisionConflict (revision : Z) : service_error :=
  EOperation "revision_conflict" "The credential or draft revision changed; reload before saving." (Some revision).
Definition credentialInvalid : service_error :=
  EInvalid (MkInvalid "credential_invalid" [MkFieldError "credentialBinding" "Select or provide a credential authorized for this access key and provider origin."]).
Definition profile_not_found : service_error := EOperation "profile_not_found" "Profile was not found for this access key." None.
Definition is_object (j : option json) : bool := match j with Some (JObj _) => true | _ => false end.

(** ** Credentials *)

(** The row as a record, whose bytes are texts. *)
Definition credential_of (hash id : string) (r : credential_row) : CredentialRecord :=
  MkCredential (MkBinding hash id (ct_origin r))
    (MkEncrypted 1 "AES-256-GCM" (ct_key_id r) (RawURLEncode (ct_nonce r)) (RawURLEncode (ct_ciphertext r))) (ct_revision r) (ct_created_at r) (ct_updated_at r).
Definition read_credential (hash id : string) (t : Tables) : option CredentialRecord := credential_of hash id <$> tb_credentials t !! (hash, id).

Definition credential_checks (hash : string) (r : credential_row) : bool :=
  validKeyHash hash && String.eqb (ct_key_id r) "primary" && (slen (ct_nonce r) =? 12) && (0 <? ct_revision r).
Definition put_credential (hash id : string) (r : credential_row) : Stmt unit :=
  _ ← require (credential_checks hash r); modify (fun t => t <| tb_credentials ::= <[(hash, id) := r]> |>).

Definition revision_of (hash id : string) (t : Tables) : Z := default 0 (ct_revision <$> tb_credentials t !! (hash, id)).
(** The bytes of a record that is about to be stored. *)
Definition encrypted_bytes (e : EncryptedCredential) : res service_error (string * string) :=
  match RawURLDecode (ec_Nonce e), RawURLDecode (ec_Ciphertext e) with
  | Some nonce, Some ciphertext => Ok (nonce, ciphertext)
  | _, _ => Err credentialInvalid
  end.
Definition insertCredentialTx (record : CredentialRecord) (now : Time) : Stmt unit :=
  let hash := cb_APIKeyHash (cr_Binding record) in
  let id := cb_CredentialID (cr_Binding record) in
  '(nonce, ciphertext) ← lift (encrypted_bytes (cr_Encrypted record));
  old ← query (fun t => tb_credentials t !! (hash, id));
  match old with
  | Some old => raise (revisionConflict (ct_revision old))
  | None => put_credential hash id (MkCredentialRow (cb_Origin (cr_Binding record)) (ec_KeyID (cr_Encrypted record)) nonce ciphertext (cr_Revision record) now now)
  end.
Definition saveCredentialTx (record : CredentialRecord) (expected : Z) (now : Time) : Stmt unit :=
  if expected =? 0 then insertCredentialTx record now
  else
    let hash := cb_APIKeyHash (cr_Binding record) in
    let id := cb_CredentialID (cr_Binding record) in
    '(nonce, ciphertext) ← lift (encrypted_bytes (cr_Encrypted record));
    old ← query (fun t => tb_credentials t !! (hash, id));
    match old with
    | Some old =>
        if ct_revision old =? expected then
          put_credential hash id (MkCredentialRow (cb_Origin (cr_Binding record)) (ec_KeyID (cr_Encrypted record)) nonce ciphertext
                                    (ct_revision old + 1) (ct_created_at old) now)
        else raise (revisionConflict (ct_revision old))
    | None => raise (revisionConflict 0)
    end.

(** ** Profiles *)

Section Profiles.
Context `{VaultEnv} `{ProfileEnv}.
Variable definition_json : Profile → json.
Variable s : Service.

Definition bindingStatus (binding : ProfileCredentialBinding) (revision : Z) : CredentialStatus :=
  let deployment := String.eqb (pb_Source binding) "deployment" in
  let id := if deployment then pb_DeploymentUpstreamID binding else pb_EnteredCredentialID binding in
  let configured := if deployment then match catalog_lookup id (sv_Connections s) with Some c => negb (String.eqb (cc_APIKey c) "") | None => false end
                    else (0 <? revision) && bool_decide (is_Some (sv_Vault s)) in
  MkCredentialStatus configured (pb_Source binding) id revision
    (if configured then "" else "Select or supply an explicitly configured provider credential.").

Definition find_preset (id : string) : option Preset := snd <$> List.find (fun kv => String.eqb kv.1 id) (sv_Presets s).
(** [COALESCE(c.revision,0)] of the join *)
Definition joined_revision (hash : string) (b : ProfileCredentialBinding) (t : Tables) : Z :=
  if String.eqb (pb_EnteredCredentialID b) "" then 0 else revision_of hash (pb_EnteredCredentialID b) t.

(** The profiles of a key, the newest first. *)
Definition newer (a b : ProfileRecord) : Prop :=
  pr_CreatedAt b < pr_CreatedAt a ∨ (pr_CreatedAt a = pr_CreatedAt b ∧ string_ltb (pr_ID a) (pr_ID b) = false).
#[local] Instance newer_dec : RelDecision newer.
Proof. intros a b. unfold newer. apply _. Defined.
Definition profiles_of (hash : string) (t : Tables) : list ProfileRecord :=
  merge_sort newer (map snd (List.filter (fun kv => String.eqb kv.1.1 hash) (map_to_list (tb_profiles t)))).

Definition list_profiles (hash : string) (t : Tables) : list ProfileView :=
  map (fun v => v <| pv_CredentialStatus := match find_preset (pv_ID v) with Some p => bindingStatus (ps_Binding p) 0 | None => bindingStatus no_binding 0 end |>)
    (presetViews (sv_Presets s) (fun id => bool_decide (is_Some (tb_hidden t !! (hash, id)))))
  ++ map (fun r => profileView r (bindingStatus (pr_Binding r) (joined_revision hash (pr_Binding r) t))) (profiles_of hash t).

(** An argument of a uuid column; a text that the driver cannot read fails the statement. *)
Definition uuid_argument (id : string) : Stmt string := match uuid_value id with Some u => mret u | None => raise EOther end.
Definition profileDraftTx (hash id : string) : Stmt ProfileDraft :=
  match find_preset id with
  | Some p =>
      hidden ← query (fun t => bool_decide (is_Some (tb_hidden t !! (hash, id))));
      if (hidden : bool) then raise (EOperation "preset_not_found" "Starting template is not available for this access key." None)
      else mret ((presetDraft id p) <| pd_CredentialStatus := bindingStatus (ps_Binding p) 0 |>)
  | None =>
      match uuid_Parse id with
      | None => raise profile_not_found
      | Some _ =>
          id ← uuid_argument id;
          row ← query (fun t => tb_profiles t !! (hash, id));
          match row with
          | None => raise profile_not_found
          | Some r => revision ← query (joined_revision hash (pr_Binding r)); mret (recordDraft r (bindingStatus (pr_Binding r) revision))
          end
      end
  end.

Definition originForURL (value : string) : res string string :=
  match parse_origin value with None => Err "parse" | Some u => normalizeOrigin (ou_Scheme u +:+ "://" +:+ ou_Host u) end.

Definition openRecord (record : CredentialRecord) (binding : CredentialBinding) : res service_error CredentialPayload :=
  match Open (sv_Vault s) (cr_Encrypted record) binding with
  | Ok payload => Ok payload
  | Err _ => Err (EInvalid (MkInvalid "credential_invalid" [MkFieldError "credential" "Entered credential cannot be authenticated for this binding."]))
  end.

Definition base_connection (d : Profile) : ClientConnection :=
  MkClientConnection "generation" (pf_Provider d) (pf_APIInferenceType d) (pf_BaseURL d) "" "" [] (NativeWebSearchSupported d) (pf_Pricing d).
(** The connection of a draft with its key, and the revision of the credential. *)
Definition bound_connection (hash : string) (binding : ProfileCredentialBinding) (candidate : option CredentialRecord) (d : Profile) (origin : string)
  : res service_error (ClientConnection * Z) :=
  if String.eqb (pb_Source binding) "deployment" then
    match catalog_lookup (pb_DeploymentUpstreamID binding) (sv_Connections s) with
    | None => Err credentialInvalid
    | Some loaded =>
        if String.eqb (cc_APIKey loaded) "" then Err credentialInvalid
        else match originForURL (cc_BaseURL loaded) with
             | Ok loadedOrigin =>
                 if String.eqb origin loadedOrigin
                 then Ok ((base_connection d) <| cc_APIKey := cc_APIKey loaded |> <| cc_Headers := cc_Headers loaded |> <| cc_CacheDomain := cc_CacheDomain loaded |>, 0)
                 else Err credentialInvalid
             | Err _ => Err credentialInvalid
             end
    end
  else if String.eqb (pb_Source binding) "entered" then
    let bound := MkBinding hash (pb_EnteredCredentialID binding) origin in
    match candidate with
    | None => Err credentialInvalid
    | Some record =>
        if negb (bool_decide (cr_Binding record = bound)) then Err credentialInvalid
        else let? payload := openRecord record bound in
             Ok ((base_connection d) <| cc_APIKey := cy_APIKey payload |> <| cc_Headers := map_to_list (cy_Headers payload) |>, cr_Revision record)
    end
  else Err credentialInvalid.

(** [candidate] is the credential of a draft that is not stored yet. *)
Definition resolveDraft (hash : string) (draft : ProfileDraft) (candidate : option CredentialRecord) (t : Tables) : res service_error ResolvedProfile :=
  let? definition := parseDefinition (pd_Definition draft) in
  match originForURL (pf_BaseURL definition) with
  | Err _ => Err credentialInvalid
  | Ok origin =>
      let candidate := match candidate with Some c => Some c | None => read_credential hash (pb_EnteredCredentialID (pd_Binding draft)) t end in
      let? x := bound_connection hash (pd_Binding draft) candidate definition origin in
      Ok (MkResolvedProfile (draft <| pd_CredentialStatus := bindingStatus (pd_Binding draft) x.2 |>) x.1 x.2)
  end.

Definition ListProfiles (f : fate) (hash : string) (t : Tables) : res service_error (list ProfileView) :=
  let? _ := checkScope hash in (withStorageTx f (query (list_profiles hash)) t).2.
Definition GetProfile (f : fate) (hash id : string) (t : Tables) : res service_error ProfileDraft :=
  let? _ := checkScope hash in (withStorageTx f (profileDraftTx hash id) t).2.
Definition ResolveProfile (f : fate) (hash id : string) (t : Tables) : res service_error ResolvedProfile :=
  let? _ := checkScope hash in
  (withStorageTx f (draft ← profileDraftTx hash id; t' ← query (fun t => t); lift (resolveDraft hash draft None t')) t).2.

(** [FOREIGN KEY (api_key_hash, entered_credential_id)] and the checks of the table. *)
Definition profile_checks (r : ProfileRecord) (t : Tables) : bool :=
  let b := pr_Binding r in
  let set id := negb (String.eqb id "") in
  validKeyHash (pr_APIKeyHash r) && is_object (pr_Definition r) && is_object (pr_Inputs r)
  && ((String.eqb (pb_Source b) "deployment" && set (pb_DeploymentUpstreamID b) && negb (set (pb_EnteredCredentialID b)))
      || (String.eqb (pb_Source b) "entered" && set (pb_EnteredCredentialID b) && negb (set (pb_DeploymentUpstreamID b))))
  && (negb (set (pb_EnteredCredentialID b)) || bool_decide (is_Some (tb_credentials t !! (pr_APIKeyHash r, pb_EnteredCredentialID b)))).
(** The identifier of a row is a UUID, whatever its text was. *)
Definition insertProfileTx (r : ProfileRecord) : Stmt unit :=
  id ← uuid_argument (pr_ID r);
  let r := r <| pr_ID := id |> in
  ok ← query (fun t => profile_checks r t && bool_decide (tb_profiles t !! (pr_APIKeyHash r, pr_ID r) = None));
  _ ← require ok;
  modify (fun t => t <| tb_profiles ::= <[(pr_APIKeyHash r, pr_ID r) := r]> |>).

(** What a call is given by its environment: the fates of its transactions, the tables
    that the first of them reads, the random bytes, the answer of the probe, the identifier
    and the time. *)
Record circumstances := MkCircumstances {
  ci_read : fate; ci_seen : Tables; ci_random : string; ci_probe : ResolvedProfile → res service_error unit; ci_id : option string; ci_now : Time; ci_write : fate }.

Definition sealed_candidate (hash : string) (random : string) (input : SaveProfileInput) : res service_error (option CredentialRecord) :=
  match sp_Credential input with
  | None => Ok None
  | Some c =>
      match sv_Vault s with
      | None => Err (EOperation "reference_configuration_error" "Entered credential encryption is not configured." None)
      | Some vault =>
          match normalizeOrigin (ei_Origin c) with
          | Err _ => Err credentialInvalid
          | Ok origin =>
              let binding := MkBinding hash (pb_EnteredCredentialID (sp_Binding input)) origin in
              match Seal (Some vault) (ei_Payload c) binding random with
              | Err _ => Err credentialInvalid
              | Ok encrypted => Ok (Some (MkCredential binding encrypted (ei_Revision c + 1) time_zero time_zero))
              end
          end
      end
  end.
Definition save_read (hash : string) (input : SaveProfileInput) (candidate : option CredentialRecord) : Stmt ResolvedProfile :=
  t ← query (fun t => t);
  _ ← match sp_Credential input with
      | Some c => let revision := revision_of hash (pb_EnteredCredentialID (sp_Binding input)) t in
                  if revision =? ei_Revision c then mret tt else raise (revisionConflict revision)
      | None => mret tt
      end;
  lift (resolveDraft hash (MkDraft "" "" (sp_Definition input) (sp_Inputs input) (sp_Binding input) no_status) candidate t).
Definition save_write (input : SaveProfileInput) (candidate : option CredentialRecord) (record : ProfileRecord) (now : Time) : Stmt unit :=
  _ ← match candidate, sp_Credential input with
      | Some c, Some entered => saveCredentialTx c (ei_Revision entered) now
      | _, _ => mret tt
      end;
  insertProfileTx record.

Definition SaveProfile (c : circumstances) (hash : string) (input : SaveProfileInput) (t : Tables) : Tables * res service_error ProfileView :=
  let checked :=
    let? _ := checkScope hash in
    let? input := validateSnapshot definition_json input in
    let? candidate := sealed_candidate hash (ci_random c) input in
    let? resolved := (withStorageTx (ci_read c) (save_read hash input candidate) (ci_seen c)).2 in
    let? _ := ci_probe c resolved in
    match ci_id c with
    | None => Err (EOperation "profile_invalid" "Cannot allocate saved profile identity." None)
    | Some id => let? record := snapshotRecord definition_json hash input (ci_now c) id in Ok (input, candidate, resolved, record)
    end in
  match checked with
  | Err e => (t, Err e)
  | Ok (input, candidate, resolved, record) =>
      let '(t', answer) := withStorageTx (ci_write c) (save_write input candidate record (ci_now c)) t in
      (t', let? _ := answer in Ok (profileView record (pd_CredentialStatus (rv_Draft resolved))))
  end.

Definition DeleteProfile (f : fate) (now : Time) (hash id : string) (t : Tables) : Tables * res service_error unit :=
  match checkScope hash with
  | Err e => (t, Err e)
  | Ok _ =>
      withStorageTx f (
        match find_preset id with
        | Some _ => modify (fun t => if bool_decide (is_Some (tb_hidden t !! (hash, id))) then t else t <| tb_hidden ::= <[(hash, id) := now]> |>)
        | None =>
            match uuid_Parse id with
            | None => raise profile_not_found
            | Some _ =>
                id ← uuid_argument id;
                row ← query (fun t => tb_profiles t !! (hash, id));
                match row with None => raise profile_not_found | Some _ => modify (fun t => t <| tb_profiles ::= delete (hash, id) |>) end
            end
        end) t
  end.
End Profiles.

(** ** Bundles *)

Record BundleProfile := MkBundleProfile { bp_Profile : ProfileView; bp_Inputs : option json; bp_Binding : ProfileCredentialBinding }.
Record BundleCredential := MkBundleCredential {
  bc_ID : string; bc_Origin : string; bc_KeyID : string; bc_Nonce : string; bc_Ciphertext : string; bc_Revision : Z }.
Record ProfileBundle := MkBundle {
  bn_SchemaVersion : Z; bn_BundleID : string; bn_CreatedAt : Time; bn_APIKeyHash : string; bn_Profiles : option (list BundleProfile);
  bn_HiddenPresets : option (list string); bn_Credentials : option (list BundleCredential) }.

Definition bundleInvalid : service_error :=
  invalid "bundle" "Use a current-format bundle for this access key and encryption key with complete valid bindings.".

(** The rows of a hash under their keys, in the order of the keys. *)
Definition rows_of {A : Type} (hash : string) (m : gmap (string * string) A) : list (string * A) :=
  sort_entries (map (fun kv => (kv.1.2, kv.2)) (List.filter (fun kv => String.eqb kv.1.1 hash) (map_to_list m))).

Definition bundled_credential (id : string) (r : credential_row) : BundleCredential :=
  MkBundleCredential id (ct_origin r) (ct_key_id r) (StdEncode (ct_nonce r)) (StdEncode (ct_ciphertext r)) (ct_revision r).

Section Bundles.
Context `{VaultEnv} `{ProfileEnv}.
Variable definition_json : Profile → json.
(** the length of the JSON text of a bundle *)
Variable bundle_len : ProfileBundle → Z.
Variable s : Service.
Definition maxBundleBytes : Z := 2097152.

(** The views of the saved profiles, each with the draft that is read for it. *)
Fixpoint bundle_profiles (hash : string) (views : list ProfileView) : Stmt (list BundleProfile) :=
  match views with
  | [] => mret []
  | view :: rest =>
      if negb (String.eqb (pv_Kind view) "saved") then bundle_profiles hash rest
      else
        draft ← profileDraftTx s hash (pv_ID view);
        more ← bundle_profiles hash rest;
        mret (MkBundleProfile view (pd_Inputs draft) (pd_Binding draft) :: more)
  end.
Definition export_tx (hash id : string) (now : Time) : Stmt ProfileBundle :=
  views ← query (list_profiles s hash);
  profiles ← bundle_profiles hash views;
  hidden ← query (fun t => map fst (rows_of hash (tb_hidden t)));
  credentials ← query (fun t => map (fun kv => bundled_credential kv.1 kv.2) (rows_of hash (tb_credentials t)));
  mret (MkBundle 4 id now hash (Some profiles) (Some hidden) (Some credentials)).
Definition ExportBundle (f : fate) (hash : string) (id : option string) (now : Time) (t : Tables) : res service_error ProfileBundle :=
  let? _ := checkScope hash in
  match id with
  | None => Err (EOperation "profile_invalid" "Cannot allocate bundle identity." None)
  | Some id =>
      let? bundle := (withStorageTx f (export_tx hash id now) t).2 in
      let? _ := fail_if (maxBundleBytes <? bundle_len bundle) bundleInvalid in
      Ok bundle
  end.

(** Bytes whose text is the canonical one. *)
Definition canonical_bytes (text : string) (ok : string → bool) : res service_error string :=
  match StdDecode text with
  | Some bytes => if negb (String.eqb (StdEncode bytes) text) || negb (ok bytes) then Err bundleInvalid else Ok bytes
  | None => Err bundleInvalid
  end.
Definition bundleCredentialRecord (hash : string) (c : BundleCredential) (now : Time) : res service_error CredentialRecord :=
  let? nonce := canonical_bytes (bc_Nonce c) (fun b => slen b =? 12) in
  let? ciphertext := canonical_bytes (bc_Ciphertext c) (fun b => negb (slen b <? 16)) in
  let? _ := fail_if (negb (String.eqb (bc_KeyID c) "primary") || (bc_Revision c <=? 0)) bundleInvalid in
  match normalizeCredentialBinding (MkBinding hash (bc_ID c) (bc_Origin c)) with
  | Err _ => Err bundleInvalid
  | Ok binding => Ok (MkCredential binding (MkEncrypted 1 "AES-256-GCM" "primary" (RawURLEncode nonce) (RawURLEncode ciphertext)) (bc_Revision c) now now)
  end.

Fixpoint read_credentials (hash : string) (now : Time) (known : list (string * CredentialRecord)) (l : list BundleCredential)
  : res service_error (list (string * CredentialRecord)) :=
  match l with
  | [] => Ok known
  | c :: rest =>
      let? r := bundleCredentialRecord hash c now in
      let? _ := fail_if (str_in (bc_ID c) (map fst known)) bundleInvalid in
      match sv_Vault s with
      | None => Err (EOperation "reference_configuration_error" "Entered credential encryption is not configured." None)
      | Some vault =>
          match Open (Some vault) (cr_Encrypted r) (cr_Binding r) with
          | Err _ => Err bundleInvalid
          | Ok _ => read_credentials hash now (known ++ [(bc_ID c, r)]) rest
          end
      end
  end.

(** One profile of a bundle, with the credential that the bundle has for it. *)
Definition read_profile (hash : string) (credentials : list (string * CredentialRecord)) (ids : list string) (entry : BundleProfile)
  : res service_error (ResolvedProfile * ProfileRecord) :=
  let v := bp_Profile entry in
  match uuid_Parse (pv_ID v), pv_CreatedAt v with
  | Some _, Some created =>
      let? _ := fail_if (str_in (pv_ID v) ids || negb (String.eqb (pv_Kind v) "saved") || IsZero created) bundleInvalid in
      match validateSnapshot definition_json (MkSave (pv_Name v) (pv_PresetID v) (pv_Definition v) (bp_Inputs entry) (bp_Binding entry) None) with
      | Err _ => Err bundleInvalid
      | Ok input =>
          let entered := String.eqb (pb_Source (bp_Binding entry)) "entered" in
          let candidate := if entered then snd <$> List.find (fun kv => String.eqb kv.1 (pb_EnteredCredentialID (bp_Binding entry))) credentials else None in
          let? _ := fail_if (entered && bool_decide (candidate = None)) bundleInvalid in
          match resolveDraft s hash (MkDraft "" "" (sp_Definition input) (sp_Inputs input) (sp_Binding input) no_status) candidate (MkTables ∅ ∅ ∅ ∅ ∅) with
          | Err _ => Err bundleInvalid
          | Ok r => Ok (r, MkProfileRecord hash (pv_ID v) (pv_Name v) (pv_PresetID v) (sp_Definition input) (sp_Inputs input) (sp_Binding input) created)
          end
      end
  | _, _ => Err bundleInvalid
  end.
Fixpoint read_profiles (hash : string) (credentials : list (string * CredentialRecord)) (ids : list string) (l : list BundleProfile)
  : res service_error (list (ResolvedProfile * ProfileRecord)) :=
  match l with
  | [] => Ok []
  | entry :: rest =>
      let? x := read_profile hash credentials ids entry in
      let? more := read_profiles hash credentials (pv_ID (bp_Profile entry) :: ids) rest in
      Ok (x :: more)
  end.
Fixpoint check_hidden (seen l : list string) : res service_error unit :=
  match l with
  | [] => Ok tt
  | id :: rest => let? _ := fail_if (str_in id seen || negb (is_ok (validateProfileName id))) bundleInvalid in check_hidden (id :: seen) rest
  end.
Fixpoint probe_all (probe : ResolvedProfile → res service_error unit) (l : list ResolvedProfile) : res service_error unit :=
  match l with [] => Ok tt | r :: rest => let? _ := probe r in probe_all probe rest end.

Definition keep_others {A : Type} (hash : string) : gmap (string * string) A → gmap (string * string) A := filter (fun kv => kv.1.1 ≠ hash).
(** [DELETE FROM ... WHERE api_key_hash=$1] on the three tables *)
Definition clear_tables (hash : string) (t : Tables) : Tables :=
  t <| tb_profiles ::= keep_others hash |> <| tb_hidden ::= keep_others hash |> <| tb_credentials ::= keep_others hash |>.
Definition hide_preset (hash : string) (now : Time) (id : string) : Stmt unit :=
  fresh ← query (fun t => bool_decide (tb_hidden t !! (hash, id) = None));
  _ ← require fresh; modify (fun t => t <| tb_hidden ::= <[(hash, id) := now]> |>).
Fixpoint each_row {A : Type} (insert : A → Stmt unit) (l : list A) : Stmt unit :=
  match l with [] => mret tt | a :: rest => _ ← insert a; each_row insert rest end.
Definition replace_tx (hash : string) (now : Time) (credentials : list CredentialRecord) (records : list ProfileRecord) (hidden : list string) : Stmt unit :=
  _ ← modify (clear_tables hash);
  _ ← each_row (fun r => insertCredentialTx r now) credentials;
  _ ← each_row insertProfileTx records;
  each_row (hide_preset hash now) hidden.

Definition ReplaceBundle (f : fate) (now : Time) (probe : ResolvedProfile → res service_error unit) (hash : string) (bundle : ProfileBundle) (t : Tables)
  : Tables * res service_error unit :=
  let checked :=
    let? _ := checkScope hash in
    let? _ := fail_if ((maxBundleBytes <? bundle_len bundle) || negb (bn_SchemaVersion bundle =? 4) || negb (String.eqb (bn_APIKeyHash bundle) hash)
                       || IsZero (bn_CreatedAt bundle) || bool_decide (bn_Profiles bundle = None) || bool_decide (bn_HiddenPresets bundle = None)
                       || bool_decide (bn_Credentials bundle = None)) bundleInvalid in
    let? _ := fail_if (bool_decide (uuid_Parse (bn_BundleID bundle) = None)) bundleInvalid in
    let? credentials := read_credentials hash now [] (default [] (bn_Credentials bundle)) in
    let? profiles := read_profiles hash credentials [] (default [] (bn_Profiles bundle)) in
    let? _ := check_hidden [] (default [] (bn_HiddenPresets bundle)) in
    let? _ := probe_all probe (map fst profiles) in
    Ok (credentials, profiles) in
  match checked with
  | Err e => (t, Err e)
  | Ok (credentials, profiles) => withStorageTx f (replace_tx hash now (map snd credentials) (map snd profiles) (default [] (bn_HiddenPresets bundle))) t
  end.
End Bundles.

(** ** Drafts *)

Definition draftLifetime : Duration := 7 * 24 * Hour.
Record Draft := MkSavedDraft { df_DraftKey : string; df_Revision : Z; df_Payload : json }.
Record SaveDraftInput := MkDraftInput { di_Revision : Z; di_Payload : option json; di_Length : Z }.

(** The words of the pattern; any text may stand before an api key. *)
Definition scopeOrSecretWords : list string :=
  ["authorization"; "password"; "secret"; "token"; "credential"; "credentials"; "sessionreference"; "session"; "owner"; "ownerid"; "userid";
   "apikeyhash"; "result"; "output"].
Definition persistedScopeOrSecret (key : string) : bool :=
  let folded := fold_case key in
  str_in folded scopeOrSecretWords
  || existsb (fun ending => match strip_prefix (go_string_rev ending) (go_string_rev folded) with Some before => negb (has_byte 10 before) | None => false end)
       ["apikey"; "api-key"; "api_key"].
Fixpoint unsafePersistedField (value : json) : bool :=
  match value with
  | JObj l => existsb (fun kv => persistedScopeOrSecret kv.1 || (negb (String.eqb kv.1 "schema") && unsafePersistedField kv.2)) l
  | JArr l => existsb unsafePersistedField l
  | _ => false
  end.
Definition draft_invalid (message : string) : service_error := EOperation "draft_invalid" message None.
Definition validateDraftKey (key : string) : res service_error unit :=
  fail_if (String.eqb key "" || negb (String.eqb (TrimSpace key) key) || (128 <? slen key) || negb (ProviderNormalize.ValidString key) || has_break key)
    (draft_invalid "Draft key must contain 1 to 128 UTF-8 bytes.").
Definition validateDraft (input : SaveDraftInput) : res service_error unit :=
  let? _ := fail_if ((di_Revision input <? 0) || (MaxSnapshotBytes <? di_Length input))
              (draft_invalid "Draft revision must be nonnegative and payload at most 256 KiB.") in
  fail_if (negb (is_object (di_Payload input)) || unsafePersistedField (default JNull (di_Payload input)))
    (draft_invalid "Draft must be an object without scope selectors, credentials or results.").

Definition live_draft (now : Time) (r : draft_row) : bool := now <? dt_expires_at r.
(** The revision of a draft that is there, 0 when there is none. *)
Definition draft_revision (now : Time) (hash key : string) (t : Tables) : Z :=
  match tb_drafts t !! (hash, key) with Some r => if live_draft now r then dt_revision r else 0 | None => 0 end.

(** [ORDER BY expires_at,draft_key LIMIT 100] *)
Definition sooner (a b : (string * string) * draft_row) : Prop :=
  dt_expires_at a.2 < dt_expires_at b.2 ∨ (dt_expires_at a.2 = dt_expires_at b.2 ∧ string_ltb b.1.2 a.1.2 = false).
#[export] Instance sooner_dec : RelDecision sooner.
Proof. intros a b. unfold sooner. apply _. Defined.
Definition expired_drafts (now : Time) (hash : string) (t : Tables) : list (string * string) :=
  map fst (take 100 (merge_sort sooner (List.filter (fun kv => String.eqb kv.1.1 hash && negb (live_draft now kv.2)) (map_to_list (tb_drafts t))))).
Definition purge_drafts (now : Time) (hash : string) (t : Tables) : Tables :=
  t <| tb_drafts := foldl (fun m k => delete k m) (tb_drafts t) (expired_drafts now hash t) |>.

(** The insertion, with its condition, and the update it turns into. *)
Definition upsert_draft (now : Time) (hash key : string) (revision : Z) (payload : json) (t : Tables) : option (Z * Tables) :=
  let store n := Some (n, t <| tb_drafts ::= <[(hash, key) := MkDraftRow n payload now (Add now draftLifetime)]> |>) in
  let old := tb_drafts t !! (hash, key) in
  let selected := (revision =? 0) || match old with Some r => (dt_revision r =? revision) && live_draft now r | None => false end in
  if negb selected then None
  else match old with
       | None => store (revision + 1)
       | Some r =>
           if ((revision =? 0) && negb (live_draft now r)) || ((0 <? revision) && (dt_revision r =? revision) && live_draft now r)
           then store (if live_draft now r then dt_revision r + 1 else 1)
           else None
       end.
Definition stored_draft (now : Time) (hash key : string) (revision : Z) (payload : json) : Stmt Z := fun t =>
  match upsert_draft now hash key revision payload t with
  | Some (n, t') => Ok (n, t')
  | None => Err (revisionConflict (draft_revision now hash key t))
  end.
Definition save_draft_tx (now : Time) (hash key : string) (revision : Z) (payload : json) : Stmt Z :=
  _ ← modify (purge_drafts now hash); stored_draft now hash key revision payload.
Definition GetDraft (f : fate) (now : Time) (hash key : string) (t : Tables) : res service_error Draft :=
  let? _ := checkScope hash in
  let? _ := validateDraftKey key in
  (withStorageTx f (query (fun t =>
    match tb_drafts t !! (hash, key) with
    | Some r => if live_draft now r then MkSavedDraft key (dt_revision r) (dt_payload r) else MkSavedDraft key 0 (JObj [])
    | None => MkSavedDraft key 0 (JObj [])
    end)) t).2.
Definition SaveDraft (f : fate) (now : Time) (hash key : string) (input : SaveDraftInput) (t : Tables) : Tables * res service_error Draft :=
  match (let? _ := checkScope hash in let? _ := validateDraftKey key in validateDraft input) with
  | Err e => (t, Err e)
  | Ok _ =>
      let payload := default JNull (di_Payload input) in
      let '(t', answer) := withStorageTx f (save_draft_tx now hash key (di_Revision input) payload) t in
      (t', let? revision := answer in Ok (MkSavedDraft key revision payload))
  end.

(** ** The cache *)

Record PostgresCache := MkPostgresCache { pc_hash : string; pc_namespace : string; pc_ttl : Duration }.
Definition live_entry (now : Time) (r : cache_row) : bool := now <? ce_expires_at r.
Definition cache_sooner (a b : (string * (string * string)) * cache_row) : Prop :=
  ce_expires_at a.2 < ce_expires_at b.2
  ∨ (ce_expires_at a.2 = ce_expires_at b.2 ∧ (string_ltb a.1.2.1 b.1.2.1 = true ∨ (a.1.2.1 = b.1.2.1 ∧ string_ltb b.1.2.2 a.1.2.2 = false))).
#[export] Instance cache_sooner_dec : RelDecision cache_sooner.
Proof. intros a b. unfold cache_sooner. apply _. Defined.
Definition purge_cache (now : Time) (hash : string) (t : Tables) : Tables :=
  let old := map fst (take 100 (merge_sort cache_sooner (List.filter (fun kv => String.eqb kv.1.1 hash && negb (live_entry now kv.2)) (map_to_list (tb_cache t))))) in
  t <| tb_cache := foldl (fun m k => delete k m) (tb_cache t) old |>.

(** [decode] is the reader of the record's JSON. *)
Definition cache_Get {A : Type} (decode : json → option A) (c : PostgresCache) (f : fate) (now : Time) (key : string) (t : Tables) : res service_error (option A) :=
  match f with
  | Committed =>
      match tb_cache t !! (pc_hash c, (pc_namespace c, key)) with
      | Some r =>
          if live_entry now r then
            match decode (ce_record r) with
            | Some record => Ok (Some record)
            | None => Err (EOperation "cache_record_invalid" "Stored cache envelope cannot be decoded." None)
            end
          else Ok None
      | None => Ok None
      end
  | _ => Err (storageFailure EOther)
  end.
Definition cache_Set (c : PostgresCache) (f : fate) (now : Time) (key : string) (version : Z) (record : json) (t : Tables) : Tables * res service_error unit :=
  withStorageTx f (
    _ ← modify (purge_cache now (pc_hash c));
    _ ← require (validKeyHash (pc_hash c) && is_object (Some record));
    modify (fun t => t <| tb_cache ::= <[(pc_hash c, (pc_namespace c, key)) := MkCacheRow version record (Add now (pc_ttl c))]> |>)) t.
Definition cache_Delete (c : PostgresCache) (f : fate) (key : string) (t : Tables) : Tables * res service_error unit :=
  withStorageTx f (modify (fun t => t <| tb_cache ::= delete (pc_hash c, (pc_namespace c, key)) |>)) t.
