(* ===== verification/StoreProperties.v ===== *)
(** * StoreProperties: what the reference service keeps for an access key

    Theorems about [ProfileStore] over every sequence of operations, whatever becomes of
    their transactions: the rows of an access key are written by its own calls alone, every
    stored credential opens for the key and the origin it is stored under, a profile
    resolves to a credential of its own key at its own origin, drafts are replaced by
    comparison of their revision, and a bundle restores what it was exported from. *)
From Stdlib Require Import Ascii.
From stdpp Require Import gmap sorting relations.
From S2P Require Import Prelude Json JsonText Runtime ProviderPayload Client Ledger SchemaNumber AdmissionOrigin Base64 Credential CredentialProperties Profile ProfileStore.

Open Scope string_scope.
Open Scope list_scope.
Open Scope Z_scope.

(** ** Frames and the invariant *)

Definition same_rows (h : string) (t t' : Tables) : Prop :=
  (∀ id, tb_credentials t' !! (h, id) = tb_credentials t !! (h, id)) ∧ (∀ id, tb_profiles t' !! (h, id) = tb_profiles t !! (h, id))
  ∧ (∀ id, tb_hidden t' !! (h, id) = tb_hidden t !! (h, id)) ∧ (∀ id, tb_drafts t' !! (h, id) = tb_drafts t !! (h, id))
  ∧ (∀ id, tb_cache t' !! (h, id) = tb_cache t !! (h, id)).
Definition framed (h : string) (t t' : Tables) : Prop := ∀ h', h' ≠ h → same_rows h' t t'.

Lemma framed_refl h t : framed h t t.
Proof. by intros h' _. Qed.
Lemma framed_trans h t1 t2 t3 : framed h t1 t2 → framed h t2 t3 → framed h t1 t3.
Proof.
  intros H1 H2 h' Hh. destruct (H1 h' Hh) as (A1 & A2 & A3 & A4 & A5), (H2 h' Hh) as (B1 & B2 & B3 & B4 & B5).
  split_and!; intros id; [rewrite B1|rewrite B2|rewrite B3|rewrite B4|rewrite B5]; auto.
Qed.

(** The revision of a stored draft is positive. *)
Definition drafts_positive (t : Tables) : Prop := ∀ h key r, tb_drafts t !! (h, key) = Some r → 0 < dt_revision r.

Section Store.
Context `{VE : VaultEnv} `{!GcmLaws} `{PE : ProfileEnv}.
Variable definition_json : Profile → json.
Variable bundle_len : ProfileBundle → Z.
Variable s : Service.

Definition row_opens (h id : string) (r : credential_row) (p : CredentialPayload) : Prop :=
  Open (sv_Vault s) (cr_Encrypted (credential_of h id r)) (MkBinding h id (ct_origin r)) = Ok p.

Record TablesOK (t : Tables) : Prop := {
  to_opens : ∀ h id r, tb_credentials t !! (h, id) = Some r → ∃ p, row_opens h id r p;
  to_bound : ∀ h id r, tb_profiles t !! (h, id) = Some r → pr_APIKeyHash r = h
    ∧ (pb_EnteredCredentialID (pr_Binding r) ≠ "" → is_Some (tb_credentials t !! (h, pb_EnteredCredentialID (pr_Binding r))));
  to_drafts : drafts_positive t;
}.

(** A statement for an access key. *)
Definition keeps {A : Type} (h : string) (m : Stmt A) : Prop :=
  ∀ t a t', m t = Ok (a, t') → framed h t t' ∧ (TablesOK t → TablesOK t').

Lemma keeps_ret {A : Type} h (a : A) : keeps h (mret a).
Proof. intros t x t' [= <- <-]. split; [apply framed_refl|done]. Qed.
Lemma keeps_bind {A B : Type} h (m : Stmt A) (k : A → Stmt B) : keeps h m → (∀ a, keeps h (k a)) → keeps h (m ≫= k).
Proof.
  intros Hm Hk t b t2 E. unfold mbind, Stmt_bind in E. destruct (m t) as [[a t1]|] eqn:E1; [|done].
  destruct (Hm _ _ _ E1) as [F1 I1], (Hk _ _ _ _ E) as [F2 I2]. split; [by eapply framed_trans|auto].
Qed.
Lemma keeps_query {A : Type} h (f : Tables → A) : keeps h (query f).
Proof. intros t x t' [= <- <-]. split; [apply framed_refl|done]. Qed.
Lemma keeps_raise {A : Type} h e : keeps h (raise e : Stmt A).
Proof. by intros t x t'. Qed.
Lemma keeps_lift {A : Type} h (r : res service_error A) : keeps h (lift r).
Proof. unfold lift. intros t x t'. destruct r; intros [= <- <-]. split; [apply framed_refl|done]. Qed.
Lemma keeps_require h c : keeps h (require c).
Proof. unfold require. destruct c; [apply keeps_ret|apply keeps_raise]. Qed.
Lemma keeps_modify h (f : Tables → Tables) : (∀ t, framed h t (f t)) → (∀ t, TablesOK t → TablesOK (f t)) → keeps h (modify f).
Proof. intros H1 H2 t x t' [= <- <-]. auto. Qed.

Lemma keeps_tx {A : Type} h (fn : Stmt A) f t : keeps h fn → framed h t (withStorageTx f fn t).1 ∧ (TablesOK t → TablesOK (withStorageTx f fn t).1).
Proof.
  intros HK. assert (framed h t t ∧ (TablesOK t → TablesOK t)) as H0 by (split; [apply framed_refl|done]).
  unfold withStorageTx. destruct f; try exact H0; (destruct (fn t) as [[a t']|] eqn:E; [|exact H0]); try exact H0; exact (HK _ _ _ E).
Qed.

(** Changes that are not of credentials or profiles. *)
Lemma TablesOK_drafts t t' : tb_credentials t' = tb_credentials t → tb_profiles t' = tb_profiles t → drafts_positive t' → TablesOK t → TablesOK t'.
Proof. intros E1 E2 HD [H1 H2 _]. split; rewrite ?E1, ?E2; done. Qed.
Lemma TablesOK_same t t' :
  tb_credentials t' = tb_credentials t → tb_profiles t' = tb_profiles t → tb_drafts t' = tb_drafts t → TablesOK t → TablesOK t'.
Proof. intros E1 E2 E3 HT. apply (TablesOK_drafts t); try done. intros h key r. rewrite E3. apply HT. Qed.

Lemma framed_hidden h id v t : framed h t (t <| tb_hidden ::= <[(h, id) := v]> |>).
Proof. intros h' Hh. split_and!; intros id'; cbn; try done. by rewrite lookup_insert_ne by congruence. Qed.
Lemma framed_profile h id v t : framed h t (t <| tb_profiles ::= <[(h, id) := v]> |>).
Proof. intros h' Hh. split_and!; intros id'; cbn; try done. by rewrite lookup_insert_ne by congruence. Qed.
Lemma framed_credential h id v t : framed h t (t <| tb_credentials ::= <[(h, id) := v]> |>).
Proof. intros h' Hh. split_and!; intros id'; cbn; try done. by rewrite lookup_insert_ne by congruence. Qed.

(** ** Credentials *)

Definition candidate_ok (h : string) (c : CredentialRecord) : Prop :=
  cb_APIKeyHash (cr_Binding c) = h ∧ ec_SchemaVersion (cr_Encrypted c) = 1 ∧ ec_Algorithm (cr_Encrypted c) = "AES-256-GCM"
  ∧ (∃ nonce ciphertext, ec_Nonce (cr_Encrypted c) = RawURLEncode nonce ∧ ec_Ciphertext (cr_Encrypted c) = RawURLEncode ciphertext)
  ∧ ∃ p, Open (sv_Vault s) (cr_Encrypted c) (cr_Binding c) = Ok p.

Lemma put_credential_keeps h id r : (∃ p, row_opens h id r p) → keeps h (put_credential h id r).
Proof.
  intros HO. apply keeps_bind; [apply keeps_require|]. intros _. apply keeps_modify; [intros; apply framed_credential|].
  intros t [H1 H2 H3]. split; cbn; [..|done].
  - intros h' id' r'. rewrite lookup_insert_Some. intros [([= -> ->] & ->)|[_ ?]]; [done|eauto].
  - intros h' id' r' Hr. destruct (H2 _ _ _ Hr) as [? HF]. split; [done|]. intros Hne. destruct (HF Hne) as [x Hx].
    rewrite lookup_insert_is_Some. destruct (decide ((h, id) = (h', pb_EnteredCredentialID (pr_Binding r')))); [by left|right; by rewrite Hx].
Qed.

Lemma candidate_row h c now nonce ciphertext revision created :
  candidate_ok h c → encrypted_bytes (cr_Encrypted c) = Ok (nonce, ciphertext) →
  ∃ p, row_opens (cb_APIKeyHash (cr_Binding c)) (cb_CredentialID (cr_Binding c))
         (MkCredentialRow (cb_Origin (cr_Binding c)) (ec_KeyID (cr_Encrypted c)) nonce ciphertext revision created now) p.
Proof.
  intros (_ & Ev & Ea & (n & x & En & Ex) & p & HO) Eb. exists p. unfold row_opens, credential_of. cbn.
  unfold encrypted_bytes in Eb. rewrite En, Ex, !raw_url_roundtrip in Eb. injection Eb as <- <-.
  rewrite <- En, <- Ex, <- Ev, <- Ea. destruct c as [[] [] ? ? ?]; exact HO.
Qed.

Lemma keeps_lift_bind {A B : Type} h (r : res service_error A) (k : A → Stmt B) : (∀ a, r = Ok a → keeps h (k a)) → keeps h (lift r ≫= k).
Proof.
  intros Hk t b t' E. unfold mbind, Stmt_bind, lift in E. destruct r as [a|]; [|done]. exact (Hk a eq_refl _ _ _ E).
Qed.

Lemma insertCredentialTx_keeps h c now : candidate_ok h c → keeps h (insertCredentialTx c now).
Proof.
  intros HC. unfold insertCredentialTx. apply keeps_lift_bind. intros [nonce ciphertext] E. apply keeps_bind; [apply keeps_query|].
  intros [old|]; [apply keeps_raise|]. pose proof (candidate_row h c now nonce ciphertext (cr_Revision c) now HC E) as HO. destruct HC as [<- _].
  by apply put_credential_keeps.
Qed.
Lemma saveCredentialTx_keeps h c expected now : candidate_ok h c → keeps h (saveCredentialTx c expected now).
Proof.
  intros HC. unfold saveCredentialTx. destruct (_ =? _); [by apply insertCredentialTx_keeps|]. apply keeps_lift_bind. intros [nonce ciphertext] E.
  apply keeps_bind; [apply keeps_query|]. intros [old|]; [|apply keeps_raise]. destruct (_ =? _); [|apply keeps_raise].
  pose proof (candidate_row h c now nonce ciphertext (ct_revision old + 1) (ct_created_at old) HC E) as HO. destruct HC as [<- _].
  by apply put_credential_keeps.
Qed.

(** ** Profiles *)

Lemma keeps_uuid h id : keeps h (uuid_argument id).
Proof. unfold uuid_argument. destruct (uuid_value id); [apply keeps_ret|apply keeps_raise]. Qed.

Lemma insertProfileTx_keeps r : keeps (pr_APIKeyHash r) (insertProfileTx r).
Proof.
  unfold insertProfileTx. apply keeps_bind; [apply keeps_uuid|]. intros u. set (q := r <| pr_ID := u |>). intros t a t' E. unfold mbind, Stmt_bind, query, require in E.
  destruct (profile_checks q t && _) eqn:Ec; [|done]. injection E as _ <-. split; [apply framed_profile|].
  apply andb_true_iff in Ec as [Ec _]. intros [H1 H2 H3]. split; cbn; [done| |done]. intros h id x.
  rewrite lookup_insert_Some. intros [([= <- <-] & <-)|[_ Hx]]; [|by eapply H2]. split; [done|]. intros Hne.
  unfold profile_checks in Ec. apply andb_true_iff in Ec as [_ Ec]. apply orb_true_iff in Ec as [Ec|Ec%bool_decide_eq_true]; [|done].
  apply negb_true_iff, negb_false_iff, String.eqb_eq in Ec. done.
Qed.

Lemma delete_profile_keeps h id : keeps h (modify (fun t => t <| tb_profiles ::= delete (h, id) |>)).
Proof.
  apply keeps_modify.
  - intros t h' Hh. split_and!; intros id'; cbn; try done. by rewrite lookup_delete_ne by congruence.
  - intros t [H1 H2 H3]. split; cbn; [done| |done]. intros h' id' r [_ Hr]%lookup_delete_Some. by eapply H2.
Qed.

Lemma DeleteProfile_keeps f now h id t : framed h t (DeleteProfile s f now h id t).1 ∧ (TablesOK t → TablesOK (DeleteProfile s f now h id t).1).
Proof.
  unfold DeleteProfile. destruct (checkScope h); [|split; [apply framed_refl|done]]. apply keeps_tx. destruct (find_preset s id).
  - apply keeps_modify; intros t'; case_bool_decide; [apply framed_refl|apply framed_hidden|done|by apply TablesOK_same].
  - destruct (uuid_Parse id); [|apply keeps_raise]. apply keeps_bind; [apply keeps_uuid|]. intros u. apply keeps_bind; [apply keeps_query|]. intros [r|]; [apply delete_profile_keeps|apply keeps_raise].
Qed.

(** A candidate that [SaveProfile] has sealed. *)
Lemma sealed_candidate_ok h random input c : sealed_candidate s h random input = Ok (Some c) → candidate_ok h c.
Proof.
  unfold sealed_candidate. destruct (sp_Credential input) as [e|]; [|done]. destruct (sv_Vault s) as [vault|] eqn:Ev; [|done].
  destruct (normalizeOrigin _) as [origin|]; [|done]. destruct (Seal _ _ _ _) as [enc|] eqn:Es; [|done]. intros [= <-].
  assert (∃ p, Open (Some vault) enc (MkBinding h (pb_EnteredCredentialID (sp_Binding input)) origin) = Ok p) as HO.
  { exists (ei_Payload e). apply (sealed_opens_iff _ _ _ _ _ _ _ Es). split; [done|]. unfold Seal in Es. apply res_bind_ok in Es as (n & Hn & _).
    by exists n. }
  unfold candidate_ok. rewrite Ev. cbn. unfold Seal in Es. apply res_bind_ok in Es as (n & Hn & Es). apply check_then_ok in Es as [_ Es].
  destruct (slen random <? gcm_NonceSize); [done|]. injection Es as <-. cbn. split_and!; try done. eauto.
Qed.

Lemma SaveProfile_keeps c h input t :
  framed h t (SaveProfile definition_json s c h input t).1 ∧ (TablesOK t → TablesOK (SaveProfile definition_json s c h input t).1).
Proof.
  unfold SaveProfile. set (checked := let? _ := checkScope h in _). destruct checked as [[[[input' candidate] resolved] record]|] eqn:E;
    [|split; [apply framed_refl|done]]. subst checked.
  apply check_then_ok in E as [_ E]. apply res_bind_ok in E as (i & _ & E). apply res_bind_ok in E as (k & Hk & E).
  apply res_bind_ok in E as (r & _ & E). apply check_then_ok in E as [_ E]. destruct (ci_id c) as [id|]; [|done].
  apply res_bind_ok in E as (x & Hx & [= -> -> -> ->]).
  assert (pr_APIKeyHash record = h) as Eh.
  { unfold snapshotRecord in Hx. apply res_bind_ok in Hx as (j & _ & Hx). destruct (uuid_Parse id); [|done].
    apply fail_if_then_ok in Hx as [_ Hx]. apply fail_if_then_ok in Hx as [_ Hx]. apply check_then_ok in Hx as [_ [= <-]]. done. }
  assert (keeps h (save_write input' candidate record (ci_now c))) as HK.
  { apply keeps_bind; [|intros _; rewrite <- Eh; apply insertProfileTx_keeps]. destruct candidate as [cand|]; [|apply keeps_ret].
    destruct (sp_Credential input'); [|apply keeps_ret]. apply saveCredentialTx_keeps. by eapply sealed_candidate_ok. }
  pose proof (keeps_tx h _ (ci_write c) t HK) as HT. destruct (withStorageTx _ _ t) as [t' answer]. exact HT.
Qed.

(** ** Bundles *)

Lemma trim_hex s2 s3 a r : lower_hex a = true → (∀ b, s2 a b = false) → (∀ b c, s3 a b c = false) → trim_with s2 s3 (String a r) = String a r.
Proof.
  intros Ha H2 H3. cbn [trim_with]. assert (space1 a = false) as ->.
  { unfold lower_hex in Ha. rewrite orb_true_iff, !between_spec in Ha. unfold space1. rewrite ?orb_false_iff. destruct (between _ _ _) eqn:E.
    - apply between_spec in E. lia.
    - cbn. rewrite ?Nat.eqb_neq. lia. }
  destruct r as [|b r]; [done|]. rewrite H2. destruct r; [done|]. by rewrite H3.
Qed.

Lemma hex_range a : lower_hex a = true → (48 ≤ nat_of_ascii a ≤ 102)%nat.
Proof. unfold lower_hex. rewrite orb_true_iff, !between_spec. lia. Qed.
Lemma high_byte a n : (nat_of_ascii a ≤ 102)%nat → (128 ≤ n)%nat → (nat_of_ascii a =? n)%nat = false.
Proof. intros. apply Nat.eqb_neq. lia. Qed.
Lemma high_range a n m : (nat_of_ascii a ≤ 102)%nat → (128 ≤ n)%nat → between n m (nat_of_ascii a) = false.
Proof. intros. destruct (between _ _ _) eqn:E; [|done]. apply between_spec in E. lia. Qed.

Lemma TrimSpace_hash h : validKeyHash h = true → TrimSpace h = h.
Proof.
  intros [Hl Hh]%andb_true_iff. apply Z.eqb_eq in Hl. rewrite forallb_forall in Hh.
  assert (∀ a, In a (String.list_ascii_of_string h) → lower_hex a = true) as Hx by auto. unfold TrimSpace.
  assert (trim_with space2 space3 h = h) as ->.
  { destruct h as [|a r]; [done|]. pose proof (Hx a ltac:(by left)) as Ha. destruct (hex_range a Ha).
    apply trim_hex; [done|..]; intros; unfold space2, space3; cbn zeta; by rewrite !(high_byte a) by lia. }
  rewrite <- (SchemaNumber.string_rev_involutive h) at 2. f_equal. destruct (go_string_rev h) as [|a r] eqn:E; [done|].
  assert (lower_hex a = true) as Ha.
  { apply Hx. assert (h = go_string_rev r +:+ String a "") as -> by (by rewrite <- SchemaNumber.string_rev_cons, <- E, SchemaNumber.string_rev_involutive).
    rewrite AdmissionOrigin.list_ascii_app. apply in_or_app. right. by left. }
  destruct (hex_range a Ha). apply trim_hex; [done|..]; intros; unfold space2, space3; cbn zeta; rewrite ?(high_byte a), ?(high_range a) by lia; cbn;
    rewrite ?andb_false_r; done.
Qed.

Lemma normal_binding h id origin b : validKeyHash h = true → normalizeCredentialBinding (MkBinding h id origin) = Ok b → cb_APIKeyHash b = h.
Proof.
  intros Hh. unfold normalizeCredentialBinding. intros (_ & E)%fail_if_then_ok. apply res_bind_ok in E as (o & _ & [= <-]). cbn. by apply TrimSpace_hash.
Qed.

Lemma read_credentials_ok h now known l out :
  validKeyHash h = true → Forall (fun kv => candidate_ok h kv.2) known → read_credentials s h now known l = Ok out → Forall (fun kv => candidate_ok h kv.2) out.
Proof.
  intros Hh. revert known. induction l as [|c l IH]; intros known Hk; cbn [read_credentials]; [by intros [= <-]|].
  intros E. apply res_bind_ok in E as (r & Hr & E). apply fail_if_then_ok in E as [_ E]. destruct (sv_Vault s) as [vault|] eqn:Ev; [|done].
  destruct (Open _ _ _) as [p|] eqn:Eo; [|done]. eapply IH; [|exact E]. apply Forall_app. split; [done|]. apply Forall_singleton.
  unfold bundleCredentialRecord in Hr. apply res_bind_ok in Hr as (nonce & _ & Hr). apply res_bind_ok in Hr as (text & _ & Hr).
  apply fail_if_then_ok in Hr as [_ Hr]. destruct (normalizeCredentialBinding _) as [b|] eqn:Eb; [|done]. injection Hr as <-.
  unfold candidate_ok. cbn in *. rewrite Ev. split_and!; [by eapply normal_binding|done|done|by eexists _, _|by exists p].
Qed.

Lemma read_profiles_hash h credentials ids l out : read_profiles definition_json s h credentials ids l = Ok out → Forall (fun x => pr_APIKeyHash x.2 = h) out.
Proof.
  revert ids out. induction l as [|e l IH]; intros ids out; cbn [read_profiles]; [by intros [= <-]|]. intros E.
  apply res_bind_ok in E as (x & Hx & E). apply res_bind_ok in E as (more & Hm & [= <-]). constructor; [|by eapply IH].
  unfold read_profile in Hx. destruct (uuid_Parse _); [|done]. destruct (pv_CreatedAt _); [|done]. apply fail_if_then_ok in Hx as [_ Hx].
  destruct (validateSnapshot _ _); [|done]. apply fail_if_then_ok in Hx as [_ Hx]. destruct (resolveDraft _ _ _ _ _); [|done]. by injection Hx as <-.
Qed.

Lemma keeps_each {A : Type} h (insert : A → Stmt unit) l : Forall (fun a => keeps h (insert a)) l → keeps h (each_row insert l).
Proof. induction 1 as [|a l Ha Hl IH]; [apply keeps_ret|]. cbn [each_row]. apply keeps_bind; [done|]. by intros _. Qed.

Lemma keep_others_lookup {A : Type} (h : string) (m : gmap (string * string) A) (h' id : string) :
  keep_others h m !! (h', id) = if bool_decide (h' = h) then None else m !! (h', id).
Proof.
  unfold keep_others. case_bool_decide as E.
  - apply map_lookup_filter_None. right. intros x _ Hn. by apply Hn.
  - destruct (m !! (h', id)) as [x|] eqn:Em; [by apply map_lookup_filter_Some|apply map_lookup_filter_None; by left].
Qed.
Lemma clear_tables_keeps h : keeps h (modify (clear_tables h)).
Proof.
  apply keeps_modify.
  - intros t h' Hh. split_and!; intros id; cbn; rewrite ?keep_others_lookup, ?bool_decide_eq_false_2 by done; done.
  - intros t [H1 H2 H3]. split; cbn; [..|done]; intros h' id r; rewrite keep_others_lookup; (case_bool_decide; [done|]); [apply H1|]. intros Hr.
    destruct (H2 _ _ _ Hr) as [E F]. split; [done|]. intros Hne. rewrite keep_others_lookup, bool_decide_eq_false_2 by done. auto.
Qed.
Lemma hide_preset_keeps h now id : keeps h (hide_preset h now id).
Proof.
  apply keeps_bind; [apply keeps_query|]. intros fresh. apply keeps_bind; [apply keeps_require|]. intros _.
  apply keeps_modify; [intros; apply framed_hidden|intros t; by apply TablesOK_same].
Qed.

Lemma ReplaceBundle_keeps f now probe h bundle t :
  framed h t (ReplaceBundle definition_json bundle_len s f now probe h bundle t).1
  ∧ (TablesOK t → TablesOK (ReplaceBundle definition_json bundle_len s f now probe h bundle t).1).
Proof.
  unfold ReplaceBundle. set (checked := let? _ := checkScope h in _). destruct checked as [[credentials profiles]|] eqn:E; [|split; [apply framed_refl|done]].
  subst checked. apply check_then_ok in E as [Hs E]. apply fail_if_then_ok in E as [_ E]. apply fail_if_then_ok in E as [_ E].
  apply res_bind_ok in E as (cs & Hc & E). apply res_bind_ok in E as (ps & Hp & E). apply check_then_ok in E as [_ E]. apply check_then_ok in E as [_ [= -> ->]].
  assert (validKeyHash h = true) as Hh by (apply fail_if_ok in Hs; by apply negb_false_iff in Hs).
  apply keeps_tx. apply keeps_bind; [apply clear_tables_keeps|]. intros _. apply keeps_bind.
  { apply keeps_each, Forall_map. eapply Forall_impl; [exact (read_credentials_ok h now [] _ _ Hh (Forall_nil_2 _) Hc)|]. intros kv Hk. by apply insertCredentialTx_keeps. }
  intros _. apply keeps_bind.
  { apply keeps_each, Forall_map. eapply Forall_impl; [exact (read_profiles_hash _ _ _ _ _ Hp)|]. intros x <-. apply insertProfileTx_keeps. }
  intros _. apply keeps_each, Forall_forall. intros id _. apply hide_preset_keeps.
Qed.

(** ** Drafts and cache entries *)

Lemma delete_all_lookup {K A : Type} `{Countable K} (l : list K) (m : gmap K A) k : k ∉ l → foldl (fun m k => delete k m) m l !! k = m !! k.
Proof.
  revert m. induction l as [|x l IH]; intros m Hk; [done|]. apply not_elem_of_cons in Hk as [H1 H2]. cbn. rewrite IH by done. by rewrite lookup_delete_ne.
Qed.
Lemma delete_all_Some {K A : Type} `{Countable K} (l : list K) (m : gmap K A) k x : foldl (fun m k => delete k m) m l !! k = Some x → m !! k = Some x.
Proof. revert m. induction l as [|y l IH]; intros m; [done|]. cbn. intros [_ Hx]%IH%lookup_delete_Some. done. Qed.

Lemma expired_drafts_sound now h t k : k ∈ expired_drafts now h t → k.1 = h ∧ ∃ r, tb_drafts t !! k = Some r ∧ live_draft now r = false.
Proof.
  unfold expired_drafts. intros ([k' r] & -> & Hk)%list_elem_of_fmap. apply subseteq_take, list_elem_of_In in Hk.
  apply (Permutation_in _ (merge_sort_Permutation sooner _)), filter_In in Hk as [Hin Hb].
  apply andb_true_iff in Hb as [Hc%String.eqb_eq Hl%negb_true_iff]. cbn. split; [done|]. exists r. split; [|done]. apply elem_of_map_to_list. by apply list_elem_of_In.
Qed.

Lemma positive_purge now h t : drafts_positive t → drafts_positive (purge_drafts now h t).
Proof. intros HP h' key r Hr%delete_all_Some. eauto. Qed.
Lemma upsert_positive now h key revision payload t n t' : upsert_draft now h key revision payload t = Some (n, t') → drafts_positive t →
  0 < n ∧ t' = t <| tb_drafts ::= <[(h, key) := MkDraftRow n payload now (Add now draftLifetime)]> |>.
Proof.
  intros E HP. unfold upsert_draft in E. destruct (tb_drafts t !! (h, key)) as [r|] eqn:Er.
  - pose proof (HP _ _ _ Er). repeat case_match; simplify_eq; split; done || lia.
  - rewrite orb_false_r in E. destruct (Z.eqb_spec revision 0) as [->|]; [|done]. by injection E as <- <-.
Qed.
Lemma save_draft_keeps now h key revision payload : keeps h (save_draft_tx now h key revision payload).
Proof.
  apply keeps_bind.
  - apply keeps_modify; [|intros t HT; apply (TablesOK_drafts t); try done; apply positive_purge, HT].
    intros t h' Hh. split_and!; intros id; cbn; try done. apply delete_all_lookup. intros [E _]%expired_drafts_sound. done.
  - intros _ t a t' E. unfold stored_draft in E. destruct (upsert_draft _ _ _ _ _ t) as [[n t1]|] eqn:Eu; [|done]. injection E as <- <-. split.
    + assert (∃ row, t1 = t <| tb_drafts ::= <[(h, key) := row]> |>) as [row ->] by (unfold upsert_draft in Eu; repeat case_match; simplify_eq; eauto).
      intros h' Hh. split_and!; intros id; cbn; try done. by rewrite lookup_insert_ne by congruence.
    + intros HT. destruct (upsert_positive _ _ _ _ _ _ _ _ Eu (to_drafts _ HT)) as [Hn ->]. apply (TablesOK_drafts t); try done.
      intros h' key' r. cbn. rewrite lookup_insert_Some. intros [(_ & <-)|[_ Hr]]; [done|by eapply HT].
Qed.
Lemma SaveDraft_keeps f now h key input t : framed h t (SaveDraft f now h key input t).1 ∧ (TablesOK t → TablesOK (SaveDraft f now h key input t).1).
Proof.
  unfold SaveDraft. destruct (let? _ := checkScope h in _); [|split; [apply framed_refl|done]].
  pose proof (keeps_tx h _ f t (save_draft_keeps now h key (di_Revision input) (default JNull (di_Payload input)))) as HT.
  destruct (withStorageTx _ _ t). exact HT.
Qed.

Lemma purged_key now h t k :
  k ∈ map fst (take 100 (merge_sort cache_sooner (List.filter (fun kv => String.eqb kv.1.1 h && negb (live_entry now kv.2)) (map_to_list (tb_cache t))))) → k.1 = h.
Proof.
  intros ([k' r] & -> & Hk)%list_elem_of_fmap. apply subseteq_take, list_elem_of_In in Hk.
  apply (Permutation_in _ (merge_sort_Permutation cache_sooner _)), filter_In in Hk as [_ [Hc%String.eqb_eq _]%andb_true_iff]. done.
Qed.
Lemma cache_Set_keeps c f now key version record t :
  framed (pc_hash c) t (cache_Set c f now key version record t).1 ∧ (TablesOK t → TablesOK (cache_Set c f now key version record t).1).
Proof.
  apply keeps_tx, keeps_bind.
  - apply keeps_modify; [|intros t'; by apply TablesOK_same]. intros t' h' Hh. split_and!; intros id; cbn; try done.
    apply delete_all_lookup. intros E%purged_key. done.
  - intros _. apply keeps_bind; [apply keeps_require|]. intros _. apply keeps_modify; [|intros t'; by apply TablesOK_same].
    intros t' h' Hh. split_and!; intros id; cbn; try done. by rewrite lookup_insert_ne by congruence.
Qed.
Lemma cache_Delete_keeps c f key t : framed (pc_hash c) t (cache_Delete c f key t).1 ∧ (TablesOK t → TablesOK (cache_Delete c f key t).1).
Proof.
  apply keeps_tx, keeps_modify; [|intros t'; by apply TablesOK_same].
  intros t' h' Hh. split_and!; intros id; cbn; try done. by rewrite lookup_delete_ne by congruence.
Qed.

(** ** Every sequence of operations *)

(** A call for the access key [h], whatever becomes of its transactions. *)
Inductive store_step (h : string) (t : Tables) : Tables → Prop :=
| by_save c input : store_step h t (SaveProfile definition_json s c h input t).1
| by_delete f now id : store_step h t (DeleteProfile s f now h id t).1
| by_replace f now probe bundle : store_step h t (ReplaceBundle definition_json bundle_len s f now probe h bundle t).1
| by_draft f now key input : store_step h t (SaveDraft f now h key input t).1
| by_cache_set c f now key version record : pc_hash c = h → store_step h t (cache_Set c f now key version record t).1
| by_cache_delete c f key : pc_hash c = h → store_step h t (cache_Delete c f key t).1.

Inductive reachable : Tables → Prop :=
| reachable_empty : reachable (MkTables ∅ ∅ ∅ ∅ ∅)
| reachable_step t h t' : reachable t → store_step h t t' → reachable t'.

Lemma store_step_keeps h t t' : store_step h t t' → framed h t t' ∧ (TablesOK t → TablesOK t').
Proof.
  destruct 1 as [c input|f now id|f now probe bundle|f now key input|c f now key version record <-|c f key <-].
  - apply SaveProfile_keeps.
  - apply DeleteProfile_keeps.
  - apply ReplaceBundle_keeps.
  - apply SaveDraft_keeps.
  - apply cache_Set_keeps.
  - apply cache_Delete_keeps.
Qed.
Lemma reachable_ok t : reachable t → TablesOK t.
Proof. induction 1 as [|t h t' _ IH HS]; [by split; intros h id r; cbn; rewrite lookup_empty|]. by apply (store_step_keeps h t t' HS). Qed.

(** ** Resolution *)

(** Where the key of a resolved profile comes from: a credential of the access key, or a
    connection of the deployment, at the origin that the profile calls. *)
Definition key_at_origin (h : string) (r : ResolvedProfile) (t : Tables) : Prop :=
  let b := pd_Binding (rv_Draft r) in
  let c := rv_Connection r in
  ∃ origin, originForURL (cc_BaseURL c) = Ok origin
  ∧ ((∃ row p, tb_credentials t !! (h, pb_EnteredCredentialID b) = Some row ∧ ct_origin row = origin
        ∧ row_opens h (pb_EnteredCredentialID b) row p ∧ cc_APIKey c = cy_APIKey p)
     ∨ ∃ loaded, catalog_lookup (pb_DeploymentUpstreamID b) (sv_Connections s) = Some loaded ∧ originForURL (cc_BaseURL loaded) = Ok origin
        ∧ cc_APIKey c = cc_APIKey loaded).

Lemma resolveDraft_key h draft t r : resolveDraft s h draft None t = Ok r → key_at_origin h r t.
Proof.
  unfold resolveDraft. intros E. apply res_bind_ok in E as (d & _ & E). destruct (originForURL (pf_BaseURL d)) as [origin|] eqn:Eo; [|done].
  apply res_bind_ok in E as ([c n] & Hb & [= <-]). unfold key_at_origin. cbn [rv_Draft rv_Connection pd_Binding fst].
  unfold bound_connection in Hb. destruct (String.eqb _ "deployment").
  - destruct (catalog_lookup _ _) as [loaded|] eqn:El; [|done]. destruct (String.eqb (cc_APIKey loaded) ""); [done|].
    destruct (originForURL (cc_BaseURL loaded)) as [lo|] eqn:Elo; [|done]. destruct (String.eqb_spec origin lo) as [<-|]; [|done]. injection Hb as <- <-.
    exists origin. split; [exact Eo|]. right. by exists loaded.
  - destruct (String.eqb _ "entered"); [|done]. unfold read_credential in Hb.
    destruct (tb_credentials t !! _) as [row|] eqn:Er; cbn [fmap option_fmap option_map] in Hb; [|done].
    case_bool_decide as Eb; cbn [negb] in Hb; [|done]. apply res_bind_ok in Hb as (p & Hp & [= <- <-]). exists origin. split; [exact Eo|]. left.
    exists row, p. unfold credential_of in Eb. cbn in Eb. injection Eb as Eb. split; [first [exact Er|reflexivity]|]. split; [exact Eb|]. split; [|done].
    unfold openRecord in Hp. unfold row_opens. rewrite Eb. destruct (Open _ _ _) as [q|] eqn:Eq; [|done]. by injection Hp as <-.
Qed.

Lemma ResolveProfile_key f h id t r : ResolveProfile s f h id t = Ok r → key_at_origin h r t.
Proof.
  unfold ResolveProfile. intros [_ E]%check_then_ok. set (fn := _ ≫= _) in E.
  assert (∃ t', fn t = Ok (r, t')) as [t' Ef].
  { unfold withStorageTx in E. destruct f; [|discriminate E|..]; (destruct (fn t) as [[x t']|]; [|discriminate E]); try discriminate E.
    cbn in E. injection E as <-. by exists t'. }
  subst fn. unfold mbind, Stmt_bind, query, lift in Ef. destruct (profileDraftTx s h id t) as [[draft t1]|] eqn:Ed; [|done].
  destruct (resolveDraft s h draft None t1) as [x|] eqn:Ex; [|done]. injection Ef as -> ->. assert (t' = t) as ->; [|by apply (resolveDraft_key h draft)].
  unfold profileDraftTx, uuid_argument, mbind, Stmt_bind, mret, Stmt_ret, query, raise in Ed. repeat case_match; simplify_eq; done.
Qed.

(** ** Drafts *)

Lemma purge_revision now h key t : draft_revision now h key (purge_drafts now h t) = draft_revision now h key t.
Proof.
  unfold draft_revision, purge_drafts. cbn. destruct (foldl _ _ _ !! (h, key)) as [r|] eqn:E.
  - by rewrite (delete_all_Some _ _ _ _ E).
  - destruct (tb_drafts t !! (h, key)) as [r|] eqn:Er; [|done]. destruct (live_draft now r) eqn:El; [|done].
    rewrite delete_all_lookup, Er in E; [done|]. intros (_ & r' & Hr & Hl)%expired_drafts_sound. rewrite Er in Hr. injection Hr as <-. congruence.
Qed.

Lemma upsert_draft_spec now h key revision payload t :
  0 ≤ revision → drafts_positive t →
  upsert_draft now h key revision payload t
  = if draft_revision now h key t =? revision
    then Some (revision + 1, t <| tb_drafts ::= <[(h, key) := MkDraftRow (revision + 1) payload now (Add now draftLifetime)]> |>) else None.
Proof.
  intros Hr HP. unfold upsert_draft, draft_revision. destruct (tb_drafts t !! (h, key)) as [r|] eqn:E.
  - pose proof (HP _ _ _ E) as Hp. destruct (live_draft now r) eqn:El; cbn [negb andb orb].
    + rewrite ?andb_true_r, ?andb_false_r. cbn [orb]. destruct (Z.eqb_spec (dt_revision r) revision) as [<-|Hne].
      * rewrite orb_true_r. cbn [negb]. by rewrite (proj2 (Z.ltb_lt _ _) Hp).
      * rewrite orb_false_r, !andb_false_r. by destruct (revision =? 0).
    + rewrite ?andb_true_r, ?andb_false_r, ?orb_false_r. destruct (Z.eqb_spec revision 0) as [->|Hne]; [done|]. cbn [negb]. by rewrite (proj2 (Z.eqb_neq 0 revision)) by lia.
  - rewrite orb_false_r. destruct (Z.eqb_spec revision 0) as [->|Hne]; [done|]. cbn [negb]. by rewrite (proj2 (Z.eqb_neq 0 revision)) by lia.
Qed.

End Store.

(** ** The properties *)

(** C27: over every sequence of operations for any access keys, whatever becomes of their
    transactions, every stored credential opens for the access key, the identifier and the
    origin it is stored under; a profile bound to an entered credential has it; an
    operation changes rows of its own access key alone; and a profile resolves to the key
    of a credential of the caller's access key, or of a deployed connection, at the origin
    that the profile calls. *)
Theorem store_tenants_isolated `{GcmLaws} `{ProfileEnv} (definition_json : Profile → json) (bundle_len : ProfileBundle → Z) (s : Service) (t : Tables) :
  reachable definition_json bundle_len s t →
  (∀ h id r, tb_credentials t !! (h, id) = Some r → ∃ p, row_opens s h id r p)
  ∧ (∀ h id r, tb_profiles t !! (h, id) = Some r → pb_EnteredCredentialID (pr_Binding r) ≠ "" →
       is_Some (tb_credentials t !! (h, pb_EnteredCredentialID (pr_Binding r))))
  ∧ (∀ h t', store_step definition_json bundle_len s h t t' → ∀ h', h' ≠ h → same_rows h' t t')
  ∧ (∀ f h id r, ResolveProfile s f h id t = Ok r → key_at_origin s h r t).
Proof.
  intros HR%reachable_ok. split; [apply HR|]. split; [intros h id r Hr; exact (proj2 (to_bound s t HR h id r Hr))|].
  split; [intros h t' HS; by apply (store_step_keeps definition_json bundle_len s h t t' HS)|]. intros f h id r. apply ResolveProfile_key.
Qed.

(** C28: a draft is saved by comparison of its revision: a save that carries the revision
    that the draft has (0 when there is none, or it has expired) is stored under the next
    one and is what the next read returns; any other save changes nothing and is told the
    revision that the draft has. *)
Theorem draft_saved_by_comparison `{GcmLaws} `{ProfileEnv} (definition_json : Profile → json) (bundle_len : ProfileBundle → Z) (s : Service) (t : Tables) now h key input :
  reachable definition_json bundle_len s t →
  checkScope h = Ok tt → validateDraftKey key = Ok tt → validateDraft input = Ok tt →
  match SaveDraft Committed now h key input t with
  | (t', Ok d) => draft_revision now h key t = di_Revision input ∧ df_Revision d = di_Revision input + 1 ∧ Some (df_Payload d) = di_Payload input
                  ∧ draft_revision now h key t' = df_Revision d ∧ GetDraft Committed now h key t' = Ok d
  | (t', Err e) => draft_revision now h key t ≠ di_Revision input ∧ e = revisionConflict (draft_revision now h key t) ∧ t' = t
  end.
Proof.
  intros HR%reachable_ok Hs Hk Hv. unfold SaveDraft. rewrite Hs, Hk, Hv. cbn [res_bind]. unfold withStorageTx, save_draft_tx, mbind, Stmt_bind, modify, stored_draft.
  pose proof Hv as Hv'. unfold validateDraft in Hv'. apply fail_if_then_ok in Hv' as [Hb Hp%fail_if_ok].
  rewrite upsert_draft_spec; [|apply orb_false_iff in Hb as [Hb%Z.ltb_ge _]; exact Hb|apply positive_purge, HR]. rewrite purge_revision.
  destruct (Z.eqb_spec (draft_revision now h key t) (di_Revision input)) as [E|E]; cbn [res_bind]; [|done].
  split; [done|]. split; [done|]. split; [by destruct (di_Payload input)|].
  assert (live_draft now (MkDraftRow (di_Revision input + 1) (default JNull (di_Payload input)) now (Add now draftLifetime)) = true) as Hl.
  { unfold live_draft. cbn. apply Z.ltb_lt. unfold Add, draftLifetime, Hour, Minute, Second. lia. }
  split.
  - unfold draft_revision. cbn. rewrite lookup_insert_eq, Hl. done.
  - unfold GetDraft. rewrite Hs, Hk. cbn [res_bind]. unfold withStorageTx, query. cbn. rewrite lookup_insert_eq, Hl. done.
Qed.

(** *** A service with one access key *)

Definition demo_policy : json :=
  JObj [("maxAttempts", JNum "1"); ("retryOn", JArr []); ("backoff", JObj [("baseDelayMs", JNum "0"); ("maxDelayMs", JNum "0")]); ("jsonRepair", JNull); ("rerun", JNull)].
Definition demo_definition : json :=
  JObj [("schemaVersion", JNum "4"); ("provider", JStr "openai"); ("apiInferenceType", JStr "responses"); ("baseUrl", JStr "api.example"); ("modelId", JStr "m");
        ("pricing", JNull); ("supportsTemperature", JNull); ("supportsContractedStructuredOutput", JBool true); ("tokensParam", JNull); ("responsesTokensParam", JNull);
        ("defaultOptions", JObj []); ("recoveryPolicy", demo_policy)].
Definition DemoProfiles : ProfileEnv := {| parse_time := fun _ => None; stamp_text := fun _ => "2026"; uuid_Parse := fun id => Some id; uuid_value := fun id => Some id; snapshot_len := fun _ => 0 |}.
Definition demo_service : Service := MkService [] [] (Some (MkVault "k")) Hour.
Definition demo_input : SaveProfileInput :=
  MkSave "mine" "" (Some demo_definition) (Some (JObj [("userPrompt", JStr "hi")])) (MkProfileBinding "entered" "" "c1")
    (Some (MkEntered "c1" 0 "https://api.example" demo_payload)).
Definition no_tables : Tables := MkTables ∅ ∅ ∅ ∅ ∅.
Definition demo_circumstances : circumstances := MkCircumstances Committed no_tables "0123456789ab" (fun _ => Ok tt) (Some "00000000") Hour Committed.
Definition demo_tables : Tables := (@SaveProfile DemoVault DemoProfiles (fun _ => demo_definition) demo_service demo_circumstances demo_hash demo_input no_tables).1.

Lemma demo_reachable : @reachable DemoVault DemoProfiles (fun _ => demo_definition) (fun _ => 0) demo_service demo_tables.
Proof. eapply reachable_step; [apply reachable_empty|]. apply by_save. Qed.
Lemma demo_resolved : ∃ r, @ResolveProfile DemoVault DemoProfiles demo_service Committed demo_hash "00000000" demo_tables = Ok r ∧ cc_APIKey (rv_Connection r) = "sk-secret".
Proof. eexists. split; [vm_compute; reflexivity|reflexivity]. Qed.

Lemma store_tenants_isolated_witness :
  ∃ r, @ResolveProfile DemoVault DemoProfiles demo_service Committed demo_hash "00000000" demo_tables = Ok r
    ∧ cc_APIKey (rv_Connection r) = "sk-secret" ∧ @key_at_origin DemoVault demo_service demo_hash r demo_tables.
Proof.
  destruct demo_resolved as [r [Hr Hk]]. exists r. split; [exact Hr|]. split; [exact Hk|].
  destruct (@store_tenants_isolated DemoVault demo_gcm DemoProfiles _ _ _ _ demo_reachable) as (_ & _ & _ & HK). exact (HK _ _ _ _ Hr).
Defined.

Definition demo_draft : SaveDraftInput := MkDraftInput 0 (Some (JObj [("userPrompt", JStr "later")])) 20.
Lemma draft_saved_by_comparison_witness :
  match SaveDraft Committed Hour demo_hash "main" demo_draft demo_tables with
  | (t', Ok d) => df_Revision d = 1 ∧ GetDraft Committed Hour demo_hash "main" t' = Ok d
  | (_, Err _) => False
  end.
Proof.
  pose proof (@draft_saved_by_comparison DemoVault demo_gcm DemoProfiles _ _ _ _ Hour demo_hash "main" demo_draft demo_reachable eq_refl eq_refl eq_refl) as HD.
  assert (draft_revision Hour demo_hash "main" demo_tables = 0) as E by (vm_compute; reflexivity).
  destruct (SaveDraft _ _ _ _ _ _) as [t' [d|e]].
  - destruct HD as (_ & H1 & _ & _ & H2). split; [exact H1|exact H2].
  - destruct HD as [H1 _]. apply H1. exact E.
Defined.
